(* ===== verification/_CoqProject ===== *)
-Q . S2P
Prelude.v
Decimal.v
Sorting.v
Metadata.v
Json.v
FlowValue.v
Event.v
Lifecycle.v
LifecycleTheory.v
Validate.v
ValidateTheory.v
StreamProps.v
StreamExamples.v
Paths.v
Values.v
ValuesTheory.v
Blocks.v
CanonicalBlock.v
Registry.v
NestingTheory.v
RegistryTheory.v
Errors.v
EffectTheory.v
PhaseControl.v
PhaseControlTheory.v
Policy.v
PolicyTheory.v
ScriptExamples.v
OwnScript.v
OwnScriptTheory.v
Context.v
ContextTheory.v
Builder.v
BuilderTheory.v
Planner.v
NoPanic.v
PlannerTheory.v
PlanProps.v
PlanExamples.v
AlternativeTheory.v
Live.v
LiveTheory.v
ReserveTheory.v
Apply.v
ApplyTheory.v
ApplyProps.v
ApplyExamples.v
Segments.v
SegmentsTheory.v
Appender.v
AppenderTheory.v
AppenderProps.v
Writer.v
WriterClient.v
WriterTheory.v
WriterProps.v
WriterExamples.v
Lines.v
LinesTheory.v
Resume.v
ResumeTheory.v
ResumeProps.v
ResumeReplay.v
ResumeExamples.v
Objects.v
ObjectsTheory.v
ObjectsProps.v
ObjectsInventory.v
ObjectsPreflight.v
Manifests.v
ManifestsTheory.v
ManifestsExamples.v
SortKey.v
SortKeyTheory.v
Document.v
DocumentTheory.v
Order.v
OrderTheory.v
DocumentExamples.v
