(* ===== verification/Prelude.v ===== *)
(** * Watershed: the core of the protocol, the script language, the Flow runtime and Liquid

    Watershed runs Flows: a script registry declares Tools, Instructions, Phases and Flows;
    the Flow runtime executes a Flow and records what happened as a stream of events, one
    canonical JSON line each; other programs read the stream back and trust it.  Liquid keeps
    documents that several replicas edit at once.  This development models the logic these
    parts share and rely on, and proves what one part promises to the next.

    ** Parts and files

    Shared: this file ([result] with a panic, iterators, machine integers, strings as UTF-8
    bytes, the tactics [inv_ok] and [no_panic]), [Decimal] (integers as text), [Sorting] (the
    order of [str], the stable [sort_by], ordered iteration over [gmap] and [gset]).

    The runtime protocol ([src/proto/proto/src]):
    - [Metadata]: [metadata.rs] (event types, session ids, RFC 3339 timestamps);
    - [Json]: [canonical.rs] (duplicate-free reading, NFC, the nesting limit, canonical text);
    - [FlowValue]: [session_object.rs] and [flow_value.rs] (the bounded flow-value-v0 wrapper);
    - [Event]: [event.rs] and [event/payload.rs] (the envelope, payload contracts, one line).

    Session streams ([src/flow-agent/flow-agent-core/src/runtime]):
    - [Lifecycle], [LifecycleTheory]: [validate/lifecycle.rs] and [lifecycle/shared.rs], the
      state machine of flows, phases, tools and messages, with its invariant;
    - [Validate], [ValidateTheory], [StreamProps]: [validate.rs], the validator of a stream as
      text and of events the runtime builds, and what accepted streams satisfy;
    - [StreamExamples]: a concrete stream on which the theorems apply.

    The script language ([src/core/core-script/src/script]):
    - [Paths]: [paths.rs] (ids and safe relative paths);
    - [Values], [ValuesTheory]: [values.rs] (contracts, predicates, Instruction templates);
    - [Blocks]: [model.rs], [semantics.rs], [parameter.rs] (blocks and the checks of one block);
    - [CanonicalBlock]: [canonical.rs] (the canonical order inside a block);
    - [Registry], [NestingTheory], [RegistryTheory]: [registry.rs] and [naming.rs] (names,
      references, nesting, resolution).

    The policy ([src/core/core-policy/src]):
    - [Policy], [PolicyTheory]: [lib.rs], [artifact.rs], [command.rs], [environment.rs],
      [compile.rs], and the question the runtime asks ([policy_resolution.rs]);
    - [ScriptExamples]: a registry, its Phases and its policy at concrete inputs.

    The Flow runtime ([src/flow-agent/flow-agent-core/src/runtime]) plans a session and then
    applies the plan:
    - [Errors], [EffectTheory]: [error.rs], effects on a state that is kept after an error, and
      a small program logic for them;
    - [PhaseControl], [PhaseControlTheory]: [phase_control.rs] and the loop over a sequence of
      Phases in [planning/execution.rs];
    - [OwnScript], [OwnScriptTheory]: [fixture_tools] (the compiler of fixture scripts and the
      check of what they write);
    - [Context], [ContextTheory]: [context.rs], [context/history.rs] and
      [context/provider_turn.rs] (the context of a provider turn and its budget);
    - [Builder], [BuilderTheory]: [event_construction.rs], [stream_signature.rs] and
      [event_construction/transition.rs] (the event builder and the dry run of transitions);
    - [Planner], [NoPanic], [PlannerTheory], [PlanProps], [PlanExamples]: [planning.rs],
      [planning/execution.rs], [stub_provider.rs], [failures.rs], [fixture_effects.rs]
      (a Flow becomes the events and the effects of a session);
    - [AlternativeTheory], [ReserveTheory]: what a plan reserves for its failures;
    - [Live], [LiveTheory]: [live_flow_invocations.rs] (the process-wide counter, as
      interleavings of atomic steps, and the tracker of one application);
    - [Apply], [ApplyTheory], [ApplyProps], [ApplyExamples]: [apply.rs] (the plan is committed
      event by event and its effects are made; failures end the session).

    The committed events are stored in segments on the disk, and a session that stopped is
    resumed from them:
    - [Segments], [SegmentsTheory]: [fs_guards/segmented_jsonl.rs] (names of segments, scans of a
      directory);
    - [Appender], [AppenderTheory], [AppenderProps]: [segmented_appender.rs] (opening,
      rotation, batches, removal of incomplete suffixes,
      synchronization) over a disk whose requests may fail;
    - [Writer], [WriterTheory], [WriterClient], [WriterProps], [WriterExamples]:
      [serial_event_writer.rs], [event_writer.rs] and the pairing check of
      [context_persistence.rs] (the worker thread, its batches and acknowledgements, and the
      client on the other end of the channels);
    - [Lines], [LinesTheory]: [fs_guards/bounded_read.rs] and the readers of
      [anchored_file.rs] and [segmented_jsonl.rs] (line by line, within limits, over segments);
    - [Resume], [ResumeTheory], [ResumeProps], [ResumeReplay], [ResumeExamples]:
      [resume_inspection.rs], [event_writer/resume.rs] and
      the replay of [resume.rs] (inspecting a log, comparing it with the plan, the dry run and
      the sink of a resumed session);
    - [Objects], [ObjectsTheory], [ObjectsProps], [ObjectsInventory], [ObjectsPreflight]:
      [context_persistence/objects.rs], the object names, limits and scan of
      [session_bundle.rs], and the replacement of files of [fs_guards/anchored_file.rs] (the
      content-addressed objects of a session, their account, dry run and publication);
    - [Manifests], [ManifestsTheory], [ManifestsExamples]:
      [context_persistence/manifest.rs], [context_persistence/inspection.rs] and
      [ContextManifestPreflight::open] (the stream of context manifests, which name objects).

    Liquid ([src/liquid/liquid-core/src]):
    - [SortKey], [SortKeyTheory]: [sort_key.rs] (a key between any two keys);
    - [Document], [DocumentTheory]: [model.rs] (entries, siblings, the Page tree);
    - [Order], [OrderTheory]: [order.rs] (the order of the Views of a Page);
    - [DocumentExamples]: a concrete document.

    ** How code is modelled

    A pure function is a function of the same name.  [Result<A, E>] is [result E A], whose
    third constructor [Panic] is a failed [expect], an index out of bounds or an arithmetic
    overflow the code does not guard; the absence of panics is proved.  Code behind [&mut self]
    takes and returns its state; the validator's state and the lifecycle tracker are records
    with the fields of the source.  [BTreeMap] and [BTreeSet] are [gmap] and [gset], or a
    sorted association list where the source iterates.  Integers are [Z] with the width
    written where the code relies on it ([sat_u64], [checked] decimals).

    Interfaces between parts are stated once and used by the clients: [JsonEnv] and [JsonLaws]
    (the JSON and Unicode libraries), [JsonParser] (the JSON reader), [AutoDoc] and
    [AutoDocLaws] (the document library), [registry_ok] and [sequence_ok] (what a resolved
    registry promises to the runtime), [checked_predicate] (what the registry checks so that
    the runtime may evaluate a predicate), [RuntimeEnv] and [RuntimeLaws] (hashing, serde forms
    and allocation), [builder_sound] (what the event builder promises to the planner),
    [reserved] (what a plan promises to its application), [Surroundings] (the sink, the
    workspace and the other threads: every request is recorded, and an answer may depend on all
    requests before it), [Directory] and [Storage] (the operating system: requests are numbered
    and each may fail, a failed write leaves any prefix), [EventLogAppender] and
    [AppenderLaws] (what the appender promises to the writer, discharged by [Appender]),
    [SerialEventBackend], [ManifestStore] and [ObjectPreflight] (what the worker and the dry run
    ask of the stores of contexts, implemented by [session_manifest_store] and
    [session_object_preflight] of [Manifests]), [Channels] (the two channels, which deliver in
    order), [ObjectStorage] and [ObjectStorageLaws] (the directory of the objects, with requests
    that may fail), [ManifestEnv] and [ManifestLaws] (the serde form of a manifest).

    ** What is proved

    - Streams: an accepted stream is well formed and in order (Flows, Phases, Tool calls and
      messages start once, are used while they are open and end once), nothing is left open after its
      end, its budgets hold, validation composes over appends and never panics; every reachable
      lifecycle state satisfies the invariant.
    - Events and values: validation accepts exactly the specified envelopes, payloads and
      values; reading and writing are inverse; canonical text depends only on the value.
    - Script values: contracts are exact; a checked predicate cannot fail; rendering equals
      the unbounded expansion cut off at the limit.
    - Registry: a registry that resolves satisfies [registry_ok]; the nesting check is exact;
      what was put in is found again; the canonical form is independent of authored order.
    - Phases: on [registry_ok] the walk over a sequence ends, goes forward, hands results on
      and yields the declared result, without a panic.
    - Policy and scripts: a compiled policy grants a Tool in a Phase exactly where the Flow
      declares it; a [printf] of a text to an admitted path compiles to just that write.
    - Contexts: a compiled context fits its budget and holds the mandatory sources; a turn is
      compiled exactly for the Phases a Flow reaches.
    - Building and planning: a builder always holds a well-formed stream; the dry run of a
      transition is exact; planning never panics, plans closed sessions and only effects the
      policy grants; the dry run of a Tool's failures covers all of them.  One theorem shows a
      failure that planning does not terminalize ([nested_failure_refused]).
    - Application: the counter of live Flows counts the guards and calls return; whatever the
      surroundings answer, requests follow the plan, end with the failure of one action at most
      and stop at the first refused commit; with a sink that takes the events, every outcome of
      the effects ends as a closed session.
    - Storage: the scan of a directory finds exactly the contiguous segments; a batch that is
      appended leaves whole records, whatever the operating system answers, and says how many;
      what was synchronized is durable; an appender that opens knows its files exactly, whatever
      the directory lists; without faults every append succeeds.
    - Writing: the worker answers every command and stores only what the validator accepted; if all commits
      and the final [finish] of a run succeed, the log holds the events in order and durably.
    - Resumption: without faults a stored log is read back and inspected as what it is; the replay
      accepts a log that holds the first events of the plan (unless the budget has no room or a
      Tool is in flight), and only one with their signature; what the dry run accepts, whatever
      the storage answers, can be written as a valid stream that completes the plan; the sink hands
      the writer just the marker and the missing events.
    - Contexts on disk: persisting objects only adds whole ones under the digest of their bytes,
      durable in bytes and name when it succeeds, and leaves one temporary file at most when it
      fails; and the account of the writer is exact and within the limits whatever fails;
      batches that pass the dry run are persisted when nothing fails; a manifest is never stored
      before its objects; the inspection accepts only manifests whose objects are there, whatever
      the storage answers, and accepts what the writer stored when nothing fails.
    - Liquid: a key between two neighbours exists; the Page tree is complete and ordered; the
      View order refines a plain list.

    ** Fuel

    Loops that are not structural take fuel, with the bound next to the definition and a proof
    that it is enough: the JSON nesting walk (one more than the number of nodes), rendering and
    placeholders (the length of the text), the Page tree (the number of entries), sort keys
    (the length of the keys), the nesting check (the depth limit), canonicalization (the size
    of the value), the loop over Phases (one more than the number of Phases), the nesting of
    Phases and of Flows in the planner (the limit of 16 that a resolved registry keeps), the
    search for the Phases of a turn (the number of Phases a Flow can reach), the loop of a batch
    (the number of records, since a turn takes one at least), the reader of lines (the length of
    the text), the search for a free event id (the number of ids in the log).  The attempts at a
    temporary name are the hundred of the source.

    ** What is not modelled, and why

    The number and string writers of serde_json, Unicode normalization, the regex compiler,
    the document library and SHA-256 are libraries: they are parameters, with the laws relied
    on.  Serde forms derived by macros are parameters.  Reading files, processes, terminals,
    the network, the database and the user interface are input and output without logic of
    their own, or glue.  Memory orderings are not modelled: the counter of live Flows is one
    location, on which all orderings agree.  Of the file system, the disk holds the segments of
    one stream that no other process writes, and the directory of the objects changes only by the
    requests of the session; [fsync] makes the contents of a file durable and
    the synchronization of a directory its names; the theorems on progress and on reading back
    assume that no request fails ([calm], [no_faults]); those on what is accepted do not.  The lock of a session, the checks of a session's
    whole bundle and of its definition before a resumption and the release of resources after
    it are not modelled, nor are the signature of a plan, recovery of a turn's history,
    conversations, [canonical_artifact_json] and writes to
    Liquid documents. *)

From stdpp Require Import base list strings gmap sorting.
From Stdlib Require Import ZArith Lia Ascii String.

Open Scope Z_scope.

(** * Results: [Result<A, E>] plus a panic

    Rust code fails in two ways: a [Result::Err] that callers observe and a panic
    (a failed [expect], an index out of bounds).  [Panic] is a value of the model, so that
    the absence of panics is a theorem and not an assumption. *)

Inductive result (E A : Type) : Type :=
| Ok (a : A)
| Err (e : E)
| Panic.

Arguments Ok {E A} a.
Arguments Err {E A} e.
Arguments Panic {E A}.

#[export] Instance result_ret {E} : MRet (result E) := fun A a => Ok a.

#[export] Instance result_bind {E} : MBind (result E) := fun A B f m =>
  match m with
  | Ok a => f a
  | Err e => Err e
  | Panic => Panic
  end.

#[export] Instance result_fmap {E} : FMap (result E) := fun A B f m =>
  match m with
  | Ok a => Ok (f a)
  | Err e => Err e
  | Panic => Panic
  end.

Declare Scope watershed_scope.
Delimit Scope watershed_scope with watershed.
Open Scope watershed_scope.

(** [reject b e ;; k] is [if b { return Err(e) }] followed by [k]. *)
Notation "'reject' b 'with' e ;; k" := (if b then Err e else k)
  (at level 90, b at level 89, e at level 89, k at level 90, right associativity,
   format "'[v' 'reject'  b  'with'  e  ;; '/' k ']'") : watershed_scope.

(** [Option::ok_or(e)] and [Option::expect]. *)
Definition ok_or {E A} (o : option A) (e : E) : result E A :=
  match o with Some a => Ok a | None => Err e end.

Definition expect {E A} (o : option A) : result E A :=
  match o with Some a => Ok a | None => Panic end.

Definition is_ok {E A} (r : result E A) : bool :=
  match r with Ok _ => true | _ => false end.

Definition map_err {E F A} (f : E -> F) (r : result E A) : result F A :=
  match r with Ok a => Ok a | Err e => Err (f e) | Panic => Panic end.

(** [slice::len]. *)
Definition len {A} (l : list A) : Z := Z.of_nat (List.length l).

Section iterators.
Context {E A B : Type}.

(** A [for] loop with [?] over a slice. *)
Fixpoint try_for_each (f : A -> result E unit) (l : list A) : result E unit :=
  match l with
  | [] => Ok tt
  | a :: l => _ ← f a; try_for_each f l
  end.

(** [iter().map(f).collect::<Result<Vec<_>, _>>()]. *)
Definition try_collect (f : A -> result E B) : list A -> result E (list B) :=
  fix go l :=
    match l with
    | [] => Ok []
    | a :: l => b ← f a; bs ← go l; Ok (b :: bs)
    end.

(** [Iterator::find_map]. *)
Definition find_map (f : A -> option B) : list A -> option B :=
  fix go l :=
    match l with
    | [] => None
    | a :: l => match f a with Some b => Some b | None => go l end
    end.
End iterators.

(** [slice::partition_point]: the length of the prefix on which the predicate holds. *)
Fixpoint partition_point {A} (p : A -> bool) (l : list A) : nat :=
  match l with
  | [] => O
  | a :: l => if p a then S (partition_point p l) else O
  end.

Lemma bind_Ok_inv {E A B} (m : result E A) (f : A -> result E B) b :
  m ≫= f = Ok b -> exists a, m = Ok a /\ f a = Ok b.
Proof. destruct m; cbn; intros H; [eauto|inversion H..]. Qed.

Lemma ok_or_Ok_inv {E A} (o : option A) (e : E) a : ok_or o e = Ok a -> o = Some a.
Proof. destruct o; cbn; congruence. Qed.

Lemma expect_Ok_inv {E A} (o : option A) a : expect (E:=E) o = Ok a -> o = Some a.
Proof. destruct o; cbn; congruence. Qed.

Lemma is_ok_true {E A} (r : result E A) : is_ok r = true <-> exists a, r = Ok a.
Proof. destruct r; cbn; split; intros H; naive_solver. Qed.

Lemma try_for_each_Ok {E A} (f : A -> result E unit) l :
  try_for_each f l = Ok tt <-> Forall (fun a => f a = Ok tt) l.
Proof.
  induction l as [|a l IH]; cbn; [by split; constructor|].
  rewrite Forall_cons. split.
  - intros (u & Hu & Hl)%bind_Ok_inv. destruct u. by rewrite <- IH.
  - intros [Ha Hl]. rewrite Ha. cbn. by apply IH.
Qed.

(** Splits a hypothesis [c = Ok v] along the binds, rejections and matches of [c]. *)
Ltac inv_ok :=
  repeat match goal with
  | H : Ok _ = Ok _ |- _ => injection H as H; subst
  | H : Err _ = Ok _ |- _ => discriminate H
  | H : Panic = Ok _ |- _ => discriminate H
  | H : _ ≫= _ = Ok _ |- _ =>
      let x := fresh "x" in let Hx := fresh "Hx" in
      apply bind_Ok_inv in H as (x & Hx & H)
  | H : ok_or _ _ = Ok _ |- _ => apply ok_or_Ok_inv in H
  | H : expect _ = Ok _ |- _ => apply expect_Ok_inv in H
  | H : (if ?b then Err _ else _) = Ok _ |- _ =>
      let Hb := fresh "Hb" in destruct b eqn:Hb; [discriminate H|]
  end.

(** * No panic

    [no_panic] splits a goal [c <> Panic] along the binds and tests of [c] and closes the
    leaves with the hint database of the same name. *)

Create HintDb no_panic.

Lemma bind_no_panic {E A B} (m : result E A) (f : A -> result E B) :
  m <> Panic -> (forall a, m = Ok a -> f a <> Panic) -> m ≫= f <> Panic.
Proof. destruct m; cbn; auto. Qed.

Lemma Ok_no_panic {E A} (a : A) : Ok (E:=E) a <> Panic.
Proof. done. Qed.

Lemma Err_no_panic {E A} (e : E) : Err (A:=A) e <> Panic.
Proof. done. Qed.

Lemma ok_or_no_panic {E A} (o : option A) (e : E) : ok_or o e <> Panic.
Proof. by destruct o. Qed.

Lemma map_err_no_panic {E F A} (f : E -> F) (r : result E A) :
  r <> Panic -> map_err f r <> Panic.
Proof. by destruct r. Qed.

Lemma try_for_each_no_panic {E A} (f : A -> result E unit) l :
  (forall a, f a <> Panic) -> try_for_each f l <> Panic.
Proof.
  intros Hf. induction l as [|a l IH]; cbn; [done|]. by apply bind_no_panic.
Qed.

Lemma try_collect_no_panic {E A B} (f : A -> result E B) l :
  (forall a, f a <> Panic) -> try_collect f l <> Panic.
Proof.
  intros Hf. induction l as [|a l IH]; cbn; [done|].
  apply bind_no_panic; [done|]. intros b _. by apply bind_no_panic.
Qed.

#[export] Hint Resolve Ok_no_panic Err_no_panic ok_or_no_panic map_err_no_panic
  try_for_each_no_panic try_collect_no_panic : no_panic.

Ltac no_panic :=
  repeat first
    [ solve [eauto with no_panic]
    | match goal with
      | |- (_ ≫= _) <> Panic => apply bind_no_panic; [|intros ? ?]
      | |- (if ?b then _ else _) <> Panic => destruct b eqn:?
      | |- (match ?o with Some _ => _ | None => _ end) <> Panic => destruct o eqn:?
      end ].

(** * Machine integers *)

Definition u8_max : Z := 255.
Definition u16_max : Z := 65535.
Definition u64_max : Z := 18446744073709551615.
Definition i64_min : Z := -9223372036854775808.
Definition i64_max : Z := 9223372036854775807.

Definition in_i64 (z : Z) : Prop := i64_min <= z <= i64_max.
Definition in_u64 (z : Z) : Prop := 0 <= z <= u64_max.

(** [saturating_add] and [saturating_mul] at the width [lo..hi]. *)
Definition clamp (lo hi z : Z) : Z := Z.max lo (Z.min hi z).
Definition sat_i64 (z : Z) : Z := clamp i64_min i64_max z.
Definition sat_u64 (z : Z) : Z := clamp 0 u64_max z.

Lemma sat_i64_id z : in_i64 z -> sat_i64 z = z.
Proof. unfold in_i64, sat_i64, clamp. lia. Qed.

Lemma sat_u64_id z : in_u64 z -> sat_u64 z = z.
Proof. unfold in_u64, sat_u64, clamp. lia. Qed.

#[global] Arguments String.append !_ _ / : simpl nomatch.

(** * Strings as UTF-8 bytes

    A Rust [str] is its UTF-8 bytes; an [ascii] is one byte.  [len] counts bytes, and
    [str] order is the lexicographic order of the bytes. *)

Definition byte (a : ascii) : Z := Z.of_N (N_of_ascii a).
Definition slen (s : string) : Z := Z.of_nat (String.length s).

Fixpoint bytes_all (p : ascii -> bool) (s : string) : bool :=
  match s with
  | EmptyString => true
  | String a s => p a && bytes_all p s
  end.

Definition is_ascii_digit (a : ascii) : bool := (48 <=? byte a) && (byte a <=? 57).
Definition is_ascii_lowercase (a : ascii) : bool := (97 <=? byte a) && (byte a <=? 122).

(** [str::chars().count()]: the bytes that do not continue a scalar value. *)
Fixpoint char_count (s : string) : Z :=
  match s with
  | EmptyString => 0
  | String a s => (if Z.land (byte a) 192 =? 128 then 0 else 1) + char_count s
  end.

Fixpoint strip_prefix (p s : string) : option string :=
  match p, s with
  | EmptyString, _ => Some s
  | String a p, String b s => if Ascii.eqb a b then strip_prefix p s else None
  | String _ _, EmptyString => None
  end.

(** [str::strip_suffix(char)], [str::split(char)] and [str::split_once(char)]. *)
Fixpoint strip_suffix_char (c : ascii) (s : string) : option string :=
  match s with
  | EmptyString => None
  | String a EmptyString => if Ascii.eqb a c then Some EmptyString else None
  | String a s => String a <$> strip_suffix_char c s
  end.

Fixpoint split (c : ascii) (s : string) : list string :=
  match s with
  | EmptyString => [EmptyString]
  | String a s =>
      if Ascii.eqb a c then EmptyString :: split c s
      else match split c s with
           | [] => [String a EmptyString]
           | p :: ps => String a p :: ps
           end
  end.

Fixpoint split_once (c : ascii) (s : string) : option (string * string) :=
  match s with
  | EmptyString => None
  | String a s =>
      if Ascii.eqb a c then Some (EmptyString, s)
      else '(l, r) ← split_once c s; Some (String a l, r)
  end.

Lemma byte_inj a b : byte a = byte b -> a = b.
Proof.
  unfold byte. intros H%N2Z.inj.
  by rewrite <- (ascii_N_embedding a), <- (ascii_N_embedding b), H.
Qed.

Lemma byte_range a : 0 <= byte a < 256.
Proof. unfold byte. pose proof (N_ascii_bounded a). lia. Qed.

Lemma bytes_all_app p s t : bytes_all p (s +:+ t) = bytes_all p s && bytes_all p t.
Proof. induction s as [|a s IH]; [done|]. cbn. by rewrite IH, andb_assoc. Qed.

Lemma length_app_string (s t : string) :
  String.length (s +:+ t) = (String.length s + String.length t)%nat.
Proof. induction s as [|a s IH]; [done|]. cbn. by rewrite IH. Qed.

Lemma slen_app s t : slen (s +:+ t) = slen s + slen t.
Proof. unfold slen. rewrite length_app_string. lia. Qed.

Lemma slen_nonneg s : 0 <= slen s.
Proof. unfold slen. lia. Qed.

Lemma app_string_nil_r s : s +:+ "" = s.
Proof. induction s as [|a s IH]; [done|]. cbn. by rewrite IH. Qed.

Lemma app_string_assoc s t u : (s +:+ t) +:+ u = s +:+ (t +:+ u).
Proof. induction s as [|a s IH]; [done|]. cbn. by rewrite IH. Qed.

Lemma strip_prefix_Some p s r : strip_prefix p s = Some r <-> s = p +:+ r.
Proof.
  revert s. induction p as [|a p IH]; intros s; cbn; [naive_solver|].
  destruct s as [|b s]; [naive_solver|].
  destruct (Ascii.eqb_spec a b) as [->|Hne]; [rewrite IH|]; naive_solver.
Qed.

Lemma strip_suffix_char_app c s : strip_suffix_char c (s +:+ String c "") = Some s.
Proof.
  induction s as [|a s IH]; [cbn; by rewrite Ascii.eqb_refl|].
  change (String a s +:+ String c "") with (String a (s +:+ String c "")).
  destruct (s +:+ String c "") eqn:E; [by destruct s|].
  by change (String a <$> strip_suffix_char c (String a0 s0) = Some (String a s)); rewrite IH.
Qed.

Lemma strip_suffix_char_Some c s r :
  strip_suffix_char c s = Some r -> s = r +:+ String c "".
Proof.
  revert r. induction s as [|a s IH]; intros r; [done|].
  destruct s as [|b s].
  - cbn. destruct (Ascii.eqb_spec a c); naive_solver.
  - change (String a <$> strip_suffix_char c (String b s) = Some r ->
            String a (String b s) = r +:+ String c "").
    intros (r' & Hr' & ->)%fmap_Some. cbn. by rewrite (IH _ Hr').
Qed.

(** A piece that holds no separator. *)
Definition free_of (c : ascii) (s : string) : bool := bytes_all (fun a => negb (Ascii.eqb a c)) s.

Lemma split_free c s : free_of c s = true -> split c s = [s].
Proof.
  unfold free_of. induction s as [|a s IH]; [done|]. cbn.
  intros [Ha%negb_true_iff Hs]%andb_true_iff. by rewrite Ha, IH.
Qed.

Lemma split_sep c s t : free_of c s = true -> split c (s +:+ String c t) = s :: split c t.
Proof.
  unfold free_of. induction s as [|a s IH]; cbn; [by rewrite Ascii.eqb_refl|].
  intros [Ha%negb_true_iff Hs]%andb_true_iff. by rewrite Ha, IH.
Qed.

Lemma split_cons_inv c s p ps :
  split c s = p :: ps ->
  free_of c p = true /\
  (ps = [] /\ s = p \/ exists t, s = p +:+ String c t /\ split c t = ps).
Proof.
  unfold free_of. revert p ps. induction s as [|a s IH]; intros p ps; cbn; [naive_solver|].
  destruct (Ascii.eqb_spec a c) as [->|Hne].
  - intros [= <- <-]. split; [done|]. right. by exists s.
  - destruct (split c s) as [|q qs] eqn:Hs.
    + exfalso. clear -Hs. destruct s as [|b s]; [done|]. cbn in Hs.
      destruct (Ascii.eqb b c); [done|]. by destruct (split c s).
    + intros [= <- <-]. destruct (IH _ _ eq_refl) as [Hf Hq]. cbn.
      rewrite Hf. destruct (Ascii.eqb_spec a c); [done|]. split; [done|].
      destruct Hq as [[-> ->]|(t & -> & Ht)]; [by left|right; by exists t].
Qed.

Lemma split_once_sep c s t :
  free_of c s = true -> split_once c (s +:+ String c t) = Some (s, t).
Proof.
  unfold free_of. induction s as [|a s IH]; cbn; [by rewrite Ascii.eqb_refl|].
  intros [Ha%negb_true_iff Hs]%andb_true_iff. by rewrite Ha, IH.
Qed.

Lemma split_once_free c s : free_of c s = true -> split_once c s = None.
Proof.
  unfold free_of. induction s as [|a s IH]; cbn; [done|].
  intros [Ha%negb_true_iff Hs]%andb_true_iff. by rewrite Ha, IH.
Qed.

Lemma split_once_Some c s l r :
  split_once c s = Some (l, r) -> s = l +:+ String c r /\ free_of c l = true.
Proof.
  unfold free_of. revert l r. induction s as [|a s IH]; intros l r; cbn; [done|].
  destruct (Ascii.eqb_spec a c) as [->|Hne]; [naive_solver|].
  intros ([l' r'] & Hs & [= <- <-])%bind_Some. destruct (IH _ _ Hs) as [-> Hf].
  cbn. rewrite Hf. by destruct (Ascii.eqb_spec a c).
Qed.

(** * Exhaustive checks

    [Zall n lo p] checks [p] on the [n] integers from [lo] on; a closed instance is decided
    by evaluation. *)

Fixpoint Zall (n : nat) (lo : Z) (p : Z -> bool) : bool :=
  match n with
  | O => true
  | S n => if p lo then Zall n (lo + 1) p else false
  end.

Lemma Zall_spec n lo p :
  Zall n lo p = true -> forall z, lo <= z < lo + Z.of_nat n -> p z = true.
Proof.
  revert lo. induction n as [|n IH]; intros lo; cbn [Zall]; [intros _ z Hz; lia|].
  destruct (p lo) eqn:Hp; [|done]. intros Hrest z Hz.
  destruct (decide (z = lo)) as [->|Hne]; [done|]. apply (IH (lo + 1)); [done|lia].
Qed.
