(* ===== verification/Decimal.v ===== *)
(** Decimal integers as the Rust standard library prints and parses them: [to_string] and
    zero padding ([{:04}]), and [str::parse] at a given width with its overflow checks. *)

From stdpp Require Import base list strings.
From Stdlib Require Import ZArith Lia Ascii String.
From S2P Require Import Prelude.

Open Scope Z_scope.

Definition digit_char (d : Z) : ascii := ascii_of_N (Z.to_N (48 + d)).

(** [to_string] of a non-negative integer, least significant digit last. *)
Fixpoint dec_go (fuel : nat) (n : Z) (acc : string) : string :=
  match fuel with
  | O => acc
  | S fuel =>
      let acc := String (digit_char (n mod 10)) acc in
      if n <? 10 then acc else dec_go fuel (n / 10) acc
  end.

(** One step per digit, and a number has at most one digit per bit. *)
Definition dec_fuel (n : Z) : nat := S (Z.to_nat (Z.log2 n)).

Definition dec (n : Z) : string := dec_go (dec_fuel n) n "".

Definition Z_to_string (n : Z) : string :=
  if n <? 0 then String "-" (dec (- n)) else dec n.

Fixpoint zeros (k : nat) : string :=
  match k with O => "" | S k => String "0" (zeros k) end.

(** [format!("{n:0w$}")] for a non-negative [n]. *)
Definition dec_pad (w : nat) (n : Z) : string :=
  zeros (w - String.length (dec n)) +:+ dec n.

Definition digit_val (a : ascii) : option Z :=
  if is_ascii_digit a then Some (byte a - 48) else None.

Definition in_range (lo hi z : Z) : bool := (lo <=? z) && (z <=? hi).

(** The digit loop of [from_str_radix] with base ten: checked multiplication, then checked
    addition of the digit, or subtraction for a negative number. *)
Fixpoint parse_acc (lo hi : Z) (negative : bool) (acc : Z) (s : string) : option Z :=
  match s with
  | EmptyString => Some acc
  | String a s =>
      let m := acc * 10 in
      if in_range lo hi m then
        d ← digit_val a;
        let v := if negative then m - d else m + d in
        if in_range lo hi v then parse_acc lo hi negative v s else None
      else None
  end.

(** [str::parse] for an integer type with the range [lo..=hi]. *)
Definition parse_int (lo hi : Z) (s : string) : option Z :=
  match s with
  | EmptyString => None
  | String a EmptyString =>
      if Ascii.eqb a "+" || Ascii.eqb a "-" then None else parse_acc lo hi false 0 s
  | String a r =>
      if Ascii.eqb a "+" then parse_acc lo hi false 0 r
      else if (lo <? 0) && Ascii.eqb a "-" then parse_acc lo hi true 0 r
      else parse_acc lo hi false 0 s
  end.

Definition parse_i64 : string -> option Z := parse_int i64_min i64_max.
Definition parse_u64 : string -> option Z := parse_int 0 u64_max.
Definition parse_u16 : string -> option Z := parse_int 0 u16_max.
Definition parse_u32 : string -> option Z := parse_int 0 4294967295.

(** * The value of a digit string *)

Fixpoint digits_value (acc : Z) (s : string) : Z :=
  match s with
  | EmptyString => acc
  | String a s => digits_value (acc * 10 + (byte a - 48)) s
  end.

Definition all_digits (s : string) : bool := bytes_all is_ascii_digit s.

Lemma digit_range a : is_ascii_digit a = true -> 0 <= byte a - 48 <= 9.
Proof. unfold is_ascii_digit. lia. Qed.

Lemma byte_digit_char d : 0 <= d <= 9 -> byte (digit_char d) = 48 + d.
Proof.
  intros Hd. unfold byte, digit_char. rewrite N_ascii_embedding; lia.
Qed.

Lemma digit_char_digit d : 0 <= d <= 9 -> is_ascii_digit (digit_char d) = true.
Proof. intros Hd. unfold is_ascii_digit. rewrite byte_digit_char; lia. Qed.

Lemma digits_value_lb acc s : all_digits s = true -> 0 <= acc -> acc <= digits_value acc s.
Proof.
  unfold all_digits. revert acc. induction s as [|a s IH]; intros acc; cbn; [lia|].
  intros [Ha Hs]%andb_true_iff Hacc. pose proof (digit_range _ Ha).
  specialize (IH (acc * 10 + (byte a - 48)) Hs ltac:(lia)). lia.
Qed.

Lemma digits_value_app acc s t : digits_value acc (s +:+ t) = digits_value (digits_value acc s) t.
Proof. revert acc. induction s as [|a s IH]; intros acc; cbn; [done|]. apply IH. Qed.

Lemma digits_value_shift acc s :
  digits_value acc s = acc * 10 ^ slen s + digits_value 0 s.
Proof.
  revert acc. induction s as [|a s IH]; intros acc; cbn -[Z.mul Z.pow].
  - change (slen "") with 0. lia.
  - rewrite IH, (IH (0 * 10 + (byte a - 48))).
    replace (slen (String a s)) with (Z.succ (slen s)) by (unfold slen; cbn; lia).
    rewrite Z.pow_succ_r by apply slen_nonneg. lia.
Qed.

Lemma digits_value_ub s : all_digits s = true -> 0 <= digits_value 0 s < 10 ^ slen s.
Proof.
  unfold all_digits. induction s as [|a s IH]; cbn -[Z.mul Z.pow]; [intros _; change (slen "") with 0; lia|].
  intros [Ha Hs]%andb_true_iff. pose proof (digit_range _ Ha). specialize (IH Hs).
  rewrite digits_value_shift.
  replace (slen (String a s)) with (Z.succ (slen s)) by (unfold slen; cbn; lia).
  rewrite Z.pow_succ_r by apply slen_nonneg. nia.
Qed.

(** Printing and parsing are inverse on their range. *)

Lemma dec_go_app fuel n acc : dec_go fuel n acc = dec_go fuel n "" +:+ acc.
Proof.
  revert n acc. induction fuel as [|f IH]; intros n acc; cbn -[Z.modulo Z.div]; [done|].
  destruct (n <? 10); [done|].
  rewrite IH, (IH _ (String _ "")). by rewrite app_string_assoc.
Qed.

Lemma dec_fuel_enough n f : 10 <= n -> (dec_fuel n <= S f)%nat -> (dec_fuel (n / 10) <= f)%nat.
Proof.
  unfold dec_fuel. intros Hn Hf.
  assert (Z.log2 (n / 10) < Z.log2 n); [|pose proof (Z.log2_nonneg (n / 10)); lia].
  assert (0 < n / 10) by (apply Z.div_str_pos; lia).
  apply Z.log2_lt_pow2; [lia|].
  pose proof (Z.log2_spec n ltac:(lia)) as [_ Hub].
  rewrite Z.pow_succ_r in Hub by apply Z.log2_nonneg.
  pose proof (Z.mul_div_le n 10 ltac:(lia)). lia.
Qed.

Lemma dec_go_spec fuel n :
  0 <= n -> (dec_fuel n <= fuel)%nat ->
  all_digits (dec_go fuel n "") = true /\ digits_value 0 (dec_go fuel n "") = n /\
  dec_go fuel n "" <> "" /\ (forall s, dec_go fuel n "" = String "0" s -> n = 0 /\ s = "").
Proof.
  revert n. induction fuel as [|f IH]; intros n Hn Hf; [unfold dec_fuel in Hf; lia|].
  cbn -[Z.modulo Z.div]. pose proof (Z.mod_pos_bound n 10 ltac:(lia)).
  destruct (Z.ltb_spec n 10) as [Hlt|Hge].
  - rewrite Z.mod_small by lia. cbn -[digit_char byte]. rewrite digit_char_digit, byte_digit_char by lia.
    split_and!; [done|lia|done|]. intros s [= Hd <-]. split; [|done].
    apply (f_equal byte) in Hd. rewrite byte_digit_char in Hd by lia.
    change (byte "0") with 48 in Hd. lia.
  - destruct (IH (n / 10)) as (Hall & Hval & Hne & Hlead);
      [apply Z.div_pos; lia|by apply dec_fuel_enough|].
    rewrite dec_go_app. unfold all_digits in *. rewrite bytes_all_app, Hall, digits_value_app, Hval.
    cbn -[Z.modulo Z.div digit_char byte]. rewrite digit_char_digit, byte_digit_char by lia.
    split_and!; [done| |by destruct (dec_go f (n / 10) "")|].
    + pose proof (Z.div_mod n 10 ltac:(lia)). lia.
    + destruct (dec_go f (n / 10) "") as [|a t]; [done|]. intros s [= -> _].
      destruct (Hlead t eq_refl) as [Hz _]. pose proof (Z.div_str_pos n 10 ltac:(lia)). lia.
Qed.

Lemma dec_digits n : 0 <= n -> all_digits (dec n) = true.
Proof. intros Hn. by apply dec_go_spec. Qed.

Lemma dec_value n : 0 <= n -> digits_value 0 (dec n) = n.
Proof. intros Hn. by apply dec_go_spec. Qed.

Lemma dec_ne n : 0 <= n -> dec n <> "".
Proof. intros Hn. by apply dec_go_spec. Qed.

Lemma parse_acc_nonneg lo hi acc s :
  lo <= 0 -> 0 <= acc -> all_digits s = true ->
  parse_acc lo hi false acc s =
    if (digits_value acc s <=? hi) || (slen s =? 0) then Some (digits_value acc s) else None.
Proof.
  intros Hlo. unfold all_digits. revert acc. induction s as [|a s IH]; intros acc Hacc.
  { intros _. cbn. by rewrite orb_true_r. }
  cbn -[Z.mul]. intros [Ha Hs]%andb_true_iff. pose proof (digit_range _ Ha) as Hd.
  unfold digit_val. rewrite Ha. cbn -[Z.mul].
  set (v := acc * 10 + (byte a - 48)).
  pose proof (digits_value_lb v s Hs ltac:(lia)) as Hlb.
  replace (slen (String a s) =? 0) with false by reflexivity.
  rewrite orb_false_r. unfold in_range.
  destruct (Z.leb_spec v hi) as [Hv|Hv].
  - replace ((lo <=? acc * 10) && (acc * 10 <=? hi)) with true by lia.
    replace ((lo <=? v) && true) with true by lia.
    rewrite IH by (done || lia).
    destruct (Z.leb_spec (digits_value v s) hi); [done|]. cbn.
    destruct (Z.eqb_spec (slen s) 0) as [E|E]; [|done].
    destruct s; [cbn in *; lia|unfold slen in E; cbn in E; lia].
  - replace (digits_value v s <=? hi) with false by lia.
    replace ((lo <=? v) && false) with false by lia.
    by destruct ((lo <=? acc * 10) && (acc * 10 <=? hi)).
Qed.

Lemma parse_acc_neg lo hi acc s :
  0 <= hi -> 0 <= acc -> all_digits s = true -> lo <= - digits_value acc s ->
  parse_acc lo hi true (- acc) s = Some (- digits_value acc s).
Proof.
  intros Hhi. unfold all_digits. revert acc. induction s as [|a s IH]; intros acc Hacc; [done|].
  cbn -[Z.mul]. intros [Ha Hs]%andb_true_iff Hlo. pose proof (digit_range _ Ha) as Hd.
  unfold digit_val. rewrite Ha. cbn -[Z.mul].
  pose proof (digits_value_lb _ s Hs (ltac:(lia) : 0 <= acc * 10 + (byte a - 48))) as Hlb.
  unfold in_range.
  replace ((lo <=? - acc * 10) && (- acc * 10 <=? hi)) with true by lia.
  replace (- acc * 10 - (byte a - 48)) with (- (acc * 10 + (byte a - 48))) by lia.
  replace ((lo <=? - (acc * 10 + (byte a - 48))) && (- (acc * 10 + (byte a - 48)) <=? hi))
    with true by lia.
  apply IH; [lia|done|done].
Qed.

(** A string of digits parses to its value unless that overflows. *)
Lemma parse_int_digits lo hi s :
  lo <= 0 -> s <> "" -> all_digits s = true ->
  parse_int lo hi s =
    if digits_value 0 s <=? hi then Some (digits_value 0 s) else None.
Proof.
  intros Hlo Hne Hs. destruct s as [|a s]; [done|].
  pose proof Hs as Hs'. unfold all_digits in Hs'. cbn in Hs'.
  apply andb_true_iff in Hs' as [Ha _].
  assert (Ascii.eqb a "+" = false) as Hp by (destruct (Ascii.eqb_spec a "+"); naive_solver).
  assert (Ascii.eqb a "-" = false) as Hm by (destruct (Ascii.eqb_spec a "-"); naive_solver).
  assert (parse_int lo hi (String a s) = parse_acc lo hi false 0 (String a s)) as ->.
  { unfold parse_int. rewrite Hp, Hm, andb_false_r. by destruct s. }
  rewrite parse_acc_nonneg by (done || lia).
  replace (slen (String a s) =? 0) with false by reflexivity.
  by rewrite orb_false_r.
Qed.

Lemma parse_int_to_string lo hi n :
  lo <= n <= hi -> lo <= 0 <= hi -> parse_int lo hi (Z_to_string n) = Some n.
Proof.
  intros Hn Hb. unfold Z_to_string. destruct (Z.ltb_spec n 0) as [Hneg|Hpos].
  - pose proof (dec_ne (- n) ltac:(lia)) as Hne. pose proof (dec_digits (- n) ltac:(lia)) as Hd.
    pose proof (dec_value (- n) ltac:(lia)) as Hv.
    destruct (dec (- n)) as [|a s]; [done|]. cbn -[parse_acc].
    replace (lo <? 0) with true by lia. cbn -[parse_acc].
    change 0 with (- 0) at 1. rewrite parse_acc_neg by (done || lia). f_equal. lia.
  - rewrite parse_int_digits by (done || (apply dec_ne || apply dec_digits || idtac); lia).
    rewrite dec_value by lia. replace (n <=? hi) with true by lia. done.
Qed.

(** * Zero padding *)

Lemma zeros_digits k : all_digits (zeros k) = true.
Proof. unfold all_digits. by induction k. Qed.

Lemma zeros_value k : digits_value 0 (zeros k) = 0.
Proof. by induction k. Qed.

Lemma zeros_length k : String.length (zeros k) = k.
Proof. induction k as [|k IH]; cbn; [done|]. by rewrite IH. Qed.

Lemma dec_length w n :
  0 <= n < 10 ^ Z.of_nat w -> (1 <= w)%nat -> (String.length (dec n) <= w)%nat.
Proof.
  intros Hn Hw. destruct (dec_go_spec (dec_fuel n) n) as (Hd & Hv & Hne & Hlead); [lia..|].
  fold (dec n) in *. destruct (dec n) as [|a s]; [done|].
  destruct (Ascii.eqb_spec a "0") as [->|Ha0].
  { destruct (Hlead s eq_refl) as [_ ->]. cbn. lia. }
  unfold all_digits in Hd. cbn in Hd. apply andb_true_iff in Hd as [Ha Hs].
  pose proof (digit_range _ Ha).
  assert (byte a <> 48).
  { intros Hb. apply Ha0. by apply byte_inj. }
  cbn -[Z.mul] in Hv. rewrite digits_value_shift in Hv.
  pose proof (digits_value_ub s Hs) as Hub. cbn. unfold slen in *.
  assert (10 ^ Z.of_nat (String.length s) < 10 ^ Z.of_nat w) as Hpow by nia.
  apply Z.pow_lt_mono_r_iff in Hpow; lia.
Qed.

Lemma dec_pad_spec w n :
  0 <= n < 10 ^ Z.of_nat w -> (1 <= w)%nat ->
  all_digits (dec_pad w n) = true /\ digits_value 0 (dec_pad w n) = n /\
  String.length (dec_pad w n) = w.
Proof.
  intros Hn Hw. pose proof (dec_length w n Hn Hw). unfold dec_pad, all_digits.
  rewrite bytes_all_app, digits_value_app, length_app_string, zeros_value, zeros_length.
  rewrite dec_value by lia. pose proof (zeros_digits (w - String.length (dec n))) as Hz.
  pose proof (dec_digits n ltac:(lia)) as Hd. unfold all_digits in *. rewrite Hz, Hd.
  split_and!; [done..|lia].
Qed.

Lemma all_digits_free c s : is_ascii_digit c = false -> all_digits s = true -> free_of c s = true.
Proof.
  unfold all_digits, free_of. intros Hc. induction s as [|a s IH]; [done|]. cbn.
  intros [Ha Hs]%andb_true_iff. rewrite IH by done.
  destruct (Ascii.eqb_spec a c); [congruence|done].
Qed.

(** A digit string is determined by its length and value. *)
Lemma digits_value_inj s t :
  all_digits s = true -> all_digits t = true -> String.length s = String.length t ->
  digits_value 0 s = digits_value 0 t -> s = t.
Proof.
  revert t. induction s as [|a s IH]; intros [|b t]; try done. unfold all_digits. cbn -[Z.mul].
  intros [Ha Hs]%andb_true_iff [Hb Ht]%andb_true_iff [= Hlen].
  rewrite (digits_value_shift _ s), (digits_value_shift _ t).
  replace (slen t) with (slen s) by (unfold slen; lia).
  pose proof (digits_value_ub s Hs). pose proof (digits_value_ub t Ht).
  replace (slen t) with (slen s) in * by (unfold slen; lia).
  pose proof (digit_range _ Ha). pose proof (digit_range _ Hb). intros Heq.
  assert (byte a = byte b) as Hab by nia.
  rewrite Hab in Heq. rewrite (IH t) by (done || lia). f_equal.
  by apply byte_inj.
Qed.

(** A parsed integer is in the range of its type. *)
Lemma parse_acc_in_range lo hi negative acc s n :
  lo <= acc <= hi -> parse_acc lo hi negative acc s = Some n -> lo <= n <= hi.
Proof.
  revert acc. induction s as [|a s IH]; intros acc Hacc; cbn; [by intros [= <-]|].
  destruct (in_range lo hi (acc * 10)); [|done]. destruct (digit_val a) as [d|]; [|done]. cbn.
  destruct (in_range lo hi _) eqn:Hr; [|done]. apply IH. unfold in_range in Hr. lia.
Qed.

Lemma parse_int_in_range lo hi s n : parse_int lo hi s = Some n -> lo <= 0 <= hi -> lo <= n <= hi.
Proof.
  unfold parse_int. intros H Hz. destruct s as [|a [|b s]]; [done| |];
    repeat case_match; try done; by eapply parse_acc_in_range.
Qed.
