(* ===== verification/Sorting.v ===== *)
(** Orders and sorting: the byte order of strings, a stable sort ([slice::sort_by]), binary
    search ([slice::partition_point]) on sorted vectors, and the iteration order of [BTreeSet]
    and [BTreeMap], which are a [gset] and a [gmap] listed in the order of their keys. *)

From Stdlib Require Import ZArith Lia Ascii String.
From stdpp Require Import base strings sorting sets option gmap list.
From S2P Require Import Prelude.

Open Scope Z_scope.

(** * The order of [str] *)

(** [Ord for str]: lexicographic by bytes. *)
Definition str_cmp (s t : string) : comparison := String.compare s t.
Definition str_lt (s t : string) : Prop := str_cmp s t = Lt.
Definition str_leb (s t : string) : bool :=
  match str_cmp s t with Gt => false | _ => true end.
Definition str_ltb (s t : string) : bool :=
  match str_cmp s t with Lt => true | _ => false end.

Lemma str_cmp_cons a s b t :
  str_cmp (String a s) (String b t) =
    match Z.compare (byte a) (byte b) with Eq => str_cmp s t | c => c end.
Proof.
  unfold str_cmp. cbn. unfold Ascii.compare, byte. by rewrite N2Z.inj_compare.
Qed.

Lemma str_cmp_refl s : str_cmp s s = Eq.
Proof. induction s as [|a s IH]; [done|]. by rewrite str_cmp_cons, Z.compare_refl. Qed.

Lemma str_cmp_eq s t : str_cmp s t = Eq <-> s = t.
Proof. split; [apply String.compare_eq_iff|]. intros ->. apply str_cmp_refl. Qed.

Lemma str_cmp_antisym s t : str_cmp t s = CompOpp (str_cmp s t).
Proof. apply String.compare_antisym. Qed.

#[export] Instance str_lt_trans : Transitive str_lt.
Proof.
  intros s t u. unfold str_lt. revert t u.
  induction s as [|a s IH]; intros [|b t] [|c u]; try done.
  rewrite !str_cmp_cons.
  destruct (Z.compare_spec (byte a) (byte b)) as [E|?|?]; try done;
    destruct (Z.compare_spec (byte b) (byte c)) as [E'|?|?]; try done;
    destruct (Z.compare_spec (byte a) (byte c)); try done; (lia || eauto).
Qed.

#[export] Instance str_lt_irrefl : Irreflexive str_lt.
Proof. intros s H. unfold str_lt in H. by rewrite str_cmp_refl in H. Qed.

Lemma str_lt_total s t : str_lt s t \/ s = t \/ str_lt t s.
Proof.
  unfold str_lt. rewrite (str_cmp_antisym s t).
  destruct (str_cmp s t) eqn:E; [apply str_cmp_eq in E|..]; auto.
Qed.

Lemma str_ltb_lt s t : str_ltb s t = true <-> str_lt s t.
Proof. unfold str_ltb, str_lt. by destruct (str_cmp s t). Qed.

Lemma str_leb_le s t : str_leb s t = true <-> s = t \/ str_lt s t.
Proof.
  unfold str_leb, str_lt. rewrite <- str_cmp_eq. destruct (str_cmp s t); naive_solver.
Qed.

Lemma str_leb_total s t : str_leb s t = true \/ str_leb t s = true.
Proof. rewrite !str_leb_le. destruct (str_lt_total s t) as [|[|]]; auto. Qed.

Lemma str_leb_trans s t u : str_leb s t = true -> str_leb t u = true -> str_leb s u = true.
Proof.
  rewrite !str_leb_le. intros [->|H1] [->|H2]; auto. right. by transitivity t.
Qed.

(** * A stable sort *)

Section sort.
Context {A : Type} (leb : A -> A -> bool).

(** [leb] as a relation. *)
Definition before_eq (a b : A) : Prop := leb a b = true.

(** Inserts [a] before the first element that does not come before it. *)
Fixpoint insert_sorted (a : A) (l : list A) : list A :=
  match l with
  | [] => [a]
  | b :: l => if leb a b then a :: b :: l else b :: insert_sorted a l
  end.

(** [slice::sort_by], which is stable: equal elements keep their order. *)
Fixpoint sort_by (l : list A) : list A :=
  match l with
  | [] => []
  | a :: l => insert_sorted a (sort_by l)
  end.

Lemma insert_sorted_perm a l : insert_sorted a l ≡ₚ a :: l.
Proof.
  induction l as [|b l IH]; cbn; [done|]. destruct (leb a b); [done|].
  rewrite IH. by constructor.
Qed.

Lemma sort_by_perm l : sort_by l ≡ₚ l.
Proof. induction l as [|a l IH]; cbn; [done|]. by rewrite insert_sorted_perm, IH. Qed.

Context (leb_total : forall a b, leb a b = true \/ leb b a = true).
Context (leb_trans : forall a b c, leb a b = true -> leb b c = true -> leb a c = true).

Lemma insert_sorted_sorted a l :
  StronglySorted before_eq l -> StronglySorted before_eq (insert_sorted a l).
Proof.
  induction 1 as [|b l Hs IH Hb]; cbn; [by repeat constructor|].
  destruct (leb a b) eqn:Hab.
  - constructor; [by constructor|]. constructor; [done|].
    eapply Forall_impl; [exact Hb|]. intros c Hbc. unfold before_eq in *. eauto.
  - constructor; [done|]. rewrite insert_sorted_perm. constructor; [|done].
    unfold before_eq. destruct (leb_total a b); congruence.
Qed.

Lemma sort_by_sorted l : StronglySorted before_eq (sort_by l).
Proof. induction l as [|a l IH]; cbn; [constructor|]. by apply insert_sorted_sorted. Qed.

Lemma insert_sorted_le a l :
  Forall (fun b => leb a b = true) l -> insert_sorted a l = a :: l.
Proof. destruct 1 as [|b l Hb _]; cbn; [done|]. by rewrite Hb. Qed.

Lemma sort_by_id l : StronglySorted before_eq l -> sort_by l = l.
Proof.
  induction 1 as [|a l Hs IH Ha]; cbn; [done|]. rewrite IH. by apply insert_sorted_le.
Qed.

(** A sorted permutation is unique when the order is antisymmetric on the elements. *)
Lemma sorted_perm_unique l l' :
  (forall a b, a ∈ l -> b ∈ l -> leb a b = true -> leb b a = true -> a = b) ->
  StronglySorted before_eq l -> StronglySorted before_eq l' -> l ≡ₚ l' -> l = l'.
Proof.
  intros Hanti Hl. revert l' Hanti. induction Hl as [|a l Hs IH Ha]; intros l' Hanti Hl' Hp.
  { by apply Permutation_nil_l in Hp. }
  destruct Hl' as [|b l' Hs' Hb]; [by apply Permutation_nil_r in Hp|].
  assert (a = b) as <-.
  { assert (a ∈ b :: l') as Hin by (rewrite <- Hp; left).
    assert (b ∈ a :: l) as Hin' by (rewrite Hp; left).
    apply elem_of_cons in Hin as [|Hin]; [done|].
    apply elem_of_cons in Hin' as [|Hin']; [done|].
    rewrite Forall_forall in Ha, Hb.
    apply Hanti; [by left|by right|by apply Ha|by apply Hb]. }
  f_equal. apply IH; [|done|by apply (inj (a ::.)) in Hp].
  intros x y Hx Hy. apply Hanti; by right.
Qed.
End sort.

Definition cmp_leb {A} (cmp : A -> A -> comparison) (a b : A) : bool :=
  match cmp a b with Gt => false | _ => true end.

(** The iteration order of a [BTreeSet] and of the keys and values of a [BTreeMap]. *)
Definition set_iter `{Countable K} (cmp : K -> K -> comparison) (s : gset K) : list K :=
  sort_by (cmp_leb cmp) (elements s).

Definition map_iter `{Countable K} {V} (cmp : K -> K -> comparison) (m : gmap K V) : list (K * V) :=
  sort_by (fun a b => cmp_leb cmp a.1 b.1) (map_to_list m).

Lemma elem_of_set_iter `{Countable K} cmp (s : gset K) k : k ∈ set_iter cmp s <-> k ∈ s.
Proof. unfold set_iter. by rewrite sort_by_perm, elem_of_elements. Qed.

Lemma elem_of_map_iter `{Countable K} {V} cmp (m : gmap K V) k v :
  (k, v) ∈ map_iter cmp m <-> m !! k = Some v.
Proof. unfold map_iter. by rewrite sort_by_perm, elem_of_map_to_list. Qed.

Lemma NoDup_set_iter `{Countable K} cmp (s : gset K) : NoDup (set_iter cmp s).
Proof. unfold set_iter. rewrite sort_by_perm. apply NoDup_elements. Qed.

Lemma NoDup_map_iter `{Countable K} {V} cmp (m : gmap K V) : NoDup (map_iter cmp m).*1.
Proof. unfold map_iter. rewrite sort_by_perm. apply NoDup_fst_map_to_list. Qed.
