(* ===== verification/Metadata.v ===== *)
(** Event metadata of the runtime protocol ([proto/src/metadata.rs]): the event types and
    their protocol strings, session identifiers, and RFC 3339 timestamps. *)

From stdpp Require Import base list strings sets.
From Stdlib Require Import ZArith Lia Ascii String.
From S2P Require Import Prelude Decimal.

Open Scope Z_scope.

(** * Event types *)

Inductive EventType : Type :=
| SessionStarted | SessionPaused | SessionResumed | SessionCompleted | SessionFailed
| FlowStarted | FlowCompleted | FlowFailed
| PhaseEntered | PhaseCompleted | PhaseFailed
| MessageDelta | MessageCompleted
| ToolStarted | ToolProgress | ToolCompleted | ToolFailed | ToolTimedOut
| ArtifactLogged | AttentionRequested | MetricSample | Error.

#[export] Instance EventType_eq_dec : EqDecision EventType.
Proof. solve_decision. Defined.

Definition event_type_all : list EventType :=
  [ SessionStarted; SessionPaused; SessionResumed; SessionCompleted; SessionFailed;
    FlowStarted; FlowCompleted; FlowFailed;
    PhaseEntered; PhaseCompleted; PhaseFailed;
    MessageDelta; MessageCompleted;
    ToolStarted; ToolProgress; ToolCompleted; ToolFailed; ToolTimedOut;
    ArtifactLogged; AttentionRequested; MetricSample; Error ].

Definition requires_flow_id (t : EventType) : bool :=
  match t with
  | FlowStarted | FlowCompleted | FlowFailed
  | PhaseEntered | PhaseCompleted | PhaseFailed
  | MessageDelta | MessageCompleted
  | ToolStarted | ToolProgress | ToolCompleted | ToolFailed | ToolTimedOut => true
  | _ => false
  end.

Definition event_type_as_str (t : EventType) : string :=
  match t with
  | SessionStarted => "session.started"
  | SessionPaused => "session.paused"
  | SessionResumed => "session.resumed"
  | SessionCompleted => "session.completed"
  | SessionFailed => "session.failed"
  | FlowStarted => "flow.started"
  | FlowCompleted => "flow.completed"
  | FlowFailed => "flow.failed"
  | PhaseEntered => "phase.entered"
  | PhaseCompleted => "phase.completed"
  | PhaseFailed => "phase.failed"
  | MessageDelta => "message.delta"
  | MessageCompleted => "message.completed"
  | ToolStarted => "tool.started"
  | ToolProgress => "tool.progress"
  | ToolCompleted => "tool.completed"
  | ToolFailed => "tool.failed"
  | ToolTimedOut => "tool.timed_out"
  | ArtifactLogged => "artifact.logged"
  | AttentionRequested => "attention.requested"
  | MetricSample => "metric.sample"
  | Error => "error"
  end.

Inductive UnknownEventType : Type := UnknownEventTypeOf (value : string).

Definition event_type_try_from (value : string) : result UnknownEventType EventType :=
  ok_or (List.find (fun t => String.eqb (event_type_as_str t) value) event_type_all)
        (UnknownEventTypeOf value).

(** * Session identifiers *)

Definition MAX_SESSION_ID_BYTES : Z := 128.

Definition is_windows_dos_device_basename (value : string) : bool :=
  (String.eqb value "con" || String.eqb value "prn" || String.eqb value "aux"
   || String.eqb value "nul")
  || match (match strip_prefix "com" value with
            | Some suffix => Some suffix
            | None => strip_prefix "lpt" value
            end) with
     | Some (String d EmptyString) => (49 <=? byte d) && (byte d <=? 57)
     | _ => false
     end.

Definition is_session_id_byte (a : ascii) : bool :=
  is_ascii_lowercase a || is_ascii_digit a || Ascii.eqb a "_" || Ascii.eqb a "-".

Definition is_valid_session_id (value : string) : bool :=
  negb (String.eqb value "")
  && (slen value <=? MAX_SESSION_ID_BYTES)
  && bytes_all is_session_id_byte value
  && negb (is_windows_dos_device_basename value).

(** * Timestamps

    Rust's [/] and [%] are [Z.quot] and [Z.rem]; [div_euclid] and [rem_euclid] with a
    positive divisor are [Z.div] and [Z.modulo]. *)

Definition parse_digits (value : string) (len : Z) : option Z :=
  if (slen value =? len) && bytes_all is_ascii_digit value then parse_u16 value else None.

Definition is_leap_year (year : Z) : bool :=
  (year mod 4 =? 0) && (negb (year mod 100 =? 0) || (year mod 400 =? 0)).

Definition days_in_month (year month : Z) : Z :=
  match month with
  | 1 | 3 | 5 | 7 | 8 | 10 | 12 => 31
  | 4 | 6 | 9 | 11 => 30
  | 2 => if is_leap_year year then 29 else 28
  | _ => 0
  end.

Definition days_from_civil (year month day : Z) : Z :=
  let year := year - (if month <=? 2 then 1 else 0) in
  let era := year / 400 in
  let year_of_era := year - era * 400 in
  let month := month + (if 2 <? month then -3 else 9) in
  let day_of_year := (153 * month + 2) ÷ 5 + day - 1 in
  let day_of_era :=
    year_of_era * 365 + year_of_era ÷ 4 - year_of_era ÷ 100 + day_of_year in
  era * 146097 + day_of_era - 719468.

Definition civil_from_days (days : Z) : Z * Z * Z :=
  let z := days + 719468 in
  let era := z / 146097 in
  let day_of_era := z - era * 146097 in
  let year_of_era :=
    (day_of_era - day_of_era ÷ 1460 + day_of_era ÷ 36524 - day_of_era ÷ 146096) ÷ 365 in
  let year := year_of_era + era * 400 in
  let day_of_year := day_of_era - (365 * year_of_era + year_of_era ÷ 4 - year_of_era ÷ 100) in
  let month_prime := (5 * day_of_year + 2) ÷ 153 in
  let day := day_of_year - (153 * month_prime + 2) ÷ 5 + 1 in
  let month := month_prime + (if month_prime <? 10 then 3 else -9) in
  (year + (if month <=? 2 then 1 else 0), month, day).

(** The date part: [date.split('-')] read with [next()] until the fourth piece. *)
Definition parse_date (date : string) : option (Z * Z * Z) :=
  let parts := split "-" date in
  year ← (parts !! 0%nat ≫= fun part => parse_digits part 4);
  month ← (parts !! 1%nat ≫= fun part => parse_digits part 2);
  day ← (parts !! 2%nat ≫= fun part => parse_digits part 2);
  if bool_decide (is_Some (parts !! 3%nat)) || negb ((1 <=? month) && (month <=? 12)) then None
  else if (day =? 0) || (days_in_month year month <? day) then None
  else Some (year, month, day).

(** The time part: [time.split(':')], an optional fraction of a second, and the ranges. *)
Definition parse_time (time : string) : option (Z * Z * Z) :=
  let parts := split ":" time in
  hour ← (parts !! 0%nat ≫= fun part => parse_digits part 2);
  minute ← (parts !! 1%nat ≫= fun part => parse_digits part 2);
  second_part ← parts !! 2%nat;
  if bool_decide (is_Some (parts !! 3%nat)) then None
  else
    let '(second, fraction) :=
      match split_once "." second_part with
      | Some (second, fraction) => (second, Some fraction)
      | None => (second_part, None)
      end in
    second ← parse_digits second 2;
    if match fraction with
       | Some value => String.eqb value "" || negb (bytes_all is_ascii_digit value)
       | None => false
       end then None
    else if (23 <? hour) || (59 <? minute) || (59 <? second) then None
    else Some (hour, minute, second).

Definition parse_rfc3339_utc_timestamp (value : string) : option Z :=
  value ← strip_suffix_char "Z" value;
  '(date, time) ← split_once "T" value;
  '(year, month, day) ← parse_date date;
  '(hour, minute, second) ← parse_time time;
  let days := days_from_civil year month day in
  Some (sat_i64 (sat_i64 (sat_i64 (sat_i64 (days * 86400) + hour * 3600) + minute * 60)
                 + second)).

Definition format_rfc3339_utc_timestamp (seconds : Z) : option string :=
  let days := seconds / 86400 in
  let seconds_of_day := seconds mod 86400 in
  let '(year, month, day) := civil_from_days days in
  if negb ((0 <=? year) && (year <=? 9999)) then None
  else
    let hour := seconds_of_day ÷ 3600 in
    let minute := (Z.rem seconds_of_day 3600) ÷ 60 in
    let second := Z.rem seconds_of_day 60 in
    Some (dec_pad 4 year +:+ "-" +:+ dec_pad 2 month +:+ "-" +:+ dec_pad 2 day +:+ "T"
          +:+ dec_pad 2 hour +:+ ":" +:+ dec_pad 2 minute +:+ ":" +:+ dec_pad 2 second
          +:+ "Z").

Example format_epoch : format_rfc3339_utc_timestamp 0 = Some "1970-01-01T00:00:00Z".
Proof. vm_compute. reflexivity. Qed.

Example parse_fixture_clock :
  parse_rfc3339_utc_timestamp "2026-01-01T00:00:00Z" = Some 1767225600.
Proof. vm_compute. reflexivity. Qed.

Example parse_rejects_leap_day : parse_rfc3339_utc_timestamp "2023-02-29T00:00:00Z" = None.
Proof. vm_compute. reflexivity. Qed.

(** * Civil dates

    The algorithms count years from March, so that a leap day ends its year.  [year_start y] is
    the day of the 400-year era on which its year [y] starts, and [era_year] recovers the
    year from a day of the era. *)

Definition valid_civil (year month day : Z) : bool :=
  (1 <=? month) && (month <=? 12) && (1 <=? day) && (day <=? days_in_month year month).

Definition year_start (y : Z) : Z := y * 365 + y ÷ 4 - y ÷ 100.
Definition year_length (y : Z) : Z := 365 + (if is_leap_year (y + 1) then 1 else 0).

Definition era_days (doe : Z) : Z := doe - doe ÷ 1460 + doe ÷ 36524 - doe ÷ 146096.
Definition era_year (doe : Z) : Z := era_days doe ÷ 365.

Lemma era_days_mono a b : 0 <= a <= b -> era_days a <= era_days b.
Proof.
  intros Hab. unfold era_days. rewrite !Z.quot_div_nonneg by lia.
  replace (a / 146096) with (a / 36524 / 4) by (rewrite Z.div_div by lia; f_equal; lia).
  replace (b / 146096) with (b / 36524 / 4) by (rewrite Z.div_div by lia; f_equal; lia).
  assert (a - a / 1460 <= b - b / 1460) by (Z.to_euclidean_division_equations; lia).
  assert (a / 36524 <= b / 36524) by (apply Z.div_le_mono; lia).
  assert (0 <= a / 36524) by (apply Z.div_pos; lia).
  set (p := a / 36524) in *. set (q := b / 36524) in *. clearbody p q.
  assert (p - p / 4 <= q - q / 4) by (Z.to_euclidean_division_equations; lia). lia.
Qed.

Definition year_check (y : Z) : bool :=
  (0 <=? year_start y) && (year_start y + year_length y <=? 146097) &&
  (365 * y <=? era_days (year_start y)) &&
  (era_days (year_start y + year_length y - 1) <? 365 * (y + 1)) &&
  ((y =? 399) || (year_start (y + 1) =? year_start y + year_length y)).

Lemma year_check_all : Zall 400 0 year_check = true.
Proof. vm_compute. reflexivity. Qed.

Lemma year_check_ok y :
  0 <= y < 400 ->
  0 <= year_start y /\ year_start y + year_length y <= 146097 /\
  365 * y <= era_days (year_start y) /\
  era_days (year_start y + year_length y - 1) < 365 * (y + 1) /\
  (y = 399 \/ year_start (y + 1) = year_start y + year_length y).
Proof.
  intros Hy. assert (year_check y = true) as Hc.
  { apply (Zall_spec _ _ _ year_check_all y). lia. }
  unfold year_check in Hc. lia.
Qed.

(** A day in year [y] of the era is recognised as such. *)
Lemma era_year_of y doy :
  0 <= y < 400 -> 0 <= doy < year_length y ->
  era_year (year_start y + doy) = y /\ 0 <= year_start y + doy < 146097.
Proof.
  intros Hy Hd. destruct (year_check_ok y Hy) as (H0 & H1 & H2 & H3 & _).
  split; [|lia]. unfold era_year.
  pose proof (era_days_mono (year_start y) (year_start y + doy) ltac:(lia)).
  pose proof (era_days_mono (year_start y + doy) (year_start y + year_length y - 1) ltac:(lia)).
  rewrite Z.quot_div_nonneg by lia. symmetry. apply Z.div_unique with
    (era_days (year_start y + doy) - 365 * y); lia.
Qed.

(** Every day of the era lies in the year computed for it. *)
Lemma era_year_bounds doe :
  0 <= doe < 146097 ->
  0 <= era_year doe < 400 /\ 0 <= doe - year_start (era_year doe) < year_length (era_year doe).
Proof.
  intros Hdoe. pose proof (era_days_mono 0 doe ltac:(lia)) as Hlo.
  pose proof (era_days_mono doe 146096 ltac:(lia)) as Hhi.
  change (era_days 0) with 0 in Hlo. change (era_days 146096) with 145999 in Hhi.
  set (y := era_year doe). assert (365 * y <= era_days doe < 365 * (y + 1)) as Hy.
  { unfold y, era_year. rewrite Z.quot_div_nonneg by lia.
    pose proof (Z.div_mod (era_days doe) 365 ltac:(lia)).
    pose proof (Z.mod_pos_bound (era_days doe) 365 ltac:(lia)). lia. }
  assert (0 <= y < 400) as Hyr by lia. split; [done|].
  destruct (year_check_ok y Hyr) as (Hs & He & _ & _ & Hnext). split.
  - destruct (Z.le_gt_cases (year_start y) doe) as [|Hlt]; [lia|exfalso].
    destruct (decide (y = 0)) as [Hy0|Hne].
    { rewrite Hy0 in Hlt. change (year_start 0) with 0 in Hlt. lia. }
    destruct (year_check_ok (y - 1) ltac:(lia)) as (Hs' & _ & _ & Hub & Hn').
    replace (y - 1 + 1) with y in * by lia. destruct Hn' as [|Hn']; [lia|].
    pose proof (era_days_mono doe (year_start (y - 1) + year_length (y - 1) - 1) ltac:(lia)).
    lia.
  - destruct (Z.lt_ge_cases doe (year_start y + year_length y)) as [|Hge]; [lia|exfalso].
    destruct Hnext as [Hlast|Hn].
    { rewrite Hlast in Hge. change (year_start 399 + year_length 399) with 146097 in Hge. lia. }
    destruct (year_check_ok (y + 1)) as (Hs' & _ & Hlb & _);
      [destruct (decide (y = 399)) as [Heq|]; [|lia]|].
    { rewrite Heq in Hge. change (year_start 399 + year_length 399) with 146097 in Hge. lia. }
    pose proof (era_days_mono (year_start (y + 1)) doe ltac:(lia)). lia.
Qed.

(** The months of one year, counted from March. *)
Definition month_of (doy : Z) : Z := (5 * doy + 2) ÷ 153.
Definition day_of (doy : Z) : Z := doy - (153 * month_of doy + 2) ÷ 5 + 1.
Definition month_civil (mp : Z) : Z := mp + (if mp <? 10 then 3 else -9).
Definition month_shifted (month : Z) : Z := month + (if 2 <? month then -3 else 9).

Definition doy_check (leap : bool) (doy : Z) : bool :=
  let m := month_civil (month_of doy) in
  let len := match m with
             | 2 => if leap then 29 else 28
             | 4 | 6 | 9 | 11 => 30 | _ => 31 end in
  (1 <=? m) && (m <=? 12) && (1 <=? day_of doy) && (day_of doy <=? len) &&
  (month_shifted m =? month_of doy) && (0 <=? month_of doy).

Lemma doy_check_leap : Zall 366 0 (doy_check true) = true.
Proof. vm_compute. reflexivity. Qed.

Lemma doy_check_common : Zall 365 0 (doy_check false) = true.
Proof. vm_compute. reflexivity. Qed.

Lemma doy_bounds (leap : bool) doy :
  0 <= doy < 365 + (if leap then 1 else 0) -> doy_check leap doy = true.
Proof.
  intros Hd. destruct leap;
    [apply (Zall_spec _ _ _ doy_check_leap)|apply (Zall_spec _ _ _ doy_check_common)]; lia.
Qed.

(** [civil_from_days] and [days_from_civil] in terms of the era. *)
Lemma civil_from_days_era era doe :
  0 <= doe < 146097 ->
  civil_from_days (era * 146097 + doe - 719468) =
    let y := era_year doe in let doy := doe - year_start y in
    let m := month_civil (month_of doy) in
    (y + era * 400 + (if m <=? 2 then 1 else 0), m, day_of doy).
Proof.
  intros Hd. unfold civil_from_days.
  replace (era * 146097 + doe - 719468 + 719468) with (doe + era * 146097) by lia.
  rewrite Z.div_add, (Z.div_small doe) by lia.
  replace (doe + era * 146097 - (0 + era) * 146097) with doe by lia.
  unfold day_of, month_civil, month_of, year_start, era_year, era_days.
  cbv zeta. rewrite !(Z.mul_comm 365). repeat f_equal; lia.
Qed.

Lemma days_from_civil_era era y month day :
  0 <= y < 400 ->
  days_from_civil (y + era * 400 + (if month <=? 2 then 1 else 0)) month day =
    era * 146097 + (year_start y + ((153 * month_shifted month + 2) ÷ 5 + day - 1)) - 719468.
Proof.
  intros Hy. unfold days_from_civil.
  set (b := if month <=? 2 then 1 else 0).
  replace (y + era * 400 + b - b) with (y + era * 400) by lia.
  rewrite Z.div_add, (Z.div_small y) by lia.
  replace (y + era * 400 - (0 + era) * 400) with y by lia.
  unfold year_start, month_shifted. cbv zeta. lia.
Qed.

Lemma is_leap_year_shift era year : is_leap_year (year + era * 400) = is_leap_year year.
Proof.
  unfold is_leap_year.
  replace (year + era * 400) with (year + (100 * era) * 4) at 1 by lia.
  replace (year + era * 400) with (year + (4 * era) * 100) at 1 by lia.
  by rewrite !Z.mod_add by lia.
Qed.

Lemma days_in_month_era era y month :
  1 <= month <= 12 ->
  days_in_month (y + era * 400 + (if month <=? 2 then 1 else 0)) month =
    match month with
    | 2 => if is_leap_year (y + 1) then 29 else 28
    | 4 | 6 | 9 | 11 => 30 | _ => 31 end.
Proof.
  intros Hm. unfold days_in_month.
  destruct (decide (month = 2)) as [->|Hne].
  - cbn [Z.leb]. change (2 <=? 2) with true. cbv iota.
    replace (y + era * 400 + 1) with (y + 1 + era * 400) by lia. by rewrite is_leap_year_shift.
  - assert (month = 1 \/ month = 3 \/ month = 4 \/ month = 5 \/ month = 6 \/ month = 7 \/
            month = 8 \/ month = 9 \/ month = 10 \/ month = 11 \/ month = 12) as Hc by lia.
    repeat (destruct Hc as [Hc|Hc]; [subst; reflexivity|]); subst; reflexivity.
Qed.

Lemma era_decomposition days :
  exists era doe, days = era * 146097 + doe - 719468 /\ 0 <= doe < 146097.
Proof.
  exists ((days + 719468) / 146097), ((days + 719468) mod 146097).
  pose proof (Z.div_mod (days + 719468) 146097 ltac:(lia)).
  pose proof (Z.mod_pos_bound (days + 719468) 146097 ltac:(lia)). lia.
Qed.

(** The date of a day number is valid, and its day number is that day. *)
Lemma civil_from_days_valid days year month day :
  civil_from_days days = (year, month, day) ->
  valid_civil year month day = true /\ days_from_civil year month day = days.
Proof.
  destruct (era_decomposition days) as (era & doe & -> & Hdoe).
  rewrite civil_from_days_era by done. cbv zeta. intros [= <- <- <-].
  destruct (era_year_bounds doe Hdoe) as [Hy Hdoy].
  set (y := era_year doe) in *. set (doy := doe - year_start y) in *.
  pose proof (doy_bounds (is_leap_year (y + 1)) doy Hdoy) as Hc.
  unfold doy_check in Hc. set (m := month_civil (month_of doy)) in *.
  rewrite days_from_civil_era by done. unfold valid_civil.
  rewrite days_in_month_era by lia. split; [lia|].
  assert (month_shifted m = month_of doy) as -> by lia. unfold day_of, doy. lia.
Qed.

Definition month_day_check (leap : bool) (month day : Z) : bool :=
  let len := match month with
             | 2 => if leap then 29 else 28
             | 4 | 6 | 9 | 11 => 30 | _ => 31 end in
  let doy := (153 * month_shifted month + 2) ÷ 5 + day - 1 in
  (len <? day) ||
  (0 <=? doy) && (doy <? 365 + if leap then 1 else 0) &&
  (month_civil (month_of doy) =? month) && (day_of doy =? day).

Lemma month_day_check_all :
  Zall 12 1 (fun m => Zall 31 1 (month_day_check true m)) &&
  Zall 12 1 (fun m => Zall 31 1 (month_day_check false m)) = true.
Proof. vm_compute. reflexivity. Qed.

Lemma month_day_bounds (leap : bool) month day :
  1 <= month <= 12 -> 1 <= day <= 31 -> month_day_check leap month day = true.
Proof.
  intros Hm Hd. pose proof month_day_check_all as [Hl Hc]%andb_true_iff.
  assert (Zall 31 1 (month_day_check leap month) = true) as Hall.
  { destruct leap; [apply (Zall_spec _ _ _ Hl month)|apply (Zall_spec _ _ _ Hc month)]; lia. }
  apply (Zall_spec _ _ _ Hall day). lia.
Qed.

(** The day number of a valid date has that date. *)
Lemma civil_of_days_from_civil year month day :
  valid_civil year month day = true ->
  civil_from_days (days_from_civil year month day) = (year, month, day).
Proof.
  intros Hv. set (b := if month <=? 2 then 1 else 0).
  set (era := (year - b) / 400). set (y := (year - b) mod 400).
  assert (0 <= y < 400) as Hy by (apply Z.mod_pos_bound; lia).
  assert (year = y + era * 400 + b) as Hyear.
  { pose proof (Z.div_mod (year - b) 400 ltac:(lia)). unfold y, era. lia. }
  clearbody y era. subst year. unfold valid_civil in Hv.
  subst b. rewrite days_in_month_era in Hv by lia.
  rewrite days_from_civil_era by done.
  set (doy := (153 * month_shifted month + 2) ÷ 5 + day - 1).
  assert (day <= 31) by (repeat case_match; lia).
  pose proof (month_day_bounds (is_leap_year (y + 1)) month day ltac:(lia) ltac:(lia)) as Hc.
  unfold month_day_check in Hc. fold doy in Hc.
  assert (0 <= doy < year_length y) as Hdoy by (unfold year_length; lia).
  destruct (era_year_of y doy Hy Hdoy) as [Hey Hdoe].
  rewrite civil_from_days_era by done. cbv zeta. rewrite Hey.
  replace (year_start y + doy - year_start y) with doy by lia.
  assert (month_civil (month_of doy) = month) as -> by lia.
  repeat f_equal; lia.
Qed.

(** * The text of a timestamp *)

Definition date_text (year month day : Z) : string :=
  dec_pad 4 year +:+ String "-" (dec_pad 2 month +:+ String "-" (dec_pad 2 day)).

Definition time_text (hour minute second : Z) : string :=
  dec_pad 2 hour +:+ String ":" (dec_pad 2 minute +:+ String ":" (dec_pad 2 second)).

Definition valid_time (hour minute second : Z) : bool :=
  (0 <=? hour) && (hour <=? 23) && (0 <=? minute) && (minute <=? 59)
  && (0 <=? second) && (second <=? 59).

(** The fraction [parse_time] accepts and drops: none, or a point and digits. *)
Definition fraction_text (f : string) : Prop :=
  f = "" \/ exists ds, f = String "." ds /\ ds <> "" /\ all_digits ds = true.

Lemma parse_digits_Some v (w : nat) n :
  (1 <= w <= 4)%nat ->
  parse_digits v (Z.of_nat w) = Some n <-> v = dec_pad w n /\ 0 <= n < 10 ^ Z.of_nat w.
Proof.
  intros Hw. unfold parse_digits. split.
  - destruct (_ && _) eqn:Hv; [|done]. apply andb_true_iff in Hv as [Hlen Hd].
    intros Hp. unfold parse_u16 in Hp. rewrite parse_int_digits in Hp;
      [|lia|intros ->; change (slen "") with 0 in Hlen; lia|done].
    case_match; [|done]. injection Hp as <-.
    pose proof (digits_value_ub v Hd) as Hub. unfold slen in *.
    replace (Z.of_nat (String.length v)) with (Z.of_nat w) in Hub by lia. split; [|done].
    destruct (dec_pad_spec w (digits_value 0 v)) as (Hd' & Hv' & Hl'); [done|lia|].
    apply digits_value_inj; [done..|lia|done].
  - intros [-> Hn]. destruct (dec_pad_spec w n) as (Hd & Hv & Hl); [done|lia|].
    unfold all_digits in Hd. unfold slen. rewrite Hl, Hd, Z.eqb_refl. cbn [andb].
    unfold parse_u16. rewrite parse_int_digits, Hv;
      [|lia|intros E; rewrite E in Hl; cbn in Hl; lia|done].
    assert (10 ^ Z.of_nat w <= 10 ^ 4) by (apply Z.pow_le_mono_r; lia).
    replace (n <=? u16_max) with true by (unfold u16_max; lia). done.
Qed.

Lemma parse_digits_pad2 n : 0 <= n <= 99 -> parse_digits (dec_pad 2 n) 2 = Some n.
Proof. intros Hn. apply (parse_digits_Some _ 2); [lia|]. split; [done|]. cbn. lia. Qed.

Lemma parse_digits_pad4 n : 0 <= n <= 9999 -> parse_digits (dec_pad 4 n) 4 = Some n.
Proof. intros Hn. apply (parse_digits_Some _ 4); [lia|]. split; [done|]. cbn. lia. Qed.

Lemma dec_pad_free c w n :
  is_ascii_digit c = false -> (1 <= w)%nat -> 0 <= n < 10 ^ Z.of_nat w ->
  free_of c (dec_pad w n) = true.
Proof. intros Hc Hw Hn. apply all_digits_free; [done|]. by apply dec_pad_spec. Qed.

Lemma valid_civil_bounds year month day :
  valid_civil year month day = true -> 1 <= month <= 12 /\ 1 <= day <= 31.
Proof.
  unfold valid_civil. intros Hv. split; [lia|].
  assert (days_in_month year month <= 31) by (unfold days_in_month; repeat case_match; lia). lia.
Qed.

Lemma parse_date_text year month day :
  0 <= year <= 9999 -> valid_civil year month day = true ->
  parse_date (date_text year month day) = Some (year, month, day).
Proof.
  intros Hy Hv. destruct (valid_civil_bounds _ _ _ Hv) as [Hm Hd].
  unfold parse_date, date_text.
  rewrite !split_sep, split_free by (apply dec_pad_free; cbn; (done || lia)).
  cbn -[parse_digits dec_pad days_in_month].
  rewrite parse_digits_pad4, !parse_digits_pad2 by lia.
  cbn -[days_in_month]. unfold valid_civil in Hv.
  replace (negb ((1 <=? month) && (month <=? 12))) with false by lia.
  replace ((day =? 0) || (days_in_month year month <? day)) with false by lia. done.
Qed.

Lemma split_three c s p0 p1 p2 :
  split c s !! 0%nat = Some p0 -> split c s !! 1%nat = Some p1 -> split c s !! 2%nat = Some p2 ->
  bool_decide (is_Some (split c s !! 3%nat)) = false ->
  s = p0 +:+ String c (p1 +:+ String c p2) /\ free_of c p2 = true.
Proof.
  destruct (split c s) as [|q0 l0] eqn:E0; [done|]. cbn. intros [= ->] H1 H2 H3.
  destruct (split_cons_inv _ _ _ _ E0) as [_ [[-> ->]|(t0 & -> & E1)]]; [done|].
  destruct l0 as [|q1 l1]; [done|]. cbn in *. injection H1 as ->.
  destruct (split_cons_inv _ _ _ _ E1) as [_ [[-> ->]|(t1 & -> & E2)]]; [done|].
  destruct l1 as [|q2 l2]; [done|]. cbn in *. injection H2 as ->.
  destruct (split_cons_inv _ _ _ _ E2) as [Hf [[-> ->]|(t2 & -> & E3)]]; [done|].
  destruct l2; [|done]. exfalso. clear -E3.
  destruct t2 as [|b t2]; cbn in E3; [done|]. case_match; [done|]. by case_match.
Qed.

Lemma parse_date_inv date year month day :
  parse_date date = Some (year, month, day) ->
  date = date_text year month day /\ 0 <= year <= 9999 /\ valid_civil year month day = true.
Proof.
  unfold parse_date.
  intros (y & (p0 & H0 & Hy)%bind_Some & (m & (p1 & H1 & Hm)%bind_Some &
          (d & (p2 & H2 & Hd)%bind_Some & H)%bind_Some)%bind_Some)%bind_Some.
  destruct (_ || _) eqn:Hb in H; [done|]. destruct (_ || _) eqn:Hb' in H; [done|].
  injection H as <- <- <-. apply orb_false_iff in Hb as [H3 Hmr].
  destruct (split_three _ _ _ _ _ H0 H1 H2 H3) as [-> _].
  apply (parse_digits_Some _ 4) in Hy as [-> Hy]; [|lia].
  apply (parse_digits_Some _ 2) in Hm as [-> Hm]; [|lia].
  apply (parse_digits_Some _ 2) in Hd as [-> Hd]; [|lia].
  cbn in Hy, Hm, Hd. split; [done|]. split; [lia|]. unfold valid_civil. lia.
Qed.

Lemma fraction_text_split second f :
  0 <= second <= 99 -> fraction_text f ->
  exists o, match split_once "." (dec_pad 2 second +:+ f) with
            | Some (s, fraction) => (s, Some fraction)
            | None => (dec_pad 2 second +:+ f, None)
            end = (dec_pad 2 second, o) /\
            match o with
            | Some v => String.eqb v "" || negb (bytes_all is_ascii_digit v)
            | None => false
            end = false.
Proof.
  intros Hs Hf. assert (free_of "." (dec_pad 2 second) = true) as Hfree
    by (apply dec_pad_free; cbn; (done || lia)).
  destruct Hf as [->|(ds & -> & Hne & Hd)].
  - rewrite app_string_nil_r, split_once_free by done. by exists None.
  - rewrite split_once_sep by done. exists (Some ds). split; [done|].
    unfold all_digits in Hd. rewrite Hd. by destruct ds.
Qed.

Lemma fraction_text_free f : fraction_text f -> free_of ":" f = true.
Proof.
  intros [->|(ds & -> & _ & Hd)]; [done|].
  by apply (all_digits_free ":") in Hd.
Qed.

Lemma free_of_app c s t : free_of c (s +:+ t) = free_of c s && free_of c t.
Proof. unfold free_of. apply bytes_all_app. Qed.

Lemma time_text_app hour minute second f :
  time_text hour minute second +:+ f =
    dec_pad 2 hour +:+ String ":" (dec_pad 2 minute +:+ String ":" (dec_pad 2 second +:+ f)).
Proof. unfold time_text. by rewrite !app_string_assoc; cbn; rewrite !app_string_assoc. Qed.

Lemma parse_time_text hour minute second f :
  valid_time hour minute second = true -> fraction_text f ->
  parse_time (time_text hour minute second +:+ f) = Some (hour, minute, second).
Proof.
  unfold valid_time. intros Hv Hf. rewrite time_text_app. unfold parse_time.
  assert (free_of ":" (dec_pad 2 second +:+ f) = true) as Hfree.
  { rewrite free_of_app, (fraction_text_free f Hf), dec_pad_free by (done || (cbn; lia)). done. }
  assert (free_of ":" (dec_pad 2 hour) = true) by (apply dec_pad_free; cbn; (done || lia)).
  assert (free_of ":" (dec_pad 2 minute) = true) by (apply dec_pad_free; cbn; (done || lia)).
  rewrite !split_sep, split_free by done.
  cbn -[parse_digits dec_pad String.append split_once].
  rewrite !parse_digits_pad2 by lia. cbn -[parse_digits dec_pad String.append split_once].
  destruct (fraction_text_split second f ltac:(lia) Hf) as (o & -> & Ho).
  rewrite parse_digits_pad2 by lia. cbn -[String.eqb bytes_all]. rewrite Ho.
  replace ((23 <? hour) || (59 <? minute) || (59 <? second)) with false by lia. done.
Qed.

Lemma parse_time_inv time hour minute second :
  parse_time time = Some (hour, minute, second) ->
  valid_time hour minute second = true /\
  exists f, fraction_text f /\ time = time_text hour minute second +:+ f.
Proof.
  unfold parse_time.
  intros (h & (p0 & H0 & Hh)%bind_Some & (m & (p1 & H1 & Hm)%bind_Some &
          (p2 & H2 & H)%bind_Some)%bind_Some)%bind_Some.
  destruct (bool_decide _) eqn:H3 in H; [done|].
  destruct (split_three _ _ _ _ _ H0 H1 H2 H3) as [-> _].
  destruct (match split_once "." p2 with Some _ => _ | None => _ end) as [sec fr] eqn:Hsp.
  apply bind_Some in H as (s & Hs & H).
  destruct (match fr with Some _ => _ | None => _ end) eqn:Hfr in H; [done|].
  destruct (_ || _ || _) eqn:Hr in H; [done|]. injection H as <- <- <-.
  apply (parse_digits_Some _ 2) in Hh as [-> Hh]; [|lia].
  apply (parse_digits_Some _ 2) in Hm as [-> Hm]; [|lia].
  apply (parse_digits_Some _ 2) in Hs as [-> Hs]; [|lia].
  cbn in Hh, Hm, Hs. split; [unfold valid_time; lia|].
  destruct (split_once "." p2) as [[l r]|] eqn:Hso; injection Hsp as -> <-.
  - apply split_once_Some in Hso as [-> _]. exists (String "." r).
    rewrite time_text_app. split; [right|done]. exists r.
    apply orb_false_iff in Hfr as [Hne Hd].
    split_and!; [done|by intros ->|by apply negb_false_iff in Hd].
  - exists "". rewrite time_text_app, app_string_nil_r. split; [by left|done].
Qed.

(** Seconds since the epoch of a date and a time; they stay far inside [i64]. *)
Definition unix_seconds (year month day hour minute second : Z) : Z :=
  days_from_civil year month day * 86400 + hour * 3600 + minute * 60 + second.

Lemma days_from_civil_bounds year month day :
  0 <= year <= 9999 -> 1 <= month <= 12 -> 1 <= day <= 31 ->
  -800000 <= days_from_civil year month day <= 4000000.
Proof.
  intros Hy Hm Hd. unfold days_from_civil. cbv zeta.
  set (b := if month <=? 2 then 1 else 0). assert (0 <= b <= 1) by (subst b; case_match; lia).
  set (mm := if 2 <? month then -3 else 9).
  assert (0 <= month + mm <= 11) by (subst mm; destruct (Z.ltb_spec 2 month); lia).
  pose proof (Z.div_mod (year - b) 400 ltac:(lia)).
  pose proof (Z.mod_pos_bound (year - b) 400 ltac:(lia)).
  set (e := (year - b) / 400) in *. rewrite !Z.quot_div_nonneg by lia.
  set (y := year - b - e * 400). assert (0 <= y < 400) by lia.
  assert (0 <= y / 4 <= 100) by (Z.to_euclidean_division_equations; lia).
  assert (0 <= y / 100 <= 4) by (Z.to_euclidean_division_equations; lia).
  assert (0 <= (153 * (month + mm) + 2) / 5 <= 400) by (Z.to_euclidean_division_equations; lia).
  lia.
Qed.

Lemma parse_rfc3339_text year month day hour minute second f :
  0 <= year <= 9999 -> valid_civil year month day = true ->
  valid_time hour minute second = true -> fraction_text f ->
  parse_rfc3339_utc_timestamp
    ((date_text year month day +:+ String "T" (time_text hour minute second +:+ f)) +:+ "Z") =
    Some (unix_seconds year month day hour minute second).
Proof.
  intros Hy Hc Ht Hf. unfold parse_rfc3339_utc_timestamp.
  rewrite strip_suffix_char_app. cbn [mbind option_bind].
  destruct (valid_civil_bounds _ _ _ Hc) as [Hm Hd].
  assert (free_of "T" (date_text year month day) = true) as Hfree.
  { unfold date_text. rewrite free_of_app, dec_pad_free by (done || (cbn; lia)).
    change (free_of "T" (dec_pad 2 month +:+ String "-" (dec_pad 2 day)) = true).
    rewrite free_of_app, dec_pad_free by (done || (cbn; lia)).
    by apply (dec_pad_free "T" 2 day); [|lia|cbn; lia]. }
  rewrite split_once_sep by done. cbn -[parse_date parse_time sat_i64].
  rewrite parse_date_text, parse_time_text by done. cbn -[sat_i64].
  pose proof (days_from_civil_bounds year month day Hy Hm Hd). unfold valid_time in Ht.
  unfold unix_seconds, sat_i64, clamp, i64_min, i64_max. f_equal. lia.
Qed.

Lemma format_rfc3339_text seconds year month day :
  civil_from_days (seconds / 86400) = (year, month, day) -> 0 <= year <= 9999 ->
  let sod := seconds mod 86400 in
  let hour := sod / 3600 in let minute := sod mod 3600 / 60 in let second := sod mod 60 in
  format_rfc3339_utc_timestamp seconds =
    Some ((date_text year month day +:+ String "T" (time_text hour minute second)) +:+ "Z") /\
  valid_time hour minute second = true /\
  seconds = unix_seconds year month day hour minute second.
Proof.
  intros Hc Hy sod hour minute second.
  destruct (civil_from_days_valid _ _ _ _ Hc) as [Hv Hdays].
  pose proof (Z.mod_pos_bound seconds 86400 ltac:(lia)) as Hsod. fold sod in Hsod.
  assert (sod = hour * 3600 + minute * 60 + second /\ 0 <= hour <= 23 /\ 0 <= minute <= 59 /\
          0 <= second <= 59) as (Hsplit & Hh & Hmi & Hse).
  { unfold hour, minute, second. clearbody sod. Z.to_euclidean_division_equations; lia. }
  split_and!; [|unfold valid_time; lia|].
  - unfold format_rfc3339_utc_timestamp. rewrite Hc. cbv zeta. fold sod.
    replace (negb ((0 <=? year) && (year <=? 9999))) with false by lia.
    rewrite !Z.rem_mod_nonneg by lia.
    rewrite !Z.quot_div_nonneg by (lia || (apply Z.mod_pos_bound; lia)).
    fold hour minute second. unfold date_text, time_text. cbn [String.append].
    f_equal. rewrite !app_string_assoc. cbn [String.append].
    rewrite !app_string_assoc. cbn [String.append]. by rewrite !app_string_assoc.
  - unfold unix_seconds. rewrite Hdays.
    pose proof (Z.div_mod seconds 86400 ltac:(lia)) as Hdm. fold sod in Hdm. lia.
Qed.

Lemma unix_seconds_split year month day hour minute second :
  valid_time hour minute second = true ->
  let s := unix_seconds year month day hour minute second in
  s / 86400 = days_from_civil year month day /\ s mod 86400 / 3600 = hour /\
  (s mod 86400) mod 3600 / 60 = minute /\ (s mod 86400) mod 60 = second.
Proof.
  unfold valid_time, unix_seconds. intros Hv. cbv zeta.
  set (d := days_from_civil year month day). clearbody d.
  set (r := hour * 3600 + minute * 60 + second).
  replace (d * 86400 + hour * 3600 + minute * 60 + second) with (r + d * 86400)
    by (unfold r; lia).
  assert (0 <= r < 86400) by (unfold r; lia).
  rewrite Z.div_add, Z.mod_add, Z.div_small, Z.mod_small by lia. unfold r.
  split_and!; Z.to_euclidean_division_equations; lia.
Qed.

(** * Theorems *)

(** formatting a Unix time and parsing the text back gives that time, for every time the
    formatter accepts. *)
Theorem timestamp_format_parse seconds text :
  format_rfc3339_utc_timestamp seconds = Some text ->
  parse_rfc3339_utc_timestamp text = Some seconds.
Proof.
  intros Hf. destruct (civil_from_days (seconds / 86400)) as [[year month] day] eqn:Hc.
  assert (0 <= year <= 9999) as Hy.
  { unfold format_rfc3339_utc_timestamp in Hf. rewrite Hc in Hf. cbv zeta in Hf.
    destruct (negb _) eqn:Hn in Hf; [done|]. lia. }
  destruct (format_rfc3339_text _ _ _ _ Hc Hy) as (Ht & Hv & Hs).
  rewrite Ht in Hf. injection Hf as <-.
  transitivity (Some (unix_seconds year month day (seconds mod 86400 / 3600)
    ((seconds mod 86400) mod 3600 / 60) ((seconds mod 86400) mod 60))); [|by f_equal].
  rewrite <- (app_string_nil_r (time_text _ _ _)).
  apply parse_rfc3339_text; [done| |done|by left]. by apply civil_from_days_valid in Hc as [? _].
Qed.

Example timestamp_format_parse_witness :
  parse_rfc3339_utc_timestamp "2026-01-01T00:00:00Z" = Some 1767225600.
Proof. apply (timestamp_format_parse 1767225600). vm_compute. reflexivity. Defined.

(** every timestamp the parser accepts is the formatted text of its time, up to a
    fraction of a second, which the parser drops: the parser accepts no second spelling. *)
Theorem timestamp_parse_format text seconds :
  parse_rfc3339_utc_timestamp text = Some seconds ->
  exists whole fraction,
    format_rfc3339_utc_timestamp seconds = Some (whole +:+ "Z") /\
    fraction_text fraction /\ text = (whole +:+ fraction) +:+ "Z".
Proof.
  intros Hp. pose proof Hp as Hp'. unfold parse_rfc3339_utc_timestamp in Hp.
  apply bind_Some in Hp as (v & Hv & Hp). apply strip_suffix_char_Some in Hv as ->.
  apply bind_Some in Hp as ([date time] & Hso & Hp). apply split_once_Some in Hso as [-> _].
  apply bind_Some in Hp as ([[year month] day] & Hd & Hp).
  apply bind_Some in Hp as ([[hour minute] second] & Ht & _).
  apply parse_date_inv in Hd as (-> & Hy & Hc).
  apply parse_time_inv in Ht as (Hvt & f & Hf & ->).
  rewrite parse_rfc3339_text in Hp' by done. injection Hp' as <-.
  destruct (unix_seconds_split year month day hour minute second Hvt) as (E1 & E2 & E3 & E4).
  pose proof (civil_of_days_from_civil _ _ _ Hc) as Hcivil. rewrite <- E1 in Hcivil.
  destruct (format_rfc3339_text _ _ _ _ Hcivil Hy) as (Hfmt & _ & _).
  rewrite E2, E3, E4 in Hfmt.
  eexists _, f. split; [exact Hfmt|]. split; [done|]. f_equal. symmetry. apply app_string_assoc.
Qed.

Example timestamp_parse_format_witness :
  exists whole fraction,
    format_rfc3339_utc_timestamp 951782400 = Some (whole +:+ "Z") /\
    fraction_text fraction /\ "2000-02-29T00:00:00.5Z" = (whole +:+ fraction) +:+ "Z".
Proof. apply timestamp_parse_format. vm_compute. reflexivity. Defined.

(** the protocol strings of event types are parsed back to the same type, and a string
    that parses is the protocol string of its type. *)
Theorem event_type_round_trip t value :
  event_type_try_from value = Ok t <-> value = event_type_as_str t.
Proof.
  unfold event_type_try_from. split.
  - intros H%ok_or_Ok_inv. apply find_some in H as [_ H]. by apply String.eqb_eq in H.
  - intros ->. by destruct t.
Qed.

(** The Windows device names a session directory must not have. *)
Definition reserved_device_names : list string :=
  [ "con"; "prn"; "aux"; "nul";
    "com1"; "com2"; "com3"; "com4"; "com5"; "com6"; "com7"; "com8"; "com9";
    "lpt1"; "lpt2"; "lpt3"; "lpt4"; "lpt5"; "lpt6"; "lpt7"; "lpt8"; "lpt9" ].

Lemma device_digit d :
  (49 <=? byte d) && (byte d <=? 57) = true <->
  d ∈ ["1"; "2"; "3"; "4"; "5"; "6"; "7"; "8"; "9"]%char.
Proof.
  split.
  - intros H.
    assert (byte d = byte "1" \/ byte d = byte "2" \/ byte d = byte "3" \/ byte d = byte "4" \/
            byte d = byte "5" \/ byte d = byte "6" \/ byte d = byte "7" \/ byte d = byte "8" \/
            byte d = byte "9") as Hd by (unfold byte at 2 4 6 8 10 12 14 16 18; cbn; lia).
    rewrite !elem_of_cons. naive_solver eauto using byte_inj.
  - intros H. repeat (apply elem_of_cons in H as [->|H]; [reflexivity|]).
    by apply elem_of_nil in H.
Qed.

Lemma is_windows_dos_device_basename_spec value :
  is_windows_dos_device_basename value = true <-> value ∈ reserved_device_names.
Proof.
  unfold is_windows_dos_device_basename, reserved_device_names. split.
  - rewrite !orb_true_iff, !String.eqb_eq. intros [H|H]; [set_solver|].
    destruct (strip_prefix "com" value) as [r|] eqn:Hc.
    + apply strip_prefix_Some in Hc as ->. destruct r as [|d [|? ?]]; [done| |done].
      apply device_digit in H. set_solver.
    + destruct (strip_prefix "lpt" value) as [r|] eqn:Hl; [|done].
      apply strip_prefix_Some in Hl as ->. destruct r as [|d [|? ?]]; [done| |done].
      apply device_digit in H. set_solver.
  - intros H. repeat (apply elem_of_cons in H as [->|H]; [reflexivity|]).
    by apply elem_of_nil in H.
Qed.

(** a session id is valid exactly when it has 1 to 128 bytes, each a lowercase letter, a
    digit, [_] or [-], and is no Windows device name; so it is safe as a path component. *)
Theorem session_id_valid value :
  is_valid_session_id value = true <->
  1 <= slen value <= 128 /\ bytes_all is_session_id_byte value = true /\
  value ∉ reserved_device_names.
Proof.
  unfold is_valid_session_id, MAX_SESSION_ID_BYTES.
  rewrite !andb_true_iff, !negb_true_iff, <- is_windows_dos_device_basename_spec.
  rewrite not_true_iff_false, Z.leb_le.
  assert (String.eqb value "" = false <-> 1 <= slen value) as ->; [|naive_solver].
  destruct value; [by cbn|]. unfold slen. cbn. split; [lia|done].
Qed.
