(* ===== verification/Json.v ===== *)
(** JSON values and their canonical text ([proto/src/canonical.rs]): unique-key parsing, NFC
    normalization of strings, the nesting limit, and the canonical serialization.

    The crates the source calls are the fields of [JsonEnv]; [JsonLaws] is what the
    development relies on. *)

From stdpp Require Import base list strings sorting sets.
From Stdlib Require Import ZArith Lia Ascii String.
From S2P Require Import Prelude Decimal Sorting.

Open Scope Z_scope.

(** * Values *)

(** [serde_json::Number]: a [u64], a negative [i64], or a finite [f64] as its 64 bits. *)
Inductive Number : Type :=
| PosInt (n : Z)
| NegInt (n : Z)
| Float (bits : Z).

(** [serde_json::Value]; an object is its [BTreeMap], listed in key order. *)
Inductive Value : Type :=
| JNull
| JBool (b : bool)
| JNumber (n : Number)
| JString (s : string)
| JArray (values : list Value)
| JObject (fields : list (string * Value)).

Section value_ind.
Context (P : Value -> Prop).
Context (Hnull : P JNull) (Hbool : forall b, P (JBool b)) (Hnum : forall n, P (JNumber n)).
Context (Hstr : forall s, P (JString s)).
Context (Harr : forall vs, Forall P vs -> P (JArray vs)).
Context (Hobj : forall fs, Forall (fun kv => P kv.2) fs -> P (JObject fs)).

Fixpoint Value_ind' (v : Value) : P v :=
  match v with
  | JNull => Hnull
  | JBool b => Hbool b
  | JNumber n => Hnum n
  | JString s => Hstr s
  | JArray vs =>
      Harr vs ((fix go (vs : list Value) : Forall P vs :=
        match vs with
        | [] => Forall_nil_2 _
        | v :: vs => Forall_cons_2 _ _ _ (Value_ind' v) (go vs)
        end) vs)
  | JObject fs =>
      Hobj fs ((fix go (fs : list (string * Value)) : Forall (fun kv => P kv.2) fs :=
        match fs with
        | [] => Forall_nil_2 _
        | (k, v) :: fs => Forall_cons_2 _ (k, v) _ (Value_ind' v) (go fs)
        end) fs)
  end.
End value_ind.

(** [Map::get], [Map::contains_key] and [Map::insert]. *)
Fixpoint obj_get (fields : list (string * Value)) (key : string) : option Value :=
  match fields with
  | [] => None
  | (k, v) :: fields => if String.eqb k key then Some v else obj_get fields key
  end.

Definition obj_has (fields : list (string * Value)) (key : string) : bool :=
  match obj_get fields key with Some _ => true | None => false end.

Fixpoint obj_insert (key : string) (value : Value) (fields : list (string * Value))
    : list (string * Value) :=
  match fields with
  | [] => [(key, value)]
  | (k, v) :: fields =>
      match str_cmp key k with
      | Lt => (key, value) :: (k, v) :: fields
      | Eq => (key, value) :: fields
      | Gt => (k, v) :: obj_insert key value fields
      end
  end.

(** [Value::as_str], [as_object], [as_array], [as_u64], [as_i64] and the shape tests. *)
Definition as_str (v : Value) : option string := match v with JString s => Some s | _ => None end.
Definition as_object (v : Value) : option (list (string * Value)) :=
  match v with JObject fs => Some fs | _ => None end.
Definition as_array (v : Value) : option (list Value) :=
  match v with JArray vs => Some vs | _ => None end.
Definition as_number (v : Value) : option Number := match v with JNumber n => Some n | _ => None end.
Definition as_u64 (v : Value) : option Z := match v with JNumber (PosInt n) => Some n | _ => None end.

Definition number_as_u64 (n : Number) : option Z := match n with PosInt n => Some n | _ => None end.
Definition number_as_i64 (n : Number) : option Z :=
  match n with
  | PosInt n => if n <=? i64_max then Some n else None
  | NegInt n => Some n
  | Float _ => None
  end.

Definition is_object (v : Value) : bool := match v with JObject _ => true | _ => false end.
Definition is_boolean (v : Value) : bool := match v with JBool _ => true | _ => false end.
Definition is_string (v : Value) : bool := match v with JString _ => true | _ => false end.
Definition is_number (v : Value) : bool := match v with JNumber _ => true | _ => false end.

(** Object keys are strictly increasing at every depth, as in a [BTreeMap]. *)
Definition keys_increasing (fields : list (string * Value)) : Prop :=
  StronglySorted (fun a b => str_lt a.1 b.1) fields.

Fixpoint wf_json (v : Value) : Prop :=
  match v with
  | JArray vs => foldr and True (map wf_json vs)
  | JObject fs => keys_increasing fs /\ foldr and True (map (fun '(_, v) => wf_json v) fs)
  | _ => True
  end.

(** * The crates the source calls *)

Class JsonEnv : Type := {
  (** [unicode_normalization]: the NFC form of a string *)
  nfc : string -> string;
  (** [serde_json::to_string] of a string: quotes and escapes *)
  json_quote : string -> string;
  (** the shortest decimal text of an [f64], plain and in scientific notation *)
  f64_display : Z -> string;
  f64_lower_exp : Z -> string;
  (** [serde_json]: the text of a number, and the buffers [to_writer] hands to its writer *)
  json_number : Number -> string;
  json_pieces : Value -> list string;
  (** [format!("{value:?}")] of a string, whose escapes follow the Unicode tables *)
  debug_str : string -> string;
}.

Fixpoint join_comma (items : list string) : string :=
  match items with
  | [] => ""
  | [item] => item
  | item :: items => item +:+ "," +:+ join_comma items
  end.

(** The compact text of [serde_json]: no spaces, fields in map order. *)
Fixpoint compact_json `{!JsonEnv} (v : Value) : string :=
  match v with
  | JNull => "null"
  | JBool b => if b then "true" else "false"
  | JNumber n => json_number n
  | JString s => json_quote s
  | JArray vs => "[" +:+ join_comma (map compact_json vs) +:+ "]"
  | JObject fs =>
      "{" +:+ join_comma (map (fun '(k, v) => json_quote k +:+ ":" +:+ compact_json v) fs) +:+ "}"
  end.

Class JsonLaws `{!JsonEnv} : Prop := {
  (** normalizing twice changes nothing more *)
  nfc_idem s : nfc (nfc s) = nfc s;
  (** ASCII text is in normal form *)
  nfc_ascii s : bytes_all (fun a => byte a <? 128) s = true -> nfc s = s;
  (** the buffers written for a value make up its compact text *)
  json_pieces_compact v : foldr String.append "" (json_pieces v) = compact_json v;
  (** integers are written in decimal *)
  json_number_pos n : json_number (PosInt n) = Z_to_string n;
  json_number_neg n : json_number (NegInt n) = Z_to_string n;
}.

(** * Unique keys *)

(** What [serde_json] hands a visitor: the syntax tree with duplicate keys still in it. *)
Inductive Raw : Type :=
| RUnit
| RBool (b : bool)
| RI64 (z : Z)
| RU64 (z : Z)
| RF64 (bits : Z)
| RStr (s : string)
| RSeq (values : list Raw)
| RMap (entries : list (string * Raw)).

Inductive JsonError : Type := NotFinite | DuplicateKey.

(** [Number::from(i64)] and [Number::from_f64]. *)
Definition number_of_i64 (z : Z) : Number := if z <? 0 then NegInt z else PosInt z.
Definition f64_exponent (bits : Z) : Z := Z.land (Z.shiftr bits 52) 2047.
Definition f64_mantissa (bits : Z) : Z := Z.land bits (2 ^ 52 - 1).
Definition number_of_f64 (bits : Z) : option Number :=
  if f64_exponent bits =? 2047 then None else Some (Float bits).

(** [visit_map]: the loop over the entries, with the visitor of the values as argument. *)
Definition visit_map (visit : Raw -> result JsonError Value)
    : list (string * Raw) -> list (string * Value) -> result JsonError (list (string * Value)) :=
  fix go es values :=
    match es with
    | [] => Ok values
    | (name, r) :: es =>
        if obj_has values name then Err DuplicateKey
        else value ← visit r; go es (obj_insert name value values)
    end.

(** [UniqueJsonVisitor]: one clause per [visit_*] method. *)
Fixpoint unique_json (r : Raw) : result JsonError Value :=
  match r with
  | RUnit => Ok JNull
  | RBool b => Ok (JBool b)
  | RI64 z => Ok (JNumber (number_of_i64 z))
  | RU64 z => Ok (JNumber (PosInt z))
  | RF64 bits => n ← ok_or (number_of_f64 bits) NotFinite; Ok (JNumber n)
  | RStr s => Ok (JString s)
  | RSeq rs =>
      values ← try_collect unique_json rs; Ok (JArray values)
  | RMap es =>
      values ← visit_map unique_json es []; Ok (JObject values)
  end.

(** * NFC *)

Section canonical.
Context {J : JsonEnv}.

Definition is_nfc (value : string) : bool := String.eqb (nfc value) value.

Definition nfc_string (value : string) : string :=
  if is_nfc value then value else nfc value.

(** [nfc_json_string_values]: strings are normalized, object keys are not. *)
Fixpoint nfc_json_string_values (v : Value) : Value :=
  match v with
  | JString s => JString (if is_nfc s then s else nfc s)
  | JArray vs => JArray (map nfc_json_string_values vs)
  | JObject fs => JObject (map (fun '(k, v) => (k, nfc_json_string_values v)) fs)
  | v => v
  end.

(** * The nesting limit *)

Definition JSON_NESTING_LIMIT_V0 : Z := 128.

Fixpoint json_size (v : Value) : nat :=
  match v with
  | JArray vs => S (list_sum (map json_size vs))
  | JObject fs => S (list_sum (map (fun '(_, v) => json_size v) fs))
  | _ => 1
  end.

(** The loop over the stack [pending], whose top is the head of the list; [None] when
    [fuel] runs out. *)
Fixpoint nesting_loop (fuel : nat) (pending : list (Value * Z)) : option bool :=
  match fuel with
  | O => None
  | S fuel =>
      match pending with
      | [] => Some false
      | (value, enclosing_depth) :: pending =>
          let depth := enclosing_depth + 1 in
          match value with
          | JArray values =>
              if JSON_NESTING_LIMIT_V0 <=? depth then Some true
              else nesting_loop fuel (rev (map (fun v => (v, depth)) values) ++ pending)
          | JObject fields =>
              if JSON_NESTING_LIMIT_V0 <=? depth then Some true
              else nesting_loop fuel (rev (map (fun '(_, v) => (v, depth)) fields) ++ pending)
          | _ => nesting_loop fuel pending
          end
      end
  end.

(** Each step removes one node, so one more than the number of nodes is enough fuel. *)
Definition json_nesting_reaches_limit (value : Value) (enclosing_depth : Z) : bool :=
  default false (nesting_loop (S (json_size value)) [(value, enclosing_depth)]).

(** * The canonical text *)

(** The message of a [serde_json::Error] and the two strings of an
    [EventValidationError] stand for those errors. *)
Inductive CanonicalJsonError : Type :=
| Serialize (message : string)
| InvalidEvent (field requirement : string)
| NonObjectPayload
| UnsupportedProtocolVersion (protocol_version : string)
| JsonNestingLimitExceeded
| DuplicateNormalizedObjectKey (key : string).

(** [value == 0.0] and [value.fract() == 0.0] on the bits of a finite [f64]. *)
Definition f64_is_zero (bits : Z) : bool := Z.land bits (2 ^ 63 - 1) =? 0.
Definition f64_is_integral (bits : Z) : bool :=
  let e := f64_exponent bits - 1075 in
  let m := if f64_exponent bits =? 0 then f64_mantissa bits else f64_mantissa bits + 2 ^ 52 in
  f64_is_zero bits || (0 <=? e) || ((-53 <? e) && (m mod 2 ^ (- e) =? 0)).

Definition canonical_number (n : Number) : string :=
  match number_as_u64 n with
  | Some v => Z_to_string v
  | None =>
      match number_as_i64 n with
      | Some v => Z_to_string v
      | None =>
          match n with
          | Float bits =>
              if f64_is_zero bits then "0"
              else if f64_is_integral bits then f64_display bits
              else if slen (f64_lower_exp bits) <? slen (f64_display bits)
                   then f64_lower_exp bits else f64_display bits
          | _ => ""
          end
      end
  end.

(** The loop that normalizes the keys of an object and finds a collision. *)
Fixpoint collect_entries {A} (seen : list string) (fields : list (string * A))
    : result CanonicalJsonError (list (string * A)) :=
  match fields with
  | [] => Ok []
  | (key, value) :: fields =>
      let normalized_key := nfc key in
      if bool_decide (normalized_key ∈ seen)
      then Err (DuplicateNormalizedObjectKey normalized_key)
      else
        entries ← collect_entries (normalized_key :: seen) fields;
        Ok ((normalized_key, value) :: entries)
  end.

Definition key_leb {A} (l r : string * A) : bool := str_leb l.1 r.1.

(** The loops that write members separated by commas; [first] is [index == 0]. *)
Fixpoint write_items (first : bool) (items : list (string -> result CanonicalJsonError string))
    (output : string) : result CanonicalJsonError string :=
  match items with
  | [] => Ok output
  | item :: items =>
      output ← item (if first then output else output +:+ ",");
      write_items false items output
  end.

Fixpoint append_canonical_json (value : Value) (output : string)
    : result CanonicalJsonError string :=
  match value with
  | JNull => Ok (output +:+ "null")
  | JBool b => Ok (output +:+ (if b then "true" else "false"))
  | JNumber n => Ok (output +:+ canonical_number n)
  | JString s => Ok (output +:+ json_quote (nfc s))
  | JArray values =>
      output ← write_items true (map append_canonical_json values) (output +:+ "[");
      Ok (output +:+ "]")
  | JObject fields =>
      entries ← collect_entries [] (map (fun '(k, v) => (k, append_canonical_json v)) fields);
      output ← write_items true
        (map (fun '(k, append) => fun out => append ((out +:+ json_quote k) +:+ ":"))
             (sort_by key_leb entries))
        (output +:+ "{");
      Ok (output +:+ "}")
  end.

Definition canonical_json (value : Value) : result CanonicalJsonError string :=
  if json_nesting_reaches_limit value 0 then Err JsonNestingLimitExceeded
  else append_canonical_json value "".
End canonical.

(** * The nesting limit is a bound on the height *)

Fixpoint json_height (v : Value) : Z :=
  match v with
  | JArray vs => 1 + foldr Z.max 0 (map json_height vs)
  | JObject fs => 1 + foldr Z.max 0 (map (fun '(_, v) => json_height v) fs)
  | _ => 0
  end.

Definition too_deep (vd : Value * Z) : bool :=
  (0 <? json_height vd.1) && (JSON_NESTING_LIMIT_V0 <=? vd.2 + json_height vd.1).

Definition pending_size (pending : list (Value * Z)) : nat :=
  list_sum (map (fun vd => json_size vd.1) pending).

Lemma pending_size_app p q : pending_size (p ++ q) = (pending_size p + pending_size q)%nat.
Proof. unfold pending_size. by rewrite map_app, list_sum_app. Qed.

Lemma pending_size_rev p : pending_size (rev p) = pending_size p.
Proof.
  induction p as [|x p IH]; [done|]. cbn [rev]. rewrite pending_size_app, IH.
  change (pending_size (x :: p)) with (json_size x.1 + pending_size p)%nat.
  change (pending_size [x]) with (json_size x.1 + 0)%nat. lia.
Qed.

Lemma pending_size_children (vs : list Value) depth :
  pending_size (map (fun v => (v, depth)) vs) = list_sum (map json_size vs).
Proof. unfold pending_size. by rewrite map_map. Qed.

Lemma pending_size_cons v d pending :
  pending_size ((v, d) :: pending) = (json_size v + pending_size pending)%nat.
Proof. done. Qed.

Lemma json_size_pos v : (1 <= json_size v)%nat.
Proof. destruct v; cbn; lia. Qed.

Lemma existsb_rev {A} (p : A -> bool) l : existsb p (rev l) = existsb p l.
Proof.
  induction l as [|a l IH]; [done|]. cbn. rewrite existsb_app, IH. cbn.
  by rewrite orb_false_r, orb_comm.
Qed.

Lemma max_list_spec (l : list Z) m :
  Forall (fun z => 0 <= z) l -> 0 < m ->
  (m <=? foldr Z.max 0 l) = existsb (fun z => (0 <? z) && (m <=? z)) l.
Proof.
  intros Hl Hm. induction Hl as [|z l Hz Hl IH]; cbn; [lia|]. rewrite <- IH. lia.
Qed.

Lemma json_height_nonneg v : 0 <= json_height v.
Proof.
  assert (forall l, 0 <= foldr Z.max 0 l) as H by (induction l; cbn; lia).
  destruct v; cbn; try lia; match goal with |- context [foldr _ _ ?l] => pose proof (H l) end; lia.
Qed.

Lemma children_too_deep (vs : list Value) depth :
  depth < JSON_NESTING_LIMIT_V0 ->
  existsb too_deep (map (fun v => (v, depth)) vs) =
    (JSON_NESTING_LIMIT_V0 <=? depth + foldr Z.max 0 (map json_height vs)).
Proof.
  intros Hd. transitivity (JSON_NESTING_LIMIT_V0 - depth <=? foldr Z.max 0 (map json_height vs));
    [|lia].
  rewrite max_list_spec; [|apply Forall_map, Forall_true, json_height_nonneg|lia].
  induction vs as [|v vs IH]; [done|]. cbn. rewrite IH. f_equal. unfold too_deep. cbn. lia.
Qed.

Lemma map_snd_fields {B} (f : Value -> B) (fs : list (string * Value)) :
  map (fun '(_, v) => f v) fs = map f (map snd fs).
Proof. induction fs as [|[k v] fs IH]; [done|]. cbn. by rewrite IH. Qed.

Lemma nesting_loop_spec fuel pending :
  (pending_size pending < fuel)%nat ->
  nesting_loop fuel pending = Some (existsb too_deep pending).
Proof.
  revert pending. induction fuel as [|fuel IH]; intros pending Hf; [lia|].
  destruct pending as [|[v d] pending]; [done|]. cbn [nesting_loop existsb].
  rewrite pending_size_cons in Hf. pose proof (json_size_pos v).
  assert (forall vs h, json_height v = 1 + foldr Z.max 0 (map json_height vs) ->
    h = list_sum (map json_size vs) -> json_size v = S h ->
    (if JSON_NESTING_LIMIT_V0 <=? d + 1 then Some true
     else nesting_loop fuel (rev (map (fun v => (v, d + 1)) vs) ++ pending)) =
    Some (too_deep (v, d) || existsb too_deep pending)) as Hcontainer.
  { intros vs h Hh Hsz Hv. unfold too_deep at 1. cbn [fst snd].
    assert (0 <= foldr Z.max 0 (map json_height vs)) as Hnn.
    { clear. induction vs; cbn; lia. }
    destruct (Z.leb_spec JSON_NESTING_LIMIT_V0 (d + 1)) as [Hlim|Hlim].
    - replace (_ && _) with true by lia. done.
    - rewrite IH, existsb_app, existsb_rev, children_too_deep by
        (done || (rewrite pending_size_app, pending_size_rev, pending_size_children; lia)).
      do 2 f_equal. lia. }
  destruct v as [|b|n|s|vs|fs]; try (rewrite IH by lia; done).
  - by eapply Hcontainer.
  - rewrite (map_snd_fields (fun v => (v, d + 1))).
    apply (Hcontainer (map snd fs) (list_sum (map (fun '(_, v) => json_size v) fs)));
      cbn; rewrite ?map_snd_fields; done.
Qed.

Lemma json_nesting_is_height_lemma value enclosing_depth :
  json_nesting_reaches_limit value enclosing_depth =
    (0 <? json_height value) && (128 <=? enclosing_depth + json_height value).
Proof.
  unfold json_nesting_reaches_limit. rewrite nesting_loop_spec by
    (rewrite pending_size_cons; unfold pending_size; cbn [map list_sum foldr]; lia).
  cbn. by rewrite orb_false_r.
Qed.

(** * What can be written canonically *)

Lemma foldr_and_Forall {A} (P : A -> Prop) l : foldr and True (map P l) <-> Forall P l.
Proof. induction l as [|a l IH]; cbn; [by split; constructor|]. by rewrite Forall_cons, IH. Qed.

Lemma foldr_and_fields (P : Value -> Prop) (fs : list (string * Value)) :
  foldr and True (map (fun '(_, v) => P v) fs) <-> Forall (fun kv => P kv.2) fs.
Proof.
  induction fs as [|[k v] fs IH]; cbn; [by split; constructor|]. by rewrite Forall_cons, IH.
Qed.

Section canonical_theory.
Context {J : JsonEnv}.

(** No object has two keys with the same normal form. *)
Fixpoint distinct_keys (v : Value) : Prop :=
  match v with
  | JArray vs => foldr and True (map distinct_keys vs)
  | JObject fs =>
      NoDup (map (fun kv => nfc kv.1) fs) /\
      foldr and True (map (fun '(_, v) => distinct_keys v) fs)
  | _ => True
  end.

Lemma collect_entries_Ok {A} seen (fields : list (string * A)) entries :
  collect_entries seen fields = Ok entries <->
  entries = map (fun kv => (nfc kv.1, kv.2)) fields /\
  NoDup (map (fun kv => nfc kv.1) fields) /\
  Forall (fun kv => nfc kv.1 ∉ seen) fields.
Proof.
  revert seen entries. induction fields as [|[k v] fields IH]; intros seen entries; cbn.
  { split; [intros [= <-]; repeat constructor|by intros (-> & _)]. }
  rewrite NoDup_cons, Forall_cons. cbn. case_bool_decide as Hin; [naive_solver|]. split.
  - intros (es & (-> & Hnd & Hf)%IH & [= <-])%bind_Ok_inv. split_and!; try done.
    + intros ([k' v'] & Heq & Hk')%list_elem_of_fmap. rewrite Forall_forall in Hf.
      specialize (Hf _ Hk'). cbn in *. set_solver.
    + eapply Forall_impl; [exact Hf|]. set_solver.
  - intros (-> & (Hk & Hnd) & _ & Hf).
    assert (collect_entries (nfc k :: seen) fields =
            Ok (map (fun kv => (nfc kv.1, kv.2)) fields)) as ->; [|done].
    apply IH. split_and!; [done..|]. rewrite Forall_forall in Hf |- *. intros kv Hkv.
    apply not_elem_of_cons. split; [|by apply Hf]. intros Heq. apply Hk.
    rewrite <- Heq. by apply (list_elem_of_fmap_2 (fun kv => nfc kv.1)).
Qed.

Lemma collect_entries_no_panic {A} seen (fields : list (string * A)) :
  collect_entries seen fields <> Panic.
Proof.
  revert seen. induction fields as [|[k v] fields IH]; intros seen; cbn; [done|].
  case_bool_decide; [done|]. specialize (IH (nfc k :: seen)).
  by destruct (collect_entries _ fields).
Qed.

Definition item_ok (f : string -> result CanonicalJsonError string) : Prop :=
  forall out, exists out', f out = Ok out'.

Lemma write_items_ok first items out :
  Forall item_ok items -> exists out', write_items first items out = Ok out'.
Proof.
  intros Hf. revert first out. induction Hf as [|f items Hf Hfs IH]; intros first out; cbn.
  { by eexists. }
  destruct (Hf (if first then out else out +:+ ",")) as [o ->]. cbn. apply IH.
Qed.

Definition canonical_entries (fs : list (string * Value))
    : list (string * (string -> result CanonicalJsonError string)) :=
  map (fun kv => (nfc kv.1, append_canonical_json kv.2)) fs.

Lemma collect_canonical_entries fs entries :
  collect_entries [] (map (fun '(k, v) => (k, append_canonical_json v)) fs) = Ok entries <->
  entries = canonical_entries fs /\ NoDup (map (fun kv => nfc kv.1) fs).
Proof.
  rewrite collect_entries_Ok, !map_map. unfold canonical_entries.
  replace (map (fun x => nfc (let '(k, v) := x in (k, append_canonical_json v)).1) fs)
    with (map (fun kv => nfc kv.1) fs) by (by apply map_ext; intros [k v]).
  replace (map (fun x => (nfc (let '(k, v) := x in (k, append_canonical_json v)).1,
                          (let '(k, v) := x in (k, append_canonical_json v)).2)) fs)
    with (map (fun kv => (nfc kv.1, append_canonical_json kv.2)) fs)
    by (by apply map_ext; intros [k v]).
  split; [naive_solver|]. intros [-> Hnd]. split_and!; [done..|].
  apply Forall_forall. set_solver.
Qed.

Definition write_entry (e : string * (string -> result CanonicalJsonError string))
    : string -> result CanonicalJsonError string :=
  fun out => e.2 ((out +:+ json_quote e.1) +:+ ":").

Lemma append_canonical_object fs out :
  NoDup (map (fun kv => nfc kv.1) fs) ->
  append_canonical_json (JObject fs) out =
    out ← write_items true (map write_entry (sort_by key_leb (canonical_entries fs)))
            (out +:+ "{");
    Ok (out +:+ "}").
Proof.
  intros Hnd. cbn.
  rewrite (proj2 (collect_canonical_entries fs _) (conj eq_refl Hnd)). cbn.
  do 2 f_equal. apply map_ext. by intros [k f].
Qed.

Lemma append_canonical_json_ok v : distinct_keys v -> item_ok (append_canonical_json v).
Proof.
  unfold item_ok. induction v as [|b|n|s|vs IH|fs IH] using Value_ind'; intros Hd out;
    try (by eexists); cbn in Hd.
  - rewrite foldr_and_Forall in Hd. cbn. destruct (write_items_ok true
      (map append_canonical_json vs) (out +:+ "[")) as [o ->]; [|by eexists].
    apply Forall_map. rewrite Forall_forall in *. intros v Hv o. by apply IH, Hd.
  - rewrite foldr_and_fields in Hd. destruct Hd as [Hnd Hd].
    rewrite append_canonical_object by done.
    destruct (write_items_ok true (map write_entry (sort_by key_leb (canonical_entries fs)))
      (out +:+ "{")) as [o ->]; [|by eexists].
    apply Forall_map. rewrite sort_by_perm. apply Forall_map.
    rewrite Forall_forall in *. intros kv Hkv o. cbn. by apply IH, Hd.
Qed.

Lemma write_items_each first items out out' :
  write_items first items out = Ok out' -> Forall (fun f => exists o o', f o = Ok o') items.
Proof.
  revert first out. induction items as [|f items IH]; intros first out; cbn; [constructor|].
  intros (o & H1 & H2)%bind_Ok_inv. constructor; [eexists _, _; exact H1|eauto].
Qed.

Lemma append_canonical_json_distinct v out out' :
  append_canonical_json v out = Ok out' -> distinct_keys v.
Proof.
  revert out out'.
  induction v as [|b|n|s|vs IH|fs IH] using Value_ind'; intros out out' H; cbn; try done.
  - apply foldr_and_Forall. cbn in H. apply bind_Ok_inv in H as (o & H%write_items_each & _).
    rewrite Forall_map in H. rewrite Forall_forall in *. intros v Hv.
    destruct (H v Hv) as (o1 & o2 & Ho). by eapply IH.
  - rewrite foldr_and_fields. pose proof H as H'. cbn in H'.
    apply bind_Ok_inv in H' as (es & Hes & _).
    apply collect_canonical_entries in Hes as [-> Hnd]. split; [done|].
    rewrite append_canonical_object in H by done.
    apply bind_Ok_inv in H as (o & H%write_items_each & _).
    rewrite Forall_map, sort_by_perm in H. unfold canonical_entries in H.
    rewrite Forall_map in H. rewrite Forall_forall in *. intros kv Hkv.
    destruct (H _ Hkv) as (o1 & o2 & Ho). by eapply IH.
Qed.
End canonical_theory.

(** * Equivalent values have the same canonical text *)

Section canonical_equiv.
Context {J : JsonEnv}.

(** Equal up to Unicode normalization and the order of object fields. *)
Inductive json_equiv : Value -> Value -> Prop :=
| equiv_scalar v : json_equiv v v
| equiv_string s t : nfc s = nfc t -> json_equiv (JString s) (JString t)
| equiv_array vs ws : Forall2 json_equiv vs ws -> json_equiv (JArray vs) (JArray ws)
| equiv_object fs gs hs :
    Forall2 (fun f g => nfc f.1 = nfc g.1 /\ json_equiv f.2 g.2) fs gs -> gs ≡ₚ hs ->
    json_equiv (JObject fs) (JObject hs).

Definition refines_item (f g : string -> result CanonicalJsonError string) : Prop :=
  forall out out', f out = Ok out' -> g out = Ok out'.

Lemma write_items_refines first fs gs out out' :
  Forall2 refines_item fs gs ->
  write_items first fs out = Ok out' -> write_items first gs out = Ok out'.
Proof.
  intros Hf. revert first out. induction Hf as [|f g fs gs Hfg Hfs IH]; intros first out; [done|].
  cbn. intros (o & Ho & Hr)%bind_Ok_inv. rewrite (Hfg _ _ Ho). cbn. by apply IH.
Qed.

Definition refines_entry (e e' : string * (string -> result CanonicalJsonError string)) : Prop :=
  e.1 = e'.1 /\ refines_item e.2 e'.2.

Lemma insert_sorted_refines e e' l l' :
  refines_entry e e' -> Forall2 refines_entry l l' ->
  Forall2 refines_entry (insert_sorted key_leb e l) (insert_sorted key_leb e' l').
Proof.
  intros He Hl.
  induction Hl as [|x x' l l' Hx Hl IH]; cbn; [by constructor; [|constructor]|].
  unfold key_leb at 1 3. destruct He as [He1 He2], Hx as [Hx1 Hx2]. rewrite <- He1, <- Hx1.
  case_match; [constructor; [done|]|]; by constructor.
Qed.

Lemma sort_by_refines l l' :
  Forall2 refines_entry l l' ->
  Forall2 refines_entry (sort_by key_leb l) (sort_by key_leb l').
Proof. induction 1; cbn; [constructor|]. by apply insert_sorted_refines. Qed.

Lemma sort_by_keys_perm {A} (l l' : list (string * A)) :
  NoDup (map fst l) -> l ≡ₚ l' -> sort_by key_leb l = sort_by key_leb l'.
Proof.
  intros Hnd Hp.
  assert (forall a b : string * A, key_leb a b = true \/ key_leb b a = true) as Htot
    by (intros; apply str_leb_total).
  assert (forall a b c : string * A,
    key_leb a b = true -> key_leb b c = true -> key_leb a c = true) as Htrans
    by (intros ???; apply str_leb_trans).
  apply (sorted_perm_unique key_leb); [|by apply sort_by_sorted..|by rewrite !sort_by_perm].
  intros a b Ha Hb Hab Hba. rewrite sort_by_perm in Ha, Hb.
  unfold key_leb in Hab, Hba. apply str_leb_le in Hab, Hba.
  assert (a.1 = b.1) as Heq.
  { destruct Hab as [|Hab]; [done|]. destruct Hba as [|Hba]; [done|].
    exfalso. apply (irreflexivity str_lt a.1). by transitivity b.1. }
  apply elem_of_Permutation in Ha as [l1 Hl1]. rewrite Hl1 in Hnd, Hb. cbn in Hnd.
  apply NoDup_cons in Hnd as [Hn _]. apply elem_of_cons in Hb as [|Hb]; [done|].
  exfalso. apply Hn. rewrite Heq. by apply (list_elem_of_fmap_2 fst).
Qed.

Lemma append_canonical_json_equiv v w :
  json_equiv v w -> refines_item (append_canonical_json v) (append_canonical_json w).
Proof.
  revert w. induction v as [|b|n|s|vs IH|fs IH] using Value_ind';
    intros w Hw out out' Hv; inversion Hw as [|s' t Hst|vs' ws Hvs|fs' gs hs Hfs Hp]; subst;
    try done.
  - cbn in *. by rewrite <- Hst.
  - cbn in *. apply bind_Ok_inv in Hv as (o & Ho & [= <-]).
    rewrite (write_items_refines true (map append_canonical_json vs)
      (map append_canonical_json ws) _ o); [done| |done].
    apply Forall2_fmap_2. clear -IH Hvs. induction Hvs as [|v w vs ws Hvw Hvs IHvs]; [constructor|].
    apply Forall_cons in IH as [IHv IH]. constructor; auto.
  - pose proof (append_canonical_json_distinct _ _ _ Hv) as [Hnd _]. cbn in Hnd.
    rewrite append_canonical_object in Hv by done.
    assert (map (fun kv => nfc kv.1) fs = map (fun kv => nfc kv.1) gs) as Hkeys.
    { clear -Hfs. induction Hfs as [|f g fs gs [Hk _] Hfs IHfs]; [done|]. cbn. by rewrite Hk, IHfs. }
    rewrite append_canonical_object by (by rewrite <- Hp, <- Hkeys).
    apply bind_Ok_inv in Hv as (o & Ho & [= <-]).
    rewrite <- (sort_by_keys_perm (canonical_entries gs) (canonical_entries hs)).
    + erewrite write_items_refines; [done| |exact Ho].
      apply Forall2_fmap_2. eapply Forall2_impl; [apply sort_by_refines|].
      * apply Forall2_fmap_2. clear -IH Hfs.
        induction Hfs as [|f g fs gs [Hk Hv] Hfs IHfs]; [constructor|].
        apply Forall_cons in IH as [IHf IH]. constructor; [|by apply IHfs].
        split; [done|]. by apply IHf.
      * intros e e' [Hk He] o1 o2. unfold write_entry. rewrite Hk. apply He.
    + unfold canonical_entries. rewrite map_map. cbn. by rewrite <- Hkeys.
    + unfold canonical_entries. by rewrite Hp.
Qed.

Lemma json_height_scalar v : json_height v < 128 <-> json_nesting_reaches_limit v 0 = false.
Proof. rewrite json_nesting_is_height_lemma. pose proof (json_height_nonneg v). lia. Qed.

Lemma json_height_equiv v w : json_equiv v w -> json_height v = json_height w.
Proof.
  revert w. induction v as [|b|n|s|vs IH|fs IH] using Value_ind';
    intros w Hw; inversion Hw as [|s' t Hst|vs' ws Hvs|fs' gs hs Hfs Hp]; subst; try done; cbn.
  - do 2 f_equal. clear -IH Hvs. induction Hvs as [|v w vs ws Hvw Hvs IHvs]; [done|].
    apply Forall_cons in IH as [IHv IH]. cbn. f_equal; auto.
  - f_equal. rewrite !map_snd_fields.
    transitivity (foldr Z.max 0 (map json_height (map snd gs))).
    + clear -IH Hfs. f_equal.
      induction Hfs as [|f g fs gs [_ Hfg] Hfs IHfs]; [done|].
      apply Forall_cons in IH as [IHf IH]. cbn. f_equal; auto.
    + clear -Hp. induction Hp as [|x l l' Hp IH|x y l|l1 l2 l3 H1 IH1 H2 IH2]; cbn; lia.
Qed.

(** values that agree up to Unicode normalization and the order of object fields have
    byte-identical canonical texts. *)
Theorem canonical_json_equiv v w text :
  json_equiv v w -> canonical_json v = Ok text -> canonical_json w = Ok text.
Proof.
  intros Hvw. unfold canonical_json.
  rewrite !json_nesting_is_height_lemma, <- (json_height_equiv v w Hvw).
  case_match; [done|]. by apply append_canonical_json_equiv.
Qed.

Lemma canonical_json_Ok_iff value :
  (exists text, canonical_json value = Ok text) <->
  json_height value < 128 /\ distinct_keys value.
Proof.
  rewrite json_height_scalar. unfold canonical_json.
  destruct (json_nesting_reaches_limit value 0); [naive_solver|]. split.
  - intros [text H]. split; [done|]. by eapply append_canonical_json_distinct.
  - intros [_ H]. by apply append_canonical_json_ok.
Qed.

Lemma append_canonical_json_no_panic value output : append_canonical_json value output <> Panic.
Proof.
  revert output.
  assert (forall first items output,
    Forall (fun f : string -> result CanonicalJsonError string => forall o, f o <> Panic) items ->
    write_items first items output <> Panic) as Hw.
  { intros first items output Hf. revert first output.
    induction Hf as [|f items Hf _ IH]; intros first output; cbn; [done|].
    by apply bind_no_panic. }
  induction value as [|b|n|s|vs IH|fs IH] using Value_ind'; intros output; try done; cbn.
  - apply bind_no_panic; [|done]. apply Hw. by apply Forall_map.
  - apply bind_no_panic; [apply collect_entries_no_panic|].
    intros entries [-> _]%collect_canonical_entries. apply bind_no_panic; [|done]. apply Hw.
    apply Forall_map. rewrite sort_by_perm. apply Forall_map.
    eapply Forall_impl; [exact IH|]. cbn. auto.
Qed.

(** the canonical text exists exactly for values below the nesting limit in which no two
    keys of an object share their normal form; every other value is an error, not a panic. *)
Theorem canonical_json_defined value :
  ((exists text, canonical_json value = Ok text) <->
   json_height value < 128 /\ distinct_keys value) /\
  canonical_json value <> Panic.
Proof.
  split; [apply canonical_json_Ok_iff|]. unfold canonical_json.
  case_match; [done|]. apply append_canonical_json_no_panic.
Qed.
End canonical_equiv.

(** A concrete environment: text that is already in normal form and needs no escapes. *)
Definition quote_char : ascii := ascii_of_N 34.

Definition plain_quote (s : string) : string :=
  String quote_char (s +:+ String quote_char EmptyString).

Definition plain_number (n : Number) : string :=
  match n with PosInt z | NegInt z | Float z => Z_to_string z end.

Definition plain_display (bits : Z) : string := Z_to_string bits.
Definition plain_exp (bits : Z) : string := Z_to_string bits +:+ "e0".

Definition plain_compact : Value -> string :=
  @compact_json {| nfc := id; json_quote := plain_quote; f64_display := plain_display;
                   f64_lower_exp := plain_exp; json_number := plain_number;
                   json_pieces _ := []; debug_str := plain_quote |}.

Definition plain_json : JsonEnv := {|
  nfc := id;
  json_quote := plain_quote;
  f64_display := plain_display;
  f64_lower_exp := plain_exp;
  json_number := plain_number;
  json_pieces v := [plain_compact v];
  debug_str := plain_quote;
|}.

Lemma plain_json_laws : @JsonLaws plain_json.
Proof.
  constructor; [done|done| |done|done]. intros v. cbn. rewrite app_string_nil_r. unfold plain_compact.
  induction v as [|b|n|s|vs IH|fs IH] using Value_ind'; try done; cbn; do 3 f_equal.
  - by apply map_ext_Forall.
  - apply map_ext_Forall. eapply Forall_impl; [exact IH|]. intros [k v]. cbn. by intros ->.
Qed.

Example canonical_json_equiv_witness :
  let v := JObject [("b", JNumber (PosInt 2)); ("a", JArray [JNull])] in
  let w := JObject [("a", JArray [JNull]); ("b", JNumber (PosInt 2))] in
  exists text, @canonical_json plain_json v = Ok text /\ @canonical_json plain_json w = Ok text.
Proof.
  intros v w. eexists. split; [vm_compute; reflexivity|].
  apply (@canonical_json_equiv plain_json v w); [|vm_compute; reflexivity].
  eapply (@equiv_object plain_json _ [("b", JNumber (PosInt 2)); ("a", JArray [JNull])]).
  - repeat constructor.
  - apply Permutation_swap.
Defined.

(** * Unique keys *)

Lemma obj_get_insert key value fields k :
  obj_get (obj_insert key value fields) k =
    if String.eqb key k then Some value else obj_get fields k.
Proof.
  induction fields as [|[k' v'] fields IH]; cbn; [done|].
  destruct (str_cmp key k') eqn:Hc; cbn.
  - apply str_cmp_eq in Hc as ->. by destruct (String.eqb k' k).
  - done.
  - rewrite IH. destruct (String.eqb_spec k' k) as [->|], (String.eqb_spec key k) as [->|]; try done.
    by rewrite str_cmp_refl in Hc.
Qed.

Lemma obj_insert_keys key value fields :
  Forall (fun kv => kv ∈ (key, value) :: fields) (obj_insert key value fields).
Proof.
  induction fields as [|[k v] fields IH]; cbn; [repeat constructor|].
  destruct (str_cmp key k).
  - constructor; [left|]. apply Forall_forall. set_solver.
  - apply Forall_forall. set_solver.
  - constructor; [right; left|]. eapply Forall_impl; [exact IH|]. set_solver.
Qed.

Lemma obj_insert_increasing key value fields :
  keys_increasing fields -> keys_increasing (obj_insert key value fields).
Proof.
  unfold keys_increasing.
  induction 1 as [|[k v] fields Hs IH Hk]; cbn; [by repeat constructor|].
  destruct (str_cmp key k) eqn:Hc.
  - apply str_cmp_eq in Hc as ->. by constructor.
  - constructor; [by constructor|]. constructor; [done|].
    eapply Forall_impl; [exact Hk|]. intros [k' v'] Hk'. cbn in *. by transitivity k.
  - constructor; [done|]. rewrite Forall_forall in *. intros kv Hkv.
    pose proof (obj_insert_keys key value fields) as Hin. rewrite Forall_forall in Hin.
    destruct (proj1 (elem_of_cons _ _ _) (Hin _ Hkv)) as [->|]; [|by apply Hk].
    cbn. unfold str_lt. by rewrite str_cmp_antisym, Hc.
Qed.

Lemma obj_get_elem fs k v : obj_get fs k = Some v -> (k, v) ∈ fs.
Proof.
  induction fs as [|[k' v'] fs IH]; cbn; [done|].
  destruct (String.eqb_spec k' k) as [->|]; [intros [= ->]; left|intros ?; right; auto].
Qed.

Lemma obj_get_app fs gs k :
  obj_get (fs ++ gs) k = match obj_get fs k with Some v => Some v | None => obj_get gs k end.
Proof. induction fs as [|[k' v] fs IH]; cbn; [done|]. by destruct (String.eqb k' k). Qed.

Lemma obj_get_filter (p : string -> bool) fields k :
  obj_get (List.filter (fun kv => p kv.1) fields) k = if p k then obj_get fields k else None.
Proof.
  induction fields as [|[k' v] fields IH]; cbn; [by destruct (p k)|].
  destruct (p k') eqn:Hp; cbn; destruct (String.eqb_spec k' k) as [->|]; rewrite ?IH, ?Hp; done.
Qed.

Lemma filter_increasing (p : string * Value -> bool) fields :
  keys_increasing fields -> keys_increasing (List.filter p fields).
Proof.
  unfold keys_increasing. induction 1 as [|kv fields _ IH Hf]; cbn; [constructor|].
  destruct (p kv); [|done]. constructor; [done|]. rewrite Forall_forall in *.
  intros kv' [Hin _]%list_elem_of_In%List.filter_In. by apply Hf, list_elem_of_In.
Qed.

Lemma obj_get_below fields k :
  Forall (fun kv => str_lt k kv.1) fields -> obj_get fields k = None.
Proof.
  induction 1 as [|[k' v] fields Hk _ IH]; cbn; [done|].
  destruct (String.eqb_spec k' k) as [->|]; [|done]. by apply (irreflexivity str_lt) in Hk.
Qed.

(** Objects in key order with the same lookups are equal. *)
Lemma keys_increasing_ext fs gs :
  keys_increasing fs -> keys_increasing gs -> (forall k, obj_get fs k = obj_get gs k) -> fs = gs.
Proof.
  intros Hfs. revert gs. induction Hfs as [|[k v] fs _ IH Hf]; intros gs Hgs Heq.
  { destruct gs as [|[k v] gs]; [done|]. specialize (Heq k). cbn in Heq.
    by rewrite String.eqb_refl in Heq. }
  destruct Hgs as [|[k' v'] gs Hgs Hg].
  { specialize (Heq k). cbn in Heq. by rewrite String.eqb_refl in Heq. }
  assert (k = k') as <-.
  { destruct (str_lt_total k k') as [Hlt|[->|Hlt]]; [|done|].
    - pose proof (Heq k) as H. cbn in H. rewrite String.eqb_refl in H.
      rewrite (proj2 (String.eqb_neq k' k)) in H by (intros ->; by apply (irreflexivity str_lt) in Hlt).
      rewrite obj_get_below in H; [done|]. eapply Forall_impl; [exact Hg|]. cbn.
      intros kv ?. by transitivity k'.
    - pose proof (Heq k') as H. cbn in H. rewrite String.eqb_refl in H.
      rewrite (proj2 (String.eqb_neq k k')) in H by (intros ->; by apply (irreflexivity str_lt) in Hlt).
      rewrite obj_get_below in H; [done|]. eapply Forall_impl; [exact Hf|]. cbn.
      intros kv ?. by transitivity k. }
  assert (v = v') as <-.
  { specialize (Heq k). cbn in Heq. rewrite String.eqb_refl in Heq. congruence. }
  f_equal. apply IH; [done|]. intros j. specialize (Heq j). cbn in Heq.
  destruct (String.eqb_spec k j) as [->|]; [|done].
  by rewrite !obj_get_below.
Qed.

Section raw_ind.
Context (P : Raw -> Prop).
Context (Hunit : P RUnit) (Hbool : forall b, P (RBool b)) (Hi : forall z, P (RI64 z)).
Context (Hu : forall z, P (RU64 z)) (Hf : forall z, P (RF64 z)) (Hs : forall s, P (RStr s)).
Context (Hseq : forall rs, Forall P rs -> P (RSeq rs)).
Context (Hmap : forall es, Forall (fun kr => P kr.2) es -> P (RMap es)).

Fixpoint Raw_ind' (r : Raw) : P r :=
  match r with
  | RUnit => Hunit
  | RBool b => Hbool b
  | RI64 z => Hi z
  | RU64 z => Hu z
  | RF64 z => Hf z
  | RStr s => Hs s
  | RSeq rs =>
      Hseq rs ((fix go (rs : list Raw) : Forall P rs :=
        match rs with
        | [] => Forall_nil_2 _
        | r :: rs => Forall_cons_2 _ _ _ (Raw_ind' r) (go rs)
        end) rs)
  | RMap es =>
      Hmap es ((fix go (es : list (string * Raw)) : Forall (fun kr => P kr.2) es :=
        match es with
        | [] => Forall_nil_2 _
        | (k, r) :: es => Forall_cons_2 _ (k, r) _ (Raw_ind' r) (go es)
        end) es)
  end.
End raw_ind.

(** A text whose objects repeat no key and whose numbers are finite. *)
Fixpoint raw_unique (r : Raw) : Prop :=
  match r with
  | RF64 bits => f64_exponent bits <> 2047
  | RSeq rs => foldr and True (map raw_unique rs)
  | RMap es => NoDup (map fst es) /\ foldr and True (map (fun '(_, r) => raw_unique r) es)
  | _ => True
  end.

Lemma try_collect_Forall2 {E A B} (f : A -> result E B) l bs :
  try_collect f l = Ok bs <-> Forall2 (fun a b => f a = Ok b) l bs.
Proof.
  revert bs. induction l as [|a l IH]; intros bs; cbn.
  { split; [by intros [= <-]|]. by inversion 1. }
  split.
  - intros (b & Hb & (bs' & Hbs%IH & [= <-])%bind_Ok_inv)%bind_Ok_inv. by constructor.
  - inversion 1 as [|? b ? bs' Hb Hbs]; subst. rewrite Hb. cbn. apply IH in Hbs.
    by rewrite Hbs.
Qed.

(** What [visit_map] builds: the old entries and the visited new ones, all keys distinct. *)
Lemma visit_map_Ok visit es values fields :
  visit_map visit es values = Ok fields ->
  NoDup (map fst es) /\ Forall (fun kr => obj_get values kr.1 = None) es /\
  Forall (fun kr => exists v, visit kr.2 = Ok v) es /\
  (keys_increasing values -> keys_increasing fields) /\
  (forall P : Value -> Prop, Forall (fun kv => P kv.2) values ->
     (forall kr v, kr ∈ es -> visit kr.2 = Ok v -> P v) -> Forall (fun kv => P kv.2) fields).
Proof.
  revert values. induction es as [|[k r] es IH]; intros values; cbn.
  { intros [= <-]. split_and!; [constructor..|done|done]. }
  unfold obj_has. destruct (obj_get values k) eqn:Hk; [done|].
  intros (v & Hv & (Hnd & Hfresh & Hok & Hinc & Hall)%IH)%bind_Ok_inv.
  rewrite !Forall_cons, NoDup_cons. cbn. split_and!; try done; eauto.
  - intros ([k' r'] & -> & Hin)%list_elem_of_fmap. rewrite Forall_forall in Hfresh.
    specialize (Hfresh _ Hin). cbn in Hfresh. by rewrite obj_get_insert, String.eqb_refl in Hfresh.
  - eapply Forall_impl; [exact Hfresh|]. intros [k' r']. cbn. rewrite obj_get_insert.
    by destruct (String.eqb k k').
  - intros Hv'. by apply Hinc, obj_insert_increasing.
  - intros P Hvals Hes. apply Hall; [|intros kr v' Hin; apply Hes; by right].
    pose proof (obj_insert_keys k v values) as Hkeys. rewrite Forall_forall in *.
    intros kv [->|Hin]%Hkeys%elem_of_cons; [|by apply Hvals].
    cbn. apply (Hes (k, r)); [left|done].
Qed.

Lemma visit_map_defined visit es values :
  NoDup (map fst es) -> Forall (fun kr => obj_get values kr.1 = None) es ->
  Forall (fun kr => exists v, visit kr.2 = Ok v) es ->
  exists fields, visit_map visit es values = Ok fields.
Proof.
  revert values. induction es as [|[k r] es IH]; intros values; cbn; [by eexists|].
  intros [Hk Hnd]%NoDup_cons [Hf Hfs]%Forall_cons [[v Hv] Hvs]%Forall_cons. cbn in *.
  unfold obj_has. rewrite Hf, Hv. cbn. apply IH; [done| |done].
  rewrite Forall_forall in *. intros kr Hin. rewrite obj_get_insert.
  destruct (String.eqb_spec k kr.1) as [->|]; [|by apply Hfs].
  exfalso. by apply Hk, (list_elem_of_fmap_2 fst).
Qed.

Lemma unique_json_defined r :
  (exists v, unique_json r = Ok v) <-> raw_unique r.
Proof.
  induction r as [|b|z|z|bits|s|rs IH|es IH] using Raw_ind'; cbn;
    try (split; [done|by eexists]).
  - unfold number_of_f64. destruct (Z.eqb_spec (f64_exponent bits) 2047); cbn.
    + split; [intros [v Hv]; discriminate Hv|done].
    + split; [done|by eexists].
  - rewrite foldr_and_Forall. split.
    + intros [v (vs & Hvs%try_collect_Forall2 & _)%bind_Ok_inv]. clear v.
      induction Hvs as [|r v rs vs Hr Hvs IHvs]; [constructor|].
      apply Forall_cons in IH as [IHr IH]. constructor; [apply IHr; eauto|auto].
    + intros Hall. assert (exists vs, Forall2 (fun a b => unique_json a = Ok b) rs vs) as [vs Hvs].
      { clear -IH Hall. induction Hall as [|r rs Hr Hrs IHrs]; [exists []; constructor|].
        apply Forall_cons in IH as [[_ IHr] IH]. destruct (IHr Hr) as [v Hv].
        destruct (IHrs IH) as [vs Hvs]. exists (v :: vs). by constructor. }
      apply try_collect_Forall2 in Hvs. rewrite Hvs. by eexists.
  - assert (foldr and True (map (fun '(_, r) => raw_unique r) es) <->
            Forall (fun kr => exists v, unique_json kr.2 = Ok v) es) as ->.
    { clear -IH. induction IH as [|[k r] es Hr Hes IHes]; cbn; [by split; constructor|].
      rewrite Forall_cons, IHes. cbn in *. by rewrite Hr. }
    split.
    + intros [v (fs & (Hnd & _ & Hok & _)%visit_map_Ok & _)%bind_Ok_inv]. done.
    + intros [Hnd Hok]. destruct (visit_map_defined unique_json es []) as [fs ->]; try done.
      * by apply Forall_forall.
      * by eexists.
Qed.

Lemma unique_json_wf_lemma r v : unique_json r = Ok v -> wf_json v.
Proof.
  revert v. induction r as [|b|z|z|bits|s|rs IH|es IH] using Raw_ind'; intros v; cbn; intros Hv;
    inv_ok; try done.
  - cbn. apply foldr_and_Forall. apply try_collect_Forall2 in Hx.
    clear -IH Hx. induction Hx as [|r v rs vs Hr Hvs IHvs]; [constructor|].
    apply Forall_cons in IH as [IHr IH]. constructor; auto.
  - cbn. apply visit_map_Ok in Hx as (_ & _ & _ & Hinc & Hall).
    split; [apply Hinc; constructor|]. apply foldr_and_fields. apply Hall; [constructor|].
    rewrite Forall_forall in IH. intros kr v Hin. by apply IH.
Qed.

(** parsing with unique keys succeeds exactly on texts that repeat no key in any object
    (and hold finite numbers), at every depth, and what it builds has strictly increasing
    keys in every object. *)
Theorem unique_json_correct r :
  ((exists v, unique_json r = Ok v) <-> raw_unique r) /\
  (forall v, unique_json r = Ok v -> wf_json v).
Proof. split; [apply unique_json_defined|apply unique_json_wf_lemma]. Qed.

Section normalization.
Context {J : JsonEnv} {JL : JsonLaws}.

Lemma nfc_string_nfc s : nfc_string s = nfc s.
Proof. unfold nfc_string, is_nfc. by destruct (String.eqb_spec (nfc s) s). Qed.

Lemma nfc_json_string_values_equiv v : json_equiv v (nfc_json_string_values v).
Proof.
  induction v as [|b|n|s|vs IH|fs IH] using Value_ind'; cbn; try constructor.
  - change (if is_nfc s then s else nfc s) with (nfc_string s).
    by rewrite nfc_string_nfc, nfc_idem.
  - by apply Forall2_fmap_r, Forall_Forall2_diag.
  - eapply equiv_object; [|done]. apply Forall2_fmap_r, Forall_Forall2_diag.
    eapply Forall_impl; [exact IH|]. by intros [k v].
Qed.

(** normalizing the strings of a payload, as building or reading an event does, leaves
    its canonical text unchanged. *)
Theorem canonical_json_nfc v text :
  canonical_json v = Ok text -> canonical_json (nfc_json_string_values v) = Ok text.
Proof.
  intros Hv. unfold canonical_json in *.
  rewrite json_nesting_is_height_lemma, <- (json_height_equiv _ _ (nfc_json_string_values_equiv v)).
  rewrite json_nesting_is_height_lemma in Hv. case_match; [done|].
  by apply (append_canonical_json_equiv _ _ (nfc_json_string_values_equiv v)).
Qed.
End normalization.

Example canonical_json_nfc_witness :
  exists text, @canonical_json plain_json
    (@nfc_json_string_values plain_json (JObject [("k", JString "v")])) = Ok text.
Proof.
  eexists. apply (@canonical_json_nfc plain_json plain_json_laws). vm_compute. reflexivity.
Defined.

(** * Values whose compact text is canonical *)

Section compact.
Context {J : JsonEnv} {JL : JsonLaws}.

(** Keys in order, text in normal form, and no floating-point number. *)
Fixpoint normal_json (v : Value) : Prop :=
  match v with
  | JNumber (Float _) => False
  | JString s => is_nfc s = true
  | JArray vs => foldr and True (map normal_json vs)
  | JObject fs =>
      keys_increasing fs /\ Forall (fun kv => is_nfc kv.1 = true) fs /\
      foldr and True (map (fun '(_, v) => normal_json v) fs)
  | _ => True
  end.

Definition writes (item : string -> result CanonicalJsonError string) (text : string) : Prop :=
  forall out, item out = Ok (out +:+ text).

Fixpoint each_comma (texts : list string) : string :=
  match texts with
  | [] => ""
  | text :: texts => "," +:+ text +:+ each_comma texts
  end.

Lemma join_comma_cons text texts : join_comma (text :: texts) = text +:+ each_comma texts.
Proof.
  revert text. induction texts as [|t texts IH]; intros text; [by rewrite app_string_nil_r|].
  change (text +:+ "," +:+ join_comma (t :: texts) = text +:+ each_comma (t :: texts)).
  by rewrite IH.
Qed.

Lemma write_items_texts items texts out :
  Forall2 writes items texts ->
  write_items false items out = Ok (out +:+ each_comma texts) /\
  write_items true items out = Ok (out +:+ join_comma texts).
Proof.
  intros H. revert out.
  induction H as [|item text items texts Hi _ IH]; intros out; [cbn; by rewrite !app_string_nil_r|].
  rewrite join_comma_cons. cbn. rewrite !Hi. cbn.
  destruct (IH ((out +:+ ",") +:+ text)) as [-> _], (IH (out +:+ text)) as [-> _].
  by rewrite !app_string_assoc.
Qed.

Lemma is_nfc_eq s : is_nfc s = true <-> nfc s = s.
Proof. apply String.eqb_eq. Qed.

Lemma keys_increasing_NoDup (fs : list (string * Value)) :
  keys_increasing fs -> NoDup (map fst fs).
Proof.
  induction 1 as [|kv fs _ IH Hf]; cbn; constructor; [|done].
  intros (kv' & Heq & Hin)%list_elem_of_fmap. rewrite Forall_forall in Hf.
  specialize (Hf _ Hin). rewrite <- Heq in Hf. by apply (irreflexivity str_lt) in Hf.
Qed.

Lemma canonical_entries_sorted fs :
  keys_increasing fs -> Forall (fun kv => is_nfc kv.1 = true) fs ->
  NoDup (map (fun kv => nfc kv.1) fs) /\
  sort_by key_leb (canonical_entries fs) = canonical_entries fs.
Proof.
  intros Hk Hn. split.
  - replace (map (fun kv => nfc kv.1) fs) with (map fst fs) by
      (apply map_ext_Forall; eapply Forall_impl; [exact Hn|]; intros kv E%is_nfc_eq; done).
    by apply keys_increasing_NoDup.
  - apply sort_by_id. unfold canonical_entries.
    induction Hk as [|kv fs _ IH Hf]; cbn; [constructor|].
    apply Forall_cons in Hn as [Hkv Hn]. constructor; [by apply IH|].
    apply Forall_map. rewrite Forall_forall in *. intros kv' Hin. cbn.
    unfold before_eq, key_leb. cbn. apply is_nfc_eq in Hkv as ->.
    rewrite (proj1 (is_nfc_eq _) (Hn _ Hin)). apply str_leb_le. right. by apply Hf.
Qed.

Lemma append_canonical_compact v :
  normal_json v -> writes (append_canonical_json v) (compact_json v).
Proof.
  unfold writes. induction v as [|b|n|s|vs IH|fs IH] using Value_ind'; intros Hv out; try done.
  - destruct n; [| |done]; cbn; [by rewrite json_number_pos|].
    by rewrite json_number_neg.
  - cbn in *. by apply is_nfc_eq in Hv as ->.
  - cbn in *. apply foldr_and_Forall in Hv.
    destruct (write_items_texts (map append_canonical_json vs) (map compact_json vs) (out +:+ "["))
      as [_ ->]; [|cbn; by rewrite !app_string_assoc].
    apply Forall2_fmap_2, Forall_Forall2_diag. rewrite Forall_forall in *.
    intros v Hin o. by apply IH, Hv.
  - destruct Hv as (Hk & Hn & Hv). apply foldr_and_fields in Hv.
    destruct (canonical_entries_sorted fs Hk Hn) as [Hnd Hs].
    rewrite append_canonical_object, Hs by done. cbn.
    destruct (write_items_texts (map write_entry (canonical_entries fs))
      (map (fun '(k, v) => json_quote k +:+ ":" +:+ compact_json v) fs) (out +:+ "{"))
      as [_ ->]; [|cbn; by rewrite !app_string_assoc].
    unfold canonical_entries. rewrite map_map. apply Forall2_fmap_2, Forall_Forall2_diag.
    rewrite Forall_forall in *. intros [k v] Hin o. unfold write_entry. cbn.
    assert (nfc k = k) as -> by apply is_nfc_eq, (Hn _ Hin).
    rewrite (IH _ Hin (Hv _ Hin)). cbn.
    by rewrite !app_string_assoc.
Qed.

Lemma canonical_json_compact v :
  normal_json v -> json_height v < 128 -> canonical_json v = Ok (compact_json v).
Proof.
  intros Hv Hh%json_height_scalar. unfold canonical_json. rewrite Hh.
  by apply append_canonical_compact.
Qed.
End compact.
