(* ===== verification/FlowValue.v ===== *)
(** Runtime values of the protocol: session-object URIs ([proto/src/session_object.rs]) and
    the closed, bounded [flow-value-v0] wrapper ([proto/src/flow_value.rs]).

    [FlowValue] is the typed value of [core-script/src/script/model.rs] with its serde
    representation [encode]; validation is shown to accept exactly the encodings of bounded
    typed values. *)

From stdpp Require Import base list strings sorting sets.
From Stdlib Require Import ZArith Lia Ascii String.
From S2P Require Import Prelude Decimal Sorting Json.

Open Scope Z_scope.

(** * Session objects *)

Definition SESSION_OBJECT_URI_PREFIX : string := "session-object:sha256:".

Inductive SessionObjectUriError : Type := NonCanonicalUri | InvalidDigest.

Definition nibble (a : ascii) : option Z :=
  let b := byte a in
  if (48 <=? b) && (b <=? 57) then Some (b - 48)
  else if (97 <=? b) && (b <=? 102) then Some (b - 97 + 10)
  else None.

(** The loop over the pairs of digits. *)
Fixpoint decode_pairs (s : string) : option (list Z) :=
  match s with
  | String hi (String lo s) =>
      h ← nibble hi; l ← nibble lo;
      rest ← decode_pairs s;
      Some (Z.lor (Z.shiftl h 4) l :: rest)
  | _ => Some []
  end.

Definition decode_lowercase_sha256_hex (value : string) : option (list Z) :=
  if slen value =? 64 then decode_pairs value else None.

Definition validate_digest (digest : string) : result SessionObjectUriError unit :=
  match decode_lowercase_sha256_hex digest with
  | Some _ => Ok tt
  | None => Err InvalidDigest
  end.

Definition parse_session_object_uri (uri : string) : result SessionObjectUriError string :=
  digest ← ok_or (strip_prefix SESSION_OBJECT_URI_PREFIX uri) NonCanonicalUri;
  _ ← validate_digest digest;
  Ok digest.

Definition build_session_object_uri (digest : string) : result SessionObjectUriError string :=
  _ ← validate_digest digest;
  Ok (SESSION_OBJECT_URI_PREFIX +:+ digest).

(** * Limits *)

Definition FLOW_VALUE_MAX_DEPTH_V0 : Z := 16.
Definition FLOW_VALUE_MAX_MEMBERS_V0 : Z := 1024.
Definition FLOW_VALUE_MAX_NODES_V0 : Z := 4096.
Definition FLOW_VALUE_MAX_BYTES_V0 : Z := 64 * 1024.
Definition FLOW_VALUE_MAX_KEY_CHARS_V0 : Z := 256.

(** * Canonical integers *)

Inductive CanonicalIntegerError : Type := Invalid | NonCanonical.

Definition parse_canonical_i64 (value : string) : result CanonicalIntegerError Z :=
  parsed ← ok_or (parse_i64 value) Invalid;
  if negb (String.eqb (Z_to_string parsed) value) then Err NonCanonical else Ok parsed.

(** * Validation *)

Record FlowValueValidationError : Type := { message : string }.

Definition fv_error (m : string) : FlowValueValidationError := {| message := m |}.

Definition type_error (path expected : string) : FlowValueValidationError :=
  fv_error (path +:+ " value must be a " +:+ expected).

Section validation.
Context {J : JsonEnv}.

Definition fv_validate_nfc (value path : string) : result FlowValueValidationError unit :=
  if negb (is_nfc value) then Err (fv_error (path +:+ " must use NFC text")) else Ok tt.

Definition validate_integer (value : Value) (path : string)
    : result FlowValueValidationError unit :=
  value ← ok_or (as_str value) (type_error path "canonical signed 64-bit decimal string");
  match parse_canonical_i64 value with
  | Ok _ => Ok tt
  | Err Invalid =>
      Err (fv_error (path +:+ " integer value must be a signed 64-bit decimal string"))
  | Err NonCanonical =>
      Err (fv_error (path +:+ " integer value must use canonical decimal form"))
  | Panic => Panic
  end.

Definition validate_text (value : Value) (path : string)
    : result FlowValueValidationError unit :=
  value ← ok_or (as_str value) (type_error path "string");
  fv_validate_nfc value path.

Definition validate_session_object (value : Value) (path : string)
    : result FlowValueValidationError unit :=
  uri ← ok_or (as_str value) (type_error path "session-object URI string");
  _ ← fv_validate_nfc uri path;
  _ ← map_err (fun error =>
         match error with
         | NonCanonicalUri =>
             fv_error (path +:+ " session-object value must use its canonical URI")
         | InvalidDigest =>
             fv_error (path +:+ " session-object value must use a lowercase SHA-256 digest")
         end) (parse_session_object_uri uri);
  Ok tt.

(** The loops of [validate_list] and [validate_map]; [validate] is [validate_at] one level
    deeper, and the node count is threaded through. *)
Definition validate_items
    (validate : Value -> Z -> string -> result FlowValueValidationError Z) (path : string)
    : list Value -> Z -> Z -> result FlowValueValidationError Z :=
  fix go values index nodes :=
    match values with
    | [] => Ok nodes
    | value :: values =>
        nodes ← validate value nodes (path +:+ "[" +:+ Z_to_string index +:+ "]");
        go values (index + 1) nodes
    end.

Definition validate_entries
    (validate : Value -> Z -> string -> result FlowValueValidationError Z) (path : string)
    : list (string * Value) -> Z -> result FlowValueValidationError Z :=
  fix go fields nodes :=
    match fields with
    | [] => Ok nodes
    | (key, value) :: fields =>
        let key_path := path +:+ " key" in
        if String.eqb key "" || (FLOW_VALUE_MAX_KEY_CHARS_V0 <? char_count key) then
          Err (fv_error (key_path +:+ " must contain 1 to "
                         +:+ Z_to_string FLOW_VALUE_MAX_KEY_CHARS_V0 +:+ " characters"))
        else
          _ ← fv_validate_nfc key key_path;
          nodes ← validate value nodes (path +:+ "." +:+ key);
          go fields nodes
    end.

Definition members_error (path : string) : FlowValueValidationError :=
  fv_error (path +:+ " member count exceeds max " +:+ Z_to_string FLOW_VALUE_MAX_MEMBERS_V0).

Definition validate_list
    (validate : Value -> Z -> string -> result FlowValueValidationError Z)
    (value : Value) (nodes : Z) (path : string) : result FlowValueValidationError Z :=
  values ← ok_or (as_array value) (type_error path "list");
  if FLOW_VALUE_MAX_MEMBERS_V0 <? len values then Err (members_error path)
  else validate_items validate path values 0 nodes.

Definition validate_map
    (validate : Value -> Z -> string -> result FlowValueValidationError Z)
    (value : Value) (nodes : Z) (path : string) : result FlowValueValidationError Z :=
  values ← ok_or (as_object value) (type_error path "map");
  if FLOW_VALUE_MAX_MEMBERS_V0 <? len values then Err (members_error path)
  else validate_entries validate path values nodes.

(** The node count is a [usize] and saturates; the result is the count after the node.
    [fuel] bounds the recursion, which the depth limit cuts off. *)
Fixpoint validate_at (fuel : nat) (depth : Z) (value : Value) (nodes : Z) (path : string)
    : result FlowValueValidationError Z :=
  match fuel with
  | O => Panic
  | S fuel =>
      if FLOW_VALUE_MAX_DEPTH_V0 <? depth then
        Err (fv_error (path +:+ " depth " +:+ Z_to_string depth +:+ " exceeds max "
                       +:+ Z_to_string FLOW_VALUE_MAX_DEPTH_V0))
      else
      let nodes := sat_u64 (nodes + 1) in
      if FLOW_VALUE_MAX_NODES_V0 <? nodes then
        Err (fv_error ("$ node count exceeds max " +:+ Z_to_string FLOW_VALUE_MAX_NODES_V0))
      else
      wrapper ← ok_or (as_object value)
        (fv_error (path +:+ " must be a closed tagged flow-value-v0 wrapper"));
      if negb (len wrapper =? 2) || negb (obj_has wrapper "type")
         || negb (obj_has wrapper "value") then
        Err (fv_error (path +:+ " must be a closed tagged flow-value-v0 wrapper"))
      else
      tag ← ok_or (obj_get wrapper "type" ≫= as_str)
        (fv_error (path +:+ ".type must be a string"));
      payload ← expect (obj_get wrapper "value");
      let deeper := validate_at fuel (depth + 1) in
      if String.eqb tag "boolean" then
        if is_boolean payload then Ok nodes else Err (type_error path "boolean")
      else if String.eqb tag "integer" then _ ← validate_integer payload path; Ok nodes
      else if String.eqb tag "string" then _ ← validate_text payload path; Ok nodes
      else if String.eqb tag "session-object" then
        _ ← validate_session_object payload path; Ok nodes
      else if String.eqb tag "list" then validate_list deeper payload nodes path
      else if String.eqb tag "map" then validate_map deeper payload nodes path
      else Err (fv_error (path +:+ ".type is not a recognized flow-value-v0 type"))
  end.

(** Depths 1 to 16 recurse and depth 17 is refused, so 17 levels are enough. *)
Definition validate_at_fuel : nat := 17.

(** [ByteLimitWriter]: the count of the bytes written and whether the limit was passed. *)
Record ByteLimitWriter : Type := { bytes : Z; exceeded : bool }.

(** [write]: whether the buffer was taken, and the writer afterwards. *)
Definition byte_limit_write (w : ByteLimitWriter) (buffer : string) : bool * ByteLimitWriter :=
  let next := bytes w + slen buffer in
  if (u64_max <? next) || (FLOW_VALUE_MAX_BYTES_V0 <? next)
  then (false, {| bytes := bytes w; exceeded := true |})
  else (true, {| bytes := next; exceeded := exceeded w |}).

(** [serde_json::to_writer] stops at the first buffer the writer refuses. *)
Fixpoint byte_limit_write_all (w : ByteLimitWriter) (pieces : list string) : bool :=
  match pieces with
  | [] => true
  | piece :: pieces =>
      let '(taken, w) := byte_limit_write w piece in
      if taken then byte_limit_write_all w pieces else false
  end.

Definition canonical_flow_value_fits_byte_limit (value : Value) : bool :=
  byte_limit_write_all {| bytes := 0; exceeded := false |} (json_pieces value).

Definition validate_flow_value_v0 (value : Value) : result FlowValueValidationError unit :=
  _ ← validate_at validate_at_fuel 1 value 0 "$";
  if negb (canonical_flow_value_fits_byte_limit value) then
    Err (fv_error ("$ canonical JSON exceeds max " +:+ Z_to_string FLOW_VALUE_MAX_BYTES_V0
                   +:+ " bytes"))
  else Ok tt.
End validation.

(** * Typed values *)

(** [FlowValue] of [core-script]; a map is its [BTreeMap], listed in key order. *)
Inductive FlowValue : Type :=
| FBoolean (b : bool)
| FInteger (s : string)
| FString (s : string)
| FList (values : list FlowValue)
| FMap (fields : list (string * FlowValue))
| FSessionObject (s : string).

Section flow_value_ind.
Context (P : FlowValue -> Prop).
Context (Hb : forall b, P (FBoolean b)) (Hi : forall s, P (FInteger s)).
Context (Hs : forall s, P (FString s)) (Ho : forall s, P (FSessionObject s)).
Context (Hl : forall vs, Forall P vs -> P (FList vs)).
Context (Hm : forall fs, Forall (fun kv => P kv.2) fs -> P (FMap fs)).

Fixpoint FlowValue_ind' (v : FlowValue) : P v :=
  match v with
  | FBoolean b => Hb b
  | FInteger s => Hi s
  | FString s => Hs s
  | FSessionObject s => Ho s
  | FList vs =>
      Hl vs ((fix go (vs : list FlowValue) : Forall P vs :=
        match vs with
        | [] => Forall_nil_2 _
        | v :: vs => Forall_cons_2 _ _ _ (FlowValue_ind' v) (go vs)
        end) vs)
  | FMap fs =>
      Hm fs ((fix go (fs : list (string * FlowValue)) : Forall (fun kv => P kv.2) fs :=
        match fs with
        | [] => Forall_nil_2 _
        | (k, v) :: fs => Forall_cons_2 _ (k, v) _ (FlowValue_ind' v) (go fs)
        end) fs)
  end.
End flow_value_ind.

(** The serde representation: [tag = "type", content = "value"] in kebab case. *)
Definition tagged (tag : string) (payload : Value) : Value :=
  JObject [("type", JString tag); ("value", payload)].

Fixpoint encode (v : FlowValue) : Value :=
  match v with
  | FBoolean b => tagged "boolean" (JBool b)
  | FInteger s => tagged "integer" (JString s)
  | FString s => tagged "string" (JString s)
  | FList vs => tagged "list" (JArray (map encode vs))
  | FMap fs => tagged "map" (JObject (map (fun '(k, v) => (k, encode v)) fs))
  | FSessionObject s => tagged "session-object" (JString s)
  end.

(** * The bounds a typed value meets *)

Fixpoint fv_depth (v : FlowValue) : Z :=
  match v with
  | FList vs => 1 + foldr Z.max 0 (map fv_depth vs)
  | FMap fs => 1 + foldr Z.max 0 (map (fun '(_, v) => fv_depth v) fs)
  | _ => 1
  end.

Fixpoint fv_nodes (v : FlowValue) : Z :=
  match v with
  | FList vs => 1 + foldr Z.add 0 (map fv_nodes vs)
  | FMap fs => 1 + foldr Z.add 0 (map (fun '(_, v) => fv_nodes v) fs)
  | _ => 1
  end.

Definition is_lower_hex (a : ascii) : bool :=
  ((48 <=? byte a) && (byte a <=? 57)) || ((97 <=? byte a) && (byte a <=? 102)).

Definition is_sha256_hex (s : string) : bool := (slen s =? 64) && bytes_all is_lower_hex s.

Section shape.
Context {J : JsonEnv}.

Definition key_shape (k : string) : Prop :=
  k <> "" /\ char_count k <= 256 /\ is_nfc k = true.

Fixpoint fv_shape (v : FlowValue) : Prop :=
  match v with
  | FBoolean _ => True
  | FInteger s => exists n, in_i64 n /\ s = Z_to_string n
  | FString s => is_nfc s = true
  | FSessionObject s =>
      is_nfc s = true /\
      exists digest, s = SESSION_OBJECT_URI_PREFIX +:+ digest /\ is_sha256_hex digest = true
  | FList vs => len vs <= 1024 /\ foldr and True (map fv_shape vs)
  | FMap fs =>
      len fs <= 1024 /\ Forall (fun kv => key_shape kv.1) fs /\
      foldr and True (map (fun '(_, v) => fv_shape v) fs)
  end.
End shape.

Lemma foldr_and_entries {A} (P : A -> Prop) (fs : list (string * A)) :
  foldr and True (map (fun '(_, v) => P v) fs) <-> Forall (fun kv => P kv.2) fs.
Proof.
  induction fs as [|[k v] fs IH]; cbn; [by split; constructor|]. by rewrite Forall_cons, IH.
Qed.

Lemma map_snd_entries {A B} (f : A -> B) (fs : list (string * A)) :
  map (fun '(_, v) => f v) fs = map f (map snd fs).
Proof. induction fs as [|[k v] fs IH]; [done|]. cbn. by rewrite IH. Qed.

(** * Digests and integers *)

Lemma nibble_hex a : is_Some (nibble a) <-> is_lower_hex a = true.
Proof.
  unfold nibble, is_lower_hex.
  destruct ((48 <=? byte a) && (byte a <=? 57)), ((97 <=? byte a) && (byte a <=? 102)); cbn;
    split; intros H; try done; try (by eexists); by destruct H.
Qed.

Lemma decode_pairs_Some n s :
  (String.length s <= n)%nat -> Nat.Even (String.length s) ->
  is_Some (decode_pairs s) <-> bytes_all is_lower_hex s = true.
Proof.
  revert s. induction n as [|n IH]; intros s Hn [k Hk];
    destruct s as [|a [|b s]]; cbn in *; try (split; [done|by eexists]); try lia.
  rewrite !andb_true_iff, <- !nibble_hex, <- (IH s) by (lia || (exists (pred k); lia)).
  destruct (nibble a), (nibble b), (decode_pairs s); cbn; split; intros H;
    try (by destruct H); try (by eexists); try (by destruct H as (? & ? & ?));
    destruct H as ([? ?] & [? ?] & [? ?]); try done; by eexists.
Qed.

Lemma decode_sha256 digest :
  is_Some (decode_lowercase_sha256_hex digest) <-> is_sha256_hex digest = true.
Proof.
  unfold decode_lowercase_sha256_hex, is_sha256_hex.
  destruct (Z.eqb_spec (slen digest) 64) as [Hl|]; cbn.
  - unfold slen in Hl. apply (decode_pairs_Some 64); [lia|]. exists 32%nat. lia.
  - split; intros H; [by destruct H|done].
Qed.

Lemma validate_digest_Ok digest :
  validate_digest digest = Ok tt <-> is_sha256_hex digest = true.
Proof.
  rewrite <- decode_sha256. unfold validate_digest.
  destruct (decode_lowercase_sha256_hex digest); split; intros H; try done; by destruct H.
Qed.

Lemma parse_session_object_uri_Ok uri digest :
  parse_session_object_uri uri = Ok digest <->
  uri = SESSION_OBJECT_URI_PREFIX +:+ digest /\ is_sha256_hex digest = true.
Proof.
  unfold parse_session_object_uri. split.
  - intros H. inv_ok. destruct x0. apply strip_prefix_Some in Hx.
    by apply validate_digest_Ok in Hx0.
  - intros [-> Hd%validate_digest_Ok].
    rewrite (proj2 (strip_prefix_Some _ _ digest) eq_refl). cbn. by rewrite Hd.
Qed.

Lemma parse_canonical_i64_Ok s n :
  parse_canonical_i64 s = Ok n <-> in_i64 n /\ s = Z_to_string n.
Proof.
  unfold parse_canonical_i64. split.
  - intros H. inv_ok. apply negb_false_iff, String.eqb_eq in Hb.
    split; [|done]. by apply (parse_int_in_range i64_min i64_max s).
  - intros [Hn ->]. unfold parse_i64. rewrite parse_int_to_string by (unfold in_i64, i64_min, i64_max in *; lia).
    cbn. by rewrite String.eqb_refl.
Qed.

(** * What validation accepts *)

Section theory.
Context {J : JsonEnv}.

Definition Sound (validate : Value -> Z -> string -> result FlowValueValidationError Z)
    (depth : Z) : Prop :=
  forall v nodes path nodes', wf_json v -> 0 <= nodes <= 4096 -> validate v nodes path = Ok nodes' ->
  exists fv, v = encode fv /\ fv_shape fv /\ fv_depth fv <= 17 - depth /\
             nodes' = nodes + fv_nodes fv /\ nodes' <= 4096.

Lemma fv_nodes_pos fv : 1 <= fv_nodes fv.
Proof.
  induction fv as [| | | |vs IH|fs IH] using FlowValue_ind'; cbn -[Z.add]; try lia.
  - induction IH; cbn -[Z.add]; lia.
  - induction IH as [|[k v] fs]; cbn -[Z.add] in *; lia.
Qed.

Lemma validate_items_sound validate depth path values :
  Sound validate depth -> Forall wf_json values ->
  forall index nodes nodes', 0 <= nodes <= 4096 ->
  validate_items validate path values index nodes = Ok nodes' ->
  exists fvs, values = map encode fvs /\ Forall fv_shape fvs /\
    Forall (fun fv => fv_depth fv <= 17 - depth) fvs /\
    nodes' = nodes + foldr Z.add 0 (map fv_nodes fvs) /\ nodes' <= 4096.
Proof.
  intros HS. induction 1 as [|v values Hv _ IH]; intros index nodes nodes' Hn H; cbn in H.
  - inv_ok. exists []. repeat split; try constructor; cbn; lia.
  - inv_ok. destruct (HS _ _ _ _ Hv Hn Hx) as (fv & -> & Hsh & Hd & -> & Hle).
    pose proof (fv_nodes_pos fv).
    apply IH in H as (fvs & -> & Hshs & Hds & -> & Hle'); [|lia].
    exists (fv :: fvs). repeat split; try (by constructor); cbn -[Z.add]; lia.
Qed.

Lemma fv_validate_nfc_Ok s path : fv_validate_nfc s path = Ok tt <-> is_nfc s = true.
Proof. unfold fv_validate_nfc. by destruct (is_nfc s). Qed.

Lemma key_shape_check key :
  (String.eqb key "" || (FLOW_VALUE_MAX_KEY_CHARS_V0 <? char_count key)) = false /\
    is_nfc key = true <-> key_shape key.
Proof.
  unfold key_shape, FLOW_VALUE_MAX_KEY_CHARS_V0.
  rewrite orb_false_iff, Z.ltb_ge, String.eqb_neq. tauto.
Qed.

Lemma validate_entries_sound validate depth path fields :
  Sound validate depth -> Forall (fun kv => wf_json kv.2) fields ->
  forall nodes nodes', 0 <= nodes <= 4096 ->
  validate_entries validate path fields nodes = Ok nodes' ->
  exists fs, fields = map (fun '(k, v) => (k, encode v)) fs /\
    Forall (fun kv => key_shape kv.1) fs /\ Forall (fun kv => fv_shape kv.2) fs /\
    Forall (fun kv => fv_depth kv.2 <= 17 - depth) fs /\
    nodes' = nodes + foldr Z.add 0 (map (fun '(_, v) => fv_nodes v) fs) /\ nodes' <= 4096.
Proof.
  intros HS. induction 1 as [|[k v] fields Hv _ IH]; intros nodes nodes' Hn H; cbn -[String.append] in H.
  - inv_ok. exists []. repeat split; try constructor; cbn; lia.
  - inv_ok. destruct x. apply fv_validate_nfc_Ok in Hx.
    destruct (HS _ _ _ _ Hv Hn Hx0) as (fv & Heq & Hsh & Hd & -> & Hle). cbn in Heq. subst v.
    pose proof (fv_nodes_pos fv).
    apply IH in H as (fs & -> & Hks & Hshs & Hds & -> & Hle'); [|lia].
    exists ((k, fv) :: fs). repeat split; try (constructor; [|done]; cbn); try done;
      try (by apply key_shape_check); cbn -[Z.add]; lia.
Qed.

Lemma max_le (l : list Z) m : 0 <= m -> foldr Z.max 0 l <= m <-> Forall (fun x => x <= m) l.
Proof.
  intros Hm. induction l as [|x l IH]; cbn; [split; [constructor|done]|].
  rewrite Forall_cons, <- IH. lia.
Qed.

Lemma depths_le fvs m :
  foldr Z.max 0 (map fv_depth fvs) <= m -> Forall (fun fv => fv_depth fv <= m) fvs.
Proof.
  induction fvs as [|fv fvs IH]; cbn; intros H; constructor; [lia|apply IH; lia].
Qed.

(** A wrapper with its two fields in key order. *)
Lemma wrapper_fields (fields : list (string * Value)) tag payload :
  keys_increasing fields -> len fields = 2 ->
  obj_get fields "type" = Some tag -> obj_get fields "value" = Some payload ->
  fields = [("type", tag); ("value", payload)].
Proof.
  unfold len. intros Hk Hl Ht Hp.
  destruct fields as [|[k1 v1] [|[k2 v2] [|? ?]]]; cbn in Hl; try lia.
  cbn in Ht, Hp.
  inversion Hk as [|? ? _ Hf]; subst. apply Forall_cons in Hf as [Hf _]. cbn in Hf.
  destruct (String.eqb k1 "type") eqn:E1, (String.eqb k2 "type") eqn:E2,
    (String.eqb k1 "value") eqn:E3, (String.eqb k2 "value") eqn:E4;
    rewrite ?String.eqb_eq in *; simplify_eq; try done; by vm_compute in Hf.
Qed.

Lemma wf_json_array vs : wf_json (JArray vs) <-> Forall wf_json vs.
Proof. apply foldr_and_Forall. Qed.

Lemma wf_json_object fs :
  wf_json (JObject fs) <-> keys_increasing fs /\ Forall (fun kv => wf_json kv.2) fs.
Proof. cbn. by rewrite foldr_and_fields. Qed.

Lemma validate_integer_Ok payload path :
  validate_integer payload path = Ok tt <->
  exists n, in_i64 n /\ payload = JString (Z_to_string n).
Proof.
  unfold validate_integer. split.
  - intros H. inv_ok. destruct payload; try done. injection Hx as ->.
    destruct (parse_canonical_i64 x) as [n|[]|] eqn:Hp; try done.
    apply parse_canonical_i64_Ok in Hp as [? ->]. eauto.
  - intros (n & Hn & ->). cbn -[parse_canonical_i64].
    by rewrite (proj2 (parse_canonical_i64_Ok _ n)).
Qed.

Lemma validate_text_Ok payload path :
  validate_text payload path = Ok tt <-> exists s, payload = JString s /\ is_nfc s = true.
Proof.
  unfold validate_text. split.
  - intros H. inv_ok. destruct payload; try done. injection Hx as ->.
    apply fv_validate_nfc_Ok in H. eauto.
  - intros (s & -> & Hs). by apply fv_validate_nfc_Ok.
Qed.

Lemma validate_session_object_Ok payload path :
  validate_session_object payload path = Ok tt <->
  exists digest, payload = JString (SESSION_OBJECT_URI_PREFIX +:+ digest) /\
    is_nfc (SESSION_OBJECT_URI_PREFIX +:+ digest) = true /\ is_sha256_hex digest = true.
Proof.
  unfold validate_session_object. split.
  - intros H. inv_ok. destruct x0, payload; try done. injection Hx as ->.
    apply fv_validate_nfc_Ok in Hx0.
    destruct (parse_session_object_uri x) as [digest| |] eqn:Hu; try done.
    apply parse_session_object_uri_Ok in Hu as [-> Hd]. eauto.
  - intros (digest & -> & Hn & Hd). cbn -[parse_session_object_uri String.append].
    rewrite (proj2 (fv_validate_nfc_Ok _ _) Hn). cbn -[parse_session_object_uri String.append].
    by rewrite (proj2 (parse_session_object_uri_Ok _ digest)).
Qed.

Lemma validate_list_sound validate depth payload nodes path nodes' :
  Sound validate (depth + 1) -> depth <= 16 -> wf_json payload -> 0 <= nodes <= 4096 ->
  validate_list validate payload nodes path = Ok nodes' ->
  exists fvs, payload = JArray (map encode fvs) /\ fv_shape (FList fvs) /\
    fv_depth (FList fvs) <= 17 - depth /\
    nodes' + 1 = nodes + fv_nodes (FList fvs) /\ nodes' <= 4096.
Proof.
  unfold validate_list, FLOW_VALUE_MAX_MEMBERS_V0. intros HS Hd Hp Hn H. inv_ok.
  destruct payload; try done. injection Hx as ->. apply wf_json_array in Hp.
  apply (validate_items_sound _ _ _ _ HS Hp) in H as (fvs & -> & Hs & Hds & -> & Hle); [|lia].
  exists fvs. unfold len in Hb. rewrite length_map in Hb.
  split; [done|]. split; [cbn; rewrite foldr_and_Forall; split; [unfold len; lia|done]|].
  split; [|cbn -[Z.add]; lia].
  change (1 + foldr Z.max 0 (map fv_depth fvs) <= 17 - depth).
  enough (foldr Z.max 0 (map fv_depth fvs) <= 17 - (depth + 1)) by lia.
  apply max_le; [lia|]. by rewrite Forall_map.
Qed.

Lemma validate_map_sound validate depth payload nodes path nodes' :
  Sound validate (depth + 1) -> depth <= 16 -> wf_json payload -> 0 <= nodes <= 4096 ->
  validate_map validate payload nodes path = Ok nodes' ->
  exists fs, payload = JObject (map (fun '(k, v) => (k, encode v)) fs) /\ fv_shape (FMap fs) /\
    fv_depth (FMap fs) <= 17 - depth /\
    nodes' + 1 = nodes + fv_nodes (FMap fs) /\ nodes' <= 4096.
Proof.
  unfold validate_map, FLOW_VALUE_MAX_MEMBERS_V0. intros HS Hd Hp Hn H. inv_ok.
  destruct payload; try done. injection Hx as ->. apply wf_json_object in Hp as [_ Hp].
  apply (validate_entries_sound _ _ _ _ HS Hp) in H
    as (fs & -> & Hks & Hs & Hds & -> & Hle); [|lia].
  exists fs. unfold len in Hb. rewrite length_map in Hb.
  split; [done|].
  split; [cbn; rewrite foldr_and_entries; split_and!; [unfold len; lia|done..]|].
  split; [|cbn -[Z.add]; lia].
  change (1 + foldr Z.max 0 (map (fun '(_, v) => fv_depth v) fs) <= 17 - depth).
  enough (foldr Z.max 0 (map (fun '(_, v) => fv_depth v) fs) <= 17 - (depth + 1)) by lia.
  apply max_le; [lia|]. by rewrite map_snd_entries, !Forall_map.
Qed.

Lemma validate_at_sound fuel depth : Sound (validate_at fuel depth) depth.
Proof.
  revert depth. induction fuel as [|fuel IH]; intros depth v nodes path nodes' Hv Hn H; [done|].
  cbn -[validate_integer validate_text validate_session_object validate_list validate_map] in H.
  unfold FLOW_VALUE_MAX_DEPTH_V0, FLOW_VALUE_MAX_NODES_V0 in H.
  rewrite sat_u64_id in H by (unfold in_u64, u64_max; lia). inv_ok.
  destruct v as [| | | | |fields]; try done. injection Hx as <-.
  apply orb_false_iff in Hb1 as [[Hl _]%orb_false_iff _].
  apply negb_false_iff, Z.eqb_eq in Hl.
  apply bind_Some in Hx0 as (tag & Htag & Hstr). destruct tag; try done. injection Hstr as ->.
  apply wf_json_object in Hv as [Hk Hwf].
  rewrite (wrapper_fields _ _ _ Hk Hl Htag Hx1) in Hwf |- *.
  apply Forall_cons in Hwf as [_ [Hp _]%Forall_cons]. cbn in Hp. clear Hk Hl Htag Hx1 fields.
  repeat case_match; inv_ok; rewrite ?String.eqb_eq in *; subst.
  - destruct x1; try done. exists (FBoolean b). repeat split; cbn; lia.
  - destruct x. apply validate_integer_Ok in Hx as (n & Hr & ->).
    exists (FInteger (Z_to_string n)). repeat split; cbn; try lia. by exists n.
  - destruct x. apply validate_text_Ok in Hx as (s & -> & Hs).
    exists (FString s). repeat split; cbn; try lia; done.
  - destruct x. apply validate_session_object_Ok in Hx as (digest & -> & Hs & Hd).
    exists (FSessionObject (SESSION_OBJECT_URI_PREFIX +:+ digest)).
    repeat split; cbn -[is_nfc is_sha256_hex]; try lia; eauto.
  - apply (validate_list_sound _ depth) in H as (fvs & -> & ? & ? & ? & ?); auto; [|lia..].
    exists (FList fvs). split_and!; auto; lia.
  - apply (validate_map_sound _ depth) in H as (fs & -> & ? & ? & ? & ?); auto; [|lia..].
    exists (FMap fs). split_and!; auto; lia.
Qed.

Definition Complete (validate : Value -> Z -> string -> result FlowValueValidationError Z)
    (depth : Z) (fuel : nat) : Prop :=
  forall fv nodes path, fv_shape fv -> fv_depth fv <= 17 - depth -> fv_depth fv <= Z.of_nat fuel ->
  0 <= nodes -> nodes + fv_nodes fv <= 4096 ->
  validate (encode fv) nodes path = Ok (nodes + fv_nodes fv).

Lemma nodes_sum_nonneg (fvs : list FlowValue) : 0 <= foldr Z.add 0 (map fv_nodes fvs).
Proof. induction fvs as [|fv fvs IH]; cbn -[Z.add]; [done|]. pose proof (fv_nodes_pos fv). lia. Qed.

Lemma validate_items_complete validate depth fuel path fvs :
  Complete validate depth fuel -> Forall fv_shape fvs ->
  Forall (fun fv => fv_depth fv <= 17 - depth) fvs ->
  Forall (fun fv => fv_depth fv <= Z.of_nat fuel) fvs ->
  forall index nodes, 0 <= nodes -> nodes + foldr Z.add 0 (map fv_nodes fvs) <= 4096 ->
  validate_items validate path (map encode fvs) index nodes
    = Ok (nodes + foldr Z.add 0 (map fv_nodes fvs)).
Proof.
  intros HC. induction fvs as [|fv fvs IH]; intros Hs Hd Hf index nodes Hn Hle;
    cbn -[Z.add] in *; [by rewrite Z.add_0_r|].
  apply Forall_cons in Hs as [? ?], Hd as [? ?], Hf as [? ?].
  pose proof (fv_nodes_pos fv). pose proof (nodes_sum_nonneg fvs).
  rewrite HC by (done || lia). cbn -[Z.add].
  rewrite IH by (done || lia). f_equal. lia.
Qed.

Lemma validate_entries_complete validate depth fuel path fs :
  Complete validate depth fuel -> Forall (fun kv => key_shape kv.1) fs ->
  Forall fv_shape (map snd fs) -> Forall (fun fv => fv_depth fv <= 17 - depth) (map snd fs) ->
  Forall (fun fv => fv_depth fv <= Z.of_nat fuel) (map snd fs) ->
  forall nodes, 0 <= nodes -> nodes + foldr Z.add 0 (map fv_nodes (map snd fs)) <= 4096 ->
  validate_entries validate path (map (fun '(k, v) => (k, encode v)) fs) nodes
    = Ok (nodes + foldr Z.add 0 (map fv_nodes (map snd fs))).
Proof.
  intros HC. induction fs as [|[k fv] fs IH]; intros Hk Hs Hd Hf nodes Hn Hle;
    cbn -[Z.add String.append] in *; [by rewrite Z.add_0_r|].
  apply Forall_cons in Hk as [Hk ?], Hs as [? ?], Hd as [? ?], Hf as [? ?].
  pose proof (fv_nodes_pos fv). pose proof (nodes_sum_nonneg (map snd fs)).
  cbn in Hk. apply key_shape_check in Hk as [-> Hk]. cbn -[Z.add String.append].
  rewrite (proj2 (fv_validate_nfc_Ok _ _) Hk). cbn -[Z.add String.append].
  rewrite HC by (done || lia). cbn -[Z.add String.append].
  rewrite IH by (done || lia). f_equal. lia.
Qed.

(** The entry of [validate_at] for a value within the limits. *)
Lemma validate_at_unfold fuel depth tag payload nodes path :
  depth <= 16 -> 0 <= nodes < 4096 ->
  validate_at (S fuel) depth (tagged tag payload) nodes path =
    let nodes := nodes + 1 in
    if String.eqb tag "boolean" then
      if is_boolean payload then Ok nodes else Err (type_error path "boolean")
    else if String.eqb tag "integer" then _ ← validate_integer payload path; Ok nodes
    else if String.eqb tag "string" then _ ← validate_text payload path; Ok nodes
    else if String.eqb tag "session-object" then
      _ ← validate_session_object payload path; Ok nodes
    else if String.eqb tag "list" then
      validate_list (validate_at fuel (depth + 1)) payload nodes path
    else if String.eqb tag "map" then
      validate_map (validate_at fuel (depth + 1)) payload nodes path
    else Err (fv_error (path +:+ ".type is not a recognized flow-value-v0 type")).
Proof.
  intros Hd Hn. cbn -[validate_integer validate_text validate_session_object validate_list
    validate_map String.eqb String.append].
  unfold FLOW_VALUE_MAX_DEPTH_V0, FLOW_VALUE_MAX_NODES_V0.
  rewrite sat_u64_id by (unfold in_u64, u64_max; lia).
  rewrite (proj2 (Z.ltb_ge 16 depth)) by lia.
  rewrite (proj2 (Z.ltb_ge 4096 (nodes + 1))) by lia. done.
Qed.

Lemma fv_depth_pos fv : 1 <= fv_depth fv.
Proof.
  assert (forall l, 0 <= foldr Z.max 0 l) as H by (induction l; cbn; lia).
  destruct fv; cbn -[Z.add]; try lia; match goal with |- 1 <= 1 + foldr _ _ ?l => pose proof (H l) end; lia.
Qed.

Lemma validate_at_complete fuel depth : 1 <= depth -> Complete (validate_at fuel depth) depth fuel.
Proof.
  revert depth. induction fuel as [|fuel IH]; intros depth Hdepth fv nodes path Hs Hd Hf Hn Hle.
  { pose proof (fv_depth_pos fv). lia. }
  pose proof (fv_depth_pos fv). pose proof (fv_nodes_pos fv).
  specialize (IH (depth + 1) ltac:(lia)).
  destruct fv as [b|s|s|fvs|fs|s]; cbn [encode]; rewrite validate_at_unfold by lia;
    cbn -[Z.add validate_integer validate_text validate_session_object fv_shape]; try done.
  - rewrite (proj2 (validate_integer_Ok _ _)); [done|]. destruct Hs as (n & ? & ->). eauto.
  - rewrite (proj2 (validate_text_Ok _ _)); [done|]. eauto.
  - change (1 + foldr Z.max 0 (map fv_depth fvs) <= 17 - depth) in Hd.
    change (1 + foldr Z.max 0 (map fv_depth fvs) <= Z.of_nat (S fuel)) in Hf.
    cbn in Hs. destruct Hs as [Hl Hs]. apply foldr_and_Forall in Hs.
    unfold validate_list, FLOW_VALUE_MAX_MEMBERS_V0, len. cbn -[Z.add].
    rewrite length_map, (proj2 (Z.ltb_ge _ _)) by (exact Hl).
    cbn -[Z.add] in Hle.
    rewrite (validate_items_complete _ _ _ _ _ IH Hs); [f_equal; lia| | |lia..];
      apply depths_le; lia.
  - change (1 + foldr Z.max 0 (map (fun '(_, v) => fv_depth v) fs) <= 17 - depth) in Hd.
    change (1 + foldr Z.max 0 (map (fun '(_, v) => fv_depth v) fs) <= Z.of_nat (S fuel)) in Hf.
    cbn in Hs. destruct Hs as (Hl & Hk & Hs). apply foldr_and_entries in Hs.
    unfold validate_map, FLOW_VALUE_MAX_MEMBERS_V0, len. cbn -[Z.add].
    rewrite length_map, (proj2 (Z.ltb_ge _ _)) by (exact Hl).
    cbn -[Z.add] in Hle. rewrite map_snd_entries in *.
    rewrite (validate_entries_complete _ _ _ _ _ IH Hk); [f_equal; lia|by apply Forall_map| | |lia..];
      apply depths_le; lia.
  - rewrite (proj2 (validate_session_object_Ok _ _)); [done|].
    destruct Hs as (? & digest & -> & ?). eauto.
Qed.
End theory.

(** * The byte limit *)

Section byte_limit.
Context {J : JsonEnv} {JL : JsonLaws}.

Lemma byte_limit_write_all_spec w pieces :
  0 <= bytes w <= FLOW_VALUE_MAX_BYTES_V0 ->
  byte_limit_write_all w pieces =
    (bytes w + slen (foldr String.append "" pieces) <=? FLOW_VALUE_MAX_BYTES_V0).
Proof.
  unfold FLOW_VALUE_MAX_BYTES_V0. revert w.
  induction pieces as [|p pieces IH]; intros w Hw; cbn -[Z.mul slen].
  { symmetry. apply Z.leb_le. change (slen "") with 0. lia. }
  unfold byte_limit_write, FLOW_VALUE_MAX_BYTES_V0. rewrite slen_app.
  pose proof (slen_nonneg p). pose proof (slen_nonneg (foldr String.append "" pieces)).
  destruct (Z.ltb_spec u64_max (bytes w + slen p)) as [Hu|_]; cbn -[Z.mul slen].
  { symmetry. apply Z.leb_gt. unfold u64_max in Hu. lia. }
  destruct (Z.ltb_spec (64 * 1024) (bytes w + slen p)); cbn -[Z.mul slen].
  { symmetry. apply Z.leb_gt. lia. }
  rewrite IH by (cbn -[Z.mul slen]; lia). cbn -[Z.mul slen]. f_equal. lia.
Qed.

Lemma fits_byte_limit value :
  canonical_flow_value_fits_byte_limit value = true <->
  slen (compact_json value) <= 65536.
Proof.
  assert (FLOW_VALUE_MAX_BYTES_V0 = 65536) as Hmax by reflexivity.
  unfold canonical_flow_value_fits_byte_limit.
  rewrite byte_limit_write_all_spec, json_pieces_compact by done.
  rewrite Hmax. apply Z.leb_le.
Qed.

Lemma nfc_ascii_key s :
  bytes_all (fun a => byte a <? 128) s = true -> is_nfc s = true.
Proof. intros H. by apply is_nfc_eq, nfc_ascii. Qed.

Lemma tagged_normal tag payload :
  bytes_all (fun a => byte a <? 128) tag = true -> normal_json payload ->
  normal_json (tagged tag payload).
Proof.
  intros Ht Hp. cbn -[is_nfc]. split_and!; try done.
  - constructor; [constructor; [constructor|constructor]|]. by constructor; [vm_compute|].
  - repeat constructor; by apply nfc_ascii_key.
  - by apply nfc_ascii_key.
Qed.

Lemma Z_to_string_ascii n : bytes_all (fun a => byte a <? 128) (Z_to_string n) = true.
Proof.
  assert (forall m, 0 <= m -> bytes_all (fun a => byte a <? 128) (dec m) = true) as Hdec.
  { intros m Hm. pose proof (dec_digits m Hm) as Hd. unfold all_digits in Hd. revert Hd.
    generalize (dec m). intros s. induction s as [|a s IH]; [done|]. cbn.
    intros [Ha Hs]%andb_true_iff. rewrite IH by done. unfold is_ascii_digit in Ha.
    apply andb_true_iff. split; [lia|done]. }
  unfold Z_to_string. destruct (Z.ltb_spec n 0); [|by apply Hdec].
  change (bytes_all (fun a => byte a <? 128) ("-" +:+ dec (- n)) = true).
  rewrite bytes_all_app, Hdec by lia. done.
Qed.

Lemma encode_entries_keys fs :
  Forall (fun kv => key_shape kv.1) fs ->
  Forall (fun kv => is_nfc kv.1 = true) (map (fun '(k, v) => (k, encode v)) fs).
Proof.
  intros H. apply Forall_map. eapply Forall_impl; [exact H|]. intros [k v] (_ & _ & ?). done.
Qed.

Lemma encode_normal fv : fv_shape fv -> wf_json (encode fv) -> normal_json (encode fv).
Proof.
  induction fv as [b|s|s|s|vs IH|fs IH] using FlowValue_ind'; cbn [encode]; intros Hs Hw;
    apply tagged_normal; try done.
  - destruct Hs as (n & _ & ->). apply nfc_ascii_key, Z_to_string_ascii.
  - by destruct Hs.
  - cbn in Hs, Hw |- *. destruct Hs as [_ Hs], Hw as (_ & _ & Hw & _).
    apply foldr_and_Forall. rewrite !foldr_and_Forall in *. rewrite Forall_map in *.
    rewrite Forall_forall in *. intros v Hv. apply IH; auto.
  - cbn in Hs. destruct Hs as (_ & Hk & Hs).
    apply wf_json_object in Hw as (_ & [_ [Hw _]%Forall_cons]%Forall_cons). cbn [snd] in Hw.
    apply wf_json_object in Hw as [Hi Hw]. cbn.
    split; [done|]. split; [by apply encode_entries_keys|].
    rewrite foldr_and_fields. apply foldr_and_entries in Hs. rewrite Forall_map in *.
    rewrite Forall_forall in *. intros [k v] Hv. apply (IH (k, v)); [done|apply (Hs (k, v))|]; auto.
    apply (Hw (k, v) Hv).
Qed.

Lemma tagged_height tag payload :
  json_height (tagged tag payload) = 1 + Z.max 0 (json_height payload).
Proof. cbn -[Z.add]. pose proof (json_height_nonneg payload). lia. Qed.

Lemma encode_height fv : json_height (encode fv) <= 2 * fv_depth fv.
Proof.
  induction fv as [b|s|s|s|vs IH|fs IH] using FlowValue_ind'; cbn [encode];
    rewrite tagged_height; try (cbn; lia).
  - change (1 + Z.max 0 (1 + foldr Z.max 0 (map json_height (map encode vs)))
      <= 2 * (1 + foldr Z.max 0 (map fv_depth vs))).
    induction IH as [|v vs Hv _ IHvs]; cbn -[Z.add Z.mul] in *; lia.
  - change (1 + Z.max 0 (1 + foldr Z.max 0 (map (fun '(_, v) => json_height v)
                                (map (fun '(k, v) => (k, encode v)) fs)))
      <= 2 * (1 + foldr Z.max 0 (map (fun '(_, v) => fv_depth v) fs))).
    induction IH as [|[k v] fs Hv _ IHfs]; cbn -[Z.add Z.mul] in *; lia.
Qed.

Lemma validate_at_bounds v nodes :
  wf_json v -> validate_at validate_at_fuel 1 v 0 "$" = Ok nodes <->
  wf_json v /\ exists fv, v = encode fv /\ fv_shape fv /\ fv_depth fv <= 16 /\
    fv_nodes fv <= 4096 /\ nodes = fv_nodes fv.
Proof.
  intros Hw. split.
  - intros H. apply validate_at_sound in H as (fv & -> & Hs & Hd & -> & Hn); [|done|lia].
    split; [done|]. exists fv. split_and!; auto; lia.
  - intros (_ & fv & -> & Hs & Hd & Hn & ->).
    apply (validate_at_complete validate_at_fuel 1); auto; unfold validate_at_fuel; lia.
Qed.

Lemma validate_flow_value_v0_Ok v :
  wf_json v ->
  validate_flow_value_v0 v = Ok tt <->
  (exists fv, v = encode fv /\ fv_shape fv /\ fv_depth fv <= 16 /\ fv_nodes fv <= 4096) /\
  slen (compact_json v) <= 65536.
Proof.
  intros Hw. unfold validate_flow_value_v0. rewrite <- fits_byte_limit. split.
  - intros H. inv_ok. rewrite negb_false_iff in Hb. split; [|done].
    apply validate_at_bounds in Hx as (_ & fv & ? & ? & ? & ? & _); [|done]. eauto.
  - intros ((fv & -> & Hs & Hd & Hn) & Hb).
    rewrite (proj2 (validate_at_bounds (encode fv) (fv_nodes fv) Hw)) by eauto 10.
    cbn. by rewrite Hb.
Qed.

(** C35: validation of a flow value accepts exactly the wrappers of typed values that are
    within every bound: canonical integers, NFC text, valid keys and digests, at most 1024
    members, depth 16, 4096 nodes and 65536 bytes of text. *)
Theorem validate_flow_value_v0_spec v :
  wf_json v ->
  validate_flow_value_v0 v = Ok tt <->
  exists fv, v = encode fv /\ fv_shape fv /\ fv_depth fv <= 16 /\ fv_nodes fv <= 4096 /\
    slen (compact_json v) <= 65536.
Proof.
  intros Hw. rewrite validate_flow_value_v0_Ok by done. naive_solver.
Qed.

(** the byte count taken while streaming a validated value is the length of its
    canonical text: the canonical text exists, is the compact text, and is within the limit. *)
Theorem validated_flow_value_canonical v :
  wf_json v -> validate_flow_value_v0 v = Ok tt ->
  canonical_json v = Ok (compact_json v) /\ slen (compact_json v) <= 65536.
Proof.
  intros Hw ((fv & -> & Hs & Hd & _) & Hb)%validate_flow_value_v0_Ok; [|done].
  split; [|exact Hb]. apply canonical_json_compact; [by apply encode_normal|].
  pose proof (encode_height fv). lia.
Qed.
End byte_limit.

(** * No panic *)

Section no_panic.
Context {J : JsonEnv}.

Lemma validate_items_no_panic validate path values :
  (forall v nodes path, validate v nodes path <> Panic) ->
  forall index nodes, validate_items validate path values index nodes <> Panic.
Proof.
  intros Hv. induction values as [|v values IH]; intros index nodes; cbn -[String.append]; [done|].
  pose proof (Hv v nodes (path +:+ "[" +:+ Z_to_string index +:+ "]")) as H.
  destruct (validate _ _ _); cbn; try done.
Qed.

Lemma validate_entries_no_panic validate path fields :
  (forall v nodes path, validate v nodes path <> Panic) ->
  forall nodes, validate_entries validate path fields nodes <> Panic.
Proof.
  intros Hv. induction fields as [|[k v] fields IH]; intros nodes; cbn -[String.append]; [done|].
  case_match; [done|]. unfold fv_validate_nfc. case_match; cbn -[String.append]; [done|].
  pose proof (Hv v nodes (path +:+ "." +:+ k)) as H1. destruct (validate _ _ _); cbn; try done.
Qed.

Lemma validate_scalars_no_panic payload path :
  validate_integer payload path <> Panic /\ validate_text payload path <> Panic /\
  validate_session_object payload path <> Panic.
Proof.
  unfold validate_integer, validate_text, validate_session_object, parse_canonical_i64,
    fv_validate_nfc, parse_session_object_uri, validate_digest.
  split_and!; destruct (as_str payload) as [s|]; cbn [ok_or mbind result_bind]; try done.
  - destruct (parse_i64 s) as [n|]; [|done]. cbn [ok_or mbind result_bind]. by destruct (negb _).
  - by case_match.
  - destruct (negb _); [done|]. cbn [ok_or mbind result_bind].
    destruct (strip_prefix _ _); [|done]. cbn [ok_or mbind result_bind].
    by destruct (decode_lowercase_sha256_hex _).
Qed.

Lemma validate_at_no_panic fuel depth v nodes path :
  18 <= depth + Z.of_nat fuel -> 1 <= Z.of_nat fuel -> validate_at fuel depth v nodes path <> Panic.
Proof.
  revert depth v nodes path. induction fuel as [|fuel IH]; intros depth v nodes path Hf Hp; [lia|].
  cbn -[validate_integer validate_text validate_session_object validate_list validate_map
        String.append].
  unfold FLOW_VALUE_MAX_DEPTH_V0. destruct (Z.ltb_spec 16 depth); [done|].
  case_match; [done|]. destruct (as_object v) as [fields|]; [|done]. cbn -[String.append].
  case_match; [done|]. destruct (obj_get fields "type" ≫= as_str) as [tag|]; [|done].
  cbn -[String.append]. unfold obj_has in *. destruct (obj_get fields "value") as [payload|];
    [|by rewrite !orb_true_r in *]. cbn [expect mbind result_bind].
  destruct (validate_scalars_no_panic payload path) as (Hi & Ht & Ho).
  assert (forall v nodes path, validate_at fuel (depth + 1) v nodes path <> Panic) as Hrec
    by (intros; apply IH; lia).
  destruct (String.eqb tag "boolean"); [by destruct (is_boolean payload)|].
  destruct (String.eqb tag "integer"); [by destruct (validate_integer payload path)|].
  destruct (String.eqb tag "string"); [by destruct (validate_text payload path)|].
  destruct (String.eqb tag "session-object");
    [by destruct (validate_session_object payload path)|].
  destruct (String.eqb tag "list").
  { unfold validate_list. destruct (as_array payload); [|done]. cbn [ok_or mbind result_bind].
    destruct (_ <? len _); [done|]. by apply validate_items_no_panic. }
  destruct (String.eqb tag "map"); [|done].
  unfold validate_map. destruct (as_object payload); [|done]. cbn [ok_or mbind result_bind].
  destruct (_ <? len _); [done|]. by apply validate_entries_no_panic.
Qed.

Lemma validate_v0_total v :
  validate_flow_value_v0 v = Ok tt \/ exists e, validate_flow_value_v0 v = Err e.
Proof.
  unfold validate_flow_value_v0.
  pose proof (validate_at_no_panic validate_at_fuel 1 v 0 "$" ltac:(done) ltac:(done)) as H.
  destruct (validate_at _ _ _ _ _) as [n|e|]; cbn -[String.append]; [|by eauto|done].
  case_match; eauto.
Qed.

(** validation of a flow value terminates with an answer on every JSON value: the
    recursion stays within the depth limit and the field lookups of the wrapper succeed. *)
Theorem validate_flow_value_v0_total v :
  validate_flow_value_v0 v = Ok tt \/ exists e, validate_flow_value_v0 v = Err e.
Proof. apply validate_v0_total. Qed.
End no_panic.

(** building and parsing a session-object URI are inverse, and both accept exactly the
    lowercase SHA-256 digests. *)
Theorem session_object_uri_round_trip uri digest :
  (build_session_object_uri digest = Ok uri <-> parse_session_object_uri uri = Ok digest) /\
  (is_sha256_hex digest = true <->
   parse_session_object_uri (SESSION_OBJECT_URI_PREFIX +:+ digest) = Ok digest).
Proof.
  rewrite !parse_session_object_uri_Ok. split; [|tauto].
  unfold build_session_object_uri. rewrite <- validate_digest_Ok. split.
  - intros H. inv_ok. by destruct x.
  - intros [-> Hd]. by rewrite Hd.
Qed.

Definition sample_flow_value : FlowValue :=
  FMap [("flag", FBoolean true); ("items", FList [FInteger "-7"; FString "x"])].

Lemma sample_flow_value_valid :
  wf_json (encode sample_flow_value) /\
  @validate_flow_value_v0 plain_json (encode sample_flow_value) = Ok tt.
Proof. split; [|vm_compute; reflexivity]. repeat constructor. Qed.

Example validate_flow_value_v0_spec_witness :
  exists fv, encode sample_flow_value = encode fv /\ @fv_shape plain_json fv /\
    fv_depth fv <= 16 /\ fv_nodes fv <= 4096 /\
    slen (@compact_json plain_json (encode sample_flow_value)) <= 65536.
Proof.
  apply (@validate_flow_value_v0_spec plain_json plain_json_laws).
  - apply sample_flow_value_valid.
  - apply sample_flow_value_valid.
Defined.

Example validated_flow_value_canonical_witness :
  @canonical_json plain_json (encode sample_flow_value)
    = Ok (@compact_json plain_json (encode sample_flow_value)).
Proof.
  apply (@validated_flow_value_canonical plain_json plain_json_laws).
  - apply sample_flow_value_valid.
  - apply sample_flow_value_valid.
Defined.
