(* ===== verification/Event.v ===== *)
(** The event envelope ([proto/src/event.rs]) and its payload contract
    ([proto/src/event/payload.rs]): reading, validation, the canonical JSON line, and the
    identifiers an event carries. *)

From stdpp Require Import base list strings sorting sets.
From Stdlib Require Import ZArith Lia Ascii String.
From S2P Require Import Prelude Decimal Sorting Metadata Json FlowValue.

Open Scope Z_scope.

Definition PROTOCOL_VERSION_V0 : string := "0".
Definition JSON_NESTING_REQUIREMENT_V0 : string :=
  "must stay below the protocol v0 JSON nesting limit".

Record EventMetadataError : Type := { me_field : string; me_requirement : string }.
Record EventValidationError : Type := { field : string; requirement : string }.

Definition validation_error (f r : string) : EventValidationError :=
  {| field := f; requirement := r |}.

(** [From<EventMetadataError>]. *)
Definition from_metadata_error (e : EventMetadataError) : EventValidationError :=
  validation_error (me_field e) (me_requirement e).

Inductive EventStateIdentifierKind : Type :=
| IdEvent | IdFlow | IdParentFlow | IdFlowDefinition | IdPhaseExecution | IdPhase
| IdTool | IdAttempt | IdMessage.

Definition MAX_EVENT_STATE_IDENTIFIERS_V0 : Z := 5.
Definition MAX_EVENT_PAYLOAD_STATE_IDENTIFIERS_V0 : Z := 2.

Record EventEnvelope : Type := {
  additional_fields : list (string * Value);
  correlation_id : option string;
  event_id : string;
  event_type : EventType;
  flow_id : option string;
  parent_flow_id : option string;
  payload : Value;
  protocol_version : string;
  sequence : Z;
  session_id : string;
  source : string;
  timestamp : string;
}.

(** * Payload tokens *)

Inductive PhaseKind : Type := Leaf | Composite.
Inductive ToolKind : Type := PredefinedCommand | OwnScript.

Definition phase_kind_all : list PhaseKind := [Leaf; Composite].
Definition tool_kind_all : list ToolKind := [PredefinedCommand; OwnScript].

Definition phase_kind_as_str (k : PhaseKind) : string :=
  match k with Leaf => "leaf" | Composite => "composite" end.
Definition tool_kind_as_str (k : ToolKind) : string :=
  match k with PredefinedCommand => "predefined-command" | OwnScript => "own-script" end.

(** [TryFrom<&str>] of the token enums: the first candidate with that token. *)
Definition token_try_from {A} (all : list A) (as_str : A -> string) (value : string)
    : result string A :=
  ok_or (List.find (fun candidate => String.eqb (as_str candidate) value) all) value.

Definition phase_kind_try_from : string -> result string PhaseKind :=
  token_try_from phase_kind_all phase_kind_as_str.
Definition tool_kind_try_from : string -> result string ToolKind :=
  token_try_from tool_kind_all tool_kind_as_str.

Definition state_identifier_fields (t : EventType) : list (EventStateIdentifierKind * string) :=
  match t with
  | SessionStarted | SessionPaused | SessionResumed | SessionCompleted | SessionFailed
  | ArtifactLogged | AttentionRequested | MetricSample | Error => []
  | FlowStarted | FlowCompleted | FlowFailed => [(IdFlowDefinition, "flow_definition_id")]
  | PhaseEntered | PhaseCompleted | PhaseFailed =>
      [(IdPhaseExecution, "phase_execution_id"); (IdPhase, "phase_id")]
  | MessageDelta | MessageCompleted => [(IdMessage, "message_id")]
  | ToolStarted | ToolProgress | ToolCompleted | ToolFailed | ToolTimedOut =>
      [(IdTool, "tool_id"); (IdAttempt, "attempt_id")]
  end.

(** * The payload contract *)

Module Payload.
Section validator.
Context {J : JsonEnv}.
Context (payload : list (string * Value)).

Definition error (f r : string) : EventValidationError :=
  validation_error ("payload." +:+ f) r.

Definition require_string (f : string) : result EventValidationError string :=
  match obj_get payload f ≫= as_str with
  | Some value =>
      if negb (String.eqb value "") then Ok value
      else Err (error f "must be a non-empty string")
  | None => Err (error f "must be a non-empty string")
  end.

Definition optional_string (f : string) : result EventValidationError unit :=
  if obj_has payload f then _ ← require_string f; Ok tt else Ok tt.

Definition require_phase_kind : result EventValidationError unit :=
  value ← require_string "phase_kind";
  if is_ok (phase_kind_try_from value) then Ok tt
  else Err (error "phase_kind" "must be leaf or composite").

Definition optional_phase_kind : result EventValidationError unit :=
  if obj_has payload "phase_kind" then require_phase_kind else Ok tt.

Definition require_role : result EventValidationError unit :=
  value ← require_string "role";
  if bool_decide (value ∈ ["system"; "user"; "assistant"; "tool"]) then Ok tt
  else Err (error "role" "must be system, user, assistant, or tool").

Definition string_array (f : string) (value : Value)
    : result EventValidationError (list string) :=
  values ← ok_or (as_array value) (error f "must be a string array");
  try_collect (fun value => ok_or (as_str value) (error f "must contain only strings")) values.

Definition require_string_array (f : string) : result EventValidationError (list string) :=
  value ← ok_or (obj_get payload f) (error f "must be a string array");
  string_array f value.

Definition optional_integer (f : string) : result EventValidationError unit :=
  match obj_get payload f with
  | Some value =>
      let valid :=
        match as_number value with
        | Some number =>
            bool_decide (is_Some (number_as_i64 number))
            || bool_decide (is_Some (number_as_u64 number))
        | None => false
        end in
      if negb valid then Err (error f "must be an integer") else Ok tt
  | None => Ok tt
  end.

Definition require_positive_integer (f : string) : result EventValidationError unit :=
  match obj_get payload f ≫= as_u64 with
  | Some value =>
      if 0 <? value then Ok tt else Err (error f "must be a positive integer")
  | None => Err (error f "must be a positive integer")
  end.

Definition require_number (f : string) : result EventValidationError unit :=
  match obj_get payload f with
  | Some value => if is_number value then Ok tt else Err (error f "must be a number")
  | None => Err (error f "must be a number")
  end.

Definition optional_object (f : string) : result EventValidationError unit :=
  match obj_get payload f with
  | Some value => if negb (is_object value) then Err (error f "must be an object") else Ok tt
  | None => Ok tt
  end.

Definition require_flow_value (f : string) : result EventValidationError unit :=
  match obj_get payload f with
  | Some value =>
      if is_ok (validate_flow_value_v0 value) then Ok tt
      else Err (error f "must be a bounded flow-value-v0")
  | None => Err (error f "must be a bounded flow-value-v0")
  end.

Definition tool_started_fields : list string :=
  ["tool_id"; "tool_kind"; "tool_name"; "allowed_parameters"; "attempt_id"].

Definition validate (t : EventType) : result EventValidationError unit :=
  match t with
  | SessionStarted | SessionPaused | SessionResumed | SessionCompleted =>
      optional_string "reason"
  | SessionFailed => _ ← require_string "reason"; Ok tt
  | FlowStarted | FlowCompleted =>
      _ ← require_string "flow_definition_id";
      optional_string "flow_name"
  | FlowFailed =>
      _ ← require_string "flow_definition_id";
      _ ← optional_string "flow_name";
      _ ← require_string "error"; Ok tt
  | PhaseEntered =>
      _ ← require_string "phase_id";
      _ ← require_string "phase_name";
      _ ← require_string "phase_execution_id";
      _ ← require_phase_kind;
      _ ← require_positive_integer "iteration";
      _ ← require_string_array "instruction_ids";
      _ ← require_string_array "tool_ids"; Ok tt
  | PhaseCompleted =>
      _ ← require_string "phase_execution_id";
      _ ← require_string "phase_id";
      _ ← optional_phase_kind;
      _ ← require_positive_integer "iteration";
      require_flow_value "result"
  | PhaseFailed =>
      _ ← require_string "phase_execution_id";
      _ ← require_string "phase_id";
      _ ← optional_phase_kind;
      _ ← require_positive_integer "iteration";
      _ ← require_string "error"; Ok tt
  | MessageDelta =>
      _ ← require_string "message_id";
      _ ← require_role;
      _ ← require_string "content_delta"; Ok tt
  | MessageCompleted =>
      _ ← require_string "message_id";
      require_role
  | ToolStarted =>
      match List.find (fun k => negb (bool_decide (k ∈ tool_started_fields))) (map fst payload) with
      | Some f =>
          Err (validation_error ("payload." +:+ f) "unknown Tool invocation metadata field")
      | None =>
          _ ← optional_string "attempt_id";
          _ ← require_string "tool_id";
          _ ← require_string "tool_name";
          tool_kind ← require_string "tool_kind";
          if negb (is_ok (tool_kind_try_from tool_kind))
          then Err (error "tool_kind" "must be predefined-command or own-script")
          else _ ← require_string_array "allowed_parameters"; Ok tt
      end
  | ToolProgress =>
      _ ← optional_string "attempt_id";
      _ ← require_string "tool_id";
      _ ← require_string "message"; Ok tt
  | ToolCompleted =>
      _ ← optional_string "attempt_id";
      _ ← require_string "tool_id";
      optional_integer "exit_code"
  | ToolFailed | ToolTimedOut =>
      _ ← optional_string "attempt_id";
      _ ← require_string "tool_id";
      _ ← require_string "error"; Ok tt
  | ArtifactLogged =>
      _ ← require_string "artifact_id";
      _ ← require_string "artifact_type";
      _ ← require_string "uri"; Ok tt
  | AttentionRequested =>
      _ ← require_string "request_id";
      _ ← require_string "reason"; Ok tt
  | MetricSample =>
      _ ← require_string "metric_name";
      require_number "value"
  | Error =>
      _ ← require_string "code";
      _ ← require_string "message";
      optional_object "data"
  end.
End validator.
End Payload.

Definition validate_event_payload `{!JsonEnv} (t : EventType) (payload : Value)
    : result EventValidationError unit :=
  fields ← expect (as_object payload);
  Payload.validate fields t.

(** * Locations *)

(** [iter().enumerate().find_map(f)]. *)
Definition find_map_index {A B} (f : Z -> A -> option B) : Z -> list A -> option B :=
  fix go index l :=
    match l with
    | [] => None
    | a :: l => match f index a with Some b => Some b | None => go (index + 1) l end
    end.

Definition index_location (location : string) (index : Z) : string :=
  location +:+ "[" +:+ Z_to_string index +:+ "]".
Definition key_location (location key : string) : string := location +:+ "." +:+ key.

Fixpoint null_location (value : Value) (location : string) : option string :=
  match value with
  | JNull => Some location
  | JArray values =>
      find_map_index (fun index value => null_location value (index_location location index))
        0 values
  | JObject fields =>
      find_map (fun '(f, value) => null_location value (key_location location f)) fields
  | _ => None
  end.

Fixpoint non_nfc_location `{!JsonEnv} (value : Value) (location : string) : option string :=
  match value with
  | JString s => if negb (is_nfc s) then Some location else None
  | JArray values =>
      find_map_index (fun index value => non_nfc_location value (index_location location index))
        0 values
  | JObject fields =>
      find_map (fun '(key, value) =>
        if negb (is_nfc key) then Some (key_location location key)
        else non_nfc_location value (key_location location key)) fields
  | _ => None
  end.

Definition reserved_envelope_fields : list string :=
  ["correlation_id"; "event_id"; "event_type"; "flow_id"; "parent_flow_id"; "payload";
   "protocol_version"; "sequence"; "session_id"; "source"; "timestamp"].

Definition is_reserved_envelope_field (f : string) : bool :=
  bool_decide (f ∈ reserved_envelope_fields).

(** * Validation *)

Definition is_some_and {A} (o : option A) (p : A -> bool) : bool :=
  match o with Some a => p a | None => false end.
Definition is_some {A} (o : option A) : bool := match o with Some _ => true | None => false end.
Definition is_none {A} (o : option A) : bool := negb (is_some o).
Definition is_empty (s : string) : bool := String.eqb s "".

Definition validate_metadata (e : EventEnvelope) : result EventMetadataError unit :=
  let invalid :=
    if sequence e =? 0 then Some ("sequence", "must be one-based")
    else if negb (is_valid_session_id (session_id e)) then
      Some ("session_id", "must be a lowercase path-safe token")
    else if is_empty (event_id e) then Some ("event_id", "must be non-empty")
    else if is_empty (source e) then Some ("source", "must be non-empty")
    else if is_none (parse_rfc3339_utc_timestamp (timestamp e)) then
      Some ("timestamp", "must be a canonical RFC 3339 UTC timestamp ending in `Z`")
    else if is_some_and (correlation_id e) is_empty then
      Some ("correlation_id", "must be non-empty when present")
    else if is_some_and (flow_id e) is_empty then
      Some ("flow_id", "must be non-empty when present")
    else if is_some_and (parent_flow_id e) is_empty then
      Some ("parent_flow_id", "must be non-empty when present")
    else None in
  match invalid with
  | Some (f, r) => Err {| me_field := f; me_requirement := r |}
  | None => Ok tt
  end.

Section event.
Context {J : JsonEnv}.

(** The loops of [validate_v0] over the additional fields. *)
Definition check_nesting (kv : string * Value) : result EventValidationError unit :=
  if json_nesting_reaches_limit kv.2 1
  then Err (validation_error kv.1 JSON_NESTING_REQUIREMENT_V0) else Ok tt.

Definition check_null (kv : string * Value) : result EventValidationError unit :=
  match null_location kv.2 kv.1 with
  | Some f => Err (validation_error f "must not be null in protocol v0")
  | None => Ok tt
  end.

Definition check_nfc (kv : string * Value) : result EventValidationError unit :=
  if negb (is_nfc kv.1) then Err (validation_error kv.1 "must use NFC")
  else match non_nfc_location kv.2 kv.1 with
       | Some location => Err (validation_error location "must use NFC")
       | None => Ok tt
       end.

Definition quote_zero : string := plain_quote "0".

Definition validate_v0 (e : EventEnvelope) : result EventValidationError unit :=
  _ ← map_err from_metadata_error (validate_metadata e);
  reject is_some (parent_flow_id e) && is_none (flow_id e)
    with validation_error "parent_flow_id" "requires flow_id" ;;
  reject requires_flow_id (event_type e) && is_none (flow_id e)
    with validation_error "flow_id" "is required for flow-scoped events" ;;
  reject negb (is_object (payload e))
    with validation_error "payload" "must be a JSON object" ;;
  reject negb (String.eqb (protocol_version e) PROTOCOL_VERSION_V0)
    with validation_error "protocol_version"
           ("must be " +:+ quote_zero +:+ " (unsupported protocol_version)") ;;
  match List.find is_reserved_envelope_field (map fst (additional_fields e)) with
  | Some f =>
      Err (validation_error ("additional field " +:+ debug_str f)
             "collides with an envelope field")
  | None =>
      reject json_nesting_reaches_limit (payload e) 1
        with validation_error "payload" JSON_NESTING_REQUIREMENT_V0 ;;
      _ ← try_for_each check_nesting (additional_fields e);
      match null_location (payload e) "payload" with
      | Some f => Err (validation_error f "must not be null in protocol v0")
      | None =>
          _ ← try_for_each check_null (additional_fields e);
          _ ← try_for_each check_nfc (additional_fields e);
          validate_event_payload (event_type e) (payload e)
      end
  end.

(** * Building and writing *)

Definition new (event_id : string) (event_type : EventType) (session_id : string)
    (sequence : Z) (timestamp source : string) (payload : Value) : EventEnvelope :=
  let payload :=
    if json_nesting_reaches_limit payload 1 then payload else nfc_json_string_values payload in
  {| additional_fields := [];
     correlation_id := None;
     event_id := nfc_string event_id;
     event_type := event_type;
     flow_id := None;
     parent_flow_id := None;
     payload := payload;
     protocol_version := PROTOCOL_VERSION_V0;
     sequence := sequence;
     session_id := nfc_string session_id;
     source := nfc_string source;
     timestamp := nfc_string timestamp |}.

(** The entries in the order [serialize_fields] writes them. *)
Definition optional_entry (key : string) (o : option string) : list (string * Value) :=
  match o with Some s => [(key, JString s)] | None => [] end.

Definition event_entries (e : EventEnvelope) : list (string * Value) :=
  additional_fields e
  ++ optional_entry "correlation_id" (correlation_id e)
  ++ [("event_id", JString (event_id e));
      ("event_type", JString (event_type_as_str (event_type e)))]
  ++ optional_entry "flow_id" (flow_id e)
  ++ optional_entry "parent_flow_id" (parent_flow_id e)
  ++ [("payload", payload e);
      ("protocol_version", JString (protocol_version e));
      ("sequence", JNumber (PosInt (sequence e)));
      ("session_id", JString (session_id e));
      ("source", JString (source e));
      ("timestamp", JString (timestamp e))].

(** [serde_json::value::Serializer] inserts the entries into a map one by one. *)
Definition insert_entries (entries fields : list (string * Value)) : list (string * Value) :=
  foldl (fun fields '(k, v) => obj_insert k v fields) fields entries.

Definition serialize_fields (e : EventEnvelope) : Value :=
  JObject (insert_entries (event_entries e) []).

Definition serialize_event (e : EventEnvelope) : result EventValidationError Value :=
  _ ← validate_v0 e; Ok (serialize_fields e).

Definition newline : string := String (ascii_of_N 10) "".

Definition canonical_jsonl (e : EventEnvelope) : result CanonicalJsonError string :=
  reject negb (is_object (payload e)) with NonObjectPayload ;;
  reject negb (String.eqb (protocol_version e) PROTOCOL_VERSION_V0)
    with UnsupportedProtocolVersion (protocol_version e) ;;
  _ ← map_err (fun err => InvalidEvent (field err) (requirement err)) (validate_v0 e);
  out ← canonical_json (serialize_fields e);
  Ok (out +:+ newline).
End event.

(** * Reading *)

Inductive DeserializeError : Type :=
| InvalidJson (e : JsonError)
| NotAMap
| MalformedField (f : string)
| MissingField (f : string)
| RejectedEvent (e : EventValidationError).

(** [UncheckedEventEnvelope] has the fields of [EventEnvelope] before normalization and
    validation.  The value of a field is read by [f]; an absent field is no error yet. *)
Definition read_field {A} (f : Value -> option A) (fields : list (string * Value)) (key : string)
    : result DeserializeError (option A) :=
  match obj_get fields key with
  | Some v => a ← ok_or (f v) (MalformedField key); Ok (Some a)
  | None => Ok None
  end.

Definition as_event_type (v : Value) : option EventType :=
  s ← as_str v; match event_type_try_from s with Ok t => Some t | _ => None end.

Definition deserialize_payload_object (v : Value) : option Value :=
  if is_object v then Some v else None.

(** [deserialize_present_optional] refuses an explicit null, so a present field is a string. *)
Definition deserialize_present_optional (v : Value) : option string := as_str v.

Definition deserialize_protocol_version_v0 (v : Value) : option string :=
  s ← as_str v; if String.eqb s PROTOCOL_VERSION_V0 then Some s else None.

Definition flattened (fields : list (string * Value)) : list (string * Value) :=
  List.filter (fun kv => negb (is_reserved_envelope_field kv.1)) fields.

(** The derived [Deserialize] of [UncheckedEventEnvelope]: the fields present are read in key
    order, then the required ones that are absent are reported. *)
Definition unchecked_event (fields : list (string * Value))
    : result DeserializeError EventEnvelope :=
  correlation ← read_field deserialize_present_optional fields "correlation_id";
  id ← read_field as_str fields "event_id";
  type ← read_field as_event_type fields "event_type";
  flow ← read_field deserialize_present_optional fields "flow_id";
  parent ← read_field deserialize_present_optional fields "parent_flow_id";
  pay ← read_field deserialize_payload_object fields "payload";
  version ← read_field deserialize_protocol_version_v0 fields "protocol_version";
  seq ← read_field as_u64 fields "sequence";
  session ← read_field as_str fields "session_id";
  src ← read_field as_str fields "source";
  time ← read_field as_str fields "timestamp";
  id ← ok_or id (MissingField "event_id");
  type ← ok_or type (MissingField "event_type");
  pay ← ok_or pay (MissingField "payload");
  version ← ok_or version (MissingField "protocol_version");
  seq ← ok_or seq (MissingField "sequence");
  session ← ok_or session (MissingField "session_id");
  src ← ok_or src (MissingField "source");
  time ← ok_or time (MissingField "timestamp");
  Ok {| additional_fields := flattened fields;
        correlation_id := correlation;
        event_id := id;
        event_type := type;
        flow_id := flow;
        parent_flow_id := parent;
        payload := pay;
        protocol_version := version;
        sequence := seq;
        session_id := session;
        source := src;
        timestamp := time |}.

Section reading.
Context {J : JsonEnv}.

(** [TryFrom<UncheckedEventEnvelope>]. *)
Definition event_try_from (value : EventEnvelope) : result EventValidationError EventEnvelope :=
  let event :=
    {| additional_fields := additional_fields value;
       correlation_id := nfc_string <$> correlation_id value;
       event_id := nfc_string (event_id value);
       event_type := event_type value;
       flow_id := nfc_string <$> flow_id value;
       parent_flow_id := nfc_string <$> parent_flow_id value;
       payload := nfc_json_string_values (payload value);
       protocol_version := nfc_string (protocol_version value);
       sequence := sequence value;
       session_id := nfc_string (session_id value);
       source := nfc_string (source value);
       timestamp := nfc_string (timestamp value) |} in
  _ ← validate_v0 event;
  Ok event.

Definition event_of_value (v : Value) : result DeserializeError EventEnvelope :=
  fields ← ok_or (as_object v) NotAMap;
  unchecked ← unchecked_event fields;
  map_err RejectedEvent (event_try_from unchecked).

Definition deserialize_event (r : Raw) : result DeserializeError EventEnvelope :=
  v ← map_err InvalidJson (unique_json r);
  event_of_value v.
End reading.

(** * State identifiers *)

Section identifiers.
Context {S E : Type}.

(** The visitor is a closure over a state [S]. *)
Fixpoint visit_payload_fields (visit : EventStateIdentifierKind -> string -> S -> result E S)
    (fields : list (EventStateIdentifierKind * string)) (pay : list (string * Value)) (s : S)
    : result E S :=
  match fields with
  | [] => Ok s
  | (kind, f) :: fields =>
      match obj_get pay f ≫= as_str with
      | Some value => s ← visit kind value s; visit_payload_fields visit fields pay s
      | None => visit_payload_fields visit fields pay s
      end
  end.

Definition visit_optional (visit : EventStateIdentifierKind -> string -> S -> result E S)
    (kind : EventStateIdentifierKind) (o : option string) (s : S) : result E S :=
  match o with Some value => visit kind value s | None => Ok s end.

Definition try_for_each_state_identifier (e : EventEnvelope)
    (visit : EventStateIdentifierKind -> string -> S -> result E S) (s : S) : result E S :=
  s ← visit IdEvent (event_id e) s;
  s ← visit_optional visit IdFlow (flow_id e) s;
  s ← visit_optional visit IdParentFlow (parent_flow_id e) s;
  match as_object (payload e) with
  | Some pay => visit_payload_fields visit (state_identifier_fields (event_type e)) pay s
  | None => Ok s
  end.
End identifiers.

(** The mutable visitor returns the string it leaves behind and its result; an error keeps
    the edits made before it. *)
Section identifiers_mut.
Context {S E : Type}.
Context (visit : EventStateIdentifierKind -> string -> S -> string * result E S).

Definition with_event_id (e : EventEnvelope) (v : string) : EventEnvelope :=
  {| additional_fields := additional_fields e; correlation_id := correlation_id e;
     event_id := v; event_type := event_type e; flow_id := flow_id e;
     parent_flow_id := parent_flow_id e; payload := payload e;
     protocol_version := protocol_version e; sequence := sequence e;
     session_id := session_id e; source := source e; timestamp := timestamp e |}.

Definition with_flows (e : EventEnvelope) (flow parent : option string) (pay : Value)
    : EventEnvelope :=
  {| additional_fields := additional_fields e; correlation_id := correlation_id e;
     event_id := event_id e; event_type := event_type e; flow_id := flow;
     parent_flow_id := parent; payload := pay;
     protocol_version := protocol_version e; sequence := sequence e;
     session_id := session_id e; source := source e; timestamp := timestamp e |}.

Definition visit_optional_mut (kind : EventStateIdentifierKind) (o : option string) (s : S)
    : option string * result E S :=
  match o with
  | Some value => let '(v, r) := visit kind value s in (Some v, r)
  | None => (None, Ok s)
  end.

(** [payload.get_mut(field)] edits the entry in place. *)
Definition obj_set (pay : list (string * Value)) (key : string) (value : Value)
    : list (string * Value) :=
  map (fun '(k, v) => (k, if String.eqb k key then value else v)) pay.

Fixpoint visit_payload_fields_mut (fields : list (EventStateIdentifierKind * string))
    (pay : list (string * Value)) (s : S) : list (string * Value) * result E S :=
  match fields with
  | [] => (pay, Ok s)
  | (kind, f) :: fields =>
      match obj_get pay f ≫= as_str with
      | Some value =>
          let '(v, r) := visit kind value s in
          let pay := obj_set pay f (JString v) in
          match r with
          | Ok s => visit_payload_fields_mut fields pay s
          | Err err => (pay, Err err)
          | Panic => (pay, Panic)
          end
      | None => visit_payload_fields_mut fields pay s
      end
  end.

Definition try_for_each_state_identifier_mut (e : EventEnvelope) (s : S)
    : EventEnvelope * result E S :=
  let '(id, r) := visit IdEvent (event_id e) s in
  let e := with_event_id e id in
  match r with
  | Ok s =>
      let '(flow, r) := visit_optional_mut IdFlow (flow_id e) s in
      let e := with_flows e flow (parent_flow_id e) (payload e) in
      match r with
      | Ok s =>
          let '(parent, r) := visit_optional_mut IdParentFlow (parent_flow_id e) s in
          let e := with_flows e (flow_id e) parent (payload e) in
          match r with
          | Ok s =>
              match payload e with
              | JObject pay =>
                  let '(pay, r) :=
                    visit_payload_fields_mut (state_identifier_fields (event_type e)) pay s in
                  (with_flows e (flow_id e) (parent_flow_id e) (JObject pay), r)
              | _ => (e, Ok s)
              end
          | r => (e, r)
          end
      | r => (e, r)
      end
  | r => (e, r)
  end.
End identifiers_mut.

(** * What the payload contract asks for *)

Inductive Requirement : Type :=
| NonEmptyString (f : string)
| OptionalString (f : string)
| OneOf (f : string) (tokens : list string)
| OptionalOneOf (f : string) (tokens : list string)
| PositiveInteger (f : string)
| OptionalInteger (f : string)
| StringArray (f : string)
| ANumber (f : string)
| OptionalObject (f : string)
| BoundedFlowValue (f : string)
| OnlyFields (fs : list string).

Definition contract (t : EventType) : list Requirement :=
  let phase_kind := ["leaf"; "composite"] in
  let role := ["system"; "user"; "assistant"; "tool"] in
  match t with
  | SessionStarted | SessionPaused | SessionResumed | SessionCompleted =>
      [OptionalString "reason"]
  | SessionFailed => [NonEmptyString "reason"]
  | FlowStarted | FlowCompleted =>
      [NonEmptyString "flow_definition_id"; OptionalString "flow_name"]
  | FlowFailed =>
      [NonEmptyString "flow_definition_id"; OptionalString "flow_name"; NonEmptyString "error"]
  | PhaseEntered =>
      [NonEmptyString "phase_id"; NonEmptyString "phase_name"; NonEmptyString "phase_execution_id";
       OneOf "phase_kind" phase_kind; PositiveInteger "iteration";
       StringArray "instruction_ids"; StringArray "tool_ids"]
  | PhaseCompleted =>
      [NonEmptyString "phase_execution_id"; NonEmptyString "phase_id";
       OptionalOneOf "phase_kind" phase_kind; PositiveInteger "iteration";
       BoundedFlowValue "result"]
  | PhaseFailed =>
      [NonEmptyString "phase_execution_id"; NonEmptyString "phase_id";
       OptionalOneOf "phase_kind" phase_kind; PositiveInteger "iteration"; NonEmptyString "error"]
  | MessageDelta =>
      [NonEmptyString "message_id"; OneOf "role" role; NonEmptyString "content_delta"]
  | MessageCompleted => [NonEmptyString "message_id"; OneOf "role" role]
  | ToolStarted =>
      [OnlyFields ["tool_id"; "tool_kind"; "tool_name"; "allowed_parameters"; "attempt_id"];
       OptionalString "attempt_id"; NonEmptyString "tool_id"; NonEmptyString "tool_name";
       OneOf "tool_kind" ["predefined-command"; "own-script"]; StringArray "allowed_parameters"]
  | ToolProgress =>
      [OptionalString "attempt_id"; NonEmptyString "tool_id"; NonEmptyString "message"]
  | ToolCompleted =>
      [OptionalString "attempt_id"; NonEmptyString "tool_id"; OptionalInteger "exit_code"]
  | ToolFailed | ToolTimedOut =>
      [OptionalString "attempt_id"; NonEmptyString "tool_id"; NonEmptyString "error"]
  | ArtifactLogged =>
      [NonEmptyString "artifact_id"; NonEmptyString "artifact_type"; NonEmptyString "uri"]
  | AttentionRequested => [NonEmptyString "request_id"; NonEmptyString "reason"]
  | MetricSample => [NonEmptyString "metric_name"; ANumber "value"]
  | Error => [NonEmptyString "code"; NonEmptyString "message"; OptionalObject "data"]
  end.

Section contract.
Context {J : JsonEnv}.

Definition non_empty_string (v : Value) : Prop := exists s, v = JString s /\ s <> "".

Definition meets (pay : list (string * Value)) (r : Requirement) : Prop :=
  match r with
  | NonEmptyString f => exists v, obj_get pay f = Some v /\ non_empty_string v
  | OptionalString f => forall v, obj_get pay f = Some v -> non_empty_string v
  | OneOf f tokens => exists s, obj_get pay f = Some (JString s) /\ s ∈ tokens
  | OptionalOneOf f tokens =>
      forall v, obj_get pay f = Some v -> exists s, v = JString s /\ s ∈ tokens
  | PositiveInteger f => exists n, obj_get pay f = Some (JNumber (PosInt n)) /\ 0 < n
  | OptionalInteger f =>
      forall v, obj_get pay f = Some v ->
      exists n, v = JNumber (PosInt n) \/ v = JNumber (NegInt n)
  | StringArray f => exists ss, obj_get pay f = Some (JArray (map JString ss))
  | ANumber f => exists n, obj_get pay f = Some (JNumber n)
  | OptionalObject f => forall v, obj_get pay f = Some v -> exists fs, v = JObject fs
  | BoundedFlowValue f =>
      exists v, obj_get pay f = Some v /\ validate_flow_value_v0 v = Ok tt
  | OnlyFields fs => Forall (fun k => k ∈ fs) (map fst pay)
  end.

Context (pay : list (string * Value)).

Lemma require_string_Ok f s :
  Payload.require_string pay f = Ok s <-> obj_get pay f = Some (JString s) /\ s <> "".
Proof.
  unfold Payload.require_string.
  destruct (obj_get pay f) as [[| | |t| |]|]; cbn; try naive_solver.
  destruct (String.eqb_spec t ""); cbn; naive_solver.
Qed.

(** [r] succeeds exactly when the requirement is met. *)
Definition checks {A} (r : result EventValidationError A) (req : Requirement) : Prop :=
  (exists a, r = Ok a) <-> meets pay req.

Lemma require_string_meets f : checks (Payload.require_string pay f) (NonEmptyString f).
Proof.
  unfold checks. setoid_rewrite require_string_Ok. cbn. unfold non_empty_string. naive_solver.
Qed.

Lemma bind_checks {A B} (r : result EventValidationError A) (k : A -> result EventValidationError B)
    req P :
  checks r req -> (forall a, r = Ok a -> (exists b, k a = Ok b) <-> P) ->
  (exists b, r ≫= k = Ok b) <-> meets pay req /\ P.
Proof.
  unfold checks. intros Hr Hk. rewrite <- Hr. destruct r as [a| |]; cbn.
  - rewrite (Hk a eq_refl). naive_solver.
  - naive_solver.
  - naive_solver.
Qed.

Lemma optional_string_checks f : checks (Payload.optional_string pay f) (OptionalString f).
Proof.
  unfold checks, Payload.optional_string, obj_has. cbn.
  destruct (obj_get pay f) as [v|] eqn:Hv; [|naive_solver].
  pose proof (require_string_meets f) as Hr. unfold checks in Hr. cbn in Hr. rewrite Hv in Hr.
  destruct (Payload.require_string pay f); cbn; naive_solver.
Qed.

Lemma token_Ok {A} (all : list A) as_str value :
  is_ok (token_try_from all as_str value) = true <-> value ∈ map as_str all.
Proof.
  unfold token_try_from. induction all as [|a all IH]; cbn; [by rewrite elem_of_nil|].
  rewrite elem_of_cons. destruct (String.eqb_spec (as_str a) value); naive_solver.
Qed.

Lemma phase_kind_checks :
  checks (Payload.require_phase_kind pay) (OneOf "phase_kind" ["leaf"; "composite"]).
Proof.
  unfold checks, Payload.require_phase_kind. cbn.
  assert (forall s, is_ok (phase_kind_try_from s) = true <-> s ∈ ["leaf"; "composite"]) as Ht
    by (intros s; apply (token_Ok phase_kind_all phase_kind_as_str)).
  split.
  - intros [u H]. inv_ok. apply require_string_Ok in Hx as [Hx _].
    destruct (is_ok (phase_kind_try_from x)) eqn:Hk; [|done]. apply Ht in Hk. eauto.
  - intros (s & Hs & Hin).
    rewrite (proj2 (require_string_Ok "phase_kind" s))
      by (split; [done|]; intros ->; by apply Ht in Hin).
    cbn. apply Ht in Hin. rewrite Hin. eauto.
Qed.

Lemma optional_phase_kind_checks :
  checks (Payload.optional_phase_kind pay) (OptionalOneOf "phase_kind" ["leaf"; "composite"]).
Proof.
  pose proof phase_kind_checks as H. unfold checks, Payload.optional_phase_kind, obj_has in *.
  cbn in *. destruct (obj_get pay "phase_kind"); [|naive_solver]. rewrite H. naive_solver.
Qed.

Lemma role_checks :
  checks (Payload.require_role pay) (OneOf "role" ["system"; "user"; "assistant"; "tool"]).
Proof.
  unfold checks, Payload.require_role. cbn. split.
  - intros [u H]. inv_ok. apply require_string_Ok in Hx as [Hx _].
    case_bool_decide; [|done]. eauto.
  - intros (s & Hs & Hin).
    rewrite (proj2 (require_string_Ok "role" s)) by (split; [done|]; intros ->; set_solver).
    cbn. rewrite bool_decide_eq_true_2 by done. eauto.
Qed.

Lemma positive_integer_checks f :
  checks (Payload.require_positive_integer pay f) (PositiveInteger f).
Proof.
  unfold checks, Payload.require_positive_integer. cbn.
  destruct (obj_get pay f) as [[| |[n|n|n]| | |]|]; cbn; try naive_solver.
  destruct (Z.ltb_spec 0 n); split.
  - intros _. eauto.
  - eauto.
  - intros [? ?]. done.
  - intros (m & [= ->] & Hm). lia.
Qed.

Lemma optional_integer_checks f : checks (Payload.optional_integer pay f) (OptionalInteger f).
Proof.
  unfold checks, Payload.optional_integer. cbn.
  destruct (obj_get pay f) as [[| |[n|n|n]| | |]|]; cbn -[Z.leb]; try naive_solver.
  destruct (n <=? i64_max); cbn; naive_solver.
Qed.

Lemma string_array_checks f : checks (Payload.require_string_array pay f) (StringArray f).
Proof.
  unfold checks, Payload.require_string_array, Payload.string_array. cbn.
  destruct (obj_get pay f) as [[| | | |vs|]|]; cbn; try naive_solver. split.
  - intros [ss H]. exists ss. do 2 f_equal. revert ss H.
    induction vs as [|v vs IH]; intros ss H; cbn in H; inv_ok; [done|].
    destruct v; try done. injection Hx as ->. cbn. f_equal. by apply IH.
  - intros [ss [= ->]]. exists ss. induction ss as [|s ss IH]; [done|]. cbn. by rewrite IH.
Qed.

Lemma number_checks f : checks (Payload.require_number pay f) (ANumber f).
Proof.
  unfold checks, Payload.require_number. cbn.
  destruct (obj_get pay f) as [[| | | | |]|]; cbn; naive_solver.
Qed.

Lemma optional_object_checks f : checks (Payload.optional_object pay f) (OptionalObject f).
Proof.
  unfold checks, Payload.optional_object. cbn.
  destruct (obj_get pay f) as [[| | | | |]|]; cbn; naive_solver.
Qed.

Lemma flow_value_checks f : checks (Payload.require_flow_value pay f) (BoundedFlowValue f).
Proof.
  unfold checks, Payload.require_flow_value. cbn [meets].
  destruct (obj_get pay f) as [v|]; [|naive_solver].
  destruct (validate_flow_value_v0 v) as [[]|e|] eqn:Hv; cbn [is_ok]; split.
  - eauto.
  - eauto.
  - by intros [? ?].
  - intros (w & [= <-] & Hw). by rewrite Hv in Hw.
  - by intros [? ?].
  - intros (w & [= <-] & Hw). by rewrite Hv in Hw.
Qed.
End contract.

Create HintDb payload_contract.
#[export] Hint Resolve require_string_meets optional_string_checks phase_kind_checks
  optional_phase_kind_checks role_checks positive_integer_checks optional_integer_checks
  string_array_checks number_checks optional_object_checks flow_value_checks
  : payload_contract.

Section payload_spec.
Context {J : JsonEnv}.

Lemma checks_last {A} pay (r : result EventValidationError A) req :
  checks pay r req -> (exists a, r = Ok a) <-> Forall (meets pay) [req].
Proof. unfold checks. intros ->. rewrite Forall_singleton. done. Qed.

Lemma checks_cons {A B} pay (r : result EventValidationError A)
    (k : A -> result EventValidationError B) req reqs :
  checks pay r req -> (forall a, r = Ok a -> (exists b, k a = Ok b) <-> Forall (meets pay) reqs) ->
  (exists b, r ≫= k = Ok b) <-> Forall (meets pay) (req :: reqs).
Proof. intros. rewrite Forall_cons. by apply bind_checks. Qed.

Lemma checks_done pay : (exists u : unit, Ok (E:=EventValidationError) tt = Ok u) <-> Forall (meets pay) [].
Proof. split; [constructor|by exists tt]. Qed.

Lemma tool_kind_checks pay :
  (exists b : unit,
     (tool_kind ← Payload.require_string pay "tool_kind";
      if negb (is_ok (tool_kind_try_from tool_kind))
      then Err (Payload.error "tool_kind" "must be predefined-command or own-script")
      else _ ← Payload.require_string_array pay "allowed_parameters"; Ok tt) = Ok b) <->
  Forall (meets pay) [OneOf "tool_kind" ["predefined-command"; "own-script"];
                      StringArray "allowed_parameters"].
Proof.
  assert (forall s, is_ok (tool_kind_try_from s) = true <-> s ∈ ["predefined-command"; "own-script"])
    as Ht by (intros s; apply (token_Ok tool_kind_all tool_kind_as_str)).
  pose proof (string_array_checks pay "allowed_parameters") as Ha. unfold checks in Ha.
  rewrite !Forall_cons, <- Ha. split.
  - intros [b H]. inv_ok. apply require_string_Ok in Hx as [Hx _].
    apply negb_false_iff, Ht in Hb. split; [cbn; eauto|]. split; [eauto|constructor].
  - intros ((s & Hs & Hin) & [ss Hss] & _).
    rewrite (proj2 (require_string_Ok pay "tool_kind" s))
      by (split; [done|]; intros ->; by apply Ht in Hin).
    cbn. apply Ht in Hin. rewrite Hin. cbn. rewrite Hss. cbn. eauto.
Qed.

Lemma find_none_Forall {A} (p : A -> bool) l :
  List.find p l = None <-> Forall (fun a => p a = false) l.
Proof.
  induction l as [|a l IH]; cbn; [by split; constructor|]. rewrite Forall_cons.
  destruct (p a) eqn:Hp; naive_solver.
Qed.

Lemma only_fields_checks fs pay :
  List.find (fun k => negb (bool_decide (k ∈ fs))) (map fst pay) = None <->
  meets pay (OnlyFields fs).
Proof.
  rewrite find_none_Forall. cbn. split; intros H; eapply Forall_impl; try exact H;
    intros k; cbn; rewrite negb_false_iff; by rewrite bool_decide_eq_true.
Qed.

Lemma payload_validate_contract t pay :
  (exists u, Payload.validate pay t = Ok u) <-> Forall (meets pay) (contract t).
Proof.
  destruct t; cbn [contract]; unfold Payload.validate;
    try (solve [repeat first
      [ apply checks_done
      | apply checks_last; solve [eauto with payload_contract]
      | apply checks_cons; [solve [eauto with payload_contract]|]; intros ? _ ]]).
  rewrite Forall_cons, <- only_fields_checks.
  change ["tool_id"; "tool_kind"; "tool_name"; "allowed_parameters"; "attempt_id"]
    with Payload.tool_started_fields.
  destruct (List.find _ _); [naive_solver|].
  transitivity (Forall (meets pay)
    [OptionalString "attempt_id"; NonEmptyString "tool_id"; NonEmptyString "tool_name";
     OneOf "tool_kind" ["predefined-command"; "own-script"]; StringArray "allowed_parameters"]);
    [|naive_solver].
  do 3 (apply checks_cons; [eauto with payload_contract|]; intros ? _).
  apply tool_kind_checks.
Qed.

Lemma require_string_no_panic pay f : Payload.require_string pay f <> Panic.
Proof. unfold Payload.require_string. no_panic. Qed.
Hint Resolve require_string_no_panic : no_panic.

Lemma payload_validate_no_panic pay t : Payload.validate pay t <> Panic.
Proof.
  destruct t; unfold Payload.validate, Payload.optional_string, Payload.require_phase_kind,
    Payload.optional_phase_kind, Payload.require_phase_kind, Payload.require_role,
    Payload.require_string_array, Payload.string_array, Payload.optional_integer,
    Payload.require_positive_integer, Payload.require_number, Payload.optional_object,
    Payload.require_flow_value; no_panic.
Qed.

(** the payload checks of every event type accept exactly the payloads that meet the
    contract table of that type, and every payload object gets an answer. *)
Theorem payload_contract_exact t pay :
  (validate_event_payload t (JObject pay) = Ok tt <-> Forall (meets pay) (contract t)) /\
  validate_event_payload t (JObject pay) <> Panic.
Proof.
  split; [|apply payload_validate_no_panic].
  rewrite <- payload_validate_contract. unfold validate_event_payload. cbn. split.
  - eauto.
  - by intros [[] H].
Qed.
End payload_spec.

#[export] Hint Resolve payload_validate_no_panic : no_panic.

(** * What validation accepts *)

Fixpoint no_nulls (v : Value) : Prop :=
  match v with
  | JNull => False
  | JArray vs => foldr and True (map no_nulls vs)
  | JObject fs => foldr and True (map (fun '(_, v) => no_nulls v) fs)
  | _ => True
  end.

Lemma find_map_index_None {A B} (f : Z -> A -> option B) index l (P : A -> Prop) :
  Forall (fun a => forall i, f i a = None <-> P a) l ->
  find_map_index f index l = None <-> Forall P l.
Proof.
  intros H. revert index. induction H as [|a l Ha _ IH]; intros index; cbn; [by split; constructor|].
  rewrite Forall_cons, <- (IH (index + 1)), <- (Ha index). destruct (f index a); naive_solver.
Qed.

Lemma find_map_None {A B} (f : A -> option B) l (P : A -> Prop) :
  Forall (fun a => f a = None <-> P a) l -> find_map f l = None <-> Forall P l.
Proof.
  induction 1 as [|a l Ha _ IH]; cbn; [by split; constructor|].
  rewrite Forall_cons, <- IH, <- Ha. destruct (f a); naive_solver.
Qed.

Lemma null_location_None v : forall location, null_location v location = None <-> no_nulls v.
Proof.
  induction v as [|b|n|s|vs IH|fs IH] using Value_ind'; intros location; cbn; try naive_solver.
  - rewrite foldr_and_Forall. apply find_map_index_None.
    eapply Forall_impl; [exact IH|]. cbn. auto.
  - rewrite foldr_and_fields. apply find_map_None.
    eapply Forall_impl; [exact IH|]. intros [k v] Hv. apply Hv.
Qed.

Section validation_spec.
Context {J : JsonEnv}.

(** Strings and keys are in normal form at every depth. *)
Fixpoint all_nfc (v : Value) : Prop :=
  match v with
  | JString s => is_nfc s = true
  | JArray vs => foldr and True (map all_nfc vs)
  | JObject fs =>
      Forall (fun kv => is_nfc kv.1 = true) fs /\ foldr and True (map (fun '(_, v) => all_nfc v) fs)
  | _ => True
  end.

Lemma non_nfc_location_None v : forall location, non_nfc_location v location = None <-> all_nfc v.
Proof.
  induction v as [|b|n|s|vs IH|fs IH] using Value_ind'; intros location; cbn; try naive_solver.
  - destruct (is_nfc s); naive_solver.
  - rewrite foldr_and_Forall. apply find_map_index_None.
    eapply Forall_impl; [exact IH|]. cbn. auto.
  - rewrite foldr_and_fields, <- Forall_and. apply find_map_None.
    eapply Forall_impl; [exact IH|]. intros [k v] Hv. cbn in *.
    destruct (is_nfc k); cbn; [rewrite Hv|]; naive_solver.
Qed.

Record valid_event (e : EventEnvelope) : Prop := {
  ve_sequence : sequence e <> 0;
  ve_session : is_valid_session_id (session_id e) = true;
  ve_id : event_id e <> "";
  ve_source : source e <> "";
  ve_time : is_Some (parse_rfc3339_utc_timestamp (timestamp e));
  ve_options : correlation_id e <> Some "" /\ flow_id e <> Some "" /\ parent_flow_id e <> Some "";
  ve_parent : is_Some (parent_flow_id e) -> is_Some (flow_id e);
  ve_flow : requires_flow_id (event_type e) = true -> is_Some (flow_id e);
  ve_version : protocol_version e = "0";
  ve_reserved : Forall (fun kv => kv.1 ∉ reserved_envelope_fields) (additional_fields e);
  ve_height : json_height (payload e) < 127;
  ve_heights : Forall (fun kv => json_height kv.2 < 127) (additional_fields e);
  ve_nulls : no_nulls (payload e) /\ Forall (fun kv => no_nulls kv.2) (additional_fields e);
  ve_nfc : Forall (fun kv => is_nfc kv.1 = true /\ all_nfc kv.2) (additional_fields e);
  ve_payload : exists pay, payload e = JObject pay /\ Forall (meets pay) (contract (event_type e));
}.

Lemma is_empty_spec s : is_empty s = false <-> s <> "".
Proof. apply String.eqb_neq. Qed.

Lemma option_empty_spec o : is_some_and o is_empty = false <-> o <> Some "".
Proof. destruct o as [s|]; cbn; [rewrite is_empty_spec|]; naive_solver. Qed.

Lemma is_none_spec {A} (o : option A) : is_none o = false <-> is_Some o.
Proof. destruct o; cbn; split; [by eexists|done|done|by intros [? ?]]. Qed.

Lemma validate_metadata_Ok e :
  validate_metadata e = Ok tt <->
  sequence e <> 0 /\ is_valid_session_id (session_id e) = true /\ event_id e <> "" /\
  source e <> "" /\ is_Some (parse_rfc3339_utc_timestamp (timestamp e)) /\
  correlation_id e <> Some "" /\ flow_id e <> Some "" /\ parent_flow_id e <> Some "".
Proof.
  unfold validate_metadata.
  rewrite <- !option_empty_spec, <- is_none_spec, <- !is_empty_spec, <- Z.eqb_neq.
  destruct (sequence e =? 0); [naive_solver|].
  destruct (is_valid_session_id _); [|naive_solver].
  destruct (is_empty (event_id e)); [naive_solver|].
  destruct (is_empty (source e)); [naive_solver|].
  destruct (is_none _); [naive_solver|].
  destruct (is_some_and (correlation_id e) _); [naive_solver|].
  destruct (is_some_and (flow_id e) _); [naive_solver|].
  destruct (is_some_and (parent_flow_id e) _); naive_solver.
Qed.

Lemma nesting_1 v : json_nesting_reaches_limit v 1 = false <-> json_height v < 127.
Proof. rewrite json_nesting_is_height_lemma. pose proof (json_height_nonneg v). lia. Qed.

Lemma implies_test (b : bool) (o : option string) :
  b && is_none o = false <-> (b = true -> is_Some o).
Proof. rewrite <- is_none_spec. destruct b, (is_none o); cbn; naive_solver. Qed.

Lemma reserved_test (fs : list (string * Value)) :
  List.find is_reserved_envelope_field (map fst fs) = None <->
  Forall (fun kv => kv.1 ∉ reserved_envelope_fields) fs.
Proof.
  rewrite find_none_Forall, Forall_map. unfold is_reserved_envelope_field.
  split; intros H; (eapply Forall_impl; [exact H|]); intros kv; cbn;
    by rewrite bool_decide_eq_false.
Qed.

Lemma checks_Forall {A} (f : A -> result EventValidationError unit) (P : A -> Prop) l :
  (forall a, f a = Ok tt <-> P a) -> try_for_each f l = Ok tt <-> Forall P l.
Proof.
  intros H. rewrite try_for_each_Ok.
  split; intros Hl; (eapply Forall_impl; [exact Hl|]); intros a; cbn; apply H.
Qed.

Lemma check_nesting_Ok kv : check_nesting kv = Ok tt <-> json_height kv.2 < 127.
Proof. unfold check_nesting. rewrite <- nesting_1. by destruct (json_nesting_reaches_limit _ _). Qed.

Lemma check_null_Ok kv : check_null kv = Ok tt <-> no_nulls kv.2.
Proof. unfold check_null. rewrite <- (null_location_None _ kv.1). by destruct (null_location _ _). Qed.

Lemma check_nfc_Ok kv : check_nfc kv = Ok tt <-> is_nfc kv.1 = true /\ all_nfc kv.2.
Proof.
  unfold check_nfc. rewrite <- (non_nfc_location_None _ kv.1).
  destruct (is_nfc kv.1); cbn; [destruct (non_nfc_location _ _)|]; naive_solver.
Qed.

Lemma payload_Ok t v :
  is_object v = true /\ validate_event_payload t v = Ok tt <->
  exists pay, v = JObject pay /\ Forall (meets pay) (contract t).
Proof.
  setoid_rewrite <- payload_validate_contract. unfold validate_event_payload.
  destruct v as [| | | | |pay]; cbn; try naive_solver. split.
  - intros [_ H]. eauto.
  - by intros (? & [= <-] & [[] ?]).
Qed.

Lemma validate_v0_valid e : validate_v0 e = Ok tt -> valid_event e.
Proof.
  unfold validate_v0. intros H. inv_ok. destruct x.
  destruct (validate_metadata e) as [[]| |] eqn:Hm; try done.
  apply validate_metadata_Ok in Hm as (? & ? & ? & ? & ? & Ho).
  destruct (List.find _ _) eqn:Hr; [done|]. inv_ok.
  destruct (null_location _ _) eqn:Hnull; [done|]. inv_ok. destruct x, x0, x1.
  rewrite implies_test in Hb, Hb0. apply negb_false_iff in Hb1, Hb2.
  constructor; try done.
  - intros Hp. apply Hb. by destruct (parent_flow_id e), Hp.
  - by apply String.eqb_eq.
  - by apply reserved_test.
  - by apply nesting_1.
  - eapply checks_Forall; [apply check_nesting_Ok|done].
  - split; [by apply null_location_None in Hnull|].
    eapply checks_Forall; [apply check_null_Ok|done].
  - eapply checks_Forall; [apply check_nfc_Ok|done].
  - by apply payload_Ok.
Qed.

Lemma valid_event_validate e : valid_event e -> validate_v0 e = Ok tt.
Proof.
  intros []. unfold validate_v0.
  rewrite (proj2 (validate_metadata_Ok e)) by (split_and!; naive_solver). cbn [map_err mbind result_bind].
  rewrite (proj2 (implies_test (is_some (parent_flow_id e)) (flow_id e))).
  2: { intros Hp. apply ve_parent0. by destruct (parent_flow_id e). }
  rewrite (proj2 (implies_test _ _)) by done.
  apply payload_Ok in ve_payload0 as [Hobj Hpay]. rewrite Hobj. cbn [negb].
  rewrite ve_version0. change (String.eqb "0" PROTOCOL_VERSION_V0) with true. cbn [negb].
  rewrite (proj2 (reserved_test _)) by done.
  rewrite (proj2 (nesting_1 _)) by done.
  rewrite (proj2 (checks_Forall _ _ _ check_nesting_Ok)) by done. cbn [mbind result_bind].
  rewrite (proj2 (null_location_None _ _)) by naive_solver.
  rewrite (proj2 (checks_Forall _ _ _ check_null_Ok)) by naive_solver. cbn [mbind result_bind].
  by rewrite (proj2 (checks_Forall _ _ _ check_nfc_Ok)).
Qed.

Lemma validate_v0_no_panic e : validate_v0 e <> Panic.
Proof.
  assert (forall kv, check_nesting kv <> Panic) by (intros; unfold check_nesting; no_panic).
  assert (forall kv, check_null kv <> Panic) by (intros; unfold check_null; no_panic).
  assert (forall kv, check_nfc kv <> Panic) by (intros; unfold check_nfc; no_panic).
  assert (validate_metadata e <> Panic) by
    (unfold validate_metadata; by destruct (if _ =? _ then _ else _) as [[? ?]|]).
  unfold validate_v0, validate_event_payload. no_panic.
  by destruct (payload e).
Qed.

(** stream-independent validation accepts exactly the events that meet every v0 rule
    (metadata, flow ids, version, reserved names, nesting, nulls, normal form, payload
    contract), and gives an answer for every envelope. *)
Theorem validate_v0_exact e :
  (validate_v0 e = Ok tt <-> valid_event e) /\ validate_v0 e <> Panic.
Proof.
  split; [split; [apply validate_v0_valid|apply valid_event_validate]|].
  apply validate_v0_no_panic.
Qed.
End validation_spec.

(** * Writing and reading back *)

Lemma insert_entries_get entries fields k :
  obj_get (insert_entries entries fields) k =
    match obj_get (rev entries) k with Some v => Some v | None => obj_get fields k end.
Proof.
  unfold insert_entries. revert fields.
  induction entries as [|[k' v'] entries IH]; intros fields; cbn [foldl rev]; [done|].
  rewrite IH, obj_get_insert, obj_get_app. cbn.
  destruct (obj_get (rev entries) k); [done|]. rewrite String.eqb_sym. by case_match.
Qed.

Lemma insert_entries_increasing entries fields :
  keys_increasing fields -> keys_increasing (insert_entries entries fields).
Proof.
  unfold insert_entries. revert fields.
  induction entries as [|[k v] entries IH]; intros fields Hf; cbn; [done|].
  by apply IH, obj_insert_increasing.
Qed.

Section round_trip.
Context {J : JsonEnv}.

(** Normalization changes nothing in the event. *)
Record event_nfc (e : EventEnvelope) : Prop := {
  en_strings : Forall (fun s => nfc s = s)
    [event_id e; session_id e; source e; timestamp e; protocol_version e];
  en_options : nfc_string <$> correlation_id e = correlation_id e /\
    nfc_string <$> flow_id e = flow_id e /\ nfc_string <$> parent_flow_id e = parent_flow_id e;
  en_payload : nfc_json_string_values (payload e) = payload e;
}.

Definition read_back (e : EventEnvelope) (k : string) (v : Value) : Prop :=
  obj_get (insert_entries (event_entries e) []) k = Some v.

Lemma obj_get_reserved_None (fs : list (string * Value)) k :
  Forall (fun kv => kv.1 ∉ reserved_envelope_fields) fs -> k ∈ reserved_envelope_fields ->
  obj_get fs k = None.
Proof.
  intros Hf Hk. induction Hf as [|[k' v] fs Hk' _ IH]; cbn; [done|].
  destruct (String.eqb_spec k' k) as [->|]; [done|exact IH].
Qed.

Definition envelope_entries (e : EventEnvelope) : list (string * Value) :=
  optional_entry "correlation_id" (correlation_id e)
  ++ [("event_id", JString (event_id e));
      ("event_type", JString (event_type_as_str (event_type e)))]
  ++ optional_entry "flow_id" (flow_id e)
  ++ optional_entry "parent_flow_id" (parent_flow_id e)
  ++ [("payload", payload e);
      ("protocol_version", JString (protocol_version e));
      ("sequence", JNumber (PosInt (sequence e)));
      ("session_id", JString (session_id e));
      ("source", JString (source e));
      ("timestamp", JString (timestamp e))].

Lemma obj_get_rev_None (fs : list (string * Value)) k :
  obj_get (rev fs) k = None <-> obj_get fs k = None.
Proof.
  induction fs as [|[k' v] fs IH]; [done|]. cbn. rewrite obj_get_app. cbn.
  destruct (obj_get (rev fs) k) as [w|]; destruct (String.eqb k' k); naive_solver.
Qed.

Lemma serialized_get e k :
  Forall (fun kv => kv.1 ∉ reserved_envelope_fields) (additional_fields e) ->
  k ∈ reserved_envelope_fields ->
  obj_get (insert_entries (event_entries e) []) k = obj_get (rev (envelope_entries e)) k.
Proof.
  intros Hf Hk. rewrite insert_entries_get. unfold event_entries.
  change (additional_fields e ++ _) with (additional_fields e ++ envelope_entries e).
  rewrite rev_app_distr, obj_get_app.
  rewrite (proj2 (obj_get_rev_None (additional_fields e) k)) by (by apply obj_get_reserved_None).
  by destruct (obj_get _ _).
Qed.

Lemma obj_get_rev_unique (fs : list (string * Value)) k :
  NoDup (map fst fs) -> obj_get (rev fs) k = obj_get fs k.
Proof.
  induction fs as [|[k' v] fs IH]; [done|]. cbn. intros [Hn Hnd]%NoDup_cons.
  rewrite obj_get_app, IH by done. cbn.
  destruct (String.eqb_spec k' k) as [->|]; [|by destruct (obj_get fs k)].
  assert (obj_get fs k = None) as ->; [|done].
  clear -Hn. induction fs as [|[k' v'] fs IH]; cbn in *; [done|].
  destruct (String.eqb_spec k' k) as [->|]; [set_solver|]. apply IH. set_solver.
Qed.

Lemma envelope_entries_reserved e :
  Forall (fun kv => kv.1 ∈ reserved_envelope_fields) (envelope_entries e).
Proof.
  unfold envelope_entries, optional_entry, reserved_envelope_fields.
  destruct (correlation_id e), (flow_id e), (parent_flow_id e); cbn;
    repeat constructor; cbn; set_solver.
Qed.

Lemma flattened_serialized e :
  keys_increasing (additional_fields e) ->
  Forall (fun kv => kv.1 ∉ reserved_envelope_fields) (additional_fields e) ->
  flattened (insert_entries (event_entries e) []) = additional_fields e.
Proof.
  intros Hk Hf. unfold flattened.
  apply keys_increasing_ext; [|done|].
  { apply filter_increasing, insert_entries_increasing. constructor. }
  intros k.
  rewrite (obj_get_filter (fun k => negb (is_reserved_envelope_field k))).
  unfold is_reserved_envelope_field. case_bool_decide as Hin; cbn [negb].
  { symmetry. by apply obj_get_reserved_None. }
  rewrite insert_entries_get. unfold event_entries.
  change (additional_fields e ++ _) with (additional_fields e ++ envelope_entries e).
  rewrite rev_app_distr, obj_get_app.
  assert (obj_get (rev (envelope_entries e)) k = None) as ->.
  { apply obj_get_rev_None. pose proof (envelope_entries_reserved e) as Hr. revert Hr.
    generalize (envelope_entries e). induction 1 as [|[k' v] fs Hk' _ IH]; cbn; [done|].
    by destruct (String.eqb_spec k' k) as [->|]. }
  rewrite obj_get_rev_unique by (by apply keys_increasing_NoDup).
  by destruct (obj_get _ _).
Qed.

Lemma event_type_read t : as_event_type (JString (event_type_as_str t)) = Some t.
Proof. by destruct t. Qed.

Lemma read_field_serialized {A} (f : Value -> option A) e k :
  Forall (fun kv => kv.1 ∉ reserved_envelope_fields) (additional_fields e) ->
  k ∈ reserved_envelope_fields ->
  read_field f (insert_entries (event_entries e) []) k = read_field f (rev (envelope_entries e)) k.
Proof. intros Hf Hk. unfold read_field. by rewrite serialized_get. Qed.

Lemma unchecked_event_serialized e :
  keys_increasing (additional_fields e) -> valid_event e ->
  unchecked_event (insert_entries (event_entries e) []) = Ok e.
Proof.
  intros Hk He. pose proof (ve_reserved e He) as Hf. pose proof (ve_version e He) as Hv.
  destruct (ve_payload e He) as (pay & Hp & _).
  unfold unchecked_event. rewrite flattened_serialized by done.
  rewrite !read_field_serialized by (done || unfold reserved_envelope_fields; set_solver).
  destruct e as [add corr id type flow parent payv version seq session src time]. cbn in *.
  subst payv version.
  by destruct corr, flow, parent, type.
Qed.

Lemma event_try_from_nfc e : event_nfc e -> valid_event e -> event_try_from e = Ok e.
Proof.
  intros [Hs (Ho1 & Ho2 & Ho3) Hp] He. unfold event_try_from.
  rewrite Ho1, Ho2, Ho3, Hp, !nfc_string_nfc.
  repeat (apply Forall_cons in Hs as [-> Hs]).
  assert ({| additional_fields := additional_fields e; correlation_id := correlation_id e;
     event_id := event_id e; event_type := event_type e; flow_id := flow_id e;
     parent_flow_id := parent_flow_id e; payload := payload e;
     protocol_version := protocol_version e; sequence := sequence e;
     session_id := session_id e; source := source e; timestamp := timestamp e |} = e) as ->
    by (by destruct e).
  by rewrite valid_event_validate.
Qed.

Lemma event_of_value_serialized e :
  keys_increasing (additional_fields e) -> event_nfc e -> valid_event e ->
  event_of_value (serialize_fields e) = Ok e.
Proof.
  intros Hk Hn He. unfold event_of_value, serialize_fields. cbn [as_object ok_or mbind result_bind].
  rewrite unchecked_event_serialized by done. cbn [mbind result_bind].
  by rewrite event_try_from_nfc.
Qed.
End round_trip.

Section reading_spec.
Context {J : JsonEnv} {JL : JsonLaws}.

Lemma nfc_string_idem s : nfc_string (nfc_string s) = nfc_string s.
Proof. by rewrite !nfc_string_nfc, nfc_idem. Qed.

Lemma nfc_values_idem v :
  nfc_json_string_values (nfc_json_string_values v) = nfc_json_string_values v.
Proof.
  induction v as [|b|n|s|vs IH|fs IH] using Value_ind'; cbn -[is_nfc]; try done.
  - change (JString (nfc_string (nfc_string s)) = JString (nfc_string s)).
    by rewrite nfc_string_idem.
  - f_equal. rewrite map_map. by apply map_ext_Forall.
  - f_equal. rewrite map_map. apply map_ext_Forall. eapply Forall_impl; [exact IH|].
    intros [k v]. cbn. by intros ->.
Qed.

Lemma option_nfc_idem (o : option string) :
  nfc_string <$> (nfc_string <$> o) = nfc_string <$> o.
Proof. destruct o; cbn; [by rewrite nfc_string_idem|done]. Qed.

Lemma event_try_from_Ok u e :
  event_try_from u = Ok e ->
  validate_v0 e = Ok tt /\ event_nfc e /\ additional_fields e = additional_fields u.
Proof.
  unfold event_try_from. intros H. inv_ok. destruct x. split_and!; [done| |done].
  constructor; cbn.
  - repeat constructor; rewrite nfc_string_nfc; apply nfc_idem.
  - rewrite !option_nfc_idem. done.
  - apply nfc_values_idem.
Qed.

Lemma event_of_value_Ok v e :
  wf_json v -> event_of_value v = Ok e ->
  validate_v0 e = Ok tt /\ event_nfc e /\ keys_increasing (additional_fields e).
Proof.
  intros Hw H. unfold event_of_value in H. inv_ok. destruct v; try done. injection Hx as ->.
  destruct (event_try_from x0) as [e'| |] eqn:He; try done. cbn in H. inv_ok.
  apply event_try_from_Ok in He as (? & ? & Ha). split_and!; [done..|].
  rewrite Ha. unfold unchecked_event in Hx0. inv_ok. cbn.
  apply filter_increasing. cbn in Hw. naive_solver.
Qed.

(** an event that was read is valid and normalized, and writing it and reading the
    result gives the same event back. *)
Theorem event_read_write_read r e :
  deserialize_event r = Ok e ->
  validate_v0 e = Ok tt /\ event_nfc e /\
  serialize_event e = Ok (serialize_fields e) /\ event_of_value (serialize_fields e) = Ok e.
Proof.
  unfold deserialize_event. intros H. inv_ok.
  destruct (unique_json r) as [v| |] eqn:Hr; try done. cbn in Hx. inv_ok.
  destruct (event_of_value_Ok x e) as (Hv & Hn & Hk); [by eapply unique_json_wf_lemma|done|].
  split_and!; [done..| |].
  - unfold serialize_event. by rewrite Hv.
  - by apply event_of_value_serialized, validate_v0_valid.
Qed.

(** * The canonical line *)

Lemma insert_entries_elems entries fields :
  Forall (fun kv => kv ∈ entries ++ fields) (insert_entries entries fields).
Proof.
  unfold insert_entries. revert fields.
  induction entries as [|[k v] entries IH]; intros fields; cbn.
  { apply Forall_forall. done. }
  eapply Forall_impl; [apply IH|]. intros kv [Hkv|Hkv]%elem_of_app; [set_solver|].
  pose proof (obj_insert_keys k v fields) as Hi. rewrite Forall_forall in Hi.
  specialize (Hi _ Hkv). set_solver.
Qed.

(** A value as [serde_json] builds it. *)
Definition fields_wf (e : EventEnvelope) : Prop :=
  keys_increasing (additional_fields e) /\
  Forall (fun kv => wf_json kv.2) (additional_fields e).

Lemma all_nfc_distinct v : wf_json v -> all_nfc v -> distinct_keys v.
Proof.
  induction v as [|b|n|s|vs IH|fs IH] using Value_ind'; cbn; try done.
  - rewrite !foldr_and_Forall, !Forall_forall in *. eauto.
  - rewrite !foldr_and_fields. intros [Hk Hw] [Hn Ha]. split.
    + replace (map (fun kv => nfc kv.1) fs) with (map fst fs) by
        (apply map_ext_Forall; eapply Forall_impl; [exact Hn|]; intros kv E%is_nfc_eq; done).
      by apply keys_increasing_NoDup.
    + rewrite !Forall_forall in *. intros kv Hin. apply IH; auto.
Qed.

Lemma envelope_values e :
  Forall (fun kv => kv.2 = payload e \/ json_height kv.2 = 0 /\ distinct_keys kv.2)
    (envelope_entries e).
Proof.
  unfold envelope_entries, optional_entry.
  destruct (correlation_id e), (flow_id e), (parent_flow_id e); cbn [app];
    repeat (apply Forall_cons; split; [first [by left|by right]|]); constructor.
Qed.

Lemma reserved_nfc k : k ∈ reserved_envelope_fields -> nfc k = k.
Proof.
  intros Hk. apply nfc_ascii. unfold reserved_envelope_fields in Hk.
  repeat (apply elem_of_cons in Hk as [->|Hk]; [reflexivity|]). by apply elem_of_nil in Hk.
Qed.

Lemma serialized_entry_cases e kv :
  kv ∈ insert_entries (event_entries e) [] ->
  kv ∈ additional_fields e \/ kv ∈ envelope_entries e.
Proof.
  intros Hin. pose proof (insert_entries_elems (event_entries e) []) as H.
  rewrite Forall_forall in H. specialize (H _ Hin). rewrite app_nil_r in H.
  by apply elem_of_app in H.
Qed.

Lemma serialized_height e : valid_event e -> json_height (serialize_fields e) < 128.
Proof.
  intros He. unfold serialize_fields. cbn -[Z.add insert_entries].
  enough (foldr Z.max 0 (map (fun '(_, v) => json_height v) (insert_entries (event_entries e) [])) <= 126)
    by lia.
  rewrite map_snd_fields. apply max_le; [done|]. rewrite !Forall_map, Forall_forall.
  intros kv [Hkv|Hkv]%serialized_entry_cases; cbn.
  - pose proof (ve_heights e He) as H. rewrite Forall_forall in H. specialize (H _ Hkv). cbn in H. lia.
  - pose proof (ve_height e He). pose proof (envelope_values e) as H'. rewrite Forall_forall in H'.
    destruct (H' _ Hkv) as [->|[-> _]]; lia.
Qed.

Lemma serialized_distinct e :
  fields_wf e -> valid_event e ->
  distinct_keys (serialize_fields e) <-> distinct_keys (payload e).
Proof.
  intros [Hk Hw] He. pose proof (ve_nfc e He) as Hn. unfold serialize_fields. cbn -[insert_entries].
  rewrite foldr_and_fields. split.
  - intros [_ Hd]. rewrite Forall_forall in Hd.
    pose proof (serialized_get e "payload" (ve_reserved e He)
      ltac:(unfold reserved_envelope_fields; set_solver)) as Hget.
    assert (obj_get (rev (envelope_entries e)) "payload" = Some (payload e)) as Hp
      by (unfold envelope_entries, optional_entry;
          by destruct (correlation_id e), (flow_id e), (parent_flow_id e)).
    rewrite Hp in Hget. apply obj_get_elem in Hget. exact (Hd _ Hget).
  - intros Hp. rewrite !Forall_forall in *. split.
    + replace (map (fun kv => nfc kv.1) (insert_entries (event_entries e) []))
        with (map fst (insert_entries (event_entries e) [])).
      { apply keys_increasing_NoDup, insert_entries_increasing. constructor. }
      apply map_ext_Forall, Forall_forall. intros kv [Hkv|Hkv]%serialized_entry_cases.
      * symmetry. by apply is_nfc_eq, Hn.
      * symmetry. apply reserved_nfc. pose proof (envelope_entries_reserved e) as Hr.
        rewrite Forall_forall in Hr. by apply Hr.
    + intros kv [Hkv|Hkv]%serialized_entry_cases.
      * apply all_nfc_distinct; [by apply Hw|by apply Hn].
      * pose proof (envelope_values e) as Hr. rewrite Forall_forall in Hr.
        by destruct (Hr _ Hkv) as [->|[_ ?]].
Qed.

Lemma canonical_jsonl_valid e :
  validate_v0 e = Ok tt ->
  canonical_jsonl e = (out ← canonical_json (serialize_fields e); Ok (out +:+ newline)).
Proof.
  intros Hv. unfold canonical_jsonl. rewrite Hv. apply validate_v0_valid in Hv as He.
  rewrite (ve_version e He). by destruct (ve_payload e He) as (pay & -> & _).
Qed.

(** a valid event has a canonical JSON line unless two keys of an object in its payload
    share their normal form, the one condition validation leaves to the writer. *)
Theorem canonical_jsonl_defined e :
  fields_wf e -> validate_v0 e = Ok tt ->
  ((exists line, canonical_jsonl e = Ok line) <-> distinct_keys (payload e)).
Proof.
  intros Hf Hv. rewrite canonical_jsonl_valid by done. apply validate_v0_valid in Hv.
  rewrite <- serialized_distinct by done.
  pose proof (canonical_json_Ok_iff (serialize_fields e)) as Hc.
  pose proof (serialized_height e Hv).
  destruct (canonical_json (serialize_fields e)) as [text| |]; cbn -[String.append].
  - naive_solver.
  - split; [intros [? ?]; done|]. intros Hd. destruct (proj2 Hc (conj H Hd)). done.
  - split; [intros [? ?]; done|]. intros Hd. destruct (proj2 Hc (conj H Hd)). done.
Qed.
End reading_spec.

(** * Identifiers *)

(** The identifiers an event shows, as a visitor that collects them sees them. *)
Definition payload_identifiers (fields : list (EventStateIdentifierKind * string))
    (pay : list (string * Value)) : list (EventStateIdentifierKind * string) :=
  omap (fun '(kind, f) => (fun value => (kind, value)) <$> (obj_get pay f ≫= as_str)) fields.

Definition optional_identifier (kind : EventStateIdentifierKind) (o : option string)
    : list (EventStateIdentifierKind * string) :=
  match o with Some value => [(kind, value)] | None => [] end.

Definition identifiers (e : EventEnvelope) : list (EventStateIdentifierKind * string) :=
  [(IdEvent, event_id e)] ++ optional_identifier IdFlow (flow_id e)
  ++ optional_identifier IdParentFlow (parent_flow_id e)
  ++ match as_object (payload e) with
     | Some pay => payload_identifiers (state_identifier_fields (event_type e)) pay
     | None => []
     end.

(** Folding a visitor over a list of identifiers. *)
Fixpoint visit_all {S E} (visit : EventStateIdentifierKind -> string -> S -> result E S)
    (ids : list (EventStateIdentifierKind * string)) (s : S) : result E S :=
  match ids with
  | [] => Ok s
  | (kind, value) :: ids => s ← visit kind value s; visit_all visit ids s
  end.

Lemma visit_all_app {S E} (visit : EventStateIdentifierKind -> string -> S -> result E S) ids ids' s :
  visit_all visit (ids ++ ids') s = s ← visit_all visit ids s; visit_all visit ids' s.
Proof.
  revert s. induction ids as [|[k v] ids IH]; intros s; cbn; [done|].
  destruct (visit k v s); cbn; [apply IH|done|done].
Qed.

Lemma visit_payload_fields_all {S E} (visit : EventStateIdentifierKind -> string -> S -> result E S)
    fields pay s :
  visit_payload_fields visit fields pay s = visit_all visit (payload_identifiers fields pay) s.
Proof.
  revert s. induction fields as [|[kind f] fields IH]; intros s; cbn; [done|].
  destruct (obj_get pay f ≫= as_str) as [value|]; cbn; [|apply IH].
  destruct (visit kind value s); cbn; [apply IH|done|done].
Qed.

Lemma visit_optional_all {S E} (visit : EventStateIdentifierKind -> string -> S -> result E S) kind o s :
  visit_optional visit kind o s = visit_all visit (optional_identifier kind o) s.
Proof. destruct o; cbn; [by destruct (visit _ _ _)|done]. Qed.

Lemma visit_identifiers {S E} e (visit : EventStateIdentifierKind -> string -> S -> result E S) s :
  try_for_each_state_identifier e visit s = visit_all visit (identifiers e) s.
Proof.
  unfold try_for_each_state_identifier, identifiers. rewrite visit_all_app. cbn.
  destruct (visit IdEvent (event_id e) s) as [s1| |]; cbn; [|done..].
  rewrite visit_all_app, visit_optional_all.
  destruct (visit_all _ _ s1) as [s2| |]; cbn; [|done..].
  rewrite visit_all_app, visit_optional_all.
  destruct (visit_all _ _ s2) as [s3| |]; cbn; [|done..].
  destruct (as_object (payload e)); [|done]. apply visit_payload_fields_all.
Qed.

Lemma payload_identifiers_length fields pay :
  (List.length (payload_identifiers fields pay) <= List.length fields)%nat.
Proof.
  unfold payload_identifiers. induction fields as [|[kind f] fields IH]; cbn; [done|].
  destruct (obj_get pay f ≫= as_str); cbn; lia.
Qed.

(** the visitor sees the identifiers of an event once each, in envelope-then-payload
    order and stopping at its first error; there are at most five, at most two of them from
    the payload. *)
Theorem state_identifier_bounds {S E} e (visit : EventStateIdentifierKind -> string -> S -> result E S) s :
  try_for_each_state_identifier e visit s = visit_all visit (identifiers e) s /\
  len (identifiers e) <= MAX_EVENT_STATE_IDENTIFIERS_V0 /\
  (forall pay, len (payload_identifiers (state_identifier_fields (event_type e)) pay)
               <= MAX_EVENT_PAYLOAD_STATE_IDENTIFIERS_V0).
Proof.
  assert (forall pay, len (payload_identifiers (state_identifier_fields (event_type e)) pay) <= 2) as Hp.
  { intros pay. pose proof (payload_identifiers_length (state_identifier_fields (event_type e)) pay).
    assert (Z.of_nat (List.length (state_identifier_fields (event_type e))) <= 2)
      by (destruct (event_type e); cbn; lia). unfold len. lia. }
  split_and!; [apply visit_identifiers| |done].
  unfold identifiers, len. rewrite !length_app.
  assert (forall kind o, (List.length (optional_identifier kind o) <= 1)%nat) as Ho
    by (intros kind o; destruct o; cbn; lia).
  pose proof (Ho IdFlow (flow_id e)). pose proof (Ho IdParentFlow (parent_flow_id e)).
  unfold MAX_EVENT_STATE_IDENTIFIERS_V0. cbn [List.length].
  destruct (as_object (payload e)) as [pay|]; [|cbn; lia].
  specialize (Hp pay). unfold len in Hp. lia.
Qed.

(** * Editing the identifiers *)

Section mutable.
Context {S E : Type}.

Lemma obj_set_same pay key v :
  NoDup (map fst pay) -> obj_get pay key = Some v -> obj_set pay key v = pay.
Proof.
  unfold obj_set. induction pay as [|[k w] pay IH]; cbn; [done|]. intros [Hk Hn]%NoDup_cons.
  destruct (String.eqb_spec k key) as [->|]; [|intros; f_equal; auto].
  intros [= ->]. f_equal. clear -Hk. induction pay as [|[k w] pay IH]; cbn in *; [done|].
  destruct (String.eqb_spec k key) as [->|]; [set_solver|]. f_equal. apply IH. set_solver.
Qed.

(** A read-only visitor as a mutable one. *)
Definition read_only (visit : EventStateIdentifierKind -> string -> S -> result E S)
    (kind : EventStateIdentifierKind) (value : string) (s : S) : string * result E S :=
  (value, visit kind value s).

Lemma visit_payload_fields_read_only visit fields pay s :
  NoDup (map fst pay) ->
  visit_payload_fields_mut (read_only visit) fields pay s
    = (pay, visit_payload_fields visit fields pay s).
Proof.
  intros Hn. revert s. induction fields as [|[kind f] fields IH]; intros s; cbn; [done|].
  destruct (obj_get pay f ≫= as_str) as [value|] eqn:Hg; [|apply IH].
  apply bind_Some in Hg as (v & Hg & Hv). destruct v; try done. injection Hv as ->.
  rewrite obj_set_same by done. cbn. destruct (visit kind value s); cbn; [apply IH|done|done].
Qed.

Lemma visit_optional_read_only visit kind o s :
  visit_optional_mut (read_only visit) kind o s = (o, visit_optional visit kind o s).
Proof. by destruct o. Qed.

(** the mutable visitor walks exactly the identifiers of the immutable one: with a
    visitor that edits nothing it gives the same result and leaves the event as it was. *)
Theorem state_identifier_mut_agrees e (visit : EventStateIdentifierKind -> string -> S -> result E S) s :
  wf_json (payload e) ->
  try_for_each_state_identifier_mut (read_only visit) e s
    = (e, try_for_each_state_identifier e visit s).
Proof.
  intros Hw. unfold try_for_each_state_identifier_mut, try_for_each_state_identifier.
  destruct e as [add corr id type flow parent pay version seq session src time].
  cbn -[visit_payload_fields_mut visit_payload_fields].
  destruct (visit IdEvent id s) as [s1| |]; cbn -[visit_payload_fields_mut visit_payload_fields];
    [|done..].
  rewrite visit_optional_read_only.
  destruct (visit_optional visit IdFlow flow s1) as [s2| |];
    cbn -[visit_payload_fields_mut visit_payload_fields]; [|done..].
  rewrite visit_optional_read_only.
  destruct (visit_optional visit IdParentFlow parent s2) as [s3| |];
    cbn -[visit_payload_fields_mut visit_payload_fields]; [|done..].
  destruct pay as [| | | | |pay]; try done. cbn -[visit_payload_fields_mut visit_payload_fields].
  rewrite visit_payload_fields_read_only; [done|]. apply keys_increasing_NoDup.
  cbn in Hw. naive_solver.
Qed.
End mutable.

(** * Witnesses *)

Definition sample_event : EventEnvelope :=
  {| additional_fields := [("trace", JString "t-1")];
     correlation_id := None;
     event_id := "ev-1";
     event_type := PhaseEntered;
     flow_id := Some "flow-1";
     parent_flow_id := None;
     payload := JObject
       [("instruction_ids", JArray [JString "i-1"]); ("iteration", JNumber (PosInt 1));
        ("phase_execution_id", JString "pe-1"); ("phase_id", JString "p-1");
        ("phase_kind", JString "leaf"); ("phase_name", JString "plan"); ("tool_ids", JArray [])];
     protocol_version := "0";
     sequence := 3;
     session_id := "session-1";
     source := "flow-agent";
     timestamp := "2026-01-02T03:04:05Z" |}.

Definition sample_raw_event : Raw :=
  RMap [("trace", RStr "t-1"); ("event_id", RStr "ev-1"); ("event_type", RStr "phase.entered");
        ("flow_id", RStr "flow-1");
        ("payload", RMap
          [("instruction_ids", RSeq [RStr "i-1"]); ("iteration", RU64 1);
           ("phase_execution_id", RStr "pe-1"); ("phase_id", RStr "p-1");
           ("phase_kind", RStr "leaf"); ("phase_name", RStr "plan"); ("tool_ids", RSeq [])]);
        ("protocol_version", RStr "0"); ("sequence", RU64 3); ("session_id", RStr "session-1");
        ("source", RStr "flow-agent"); ("timestamp", RStr "2026-01-02T03:04:05Z")].

Example event_read_write_read_witness :
  @event_of_value plain_json (serialize_fields sample_event) = Ok sample_event.
Proof.
  apply (@event_read_write_read plain_json plain_json_laws sample_raw_event sample_event).
  vm_compute. reflexivity.
Defined.

Example canonical_jsonl_defined_witness :
  exists line, @canonical_jsonl plain_json sample_event = Ok line.
Proof.
  apply (@canonical_jsonl_defined plain_json plain_json_laws sample_event).
  - split; repeat constructor.
  - vm_compute. reflexivity.
  - cbn. split; [|done]. repeat (constructor; [set_solver|]). constructor.
Defined.

Example state_identifier_mut_agrees_witness :
  try_for_each_state_identifier_mut
      (read_only (fun kind value s => if String.eqb value "p-1" then Err value else Ok (s + 1)))
      sample_event 0
    = (sample_event,
       try_for_each_state_identifier sample_event
         (fun kind value s => if String.eqb value "p-1" then Err value else Ok (s + 1)) 0).
Proof. apply state_identifier_mut_agrees. cbn. repeat constructor. Defined.
