(* ===== verification/Lifecycle.v ===== *)
(** The lifecycle of a session stream
    ([flow-agent-core/src/runtime/validate/lifecycle.rs] and [lifecycle/shared.rs]): which
    flows, phases, tools and messages are open or finished, which event may come next, and how
    an event changes that.

    [RuntimeError::Protocol] messages are the constructors of [ProtocolError], one per message
    with the values it names; the path, the same in all of them, is left out.  A failed
    [expect] is [Panic]. *)

From Stdlib Require Import ZArith Lia Ascii String.
From stdpp Require Import base strings sorting sets option gmap list.
From S2P Require Import Prelude Decimal Sorting Metadata Json FlowValue Event.

Open Scope Z_scope.

(** * Errors *)

Inductive ProtocolError : Type :=
| SessionStartedNotFirst (line : Z)
| MustFollowFlowStarted (line : Z) (t : EventType) (flow_id : string)
| AfterTerminal (line : Z) (t : EventType) (kind id : string) (terminal_line : Z)
| RequiresNoActive (line : Z) (t : EventType) (kind id : string)
| MustIncludeFlowId (line : Z) (t : EventType)
| FlowDefinitionMismatch (line : Z) (t : EventType) (flow_id : string)
| DuplicateActivePhase (line : Z) (phase_execution_id : string)
| NestsBelowLeaf (line : Z)
| MustCloseActivePhase (line : Z) (t : EventType) (phase_execution_id : string)
| DuplicateActiveTool (line : Z) (tool_id : string)
| MustFollowToolStarted (line : Z) (t : EventType) (tool_id : string)
| ToolFailedBeforeStart (line : Z) (flow_id : string)
| RequiresActivePhase (line : Z) (t : EventType) (flow_id : string)
| RequiresActiveLeaf (line : Z) (t : EventType)
| RoleMismatch (line : Z) (t : EventType) (role active_role message_id : string)
| MustFollowMessageDelta (line : Z) (message_id : string)
| ParentRequiresFlow (line : Z)
| ParentIsItself (line : Z) (flow_id : string)
| ParentNotStarted (line : Z) (parent : string)
| ParentTerminal (line : Z) (parent : string) (terminal_line : Z)
| ParentMismatch (line : Z) (flow_id : string)
| OpenAtSessionEnd (kind id : string)
(* the messages of [validate.rs] *)
| StreamTooLarge (bytes : Z)
| MustEndWithLf
| SuffixMustEndWithLf
| NoEvents
| MustUseLfOnly (line : Z)
| EventTooLarge (line bytes : Z)
| InvalidJsonLine (line : Z)
| CanonicalFailure (line : Z) (e : CanonicalJsonError)
| NotCanonicalBytes (line : Z)
| InvalidEventLine (line : Z) (e : DeserializeError)
| InvalidStructure (line : Z) (t : EventType) (e : EventValidationError)
| EventBudgetExceeded (line : Z)
| ByteBudgetExceeded (line : Z)
| WrongSession (found expected : string)
| FirstSequenceNotOne
| SequenceMustIncrease (line : Z)
| DuplicateEventId (line : Z)
| AfterTerminalSession (line terminal_line : Z)
| DuplicateFlowId (line : Z)
| FlowBudgetExceeded (line : Z)
| MustUseOneSession
| MustStartWithSession
| VisitorFailed (e : string).

(** * Keys *)

Record MessageLifecycleKey : Type := { mk_flow_id : string; mk_message_id : string }.

Record ToolLifecycleKey : Type := {
  tk_flow_id : option string;
  tk_phase_execution_id : option string;
  tk_phase_id : option string;
  tk_step_id : option string;
  tk_tool_id : string;
  tk_attempt_id : option string;
}.

Record PhaseLifecycleKey : Type := {
  phase_execution_id : string;
  phase_id : string;
  phase_kind : PhaseKind;
}.

#[export] Instance PhaseKind_eq_dec : EqDecision PhaseKind.
Proof. solve_decision. Defined.
#[export] Instance MessageLifecycleKey_eq_dec : EqDecision MessageLifecycleKey.
Proof. solve_decision. Defined.
#[export] Instance ToolLifecycleKey_eq_dec : EqDecision ToolLifecycleKey.
Proof. solve_decision. Defined.
#[export] Instance PhaseLifecycleKey_eq_dec : EqDecision PhaseLifecycleKey.
Proof. solve_decision. Defined.

#[export] Instance MessageLifecycleKey_countable : Countable MessageLifecycleKey.
Proof.
  refine (inj_countable' (fun k => (mk_flow_id k, mk_message_id k))
    (fun '(f, m) => {| mk_flow_id := f; mk_message_id := m |}) _).
  by intros [].
Defined.

#[export] Instance ToolLifecycleKey_countable : Countable ToolLifecycleKey.
Proof.
  refine (inj_countable'
    (fun k => (tk_flow_id k, tk_phase_execution_id k, tk_phase_id k, tk_step_id k,
               tk_tool_id k, tk_attempt_id k))
    (fun '(f, pe, p, s, t, a) =>
      {| tk_flow_id := f; tk_phase_execution_id := pe; tk_phase_id := p; tk_step_id := s;
         tk_tool_id := t; tk_attempt_id := a |}) _).
  by intros [].
Defined.

(** The derived [Ord] instances: lexicographic, and [None] before [Some]. *)
Definition opt_cmp (a b : option string) : comparison :=
  match a, b with
  | None, None => Eq
  | None, Some _ => Lt
  | Some _, None => Gt
  | Some a, Some b => str_cmp a b
  end.

Definition then_cmp (a b : comparison) : comparison := match a with Eq => b | _ => a end.

Definition message_cmp (a b : MessageLifecycleKey) : comparison :=
  then_cmp (str_cmp (mk_flow_id a) (mk_flow_id b)) (str_cmp (mk_message_id a) (mk_message_id b)).

Definition tool_cmp (a b : ToolLifecycleKey) : comparison :=
  then_cmp (opt_cmp (tk_flow_id a) (tk_flow_id b))
  (then_cmp (opt_cmp (tk_phase_execution_id a) (tk_phase_execution_id b))
  (then_cmp (opt_cmp (tk_phase_id a) (tk_phase_id b))
  (then_cmp (opt_cmp (tk_step_id a) (tk_step_id b))
  (then_cmp (str_cmp (tk_tool_id a) (tk_tool_id b))
            (opt_cmp (tk_attempt_id a) (tk_attempt_id b)))))).

(** * Trackers *)

Record LifecycleTracker (K : Type) `{Countable K} : Type := {
  active : gset K;
  terminal : gmap K Z;
}.

Arguments active {K _ _} _.
Arguments terminal {K _ _} _.

Section tracker.
Context {K : Type} `{Countable K}.

Definition tracker_default : LifecycleTracker K := {| active := ∅; terminal := ∅ |}.

Definition start (t : LifecycleTracker K) (key : K) : LifecycleTracker K :=
  {| active := {[key]} ∪ active t; terminal := terminal t |}.

Definition finish (t : LifecycleTracker K) (key : K) (line_number : Z) : LifecycleTracker K :=
  {| active := active t ∖ {[key]}; terminal := <[key := line_number]> (terminal t) |}.

Definition is_started (t : LifecycleTracker K) (key : K) : bool :=
  bool_decide (key ∈ active t) || is_some (terminal t !! key).

Definition terminal_line_of (t : LifecycleTracker K) (key : K) : option Z := terminal t !! key.

Definition active_keys (cmp : K -> K -> comparison) (t : LifecycleTracker K) : list K :=
  set_iter cmp (active t).
End tracker.

(** * State *)

Record SessionLifecycleState : Type := {
  flows : LifecycleTracker string;
  flow_definition_ids : gmap string string;
  flow_parents : gmap string (option string);
  terminal_phases : gmap string Z;
  tools : LifecycleTracker ToolLifecycleKey;
  terminal_messages : gmap MessageLifecycleKey Z;
  active_message_roles : gmap MessageLifecycleKey string;
  active_phases : gmap string (list PhaseLifecycleKey);
  tools_without_progress : gset ToolLifecycleKey;
}.

Definition lifecycle_default : SessionLifecycleState :=
  {| flows := tracker_default; flow_definition_ids := ∅; flow_parents := ∅;
     terminal_phases := ∅; tools := tracker_default; terminal_messages := ∅;
     active_message_roles := ∅; active_phases := ∅; tools_without_progress := ∅ |}.

(** * Reading an event *)

(** [Value::get] with a string index. *)
Definition value_get (v : Value) (f : string) : option Value :=
  match v with JObject fs => obj_get fs f | _ => None end.

Definition payload_str (e : EventEnvelope) (f : string) : option string :=
  value_get (payload e) f ≫= as_str.

Definition lifecycle_payload_string (e : EventEnvelope) (f : string)
    : result ProtocolError string := expect (payload_str e f).

Definition require_lifecycle_flow_id (line : Z) (e : EventEnvelope) : result ProtocolError string :=
  ok_or (flow_id e) (MustIncludeFlowId line (event_type e)).

Definition lifecycle_phase_key (e : EventEnvelope) : result ProtocolError PhaseLifecycleKey :=
  execution ← lifecycle_payload_string e "phase_execution_id";
  id ← lifecycle_payload_string e "phase_id";
  kind ← expect (payload_str e "phase_kind");
  kind ← expect (match phase_kind_try_from kind with Ok k => Some k | _ => None end);
  Ok {| phase_execution_id := execution; phase_id := id; phase_kind := kind |}.

(** [&&] stops at the first false operand. *)
Definition terminal_phase_matches (e : EventEnvelope) (active : PhaseLifecycleKey)
    : result ProtocolError bool :=
  execution ← lifecycle_payload_string e "phase_execution_id";
  if negb (String.eqb (phase_execution_id active) execution) then Ok false else
  id ← lifecycle_payload_string e "phase_id";
  if negb (String.eqb (phase_id active) id) then Ok false else
  match payload_str e "phase_kind" with
  | None => Ok true
  | Some kind =>
      kind ← expect (match phase_kind_try_from kind with Ok k => Some k | _ => None end);
      Ok (bool_decide (kind = phase_kind active))
  end.

(** The innermost active phase of a flow. *)
Definition active_phase (phases : gmap string (list PhaseLifecycleKey)) (flow : string)
    : option PhaseLifecycleKey := phases !! flow ≫= (fun stack => last stack).

Definition lifecycle_tool_key (e : EventEnvelope) (phases : gmap string (list PhaseLifecycleKey))
    : result ProtocolError ToolLifecycleKey :=
  let active := flow_id e ≫= active_phase phases in
  tool ← lifecycle_payload_string e "tool_id";
  Ok {| tk_flow_id := flow_id e;
        tk_phase_execution_id := phase_execution_id <$> active;
        tk_phase_id := phase_id <$> active;
        tk_step_id := None;
        tk_tool_id := tool;
        tk_attempt_id := payload_str e "attempt_id" |}.

Definition lifecycle_message_key (line : Z) (e : EventEnvelope)
    : result ProtocolError MessageLifecycleKey :=
  flow ← require_lifecycle_flow_id line e;
  message ← lifecycle_payload_string e "message_id";
  Ok {| mk_flow_id := flow; mk_message_id := message |}.

Definition require_active_leaf_phase (line : Z) (e : EventEnvelope)
    (phases : gmap string (list PhaseLifecycleKey)) : result ProtocolError PhaseLifecycleKey :=
  flow ← require_lifecycle_flow_id line e;
  phase ← ok_or (active_phase phases flow) (RequiresActivePhase line (event_type e) flow);
  if negb (bool_decide (phase_kind phase = Leaf)) then Err (RequiresActiveLeaf line (event_type e))
  else Ok phase.

(** * Validating an event *)

Definition reject_terminal (line : Z) (e : EventEnvelope) (kind id : string) (terminal : option Z)
    : result ProtocolError unit :=
  match terminal with
  | Some terminal_line => Err (AfterTerminal line (event_type e) kind id terminal_line)
  | None => Ok tt
  end.

Definition validate_message_delta (s : SessionLifecycleState) (line : Z) (e : EventEnvelope)
    : result ProtocolError unit :=
  message ← lifecycle_message_key line e;
  _ ← reject_terminal line e "message" (mk_message_id message) (terminal_messages s !! message);
  role ← lifecycle_payload_string e "role";
  match active_message_roles s !! message with
  | Some active_role =>
      if negb (String.eqb active_role role)
      then Err (RoleMismatch line MessageDelta role active_role (mk_message_id message)) else Ok tt
  | None => Ok tt
  end.

Definition validate_message_completed (s : SessionLifecycleState) (line : Z) (e : EventEnvelope)
    : result ProtocolError unit :=
  message ← lifecycle_message_key line e;
  _ ← reject_terminal line e "message" (mk_message_id message) (terminal_messages s !! message);
  role ← lifecycle_payload_string e "role";
  match active_message_roles s !! message with
  | None => Err (MustFollowMessageDelta line (mk_message_id message))
  | Some active_role =>
      if negb (String.eqb active_role role)
      then Err (RoleMismatch line MessageCompleted role active_role (mk_message_id message))
      else Ok tt
  end.

Definition reject_terminal_tool_event (s : SessionLifecycleState) (line : Z) (e : EventEnvelope)
    (tool : ToolLifecycleKey) : result ProtocolError unit :=
  reject_terminal line e "tool" (tk_tool_id tool) (terminal_line_of (tools s) tool).

Definition require_active_work (s : SessionLifecycleState) (line : Z) (e : EventEnvelope)
    : result ProtocolError unit :=
  _ ← require_active_leaf_phase line e (active_phases s); Ok tt.

Definition validate_lifecycle_parent (line : Z) (e : EventEnvelope)
    (fl : LifecycleTracker string) (parents : gmap string (option string))
    : result ProtocolError unit :=
  if is_some (parent_flow_id e) && is_none (flow_id e) then Err (ParentRequiresFlow line) else
  match flow_id e with
  | None => Ok tt
  | Some flow =>
      _ ← match parent_flow_id e with
          | None => Ok tt
          | Some parent =>
              if String.eqb parent flow then Err (ParentIsItself line flow)
              else if negb (is_started fl parent) then Err (ParentNotStarted line parent)
              else match terminal_line_of fl parent with
                   | Some terminal_line => Err (ParentTerminal line parent terminal_line)
                   | None => Ok tt
                   end
          end;
      match parents !! flow with
      | Some expected =>
          if negb (bool_decide (expected = parent_flow_id e)) then Err (ParentMismatch line flow)
          else Ok tt
      | None => Ok tt
      end
  end.

(** The flow an event belongs to has started and is not terminal. *)
Definition validate_flow_open (s : SessionLifecycleState) (line : Z) (e : EventEnvelope)
    : result ProtocolError unit :=
  if bool_decide (event_type e = FlowStarted) then Ok tt else
  match flow_id e with
  | None => Ok tt
  | Some flow =>
      if negb (is_started (flows s) flow)
      then Err (MustFollowFlowStarted line (event_type e) flow)
      else reject_terminal line e "flow" flow (terminal_line_of (flows s) flow)
  end.

Definition validate_flow_end (s : SessionLifecycleState) (line : Z) (e : EventEnvelope)
    : result ProtocolError unit :=
  flow ← require_lifecycle_flow_id line e;
  definition ← lifecycle_payload_string e "flow_definition_id";
  if negb (bool_decide (flow_definition_ids s !! flow = Some definition))
  then Err (FlowDefinitionMismatch line (event_type e) flow) else
  match active_phase (active_phases s) flow with
  | Some phase => Err (RequiresNoActive line (event_type e) "phase" (phase_execution_id phase))
  | None =>
      match List.find (fun child => bool_decide (mjoin (flow_parents s !! child) = Some flow))
              (active_keys str_cmp (flows s)) with
      | Some child => Err (RequiresNoActive line (event_type e) "child flow" child)
      | None => Ok tt
      end
  end.

Definition validate_phase_entered (s : SessionLifecycleState) (line : Z) (e : EventEnvelope)
    : result ProtocolError unit :=
  flow ← require_lifecycle_flow_id line e;
  phase ← lifecycle_phase_key e;
  _ ← reject_terminal line e "phase" (phase_execution_id phase)
        (terminal_phases s !! phase_execution_id phase);
  if existsb (fun active => String.eqb (phase_execution_id active) (phase_execution_id phase))
       (mjoin (map snd (map_iter str_cmp (active_phases s))))
  then Err (DuplicateActivePhase line (phase_execution_id phase))
  else if is_some_and (active_phase (active_phases s) flow)
            (fun active => bool_decide (phase_kind active = Leaf))
  then Err (NestsBelowLeaf line)
  else Ok tt.

Definition validate_phase_end (s : SessionLifecycleState) (line : Z) (e : EventEnvelope)
    : result ProtocolError unit :=
  execution ← lifecycle_payload_string e "phase_execution_id";
  _ ← reject_terminal line e "phase" execution (terminal_phases s !! execution);
  flow ← require_lifecycle_flow_id line e;
  matches ← match active_phase (active_phases s) flow with
            | Some phase => terminal_phase_matches e phase
            | None => Ok false
            end;
  if negb matches then Err (MustCloseActivePhase line (event_type e) execution) else
  match List.find (fun tool => bool_decide (tk_phase_execution_id tool = Some execution))
          (active_keys tool_cmp (tools s)) with
  | Some tool => Err (RequiresNoActive line (event_type e) "tool" (tk_tool_id tool))
  | None =>
      match List.find (fun message => String.eqb (mk_flow_id message) flow)
              (map fst (map_iter message_cmp (active_message_roles s))) with
      | Some message => Err (RequiresNoActive line (event_type e) "message" (mk_message_id message))
      | None => Ok tt
      end
  end.

Definition validate_tool_started (s : SessionLifecycleState) (line : Z) (e : EventEnvelope)
    : result ProtocolError unit :=
  _ ← require_active_leaf_phase line e (active_phases s);
  tool ← lifecycle_tool_key e (active_phases s);
  _ ← reject_terminal_tool_event s line e tool;
  if is_started (tools s) tool then Err (DuplicateActiveTool line (tk_tool_id tool)) else Ok tt.

Definition validate_tool_running (s : SessionLifecycleState) (line : Z) (e : EventEnvelope)
    : result ProtocolError unit :=
  tool ← lifecycle_tool_key e (active_phases s);
  _ ← reject_terminal_tool_event s line e tool;
  if negb (is_started (tools s) tool)
  then Err (MustFollowToolStarted line (event_type e) (tk_tool_id tool)) else Ok tt.

Definition validate_tool_failed (s : SessionLifecycleState) (line : Z) (e : EventEnvelope)
    : result ProtocolError unit :=
  flow ← require_lifecycle_flow_id line e;
  tool ← lifecycle_tool_key e (active_phases s);
  _ ← reject_terminal_tool_event s line e tool;
  if negb (is_started (tools s) tool) && is_some (active_phases s !! flow)
  then Err (ToolFailedBeforeStart line flow) else Ok tt.

Definition lifecycle_validate_event (s : SessionLifecycleState) (line : Z) (e : EventEnvelope)
    : result ProtocolError unit :=
  if (1 <? line) && bool_decide (event_type e = SessionStarted)
  then Err (SessionStartedNotFirst line) else
  _ ← validate_flow_open s line e;
  _ ← validate_lifecycle_parent line e (flows s) (flow_parents s);
  match event_type e with
  | FlowStarted => _ ← require_lifecycle_flow_id line e; Ok tt
  | FlowCompleted | FlowFailed => validate_flow_end s line e
  | PhaseEntered => validate_phase_entered s line e
  | PhaseCompleted | PhaseFailed => validate_phase_end s line e
  | ToolStarted => validate_tool_started s line e
  | ToolProgress | ToolCompleted | ToolTimedOut => validate_tool_running s line e
  | ToolFailed => validate_tool_failed s line e
  | MessageDelta =>
      _ ← require_active_work s line e;
      validate_message_delta s line e
  | MessageCompleted =>
      _ ← require_active_work s line e;
      validate_message_completed s line e
  | _ => Ok tt
  end.

Definition validate_terminal_session (s : SessionLifecycleState) (last_event : option EventEnvelope)
    : result ProtocolError unit :=
  if negb (is_some_and last_event (fun e =>
       bool_decide (event_type e = SessionCompleted) || bool_decide (event_type e = SessionFailed)))
  then Ok tt else
  match active_keys str_cmp (flows s) with
  | flow :: _ => Err (OpenAtSessionEnd "flow" flow)
  | [] =>
  match mjoin (map snd (map_iter str_cmp (active_phases s))) with
  | phase :: _ => Err (OpenAtSessionEnd "phase" (phase_execution_id phase))
  | [] =>
  match active_keys tool_cmp (tools s) with
  | tool :: _ => Err (OpenAtSessionEnd "tool" (tk_tool_id tool))
  | [] =>
  match map fst (map_iter message_cmp (active_message_roles s)) with
  | message :: _ => Err (OpenAtSessionEnd "message" (mk_message_id message))
  | [] => Ok tt
  end end end end.

Definition tool_without_progress (s : SessionLifecycleState) : option string :=
  tk_tool_id <$> head (set_iter tool_cmp (tools_without_progress s)).

(** * Recording an event *)

Definition with_flows_state (s : SessionLifecycleState) (fl : LifecycleTracker string)
    (definitions : gmap string string) (parents : gmap string (option string))
    : SessionLifecycleState :=
  {| flows := fl; flow_definition_ids := definitions; flow_parents := parents;
     terminal_phases := terminal_phases s; tools := tools s;
     terminal_messages := terminal_messages s; active_message_roles := active_message_roles s;
     active_phases := active_phases s; tools_without_progress := tools_without_progress s |}.

Definition with_phases (s : SessionLifecycleState) (phases : gmap string (list PhaseLifecycleKey))
    (terminal : gmap string Z) : SessionLifecycleState :=
  {| flows := flows s; flow_definition_ids := flow_definition_ids s; flow_parents := flow_parents s;
     terminal_phases := terminal; tools := tools s;
     terminal_messages := terminal_messages s; active_message_roles := active_message_roles s;
     active_phases := phases; tools_without_progress := tools_without_progress s |}.

Definition with_tools (s : SessionLifecycleState) (ts : LifecycleTracker ToolLifecycleKey)
    (silent : gset ToolLifecycleKey) : SessionLifecycleState :=
  {| flows := flows s; flow_definition_ids := flow_definition_ids s; flow_parents := flow_parents s;
     terminal_phases := terminal_phases s; tools := ts;
     terminal_messages := terminal_messages s; active_message_roles := active_message_roles s;
     active_phases := active_phases s; tools_without_progress := silent |}.

Definition with_messages (s : SessionLifecycleState) (roles : gmap MessageLifecycleKey string)
    (terminal : gmap MessageLifecycleKey Z) : SessionLifecycleState :=
  {| flows := flows s; flow_definition_ids := flow_definition_ids s; flow_parents := flow_parents s;
     terminal_phases := terminal_phases s; tools := tools s;
     terminal_messages := terminal; active_message_roles := roles;
     active_phases := active_phases s; tools_without_progress := tools_without_progress s |}.

(** [phases.pop()] and the removal of an empty vector. *)
Definition pop_phase (phases : gmap string (list PhaseLifecycleKey)) (flow : string)
    : gmap string (list PhaseLifecycleKey) :=
  match phases !! flow with
  | Some stack =>
      let stack := take (List.length stack - 1) stack in
      match stack with [] => delete flow phases | _ => <[flow := stack]> phases end
  | None => phases
  end.

Definition push_phase (phases : gmap string (list PhaseLifecycleKey)) (flow : string)
    (phase : PhaseLifecycleKey) : gmap string (list PhaseLifecycleKey) :=
  <[flow := default [] (phases !! flow) ++ [phase]]> phases.

Definition lifecycle_record_event (s : SessionLifecycleState) (line : Z) (e : EventEnvelope)
    : result ProtocolError SessionLifecycleState :=
  match event_type e with
  | FlowStarted =>
      flow ← expect (flow_id e);
      definition ← lifecycle_payload_string e "flow_definition_id";
      Ok (with_flows_state s (start (flows s) flow)
            (<[flow := definition]> (flow_definition_ids s))
            (<[flow := parent_flow_id e]> (flow_parents s)))
  | FlowCompleted | FlowFailed =>
      flow ← expect (flow_id e);
      Ok (with_flows_state s (finish (flows s) flow line) (flow_definition_ids s) (flow_parents s))
  | PhaseEntered =>
      flow ← expect (flow_id e);
      phase ← lifecycle_phase_key e;
      Ok (with_phases s (push_phase (active_phases s) flow phase) (terminal_phases s))
  | PhaseCompleted | PhaseFailed =>
      flow ← expect (flow_id e);
      execution ← lifecycle_payload_string e "phase_execution_id";
      Ok (with_phases s (pop_phase (active_phases s) flow)
            (<[execution := line]> (terminal_phases s)))
  | ToolStarted =>
      tool ← lifecycle_tool_key e (active_phases s);
      Ok (with_tools s (start (tools s) tool) ({[tool]} ∪ tools_without_progress s))
  | ToolProgress =>
      tool ← lifecycle_tool_key e (active_phases s);
      Ok (with_tools s (tools s) (tools_without_progress s ∖ {[tool]}))
  | ToolCompleted | ToolTimedOut | ToolFailed =>
      tool ← lifecycle_tool_key e (active_phases s);
      Ok (with_tools s (finish (tools s) tool line) (tools_without_progress s ∖ {[tool]}))
  | MessageDelta =>
      flow ← expect (flow_id e);
      message ← lifecycle_payload_string e "message_id";
      let key := {| mk_flow_id := flow; mk_message_id := message |} in
      match active_message_roles s !! key with
      | Some _ => Ok s
      | None =>
          role ← lifecycle_payload_string e "role";
          Ok (with_messages s (<[key := role]> (active_message_roles s)) (terminal_messages s))
      end
  | MessageCompleted =>
      flow ← expect (flow_id e);
      message ← lifecycle_payload_string e "message_id";
      let key := {| mk_flow_id := flow; mk_message_id := message |} in
      Ok (with_messages s (delete key (active_message_roles s))
            (<[key := line]> (terminal_messages s)))
  | _ => Ok s
  end.
