(* ===== verification/LifecycleTheory.v ===== *)
(** What the lifecycle of a session stream guarantees: the invariant of
    [SessionLifecycleState], its preservation by every accepted event, and the absence of
    panics on valid events. *)

From Stdlib Require Import ZArith Lia Ascii String.
From stdpp Require Import base strings sorting sets option gmap list.
From S2P Require Import Prelude Decimal Sorting Metadata Json FlowValue Event Lifecycle.

Open Scope Z_scope.

(** * Iteration *)

Lemma find_None {A} (p : A -> bool) l : List.find p l = None <-> forall a, a ∈ l -> p a = false.
Proof. by rewrite find_none_Forall, Forall_forall. Qed.

Lemma find_active_None `{Countable K} cmp (t : LifecycleTracker K) p :
  List.find p (active_keys cmp t) = None <-> forall k, k ∈ active t -> p k = false.
Proof. rewrite find_None. unfold active_keys. by setoid_rewrite elem_of_set_iter. Qed.

Lemma find_keys_None `{Countable K} {V} cmp (m : gmap K V) p :
  List.find p (map fst (map_iter cmp m)) = None <-> forall k, is_Some (m !! k) -> p k = false.
Proof.
  rewrite find_None. split.
  - intros H1 k [v Hv]. apply H1. apply (list_elem_of_fmap_2' fst _ (k, v)); [|done].
    by apply elem_of_map_iter.
  - intros H1 k ([k' v] & -> & Hk)%list_elem_of_fmap. apply H1.
    apply elem_of_map_iter in Hk. by exists v.
Qed.

(** [phase] is on the stack of [flow]. *)
Definition on_stack (phases : gmap string (list PhaseLifecycleKey)) (flow : string)
    (phase : PhaseLifecycleKey) : Prop :=
  exists stack, phases !! flow = Some stack /\ phase ∈ stack.

Lemma elem_of_phases phases phase :
  phase ∈ mjoin (map snd (map_iter str_cmp phases)) <-> exists flow, on_stack phases flow phase.
Proof.
  rewrite list_elem_of_join. unfold on_stack. split.
  - intros (stack & Hp & ([f st] & -> & Hf)%list_elem_of_fmap).
    apply elem_of_map_iter in Hf. eauto.
  - intros (f & stack & Hf & Hp). exists stack. split; [done|].
    apply (list_elem_of_fmap_2' snd _ (f, stack)); [|done]. by apply elem_of_map_iter.
Qed.

(** * Trackers *)

Lemma is_started_spec `{Countable K} (t : LifecycleTracker K) k :
  is_started t k = true <-> k ∈ active t \/ is_Some (terminal t !! k).
Proof.
  unfold is_started. rewrite orb_true_iff, bool_decide_eq_true.
  destruct (terminal t !! k); cbn; split; intros [|]; auto; try done.
Qed.

Lemma open_flow `{Countable K} (t : LifecycleTracker K) k :
  is_started t k = true -> terminal_line_of t k = None -> k ∈ active t.
Proof.
  unfold terminal_line_of. intros [|[? H2]]%is_started_spec H1; [done|congruence].
Qed.

(** * The invariant *)

Record lifecycle_inv (s : SessionLifecycleState) : Prop := {
  (* an identifier is not both open and finished *)
  li_flows : forall f, f ∈ active (flows s) -> terminal (flows s) !! f = None;
  li_tools : forall t, t ∈ active (tools s) -> terminal (tools s) !! t = None;
  li_messages : forall m, is_Some (active_message_roles s !! m) -> terminal_messages s !! m = None;
  li_phases : forall f p, on_stack (active_phases s) f p ->
    terminal_phases s !! phase_execution_id p = None;
  (* started flows have a definition and a parent entry *)
  li_definitions : forall f, is_started (flows s) f = true ->
    is_Some (flow_definition_ids s !! f) /\ is_Some (flow_parents s !! f);
  (* the parent of an open flow is open *)
  li_parents : forall f p, f ∈ active (flows s) -> flow_parents s !! f = Some (Some p) ->
    p ∈ active (flows s);
  (* phases are stacked on open flows, leaves on top *)
  li_stacks : forall f stack, active_phases s !! f = Some stack ->
    f ∈ active (flows s) /\ exists below top, stack = below ++ [top] /\
      Forall (fun p => phase_kind p = Composite) below;
  (* a phase execution is open once *)
  li_unique : forall f g stack stack' i j p q,
    active_phases s !! f = Some stack -> active_phases s !! g = Some stack' ->
    stack !! i = Some p -> stack' !! j = Some q ->
    phase_execution_id p = phase_execution_id q -> f = g /\ i = j;
  (* open tools and messages belong to the leaf phase their flow is in *)
  li_tool_phase : forall t, t ∈ active (tools s) ->
    exists f p, tk_flow_id t = Some f /\ active_phase (active_phases s) f = Some p /\
      phase_kind p = Leaf /\ tk_phase_execution_id t = Some (phase_execution_id p);
  li_message_phase : forall m, is_Some (active_message_roles s !! m) ->
    exists p, active_phase (active_phases s) (mk_flow_id m) = Some p /\ phase_kind p = Leaf;
  (* only open tools are waiting for progress *)
  li_silent : tools_without_progress s ⊆ active (tools s);
}.

Lemma lifecycle_inv_default : lifecycle_inv lifecycle_default.
Proof.
  constructor; cbn; try set_solver.
  intros m [r Hr]. by rewrite lookup_empty in Hr.
Qed.

Lemma active_phase_top s f p :
  lifecycle_inv s -> active_phase (active_phases s) f = Some p ->
  exists below, active_phases s !! f = Some (below ++ [p]) /\
    Forall (fun q => phase_kind q = Composite) below.
Proof.
  intros Hs (stack & Hst & Hl)%bind_Some.
  destruct (li_stacks s Hs f stack Hst) as (_ & below & top & -> & Hb).
  rewrite last_snoc in Hl. injection Hl as ->. eauto.
Qed.

Lemma active_phase_None s f :
  lifecycle_inv s -> active_phase (active_phases s) f = None -> active_phases s !! f = None.
Proof.
  intros Hs Hn. destruct (active_phases s !! f) as [stack|] eqn:Hst; [|done].
  destruct (li_stacks s Hs f stack Hst) as (_ & below & top & -> & Hb).
  unfold active_phase in Hn. rewrite Hst in Hn. cbn in Hn. by rewrite last_snoc in Hn.
Qed.

Lemma active_phase_snoc phases f below p :
  phases !! f = Some (below ++ [p]) -> active_phase phases f = Some p.
Proof. intros H. unfold active_phase. rewrite H. cbn. apply last_snoc. Qed.

(** * What an accepted event satisfies *)

Lemma reject_terminal_Ok line e kind id o : reject_terminal line e kind id o = Ok tt <-> o = None.
Proof. by destruct o. Qed.

Lemma validate_flow_open_Ok s line e f :
  validate_flow_open s line e = Ok tt -> event_type e <> FlowStarted -> flow_id e = Some f ->
  f ∈ active (flows s).
Proof.
  unfold validate_flow_open. intros H Ht Hf.
  rewrite bool_decide_eq_false_2, Hf in H by done. inv_ok.
  apply reject_terminal_Ok in H. by apply open_flow; [apply negb_false_iff|].
Qed.

Lemma validate_parent_Ok s line e f p :
  validate_lifecycle_parent line e (flows s) (flow_parents s) = Ok tt ->
  flow_id e = Some f -> parent_flow_id e = Some p ->
  p <> f /\ p ∈ active (flows s).
Proof.
  unfold validate_lifecycle_parent. intros H Hf Hp. rewrite Hf, Hp in H. cbn in H. inv_ok.
  destruct (String.eqb_spec p f); [done|]. inv_ok.
  destruct (terminal_line_of (flows s) p) eqn:Hl; [done|].
  split; [done|]. by apply open_flow; [apply negb_false_iff|].
Qed.

Lemma validate_parent_match line e fl parents f q :
  validate_lifecycle_parent line e fl parents = Ok tt -> flow_id e = Some f ->
  parents !! f = Some q -> q = parent_flow_id e.
Proof.
  unfold validate_lifecycle_parent. intros H Hf Hq. rewrite Hf in H. inv_ok. rewrite Hq in H.
  destruct (decide (q = parent_flow_id e)); [done|]. by rewrite bool_decide_eq_false_2 in H.
Qed.

Lemma require_active_leaf_phase_Ok line e phases p :
  require_active_leaf_phase line e phases = Ok p ->
  exists f, flow_id e = Some f /\ active_phase phases f = Some p /\ phase_kind p = Leaf.
Proof.
  unfold require_active_leaf_phase, require_lifecycle_flow_id. intros H. inv_ok.
  apply negb_false_iff, bool_decide_eq_true in Hb. eauto.
Qed.

Lemma lifecycle_message_key_Ok line e m :
  lifecycle_message_key line e = Ok m ->
  flow_id e = Some (mk_flow_id m) /\ payload_str e "message_id" = Some (mk_message_id m).
Proof.
  unfold lifecycle_message_key, require_lifecycle_flow_id, lifecycle_payload_string.
  intros H. by inv_ok.
Qed.

Lemma lifecycle_phase_key_Ok e p :
  lifecycle_phase_key e = Ok p -> payload_str e "phase_execution_id" = Some (phase_execution_id p).
Proof. unfold lifecycle_phase_key, lifecycle_payload_string. intros H. by inv_ok. Qed.

Lemma lifecycle_tool_key_Ok e phases t :
  lifecycle_tool_key e phases = Ok t ->
  tk_flow_id t = flow_id e /\
  tk_phase_execution_id t = phase_execution_id <$> (flow_id e ≫= active_phase phases).
Proof. unfold lifecycle_tool_key. intros H. by inv_ok. Qed.

(** * Preservation, one operation at a time *)

Section preservation.
Context (s : SessionLifecycleState) (Hs : lifecycle_inv s).

Lemma inv_flow_start f d parent :
  is_started (flows s) f = false ->
  (forall p, parent = Some p -> p ∈ active (flows s)) ->
  lifecycle_inv (with_flows_state s (start (flows s) f)
    (<[f := d]> (flow_definition_ids s)) (<[f := parent]> (flow_parents s))).
Proof.
  intros Hf Hp. assert (Hn : ~ (f ∈ active (flows s) \/ is_Some (terminal (flows s) !! f)))
    by (rewrite <- is_started_spec; congruence).
  destruct Hs. constructor; try done; cbn.
  - intros g [->%elem_of_singleton|Hg]%elem_of_union; [|auto].
    apply eq_None_not_Some. tauto.
  - intros g Hg. apply is_started_spec in Hg. cbn in Hg.
    destruct (decide (g = f)) as [->|Hne]; [rewrite !lookup_insert_eq; eauto|].
    rewrite !lookup_insert_ne by done. apply li_definitions0, is_started_spec. set_solver.
  - intros g p Hg. destruct (decide (g = f)) as [->|Hne].
    + rewrite lookup_insert_eq. intros [= ->]. set_solver.
    + rewrite lookup_insert_ne by done. set_solver.
  - intros g stack Hst. destruct (li_stacks0 g stack Hst). set_solver.
Qed.

Lemma inv_flow_finish f line :
  active_phase (active_phases s) f = None ->
  (forall c, c ∈ active (flows s) -> mjoin (flow_parents s !! c) <> Some f) ->
  f ∈ active (flows s) ->
  lifecycle_inv (with_flows_state s (finish (flows s) f line)
    (flow_definition_ids s) (flow_parents s)).
Proof.
  intros Hph Hc Hf. pose proof (active_phase_None s f Hs Hph) as Hnone.
  destruct Hs. constructor; try done; cbn.
  - intros g [Hg Hne]%elem_of_difference. rewrite lookup_insert_ne by set_solver. auto.
  - intros g Hg%is_started_spec. cbn in Hg. apply li_definitions0, is_started_spec.
    destruct (decide (g = f)) as [->|Hne]; [by left|].
    rewrite lookup_insert_ne in Hg by done. set_solver.
  - intros g p [Hg _]%elem_of_difference Hp. apply elem_of_difference.
    split; [eauto|]. intros ->%elem_of_singleton. apply (Hc g Hg). by rewrite Hp.
  - intros g stack Hst. destruct (li_stacks0 g stack Hst) as [Hg Hrest].
    split; [|done]. apply elem_of_difference. split; [done|]. intros ->%elem_of_singleton.
    congruence.
Qed.

Lemma on_stack_push f p g q :
  on_stack (push_phase (active_phases s) f p) g q ->
  on_stack (active_phases s) g q \/ g = f /\ q = p.
Proof using Type.
  clear Hs.
  intros (stack & Hst & Hq). unfold push_phase in Hst.
  destruct (decide (g = f)) as [->|Hne].
  - rewrite lookup_insert_eq in Hst. injection Hst as <-.
    apply elem_of_app in Hq as [Hq|Hq%list_elem_of_singleton]; [|auto].
    destruct (active_phases s !! f) as [st|] eqn:Hf; cbn in Hq; [|set_solver].
    left. by exists st.
  - rewrite lookup_insert_ne in Hst by done. left. by exists stack.
Qed.

Lemma active_phase_push f p g :
  active_phase (push_phase (active_phases s) f p) g
    = if decide (g = f) then Some p else active_phase (active_phases s) g.
Proof using Type.
  clear Hs.
  unfold active_phase, push_phase. case_decide as Hg; [subst g|].
  - rewrite lookup_insert_eq. cbn. apply last_snoc.
  - by rewrite lookup_insert_ne.
Qed.

(** Position [i] of the stack after a push. *)
Lemma push_phase_lookup f p g stack i q :
  push_phase (active_phases s) f p !! g = Some stack -> stack !! i = Some q ->
  (exists st, active_phases s !! g = Some st /\ st !! i = Some q) \/
  g = f /\ q = p /\ i = List.length (default [] (active_phases s !! f)).
Proof using Type.
  clear Hs.
  unfold push_phase. intros Hst Hi. destruct (decide (g = f)) as [->|Hne].
  - rewrite lookup_insert_eq in Hst. injection Hst as <-.
    apply lookup_app_Some in Hi as [Hi|[Hl Hi]].
    + left. destruct (active_phases s !! f) as [st|]; [by exists st|done].
    + right. apply list_lookup_singleton_Some in Hi as [Hi ->]. split_and!; [done..|]. lia.
  - rewrite lookup_insert_ne in Hst by done. left. by exists stack.
Qed.

Lemma inv_phase_push f p :
  f ∈ active (flows s) ->
  terminal_phases s !! phase_execution_id p = None ->
  (forall g q, on_stack (active_phases s) g q -> phase_execution_id q <> phase_execution_id p) ->
  (forall q, active_phase (active_phases s) f = Some q -> phase_kind q <> Leaf) ->
  lifecycle_inv (with_phases s (push_phase (active_phases s) f p) (terminal_phases s)).
Proof.
  intros Hf Ht Hfresh Htop.
  assert (forall g st i q, active_phases s !! g = Some st -> st !! i = Some q ->
    phase_execution_id q <> phase_execution_id p) as Hfresh'.
  { intros g st i q Hg Hi. apply (Hfresh g). exists st. split; [done|].
    by eapply list_elem_of_lookup_2. }
  assert (forall q g, active_phase (active_phases s) g = Some q -> phase_kind q = Leaf ->
    active_phase (push_phase (active_phases s) f p) g = Some q) as Hkeep.
  { intros q g Hq Hl. rewrite active_phase_push. case_decide as Hg; [|done]. subst g.
    by destruct (Htop q). }
  pose proof (active_phase_top s f) as Hstack. pose proof (active_phase_None s f Hs) as Hno.
  destruct Hs. constructor; try done; cbn.
  - intros g q [Hq|[-> ->]]%on_stack_push; eauto.
  - intros g stack Hst. unfold push_phase in Hst. destruct (decide (g = f)) as [->|Hne].
    + split; [done|]. rewrite lookup_insert_eq in Hst. injection Hst as <-.
      eexists _, p. split; [done|].
      destruct (active_phase (active_phases s) f) as [q|] eqn:Hq; [|rewrite Hno; by constructor].
      destruct (Hstack q Hs eq_refl) as (below & -> & Hb). cbn. apply Forall_app.
      split; [done|]. constructor; [|constructor].
      specialize (Htop q eq_refl). by destruct (phase_kind q).
    + rewrite lookup_insert_ne in Hst by done. eauto.
  - intros g h st st' i j q r Hg Hh Hi Hj Heq.
    destruct (push_phase_lookup _ _ _ _ _ _ Hg Hi) as [(u & Hu & Hui)|(-> & -> & ->)],
      (push_phase_lookup _ _ _ _ _ _ Hh Hj) as [(w & Hw & Hwj)|(-> & -> & ->)]; eauto.
    + by destruct (Hfresh' _ _ _ _ Hu Hui).
    + by destruct (Hfresh' _ _ _ _ Hw Hwj).
  - intros t Ht'. destruct (li_tool_phase0 t Ht') as (g & q & Hg & Hq & Hl & He).
    exists g, q. split_and!; auto.
  - intros m Hm. destruct (li_message_phase0 m Hm) as (q & Hq & Hl). eauto.
Qed.

Lemma pop_phase_snoc phases f below p g :
  phases !! f = Some (below ++ [p]) ->
  pop_phase phases f !! g =
    if decide (g = f) then match below with [] => None | _ => Some below end else phases !! g.
Proof using Type.
  clear Hs.
  intros Hf. unfold pop_phase. rewrite Hf, length_app, take_app_length'; [|cbn; lia].
  case_decide as Hg; [subst g|]; destruct below as [|q below];
    rewrite ?lookup_delete_eq, ?lookup_insert_eq, ?lookup_delete_ne, ?lookup_insert_ne; done.
Qed.

(** What is left after a pop was there before, at the same place. *)
Lemma pop_phase_lookup f below p g stack :
  active_phases s !! f = Some (below ++ [p]) -> pop_phase (active_phases s) f !! g = Some stack ->
  (g <> f /\ active_phases s !! g = Some stack) \/ (g = f /\ stack = below /\ below <> []).
Proof using Type.
  clear Hs.
  intros Hf. rewrite (pop_phase_snoc _ _ _ _ _ Hf). case_decide as Hg; [|auto].
  destruct below; [done|]. intros [= <-]. auto.
Qed.

Lemma inv_phase_pop f p line :
  active_phase (active_phases s) f = Some p ->
  (forall t, t ∈ active (tools s) -> tk_phase_execution_id t <> Some (phase_execution_id p)) ->
  (forall m, is_Some (active_message_roles s !! m) -> mk_flow_id m <> f) ->
  lifecycle_inv (with_phases s (pop_phase (active_phases s) f)
    (<[phase_execution_id p := line]> (terminal_phases s))).
Proof.
  intros Hp Ht Hm. destruct (active_phase_top s f p Hs Hp) as (below & Hst & Hbelow).
  assert (forall g stack i q, pop_phase (active_phases s) f !! g = Some stack ->
    stack !! i = Some q -> exists st, active_phases s !! g = Some st /\ st !! i = Some q /\
    phase_execution_id q <> phase_execution_id p) as Hold.
  { intros g stack i q Hg Hi.
    assert (forall st j, active_phases s !! g = Some st -> st !! j = Some q ->
      phase_execution_id q = phase_execution_id p -> g = f /\ j = List.length below) as Hu.
    { intros st j Hst' Hj He. eapply (li_unique s Hs _ _ _ _ _ _ _ _ Hst' Hst Hj); [|done].
      by rewrite lookup_app_r, Nat.sub_diag. }
    destruct (pop_phase_lookup _ _ _ _ _ Hst Hg) as [[Hne Hg']|(-> & -> & _)].
    - exists stack. split_and!; [done..|]. intros He. by destruct (Hu _ _ Hg' Hi He).
    - assert ((below ++ [p]) !! i = Some q) as Hi' by (by apply lookup_app_l_Some).
      exists (below ++ [p]). split_and!; [done..|]. intros He.
      destruct (Hu _ _ Hst Hi' He) as [_ ->]. apply lookup_lt_Some in Hi. lia. }
  assert (forall g, g <> f -> active_phase (pop_phase (active_phases s) f) g
    = active_phase (active_phases s) g) as Hkeep.
  { intros g Hg. unfold active_phase. rewrite (pop_phase_snoc _ _ _ _ _ Hst).
    by rewrite decide_False. }
  pose proof Hs as []. constructor; try done; cbn.
  - intros g q (stack & Hg & Hq). apply list_elem_of_lookup in Hq as [i Hi].
    destruct (Hold _ _ _ _ Hg Hi) as (st & Hst' & Hi' & Hne).
    rewrite lookup_insert_ne by done. apply (li_phases0 g). exists st.
    split; [done|]. by eapply list_elem_of_lookup_2.
  - intros g stack Hg. destruct (pop_phase_lookup _ _ _ _ _ Hst Hg) as [[Hne Hg']|(-> & -> & Hne)].
    + eauto.
    + split; [by apply (li_stacks0 f _ Hst)|].
      destruct (exists_last Hne) as (below' & top & ->). exists below', top.
      split; [done|]. by apply Forall_app in Hbelow as [? _].
  - intros g h st st' i j q r Hg Hh Hi Hj Heq.
    destruct (Hold _ _ _ _ Hg Hi) as (u & Hu & Hui & _), (Hold _ _ _ _ Hh Hj) as (w & Hw & Hwj & _).
    eauto.
  - intros t Hact. destruct (li_tool_phase0 t Hact) as (g & q & Hg & Hq & Hl & He).
    exists g, q. split_and!; auto. rewrite Hkeep; [done|]. intros ->.
    rewrite Hp in Hq. injection Hq as <-. by apply (Ht t).
  - intros m Hact. destruct (li_message_phase0 m Hact) as (q & Hq & Hl). exists q.
    split; [|done]. rewrite Hkeep; [done|]. by apply Hm.
Qed.

Lemma inv_tool_start t f p :
  terminal (tools s) !! t = None ->
  tk_flow_id t = Some f -> active_phase (active_phases s) f = Some p -> phase_kind p = Leaf ->
  tk_phase_execution_id t = Some (phase_execution_id p) ->
  lifecycle_inv (with_tools s (start (tools s) t) ({[t]} ∪ tools_without_progress s)).
Proof.
  intros Hn Hf Hp Hl He. destruct Hs. constructor; try done; cbn.
  - intros u [->%elem_of_singleton|Hu]%elem_of_union; auto.
  - intros u [->%elem_of_singleton|Hu]%elem_of_union; [|auto]. exists f, p. auto.
  - set_solver.
Qed.

Lemma inv_tool_progress t :
  lifecycle_inv (with_tools s (tools s) (tools_without_progress s ∖ {[t]})).
Proof. destruct Hs. constructor; try done; cbn. set_solver. Qed.

Lemma inv_tool_finish t line :
  lifecycle_inv (with_tools s (finish (tools s) t line) (tools_without_progress s ∖ {[t]})).
Proof.
  destruct Hs. constructor; try done; cbn.
  - intros u [Hu Hne]%elem_of_difference. rewrite lookup_insert_ne by set_solver. auto.
  - intros u [Hu _]%elem_of_difference. auto.
  - set_solver.
Qed.

Lemma inv_message_open m role p :
  terminal_messages s !! m = None ->
  active_phase (active_phases s) (mk_flow_id m) = Some p -> phase_kind p = Leaf ->
  lifecycle_inv (with_messages s (<[m := role]> (active_message_roles s)) (terminal_messages s)).
Proof.
  intros Hn Hp Hl. destruct Hs. constructor; try done; cbn.
  - intros k Hk. destruct (decide (k = m)) as [->|Hne]; [done|].
    rewrite lookup_insert_ne in Hk by done. auto.
  - intros k Hk. destruct (decide (k = m)) as [->|Hne]; [eauto|].
    rewrite lookup_insert_ne in Hk by done. auto.
Qed.

Lemma inv_message_close m line :
  lifecycle_inv (with_messages s (delete m (active_message_roles s))
    (<[m := line]> (terminal_messages s))).
Proof.
  destruct Hs. constructor; try done; cbn.
  - intros k Hk. destruct (decide (k = m)) as [->|Hne].
    + rewrite lookup_delete_eq in Hk. by destruct Hk.
    + rewrite lookup_delete_ne in Hk by done. rewrite lookup_insert_ne by done. auto.
  - intros k Hk. destruct (decide (k = m)) as [->|Hne].
    + rewrite lookup_delete_eq in Hk. by destruct Hk.
    + rewrite lookup_delete_ne in Hk by done. auto.
Qed.
End preservation.

(** * Accepted events *)

Section step.
Context (s : SessionLifecycleState) (line : Z) (e : EventEnvelope).

Lemma validate_flow_end_Ok :
  validate_flow_end s line e = Ok tt ->
  exists f, flow_id e = Some f /\ active_phase (active_phases s) f = None /\
    forall c, c ∈ active (flows s) -> mjoin (flow_parents s !! c) <> Some f.
Proof.
  unfold validate_flow_end, require_lifecycle_flow_id. intros H. inv_ok.
  destruct (active_phase (active_phases s) x) eqn:Hp; [done|].
  destruct (List.find _ _) eqn:Hfind; [done|]. exists x. split_and!; [done..|].
  intros c Hc. eapply bool_decide_eq_false_1, (proj1 (find_active_None _ _ _) Hfind c Hc).
Qed.

Lemma validate_phase_entered_Ok :
  validate_phase_entered s line e = Ok tt ->
  exists f p, flow_id e = Some f /\ lifecycle_phase_key e = Ok p /\
    terminal_phases s !! phase_execution_id p = None /\
    (forall g q, on_stack (active_phases s) g q -> phase_execution_id q <> phase_execution_id p) /\
    (forall q, active_phase (active_phases s) f = Some q -> phase_kind q <> Leaf).
Proof.
  unfold validate_phase_entered, require_lifecycle_flow_id. intros H. inv_ok. destruct x1.
  apply reject_terminal_Ok in Hx1. exists x, x0. split_and!; [done..| |].
  - intros g q Hq He. assert (existsb (fun active => String.eqb (phase_execution_id active)
      (phase_execution_id x0)) (mjoin (map snd (map_iter str_cmp (active_phases s)))) = true); [|congruence].
    apply existsb_exists. exists q. rewrite He, String.eqb_refl. split; [|done].
    apply list_elem_of_In, elem_of_phases. eauto.
  - intros q Hq Hl. unfold is_some_and in Hb0. rewrite Hq in Hb0.
    by rewrite bool_decide_eq_true_2 in Hb0.
Qed.

Lemma validate_phase_end_Ok :
  validate_phase_end s line e = Ok tt ->
  exists f p, flow_id e = Some f /\ active_phase (active_phases s) f = Some p /\
    payload_str e "phase_execution_id" = Some (phase_execution_id p) /\
    (forall t, t ∈ active (tools s) -> tk_phase_execution_id t <> Some (phase_execution_id p)) /\
    (forall m, is_Some (active_message_roles s !! m) -> mk_flow_id m <> f).
Proof.
  unfold validate_phase_end, require_lifecycle_flow_id, lifecycle_payload_string.
  intros H. inv_ok. destruct x0. apply negb_false_iff in Hb. subst x2.
  destruct (active_phase (active_phases s) x1) as [p|] eqn:Hp; [|done].
  unfold terminal_phase_matches, lifecycle_payload_string in Hx2. rewrite Hx in Hx2. cbn in Hx2.
  destruct (String.eqb_spec (phase_execution_id p) x) as [<-|]; [|done].
  destruct (List.find _ (active_keys tool_cmp (tools s))) eqn:Ht; [done|].
  destruct (List.find _ (map fst _)) eqn:Hm; [done|].
  exists x1, p. split_and!; [done..| |].
  - intros t Hact. eapply bool_decide_eq_false_1, (proj1 (find_active_None _ _ _) Ht t Hact).
  - intros m Hact. eapply String.eqb_neq, (proj1 (find_keys_None _ _ _) Hm m Hact).
Qed.

Lemma validate_tool_started_Ok :
  validate_tool_started s line e = Ok tt ->
  exists t f p, lifecycle_tool_key e (active_phases s) = Ok t /\
    terminal (tools s) !! t = None /\ (t ∉ active (tools s)) /\ tk_flow_id t = Some f /\
    active_phase (active_phases s) f = Some p /\ phase_kind p = Leaf /\
    tk_phase_execution_id t = Some (phase_execution_id p).
Proof.
  unfold validate_tool_started. intros H. inv_ok. destruct x1.
  apply reject_terminal_Ok in Hx1. unfold terminal_line_of in Hx1.
  apply require_active_leaf_phase_Ok in Hx as (f & Hf & Hp & Hl).
  pose proof (lifecycle_tool_key_Ok _ _ _ Hx0) as [Htf Hte].
  exists x0, f, x. split_and!; try done; try congruence.
  - intros Hin. assert (is_started (tools s) x0 = true); [|congruence].
    apply is_started_spec. by left.
  - rewrite Hte, Hf. cbn. by rewrite Hp.
Qed.

Lemma require_active_work_Ok u :
  require_active_work s line e = Ok u ->
  exists f p, flow_id e = Some f /\ active_phase (active_phases s) f = Some p /\
    phase_kind p = Leaf.
Proof.
  unfold require_active_work. intros H. inv_ok.
  apply require_active_leaf_phase_Ok in Hx as (f & Hf & Hp & Hl). eauto.
Qed.

Lemma validate_message_delta_Ok :
  validate_message_delta s line e = Ok tt ->
  exists m, flow_id e = Some (mk_flow_id m) /\
    payload_str e "message_id" = Some (mk_message_id m) /\ terminal_messages s !! m = None.
Proof.
  unfold validate_message_delta. intros H. inv_ok. destruct x0.
  apply reject_terminal_Ok in Hx0. apply lifecycle_message_key_Ok in Hx as [Hf Hm]. eauto.
Qed.

Lemma validate_message_completed_Ok :
  validate_message_completed s line e = Ok tt ->
  exists m, flow_id e = Some (mk_flow_id m) /\
    payload_str e "message_id" = Some (mk_message_id m) /\ terminal_messages s !! m = None /\
    is_Some (active_message_roles s !! m).
Proof.
  unfold validate_message_completed. intros H. inv_ok. destruct x0.
  apply reject_terminal_Ok in Hx0. apply lifecycle_message_key_Ok in Hx as [Hf Hm].
  destruct (active_message_roles s !! x) eqn:Ha; [|done]. eauto 10.
Qed.

Lemma lifecycle_step_inv s' :
  lifecycle_inv s ->
  (forall f, event_type e = FlowStarted -> flow_id e = Some f -> is_started (flows s) f = false) ->
  lifecycle_validate_event s line e = Ok tt -> lifecycle_record_event s line e = Ok s' ->
  lifecycle_inv s'.
Proof.
  intros Hs Hfresh Hv Hr. unfold lifecycle_validate_event in Hv. inv_ok. destruct x, x0.
  pose proof (validate_flow_open_Ok s line e) as Hopen.
  pose proof (validate_parent_Ok s line e) as Hparent.
  unfold lifecycle_record_event in Hr.
  destruct (event_type e) eqn:Ht; inv_ok; try done;
    unfold lifecycle_payload_string in *; inv_ok.
  - apply inv_flow_start; [done|auto|]. intros p Hp. by eapply Hparent.
  - apply validate_flow_end_Ok in Hv as (f & Hf & Hp & Hc). simplify_eq.
    apply inv_flow_finish; auto.
  - apply validate_flow_end_Ok in Hv as (f & Hf & Hp & Hc). simplify_eq.
    apply inv_flow_finish; auto.
  - apply validate_phase_entered_Ok in Hv as (f & p & Hf & Hp & Ht' & Hn & Htop). simplify_eq.
    assert (x0 = p) as -> by congruence. apply inv_phase_push; auto.
  - apply validate_phase_end_Ok in Hv as (f & p & Hf & Hp & Hid & Htl & Hm). simplify_eq.
    apply inv_phase_pop; auto.
  - apply validate_phase_end_Ok in Hv as (f & p & Hf & Hp & Hid & Htl & Hm). simplify_eq.
    apply inv_phase_pop; auto.
  - destruct (require_active_work_Ok _ Hx3) as (f & p & Hf & Hp & Hl).
    apply validate_message_delta_Ok in Hv as ([f' m] & Hf' & Hm & Hterm). cbn in *. simplify_eq.
    destruct (active_message_roles s !! _); inv_ok; [done|]. by eapply inv_message_open.
  - by apply inv_message_close.
  - apply validate_tool_started_Ok in Hv as (t & f & p & Hk & Hn & _ & Hf & Hp & Hl & He).
    assert (x = t) as -> by congruence. by eapply inv_tool_start.
  - by apply inv_tool_progress.
  - by apply inv_tool_finish.
  - by apply inv_tool_finish.
  - by apply inv_tool_finish.
Qed.
End step.

(** * No panic on valid events *)

Section no_panic.
Context {J : JsonEnv} (e : EventEnvelope) (He : valid_event e).

Lemma required_string f :
  NonEmptyString f ∈ contract (event_type e) -> exists v, payload_str e f = Some v.
Proof.
  intros Hf. destruct (ve_payload e He) as (pay & Hp & Hc). rewrite Forall_forall in Hc.
  destruct (Hc _ Hf) as (v & Hv & str & -> & _). unfold payload_str. rewrite Hp. cbn.
  rewrite Hv. cbn. eauto.
Qed.

Lemma required_token f tokens :
  OneOf f tokens ∈ contract (event_type e) -> exists v, payload_str e f = Some v /\ v ∈ tokens.
Proof.
  intros Hf. destruct (ve_payload e He) as (pay & Hp & Hc). rewrite Forall_forall in Hc.
  destruct (Hc _ Hf) as (str & Hv & Hin). unfold payload_str. rewrite Hp. cbn.
  rewrite Hv. cbn. eauto.
Qed.

Lemma optional_token f tokens v :
  OptionalOneOf f tokens ∈ contract (event_type e) -> payload_str e f = Some v -> v ∈ tokens.
Proof.
  intros Hf Hs. destruct (ve_payload e He) as (pay & Hp & Hc). rewrite Forall_forall in Hc.
  unfold payload_str in Hs. rewrite Hp in Hs. cbn in Hs. apply bind_Some in Hs as (w & Hw & Hs).
  destruct (Hc _ Hf w Hw) as (str & -> & Hin). by injection Hs as <-.
Qed.

Lemma required_flow_id : requires_flow_id (event_type e) = true -> exists f, flow_id e = Some f.
Proof. intros Ht. destruct (ve_flow e He Ht) as [f Hf]. eauto. Qed.

Lemma phase_kind_token v :
  v ∈ ["leaf"; "composite"] -> exists k, phase_kind_try_from v = Ok k.
Proof.
  intros Hv. repeat (apply elem_of_cons in Hv as [->|Hv]; [by eexists|]).
  by apply elem_of_nil in Hv.
Qed.

Lemma phase_key_ok : event_type e = PhaseEntered -> exists p, lifecycle_phase_key e = Ok p.
Proof.
  intros Ht. unfold lifecycle_phase_key, lifecycle_payload_string.
  destruct (required_string "phase_execution_id") as [a ->]; [rewrite Ht; cbn; set_solver|].
  destruct (required_string "phase_id") as [b ->]; [rewrite Ht; cbn; set_solver|].
  destruct (required_token "phase_kind" ["leaf"; "composite"]) as (v & -> & Hv);
    [rewrite Ht; cbn; set_solver|].
  destruct (phase_kind_token v Hv) as [k Hk]. cbn -[phase_kind_try_from]. rewrite Hk. cbn. eauto.
Qed.

Lemma tool_key_ok phases :
  NonEmptyString "tool_id" ∈ contract (event_type e) ->
  exists t, lifecycle_tool_key e phases = Ok t.
Proof.
  intros Ht. unfold lifecycle_tool_key, lifecycle_payload_string.
  destruct (required_string "tool_id" Ht) as [a ->]. cbn. eauto.
Qed.

Lemma lifecycle_record_total s line : exists s', lifecycle_record_event s line e = Ok s'.
Proof.
  unfold lifecycle_record_event, lifecycle_payload_string.
  destruct (event_type e) eqn:Ht; try (by eexists);
    try (destruct required_flow_id as [f ->]; [by rewrite Ht|]);
    try (destruct (required_string "flow_definition_id") as [d ->]; [rewrite Ht; cbn; set_solver|]);
    try (destruct (required_string "message_id") as [d ->]; [rewrite Ht; cbn; set_solver|]);
    try (destruct (required_string "phase_execution_id") as [d ->]; [rewrite Ht; cbn; set_solver|]);
    try (destruct (tool_key_ok (active_phases s)) as [t ->]; [rewrite Ht; cbn; set_solver|]);
    try (by eexists).
  - destruct phase_key_ok as [p ->]; [done|]. by eexists.
  - destruct (required_token "role" ["system"; "user"; "assistant"; "tool"]) as (r & -> & _);
      [rewrite Ht; cbn; set_solver|]. cbn. case_match; by eexists.
Qed.

Lemma reject_terminal_no_panic line (ev : EventEnvelope) kind id o :
  reject_terminal line ev kind id o <> Panic.
Proof. unfold reject_terminal. no_panic. Qed.
Hint Resolve reject_terminal_no_panic : no_panic.

Lemma payload_string_no_panic f :
  NonEmptyString f ∈ contract (event_type e) -> lifecycle_payload_string e f <> Panic.
Proof. intros [v Hv]%required_string. unfold lifecycle_payload_string. by rewrite Hv. Qed.

Lemma role_no_panic :
  event_type e = MessageDelta \/ event_type e = MessageCompleted ->
  lifecycle_payload_string e "role" <> Panic.
Proof.
  intros Ht. unfold lifecycle_payload_string.
  destruct (required_token "role" ["system"; "user"; "assistant"; "tool"]) as (r & -> & _); [|done].
  destruct Ht as [-> | ->]; cbn; set_solver.
Qed.

Lemma tool_key_no_panic phases :
  NonEmptyString "tool_id" ∈ contract (event_type e) -> lifecycle_tool_key e phases <> Panic.
Proof. intros [t ->]%(tool_key_ok phases). done. Qed.

Lemma phase_matches_no_panic p :
  event_type e = PhaseCompleted \/ event_type e = PhaseFailed ->
  terminal_phase_matches e p <> Panic.
Proof.
  intros Ht.
  assert (OptionalOneOf "phase_kind" ["leaf"; "composite"] ∈ contract (event_type e) /\
    NonEmptyString "phase_execution_id" ∈ contract (event_type e) /\
    NonEmptyString "phase_id" ∈ contract (event_type e)) as (H1 & H2 & H3)
    by (destruct Ht as [-> | ->]; cbn; set_solver).
  unfold terminal_phase_matches. apply bind_no_panic; [by apply payload_string_no_panic|].
  intros x _. destruct (negb _); [done|]. apply bind_no_panic; [by apply payload_string_no_panic|].
  intros y _. destruct (negb _); [done|].
  destruct (payload_str e "phase_kind") as [k|] eqn:Hk; [|done].
  destruct (phase_kind_token k) as [k' ->]; [by eapply optional_token|]. done.
Qed.

Lemma lifecycle_validate_no_panic s line : lifecycle_validate_event s line e <> Panic.
Proof.
  unfold lifecycle_validate_event. destruct (_ && _); [done|].
  apply bind_no_panic; [unfold validate_flow_open; no_panic|]. intros u1 _.
  apply bind_no_panic; [unfold validate_lifecycle_parent; no_panic|]. intros u2 _.
  unfold validate_flow_end, validate_phase_entered, validate_phase_end, validate_tool_started,
    validate_tool_running, validate_tool_failed, validate_message_delta,
    validate_message_completed, require_active_work, require_active_leaf_phase,
    lifecycle_message_key, require_lifecycle_flow_id, reject_terminal_tool_event.
  destruct (event_type e) eqn:Ht; try done; no_panic;
    first [ solve [apply role_no_panic; auto] | solve [apply phase_matches_no_panic; auto]
          | apply payload_string_no_panic; rewrite Ht; cbn; set_solver
          | apply tool_key_no_panic; rewrite Ht; cbn; set_solver
          | destruct (phase_key_ok Ht) as [p ->]; done ].
Qed.
End no_panic.
