(* ===== verification/Validate.v ===== *)
(** Validation of a session stream
    ([flow-agent-core/src/runtime/validate.rs]): canonical lines, budgets, sequence numbers,
    unique identifiers, one session, and the lifecycle of every event. *)

From Stdlib Require Import ZArith Lia Ascii String.
From stdpp Require Import base strings sorting sets option gmap list.
From S2P Require Import Prelude Decimal Sorting Metadata Json FlowValue Event Lifecycle.

Open Scope Z_scope.

Definition MAX_CANONICAL_EVENT_BYTES : Z := 320 * 1024.
Definition MAX_SESSION_EVENT_BYTES : Z := 352 * 1024 * 1024.
Definition MAX_FLOW_EVENTS : Z := 155750.
Definition MAX_FLOW_INVOCATIONS : Z := 512.

(** [serde_json::from_str::<Value>]. *)
Class JsonParser : Type := { from_str : string -> option Value }.

(** What a [Value] hands to a visitor when it is the deserializer. *)
Fixpoint raw_of_value (v : Value) : Raw :=
  match v with
  | JNull => RUnit
  | JBool b => RBool b
  | JNumber (PosInt n) => RU64 n
  | JNumber (NegInt n) => RI64 n
  | JNumber (Float bits) => RF64 bits
  | JString s => RStr s
  | JArray vs => RSeq (map raw_of_value vs)
  | JObject fs => RMap (map (fun '(k, v) => (k, raw_of_value v)) fs)
  end.

(** [str::ends_with] of a character, and [str::split_terminator]. *)
Fixpoint ends_with_char (c : ascii) (s : string) : bool :=
  match s with
  | EmptyString => false
  | String a EmptyString => Ascii.eqb a c
  | String _ s => ends_with_char c s
  end.

Definition drop_last_empty (pieces : list string) : list string :=
  match last pieces with
  | Some EmptyString => take (List.length pieces - 1) pieces
  | _ => pieces
  end.

Definition split_terminator (c : ascii) (s : string) : list string := drop_last_empty (split c s).

Definition lf : ascii := ascii_of_N 10.
Definition cr : ascii := ascii_of_N 13.

(** * State *)

Record SessionAppendValidationState : Type := {
  expected_session_id : option string;
  stream_session_id : option string;
  previous_sequence : Z;
  event_ids : gset string;
  flow_started_ids : gset string;
  terminal_line : option Z;
  stream_bytes : Z;
  line_count : Z;
  lifecycle : SessionLifecycleState;
}.

Definition new_state (expected : option string) : SessionAppendValidationState :=
  {| expected_session_id := expected;
     stream_session_id := None;
     previous_sequence := 0;
     event_ids := ∅;
     flow_started_ids := ∅;
     terminal_line := None;
     stream_bytes := 0;
     line_count := 0;
     lifecycle := lifecycle_default |}.

Definition unscoped : SessionAppendValidationState := new_state None.
Definition empty_state (expected : string) : SessionAppendValidationState := new_state (Some expected).

(** * One event *)

Definition validate_event_size (line canonical_bytes : Z) : result ProtocolError unit :=
  if canonical_bytes <=? MAX_CANONICAL_EVENT_BYTES then Ok tt
  else Err (EventTooLarge line canonical_bytes).

Definition validate_budget (st : SessionAppendValidationState) (line canonical_bytes : Z)
    : result ProtocolError unit :=
  reject MAX_FLOW_EVENTS <? line with EventBudgetExceeded line ;;
  let bytes := sat_u64 (stream_bytes st + canonical_bytes) in
  reject MAX_SESSION_EVENT_BYTES <? bytes with ByteBudgetExceeded line ;;
  Ok tt.

Definition is_session_end (t : EventType) : bool :=
  match t with SessionCompleted | SessionFailed => true | _ => false end.

(** [u64::checked_add(1)]. *)
Definition checked_succ (n : Z) : option Z := if n <? u64_max then Some (n + 1) else None.

Definition validate_flow_started (st : SessionAppendValidationState) (line : Z) (e : EventEnvelope)
    : result ProtocolError unit :=
  flow ← ok_or (flow_id e) (MustIncludeFlowId line FlowStarted);
  reject bool_decide (flow ∈ flow_started_ids st) with DuplicateFlowId line ;;
  reject MAX_FLOW_INVOCATIONS <=? Z.of_nat (size (flow_started_ids st))
    with FlowBudgetExceeded line ;;
  Ok tt.

Definition validate_event (st : SessionAppendValidationState) (line : Z) (e : EventEnvelope)
    : result ProtocolError unit :=
  _ ← match expected_session_id st with
      | Some expected =>
          if negb (String.eqb expected (session_id e))
          then Err (WrongSession (session_id e) expected) else Ok tt
      | None => Ok tt
      end;
  reject (line =? 1) && negb (sequence e =? 1) with FirstSequenceNotOne ;;
  reject negb (bool_decide (checked_succ (previous_sequence st) = Some (sequence e)))
    with SequenceMustIncrease line ;;
  reject bool_decide (event_id e ∈ event_ids st) with DuplicateEventId line ;;
  _ ← match terminal_line st with
      | Some terminal => Err (AfterTerminalSession line terminal)
      | None => Ok tt
      end;
  _ ← (if bool_decide (event_type e = FlowStarted) then validate_flow_started st line e else Ok tt);
  _ ← match stream_session_id st with
      | Some existing =>
          if negb (String.eqb existing (session_id e)) then Err MustUseOneSession else Ok tt
      | None => Ok tt
      end;
  reject (line =? 1) && negb (bool_decide (event_type e = SessionStarted))
    with MustStartWithSession ;;
  _ ← lifecycle_validate_event (lifecycle st) line e;
  if is_session_end (event_type e)
  then validate_terminal_session (lifecycle st) (Some e) else Ok tt.

(** The [debug_assert!]s panic when an identifier was already there. *)
Definition record_event (st : SessionAppendValidationState) (line : Z) (e : EventEnvelope)
    (canonical_bytes : Z) : result ProtocolError SessionAppendValidationState :=
  if bool_decide (event_id e ∈ event_ids st) then Panic else
  flows ← (if bool_decide (event_type e = FlowStarted) then
             flow ← expect (flow_id e);
             if bool_decide (flow ∈ flow_started_ids st) then Panic
             else Ok ({[flow]} ∪ flow_started_ids st)
           else Ok (flow_started_ids st));
  life ← lifecycle_record_event (lifecycle st) line e;
  Ok {| expected_session_id := expected_session_id st;
        stream_session_id := Some (default (session_id e) (stream_session_id st));
        previous_sequence := sequence e;
        event_ids := {[event_id e]} ∪ event_ids st;
        flow_started_ids := flows;
        terminal_line := if is_session_end (event_type e) then Some line else terminal_line st;
        stream_bytes := sat_u64 (stream_bytes st + canonical_bytes);
        line_count := line;
        lifecycle := life |}.

Section stream.
Context {J : JsonEnv}.

Definition validate_event_payload_line (line : Z) (e : EventEnvelope)
    : result ProtocolError unit :=
  map_err (InvalidStructure line (event_type e)) (validate_v0 e).

Definition validate_constructed_event (st : SessionAppendValidationState) (e : EventEnvelope)
    (canonical_bytes : Z) : result ProtocolError SessionAppendValidationState :=
  let line := line_count st + 1 in
  _ ← validate_event_payload_line line e;
  _ ← validate_event_size line canonical_bytes;
  _ ← validate_budget st line canonical_bytes;
  _ ← validate_event st line e;
  record_event st line e canonical_bytes.

Context {P : JsonParser}.

(** [serde_json::from_value::<EventEnvelope>]. *)
Definition event_from_value (v : Value) : result DeserializeError EventEnvelope :=
  deserialize_event (raw_of_value v).

Definition parse_canonical_event (line_number : Z) (line : string)
    : result ProtocolError EventEnvelope :=
  value ← ok_or (from_str line) (InvalidJsonLine line_number);
  canonical ← map_err (CanonicalFailure line_number) (canonical_json value);
  reject negb (String.eqb canonical line) with NotCanonicalBytes line_number ;;
  map_err (InvalidEventLine line_number) (event_from_value value).

Section visitor.
Context {V : Type} (visit : EventEnvelope -> V -> result ProtocolError V).

(** The body of the loop over the lines. *)
Definition accept_line (st : SessionAppendValidationState) (v : V) (line : string)
    : result ProtocolError (SessionAppendValidationState * V) :=
  let line_number := line_count st + 1 in
  let canonical_bytes := sat_u64 (slen line + 1) in
  reject ends_with_char cr line with MustUseLfOnly line_number ;;
  _ ← validate_event_size line_number canonical_bytes;
  event ← parse_canonical_event line_number line;
  _ ← validate_budget st line_number canonical_bytes;
  _ ← validate_event st line_number event;
  v ← visit event v;
  st ← record_event st line_number event canonical_bytes;
  Ok (st, v).

(** The state keeps the lines accepted before an error. *)
Fixpoint accept_lines (st : SessionAppendValidationState) (v : V) (lines : list string)
    : (SessionAppendValidationState * V) * result ProtocolError unit :=
  match lines with
  | [] => ((st, v), Ok tt)
  | line :: lines =>
      match accept_line st v line with
      | Ok (st, v) => accept_lines st v lines
      | Err err => ((st, v), Err err)
      | Panic => ((st, v), Panic)
      end
  end.

Definition validate_appended_with (st : SessionAppendValidationState) (v : V) (text : string)
    : (SessionAppendValidationState * V) * result ProtocolError unit :=
  if String.eqb text "" then ((st, v), Ok tt)
  else if negb (ends_with_char lf text) then ((st, v), Err SuffixMustEndWithLf)
  else accept_lines st v (split_terminator lf text).
End visitor.

Definition push_event (e : EventEnvelope) (events : list EventEnvelope)
    : result ProtocolError (list EventEnvelope) := Ok (events ++ [e]).

(** The clone is staged and kept only when every line was accepted. *)
Definition validate_appended (st : SessionAppendValidationState) (text : string)
    : SessionAppendValidationState * result ProtocolError (list EventEnvelope) :=
  let '((staged, appended_events), r) := validate_appended_with push_event st [] text in
  match r with
  | Ok _ => (staged, Ok appended_events)
  | Err err => (st, Err err)
  | Panic => (st, Panic)
  end.

Definition validate_protocol_jsonl_text (text : string)
    : result ProtocolError (list EventEnvelope) :=
  let text_bytes := slen text in
  reject MAX_SESSION_EVENT_BYTES <? text_bytes with StreamTooLarge text_bytes ;;
  reject negb (ends_with_char lf text) with MustEndWithLf ;;
  events ← (validate_appended unscoped text).2;
  match events with
  | [] => Err NoEvents
  | _ => Ok events
  end.
End stream.
