(* ===== verification/ValidateTheory.v ===== *)
(** What an accepted session stream satisfies.

    [stream_step] is one accepted event and [stream_run] a sequence of them; both ways the
    runtime extends a stream (a text of canonical lines, an event it built itself) are such
    runs.  [history] relates the state to the events accepted so far, and the order rules
    of a stream follow from it. *)

From Stdlib Require Import ZArith Lia Ascii String.
From stdpp Require Import base strings sorting sets option gmap list.
From S2P Require Import Prelude Decimal Sorting Metadata Json FlowValue Event Lifecycle.
From S2P Require Import LifecycleTheory Validate.

Open Scope Z_scope.

(** * Steps and runs *)

Section runs.
Context {J : JsonEnv}.

Inductive stream_step (st : SessionAppendValidationState) (e : EventEnvelope) (bytes : Z)
    : SessionAppendValidationState -> Prop :=
| StreamStep st' :
    valid_event e ->
    0 <= bytes <= MAX_CANONICAL_EVENT_BYTES ->
    validate_budget st (line_count st + 1) bytes = Ok tt ->
    validate_event st (line_count st + 1) e = Ok tt ->
    record_event st (line_count st + 1) e bytes = Ok st' ->
    stream_step st e bytes st'.

Inductive stream_run (st : SessionAppendValidationState)
    : list (EventEnvelope * Z) -> SessionAppendValidationState -> Prop :=
| run_nil : stream_run st [] st
| run_snoc evs st' e bytes st'' :
    stream_run st evs st' -> stream_step st' e bytes st'' ->
    stream_run st (evs ++ [(e, bytes)]) st''.

Lemma stream_run_app st evs st' evs' st'' :
  stream_run st evs st' -> stream_run st' evs' st'' -> stream_run st (evs ++ evs') st''.
Proof.
  intros H1. induction 1 as [|evs' st2 e b st3 _ IH Hstep]; [by rewrite app_nil_r|].
  rewrite app_assoc. by eapply run_snoc.
Qed.

Lemma stream_run_one st e bytes st' : stream_step st e bytes st' -> stream_run st [(e, bytes)] st'.
Proof. intros H. apply (run_snoc st []  st); [constructor|done]. Qed.

Lemma validate_event_size_Ok line bytes :
  validate_event_size line bytes = Ok tt -> bytes <= MAX_CANONICAL_EVENT_BYTES.
Proof. unfold validate_event_size. case_match; [|done]. intros _. lia. Qed.

(** An event the runtime built itself. *)
Lemma constructed_event_step st e bytes st' :
  0 <= bytes -> validate_constructed_event st e bytes = Ok st' -> stream_step st e bytes st'.
Proof.
  intros Hb H. unfold validate_constructed_event, validate_event_payload_line in H. inv_ok.
  destruct x, x0, x1, x2. apply validate_event_size_Ok in Hx0.
  destruct (validate_v0 e) as [[]| |] eqn:Hv; try done.
  constructor; try done. by apply validate_v0_valid.
Qed.

Context {JL : JsonLaws} {P : JsonParser}.

Lemma parse_canonical_event_valid n line e : parse_canonical_event n line = Ok e -> valid_event e.
Proof.
  unfold parse_canonical_event, event_from_value, deserialize_event, event_of_value. intros H.
  inv_ok. destruct (unique_json (raw_of_value x)) as [v| |]; try done. cbn in H.
  destruct (ok_or (as_object v) NotAMap) as [fs| |]; try done. cbn in H.
  destruct (unchecked_event fs) as [u| |]; try done. cbn in H.
  destruct (event_try_from u) as [e'| |] eqn:He; try done. cbn in H. injection H as <-.
  apply event_try_from_Ok in He as (Hv & _). by apply validate_v0_valid.
Qed.

Context {V : Type} (visit : EventEnvelope -> V -> result ProtocolError V).

Definition line_bytes (line : string) : Z := sat_u64 (slen line + 1).

Lemma line_bytes_nonneg line : 0 <= line_bytes line.
Proof. unfold line_bytes, sat_u64, clamp. lia. Qed.

(** A line of canonical text. *)
Lemma accept_line_step st v line st' v' :
  accept_line visit st v line = Ok (st', v') ->
  exists e, parse_canonical_event (line_count st + 1) line = Ok e /\
    stream_step st e (line_bytes line) st' /\ visit e v = Ok v'.
Proof.
  unfold accept_line. fold (line_bytes line). intros H. inv_ok.
  destruct x, x1, x2. apply validate_event_size_Ok in Hx. pose proof (line_bytes_nonneg line).
  exists x0. split_and!; [done| |done]. constructor; try done.
  by eapply parse_canonical_event_valid.
Qed.
End runs.

Lemma accept_lines_push {J : JsonEnv} {JL : JsonLaws} {P : JsonParser} lines st evs0 st' evs u :
  accept_lines push_event st evs0 lines = ((st', evs), Ok u) ->
  exists new, evs = evs0 ++ map fst new /\ stream_run st new st' /\
    map snd new = map line_bytes lines.
Proof.
  revert st evs0. induction lines as [|line lines IH]; intros st evs0 H; cbn in H.
  { injection H as <- <- _. exists []. rewrite app_nil_r. split_and!; constructor. }
  destruct (accept_line push_event st evs0 line) as [[st1 evs1]| |] eqn:Hl; try done.
  apply accept_line_step in Hl as (e & _ & Hstep & Hv). injection Hv as <-.
  apply IH in H as (new & -> & Hrun & Hb). exists ((e, line_bytes line) :: new).
  split_and!.
  - by rewrite <- app_assoc.
  - apply (stream_run_app st [(e, line_bytes line)] st1); [by apply stream_run_one|done].
  - cbn. by rewrite Hb.
Qed.

(** The text of an accepted append is a run over its lines. *)
Lemma validate_appended_run {J : JsonEnv} {JL : JsonLaws} {P : JsonParser} st text st' evs :
  validate_appended st text = (st', Ok evs) ->
  exists new, evs = map fst new /\ stream_run st new st' /\
    map snd new = (if String.eqb text "" then [] else map line_bytes (split_terminator lf text)).
Proof.
  unfold validate_appended, validate_appended_with.
  destruct (String.eqb text "").
  { intros [= <- <-]. exists []. split_and!; constructor. }
  destruct (negb (ends_with_char lf text)); [done|].
  destruct (accept_lines _ _ _ _) as [[st1 evs1] r] eqn:Hl. intros H.
  destruct r as [[]| |]; [|done..]. injection H as <- <-.
  by apply accept_lines_push in Hl.
Qed.

(** * Histories *)

Definition started_flow (e : EventEnvelope) : option string :=
  if bool_decide (event_type e = FlowStarted) then flow_id e else None.
Definition is_flow_end (t : EventType) : bool :=
  match t with FlowCompleted | FlowFailed => true | _ => false end.
Definition ended_flow (e : EventEnvelope) : option string :=
  if is_flow_end (event_type e) then flow_id e else None.
Definition entered_phase (e : EventEnvelope) : option string :=
  if bool_decide (event_type e = PhaseEntered) then payload_str e "phase_execution_id" else None.
Definition is_phase_end (t : EventType) : bool :=
  match t with PhaseCompleted | PhaseFailed => true | _ => false end.
Definition ended_phase (e : EventEnvelope) : option string :=
  if is_phase_end (event_type e) then payload_str e "phase_execution_id" else None.

Definition message_of (t : EventType) (e : EventEnvelope) : option MessageLifecycleKey :=
  if bool_decide (event_type e = t) then
    f ← flow_id e; m ← payload_str e "message_id";
    Some {| mk_flow_id := f; mk_message_id := m |}
  else None.

(** The Phases that are open after the events, innermost last. *)
Definition phases_after (phases : gmap string (list PhaseLifecycleKey)) (e : EventEnvelope)
    : gmap string (list PhaseLifecycleKey) :=
  match event_type e, flow_id e with
  | PhaseEntered, Some f =>
      match lifecycle_phase_key e with Ok p => push_phase phases f p | _ => phases end
  | (PhaseCompleted | PhaseFailed), Some f => pop_phase phases f
  | _, _ => phases
  end.

Definition open_phases (evs : list EventEnvelope) : gmap string (list PhaseLifecycleKey) :=
  foldl phases_after ∅ evs.

(** A Tool call is identified within the Phase it belongs to, the innermost open one of its Flow. *)
Definition is_tool_start (t : EventType) : bool := bool_decide (t = ToolStarted).
Definition is_tool_running (t : EventType) : bool :=
  match t with ToolProgress | ToolCompleted | ToolTimedOut => true | _ => false end.
Definition is_tool_failed (t : EventType) : bool := bool_decide (t = ToolFailed).
Definition is_tool_end (t : EventType) : bool :=
  match t with ToolCompleted | ToolTimedOut | ToolFailed => true | _ => false end.

Definition tool_at (sel : EventType -> bool) (phases : gmap string (list PhaseLifecycleKey)) (e : EventEnvelope)
    : option ToolLifecycleKey :=
  if sel (event_type e) then match lifecycle_tool_key e phases with Ok t => Some t | _ => None end else None.

(** The Tool calls of the selected events. *)
Fixpoint tools_from (sel : EventType -> bool) (phases : gmap string (list PhaseLifecycleKey)) (evs : list EventEnvelope)
    : list ToolLifecycleKey :=
  match evs with
  | [] => []
  | e :: evs => option_list (tool_at sel phases e) ++ tools_from sel (phases_after phases e) evs
  end.

Definition tools_of (sel : EventType -> bool) (evs : list EventEnvelope) : list ToolLifecycleKey :=
  tools_from sel ∅ evs.

Lemma tools_from_snoc sel phases evs e :
  tools_from sel phases (evs ++ [e]) =
    tools_from sel phases evs ++ option_list (tool_at sel (foldl phases_after phases evs) e).
Proof.
  revert phases. induction evs as [|x evs IH]; intros phases; cbn; [by rewrite app_nil_r|]. by rewrite IH, app_assoc.
Qed.

Lemma tools_of_snoc sel evs e t :
  t ∈ tools_of sel (evs ++ [e]) <-> t ∈ tools_of sel evs \/ tool_at sel (open_phases evs) e = Some t.
Proof.
  unfold tools_of, open_phases. rewrite tools_from_snoc, elem_of_app. destruct (tool_at _ _ _); cbn; set_solver.
Qed.

Record history (st : SessionAppendValidationState) (evs : list EventEnvelope) : Prop := {
  h_line : line_count st = len evs;
  h_sequence : previous_sequence st = len evs;
  h_sequences : forall i e, evs !! i = Some e -> sequence e = Z.of_nat i + 1;
  h_ids : forall id, id ∈ event_ids st <-> id ∈ map event_id evs;
  h_ids_unique : NoDup (map event_id evs);
  h_session : forall e, e ∈ evs -> stream_session_id st = Some (session_id e);
  h_no_session : evs = [] -> stream_session_id st = None;
  h_expected : forall e x, e ∈ evs -> expected_session_id st = Some x -> session_id e = x;
  h_first : forall i e, evs !! i = Some e -> event_type e = SessionStarted <-> i = O;
  h_terminal : forall i e, evs !! i = Some e -> is_session_end (event_type e) = true <->
    terminal_line st = Some (len evs) /\ S i = List.length evs;
  h_terminal_line : forall n, terminal_line st = Some n -> n = len evs /\ evs <> [];
  h_flow_ids : forall f, f ∈ flow_started_ids st <-> f ∈ omap started_flow evs;
  h_flows_unique : NoDup (omap started_flow evs);
  h_flow_budget : Z.of_nat (size (flow_started_ids st)) <= MAX_FLOW_INVOCATIONS;
  h_started : forall f, is_started (flows (lifecycle st)) f = true <-> f ∈ omap started_flow evs;
  h_ended : forall f, is_Some (terminal (flows (lifecycle st)) !! f) <-> f ∈ omap ended_flow evs;
  h_phases_ended : forall x, is_Some (terminal_phases (lifecycle st) !! x) <-> x ∈ omap ended_phase evs;
  h_phases_entered : forall x, x ∈ omap entered_phase evs <->
    is_Some (terminal_phases (lifecycle st) !! x) \/
    exists f p, on_stack (active_phases (lifecycle st)) f p /\ phase_execution_id p = x;
  h_messages_done : forall m,
    is_Some (terminal_messages (lifecycle st) !! m) <-> m ∈ omap (message_of MessageCompleted) evs;
  h_messages : forall m, m ∈ omap (message_of MessageDelta) evs <->
    is_Some (terminal_messages (lifecycle st) !! m) \/
    is_Some (active_message_roles (lifecycle st) !! m);
  h_open_phases : active_phases (lifecycle st) = open_phases evs;
  h_tools_ended : forall t, is_Some (terminal (tools (lifecycle st)) !! t) <-> t ∈ tools_of is_tool_end evs;
  h_tools : forall t, t ∈ active (tools (lifecycle st)) <->
    t ∈ tools_of is_tool_start evs /\ ~ t ∈ tools_of is_tool_end evs;
  h_inv : lifecycle_inv (lifecycle st);
}.

Lemma history_new expected : history (new_state expected) [].
Proof.
  constructor; cbn; try done; try set_solver; try apply NoDup_nil_2;
    try apply lifecycle_inv_default; intros x; rewrite ?lookup_empty, ?elem_of_nil;
    try (by split; [intros [? ?]|]).
  - split; [done|]. intros [[? ?]|(f & p & (st & Hst & _) & _)]; [done|].
    by rewrite lookup_empty in Hst.
  - split; [done|]. by intros [[? ?]|[? ?]].
Qed.

(** * How recording moves the lifecycle sets *)

Section record.
Context (s s' : SessionLifecycleState) (line : Z) (e : EventEnvelope).
Context (Hr : lifecycle_record_event s line e = Ok s').

Lemma record_terminal_flows f :
  is_Some (terminal (flows s') !! f) <->
  is_Some (terminal (flows s) !! f) \/ ended_flow e = Some f.
Proof using Hr.
  unfold lifecycle_record_event, ended_flow in *.
  destruct (event_type e) eqn:Ht; cbn [is_flow_end]; inv_ok; try (cbn; naive_solver).
  3: { destruct (active_message_roles s !! _); inv_ok; cbn; naive_solver. }
  all: cbn; rewrite Hx; destruct (decide (f = x)) as [->|Hne];
    rewrite ?lookup_insert_eq, ?lookup_insert_ne by done; naive_solver.
Qed.

Lemma record_started_flows f :
  is_started (flows s') f = true <->
  is_started (flows s) f = true \/ started_flow e = Some f \/ ended_flow e = Some f.
Proof using Hr.
  rewrite !is_started_spec, record_terminal_flows.
  unfold lifecycle_record_event, ended_flow, started_flow in *.
  destruct (event_type e) eqn:Ht; cbn [is_flow_end]; inv_ok; try (cbn; naive_solver);
    try (destruct (active_message_roles s !! _); inv_ok; cbn; naive_solver).
  - cbn. rewrite Hx. set_solver.
  - cbn. rewrite Hx, elem_of_difference, elem_of_singleton.
    destruct (decide (f = x)) as [->|Hne]; naive_solver.
  - cbn. rewrite Hx, elem_of_difference, elem_of_singleton.
    destruct (decide (f = x)) as [->|Hne]; naive_solver.
Qed.

Lemma record_terminal_phases x :
  is_Some (terminal_phases s' !! x) <->
  is_Some (terminal_phases s !! x) \/ ended_phase e = Some x.
Proof using Hr.
  unfold lifecycle_record_event, ended_phase, lifecycle_payload_string in *.
  destruct (event_type e) eqn:Ht; cbn [is_phase_end]; inv_ok; try (cbn; naive_solver);
    try (destruct (active_message_roles s !! _); inv_ok; cbn; naive_solver).
  all: cbn; rewrite Hx0; destruct (decide (x = x1)) as [->|Hne];
    rewrite ?lookup_insert_eq, ?lookup_insert_ne by done; naive_solver.
Qed.

Lemma record_terminal_messages m :
  is_Some (terminal_messages s' !! m) <->
  is_Some (terminal_messages s !! m) \/ message_of MessageCompleted e = Some m.
Proof using Hr.
  unfold lifecycle_record_event, message_of, lifecycle_payload_string in *.
  destruct (event_type e) eqn:Ht; inv_ok; try (cbn; naive_solver);
    try (destruct (active_message_roles s !! _); inv_ok; cbn; naive_solver).
  rewrite bool_decide_eq_true_2 by done. cbn. rewrite Hx. cbn. rewrite Hx0. cbn.
  destruct (decide (m = {| mk_flow_id := x; mk_message_id := x0 |})) as [->|Hne];
    rewrite ?lookup_insert_eq, ?lookup_insert_ne by done; naive_solver.
Qed.

Lemma record_messages m :
  (forall k, message_of MessageCompleted e = Some k -> is_Some (active_message_roles s !! k)) ->
  is_Some (terminal_messages s' !! m) \/ is_Some (active_message_roles s' !! m) <->
  (is_Some (terminal_messages s !! m) \/ is_Some (active_message_roles s !! m)) \/
  message_of MessageDelta e = Some m.
Proof using Hr.
  intros Hopen. rewrite record_terminal_messages.
  unfold lifecycle_record_event, message_of, lifecycle_payload_string in *.
  destruct (event_type e) eqn:Ht; inv_ok; try (cbn; naive_solver).
  - change (bool_decide (MessageDelta = MessageCompleted)) with false.
    change (bool_decide (MessageDelta = MessageDelta)) with true. cbn. rewrite Hx. cbn.
    rewrite Hx0. cbn. set (k := {| mk_flow_id := x; mk_message_id := x0 |}) in *.
    destruct (active_message_roles s !! k) eqn:Ha; inv_ok; cbn;
      destruct (decide (m = k)) as [->|Hne];
      rewrite ?lookup_insert_eq, ?lookup_insert_ne, ?Ha by done; naive_solver.
  - change (bool_decide (MessageCompleted = MessageDelta)) with false.
    change (bool_decide (MessageCompleted = MessageCompleted)) with true in *. cbn in *.
    rewrite Hx in *. cbn in *. rewrite Hx0 in *. cbn in *.
    destruct (decide (m = {| mk_flow_id := x; mk_message_id := x0 |})) as [->|Hne];
      [|rewrite lookup_delete_ne by done]; specialize (Hopen _ eq_refl); naive_solver.
Qed.
Lemma record_open_phases : active_phases s' = phases_after (active_phases s) e.
Proof using Hr.
  unfold lifecycle_record_event, phases_after in *.
  destruct (event_type e) eqn:Ht; inv_ok; try (cbn; by destruct (flow_id e)).
  - cbn. by rewrite Hx, Hx0.
  - cbn. by rewrite Hx.
  - cbn. by rewrite Hx.
  - destruct (active_message_roles s !! _); inv_ok; cbn; by destruct (flow_id e).
Qed.

Lemma record_terminal_tools t :
  is_Some (terminal (tools s') !! t) <->
  is_Some (terminal (tools s) !! t) \/ tool_at is_tool_end (active_phases s) e = Some t.
Proof using Hr.
  unfold lifecycle_record_event, tool_at in *.
  destruct (event_type e) eqn:Ht; cbn [is_tool_end]; inv_ok; try (cbn; naive_solver);
    try (destruct (active_message_roles s !! _); inv_ok; cbn; naive_solver).
  all: cbn; rewrite Hx; destruct (decide (t = x)) as [->|Hne];
    rewrite ?lookup_insert_eq, ?lookup_insert_ne by done; naive_solver.
Qed.

Lemma record_active_tools t :
  t ∈ active (tools s') <->
  (t ∈ active (tools s) \/ tool_at is_tool_start (active_phases s) e = Some t) /\
  tool_at is_tool_end (active_phases s) e <> Some t.
Proof using Hr.
  unfold lifecycle_record_event, tool_at, is_tool_start in *.
  destruct (event_type e) eqn:Ht; cbn [is_tool_end]; inv_ok; try (cbn; naive_solver);
    try (destruct (active_message_roles s !! _); inv_ok; cbn; naive_solver).
  all: cbn; rewrite Hx; set_solver.
Qed.
End record.

Section seen_phases.
Context (s : SessionLifecycleState) (line : Z).

(** The phase executions that were ever entered. *)
Definition seen_phase (st : SessionLifecycleState) (x : string) : Prop :=
  is_Some (terminal_phases st !! x) \/
  exists f p, on_stack (active_phases st) f p /\ phase_execution_id p = x.

Lemma seen_phase_push f p x :
  seen_phase (with_phases s (push_phase (active_phases s) f p) (terminal_phases s)) x <->
  seen_phase s x \/ phase_execution_id p = x.
Proof.
  unfold seen_phase. cbn. split.
  - intros [Hx|(g & q & [Hq|[-> ->]]%on_stack_push & <-)]; eauto 10.
  - intros [[Hx|(g & q & (st & Hg & Hq) & <-)]|<-]; [by left|right; exists g, q|right; exists f, p].
    + split; [|done]. unfold push_phase. destruct (decide (g = f)) as [->|Hne].
      * eexists. rewrite lookup_insert_eq, Hg. split; [done|]. apply elem_of_app. by left.
      * exists st. by rewrite lookup_insert_ne.
    + split; [|done]. unfold push_phase. eexists. rewrite lookup_insert_eq.
      split; [done|]. apply elem_of_app. right. by apply list_elem_of_singleton.
Qed.

Lemma seen_phase_pop f p x :
  lifecycle_inv s -> active_phase (active_phases s) f = Some p ->
  seen_phase (with_phases s (pop_phase (active_phases s) f)
    (<[phase_execution_id p := line]> (terminal_phases s))) x <-> seen_phase s x.
Proof.
  intros Hs Hp. destruct (active_phase_top s f p Hs Hp) as (below & Hst & _).
  unfold seen_phase. cbn. split.
  - intros [Hx|(g & q & (st & Hg & Hq) & <-)].
    + destruct (decide (phase_execution_id p = x)) as [<-|Hne].
      * right. exists f, p. split; [|done]. eexists. split; [done|]. set_solver.
      * rewrite lookup_insert_ne in Hx by done. by left.
    + right. exists g, q. split; [|done].
      destruct (pop_phase_lookup _ _ _ _ _ _ Hst Hg) as [[_ Hg']|(-> & -> & _)]; [by exists st|].
      eexists. split; [done|]. set_solver.
  - destruct (decide (phase_execution_id p = x)) as [<-|Hne].
    { intros _. left. rewrite lookup_insert_eq. eauto. }
    rewrite lookup_insert_ne by done. intros [Hx|(g & q & (st & Hg & Hq) & <-)]; [by left|].
    right. exists g, q. split; [|done]. unfold on_stack.
    rewrite (pop_phase_snoc _ _ _ _ _ Hst). case_decide as Hgf; [|by exists st]. subst g.
    rewrite Hst in Hg. injection Hg as <-.
    apply elem_of_app in Hq as [Hq|Hq%list_elem_of_singleton]; [|congruence].
    exists below. split; [|done]. by destruct below; [set_solver|].
Qed.
End seen_phases.

Lemma record_seen_phases s s' line e x :
  lifecycle_inv s -> lifecycle_validate_event s line e = Ok tt ->
  lifecycle_record_event s line e = Ok s' ->
  seen_phase s' x <-> seen_phase s x \/ entered_phase e = Some x.
Proof.
  intros Hs Hv Hr. unfold lifecycle_validate_event in Hv.
  destruct (_ && bool_decide (event_type e = SessionStarted)); [done|].
  apply bind_Ok_inv in Hv as (u1 & _ & Hv). apply bind_Ok_inv in Hv as (u2 & _ & Hv).
  unfold lifecycle_record_event, lifecycle_payload_string, entered_phase in *.
  destruct (event_type e) eqn:Ht;
    try (rewrite bool_decide_eq_false_2 by done; inv_ok; cbn; unfold seen_phase; cbn; naive_solver).
  - inv_ok. rewrite bool_decide_eq_true_2 by done.
    rewrite seen_phase_push, (lifecycle_phase_key_Ok _ _ Hx0). naive_solver.
  - inv_ok. apply validate_phase_end_Ok in Hv as (f & p & Hf & Hp & Hid & _). simplify_eq.
    rewrite seen_phase_pop, bool_decide_eq_false_2 by done. naive_solver.
  - inv_ok. apply validate_phase_end_Ok in Hv as (f & p & Hf & Hp & Hid & _). simplify_eq.
    rewrite seen_phase_pop, bool_decide_eq_false_2 by done. naive_solver.
  - inv_ok. rewrite bool_decide_eq_false_2 by done.
    destruct (active_message_roles s !! _); inv_ok; unfold seen_phase; cbn; naive_solver.
Qed.

(** * Accepted events *)

Record accepted (st : SessionAppendValidationState) (e : EventEnvelope) : Prop := {
  ac_expected : forall x, expected_session_id st = Some x -> session_id e = x;
  ac_sequence : sequence e = previous_sequence st + 1;
  ac_id : event_id e ∉ event_ids st;
  ac_not_terminal : terminal_line st = None;
  ac_flow : event_type e = FlowStarted -> exists f, flow_id e = Some f /\
    (f ∉ flow_started_ids st) /\ Z.of_nat (size (flow_started_ids st)) < MAX_FLOW_INVOCATIONS;
  ac_session : forall x, stream_session_id st = Some x -> session_id e = x;
  ac_first : line_count st = 0 -> event_type e = SessionStarted;
  ac_lifecycle : lifecycle_validate_event (lifecycle st) (line_count st + 1) e = Ok tt;
  ac_end : is_session_end (event_type e) = true ->
    validate_terminal_session (lifecycle st) (Some e) = Ok tt;
}.

Lemma validate_flow_started_Ok st line e :
  validate_flow_started st line e = Ok tt ->
  exists f, flow_id e = Some f /\ (f ∉ flow_started_ids st) /\
    Z.of_nat (size (flow_started_ids st)) < MAX_FLOW_INVOCATIONS.
Proof.
  unfold validate_flow_started. intros H. inv_ok. exists x.
  apply bool_decide_eq_false in Hb. split_and!; [done..|]. lia.
Qed.

Lemma validate_event_accepted st e :
  validate_event st (line_count st + 1) e = Ok tt -> accepted st e.
Proof.
  unfold validate_event. intros H.
  apply bind_Ok_inv in H as ([] & Hexp & H).
  destruct (_ && negb (sequence e =? 1)) eqn:Hfirst; [done|].
  destruct (negb (bool_decide (checked_succ _ = _))) eqn:Hseq; [done|].
  destruct (bool_decide (event_id e ∈ event_ids st)) eqn:Hid; [done|].
  apply bind_Ok_inv in H as ([] & Hterm & H). apply bind_Ok_inv in H as ([] & Hflow & H).
  apply bind_Ok_inv in H as ([] & Hsess & H).
  destruct (_ && negb (bool_decide (event_type e = SessionStarted))) eqn:Hstart; [done|].
  apply bind_Ok_inv in H as ([] & Hlife & H).
  constructor; try done.
  - intros x Hx. rewrite Hx in Hexp. destruct (String.eqb_spec x (session_id e)); done.
  - apply negb_false_iff, bool_decide_eq_true in Hseq. unfold checked_succ in Hseq.
    destruct (_ <? _); [|done]. by injection Hseq.
  - by apply bool_decide_eq_false in Hid.
  - by destruct (terminal_line st).
  - intros Ht. rewrite bool_decide_eq_true_2 in Hflow by done.
    by apply validate_flow_started_Ok in Hflow.
  - intros x Hx. rewrite Hx in Hsess. destruct (String.eqb_spec x (session_id e)); done.
  - intros Hl. rewrite Hl in Hstart. cbn in Hstart.
    by apply negb_false_iff, bool_decide_eq_true in Hstart.
  - intros Hend. by rewrite Hend in H.
Qed.

(** What recording an accepted event writes outside the lifecycle. *)
Lemma record_event_Ok st line e bytes st' :
  record_event st line e bytes = Ok st' ->
  expected_session_id st' = expected_session_id st /\
  stream_session_id st' = Some (default (session_id e) (stream_session_id st)) /\
  previous_sequence st' = sequence e /\ event_ids st' = {[event_id e]} ∪ event_ids st /\
  flow_started_ids st' =
    match started_flow e with Some f => {[f]} ∪ flow_started_ids st | None => flow_started_ids st end /\
  terminal_line st' = (if is_session_end (event_type e) then Some line else terminal_line st) /\
  stream_bytes st' = sat_u64 (stream_bytes st + bytes) /\ line_count st' = line /\
  lifecycle_record_event (lifecycle st) line e = Ok (lifecycle st').
Proof.
  unfold record_event, started_flow. intros H.
  destruct (bool_decide (event_id e ∈ _)); [done|]. inv_ok. cbn. split_and!; try done.
  destruct (bool_decide (event_type e = FlowStarted)); inv_ok; [|done].
  rewrite Hx1. by destruct (bool_decide (x1 ∈ _)); inv_ok.
Qed.

Lemma omap_snoc {A B} (f : A -> option B) l a b :
  b ∈ omap f (l ++ [a]) <-> b ∈ omap f l \/ f a = Some b.
Proof.
  rewrite omap_app, elem_of_app. cbn. destruct (f a); set_solver.
Qed.

Lemma NoDup_omap_snoc {A B} (f : A -> option B) l a :
  NoDup (omap f l) -> (forall b, f a = Some b -> b ∉ omap f l) -> NoDup (omap f (l ++ [a])).
Proof.
  intros Hl Ha. rewrite omap_app. apply NoDup_app. split_and!; [done| |].
  - intros b Hb Hb'. cbn in Hb'. destruct (f a) eqn:Hf; set_solver.
  - cbn. destruct (f a); repeat constructor; set_solver.
Qed.

Lemma snoc_lookup {A} (l : list A) a i b :
  (l ++ [a]) !! i = Some b <-> l !! i = Some b \/ i = List.length l /\ b = a.
Proof.
  rewrite lookup_app_Some. split.
  - intros [|[Hl Hi]]; [by left|]. right. apply list_lookup_singleton_Some in Hi as [Hi ->].
    split; [lia|done].
  - intros [|[-> ->]]; [by left|]. right. rewrite Nat.sub_diag. split; [lia|done].
Qed.

Lemma lifecycle_completed_open s line e k :
  lifecycle_validate_event s line e = Ok tt -> message_of MessageCompleted e = Some k ->
  is_Some (active_message_roles s !! k).
Proof.
  unfold lifecycle_validate_event, message_of. intros Hv Hk.
  case_bool_decide as Ht; [|done]. rewrite Ht in Hv.
  apply bind_Some in Hk as (f & Hf & (m & Hm & [= <-])%bind_Some).
  destruct (_ && _); [done|].
  apply bind_Ok_inv in Hv as (u1 & _ & Hv). apply bind_Ok_inv in Hv as (u2 & _ & Hv).
  apply bind_Ok_inv in Hv as (u3 & _ & Hv).
  apply validate_message_completed_Ok in Hv as ([f' m'] & Hf' & Hm' & _ & Ha).
  cbn in *. by simplify_eq.
Qed.

Lemma ended_flow_open s line e f :
  lifecycle_validate_event s line e = Ok tt -> ended_flow e = Some f -> f ∈ active (flows s).
Proof.
  unfold lifecycle_validate_event, ended_flow. intros Hv Hf.
  destruct (is_flow_end (event_type e)) eqn:Ht; [|done].
  destruct (_ && bool_decide (event_type e = SessionStarted)); [done|].
  apply bind_Ok_inv in Hv as ([] & Ho & _). eapply validate_flow_open_Ok; [done| |done].
  intros E. by rewrite E in Ht.
Qed.

Section history_step.
Context {J : JsonEnv}.
Context (st : SessionAppendValidationState) (evs : list EventEnvelope).
Context (e : EventEnvelope) (bytes : Z) (st' : SessionAppendValidationState).
Context (Hh : history st evs) (Hstep : stream_step st e bytes st').

Lemma step_accepted : accepted st e.
Proof using Hstep. destruct Hstep. by apply validate_event_accepted. Qed.

Lemma step_record : record_event st (line_count st + 1) e bytes = Ok st'.
Proof using Hstep. by destruct Hstep. Qed.

Lemma step_lifecycle :
  lifecycle_record_event (lifecycle st) (line_count st + 1) e = Ok (lifecycle st').
Proof using Hstep.
  by pose proof step_record as (_ & _ & _ & _ & _ & _ & _ & _ & ?)%record_event_Ok.
Qed.

Lemma fresh_started f : started_flow e = Some f -> f ∉ omap started_flow evs.
Proof using Hh Hstep.
  unfold started_flow. case_bool_decide as Ht; [|done]. intros Hf.
  destruct (ac_flow _ _ step_accepted Ht) as (f' & Hf' & Hn & _). simplify_eq.
  by rewrite <- (h_flow_ids _ _ Hh).
Qed.

Lemma step_inv : lifecycle_inv (lifecycle st').
Proof using Hh Hstep.
  eapply lifecycle_step_inv; [apply (h_inv _ _ Hh)| |apply (ac_lifecycle _ _ step_accepted)|
    apply step_lifecycle].
  intros f Ht Hf. apply not_true_iff_false. rewrite (h_started _ _ Hh).
  apply fresh_started. unfold started_flow. by rewrite bool_decide_eq_true_2.
Qed.

Lemma step_started f :
  is_started (flows (lifecycle st')) f = true <-> f ∈ omap started_flow (evs ++ [e]).
Proof using Hh Hstep.
  rewrite omap_snoc, (record_started_flows _ _ _ _ step_lifecycle), (h_started _ _ Hh).
  split; [|naive_solver]. intros [|[|Hf]]; [by left|by right|]. left.
  rewrite <- (h_started _ _ Hh), is_started_spec. left.
  eapply ended_flow_open; [apply (ac_lifecycle _ _ step_accepted)|done].
Qed.

Lemma step_flow_budget :
  Z.of_nat (size (flow_started_ids st')) <= MAX_FLOW_INVOCATIONS.
Proof using Hh Hstep.
  pose proof step_record as (_ & _ & _ & _ & -> & _)%record_event_Ok.
  pose proof (h_flow_budget _ _ Hh).
  unfold started_flow. case_bool_decide as Ht; [|done].
  destruct (ac_flow _ _ step_accepted Ht) as (f & -> & Hn & Hlt).
  rewrite size_union by set_solver. rewrite size_singleton. lia.
Qed.

Lemma step_sequence : sequence e = len evs + 1 /\ line_count st + 1 = len (evs ++ [e]).
Proof using Hh Hstep.
  pose proof (ac_sequence _ _ step_accepted) as H1. rewrite (h_sequence _ _ Hh) in H1.
  rewrite (h_line _ _ Hh). unfold len in *. rewrite length_app. cbn. lia.
Qed.

Lemma step_first i ev :
  (evs ++ [e]) !! i = Some ev -> event_type ev = SessionStarted <-> i = O.
Proof using Hh Hstep.
  rewrite snoc_lookup. intros [Hi|[-> ->]]; [by apply (h_first _ _ Hh)|].
  pose proof (ac_first _ _ step_accepted) as H1. rewrite (h_line _ _ Hh) in H1. split.
  - intros Ht. pose proof (ac_lifecycle _ _ step_accepted) as Hv.
    unfold lifecycle_validate_event in Hv. rewrite Ht, (h_line _ _ Hh) in Hv.
    change (bool_decide (SessionStarted = SessionStarted)) with true in Hv.
    destruct (Z.ltb_spec 1 (len evs + 1)); [done|]. unfold len in *. lia.
  - intros Hl. apply H1. unfold len. by rewrite Hl.
Qed.

Lemma step_terminal i ev :
  (evs ++ [e]) !! i = Some ev -> is_session_end (event_type ev) = true <->
  terminal_line st' = Some (len (evs ++ [e])) /\ S i = List.length (evs ++ [e]).
Proof using Hh Hstep.
  pose proof step_record as (_ & _ & _ & _ & _ & -> & _)%record_event_Ok.
  destruct step_sequence as [_ Hl]. pose proof (ac_not_terminal _ _ step_accepted) as Hn.
  rewrite Hl, Hn, length_app. cbn. rewrite snoc_lookup. intros [Hi|[-> ->]].
  - pose proof (h_terminal _ _ Hh _ _ Hi) as Ht. rewrite Hn in Ht.
    apply lookup_lt_Some in Hi. split; [naive_solver|]. intros [_ ?]. lia.
  - destruct (is_session_end (event_type e)); split; try done; [|naive_solver].
    intros _. split; [done|lia].
Qed.

Lemma started_tool_fresh t :
  tool_at is_tool_start (open_phases evs) e = Some t ->
  (~ t ∈ tools_of is_tool_start evs) /\ (~ t ∈ tools_of is_tool_end evs) /\
  exists f p, flow_id e = Some f /\ active_phase (open_phases evs) f = Some p /\ phase_kind p = Leaf.
Proof using Hh Hstep.
  pose proof (ac_lifecycle _ _ step_accepted) as Hv. unfold tool_at, is_tool_start.
  case_bool_decide as Ht; [|done]. intros Hk. unfold lifecycle_validate_event in Hv. rewrite Ht in Hv.
  destruct (_ && _); [done|]. apply bind_Ok_inv in Hv as ([] & _ & Hv). apply bind_Ok_inv in Hv as ([] & _ & Hv).
  apply validate_tool_started_Ok in Hv as (t' & f & p & Hk' & Hterm & Hact & Hf & Hp & Hl & _).
  pose proof (lifecycle_tool_key_Ok _ _ _ Hk') as [Hflow _].
  rewrite (h_open_phases _ _ Hh) in *. rewrite Hk' in Hk. injection Hk as ->.
  assert (~ t ∈ tools_of is_tool_end evs) as Hend.
  { rewrite <- (h_tools_ended _ _ Hh), Hterm. by intros [? ?]. }
  split_and!; [|done|exists f, p; split_and!; [congruence|done..]].
  intros Hs. by apply Hact, (h_tools _ _ Hh).
Qed.

Lemma step_tools_ended t :
  is_Some (terminal (tools (lifecycle st')) !! t) <-> t ∈ tools_of is_tool_end (evs ++ [e]).
Proof using Hh Hstep.
  by rewrite tools_of_snoc, (record_terminal_tools _ _ _ _ step_lifecycle), (h_tools_ended _ _ Hh), (h_open_phases _ _ Hh).
Qed.

Lemma step_tools t :
  t ∈ active (tools (lifecycle st')) <->
  t ∈ tools_of is_tool_start (evs ++ [e]) /\ ~ t ∈ tools_of is_tool_end (evs ++ [e]).
Proof using Hh Hstep.
  rewrite !tools_of_snoc, (record_active_tools _ _ _ _ step_lifecycle), (h_tools _ _ Hh), (h_open_phases _ _ Hh).
  pose proof (started_tool_fresh t). naive_solver.
Qed.

Lemma history_step : history st' (evs ++ [e]).
Proof using Hh Hstep.
  pose proof step_record as (He & Hsid & Hseq & Hids & Hfl & Hterm & _ & Hline & _)%record_event_Ok.
  pose proof step_accepted as Hac. destruct step_sequence as [Hs1 Hs2].
  constructor.
  - by rewrite Hline.
  - rewrite Hseq, Hs1. unfold len. rewrite length_app. cbn. lia.
  - intros i ev [Hi|[-> ->]]%snoc_lookup; [by apply (h_sequences _ _ Hh)|done].
  - intros id. rewrite Hids, map_app, elem_of_app, elem_of_union, (h_ids _ _ Hh). set_solver.
  - rewrite map_app. apply NoDup_app. split_and!; [apply (h_ids_unique _ _ Hh)| |repeat constructor; set_solver].
    intros id Hid Hid'. cbn in Hid'. apply list_elem_of_singleton in Hid' as ->.
    apply (ac_id _ _ Hac). by apply (h_ids _ _ Hh).
  - intros ev [Hev|Hev%list_elem_of_singleton]%elem_of_app; rewrite Hsid.
    + by rewrite (h_session _ _ Hh ev Hev).
    + subst ev. destruct (stream_session_id st) as [x|] eqn:Hx; [|done]. cbn.
      by rewrite (ac_session _ _ Hac x Hx).
  - intros Hnil. by destruct evs.
  - rewrite He. intros ev x [Hev|Hev%list_elem_of_singleton]%elem_of_app Hx.
    + by apply (h_expected _ _ Hh).
    + subst ev. by apply (ac_expected _ _ Hac).
  - intros i ev. apply step_first.
  - intros i ev. apply step_terminal.
  - intros n. rewrite Hterm, (ac_not_terminal _ _ Hac), Hs2.
    case_match; [|done]. intros [= <-]. split; [done|]. by destruct evs.
  - intros f. rewrite Hfl, omap_snoc, <- (h_flow_ids _ _ Hh). destruct (started_flow e); set_solver.
  - apply NoDup_omap_snoc; [apply (h_flows_unique _ _ Hh)|]. apply fresh_started.
  - apply step_flow_budget.
  - apply step_started.
  - intros f. by rewrite omap_snoc, (record_terminal_flows _ _ _ _ step_lifecycle), (h_ended _ _ Hh).
  - intros x. by rewrite omap_snoc, (record_terminal_phases _ _ _ _ step_lifecycle), (h_phases_ended _ _ Hh).
  - intros x. rewrite omap_snoc, (h_phases_entered _ _ Hh).
    symmetry. eapply record_seen_phases; [apply (h_inv _ _ Hh)|apply (ac_lifecycle _ _ Hac)|apply step_lifecycle].
  - intros m. by rewrite omap_snoc, (record_terminal_messages _ _ _ _ step_lifecycle), (h_messages_done _ _ Hh).
  - intros m. rewrite omap_snoc, (h_messages _ _ Hh). symmetry.
    eapply record_messages; [apply step_lifecycle|]. intros k.
    apply (lifecycle_completed_open _ (line_count st + 1)). apply (ac_lifecycle _ _ Hac).
  - rewrite (record_open_phases _ _ _ _ step_lifecycle), (h_open_phases _ _ Hh). unfold open_phases. by rewrite foldl_app.
  - apply step_tools_ended.
  - apply step_tools.
  - apply step_inv.
Qed.
End history_step.

Lemma run_history {J : JsonEnv} st evs0 evs st' :
  history st evs0 -> stream_run st evs st' -> history st' (evs0 ++ map fst evs).
Proof.
  intros Hh. induction 1 as [|evs st1 e b st2 Hrun IH Hstep]; [by rewrite app_nil_r|].
  rewrite map_app, app_assoc. cbn. by eapply history_step.
Qed.

(** * The order of an accepted stream *)

(** Where [e] may come after the events [pre]. *)
Record in_order (pre : list EventEnvelope) (e : EventEnvelope) : Prop := {
  io_flow : forall f, flow_id e = Some f -> event_type e <> FlowStarted ->
    f ∈ omap started_flow pre /\ ~ f ∈ omap ended_flow pre;
  io_flow_started : forall f, started_flow e = Some f -> ~ f ∈ omap started_flow pre;
  io_parent : forall p, parent_flow_id e = Some p ->
    flow_id e <> Some p /\ p ∈ omap started_flow pre /\ ~ p ∈ omap ended_flow pre;
  io_phase_entered : forall x, entered_phase e = Some x -> ~ x ∈ omap entered_phase pre;
  io_phase_ended : forall x, ended_phase e = Some x ->
    x ∈ omap entered_phase pre /\ ~ x ∈ omap ended_phase pre;
  io_message_delta : forall m, message_of MessageDelta e = Some m ->
    ~ m ∈ omap (message_of MessageCompleted) pre;
  io_message_completed : forall m, message_of MessageCompleted e = Some m ->
    m ∈ omap (message_of MessageDelta) pre /\ ~ m ∈ omap (message_of MessageCompleted) pre;
  io_message_phase : forall t m, t = MessageDelta \/ t = MessageCompleted -> message_of t e = Some m ->
    exists p, active_phase (open_phases pre) (mk_flow_id m) = Some p /\ phase_kind p = Leaf;
  io_tool_started : forall t, tool_at is_tool_start (open_phases pre) e = Some t ->
    (~ t ∈ tools_of is_tool_start pre) /\ (~ t ∈ tools_of is_tool_end pre) /\
    exists f p, flow_id e = Some f /\ active_phase (open_phases pre) f = Some p /\ phase_kind p = Leaf;
  io_tool_running : forall t, tool_at is_tool_running (open_phases pre) e = Some t ->
    t ∈ tools_of is_tool_start pre /\ ~ t ∈ tools_of is_tool_end pre;
  io_tool_failed : forall t, tool_at is_tool_failed (open_phases pre) e = Some t ->
    (~ t ∈ tools_of is_tool_end pre) /\
    (t ∈ tools_of is_tool_start pre \/ exists f, flow_id e = Some f /\ open_phases pre !! f = None);
  io_session : forall ev, ev ∈ pre -> is_session_end (event_type ev) = false;
}.

Section order.
Context {J : JsonEnv}.
Context (st : SessionAppendValidationState) (evs : list EventEnvelope).
Context (e : EventEnvelope) (bytes : Z) (st' : SessionAppendValidationState).
Context (Hh : history st evs) (Hstep : stream_step st e bytes st').

(** The checks of the lifecycle validator on an accepted event. *)
Lemma step_checks :
  validate_flow_open (lifecycle st) (line_count st + 1) e = Ok tt /\
  validate_lifecycle_parent (line_count st + 1) e (flows (lifecycle st))
    (flow_parents (lifecycle st)) = Ok tt.
Proof using Hstep.
  pose proof (ac_lifecycle _ _ (step_accepted st e bytes st' Hstep)) as Hv.
  unfold lifecycle_validate_event in Hv.
  destruct (_ && bool_decide (event_type e = SessionStarted)); [done|].
  apply bind_Ok_inv in Hv as ([] & H1 & Hv). by apply bind_Ok_inv in Hv as ([] & H2 & _).
Qed.

Lemma open_in_history f :
  f ∈ active (flows (lifecycle st)) -> f ∈ omap started_flow evs /\ ~ f ∈ omap ended_flow evs.
Proof using Hh.
  intros Hf. rewrite <- (h_started _ _ Hh), <- (h_ended _ _ Hh), is_started_spec.
  split; [by left|]. rewrite (li_flows _ (h_inv _ _ Hh) f Hf). by intros [? ?].
Qed.

Lemma step_phase_entered x : entered_phase e = Some x -> ~ x ∈ omap entered_phase evs.
Proof using Hh Hstep.
  pose proof (ac_lifecycle _ _ (step_accepted st e bytes st' Hstep)) as Hv.
  unfold entered_phase. case_bool_decide as Ht; [|done]. intros Hx Hin.
  unfold lifecycle_validate_event in Hv. rewrite Ht in Hv.
  destruct (_ && _); [done|].
  apply bind_Ok_inv in Hv as ([] & _ & Hv). apply bind_Ok_inv in Hv as ([] & _ & Hv).
  apply validate_phase_entered_Ok in Hv as (f & p & _ & Hp & Hterm & Hstack & _).
  apply lifecycle_phase_key_Ok in Hp. simplify_eq.
  apply (h_phases_entered _ _ Hh) in Hin as [[n Hn]|(g & q & Hq & Heq)]; [congruence|].
  by apply (Hstack g q).
Qed.

Lemma step_phase_ended x :
  ended_phase e = Some x -> x ∈ omap entered_phase evs /\ ~ x ∈ omap ended_phase evs.
Proof using Hh Hstep.
  pose proof (ac_lifecycle _ _ (step_accepted st e bytes st' Hstep)) as Hv.
  unfold ended_phase. destruct (is_phase_end (event_type e)) eqn:Ht; [|done]. intros Hx.
  unfold lifecycle_validate_event in Hv.
  destruct (_ && bool_decide (event_type e = SessionStarted)); [done|].
  apply bind_Ok_inv in Hv as ([] & _ & Hv). apply bind_Ok_inv in Hv as ([] & _ & Hv).
  assert (validate_phase_end (lifecycle st) (line_count st + 1) e = Ok tt) as Hend
    by (by destruct (event_type e)).
  apply validate_phase_end_Ok in Hend as (f & p & _ & Hp & Hid & _). simplify_eq.
  destruct (active_phase_top _ f p (h_inv _ _ Hh) Hp) as (below & Hst & _).
  assert (on_stack (active_phases (lifecycle st)) f p) as Hon
    by (eexists; split; [done|]; set_solver).
  split.
  - apply (h_phases_entered _ _ Hh). right. eauto.
  - rewrite <- (h_phases_ended _ _ Hh). rewrite (li_phases _ (h_inv _ _ Hh) f p Hon). by intros [? ?].
Qed.

Lemma step_message_delta m :
  message_of MessageDelta e = Some m -> ~ m ∈ omap (message_of MessageCompleted) evs.
Proof using Hh Hstep.
  pose proof (ac_lifecycle _ _ (step_accepted st e bytes st' Hstep)) as Hv.
  unfold message_of at 1. case_bool_decide as Ht; [|done].
  intros (f & Hf & (k & Hk & [= <-])%bind_Some)%bind_Some.
  unfold lifecycle_validate_event in Hv. rewrite Ht in Hv.
  destruct (_ && _); [done|].
  apply bind_Ok_inv in Hv as ([] & _ & Hv). apply bind_Ok_inv in Hv as ([] & _ & Hv).
  apply bind_Ok_inv in Hv as (u3 & _ & Hv).
  apply validate_message_delta_Ok in Hv as ([f' m'] & Hf' & Hm' & Hn). cbn in *. simplify_eq.
  rewrite <- (h_messages_done _ _ Hh). rewrite Hn. by intros [? ?].
Qed.

Lemma step_message_completed m :
  message_of MessageCompleted e = Some m ->
  m ∈ omap (message_of MessageDelta) evs /\ ~ m ∈ omap (message_of MessageCompleted) evs.
Proof using Hh Hstep.
  intros Hm. pose proof (ac_lifecycle _ _ (step_accepted st e bytes st' Hstep)) as Hv.
  pose proof (lifecycle_completed_open _ _ _ _ Hv Hm) as Ha. split.
  - apply (h_messages _ _ Hh). by right.
  - rewrite <- (h_messages_done _ _ Hh).
    rewrite (li_messages _ (h_inv _ _ Hh) m Ha). by intros [? ?].
Qed.

Lemma step_message_phase t m :
  t = MessageDelta \/ t = MessageCompleted -> message_of t e = Some m ->
  exists p, active_phase (open_phases evs) (mk_flow_id m) = Some p /\ phase_kind p = Leaf.
Proof using Hh Hstep.
  pose proof (ac_lifecycle _ _ (step_accepted st e bytes st' Hstep)) as Hv.
  intros Ht. unfold message_of. case_bool_decide as He; [|done].
  intros (f & Hf & (k & Hk & [= <-])%bind_Some)%bind_Some.
  unfold lifecycle_validate_event in Hv. destruct (_ && _); [done|].
  apply bind_Ok_inv in Hv as ([] & _ & Hv). apply bind_Ok_inv in Hv as ([] & _ & Hv). rewrite He in Hv.
  assert (exists u, require_active_work (lifecycle st) (line_count st + 1) e = Ok u) as [u Hu].
  { destruct Ht as [-> | ->]; apply bind_Ok_inv in Hv as (u & Hu & _); by exists u. }
  apply require_active_work_Ok in Hu as (f' & p & Hf' & Hp & Hl). rewrite (h_open_phases _ _ Hh) in Hp.
  simplify_eq. by exists p.
Qed.

(** An open Tool call was started and has not ended. *)
Lemma running_tool t :
  is_started (tools (lifecycle st)) t = true -> terminal (tools (lifecycle st)) !! t = None ->
  t ∈ tools_of is_tool_start evs.
Proof using Hh. intros Hs Ht. by apply open_flow, (h_tools _ _ Hh) in Hs as [? _]. Qed.

Lemma unended_tool t : terminal (tools (lifecycle st)) !! t = None -> ~ t ∈ tools_of is_tool_end evs.
Proof using Hh. intros Ht. rewrite <- (h_tools_ended _ _ Hh), Ht. by intros [? ?]. Qed.

Lemma step_tool_running t :
  tool_at is_tool_running (open_phases evs) e = Some t ->
  t ∈ tools_of is_tool_start evs /\ ~ t ∈ tools_of is_tool_end evs.
Proof using Hh Hstep.
  pose proof (ac_lifecycle _ _ (step_accepted st e bytes st' Hstep)) as Hv.
  unfold tool_at. destruct (is_tool_running (event_type e)) eqn:Ht; [|done]. intros Hk.
  unfold lifecycle_validate_event in Hv. destruct (_ && bool_decide (event_type e = SessionStarted)); [done|].
  apply bind_Ok_inv in Hv as ([] & _ & Hv). apply bind_Ok_inv in Hv as ([] & _ & Hv).
  assert (validate_tool_running (lifecycle st) (line_count st + 1) e = Ok tt) as Hrun by (by destruct (event_type e)).
  unfold validate_tool_running, reject_terminal_tool_event in Hrun. rewrite (h_open_phases _ _ Hh) in Hrun. inv_ok.
  rewrite Hx in Hk. injection Hk as <-. destruct x0. apply reject_terminal_Ok in Hx0. apply negb_false_iff in Hb.
  split; [by apply running_tool|by apply unended_tool].
Qed.

Lemma step_tool_failed t :
  tool_at is_tool_failed (open_phases evs) e = Some t ->
  (~ t ∈ tools_of is_tool_end evs) /\
  (t ∈ tools_of is_tool_start evs \/ exists f, flow_id e = Some f /\ open_phases evs !! f = None).
Proof using Hh Hstep.
  pose proof (ac_lifecycle _ _ (step_accepted st e bytes st' Hstep)) as Hv.
  unfold tool_at, is_tool_failed. case_bool_decide as Ht; [|done]. intros Hk.
  unfold lifecycle_validate_event in Hv. rewrite Ht in Hv. destruct (_ && _); [done|].
  apply bind_Ok_inv in Hv as ([] & _ & Hv). apply bind_Ok_inv in Hv as ([] & _ & Hv).
  unfold validate_tool_failed, reject_terminal_tool_event, require_lifecycle_flow_id in Hv.
  rewrite (h_open_phases _ _ Hh) in Hv. inv_ok.
  rewrite Hx0 in Hk. injection Hk as <-. destruct x1. apply reject_terminal_Ok in Hx1.
  split; [by apply unended_tool|]. apply andb_false_iff in Hb as [Hb%negb_false_iff|Hb]; [left; by apply running_tool|].
  right. exists x. split; [done|]. by destruct (open_phases evs !! x).
Qed.

Lemma step_in_order : in_order evs e.
Proof using Hh Hstep.
  destruct step_checks as [Hopen Hparent].
  constructor.
  - intros f Hf Ht. apply open_in_history. by eapply validate_flow_open_Ok.
  - intros f. by apply (fresh_started st evs e bytes st').
  - intros p Hp. pose proof (step_accepted st e bytes st' Hstep) as Hac.
    destruct Hstep as [st'' He]. destruct (ve_parent e He) as [f Hf]; [by rewrite Hp|].
    destruct (validate_parent_Ok _ _ _ _ _ Hparent Hf Hp) as [Hne Hact].
    split; [congruence|]. by apply open_in_history.
  - apply step_phase_entered.
  - apply step_phase_ended.
  - apply step_message_delta.
  - apply step_message_completed.
  - apply step_message_phase.
  - apply (started_tool_fresh st evs e bytes st' Hh Hstep).
  - apply step_tool_running.
  - apply step_tool_failed.
  - intros ev [i Hi]%list_elem_of_lookup. apply not_true_iff_false.
    rewrite (h_terminal _ _ Hh _ _ Hi), (ac_not_terminal _ _ (step_accepted st e bytes st' Hstep)).
    by intros [? _].
Qed.
End order.

Lemma snoc_split {A} (l : list A) (a x : A) pre post :
  l ++ [a] = pre ++ x :: post -> (post = [] /\ pre = l /\ x = a) \/ exists post', l = pre ++ x :: post'.
Proof.
  intros H. destruct (decide (post = [])) as [->|Hne].
  - apply app_inj_2 in H as [<- [= <-]]; [by left|done].
  - right. destruct (exists_last Hne) as (post' & z & ->).
    rewrite app_comm_cons, app_assoc in H. apply app_inj_2 in H as [-> _]; [eauto|done].
Qed.

Lemma run_in_order {J : JsonEnv} expected evs st :
  stream_run (new_state expected) evs st ->
  forall pre e post, map fst evs = pre ++ e :: post -> in_order pre e.
Proof.
  induction 1 as [|evs st1 e b st2 Hrun IH Hstep]; intros pre x post Heq.
  { by destruct pre. }
  rewrite map_app in Heq. cbn in Heq.
  destruct (snoc_split _ _ _ _ _ Heq) as [(-> & -> & ->)|[post' Hpost]]; [|by eapply IH].
  eapply step_in_order; [|done].
  apply (run_history _ [] _ _ (history_new expected) Hrun).
Qed.

(** * Properties *)

Record stream_wf (expected : option string) (evs : list EventEnvelope) : Prop := {
  sw_sequence : forall i e, evs !! i = Some e -> sequence e = Z.of_nat i + 1;
  sw_ids : NoDup (map event_id evs);
  sw_session : forall e e', e ∈ evs -> e' ∈ evs -> session_id e = session_id e';
  sw_expected : forall e x, e ∈ evs -> expected = Some x -> session_id e = x;
  sw_first : forall i e, evs !! i = Some e -> event_type e = SessionStarted <-> i = O;
  sw_end : forall i e, evs !! i = Some e -> is_session_end (event_type e) = true ->
    S i = List.length evs;
  sw_flows : NoDup (omap started_flow evs);
  sw_flow_budget : len (omap started_flow evs) <= 512;
  sw_flows_ended : NoDup (omap ended_flow evs);
  sw_phases : NoDup (omap entered_phase evs);
  sw_phases_ended : NoDup (omap ended_phase evs);
  sw_tools : NoDup (tools_of is_tool_start evs);
  sw_tools_ended : NoDup (tools_of is_tool_end evs);
  sw_messages_completed : NoDup (omap (message_of MessageCompleted) evs);
  sw_used : forall pre e post, evs = pre ++ e :: post ->
    (forall f, flow_id e = Some f -> event_type e <> FlowStarted -> f ∈ omap started_flow pre) /\
    (forall x, ended_phase e = Some x -> x ∈ omap entered_phase pre) /\
    (forall t, tool_at is_tool_running (open_phases pre) e = Some t -> t ∈ tools_of is_tool_start pre) /\
    (forall m, message_of MessageCompleted e = Some m -> m ∈ omap (message_of MessageDelta) pre);
}.

(** What appears at most once. *)
Lemma in_order_NoDup {A} (f : EventEnvelope -> option A) evs :
  (forall pre e post, evs = pre ++ e :: post -> in_order pre e) ->
  (forall pre e x, in_order pre e -> f e = Some x -> ~ x ∈ omap f pre) -> NoDup (omap f evs).
Proof.
  intros Ho Hf. induction evs as [|e evs IH] using rev_ind; [constructor|]. apply NoDup_omap_snoc.
  - apply IH. intros pre x post ->. eapply (Ho pre x (post ++ [e])). by rewrite <- app_assoc.
  - intros x. apply Hf. by apply (Ho evs e []).
Qed.

Lemma in_order_tools_NoDup sel evs :
  (forall pre e post, evs = pre ++ e :: post -> in_order pre e) ->
  (forall pre e t, in_order pre e -> tool_at sel (open_phases pre) e = Some t -> ~ t ∈ tools_of sel pre) ->
  NoDup (tools_of sel evs).
Proof.
  intros Ho Hf. induction evs as [|e evs IH] using rev_ind; [constructor|].
  unfold tools_of. rewrite tools_from_snoc. apply NoDup_app. split_and!.
  - apply IH. intros pre x post ->. eapply (Ho pre x (post ++ [e])). by rewrite <- app_assoc.
  - intros t Ht Ht'. destruct (tool_at sel _ e) as [t'|] eqn:E; [|by apply elem_of_nil in Ht'].
    apply list_elem_of_singleton in Ht' as ->. by apply (Hf evs e t' (Ho evs e [] eq_refl) E).
  - destruct (tool_at sel _ e); cbn; [apply NoDup_singleton|constructor].
Qed.

Lemma tool_end_in_order pre e t :
  in_order pre e -> tool_at is_tool_end (open_phases pre) e = Some t -> ~ t ∈ tools_of is_tool_end pre.
Proof.
  intros Ho Ht. destruct (is_tool_failed (event_type e)) eqn:Ef.
  - apply (io_tool_failed _ _ Ho). unfold tool_at in *. rewrite Ef. by destruct (is_tool_end (event_type e)).
  - apply (io_tool_running _ _ Ho). unfold tool_at in *. by destruct (event_type e).
Qed.

Lemma ended_flow_in_order pre e f : in_order pre e -> ended_flow e = Some f -> ~ f ∈ omap ended_flow pre.
Proof.
  intros Ho. unfold ended_flow at 1. destruct (is_flow_end (event_type e)) eqn:Et; [|done]. intros Hf.
  apply (io_flow _ _ Ho f Hf). by intros E; rewrite E in Et.
Qed.

Lemma record_expected st line e bytes st' :
  record_event st line e bytes = Ok st' -> expected_session_id st' = expected_session_id st.
Proof. by intros (? & _)%record_event_Ok. Qed.

Lemma run_expected {J : JsonEnv} st evs st' :
  stream_run st evs st' -> expected_session_id st' = expected_session_id st.
Proof.
  induction 1 as [|evs st1 e b st2 _ IH []]; [done|]. rewrite <- IH. by eapply record_expected.
Qed.

Lemma set_size_NoDup (X : gset string) (l : list string) :
  NoDup l -> (forall x, x ∈ X <-> x ∈ l) -> size X = List.length l.
Proof.
  intros Hl Hx. assert (X = list_to_set l) as -> by set_solver. by apply size_list_to_set.
Qed.

Lemma run_stream_wf {J : JsonEnv} expected evs st :
  stream_run (new_state expected) evs st -> stream_wf expected (map fst evs).
Proof.
  intros Hrun. pose proof (run_history _ [] _ _ (history_new expected) Hrun) as Hh.
  pose proof (run_expected _ _ _ Hrun) as He. pose proof (run_in_order _ _ _ Hrun) as Hord. cbn in Hh, He. constructor.
  - apply (h_sequences _ _ Hh).
  - apply (h_ids_unique _ _ Hh).
  - intros e e' H1%(h_session _ _ Hh) H2%(h_session _ _ Hh). congruence.
  - intros e x H1 H2. eapply (h_expected _ _ Hh); [done|]. by rewrite He.
  - apply (h_first _ _ Hh).
  - intros i e Hi Ht. by apply (h_terminal _ _ Hh _ _ Hi) in Ht as [_ ?].
  - apply (h_flows_unique _ _ Hh).
  - pose proof (h_flow_budget _ _ Hh) as Hb.
    rewrite (set_size_NoDup _ _ (h_flows_unique _ _ Hh) (h_flow_ids _ _ Hh)) in Hb. exact Hb.
  - eapply in_order_NoDup; [exact Hord|apply ended_flow_in_order].
  - eapply in_order_NoDup; [exact Hord|]. intros pre e x Ho. apply (io_phase_entered _ _ Ho).
  - eapply in_order_NoDup; [exact Hord|]. intros pre e x Ho Hx. apply (io_phase_ended _ _ Ho x Hx).
  - eapply in_order_tools_NoDup; [exact Hord|]. intros pre e t Ho Ht. apply (io_tool_started _ _ Ho t Ht).
  - eapply in_order_tools_NoDup; [exact Hord|apply tool_end_in_order].
  - eapply in_order_NoDup; [exact Hord|]. intros pre e m Ho Hm. apply (io_message_completed _ _ Ho m Hm).
  - intros pre e post Ho%Hord. split_and!.
    + intros f Hf Ht. apply (io_flow _ _ Ho f Hf Ht).
    + intros x Hx. apply (io_phase_ended _ _ Ho x Hx).
    + intros t Ht. apply (io_tool_running _ _ Ho t Ht).
    + intros m Hm. apply (io_message_completed _ _ Ho m Hm).
Qed.

Section appended.
Context {J : JsonEnv} {JL : JsonLaws} {P : JsonParser}.

(** C1: an accepted stream starts with its only [session.started], numbers its events from
    one without gaps, never repeats an event id, belongs to one session (the expected one, if
    any), has no event after a terminal session event, and starts at most 512 flows.  Every
    Flow, Phase execution and Tool call starts at most once and ends at most once, and every
    message completes at most once; an event of a Flow comes after the start of that Flow, the
    end of a Phase after its entry, the progress and the completion or time-out of a Tool call
    after its start, and the completion of a message after its first delta. *)
Theorem accepted_stream_wf expected text st evs :
  validate_appended (new_state expected) text = (st, Ok evs) -> stream_wf expected evs.
Proof.
  intros (new & -> & Hrun & _)%validate_appended_run. by eapply run_stream_wf.
Qed.

(** C34: every event of an accepted stream is in order: its flow was started and is not
    finished, its parent flow likewise; flows and phase executions start once and end once
    after they started; messages belong to an open leaf Phase of their Flow and complete once,
    after their first delta, and nothing follows their completion; a Tool call starts once, in
    an open leaf Phase of its Flow, and its progress, completion and time-out come between its
    start and its end.  A Tool call fails once too, after its start or while no Phase of its
    Flow is open. *)
Theorem accepted_stream_in_order expected text st evs :
  validate_appended (new_state expected) text = (st, Ok evs) ->
  forall pre e post, evs = pre ++ e :: post -> in_order pre e.
Proof.
  intros (new & -> & Hrun & _)%validate_appended_run. by eapply run_in_order.
Qed.
End appended.
