(* ===== verification/StreamProps.v ===== *)
(** More about accepted session streams: a finished session leaves nothing open, appending is
    atomic and composes, budgets are exact, and validation never panics. *)

From Stdlib Require Import ZArith Lia Ascii String.
From stdpp Require Import base strings sorting sets option gmap list.
From S2P Require Import Prelude Decimal Sorting Metadata Json FlowValue Event Lifecycle.
From S2P Require Import LifecycleTheory Validate ValidateTheory.

Open Scope Z_scope.

(** * Nothing stays open *)

Definition closed (s : SessionLifecycleState) : Prop :=
  active (flows s) = ∅ /\ active_phases s = ∅ /\ active (tools s) = ∅ /\
  active_message_roles s = ∅ /\ tools_without_progress s = ∅.

(** With no open flow, the invariant leaves no open phase, tool or message. *)
Lemma inv_closed s : lifecycle_inv s -> active (flows s) = ∅ -> closed s.
Proof.
  intros Hs Hf.
  assert (active_phases s = ∅) as Hp.
  { apply map_empty. intros f. destruct (active_phases s !! f) as [stack|] eqn:Hst; [|done].
    destruct (li_stacks s Hs f stack Hst). set_solver. }
  assert (forall f, active_phase (active_phases s) f = None) as Hnone.
  { intros f. unfold active_phase. by rewrite Hp, lookup_empty. }
  assert (active (tools s) = ∅) as Ht.
  { apply elem_of_equiv_empty_L. intros t Ht.
    destruct (li_tool_phase s Hs t Ht) as (f & p & _ & Hx & _). by rewrite Hnone in Hx. }
  split_and!; [done..| |].
  - apply map_empty. intros m. destruct (active_message_roles s !! m) eqn:Hm; [|done].
    destruct (li_message_phase s Hs m) as (p & Hx & _); [by rewrite Hm|]. by rewrite Hnone in Hx.
  - pose proof (li_silent s Hs) as Hsil. set_solver.
Qed.

Lemma active_keys_nil `{Countable K} cmp (t : LifecycleTracker K) :
  active_keys cmp t = [] <-> active t = ∅.
Proof.
  split.
  - intros H1. apply elem_of_equiv_empty_L. intros k Hk.
    apply (elem_of_set_iter cmp) in Hk. unfold active_keys in H1. rewrite H1 in Hk. set_solver.
  - intros H1. destruct (active_keys cmp t) as [|k ks] eqn:Hk; [done|].
    assert (k ∈ active t) as Hin by (apply (elem_of_set_iter cmp); unfold active_keys in Hk; rewrite Hk; left).
    set_solver.
Qed.

Lemma terminal_session_flows s e :
  lifecycle_inv s -> is_session_end (event_type e) = true ->
  validate_terminal_session s (Some e) =
    match active_keys str_cmp (flows s) with
    | [] => Ok tt
    | flow :: _ => Err (OpenAtSessionEnd "flow" flow)
    end.
Proof.
  intros Hs He. unfold validate_terminal_session. cbn.
  assert (negb (bool_decide (event_type e = SessionCompleted)
    || bool_decide (event_type e = SessionFailed)) = false) as -> by (by destruct (event_type e)).
  destruct (active_keys str_cmp (flows s)) eqn:Hk; [|done].
  apply active_keys_nil in Hk. destruct (inv_closed s Hs Hk) as (_ & Hp & Ht & Hm & _).
  rewrite Hp, Hm. unfold map_iter. rewrite !map_to_list_empty. cbn.
  by rewrite (proj2 (active_keys_nil tool_cmp _) Ht).
Qed.

Lemma session_end_record s line e s' :
  is_session_end (event_type e) = true -> lifecycle_record_event s line e = Ok s' -> s' = s.
Proof. unfold lifecycle_record_event. destruct (event_type e); try done; by intros _ [= <-]. Qed.

Section closing.
Context {J : JsonEnv}.

Lemma run_terminal_closed expected evs st n :
  stream_run (new_state expected) evs st -> terminal_line st = Some n -> closed (lifecycle st).
Proof.
  intros Hrun. destruct Hrun as [|evs st1 e b st2 Hrun Hstep]; [done|].
  pose proof (run_history _ [] _ _ (history_new expected) Hrun) as Hh. cbn in Hh.
  pose proof (step_accepted _ _ _ _ Hstep) as Hac.
  pose proof (step_record _ _ _ _ Hstep) as (_ & _ & _ & _ & _ & Ht & _ & _ & Hr)%record_event_Ok.
  rewrite Ht. intros Hn. destruct (is_session_end (event_type e)) eqn:He;
    [|by rewrite (ac_not_terminal _ _ Hac) in Hn].
  apply session_end_record in Hr as ->; [|done].
  pose proof (ac_end _ _ Hac He) as Hend.
  rewrite terminal_session_flows in Hend by (done || apply (h_inv _ _ Hh)).
  destruct (active_keys str_cmp _) eqn:Hk; [|done].
  apply inv_closed; [apply (h_inv _ _ Hh)|]. by apply active_keys_nil in Hk.
Qed.

(** when the session ends, only open flows can be left over: the phases, tools and
    messages the validator also checks belong to open flows, in every reachable state. *)
Theorem terminal_session_checks expected evs st e :
  stream_run (new_state expected) evs st -> is_session_end (event_type e) = true ->
  validate_terminal_session (lifecycle st) (Some e) =
    match active_keys str_cmp (flows (lifecycle st)) with
    | [] => Ok tt
    | flow :: _ => Err (OpenAtSessionEnd "flow" flow)
    end.
Proof.
  intros Hrun. apply terminal_session_flows.
  apply (h_inv _ _ (run_history _ [] _ _ (history_new expected) Hrun)).
Qed.

(** in every reachable state open work is nested: phases are stacked on open flows with
    leaves only on top, open tools and messages belong to the current leaf phase, parents of
    open flows are open, and nothing is both open and finished. *)
Theorem reachable_lifecycle_inv expected evs st :
  stream_run (new_state expected) evs st -> lifecycle_inv (lifecycle st).
Proof.
  intros Hrun. apply (h_inv _ _ (run_history _ [] _ _ (history_new expected) Hrun)).
Qed.

Lemma run_ended_closed expected new st e :
  stream_run (new_state expected) new st -> e ∈ map fst new -> is_session_end (event_type e) = true ->
  let evs := map fst new in
  (forall f, f ∈ omap started_flow evs -> f ∈ omap ended_flow evs) /\
  (forall x, x ∈ omap entered_phase evs -> x ∈ omap ended_phase evs) /\
  (forall m, m ∈ omap (message_of MessageDelta) evs ->
             m ∈ omap (message_of MessageCompleted) evs) /\
  (forall t, t ∈ tools_of is_tool_start evs -> t ∈ tools_of is_tool_end evs) /\
  closed (lifecycle st).
Proof using Type.
  intros Hrun [i Hi]%list_elem_of_lookup He.
  pose proof (run_history _ [] _ _ (history_new expected) Hrun) as Hh. cbn in Hh.
  apply (h_terminal _ _ Hh _ _ Hi) in He as [Ht _].
  pose proof (run_terminal_closed _ _ _ _ Hrun Ht) as Hc. pose proof Hc as (Hf & Hp & Htl & Hm & _).
  split_and!; [| | | |done].
  - intros f. rewrite <- (h_started _ _ Hh), <- (h_ended _ _ Hh), is_started_spec, Hf. set_solver.
  - intros x. rewrite (h_phases_entered _ _ Hh), <- (h_phases_ended _ _ Hh), Hp.
    intros [|(f & p & (stack & Hst & _) & _)]; [done|]. by rewrite lookup_empty in Hst.
  - intros m. rewrite (h_messages _ _ Hh), <- (h_messages_done _ _ Hh), Hm, lookup_empty.
    by intros [|[? ?]].
  - intros t Hs. destruct (decide (t ∈ tools_of is_tool_end (map fst new))) as [|Hn]; [done|].
    assert (t ∈ active (tools (lifecycle st))) as Ha by (by apply (h_tools _ _ Hh)). set_solver.
Qed.

Context {JL : JsonLaws} {P : JsonParser}.

(** C2: a stream that ended its session closed everything it opened: every flow that was
    started and every phase that was entered was finished, every message completed, every Tool
    call that was started ended, and the validator holds no running Tool. *)
Theorem ended_stream_closed expected text st evs e :
  validate_appended (new_state expected) text = (st, Ok evs) ->
  e ∈ evs -> is_session_end (event_type e) = true ->
  (forall f, f ∈ omap started_flow evs -> f ∈ omap ended_flow evs) /\
  (forall x, x ∈ omap entered_phase evs -> x ∈ omap ended_phase evs) /\
  (forall m, m ∈ omap (message_of MessageDelta) evs ->
             m ∈ omap (message_of MessageCompleted) evs) /\
  (forall t, t ∈ tools_of is_tool_start evs -> t ∈ tools_of is_tool_end evs) /\
  active (tools (lifecycle st)) = ∅.
Proof.
  intros (new & -> & Hrun & _)%validate_appended_run Hin He.
  destruct (run_ended_closed _ _ _ _ Hrun Hin He) as (Hf & Hp & Hm & Htl & (_ & _ & Ht & _)). by split_and!.
Qed.
End closing.

(** * No panic *)

Section panics.
Context {J : JsonEnv}.

Lemma validate_event_no_panic st line e : valid_event e -> validate_event st line e <> Panic.
Proof.
  intros He. unfold validate_event, validate_flow_started. no_panic.
  - by apply lifecycle_validate_no_panic.
  - unfold validate_terminal_session. by repeat case_match.
Qed.

Lemma record_event_no_panic st e bytes :
  valid_event e -> accepted st e -> record_event st (line_count st + 1) e bytes <> Panic.
Proof.
  intros He Hac. unfold record_event.
  rewrite bool_decide_eq_false_2 by apply (ac_id _ _ Hac).
  destruct (lifecycle_record_total e He (lifecycle st) (line_count st + 1)) as [s' ->].
  destruct (bool_decide_reflect (event_type e = FlowStarted)) as [Ht|]; [|done].
  destruct (ac_flow _ _ Hac Ht) as (f & -> & Hn & _). cbn. by rewrite bool_decide_eq_false_2.
Qed.

Lemma constructed_event_no_panic st e bytes : validate_constructed_event st e bytes <> Panic.
Proof.
  unfold validate_constructed_event, validate_event_payload_line.
  apply bind_no_panic; [apply map_err_no_panic, validate_v0_no_panic|]. intros u Hu.
  destruct (validate_v0 e) as [[]| |] eqn:Hv; try done. apply validate_v0_valid in Hv.
  apply bind_no_panic; [unfold validate_event_size; no_panic|]. intros _ _.
  apply bind_no_panic; [unfold validate_budget; no_panic|]. intros _ _.
  apply bind_no_panic; [by apply validate_event_no_panic|]. intros [] Hac%validate_event_accepted.
  by apply record_event_no_panic.
Qed.

Lemma read_field_no_panic {A} (f : Value -> option A) fs k : read_field f fs k <> Panic.
Proof. unfold read_field. no_panic. Qed.
Hint Resolve read_field_no_panic : no_panic.

Lemma unchecked_event_no_panic fs : unchecked_event fs <> Panic.
Proof.
  unfold unchecked_event. repeat (apply bind_no_panic; [auto with no_panic|]; intros ? _). done.
Qed.

Lemma visit_map_no_panic visit es values :
  Forall (fun kr => visit kr.2 <> Panic) es -> visit_map visit es values <> Panic.
Proof.
  intros H. revert values. induction H as [|[k r] es Hr _ IH]; intros values; cbn; [done|].
  destruct (obj_has values k); [done|]. by apply bind_no_panic.
Qed.

Lemma unique_json_no_panic r : unique_json r <> Panic.
Proof.
  induction r as [| | | | | |rs IH|es IH] using Raw_ind'; cbn; try done.
  - apply bind_no_panic; [apply ok_or_no_panic|done].
  - apply bind_no_panic; [|done]. clear -IH. induction IH as [|r rs Hr _ IH]; cbn; [done|].
    apply bind_no_panic; [done|]. intros v _. by apply bind_no_panic.
  - apply bind_no_panic; [|done]. by apply visit_map_no_panic.
Qed.

Context {JL : JsonLaws} {P : JsonParser}.

Lemma parse_canonical_event_no_panic n line : parse_canonical_event n line <> Panic.
Proof.
  unfold parse_canonical_event. apply bind_no_panic; [apply ok_or_no_panic|]. intros v _.
  apply bind_no_panic.
  { apply map_err_no_panic. unfold canonical_json. case_match; [done|].
    apply append_canonical_json_no_panic. }
  intros text _. destruct (negb _); [done|]. apply map_err_no_panic.
  unfold event_from_value, deserialize_event, event_of_value.
  apply bind_no_panic; [apply map_err_no_panic, unique_json_no_panic|]. intros w _.
  apply bind_no_panic; [apply ok_or_no_panic|]. intros fs _.
  apply bind_no_panic; [apply unchecked_event_no_panic|]. intros u _. apply map_err_no_panic.
  unfold event_try_from. apply bind_no_panic; [apply validate_v0_no_panic|done].
Qed.

Lemma accept_line_no_panic st evs line : accept_line push_event st evs line <> Panic.
Proof.
  unfold accept_line. destruct (ends_with_char cr line); [done|].
  apply bind_no_panic; [unfold validate_event_size; no_panic|]. intros _ _.
  apply bind_no_panic; [apply parse_canonical_event_no_panic|].
  intros e He%parse_canonical_event_valid.
  apply bind_no_panic; [unfold validate_budget; no_panic|]. intros _ _.
  apply bind_no_panic; [by apply validate_event_no_panic|]. intros [] Hac%validate_event_accepted.
  apply bind_no_panic; [done|]. intros evs' _.
  apply bind_no_panic; [by apply record_event_no_panic|done].
Qed.

(** validation never panics: whatever the state, the text or the event, every [expect]
    on a payload field or flow id succeeds and every [debug_assert!] holds. *)
Theorem validation_never_panics st :
  (forall text, (validate_appended st text).2 <> Panic) /\
  (forall e bytes, validate_constructed_event st e bytes <> Panic).
Proof.
  split; [|apply constructed_event_no_panic]. intros text.
  unfold validate_appended, validate_appended_with.
  destruct (String.eqb text ""); [done|]. destruct (negb _); [done|].
  assert (forall lines st evs, (accept_lines push_event st evs lines).2 <> Panic) as H.
  { intros lines. induction lines as [|line lines IH]; intros st1 evs1; cbn; [done|].
    pose proof (accept_line_no_panic st1 evs1 line) as Hl.
    destruct (accept_line _ _ _ _) as [[st2 evs2]| |]; [apply IH|done|done]. }
  specialize (H (split_terminator lf text) st []).
  destruct (accept_lines _ _ _ _) as [[st1 evs1] [u| |]]; done.
Qed.
End panics.

(** * Lines *)

Lemma split_app_sep c s t : split c (s +:+ String c t) = split c s ++ split c t.
Proof.
  induction s as [|a s IH]; cbn; [by rewrite Ascii.eqb_refl|].
  destruct (Ascii.eqb a c); [by rewrite IH|]. rewrite IH.
  destruct (split c s) as [|p ps] eqn:Hs; [|done].
  exfalso. clear -Hs. destruct s as [|b s]; [done|]. cbn in Hs.
  destruct (Ascii.eqb b c); [done|]. by destruct (split c s).
Qed.

Lemma ends_with_char_inv c s :
  ends_with_char c s = true -> exists s', s = s' +:+ String c "".
Proof.
  induction s as [|a s IH]; [done|]. destruct s as [|b s].
  - cbn. intros ->%Ascii.eqb_eq. by exists "".
  - intros H. destruct IH as [s' Hs']; [exact H|]. exists (String a s'). cbn. by rewrite Hs'.
Qed.

Lemma ends_with_char_snoc c s : ends_with_char c (s +:+ String c "") = true.
Proof.
  induction s as [|a s IH]; [cbn; apply Ascii.eqb_refl|].
  change (String a s +:+ String c "") with (String a (s +:+ String c "")).
  by destruct (s +:+ String c "") eqn:E; [destruct s|].
Qed.

Lemma split_terminator_snoc c s : split_terminator c (s +:+ String c "") = split c s.
Proof.
  unfold split_terminator, drop_last_empty. rewrite split_app_sep. cbn.
  rewrite last_snoc, length_app. cbn.
  by rewrite take_app_length' by lia.
Qed.

Lemma split_bytes c s : foldr Z.add 0 (map (fun p => slen p + 1) (split c s)) = slen s + 1.
Proof.
  assert (forall a t, slen (String a t) = slen t + 1) as Hc by (intros; unfold slen; cbn; lia).
  induction s as [|a s IH]; [done|]. rewrite Hc. cbn [split].
  destruct (Ascii.eqb a c); [change (slen "" + 1 + foldr Z.add 0 (map (fun p => slen p + 1) (split c s)) = slen s + 1 + 1); rewrite IH; change (slen "") with 0; lia|].
  destruct (split c s) as [|p ps] eqn:Hs; cbn [map foldr] in *.
  - pose proof (slen_nonneg s). lia.
  - rewrite Hc. lia.
Qed.

(** * Appending in parts *)

Section composition.
Context {J : JsonEnv} {P : JsonParser}.

Lemma accept_lines_app st evs l1 l2 :
  accept_lines push_event st evs (l1 ++ l2) =
    match accept_lines push_event st evs l1 with
    | ((st', evs'), Ok _) => accept_lines push_event st' evs' l2
    | other => other
    end.
Proof.
  revert st evs. induction l1 as [|line l1 IH]; intros st evs; cbn; [done|].
  destruct (accept_line push_event st evs line) as [[st1 evs1]| |]; [apply IH|done|done].
Qed.

(** The events already collected do not influence the loop. *)
Lemma accept_line_prefix st evs line :
  accept_line push_event st evs line =
    '(st', new) ← accept_line push_event st [] line; Ok (st', evs ++ new).
Proof.
  unfold accept_line, push_event.
  destruct (ends_with_char cr line); [done|].
  destruct (validate_event_size _ _) as [[]| |]; cbn; try done.
  destruct (parse_canonical_event _ _) as [e| |]; cbn; try done.
  destruct (validate_budget _ _ _) as [[]| |]; cbn; try done.
  destruct (validate_event _ _ _) as [[]| |]; cbn; try done.
  by destruct (record_event _ _ _ _).
Qed.

Lemma accept_lines_prefix st evs lines :
  accept_lines push_event st evs lines =
    let '((st', new), r) := accept_lines push_event st [] lines in ((st', evs ++ new), r).
Proof.
  revert st evs. induction lines as [|line lines IH]; intros st evs; cbn.
  { by rewrite app_nil_r. }
  rewrite (accept_line_prefix st evs). destruct (accept_line push_event st [] line)
    as [[st1 new1]| |]; cbn; [|by rewrite app_nil_r..].
  rewrite (IH st1 (evs ++ new1)), (IH st1 new1).
  destruct (accept_lines push_event st1 [] lines) as [[st2 new2] r]. by rewrite app_assoc.
Qed.

Definition text_lines (text : string) : list string :=
  if String.eqb text "" then [] else split_terminator lf text.

Definition ends_in_lf (text : string) : Prop := text = "" \/ ends_with_char lf text = true.

Lemma validate_appended_lines st text :
  ends_in_lf text ->
  validate_appended st text =
    let '((st', new), r) :=
      accept_lines push_event st [] (text_lines text) in
    match r with Ok _ => (st', Ok new) | Err e => (st, Err e) | Panic => (st, Panic) end.
Proof.
  unfold validate_appended, validate_appended_with, text_lines. intros [->|H]; [done|].
  destruct (String.eqb text ""); [done|]. by rewrite H.
Qed.

Lemma text_lines_app a b :
  ends_in_lf a -> ends_in_lf b ->
  ends_in_lf (a +:+ b) /\ text_lines (a +:+ b) = text_lines a ++ text_lines b.
Proof.
  unfold text_lines.
  intros [->|Ha] Hb; [by split|]. apply ends_with_char_inv in Ha as [a' ->].
  destruct Hb as [->|Hb].
  - rewrite app_string_nil_r. split; [right; apply ends_with_char_snoc|]. by rewrite app_nil_r.
  - apply ends_with_char_inv in Hb as [b' ->].
    assert (forall s, String.eqb (s +:+ String lf "") "" = false) as Hne by (by intros []).
    assert ((a' +:+ String lf "") +:+ b' +:+ String lf "" = (a' +:+ String lf b') +:+ String lf "")
      as -> by (by rewrite !app_string_assoc).
    split; [right; apply ends_with_char_snoc|]. rewrite !Hne, !split_terminator_snoc.
    apply split_app_sep.
Qed.

(** appending is atomic and composes: a text of two parts is accepted exactly when the
    first part is and then the second, with the same events and state; when a line is
    refused the state is the one before the whole text. *)
Theorem validate_appended_app st a b :
  ends_in_lf a -> ends_in_lf b ->
  validate_appended st (a +:+ b) =
    match validate_appended st a with
    | (st1, Ok evs1) =>
        match validate_appended st1 b with
        | (st2, Ok evs2) => (st2, Ok (evs1 ++ evs2))
        | (_, r) => (st, r)
        end
    | (_, r) => (st, r)
    end.
Proof.
  intros Ha Hb. destruct (text_lines_app a b Ha Hb) as [Hab Hl].
  rewrite !validate_appended_lines, Hl, accept_lines_app by done.
  destruct (accept_lines push_event st [] _) as [[st1 new1] [u| |]]; cbn; [|done..].
  rewrite validate_appended_lines by done. rewrite (accept_lines_prefix st1 new1).
  by destruct (accept_lines push_event st1 [] _) as [[st2 new2] [u2| |]].
Qed.
End composition.

(** * Budgets *)

Section budget.
Context {J : JsonEnv}.

Definition total_bytes (evs : list (EventEnvelope * Z)) : Z := foldr Z.add 0 (map snd evs).

Lemma total_bytes_snoc evs e b : total_bytes (evs ++ [(e, b)]) = total_bytes evs + b.
Proof.
  unfold total_bytes. rewrite map_app. cbn. induction (map snd evs) as [|x l IH]; cbn; lia.
Qed.

Lemma run_budget expected evs st :
  stream_run (new_state expected) evs st ->
  stream_bytes st = total_bytes evs /\ line_count st = len evs /\
  0 <= total_bytes evs <= MAX_SESSION_EVENT_BYTES /\ len evs <= MAX_FLOW_EVENTS.
Proof.
  induction 1 as [|evs st1 e b st2 Hrun (IHb & IHl & IHr & IHn) Hstep]; [done|].
  pose proof (step_record _ _ _ _ Hstep) as (_ & _ & _ & _ & _ & _ & Hb & Hl & _)%record_event_Ok.
  destruct Hstep as [st2 _ Hbytes Hbud _ _]. unfold validate_budget in Hbud. inv_ok.
  rewrite total_bytes_snoc. unfold len in *. rewrite length_app. cbn [List.length].
  assert (sat_u64 (stream_bytes st1 + b) = stream_bytes st1 + b) as Hs.
  { apply sat_u64_id. unfold in_u64, u64_max, MAX_SESSION_EVENT_BYTES, MAX_CANONICAL_EVENT_BYTES in *. lia. }
  rewrite Hs in *. unfold MAX_FLOW_EVENTS, MAX_SESSION_EVENT_BYTES in *. lia.
Qed.

Context {JL : JsonLaws} {P : JsonParser}.

Lemma run_line_bytes st new st' lines :
  stream_run st new st' -> map snd new = map line_bytes lines ->
  map line_bytes lines = map (fun l => slen l + 1) lines.
Proof.
  intros Hrun Heq.
  assert (Forall (fun b => b <= MAX_CANONICAL_EVENT_BYTES) (map snd new)) as Hall.
  { clear Heq. induction Hrun as [|evs st1 e b st2 _ IH []]; [constructor|].
    rewrite map_app. apply Forall_app. split; [done|]. repeat constructor. cbn. lia. }
  rewrite Heq, Forall_map in Hall. apply map_ext_Forall. eapply Forall_impl; [exact Hall|].
  intros line. cbn. unfold line_bytes, sat_u64, clamp, MAX_CANONICAL_EVENT_BYTES, u64_max.
  pose proof (slen_nonneg line). lia.
Qed.

(** the budgets are exact: after an accepted text the byte count is the length of the
    text and the line count the number of events, both within their limits, and no
    saturating addition saturated. *)
Theorem accepted_stream_budget expected text st evs :
  validate_appended (new_state expected) text = (st, Ok evs) ->
  stream_bytes st = slen text /\ slen text <= 352 * 1024 * 1024 /\
  line_count st = len evs /\ len evs <= 155750.
Proof.
  intros Hv. pose proof Hv as (new & -> & Hrun & Hb)%validate_appended_run.
  destruct (run_budget _ _ _ Hrun) as (Hbytes & Hl & [_ Hr] & Hn).
  assert (total_bytes new = slen text) as Ht.
  { unfold total_bytes. rewrite Hb. destruct (String.eqb_spec text "") as [->|Hne]; [done|].
    rewrite (run_line_bytes _ _ _ _ Hrun) by done.
    unfold validate_appended, validate_appended_with in Hv.
    rewrite (proj2 (String.eqb_neq _ _) Hne) in Hv.
    destruct (ends_with_char lf text) eqn:He; [|done].
    apply ends_with_char_inv in He as [t ->]. rewrite split_terminator_snoc, split_bytes, slen_app.
    done. }
  unfold len in *. rewrite length_map. rewrite Hbytes, Ht in *. done.
Qed.
End budget.
