(* ===== verification/StreamExamples.v ===== *)
(** A concrete session stream, accepted line by line, on which the stream properties apply. *)

From Stdlib Require Import ZArith Lia Ascii String.
From stdpp Require Import base strings sorting sets option gmap list.
From S2P Require Import Prelude Decimal Sorting Metadata Json FlowValue Event Lifecycle.
From S2P Require Import LifecycleTheory Validate ValidateTheory StreamProps.

Open Scope Z_scope.

Definition sample (n : Z) (t : EventType) (flow : option string) (pay : list (string * Value))
    : EventEnvelope :=
  {| additional_fields := []; correlation_id := None;
     event_id := "ev-" +:+ Z_to_string n; event_type := t; flow_id := flow;
     parent_flow_id := None; payload := JObject pay; protocol_version := "0"; sequence := n;
     session_id := "s1"; source := "test"; timestamp := "2026-01-02T03:04:05Z" |}.

Definition sample_phase : list (string * Value) :=
  [("phase_execution_id", JString "x1"); ("phase_id", JString "p1")].

Definition sample_events : list EventEnvelope :=
  [ sample 1 SessionStarted None [];
    sample 2 FlowStarted (Some "f1") [("flow_definition_id", JString "d1")];
    sample 3 PhaseEntered (Some "f1")
      [("instruction_ids", JArray []); ("iteration", JNumber (PosInt 1));
       ("phase_execution_id", JString "x1"); ("phase_id", JString "p1");
       ("phase_kind", JString "leaf"); ("phase_name", JString "plan"); ("tool_ids", JArray [])];
    sample 4 MessageDelta (Some "f1")
      [("content_delta", JString "hi"); ("message_id", JString "m1"); ("role", JString "assistant")];
    sample 5 MessageCompleted (Some "f1")
      [("message_id", JString "m1"); ("role", JString "assistant")];
    sample 6 PhaseFailed (Some "f1")
      [("error", JString "no"); ("iteration", JNumber (PosInt 1));
       ("phase_execution_id", JString "x1"); ("phase_id", JString "p1")];
    sample 7 FlowFailed (Some "f1")
      [("error", JString "no"); ("flow_definition_id", JString "d1")];
    sample 8 SessionFailed None [("reason", JString "no")] ].

#[local] Existing Instance plain_json.

Definition sample_line (e : EventEnvelope) : string :=
  match canonical_json (serialize_fields e) with Ok line => line | _ => "" end.

(** A parser that reads the lines of these events. *)
Definition sample_parser : JsonParser :=
  {| from_str line :=
       serialize_fields <$> List.find (fun e => String.eqb (sample_line e) line) sample_events |}.

#[local] Existing Instance sample_parser.

Definition sample_text_of (evs : list EventEnvelope) : string :=
  foldr (fun e text => sample_line e +:+ newline +:+ text) "" evs.

Definition sample_open_text : string := sample_text_of (take 4 sample_events).
Definition sample_rest_text : string := sample_text_of (drop 4 sample_events).
Definition sample_text : string := sample_open_text +:+ sample_rest_text.

Definition sample_start : SessionAppendValidationState := new_state (Some "s1").
Definition sample_open_state : SessionAppendValidationState :=
  (validate_appended sample_start sample_open_text).1.
Definition sample_state : SessionAppendValidationState :=
  (validate_appended sample_start sample_text).1.

Lemma sample_open_accepted :
  validate_appended sample_start sample_open_text = (sample_open_state, Ok (take 4 sample_events)).
Proof.
  rewrite (surjective_pairing (validate_appended sample_start sample_open_text)).
  apply (f_equal2 pair); [reflexivity|]. vm_compute. reflexivity.
Qed.

Lemma sample_accepted :
  validate_appended sample_start sample_text = (sample_state, Ok sample_events).
Proof.
  rewrite (surjective_pairing (validate_appended sample_start sample_text)).
  apply (f_equal2 pair); [reflexivity|]. vm_compute. reflexivity.
Qed.

Lemma sample_accepted_step :
  (validate_appended sample_start sample_open_text).2 = Ok (take 4 sample_events) /\
  (validate_appended sample_open_state sample_rest_text).2 = Ok (drop 4 sample_events).
Proof. split; vm_compute; reflexivity. Qed.

Lemma sample_open_run :
  exists evs, stream_run sample_start evs sample_open_state.
Proof.
  destruct (@validate_appended_run plain_json plain_json_laws sample_parser _ _ _ _
    sample_open_accepted) as (new & _ & Hrun & _). by exists new.
Qed.

Example accepted_stream_wf_witness : stream_wf (Some "s1") sample_events.
Proof.
  apply (@accepted_stream_wf plain_json plain_json_laws sample_parser (Some "s1") sample_text
    sample_state sample_events). exact sample_accepted.
Defined.

Example accepted_stream_in_order_witness :
  in_order (take 4 sample_events)
    (sample 5 MessageCompleted (Some "f1") [("message_id", JString "m1"); ("role", JString "assistant")]).
Proof.
  apply (@accepted_stream_in_order plain_json plain_json_laws sample_parser (Some "s1") sample_text
    sample_state sample_events sample_accepted _ _ (drop 5 sample_events)). reflexivity.
Defined.

Example terminal_session_checks_witness :
  validate_terminal_session (lifecycle sample_open_state) (Some (sample 5 SessionCompleted None []))
    = Err (OpenAtSessionEnd "flow" "f1").
Proof.
  destruct sample_open_run as [evs Hrun].
  rewrite (@terminal_session_checks plain_json (Some "s1") evs sample_open_state _ Hrun);
    [vm_compute; reflexivity|reflexivity].
Defined.

Example reachable_lifecycle_inv_witness : lifecycle_inv (lifecycle sample_open_state).
Proof.
  destruct sample_open_run as [evs Hrun].
  exact (@reachable_lifecycle_inv plain_json (Some "s1") evs sample_open_state Hrun).
Defined.

Example ended_stream_closed_witness :
  "f1" ∈ omap ended_flow sample_events /\ active (tools (lifecycle sample_state)) = ∅.
Proof.
  destruct (@ended_stream_closed plain_json plain_json_laws sample_parser (Some "s1") sample_text
    sample_state sample_events (sample 8 SessionFailed None [("reason", JString "no")]))
    as (Hf & _ & _ & _ & Ht).
  - exact sample_accepted.
  - unfold sample_events. set_solver.
  - reflexivity.
  - split; [|done]. apply Hf. vm_compute. constructor.
Defined.

Example validate_appended_app_witness :
  validate_appended sample_start (sample_open_text +:+ sample_rest_text)
    = ((validate_appended sample_open_state sample_rest_text).1, Ok sample_events).
Proof.
  rewrite (@validate_appended_app plain_json sample_parser sample_start sample_open_text
    sample_rest_text).
  - rewrite sample_open_accepted.
    rewrite (surjective_pairing (validate_appended sample_open_state sample_rest_text)).
    rewrite (proj2 sample_accepted_step). reflexivity.
  - right. vm_compute. reflexivity.
  - right. vm_compute. reflexivity.
Defined.

Example accepted_stream_budget_witness :
  stream_bytes sample_state = slen sample_text /\ line_count sample_state = 8.
Proof.
  destruct (@accepted_stream_budget plain_json plain_json_laws sample_parser (Some "s1") sample_text
    sample_state sample_events sample_accepted) as (Hb & _ & Hl & _). by split.
Defined.

Example validation_never_panics_witness :
  (validate_appended sample_start (sample_open_text +:+ "{")).2 <> Panic.
Proof.
  apply (@validation_never_panics plain_json plain_json_laws sample_parser sample_start).
Defined.
