(* ===== verification/Paths.v ===== *)
(** Identifiers and paths of the script language ([core-script/src/script/paths.rs]): command
    ids, parameter names, and relative paths that stay inside a scope on every platform. *)

From Stdlib Require Import ZArith Lia Ascii String.
From stdpp Require Import base strings sorting sets option gmap list.
From S2P Require Import Prelude Decimal Sorting Metadata.

Open Scope Z_scope.

(** * Bytes *)

Definition is_ascii_uppercase (a : ascii) : bool := (65 <=? byte a) && (byte a <=? 90).
Definition is_ascii_alphabetic (a : ascii) : bool := is_ascii_lowercase a || is_ascii_uppercase a.
Definition is_ascii_alphanumeric (a : ascii) : bool := is_ascii_alphabetic a || is_ascii_digit a.

Definition is_byte (b : Z) (a : ascii) : bool := byte a =? b.

(** [str::contains(char)] and [str::starts_with(char)] of an ASCII character. *)
Definition contains_char (c : ascii) (s : string) : bool := negb (free_of c s).

Definition starts_with_char (c : ascii) (s : string) : bool :=
  match s with
  | EmptyString => false
  | String a _ => Ascii.eqb a c
  end.

Fixpoint ends_with_byte (c : ascii) (s : string) : bool :=
  match s with
  | EmptyString => false
  | String a EmptyString => Ascii.eqb a c
  | String _ s => ends_with_byte c s
  end.

(** [str::to_ascii_uppercase]. *)
Fixpoint to_ascii_uppercase (s : string) : string :=
  match s with
  | EmptyString => EmptyString
  | String a s =>
      String (if is_ascii_lowercase a then ascii_of_N (Z.to_N (byte a - 32)) else a)
        (to_ascii_uppercase s)
  end.

(** * Identifiers *)

Definition is_valid_block_id (value : string) : bool := is_valid_session_id value.

Definition matches_lower_token (value : string) (min_len max_len : Z) : bool :=
  (min_len <=? slen value) && (slen value <=? max_len)
  && bytes_all (fun a => is_ascii_lowercase a || is_ascii_digit a || is_byte 95 a || is_byte 45 a) value.

Definition is_valid_command_id (value : string) : bool :=
  matches_lower_token value 1 64
  && match value with EmptyString => false | String a _ => is_ascii_lowercase a end.

Definition is_valid_allowed_parameter_name (value : string) : bool :=
  match strip_prefix "--" value with
  | None => false
  | Some EmptyString => false
  | Some (String first bytes) =>
      is_ascii_alphanumeric first
      && bytes_all (fun a => is_ascii_alphanumeric a || is_byte 95 a || is_byte 45 a) bytes
  end.

(** * Relative paths *)

Definition slash : ascii := ascii_of_N 47.
Definition backslash : ascii := ascii_of_N 92.
Definition dot : ascii := ascii_of_N 46.
Definition space : ascii := ascii_of_N 32.

Definition has_windows_drive_prefix (value : string) : bool :=
  match value with
  | String a (String b _) => is_ascii_alphabetic a && is_byte 58 b
  | _ => false
  end.

(** The bytes of U+00B9, U+00B2 and U+00B3 in UTF-8. *)
Definition superscript (b : N) : string := String (ascii_of_N 194) (String (ascii_of_N b) "").

Definition device_digits : list string :=
  ["1"; "2"; "3"; "4"; "5"; "6"; "7"; "8"; "9"; superscript 185; superscript 178; superscript 179]%string.

Definition device_names : list string := ["CON"; "PRN"; "AUX"; "NUL"; "CONIN$"; "CONOUT$"]%string.

Definition path_component_has_windows_alias (component : string) : bool :=
  if ends_with_byte dot component || ends_with_byte space component then true
  else
    let basename := match split_once dot component with
                    | Some (basename, _) => basename
                    | None => component
                    end in
    let uppercase := to_ascii_uppercase basename in
    existsb (String.eqb uppercase) device_names
    || match (match strip_prefix "COM" uppercase with
              | Some digit => Some digit
              | None => strip_prefix "LPT" uppercase
              end) with
       | Some digit => existsb (String.eqb digit) device_digits
       | None => false
       end.

Definition path_component_has_windows_invalid_character (component : string) : bool :=
  negb (bytes_all (fun a =>
    negb ((byte a <? 32) || is_byte 60 a || is_byte 62 a || is_byte 58 a || is_byte 34 a
          || is_byte 124 a || is_byte 63 a || is_byte 42 a)) component).

(** The loop over the components. *)
Fixpoint components_safe (components : list string) : bool :=
  match components with
  | [] => true
  | component :: components =>
      if String.eqb component "" || String.eqb component "." || String.eqb component ".." then false
      else if path_component_has_windows_alias component
              || path_component_has_windows_invalid_character component then false
      else components_safe components
  end.

Definition normalize_safe_relative_path (value : string) : option string :=
  if String.eqb value "" || starts_with_char slash value || has_windows_drive_prefix value
     || contains_char backslash value then None
  else if components_safe (split slash value) then Some value
  else None.

Definition relative_path_is_inside_scope (path scope : string) : bool :=
  bool_decide (normalize_safe_relative_path path = Some path)
  && bool_decide (normalize_safe_relative_path scope = Some scope)
  && (String.eqb path scope
      || match strip_prefix scope path with
         | Some suffix => starts_with_char slash suffix
         | None => false
         end).

Definition relative_path_has_windows_alias (value : string) : bool :=
  existsb (fun component =>
    negb (String.eqb component "" || String.eqb component "." || String.eqb component "..")
    && path_component_has_windows_alias component) (split slash value).

Example device_alias : normalize_safe_relative_path "docs/com1.txt" = None.
Proof. reflexivity. Qed.
Example plain_path : normalize_safe_relative_path "docs/notes.txt" = Some "docs/notes.txt"%string.
Proof. reflexivity. Qed.

(** * Theorems *)

#[local] Opaque path_component_has_windows_alias path_component_has_windows_invalid_character.

(** A component that names an entry of its directory on every platform. *)
Definition safe_component (c : string) : Prop :=
  c <> "" /\ c <> "." /\ c <> ".." /\
  path_component_has_windows_alias c = false /\
  path_component_has_windows_invalid_character c = false.

(** Components joined by slashes. *)
Fixpoint join_path (components : list string) : string :=
  match components with
  | [] => ""
  | [c] => c
  | c :: components => c +:+ String slash (join_path components)
  end.

Lemma components_safe_Forall cs : components_safe cs = true <-> Forall safe_component cs.
Proof.
  induction cs as [|c cs IH]; cbn; [by split|]. rewrite Forall_cons, <- IH. unfold safe_component.
  destruct (String.eqb_spec c ""), (String.eqb_spec c "."), (String.eqb_spec c ".."); cbn [orb];
    try (split; [done|]; by intros ((? & ? & ? & _) & _)).
  destruct (path_component_has_windows_alias c), (path_component_has_windows_invalid_character c);
    cbn [orb]; try (split; [done|]; by intros ((_ & _ & _ & ? & ?) & _)).
  split; [by intros H|by intros [_ ?]].
Qed.

Lemma split_free_all c s : Forall (fun p => free_of c p = true) (split c s).
Proof.
  remember (split c s) as ps eqn:E. symmetry in E. revert s E.
  induction ps as [|p ps IH]; intros s E; constructor.
  - by apply split_cons_inv in E as [? _].
  - apply split_cons_inv in E as [_ [[-> _]|(t & _ & Ht)]]; [constructor|by eapply IH].
Qed.

Lemma split_not_nil c s : split c s <> [].
Proof. destruct s as [|a s]; cbn; [done|]. destruct (Ascii.eqb a c); [done|]. by destruct (split c s). Qed.

Lemma join_split s : join_path (split slash s) = s.
Proof.
  remember (split slash s) as ps eqn:E. symmetry in E. revert s E.
  induction ps as [|p ps IH]; intros s E; [by apply split_not_nil in E|].
  apply split_cons_inv in E as [_ [[-> ->]|(t & -> & Ht)]]; [done|].
  destruct ps as [|q ps]; [by apply split_not_nil in Ht|]. cbn. f_equal. f_equal. by apply IH.
Qed.

Lemma split_join cs :
  cs <> [] -> Forall (fun c => free_of slash c = true) cs -> split slash (join_path cs) = cs.
Proof.
  intros Hne Hf. induction Hf as [|c cs Hc Hf IH]; [done|]. destruct cs as [|d cs].
  - by apply split_free.
  - change (join_path (c :: d :: cs)) with (c +:+ String slash (join_path (d :: cs))).
    rewrite split_sep by done. f_equal. by apply IH.
Qed.

(** A safe relative path. *)
Definition safe_path (p : string) : Prop :=
  has_windows_drive_prefix p = false /\ contains_char backslash p = false /\
  Forall safe_component (split slash p).

Lemma starts_with_slash_unsafe p : starts_with_char slash p = true -> ~ Forall safe_component (split slash p).
Proof.
  destruct p as [|a p]; [done|]. cbn [starts_with_char]. intros H Hf. cbn [split] in Hf.
  rewrite H in Hf. apply Forall_cons in Hf as [(Hne & _) _]. done.
Qed.

Lemma normalize_Some p q : normalize_safe_relative_path p = Some q <-> q = p /\ safe_path p.
Proof.
  unfold normalize_safe_relative_path, safe_path.
  destruct (String.eqb_spec p "") as [->|Hne]; cbn [orb].
  { split; [done|]. intros (_ & _ & _ & Hf). apply Forall_cons in Hf as [(? & _) _]. done. }
  destruct (starts_with_char slash p) eqn:Hs; cbn [orb].
  { split; [done|]. intros (_ & _ & _ & Hf). by apply starts_with_slash_unsafe in Hs. }
  destruct (has_windows_drive_prefix p); cbn [orb];
    [split; [done|]; by intros (_ & ? & _)|].
  destruct (contains_char backslash p); [split; [done|]; by intros (_ & _ & ? & _)|].
  destruct (components_safe (split slash p)) eqn:Hc.
  - apply components_safe_Forall in Hc. split; [by intros [= <-]|by intros [-> _]].
  - rewrite <- components_safe_Forall, Hc. split; [done|]. by intros (_ & _ & _ & ?).
Qed.

(** A prefix of the text up to a slash is a prefix of the components. *)
Lemma split_prefix s t : split slash (s +:+ String slash t) = split slash s ++ split slash t.
Proof.
  remember (split slash s) as ps eqn:E. symmetry in E. revert s E.
  induction ps as [|p ps IH]; intros s E; [by apply split_not_nil in E|].
  apply split_cons_inv in E as [Hf [[-> ->]|(u & -> & Hu)]].
  - by rewrite split_sep.
  - rewrite app_string_assoc.
    change (String slash u +:+ String slash t) with (String slash (u +:+ String slash t)).
    rewrite split_sep by done. cbn. f_equal. by apply IH.
Qed.

Lemma join_app cs ds :
  cs <> [] -> ds <> [] -> join_path (cs ++ ds) = join_path cs +:+ String slash (join_path ds).
Proof.
  intros Hc Hd. induction cs as [|c cs IH]; [done|]. destruct cs as [|c' cs].
  - destruct ds; [done|]. done.
  - change (join_path ((c :: c' :: cs) ++ ds)) with (c +:+ String slash (join_path ((c' :: cs) ++ ds))).
    rewrite IH by done.
    change (join_path (c :: c' :: cs)) with (c +:+ String slash (join_path (c' :: cs))).
    rewrite app_string_assoc. done.
Qed.

(** a path is inside a scope exactly when both are safe relative paths (no empty, [.] or
    [..] component, no drive, backslash or name that Windows aliases) and the components of
    the scope are a prefix of those of the path: textual prefixes such as [docs] of
    [docs-old] do not count, and no accepted path can leave the scope. *)
Theorem inside_scope_exact path scope :
  relative_path_is_inside_scope path scope = true <->
  safe_path path /\ safe_path scope /\
  exists rest, split slash path = split slash scope ++ rest.
Proof.
  unfold relative_path_is_inside_scope.
  rewrite !andb_true_iff, orb_true_iff, !bool_decide_eq_true, !normalize_Some, String.eqb_eq. split.
  - intros [[[_ Hp] [_ Hs]] Hin]. split_and!; [done..|]. destruct Hin as [->|Hin].
    { exists []. by rewrite app_nil_r. }
    destruct (strip_prefix scope path) as [suffix|] eqn:E; [|done]. apply strip_prefix_Some in E as ->.
    destruct suffix as [|a suffix]; [done|]. cbn in Hin. apply Ascii.eqb_eq in Hin as ->.
    exists (split slash suffix). apply split_prefix.
  - intros (Hp & Hs & rest & E). split_and!; [done..|]. destruct rest as [|r rest].
    { left. rewrite app_nil_r in E. by rewrite <- (join_split path), <- (join_split scope), E. }
    right. assert (strip_prefix scope path = Some (String slash (join_path (r :: rest)))) as ->.
    { apply strip_prefix_Some. rewrite <- (join_split path), E, join_app by (apply split_not_nil || done).
      by rewrite join_split. }
    cbn. done.
Qed.
