(* ===== verification/Values.v ===== *)
(** Runtime values of the script language ([core-script/src/script/values.rs] and the value
    types of [model.rs]): contracts, predicates and the rendering of Instructions.

    The message of a [FlowValueError] is the text the code formats.  [usize] is 64 bits wide. *)

From Stdlib Require Import ZArith Lia Ascii String.
From stdpp Require Import base strings sorting sets option gmap list.
From S2P Require Import Prelude Decimal Sorting Json FlowValue.

Open Scope Z_scope.

(** * Contracts and predicates ([model.rs]) *)

(** One field of a closed map contract; [C] is the type of contracts. *)
Record ValueFieldContract (C : Type) : Type := mkField {
  field_name : string;
  field_required : bool;
  field_contract : C;
}.

Arguments mkField {C} _ _ _.
Arguments field_name {C} _.
Arguments field_required {C} _.
Arguments field_contract {C} _.

Inductive ValueContract : Type :=
| CBoolean
| CInteger (min max : option Z)
| CString (max_length : option Z)
| CList (items : ValueContract) (max_items : option Z)
| CMap (fields : list (ValueFieldContract ValueContract))
| CSessionObject.

Inductive ValuePathSegment : Type :=
| SegField (field : string)
| SegIndex (index : Z).

#[export] Instance ValuePathSegment_eq_dec : EqDecision ValuePathSegment.
Proof. solve_decision. Defined.

Record ValuePredicate : Type := mkPredicate {
  pred_path : list ValuePathSegment;
  pred_equals : FlowValue;
}.

Record InstructionParameter : Type := mkInstructionParameter {
  ip_name : string;
  ip_contract : ValueContract;
}.

Section contract_ind.
Context (P : ValueContract -> Prop).
Context (Hb : P CBoolean) (Ho : P CSessionObject).
Context (Hi : forall min max, P (CInteger min max)) (Hs : forall max, P (CString max)).
Context (Hl : forall items max, P items -> P (CList items max)).
Context (Hm : forall fields, Forall (fun f => P (field_contract f)) fields -> P (CMap fields)).

Fixpoint ValueContract_ind' (c : ValueContract) : P c :=
  match c with
  | CBoolean => Hb
  | CSessionObject => Ho
  | CInteger min max => Hi min max
  | CString max => Hs max
  | CList items max => Hl items max (ValueContract_ind' items)
  | CMap fields =>
      Hm fields ((fix go (fields : list (ValueFieldContract ValueContract))
          : Forall (fun f => P (field_contract f)) fields :=
        match fields with
        | [] => Forall_nil_2 _
        | mkField n r c :: fields =>
            Forall_cons_2 _ (mkField n r c) _ (ValueContract_ind' c) (go fields)
        end) fields)
  end.
End contract_ind.

(** [PartialEq] of values. *)
Fixpoint fv_eqb (a b : FlowValue) {struct a} : bool :=
  match a, b with
  | FBoolean a, FBoolean b => Bool.eqb a b
  | FInteger a, FInteger b => String.eqb a b
  | FString a, FString b => String.eqb a b
  | FSessionObject a, FSessionObject b => String.eqb a b
  | FList a, FList b =>
      (fix go (a b : list FlowValue) : bool :=
        match a, b with
        | [], [] => true
        | x :: a, y :: b => fv_eqb x y && go a b
        | _, _ => false
        end) a b
  | FMap a, FMap b =>
      (fix go (a b : list (string * FlowValue)) : bool :=
        match a, b with
        | [], [] => true
        | (j, x) :: a, (k, y) :: b => String.eqb j k && fv_eqb x y && go a b
        | _, _ => false
        end) a b
  | _, _ => false
  end.

(** [BTreeMap::get]. *)
Definition map_get {A} (fields : list (string * A)) (key : string) : option A :=
  find_map (fun '(k, v) => if String.eqb k key then Some v else None) fields.

(** * Errors and limits *)

Record FlowValueError : Type := flow_value_error { fve_message : string }.

Definition MAX_FLOW_VALUE_DEPTH : Z := FLOW_VALUE_MAX_DEPTH_V0.
Definition MAX_FLOW_VALUE_MEMBERS : Z := FLOW_VALUE_MAX_MEMBERS_V0.
Definition MAX_FLOW_VALUE_KEY_CHARS : Z := FLOW_VALUE_MAX_KEY_CHARS_V0.
Definition usize_max : Z := 18446744073709551615.

Definition bracketed (index : Z) : string := "[" +:+ Z_to_string index +:+ "]".

Section values.
Context {J : JsonEnv}.

(** * Validation of values *)

Fixpoint guard_flow_value_serialization_depth (value : FlowValue) (depth : Z)
    : result FlowValueError unit :=
  if MAX_FLOW_VALUE_DEPTH <? depth then
    Err (flow_value_error ("$ depth " +:+ Z_to_string depth +:+ " exceeds max "
           +:+ Z_to_string MAX_FLOW_VALUE_DEPTH))
  else
    match value with
    | FList values =>
        try_for_each (fun value => guard_flow_value_serialization_depth value (depth + 1)) values
    | FMap values =>
        try_for_each (fun '(_, value) => guard_flow_value_serialization_depth value (depth + 1)) values
    | FBoolean _ | FInteger _ | FString _ | FSessionObject _ => Ok tt
    end.

(** [serde_json::to_value] of a value whose keys are strings does not fail. *)
Definition validate_flow_value (value : FlowValue) : result FlowValueError unit :=
  _ ← guard_flow_value_serialization_depth value 1;
  map_err (fun error => flow_value_error (message error)) (validate_flow_value_v0 (encode value)).

Definition validate_nfc (value path : string) : result FlowValueError unit :=
  if negb (is_nfc value) then Err (flow_value_error (path +:+ " must use NFC text")) else Ok tt.

Definition validate_key (value path : string) : result FlowValueError unit :=
  if String.eqb value "" || (MAX_FLOW_VALUE_KEY_CHARS <? char_count value) then
    Err (flow_value_error (path +:+ " must contain 1 to "
           +:+ Z_to_string MAX_FLOW_VALUE_KEY_CHARS +:+ " characters"))
  else validate_nfc value path.

(** * Contracts *)

(** The loop over the fields of a map contract, with the names seen so far. *)
Definition validate_contract_fields
    (validate : ValueContract -> string -> result FlowValueError unit) (path : string)
    : list (ValueFieldContract ValueContract) -> gset string -> result FlowValueError unit :=
  fix go fields names :=
    match fields with
    | [] => Ok tt
    | mkField name _ contract :: fields =>
        _ ← validate_key name (path +:+ " field");
        if decide (name ∈ names) then
          Err (flow_value_error (path +:+ " map contract field " +:+ name
                 +:+ " is declared more than once"))
        else
          _ ← validate contract (path +:+ "." +:+ name);
          go fields ({[name]} ∪ names)
    end.

Fixpoint validate_value_contract_at (contract : ValueContract) (depth : Z) (path : string)
    : result FlowValueError unit :=
  if MAX_FLOW_VALUE_DEPTH <? depth then
    Err (flow_value_error (path +:+ " value contract depth " +:+ Z_to_string depth
           +:+ " exceeds max " +:+ Z_to_string MAX_FLOW_VALUE_DEPTH))
  else
    match contract with
    | CBoolean | CSessionObject | CString _ => Ok tt
    | CInteger min max =>
        match min, max with
        | Some min, Some max =>
            if max <? min then
              Err (flow_value_error (path +:+ " integer contract min must be <= max"))
            else Ok tt
        | _, _ => Ok tt
        end
    | CList items max_items =>
        if match max_items with Some count => MAX_FLOW_VALUE_MEMBERS <? count | None => false end then
          Err (flow_value_error (path +:+ " list contract max_items exceeds max "
                 +:+ Z_to_string MAX_FLOW_VALUE_MEMBERS))
        else validate_value_contract_at items (depth + 1) (path +:+ "[]")
    | CMap fields =>
        if MAX_FLOW_VALUE_MEMBERS <? len fields then
          Err (flow_value_error (path +:+ " map contract field count exceeds max "
                 +:+ Z_to_string MAX_FLOW_VALUE_MEMBERS))
        else
          validate_contract_fields
            (fun contract path => validate_value_contract_at contract (depth + 1) path)
            path fields ∅
    end.

Definition validate_value_contract_definition (contract : ValueContract)
    : result FlowValueError unit :=
  validate_value_contract_at contract 1 "$".

(** [values.iter().enumerate()] with [?]. *)
Definition validate_list_items
    (validate : FlowValue -> string -> result FlowValueError unit) (path : string)
    : list FlowValue -> Z -> result FlowValueError unit :=
  fix go values index :=
    match values with
    | [] => Ok tt
    | value :: values =>
        _ ← validate value (path +:+ bracketed index);
        go values (index + 1)
    end.

Definition validate_map_fields
    (validate : ValueContract -> FlowValue -> string -> result FlowValueError unit)
    (values : list (string * FlowValue)) (path : string)
    : list (ValueFieldContract ValueContract) -> result FlowValueError unit :=
  fix go fields :=
    match fields with
    | [] => Ok tt
    | mkField name required contract :: fields =>
        _ ← match map_get values name with
            | Some value => validate contract value (path +:+ "." +:+ name)
            | None =>
                if required : bool then
                  Err (flow_value_error (path +:+ " is missing required field " +:+ name))
                else Ok tt
            end;
        go fields
    end.

Fixpoint validate_against_contract_at (value : FlowValue) (contract : ValueContract) (path : string)
    {struct contract} : result FlowValueError unit :=
  match value, contract with
  | FBoolean _, CBoolean | FSessionObject _, CSessionObject => Ok tt
  | FInteger value, CInteger min max =>
      value ← map_err (fun error =>
                flow_value_error (path +:+ " " +:+
                  match error with
                  | Invalid => "integer value must be a signed 64-bit decimal string"
                  | NonCanonical => "integer value must use canonical decimal form"
                  end)) (parse_canonical_i64 value);
      if match min with Some min => value <? min | None => false end
         || match max with Some max => max <? value | None => false end then
        Err (flow_value_error (path +:+ " integer is outside its inclusive contract bounds"))
      else Ok tt
  | FString value, CString max_length =>
      match max_length with
      | Some max =>
          if max <? char_count value then
            Err (flow_value_error (path +:+ " string length exceeds max " +:+ Z_to_string max))
          else Ok tt
      | None => Ok tt
      end
  | FList values, CList items max_items =>
      _ ← match max_items with
          | Some max =>
              if max <? len values then
                Err (flow_value_error (path +:+ " list length exceeds max " +:+ Z_to_string max))
              else Ok tt
          | None => Ok tt
          end;
      validate_list_items (fun value path => validate_against_contract_at value items path) path values 0
  | FMap values, CMap fields =>
      _ ← validate_map_fields (fun contract value path => validate_against_contract_at value contract path)
            values path fields;
      try_for_each (fun '(name, _) =>
        if existsb (fun field => String.eqb (field_name field) name) fields then Ok tt
        else Err (flow_value_error (path +:+ " contains undeclared field " +:+ name))) values
  | _, _ => Err (flow_value_error (path +:+ " value type does not match its contract"))
  end.

Definition validate_flow_value_against_contract (value : FlowValue) (contract : ValueContract)
    : result FlowValueError unit :=
  _ ← validate_flow_value value;
  _ ← validate_value_contract_definition contract;
  validate_against_contract_at value contract "$".

(** * Predicates *)

(** The loop over the path: [None] is [return Ok(false)]. *)
Fixpoint select_value (selected : FlowValue) (path : list ValuePathSegment) : option FlowValue :=
  match path with
  | [] => Some selected
  | segment :: path =>
      selected ← match selected, segment with
                 | FMap values, SegField field => map_get values field
                 | FList values, SegIndex index => values !! Z.to_nat index
                 | _, _ => None
                 end;
      select_value selected path
  end.

Fixpoint validate_path (path : list ValuePathSegment) (index : Z) : result FlowValueError unit :=
  match path with
  | [] => Ok tt
  | segment :: path =>
      _ ← match segment with
          | SegField field => validate_key field ("$.path" +:+ bracketed index +:+ ".field")
          | SegIndex _ => Ok tt
          end;
      validate_path path (index + 1)
  end.

Definition validate_predicate_definition (predicate : ValuePredicate) : result FlowValueError unit :=
  _ ← validate_path (pred_path predicate) 0;
  validate_flow_value (pred_equals predicate).

Definition predicate_matches (value : FlowValue) (predicate : ValuePredicate)
    : result FlowValueError bool :=
  _ ← validate_flow_value value;
  _ ← validate_predicate_definition predicate;
  match select_value value (pred_path predicate) with
  | Some selected => Ok (fv_eqb selected (pred_equals predicate))
  | None => Ok false
  end.

(** The contract a path selects. *)
Fixpoint select_contract (selected : ValueContract) (path : list ValuePathSegment) (index : Z)
    : result FlowValueError ValueContract :=
  match path with
  | [] => Ok selected
  | segment :: path =>
      selected ←
        match selected, segment with
        | CMap fields, SegField field =>
            ok_or (find_map (fun candidate =>
                     if String.eqb (field_name candidate) field then Some (field_contract candidate)
                     else None) fields)
              (flow_value_error ("$.path" +:+ bracketed index +:+ " selects undeclared field " +:+ field))
        | CList items max_items, SegIndex selected_index =>
            let maximum_items := default MAX_FLOW_VALUE_MEMBERS max_items in
            if maximum_items <=? selected_index then
              Err (flow_value_error ("$.path" +:+ bracketed index +:+ " selects list index "
                     +:+ Z_to_string selected_index +:+ ", which cannot exist under maximum item count "
                     +:+ Z_to_string maximum_items))
            else Ok items
        | _, _ =>
            Err (flow_value_error ("$.path" +:+ bracketed index
                   +:+ " segment does not match the output contract"))
        end;
      select_contract selected path (index + 1)
  end.

Definition validate_predicate_against_contract (predicate : ValuePredicate) (contract : ValueContract)
    : result FlowValueError unit :=
  _ ← validate_predicate_definition predicate;
  _ ← validate_value_contract_definition contract;
  selected ← select_contract contract (pred_path predicate) 0;
  map_err (fun error => flow_value_error
             ("predicate equality does not match output contract: " +:+ fve_message error))
    (validate_flow_value_against_contract (pred_equals predicate) selected).
End values.

(** * Rendering *)

(** [str::find] of a two-byte pattern [cc]: what comes before the first match, and after it. *)
Fixpoint find_pair (c : ascii) (s : string) : option (string * string) :=
  match s with
  | String a ((String b r) as s') =>
      if Ascii.eqb a c && Ascii.eqb b c then Some (EmptyString, r)
      else '(before, after) ← find_pair c s'; Some (String a before, after)
  | _ => None
  end.

Definition open_brace : ascii := ascii_of_N 123.
Definition close_brace : ascii := ascii_of_N 125.

Section render.
Context {J : JsonEnv}.

(** [String::try_reserve_exact]: whether the allocator gives the bytes. *)
Context (try_reserve : string -> Z -> bool).

Definition append_instruction_fragment (rendered fragment : string) (max_bytes : Z)
    : result FlowValueError string :=
  let bytes := slen rendered + slen fragment in
  if (usize_max <? bytes) || (max_bytes <? bytes) then
    Err (flow_value_error ("rendered Instruction exceeds maximum of " +:+ Z_to_string max_bytes
           +:+ " bytes"))
  else if try_reserve rendered (slen fragment) then Ok (rendered +:+ fragment)
  else Err (flow_value_error ("rendered Instruction cannot be allocated within maximum of "
              +:+ Z_to_string max_bytes +:+ " bytes")).

(** [CanonicalJsonError] as text. *)
Context (canonical_error_text : CanonicalJsonError -> string).

(** The loop; [Panic] at fuel 0 is never reached, as each round drops two bytes of the prompt. *)
Fixpoint render_loop (fuel : nat) (parameters : list (string * FlowValue))
    (replacements : gmap string string) (rendered remaining : string) (max_bytes : Z)
    : result FlowValueError string :=
  match fuel with
  | O => Panic
  | S fuel =>
      match find_pair open_brace remaining with
      | None => append_instruction_fragment rendered remaining max_bytes
      | Some (before, after_open) =>
          rendered ← append_instruction_fragment rendered before max_bytes;
          match find_pair close_brace after_open with
          | None =>
              append_instruction_fragment rendered ("{{" +:+ after_open) max_bytes
          | Some (name, after_close) =>
              match map_get parameters name with
              | Some value =>
                  replacements ←
                    match replacements !! name with
                    | Some _ => Ok replacements
                    | None =>
                        canonical ← map_err (fun error => flow_value_error
                            ("Instruction parameter " +:+ name +:+ " cannot be canonicalized: "
                             +:+ canonical_error_text error)) (canonical_json (encode value));
                        Ok (<[name := canonical]> replacements)
                    end;
                  replacement ← expect (replacements !! name);
                  rendered ← append_instruction_fragment rendered replacement max_bytes;
                  render_loop fuel parameters replacements rendered after_close max_bytes
              | None =>
                  rendered ← append_instruction_fragment rendered "{{" max_bytes;
                  render_loop fuel parameters replacements rendered after_open max_bytes
              end
          end
      end
  end.

(** [prompt] and [parameters] of an [InstructionBlock]. *)
Definition render_instruction (prompt : string) (declared : list InstructionParameter)
    (parameters : list (string * FlowValue)) (max_bytes : Z) : result FlowValueError string :=
  _ ← try_for_each (fun parameter =>
        value ← ok_or (map_get parameters (ip_name parameter))
          (flow_value_error ("missing Instruction parameter " +:+ ip_name parameter));
        map_err (fun error => flow_value_error
            ("Instruction parameter " +:+ ip_name parameter +:+ " is invalid: " +:+ fve_message error))
          (validate_flow_value_against_contract value (ip_contract parameter))) declared;
  _ ← try_for_each (fun '(name, _) =>
        if existsb (fun parameter => String.eqb (ip_name parameter) name) declared then Ok tt
        else Err (flow_value_error ("undeclared Instruction parameter " +:+ name))) parameters;
  render_loop (S (String.length prompt)) parameters ∅ "" prompt max_bytes.
End render.
