(* ===== verification/ValuesTheory.v ===== *)
(** Theorems on runtime values ([Values]): what validation and contracts accept, that a
    predicate checked against a contract never fails on values of that contract, and that
    rendering is the unbounded expansion cut off at the byte limit. *)

From Stdlib Require Import ZArith Lia Ascii String.
From stdpp Require Import base strings sorting sets option gmap list.
From S2P Require Import Prelude Decimal Sorting Json FlowValue Values.

Open Scope Z_scope.

(** * Equality and encoding *)

Lemma fv_eqb_eq a b : fv_eqb a b = true <-> a = b.
Proof.
  revert b. induction a as [x|x|x|x|vs IH|fs IH] using FlowValue_ind'; intros [y|y|y|ws|gs|y]; cbn;
    try (split; [intros [=]|intros [=]; fail]);
    try (rewrite ?eqb_true_iff, ?String.eqb_eq; split; [by intros ->|by intros [= ->]]).
  - transitivity (vs = ws); [|split; [by intros ->|by intros [= ->]]]. revert ws.
    induction IH as [|v vs Hv _ IHvs]; intros [|w ws]; try done.
    rewrite andb_true_iff, Hv, (IHvs ws). split; [by intros [-> ->]|by intros [= -> ->]].
  - transitivity (fs = gs); [|split; [by intros ->|by intros [= ->]]]. revert gs.
    induction IH as [|[k v] fs Hv _ IHfs]; intros [|[l w] gs]; try done.
    cbn in Hv. rewrite !andb_true_iff, Hv, (IHfs gs), String.eqb_eq.
    split; [by intros [[-> ->] ->]|by intros [= -> -> ->]].
Qed.

Lemma encode_inj a b : encode a = encode b -> a = b.
Proof.
  revert b. induction a as [x|x|x|x|vs IH|fs IH] using FlowValue_ind'; intros [y|y|y|ws|gs|y]; cbn;
    try (intros [= ->]; done); try done.
  - intros [= E]. f_equal. revert ws E. induction IH as [|v vs Hv _ IHvs]; intros [|w ws]; try done.
    cbn. intros [= ?%Hv ?%IHvs]. congruence.
  - intros [= E]. f_equal. revert gs E.
    induction IH as [|[k v] fs Hv _ IHfs]; intros [|[l w] gs]; try done.
    cbn in Hv |- *. intros [= -> ?%Hv ?%IHfs]. congruence.
Qed.

Lemma map_get_Some {A} (fs : list (string * A)) k v : map_get fs k = Some v -> (k, v) ∈ fs.
Proof.
  unfold map_get. induction fs as [|[j w] fs IH]; cbn; [done|].
  destruct (String.eqb_spec j k) as [->|]; [intros [= ->]; by left|]. right. auto.
Qed.

(** * Values *)

Section validation.
Context {J : JsonEnv}.

Lemma guard_Ok v depth :
  guard_flow_value_serialization_depth v depth = Ok tt <-> depth + fv_depth v <= 17.
Proof.
  revert depth. unfold MAX_FLOW_VALUE_DEPTH, FLOW_VALUE_MAX_DEPTH_V0.
  assert (forall depth d, 1 <= d -> (16 <? depth) = true -> ~ depth + d <= 17) as Hgt by lia.
  induction v as [x|x|x|x|vs IH|fs IH] using FlowValue_ind'; intros depth;
    cbn -[Z.add String.append Z_to_string]; unfold MAX_FLOW_VALUE_DEPTH, FLOW_VALUE_MAX_DEPTH_V0;
    destruct (Z.ltb_spec 16 depth) as [Hd|Hd]; try (split; [done|lia]); try (split; [lia|done]).
  - split; [done|]. pose proof (fv_depth_pos (FList vs)). cbn -[Z.add] in *. lia.
  - rewrite try_for_each_Ok.
    transitivity (foldr Z.max 0 (map fv_depth vs) <= 16 - depth); [|lia].
    rewrite max_le by lia. rewrite List.Forall_map.
    rewrite !Forall_forall in *. split; intros H v Hv.
    + specialize (H v Hv). rewrite IH in H by done. lia.
    + apply IH; [done|]. specialize (H v Hv). lia.
  - split; [done|]. pose proof (fv_depth_pos (FMap fs)). cbn -[Z.add] in *. lia.
  - rewrite try_for_each_Ok.
    transitivity (foldr Z.max 0 (map (fun '(_, v) => fv_depth v) fs) <= 16 - depth); [|lia].
    rewrite max_le by lia. rewrite List.Forall_map.
    rewrite !Forall_forall in *. split; intros H [k v] Hv.
    + specialize (H (k, v) Hv). cbn in H. rewrite (IH (k, v)) in H by done. cbn in H. lia.
    + apply (IH (k, v)); [done|]. specialize (H (k, v) Hv). cbn in *. lia.
Qed.

(** A value within every bound. *)
Definition value_ok (v : FlowValue) : Prop :=
  fv_shape v /\ fv_depth v <= 16 /\ fv_nodes v <= 4096 /\ slen (compact_json (encode v)) <= 65536.
End validation.

Section accepted.
Context {J : JsonEnv} {JL : JsonLaws}.

Lemma validate_flow_value_Ok v :
  wf_json (encode v) -> validate_flow_value v = Ok tt <-> value_ok v.
Proof.
  intros Hw. unfold validate_flow_value, value_ok. split.
  - intros H. inv_ok. destruct (validate_flow_value_v0 (encode v)) as [[]| |] eqn:E; try done.
    apply validate_flow_value_v0_Ok in E as [(fv & Hfv & Hs & Hd & Hn) Hb]; [|done].
    apply encode_inj in Hfv as <-. done.
  - intros (Hs & Hd & Hn & Hb).
    rewrite (proj2 (guard_Ok v 1)) by lia. cbn [mbind result_bind].
    rewrite (proj2 (validate_flow_value_v0_Ok _ Hw)); [done|]. split; [|done]. exists v. done.
Qed.

(** The canonical text of an accepted value exists: it is the compact text. *)
Lemma value_ok_canonical v :
  wf_json (encode v) -> value_ok v -> canonical_json (encode v) = Ok (compact_json (encode v)).
Proof.
  intros Hw (Hs & Hd & _). apply canonical_json_compact; [by apply encode_normal|].
  pose proof (encode_height v). lia.
Qed.
End accepted.

(** * Contracts *)

Fixpoint contract_depth (c : ValueContract) : Z :=
  match c with
  | CList items _ => 1 + contract_depth items
  | CMap fields => 1 + foldr Z.max 0 (map (fun '(mkField _ _ c) => contract_depth c) fields)
  | _ => 1
  end.

Lemma contract_depth_pos c : 1 <= contract_depth c.
Proof.
  induction c as [| | | |items max IH|fields IH] using ValueContract_ind'; cbn -[Z.add]; try lia.
  assert (0 <= foldr Z.max 0 (map (fun '(mkField _ _ c) => contract_depth c) fields)); [|lia].
  clear. induction fields as [|f fields IH]; cbn; lia.
Qed.

Section contracts.
Context {J : JsonEnv}.

(** The well-formed contracts. *)
Fixpoint contract_shape (c : ValueContract) : Prop :=
  match c with
  | CBoolean | CSessionObject | CString _ => True
  | CInteger min max => forall a b, min = Some a -> max = Some b -> a <= b
  | CList items max_items => (forall n, max_items = Some n -> n <= 1024) /\ contract_shape items
  | CMap fields =>
      len fields <= 1024 /\ Forall (fun f => key_shape (field_name f)) fields /\
      NoDup (field_name <$> fields) /\
      foldr and True (map (fun '(mkField _ _ c) => contract_shape c) fields)
  end.

Lemma fold_contracts (P : ValueContract -> Prop) fields :
  foldr and True (map (fun '(mkField _ _ c) => P c) fields) <->
  Forall (fun f => P (field_contract f)) fields.
Proof.
  induction fields as [|[n r c] fields IH]; cbn; [by split; constructor|]. by rewrite Forall_cons, IH.
Qed.

Lemma validate_key_Ok k path : validate_key k path = Ok tt <-> key_shape k.
Proof.
  unfold validate_key, validate_nfc, key_shape, MAX_FLOW_VALUE_KEY_CHARS, FLOW_VALUE_MAX_KEY_CHARS_V0.
  destruct (String.eqb_spec k "") as [->|Hne]; cbn [orb]; [naive_solver|].
  destruct (Z.ltb_spec 256 (char_count k)) as [Hlt|Hle]; [split; [done|lia]|].
  destruct (is_nfc k); cbn; naive_solver.
Qed.

Lemma contract_fields_Ok validate path fields names :
  validate_contract_fields validate path fields names = Ok tt <->
  Forall (fun f => key_shape (field_name f)) fields /\
  NoDup (field_name <$> fields) /\ (forall f, f ∈ fields -> field_name f ∉ names) /\
  Forall (fun f => validate (field_contract f) (path +:+ "." +:+ field_name f) = Ok tt) fields.
Proof.
  revert names. induction fields as [|[n r c] fields IH]; intros names; cbn -[String.append].
  { split; [|done]. intros _. split_and!; [constructor|constructor| |constructor].
    by intros f Hf%elem_of_nil. }
  rewrite !Forall_cons, NoDup_cons, list_elem_of_fmap. cbn -[String.append]. split.
  - intros H. inv_ok. destruct x, x0. apply validate_key_Ok in Hx. apply IH in H as (Hk & Hnd & Hni & Hv). split_and!; [done..| |done| |done|done].
    + intros (f & Hf & Hin). apply (Hni f Hin). rewrite <- Hf. set_solver.
    + intros f [->|Hin]%elem_of_cons; [done|]. specialize (Hni f Hin). set_solver.
  - intros ([Hk Hks] & [Hni Hnd] & Hfresh & Hv & Hvs).
    rewrite (proj2 (validate_key_Ok n _) Hk). cbn -[String.append].
    rewrite decide_False by (apply (Hfresh (mkField n r c)); left).
    rewrite Hv. cbn -[String.append]. apply IH. split_and!; [done..| |done].
    intros f Hin. rewrite not_elem_of_union, not_elem_of_singleton. split.
    + intros E. apply Hni. eauto.
    + apply Hfresh. by right.
Qed.

Lemma depths_fields fields m :
  0 <= m ->
  foldr Z.max 0 (map (fun '(mkField _ _ c) => contract_depth c) fields) <= m <->
  Forall (fun f => contract_depth (field_contract f) <= m) fields.
Proof.
  intros Hm. rewrite max_le by done. rewrite List.Forall_map.
  apply Forall_iff. by intros [].
Qed.

Lemma contract_at_Ok c depth path :
  validate_value_contract_at c depth path = Ok tt <->
  depth + contract_depth c <= 17 /\ contract_shape c.
Proof.
  revert depth path.
  induction c as [| |min max|max|items max IH|fields IH] using ValueContract_ind'; intros depth path;
    cbn -[Z.add String.append Z_to_string validate_contract_fields len];
    unfold MAX_FLOW_VALUE_DEPTH, MAX_FLOW_VALUE_MEMBERS, FLOW_VALUE_MAX_DEPTH_V0, FLOW_VALUE_MAX_MEMBERS_V0;
    destruct (Z.ltb_spec 16 depth) as [Hd|Hd]; try (split; [done|]; intros [? _]; lia);
    try (split; [split; [lia|done]|done]).
  - destruct min as [a|], max as [b|]; [destruct (Z.ltb_spec b a) as [Hab|Hab]|..].
    + split; [done|]. intros [_ H]. specialize (H a b eq_refl eq_refl). lia.
    + split; [|done]. intros _. split; [lia|]. by intros ? ? [= <-] [= <-].
    + split; [|done]. intros _. split; [lia|done].
    + split; [|done]. intros _. split; [lia|done].
    + split; [|done]. intros _. split; [lia|done].
  - pose proof (contract_depth_pos items). split; [done|]. intros [? _]. lia.
  - destruct max as [n|]; [destruct (Z.ltb_spec 1024 n) as [Hn|Hn]|].
    + split; [done|]. intros (_ & H & _). specialize (H n eq_refl). lia.
    + rewrite IH. split; [intros [? ?]; split_and!; [lia| |done]; by intros ? [= <-]|].
      intros (? & _ & ?). split; [lia|done].
    + rewrite IH. split; [intros [? ?]; split_and!; [lia|done|done]|].
      intros (? & _ & ?). split; [lia|done].
  - pose proof (contract_depth_pos (CMap fields)). cbn -[Z.add] in *. split; [done|]. intros [? _]. lia.
  - destruct (Z.ltb_spec 1024 (len fields)) as [Hn|Hn]; [split; [done|]; intros (_ & ? & _); lia|].
    rewrite contract_fields_Ok, fold_contracts.
    transitivity (len fields <= 1024 /\ Forall (fun f => key_shape (field_name f)) fields /\
      NoDup (field_name <$> fields) /\
      Forall (fun f => contract_depth (field_contract f) <= 16 - depth) fields /\
      Forall (fun f => contract_shape (field_contract f)) fields).
    + rewrite !Forall_forall in *. split.
      * intros (Hk & Hnd & _ & Hv). split_and!; [done..| |]; intros f Hf;
          specialize (Hv f Hf); apply IH in Hv as [? ?]; [lia|done|done|done].
      * intros (_ & Hk & Hnd & Hdep & Hsh). split_and!; [done..| |]; intros f Hf; [set_solver|].
        apply IH; [done|]. specialize (Hdep f Hf). split; [lia|by apply Hsh].
    + rewrite <- depths_fields by lia. split; intros; destruct_and?; split_and!; try done; lia.
Qed.

Lemma contract_definition_Ok c :
  validate_value_contract_definition c = Ok tt <-> contract_depth c <= 16 /\ contract_shape c.
Proof. unfold validate_value_contract_definition. rewrite contract_at_Ok. intuition lia. Qed.
End contracts.

(** * The values of a contract *)

Inductive satisfies : FlowValue -> ValueContract -> Prop :=
| sat_boolean b : satisfies (FBoolean b) CBoolean
| sat_session_object s : satisfies (FSessionObject s) CSessionObject
| sat_integer s n min max :
    parse_canonical_i64 s = Ok n ->
    (forall m, min = Some m -> m <= n) -> (forall m, max = Some m -> n <= m) ->
    satisfies (FInteger s) (CInteger min max)
| sat_string s max :
    (forall m, max = Some m -> char_count s <= m) -> satisfies (FString s) (CString max)
| sat_list vs items max :
    (forall m, max = Some m -> len vs <= m) -> (forall v, v ∈ vs -> satisfies v items) ->
    satisfies (FList vs) (CList items max)
| sat_map vs fields :
    (forall f v, f ∈ fields -> map_get vs (field_name f) = Some v -> satisfies v (field_contract f)) ->
    (forall f, f ∈ fields -> map_get vs (field_name f) = None -> field_required f = false) ->
    (forall k v, (k, v) ∈ vs -> k ∈ field_name <$> fields) ->
    satisfies (FMap vs) (CMap fields).

Lemma list_items_Ok validate path vs index :
  (forall v path, v ∈ vs -> forall path', validate v path = Ok tt <-> validate v path' = Ok tt) ->
  validate_list_items validate path vs index = Ok tt <->
  forall v, v ∈ vs -> validate v path = Ok tt.
Proof.
  revert index. induction vs as [|v vs IH]; intros index Hp; cbn -[String.append bracketed].
  { split; [|done]. by intros _ v Hv%elem_of_nil. }
  split.
  - intros H. inv_ok. destruct x. rewrite IH in H by (intros; apply Hp; by right).
    intros w [->|Hw]%elem_of_cons; [|by apply H]. eapply Hp; [left|exact Hx].
  - intros H. rewrite (proj1 (Hp v path ltac:(left) _)) by (apply H; left). cbn -[String.append bracketed].
    apply IH; [intros; apply Hp; by right|]. intros w Hw. apply H. by right.
Qed.

Lemma map_fields_Ok validate vs path fields :
  validate_map_fields validate vs path fields = Ok tt <->
  Forall (fun f =>
    match map_get vs (field_name f) with
    | Some v => validate (field_contract f) v (path +:+ "." +:+ field_name f) = Ok tt
    | None => field_required f = false
    end) fields.
Proof.
  induction fields as [|[n r c] fields IH]; cbn -[String.append map_get]; [by split|].
  rewrite Forall_cons, <- IH. cbn -[String.append map_get].
  destruct (map_get vs n) as [v|].
  - split; [intros H; inv_ok; by destruct x|]. intros [-> H]. done.
  - destruct r; cbn; naive_solver.
Qed.

Lemma declared_Ok (fields : list (ValueFieldContract ValueContract)) (vs : list (string * FlowValue)) path :
  try_for_each (fun '(name, _) =>
    if existsb (fun field => String.eqb (field_name field) name) fields then Ok tt
    else Err (flow_value_error (path +:+ " contains undeclared field " +:+ name))) vs = Ok tt <->
  forall k v, (k, v) ∈ vs -> k ∈ field_name <$> fields.
Proof.
  rewrite try_for_each_Ok, Forall_forall.
  assert (forall k, existsb (fun field => String.eqb (field_name field) k) fields = true <->
    k ∈ field_name <$> fields) as Hex.
  { intros k. rewrite existsb_exists, list_elem_of_fmap. split.
    - intros (f & Hf%list_elem_of_In & E%String.eqb_eq). eauto.
    - intros (f & -> & Hf%list_elem_of_In). exists f. by rewrite String.eqb_refl. }
  split.
  - intros H k v Hin. apply Hex. specialize (H _ Hin). cbn in H. by destruct (existsb _ _).
  - intros H [k v] Hin. by rewrite (proj2 (Hex k) (H k v Hin)).
Qed.

Lemma against_contract_Ok c v path :
  validate_against_contract_at v c path = Ok tt <-> satisfies v c.
Proof.
  revert v path. induction c as [| |min max|max|items max IH|fields IH] using ValueContract_ind';
    intros v path.
  - destruct v; cbn; split; intros H; try done; try inversion H; constructor.
  - destruct v; cbn; split; intros H; try done; try inversion H; constructor.
  - destruct v as [|s| | | |]; cbn -[String.append parse_canonical_i64]; try (split; intros H; [done|by inversion H]).
    split.
    + destruct (parse_canonical_i64 s) as [n|e|] eqn:E; cbn -[String.append]; try done.
      destruct min as [a|], max as [b|]; try destruct (Z.ltb_spec n a); try destruct (Z.ltb_spec b n);
        cbn; try done; intros _; (apply (sat_integer s n); [done|..]); intros m [= <-]; lia.
    + intros H. inversion H as [| |? n ? ? E Hmin Hmax| | |]; subst. rewrite E. cbn -[String.append].
      destruct min as [a|], max as [b|];
        try (specialize (Hmin a eq_refl); destruct (Z.ltb_spec n a); [lia|]);
        try (specialize (Hmax b eq_refl); destruct (Z.ltb_spec b n); [lia|]); done.
  - destruct v as [| |s| | |]; cbn -[String.append]; try (split; intros H; [done|by inversion H]).
    destruct max as [m|]; [destruct (Z.ltb_spec m (char_count s))|].
    + split; [done|]. intros Hs. inversion Hs as [| | |? ? Hmax| |]; subst.
      specialize (Hmax m eq_refl). lia.
    + split; [|done]. intros _. constructor. by intros ? [= <-].
    + split; [|done]. intros _. by constructor.
  - destruct v as [| | |vs| |]; cbn -[String.append bracketed]; try (split; intros H; [done|by inversion H]).
    assert (validate_list_items (fun value path => validate_against_contract_at value items path) path vs 0
      = Ok tt <-> forall v, v ∈ vs -> satisfies v items) as Hitems.
    { rewrite list_items_Ok by (intros; by rewrite !IH). setoid_rewrite IH. done. }
    destruct max as [m|]; [destruct (Z.ltb_spec m (len vs))|]; cbn -[String.append bracketed].
    + split; [done|]. intros Hs. inversion Hs as [| | | |? ? ? Hmax|]; subst.
      specialize (Hmax m eq_refl). lia.
    + rewrite Hitems. split; [intros Hv; constructor; [by intros ? [= <-]|done]|].
      intros Hs. by inversion Hs.
    + rewrite Hitems. split; [intros Hv; by constructor|]. intros Hs. by inversion Hs.
  - destruct v as [| | | |vs|]; cbn -[String.append validate_map_fields]; try (split; intros H; [done|by inversion H]).
    rewrite Forall_forall in IH. split.
    + intros H. inv_ok. destruct x. rewrite map_fields_Ok, Forall_forall in Hx. rewrite declared_Ok in H.
      constructor; [| |done].
      * intros f v Hf E. specialize (Hx f Hf). rewrite E in Hx. by eapply IH.
      * intros f Hf E. specialize (Hx f Hf). by rewrite E in Hx.
    + intros H. inversion H as [| | | | |? ? Hsat Hreq Hdecl]; subst.
      rewrite (proj2 (map_fields_Ok _ _ _ _)); [by apply declared_Ok|].
      apply Forall_forall. intros f Hf. destruct (map_get vs (field_name f)) as [v|] eqn:E; [|auto].
      apply IH; [done|]. by eapply Hsat.
Qed.

Section theorems.
Context {J : JsonEnv} {JL : JsonLaws}.

Lemma against_contract_spec v c :
  wf_json (encode v) ->
  validate_flow_value_against_contract v c = Ok tt <->
  value_ok v /\ contract_depth c <= 16 /\ contract_shape c /\ satisfies v c.
Proof.
  intros Hw. unfold validate_flow_value_against_contract. split.
  - intros H. inv_ok. destruct x, x0. apply validate_flow_value_Ok in Hx; [|done].
    apply contract_definition_Ok in Hx0 as [? ?]. by apply against_contract_Ok in H.
  - intros (Hv & Hd & Hs & Hsat). rewrite (proj2 (validate_flow_value_Ok v Hw) Hv).
    cbn [mbind result_bind]. rewrite (proj2 (contract_definition_Ok c)) by done. cbn [mbind result_bind].
    by apply against_contract_Ok.
Qed.

(** a value passes validation against a contract exactly when it is within every global
    bound, the contract is well formed (depth, member counts, distinct valid field names,
    ordered integer bounds) and the value is one of the contract: of the right type, within
    its bounds, with every required field and no undeclared one, at every level. *)
Theorem validate_against_contract_exact v c :
  wf_json (encode v) ->
  validate_flow_value_against_contract v c = Ok tt <->
  value_ok v /\ contract_depth c <= 16 /\ contract_shape c /\ satisfies v c.
Proof. apply against_contract_spec. Qed.

(** ** Predicates *)

Lemma select_satisfies path index v c x c' :
  satisfies v c -> select_contract c path index = Ok c' -> select_value v path = Some x ->
  satisfies x c'.
Proof using Type.
  clear JL. revert index v c. induction path as [|seg path IH]; intros index v c Hsat; cbn -[String.append].
  { by intros [= <-] [= <-]. }
  intros (d & Hd & Hc)%bind_Ok_inv (w & Hw & Hx)%bind_Some.
  eapply IH; [|exact Hc|exact Hx].
  destruct Hsat as [| | | |vs items max Hmax Hitems|vs fields Hsat Hreq Hdecl];
    try done; destruct seg as [field|i]; try done.
  - case_match; [done|]. injection Hd as <-. apply Hitems. by eapply list_elem_of_lookup_2.
  - apply ok_or_Ok_inv in Hd.
    assert (exists f, f ∈ fields /\ field_name f = field /\ field_contract f = d) as (f & Hf & <- & <-).
    { clear -Hd. induction fields as [|f fields IH]; [done|]. cbn in Hd.
      destruct (String.eqb_spec (field_name f) field) as [E|].
      - injection Hd as <-. exists f. split; [left|done].
      - destruct (IH Hd) as (g & Hg & ?). exists g. split; [by right|done]. }
    by eapply Hsat.
Qed.

(** A predicate that was checked against a contract. *)
Definition checked_predicate (p : ValuePredicate) (c : ValueContract) : Prop :=
  validate_predicate_against_contract p c = Ok tt.

Lemma checked_predicate_inv p c :
  checked_predicate p c ->
  validate_predicate_definition p = Ok tt /\
  exists c', select_contract c (pred_path p) 0 = Ok c' /\
    validate_against_contract_at (pred_equals p) c' "$" = Ok tt.
Proof using Type.
  clear JL. unfold checked_predicate, validate_predicate_against_contract. intros H. inv_ok.
  destruct x, x0. split; [done|]. eexists. split; [done|].
  destruct (validate_flow_value_against_contract _ _) as [[]| |] eqn:E; try done.
  unfold validate_flow_value_against_contract in E. by inv_ok.
Qed.

Lemma predicate_matches_checked p c v :
  checked_predicate p c -> validate_flow_value_against_contract v c = Ok tt ->
  predicate_matches v p =
    Ok (match select_value v (pred_path p) with
        | Some x => fv_eqb x (pred_equals p)
        | None => false
        end).
Proof using Type.
  clear JL. intros [Hp _]%checked_predicate_inv Hv. unfold predicate_matches.
  unfold validate_flow_value_against_contract in Hv. inv_ok. destruct x, x0. rewrite Hx. cbn [mbind result_bind].
  rewrite Hp. cbn [mbind result_bind]. by destruct (select_value v (pred_path p)).
Qed.

(** C31: a predicate that was checked against an output contract can be evaluated on every
    value of that contract: evaluation never fails; it is true exactly when the path selects a
    value equal to the expected one; and what the path selects has the type of the expected
    value, so that the comparison is between values of one contract. *)
Theorem checked_predicate_safe p c v :
  validate_predicate_against_contract p c = Ok tt ->
  validate_flow_value_against_contract v c = Ok tt ->
  exists b, predicate_matches v p = Ok b /\
    (b = true <-> select_value v (pred_path p) = Some (pred_equals p)) /\
    forall x, select_value v (pred_path p) = Some x ->
      exists c', select_contract c (pred_path p) 0 = Ok c' /\
        satisfies x c' /\ satisfies (pred_equals p) c'.
Proof.
  intros Hp Hv. pose proof (predicate_matches_checked p c v Hp Hv) as Hm.
  destruct (checked_predicate_inv p c Hp) as (_ & c' & Hc & Heq).
  eexists. split; [exact Hm|]. split.
  - destruct (select_value v (pred_path p)) as [x|]; [rewrite fv_eqb_eq|]; naive_solver.
  - intros x Hx. exists c'. split_and!; [done| |by eapply against_contract_Ok].
    eapply select_satisfies; [|done|done].
    unfold validate_flow_value_against_contract in Hv. inv_ok. by eapply against_contract_Ok.
Qed.
End theorems.

(** * Rendering *)

Lemma find_pair_spec c s before after :
  find_pair c s = Some (before, after) -> s = before +:+ String c (String c after).
Proof.
  revert before after. induction s as [|a s IH]; intros before after; [done|].
  destruct s as [|b r]; [done|].
  change (find_pair c (String a (String b r))) with
    (if Ascii.eqb a c && Ascii.eqb b c then Some (EmptyString, r)
     else '(before, after) ← find_pair c (String b r); Some (String a before, after)).
  destruct (Ascii.eqb_spec a c) as [->|], (Ascii.eqb_spec b c) as [->|]; cbn [andb];
    [by intros [= <- <-]|..];
    intros ([l q] & Hf & [= <- <-])%bind_Some; by rewrite (IH _ _ Hf).
Qed.

Lemma find_pair_length c s before after :
  find_pair c s = Some (before, after) -> (String.length after < String.length s)%nat.
Proof.
  intros ->%find_pair_spec. rewrite length_app_string. cbn. lia.
Qed.

Section rendering.
Context {J : JsonEnv} {JL : JsonLaws}.

(** The expansion without a limit: every [{{name}}] of a parameter becomes its text. *)
Fixpoint expand (fuel : nat) (parameters : list (string * FlowValue)) (text : string) : string :=
  match fuel with
  | O => ""
  | S fuel =>
      match find_pair open_brace text with
      | None => text
      | Some (before, after_open) =>
          before +:+
          match find_pair close_brace after_open with
          | None => "{{" +:+ after_open
          | Some (name, after_close) =>
              match map_get parameters name with
              | Some value => compact_json (encode value) +:+ expand fuel parameters after_close
              | None => "{{" +:+ expand fuel parameters after_open
              end
          end
      end
  end.

Definition expand_prompt (parameters : list (string * FlowValue)) (prompt : string) : string :=
  expand (S (String.length prompt)) parameters prompt.

Context (try_reserve : string -> Z -> bool) (error_text : CanonicalJsonError -> string).
Context (parameters : list (string * FlowValue)) (max_bytes : Z).
Context (Hmax : max_bytes <= usize_max).
Context (Hwf : forall k v, (k, v) ∈ parameters -> wf_json (encode v)).

(** The cached texts are those of the parameters. *)
Definition cache_ok (replacements : gmap string string) : Prop :=
  forall k t, replacements !! k = Some t ->
    exists v, map_get parameters k = Some v /\ t = compact_json (encode v).

Definition limited (t : string) : result FlowValueError string :=
  if max_bytes <? slen t then
    Err (flow_value_error ("rendered Instruction exceeds maximum of " +:+ Z_to_string max_bytes
           +:+ " bytes"))
  else Ok t.

Context (Halloc : forall s n, try_reserve s n = true).

Lemma append_limited rendered fragment :
  append_instruction_fragment try_reserve rendered fragment max_bytes = limited (rendered +:+ fragment).
Proof using Hmax Halloc.
  unfold append_instruction_fragment, limited. rewrite slen_app, Halloc.
  destruct (Z.ltb_spec max_bytes (slen rendered + slen fragment)).
  - by rewrite orb_true_r.
  - destruct (Z.ltb_spec usize_max (slen rendered + slen fragment)); [lia|done].
Qed.

Lemma limited_bind a b (k : string -> result FlowValueError string) :
  (slen a <= max_bytes -> k a = limited (a +:+ b)) ->
  limited a ≫= k = limited (a +:+ b).
Proof using Type.
  intros Hk. unfold limited at 1. destruct (Z.ltb_spec max_bytes (slen a)) as [Hlt|Hle]; [|by apply Hk].
  cbn [mbind result_bind]. unfold limited. rewrite slen_app.
  pose proof (slen_nonneg b). by destruct (Z.ltb_spec max_bytes (slen a + slen b)); [|lia].
Qed.

Context (Hvalid : forall k v, map_get parameters k = Some v -> value_ok v).

Lemma render_loop_spec fuel replacements rendered text :
  cache_ok replacements -> (String.length text < fuel)%nat ->
  render_loop try_reserve error_text fuel parameters replacements rendered text max_bytes =
    limited (rendered +:+ expand fuel parameters text).
Proof using All.
  revert replacements rendered text.
  induction fuel as [|fuel IH]; intros replacements rendered text Hc Hf; [lia|].
  cbn [render_loop expand].
  destruct (find_pair open_brace text) as [[before after_open]|] eqn:Eo; [|apply append_limited].
  rewrite append_limited. rewrite <- app_string_assoc. apply limited_bind. intros _.
  pose proof (find_pair_length _ _ _ _ Eo) as Hlo.
  destruct (find_pair close_brace after_open) as [[name after_close]|] eqn:Ec; [|apply append_limited].
  pose proof (find_pair_length _ _ _ _ Ec) as Hlc.
  destruct (map_get parameters name) as [v|] eqn:Ev.
  - assert (exists reps, (match replacements !! name with
        | Some _ => Ok replacements
        | None =>
            canonical ← map_err (fun error => flow_value_error
                ("Instruction parameter " +:+ name +:+ " cannot be canonicalized: "
                 +:+ error_text error)) (canonical_json (encode v));
            Ok (<[name := canonical]> replacements)
        end) = Ok reps /\ cache_ok reps /\ reps !! name = Some (compact_json (encode v)))
      as (reps & -> & Hreps & Hname).
    { destruct (replacements !! name) as [t|] eqn:Et.
      - exists replacements. destruct (Hc _ _ Et) as (w & Ew & ->). rewrite Ev in Ew.
        injection Ew as <-. done.
      - rewrite value_ok_canonical; [|by eapply Hwf, map_get_Some|by eapply Hvalid].
        cbn [map_err mbind result_bind]. eexists. split; [done|]. split; [|by rewrite lookup_insert_eq].
        intros k t Hk. apply lookup_insert_Some in Hk as [[<- <-]|[_ Hk]]; [by exists v|by apply Hc]. }
    cbn [mbind result_bind]. rewrite Hname. cbn [expect mbind result_bind].
    rewrite append_limited, <- app_string_assoc. apply limited_bind. intros _.
    apply IH; [done|lia].
  - rewrite append_limited, <- app_string_assoc. apply limited_bind. intros _.
    apply IH; [done|lia].
Qed.
End rendering.

Section render_theorem.
Context {J : JsonEnv} {JL : JsonLaws}.
Context (try_reserve : string -> Z -> bool) (error_text : CanonicalJsonError -> string).

(** Every declared parameter has a valid value and nothing else is passed. *)
Definition parameters_ok (declared : list InstructionParameter) (parameters : list (string * FlowValue))
    : Prop :=
  (forall p, p ∈ declared -> exists v, map_get parameters (ip_name p) = Some v /\
    validate_flow_value_against_contract v (ip_contract p) = Ok tt) /\
  (forall k v, (k, v) ∈ parameters -> k ∈ ip_name <$> declared).

Lemma parameters_checked declared parameters :
  (try_for_each (fun parameter =>
     value ← ok_or (map_get parameters (ip_name parameter))
       (flow_value_error ("missing Instruction parameter " +:+ ip_name parameter));
     map_err (fun error => flow_value_error
         ("Instruction parameter " +:+ ip_name parameter +:+ " is invalid: " +:+ fve_message error))
       (validate_flow_value_against_contract value (ip_contract parameter))) declared = Ok tt /\
   try_for_each (fun '(name, _) =>
     if existsb (fun parameter => String.eqb (ip_name parameter) name) declared then Ok tt
     else Err (flow_value_error ("undeclared Instruction parameter " +:+ name))) parameters = Ok tt) <->
  parameters_ok declared parameters.
Proof using Type.
  clear JL. rewrite !try_for_each_Ok, !Forall_forall. unfold parameters_ok.
  assert (forall k, existsb (fun p => String.eqb (ip_name p) k) declared = true <->
    k ∈ ip_name <$> declared) as Hex.
  { intros k. rewrite existsb_exists, list_elem_of_fmap. split.
    - intros (f & Hf%list_elem_of_In & E%String.eqb_eq). eauto.
    - intros (f & -> & Hf%list_elem_of_In). exists f. by rewrite String.eqb_refl. }
  split; intros [Hd Hp]; split.
  - intros p Hin. specialize (Hd p Hin). cbn -[String.append] in Hd.
    destruct (map_get parameters (ip_name p)) as [v|]; [|done]. exists v. split; [done|].
    cbn -[String.append] in Hd. by destruct (validate_flow_value_against_contract _ _) as [[]| |].
  - intros k v Hin. apply Hex. specialize (Hp _ Hin). cbn in Hp. by destruct (existsb _ _).
  - intros p Hin. destruct (Hd p Hin) as (v & -> & E). cbn -[String.append]. by rewrite E.
  - intros [k v] Hin. by rewrite (proj2 (Hex k) (Hp k v Hin)).
Qed.

(** rendering an Instruction succeeds exactly when every declared parameter has a value of
    its contract, nothing undeclared is passed and the text fits the limit; its result is then
    the unbounded expansion, with every placeholder of a parameter replaced by the canonical
    text of its value.  With valid parameters it ends without a panic also when the text is
    too long. *)
Theorem render_instruction_exact prompt declared parameters max_bytes text :
  (forall s n, try_reserve s n = true) -> max_bytes <= usize_max ->
  (forall k v, (k, v) ∈ parameters -> wf_json (encode v)) ->
  (render_instruction try_reserve error_text prompt declared parameters max_bytes = Ok text <->
    parameters_ok declared parameters /\ text = expand_prompt parameters prompt /\
    slen text <= max_bytes) /\
  (parameters_ok declared parameters ->
    render_instruction try_reserve error_text prompt declared parameters max_bytes <> Panic).
Proof.
  intros Halloc Hmax Hwf.
  assert (parameters_ok declared parameters ->
    render_loop try_reserve error_text (S (String.length prompt)) parameters ∅ "" prompt max_bytes =
      limited max_bytes (expand_prompt parameters prompt)) as Hloop.
  { intros [Hd Hp].
    change (expand_prompt parameters prompt) with
      ("" +:+ expand (S (String.length prompt)) parameters prompt).
    apply (render_loop_spec try_reserve error_text parameters max_bytes); try done; [|lia].
    intros k v Hk. pose proof (map_get_Some _ _ _ Hk) as Hin.
    destruct (proj1 (list_elem_of_fmap _ _ _) (Hp k v Hin)) as (p & -> & Hin').
    destruct (Hd p Hin') as (w & Ew & Hv). rewrite Ew in Hk. injection Hk as ->.
    apply against_contract_spec in Hv as [? _]; [done|by eapply Hwf]. }
  unfold render_instruction. split; [split|].
  - intros H. inv_ok. destruct x, x0.
    pose proof (proj1 (parameters_checked declared parameters) (conj Hx Hx0)) as Hok.
    rewrite Hloop in H by done. unfold limited in H. destruct (Z.ltb_spec max_bytes (slen (expand_prompt parameters prompt))); [done|].
    injection H as <-. done.
  - intros (Hok & -> & Hlen). pose proof (proj2 (parameters_checked declared parameters) Hok) as [-> ->].
    cbn [mbind result_bind]. rewrite Hloop by done. unfold limited.
    by destruct (Z.ltb_spec max_bytes (slen (expand_prompt parameters prompt))); [lia|].
  - intros Hok. pose proof (proj2 (parameters_checked declared parameters) Hok) as [-> ->].
    cbn [mbind result_bind]. rewrite Hloop by done. unfold limited. by case_match.
Qed.
End render_theorem.

(** * A concrete contract *)

Definition demo_value : FlowValue := FMap [("approved", FBoolean true); ("score", FInteger "7")].

Definition demo_contract : ValueContract :=
  CMap [mkField "approved" true CBoolean; mkField "score" false (CInteger (Some 0) (Some 10))].

Definition demo_predicate : ValuePredicate :=
  mkPredicate [SegField "approved"] (FBoolean true).

Lemma demo_value_wf : wf_json (encode demo_value).
Proof. repeat constructor. Qed.

Lemma validate_against_contract_exact_witness : satisfies demo_value demo_contract.
Proof.
  apply (@validate_against_contract_exact plain_json plain_json_laws demo_value demo_contract).
  - apply demo_value_wf.
  - vm_compute. reflexivity.
Defined.

Lemma checked_predicate_safe_witness :
  exists b, @predicate_matches plain_json demo_value demo_predicate = Ok b /\ b = true.
Proof.
  destruct (@checked_predicate_safe plain_json demo_predicate demo_contract demo_value)
    as (b & Hb & Htrue & _).
  - vm_compute. reflexivity.
  - vm_compute. reflexivity.
  - exists b. split; [exact Hb|]. apply Htrue. vm_compute. reflexivity.
Defined.

Definition demo_parameter : InstructionParameter := mkInstructionParameter "score" (CInteger None (Some 10)).

Lemma render_instruction_exact_witness :
  exists text, @render_instruction plain_json (fun _ _ => true) (fun _ => "") "score {{score}} of {{max}}"
    [demo_parameter] [("score", FInteger "7")] 100 = Ok text /\ slen text <= 100.
Proof.
  exists (@expand_prompt plain_json [("score", FInteger "7")] "score {{score}} of {{max}}").
  split; [|vm_compute; discriminate].
  apply (@render_instruction_exact plain_json plain_json_laws (fun _ _ => true) (fun _ => "")).
  - reflexivity.
  - vm_compute. discriminate.
  - intros k v Hin. apply list_elem_of_singleton in Hin. injection Hin as -> ->. repeat constructor.
  - split; [|split; [reflexivity|vm_compute; discriminate]]. split.
    + intros p Hp. apply list_elem_of_singleton in Hp as ->. exists (FInteger "7").
      split; [reflexivity|vm_compute; reflexivity].
    + intros k v Hin. apply list_elem_of_singleton in Hin. injection Hin as -> ->. left.
Defined.
