(* ===== verification/Blocks.v ===== *)
(** Registry blocks ([core-script/src/script/model.rs]) and the checks of one block
    ([semantics.rs], [parameter.rs]): Tools, Instructions, Phases and Flows.

    The compiler of regular expressions is a parameter; messages are the text the code
    formats. *)

From Stdlib Require Import ZArith Lia Ascii String.
From stdpp Require Import base strings sorting sets option gmap countable list.
From S2P Require Import Prelude Decimal Sorting Metadata Json FlowValue Paths Values.

Open Scope Z_scope.

(** * Limits *)

Definition MAX_FLOW_NESTING_DEPTH : Z := 16.
Definition MAX_FLOW_FANOUT : Z := 32.
Definition MAX_PHASE_NESTING_DEPTH : Z := 16.
Definition MAX_PHASE_FANOUT : Z := 32.
Definition MAX_PHASE_LOOP_ITERATIONS : Z := 32.
Definition MAX_BLOCK_NAME_CHARS : Z := 256.
Definition MAX_REGISTRY_DEFINITION_BYTES : Z := 64 * 1024.

(** * Blocks *)

Record BlockIdentity : Type := mkIdentity { id : string; name : string }.

Inductive RegistryBlockKind : Type := KindTool | KindInstruction | KindPhase | KindFlow.

#[export] Instance RegistryBlockKind_eq_dec : EqDecision RegistryBlockKind.
Proof. solve_decision. Defined.

#[export] Instance RegistryBlockKind_countable : Countable RegistryBlockKind.
Proof.
  refine (inj_countable'
    (fun k => match k with KindTool => 0%nat | KindInstruction => 1%nat | KindPhase => 2%nat | KindFlow => 3%nat end)
    (fun n => match n with 0%nat => KindTool | 1%nat => KindInstruction | 2%nat => KindPhase | _ => KindFlow end) _).
  by intros [].
Defined.

Definition kind_as_str (kind : RegistryBlockKind) : string :=
  match kind with
  | KindTool => "tool"
  | KindInstruction => "instruction"
  | KindPhase => "phase"
  | KindFlow => "flow"
  end.

Inductive ScriptToolKind : Type := SPredefinedCommand | SOwnScript.

Inductive ToolCommand : Type :=
| CmdPredefined (command_id : string) (argv : list string)
| CmdOwnScript (command : string).

Inductive ScriptRuntime : Type := PosixSh.

#[export] Instance ScriptRuntime_eq_dec : EqDecision ScriptRuntime.
Proof. solve_decision. Defined.

Definition runtime_as_str (runtime : ScriptRuntime) : string := match runtime with PosixSh => "posix-sh" end.

Definition own_script_command_id (tool_id : string) : string := "script:" +:+ tool_id.

Inductive ParameterValueType : Type := PNone | PString | PInteger | PWorkspaceRelativePath | PEnum.

Record AllowedParameter : Type := mkAllowedParameter {
  ap_name : string;
  ap_value_type : ParameterValueType;
  ap_required : bool;
  ap_allowed_values : list string;
  ap_value_pattern : option string;
  ap_max_length : option Z;
  ap_min : option Z;
  ap_max : option Z;
}.

Record ToolBlock : Type := mkTool {
  tool_identity : BlockIdentity;
  tool_kind : ScriptToolKind;
  tool_command : ToolCommand;
  tool_script_runtime : option ScriptRuntime;
  tool_script_body : option string;
  tool_allowed_parameters : list AllowedParameter;
}.

Record InstructionBlock : Type := mkInstruction {
  instruction_identity : BlockIdentity;
  instruction_prompt : string;
  instruction_parameters : list InstructionParameter;
}.

Record PhaseLoop : Type := mkLoop { loop_max_iterations : Z; loop_until : ValuePredicate }.

Record PhaseTransition : Type := mkTransition {
  from_phase_ref : string;
  to_phase_ref : string;
  when : ValuePredicate;
}.

Record PhaseBlock : Type := mkPhase {
  phase_identity : BlockIdentity;
  phase_instruction_refs : list string;
  phase_tool_refs : list string;
  phase_phase_refs : list string;
  phase_output : ValueContract;
  phase_result_from : option string;
  phase_loop : option PhaseLoop;
  phase_transitions : list PhaseTransition;
}.

Record FlowBlock : Type := mkFlow {
  flow_identity : BlockIdentity;
  flow_phase_refs : list string;
  flow_subflow_refs : list string;
  flow_transitions : list PhaseTransition;
}.

Inductive RegistryBlock : Type :=
| RTool (block : ToolBlock)
| RInstruction (block : InstructionBlock)
| RPhase (block : PhaseBlock)
| RFlow (block : FlowBlock).

Definition kind_and_identity (block : RegistryBlock) : RegistryBlockKind * BlockIdentity :=
  match block with
  | RTool b => (KindTool, tool_identity b)
  | RInstruction b => (KindInstruction, instruction_identity b)
  | RPhase b => (KindPhase, phase_identity b)
  | RFlow b => (KindFlow, flow_identity b)
  end.

Abbreviation NameIds := (gmap RegistryBlockKind (gmap string string)).

Record ResolvedRegistry : Type := mkRegistry {
  instructions : gmap string InstructionBlock;
  flows : gmap string FlowBlock;
  phases : gmap string PhaseBlock;
  tools : gmap string ToolBlock;
  name_ids : NameIds;
}.

(** * Errors *)

Inductive SemanticValidationError : Type :=
| ToolCommandKindMismatch (tool_id : string) (kind : ScriptToolKind)
| InvalidToolDefinition (tool_id message : string)
| OwnScriptCommandIdMismatch (command tool_id : string)
| InvalidInstructionDefinition (instruction_id message : string)
| InvalidPhaseDefinition (phase_id message : string)
| InvalidFlowDefinition (flow_id message : string).

(** The errors of resolution; those of loading files are left out.  [Serialize] carries the
    message of the serde error. *)
Inductive RegistryError : Type :=
| InvalidBlockId (value : string)
| InvalidBlockName (kind id : string)
| Parse (source_name message : string)
| DuplicateId (kind id : string)
| DuplicateName (kind name : string)
| AmbiguousReference (kind reference : string)
| MissingReference (from_kind from_id reference_kind reference : string)
| InvalidTransition (owner_kind owner_id from_phase_id to_phase_id : string)
| PhaseCycle (phase_id : string)
| PhaseDepthExceeded (phase_id : string) (depth max : Z)
| PhaseFanoutExceeded (phase_id : string) (count max : Z)
| FlowCycle (flow_id : string)
| FlowDepthExceeded (flow_id : string) (depth max : Z)
| FlowFanoutExceeded (flow_id : string) (count max : Z)
| Semantic (error : SemanticValidationError)
| Serialize (message : string)
| CanonicalJson (error : CanonicalJsonError).

Definition parse_error (source_name message : string) : RegistryError := Parse source_name message.

Definition invalid_instruction (i : InstructionBlock) (message : string) : SemanticValidationError :=
  InvalidInstructionDefinition (id (instruction_identity i)) message.

Definition invalid_phase (p : PhaseBlock) (message : string) : SemanticValidationError :=
  InvalidPhaseDefinition (id (phase_identity p)) message.

Definition invalid_tool (t : ToolBlock) (message : string) : SemanticValidationError :=
  InvalidToolDefinition (id (tool_identity t)) message.

(** * Shapes *)

Definition validate_block_identity (kind : RegistryBlockKind) (identity : BlockIdentity)
    : result string unit :=
  let kind := kind_as_str kind in
  reject negb (is_valid_block_id (id identity)) with (kind +:+ ".id must be a valid block id") ;;
  reject String.eqb (name identity) "" with (kind +:+ ".name must be non-empty") ;;
  reject (MAX_BLOCK_NAME_CHARS <? char_count (name identity)) with
    (kind +:+ ".name must contain at most " +:+ Z_to_string MAX_BLOCK_NAME_CHARS +:+ " characters") ;;
  Ok tt.

Definition validate_registry_block_shape (block : RegistryBlock) : result string unit :=
  let '(kind, identity) := kind_and_identity block in
  _ ← validate_block_identity kind identity;
  match block with
  | RInstruction b =>
      reject String.eqb (instruction_prompt b) "" with "instruction.prompt must be non-empty"%string ;;
      reject (MAX_REGISTRY_DEFINITION_BYTES <? slen (instruction_prompt b)) with
        ("instruction.prompt exceeds the maximum of " +:+ Z_to_string MAX_REGISTRY_DEFINITION_BYTES
         +:+ " bytes") ;;
      Ok tt
  | RTool b =>
      reject match tool_script_body b with
             | Some body => MAX_REGISTRY_DEFINITION_BYTES <? slen body
             | None => false
             end with
        ("tool.script_body exceeds the maximum of " +:+ Z_to_string MAX_REGISTRY_DEFINITION_BYTES
         +:+ " bytes") ;;
      Ok tt
  | RPhase _ | RFlow _ => Ok tt
  end.

(** * Semantics of one block *)

(** [body.trim().is_empty()]: every character is Unicode white space. *)
Fixpoint is_blank (s : string) : bool :=
  match s with
  | EmptyString => true
  | String a s =>
      let x := byte a in
      if (9 <=? x) && (x <=? 13) || (x =? 32) then is_blank s
      else
        match s with
        | String b s =>
            let y := byte b in
            if (x =? 194) && ((y =? 133) || (y =? 160)) then is_blank s
            else
              match s with
              | String c s =>
                  let z := byte c in
                  if (x =? 225) && (y =? 154) && (z =? 128)
                     || (x =? 226) && (y =? 128)
                        && ((128 <=? z) && (z <=? 138) || (z =? 168) || (z =? 169) || (z =? 175))
                     || (x =? 226) && (y =? 129) && (z =? 159)
                     || (x =? 227) && (y =? 128) && (z =? 128)
                  then is_blank s else false
              | EmptyString => false
              end
        | EmptyString => false
        end
  end.

Definition contains_nul (s : string) : bool := contains_char zero s.

Definition is_some {A} (o : option A) : bool := match o with Some _ => true | None => false end.

(** [str::contains] of a pattern. *)
Fixpoint contains_str (pattern s : string) : bool :=
  match strip_prefix pattern s with
  | Some _ => true
  | None => match s with EmptyString => false | String _ s => contains_str pattern s end
  end.

Section semantics.
Context {J : JsonEnv}.

(** [regex::RegexBuilder::build] of a pattern and of its anchored form: the error, if any. *)
Context (pattern_error : string -> option string).

Definition allowed_parameter_validate (p : AllowedParameter) : result string unit :=
  let n := ap_name p in
  reject negb (is_valid_allowed_parameter_name n) with
    ("parameter name " +:+ debug_str n +:+ " must be a valid allowed-parameter name") ;;
  reject negb match ap_value_type p with PEnum => true | _ => false end
         && negb (bool_decide (ap_allowed_values p = [])) with
    ("non-enum parameter " +:+ n +:+ " must omit allowed_values") ;;
  _ ← match ap_value_type p with
      | PString =>
          reject negb (is_some (ap_value_pattern p)) || negb (is_some (ap_max_length p)) with
            ("string parameter " +:+ n +:+ " must set value_pattern and max_length") ;;
          reject is_some (ap_min p) || is_some (ap_max p) with
            ("string parameter " +:+ n +:+ " must omit min and max") ;;
          Ok tt
      | PEnum =>
          reject existsb contains_nul (ap_allowed_values p) with
            ("enum parameter " +:+ n +:+ " allowed_values must not contain NUL") ;;
          reject bool_decide (ap_allowed_values p = []) with
            ("enum parameter " +:+ n +:+ " must set allowed_values") ;;
          reject is_some (ap_value_pattern p) || is_some (ap_max_length p) || is_some (ap_min p)
                 || is_some (ap_max p) with
            ("enum parameter " +:+ n +:+ " must omit value_pattern, max_length, min, and max") ;;
          Ok tt
      | PInteger =>
          reject is_some (ap_value_pattern p) || is_some (ap_max_length p) with
            ("integer parameter " +:+ n +:+ " must omit value_pattern and max_length") ;;
          reject match ap_min p, ap_max p with Some min, Some max => max <? min | _, _ => false end with
            ("integer parameter " +:+ n +:+ " min must be <= max") ;;
          Ok tt
      | PNone =>
          reject is_some (ap_value_pattern p) || is_some (ap_max_length p) || is_some (ap_min p)
                 || is_some (ap_max p) with
            ("none parameter " +:+ n +:+ " must omit value_pattern, max_length, min, and max") ;;
          Ok tt
      | PWorkspaceRelativePath =>
          reject is_some (ap_min p) || is_some (ap_max p) with
            ("workspace-relative-path parameter " +:+ n +:+ " must omit min and max") ;;
          Ok tt
      end;
  match ap_value_pattern p with
  | Some pattern =>
      match pattern_error pattern with
      | Some error => Err ("parameter " +:+ n +:+ " value_pattern is invalid: " +:+ error)
      | None => Ok tt
      end
  | None => Ok tt
  end.

(** The loop over the allowed parameters, with the names seen so far. *)
Fixpoint validate_tool_parameters (tool : ToolBlock) (parameters : list AllowedParameter)
    (names : gset string) : result SemanticValidationError unit :=
  match parameters with
  | [] => Ok tt
  | p :: parameters =>
      _ ← map_err (invalid_tool tool) (allowed_parameter_validate p);
      if decide (ap_name p ∈ names) then
        Err (invalid_tool tool ("allowed parameter " +:+ ap_name p +:+ " is declared more than once"))
      else validate_tool_parameters tool parameters ({[ap_name p]} ∪ names)
  end.

Definition validate_tool_semantics (tool : ToolBlock) : result SemanticValidationError unit :=
  let tool_id := id (tool_identity tool) in
  _ ← match tool_kind tool, tool_command tool with
      | SOwnScript, CmdOwnScript command =>
          reject negb (String.eqb command (own_script_command_id tool_id)) with
            OwnScriptCommandIdMismatch command tool_id ;;
          reject negb (is_some (tool_script_runtime tool)) with
            InvalidToolDefinition tool_id
              ("own-script tools must set script_runtime: " +:+ runtime_as_str PosixSh) ;;
          match tool_script_body tool with
          | None => Err (InvalidToolDefinition tool_id "own-script tools must set script_body")
          | Some body =>
              reject is_blank body with
                InvalidToolDefinition tool_id "own-script tools must set a non-empty script_body" ;;
              reject contains_nul body with invalid_tool tool "script_body must not contain NUL" ;;
              Ok tt
          end
      | SPredefinedCommand, CmdPredefined command_id argv =>
          reject negb (is_valid_command_id command_id) with
            invalid_tool tool "command_id must be a valid command id" ;;
          reject existsb contains_nul argv with
            invalid_tool tool "command.argv must not contain NUL" ;;
          reject is_some (tool_script_runtime tool) || is_some (tool_script_body tool) with
            InvalidToolDefinition tool_id
              "predefined-command tools must omit script_runtime and script_body" ;;
          Ok tt
      | kind, _ => Err (ToolCommandKindMismatch tool_id kind)
      end;
  validate_tool_parameters tool (tool_allowed_parameters tool) ∅.

(** The loop of [instruction_placeholders]; one unit of fuel per byte is enough. *)
Fixpoint placeholders_loop (fuel : nat) (rest : string) : result string (list string) :=
  match fuel with
  | O => Panic
  | S fuel =>
      match find_pair open_brace rest with
      | Some (before, after_start) =>
          reject is_some (find_pair close_brace before) with
            "prompt has an unmatched placeholder terminator"%string ;;
          match find_pair close_brace after_start with
          | None => Err "prompt has an unclosed placeholder"%string
          | Some (n, after_close) =>
              reject negb (is_valid_command_id n) with
                ("placeholder " +:+ debug_str n +:+ " is not a valid parameter name") ;;
              placeholders ← placeholders_loop fuel after_close;
              Ok (n :: placeholders)
          end
      | None =>
          reject is_some (find_pair close_brace rest) with
            "prompt has an unmatched placeholder terminator"%string ;;
          Ok []
      end
  end.

Definition instruction_placeholders (prompt : string) : result string (list string) :=
  placeholders_loop (S (String.length prompt)) prompt.

Fixpoint validate_instruction_parameters (instruction : InstructionBlock)
    (parameters : list InstructionParameter) (names : gset string)
    : result SemanticValidationError (gset string) :=
  match parameters with
  | [] => Ok names
  | p :: parameters =>
      reject negb (is_valid_command_id (ip_name p)) with
        invalid_instruction instruction "parameters.name must be a valid parameter name" ;;
      if decide (ip_name p ∈ names) then
        Err (invalid_instruction instruction
               ("parameter " +:+ ip_name p +:+ " is declared more than once"))
      else
        _ ← map_err (fun error => invalid_instruction instruction (fve_message error))
              (validate_value_contract_definition (ip_contract p));
        reject negb (contains_str ("{{" +:+ ip_name p +:+ "}}") (instruction_prompt instruction)) with
          invalid_instruction instruction
            ("parameter " +:+ ip_name p +:+ " has no matching placeholder") ;;
        validate_instruction_parameters instruction parameters ({[ip_name p]} ∪ names)
  end.

Definition validate_instruction_semantics (instruction : InstructionBlock)
    : result SemanticValidationError unit :=
  names ← validate_instruction_parameters instruction (instruction_parameters instruction) ∅;
  placeholders ← map_err (invalid_instruction instruction)
    (instruction_placeholders (instruction_prompt instruction));
  try_for_each (fun placeholder =>
    if decide (placeholder ∈ names) then Ok tt
    else Err (invalid_instruction instruction
                ("placeholder " +:+ placeholder +:+ " has no declared parameter"))) placeholders.

Definition validate_transition_shape (invalid : string -> SemanticValidationError)
    (transition : PhaseTransition) : result SemanticValidationError unit :=
  reject String.eqb (from_phase_ref transition) "" || String.eqb (to_phase_ref transition) "" with
    invalid "Transition Phase references must be non-empty" ;;
  map_err (fun error => invalid ("transition.when " +:+ fve_message error))
    (validate_predicate_definition (when transition)).

Definition validate_phase_semantics (phase : PhaseBlock) : result SemanticValidationError unit :=
  _ ← map_err (fun error => invalid_phase phase (fve_message error))
        (validate_value_contract_definition (phase_output phase));
  _ ← match phase_loop phase with
      | Some loop_config =>
          reject negb ((1 <=? loop_max_iterations loop_config)
                       && (loop_max_iterations loop_config <=? MAX_PHASE_LOOP_ITERATIONS)) with
            invalid_phase phase ("loop.max_iterations must be between 1 and "
              +:+ Z_to_string MAX_PHASE_LOOP_ITERATIONS) ;;
          map_err (fun error => invalid_phase phase ("loop.until " +:+ fve_message error))
            (validate_predicate_against_contract (loop_until loop_config) (phase_output phase))
      | None => Ok tt
      end;
  _ ← (if bool_decide (phase_phase_refs phase = []) then
         reject is_some (phase_result_from phase) with
           invalid_phase phase "leaf Phase must omit result_from" ;;
         reject negb (bool_decide (phase_transitions phase = [] )) with
           invalid_phase phase "leaf Phase cannot declare child Transitions" ;;
         Ok tt
       else
         reject negb (bool_decide (phase_instruction_refs phase = []))
                || negb (bool_decide (phase_tool_refs phase = [])) with
           invalid_phase phase "composite Phase must not declare Instructions or Tools" ;;
         reject match phase_result_from phase with
                | None => true
                | Some r => String.eqb r ""
                end with
           invalid_phase phase "composite Phase must name result_from" ;;
         Ok tt);
  try_for_each (validate_transition_shape (invalid_phase phase)) (phase_transitions phase).

Definition validate_flow_semantics (flow_block : FlowBlock) : result SemanticValidationError unit :=
  let flow_id := id (flow_identity flow_block) in
  reject bool_decide (flow_phase_refs flow_block = []) with
    InvalidFlowDefinition flow_id "flow.phase_refs must contain at least one item" ;;
  try_for_each (validate_transition_shape (InvalidFlowDefinition flow_id)) (flow_transitions flow_block).

Definition validate_registry_block_semantics (block : RegistryBlock)
    : result SemanticValidationError unit :=
  match block with
  | RTool tool => validate_tool_semantics tool
  | RInstruction instruction => validate_instruction_semantics instruction
  | RPhase phase => validate_phase_semantics phase
  | RFlow flow_block => validate_flow_semantics flow_block
  end.
End semantics.
