(* ===== verification/CanonicalBlock.v ===== *)
(** The canonical form of a registry block ([core-script/src/script/canonical.rs]): lists whose
    order carries no meaning are sorted before a block is written.

    The serde forms of the blocks, derived by macros, are parameters. *)

From Stdlib Require Import ZArith Lia Ascii String.
From stdpp Require Import base strings sorting sets option gmap countable list.
From S2P Require Import Prelude Decimal Sorting Metadata Json FlowValue Paths Values Blocks.

Open Scope Z_scope.

(** [Value::get] and the name of a named value. *)
Definition value_get (value : Value) (key : string) : option Value :=
  match value with JObject fields => obj_get fields key | _ => None end.

Definition name_of (value : Value) : option string := v ← value_get value "name"; as_str v.

(** [Ord for Option<&str>]: nothing comes first. *)
Definition opt_str_leb (a b : option string) : bool :=
  match a, b with
  | None, _ => true
  | Some _, None => false
  | Some a, Some b => str_leb a b
  end.

Definition sort_by_name : list Value -> list Value :=
  sort_by (fun left right => opt_str_leb (name_of left) (name_of right)).

Definition sort_strings : list Value -> list Value :=
  sort_by (fun left right => opt_str_leb (as_str left) (as_str right)).

(** A named value with a contract: an Instruction parameter, or a field of a Map contract. *)
Definition named_contract (value : Value) : bool :=
  is_some (name_of value) && is_some (value_get value "value_contract").

(** The arrays the code sorts, by the key they stand under. *)
Definition arrange_array (key : string) (items : list Value) : list Value :=
  if String.eqb key "allowed_parameters" then sort_by_name items
  else if String.eqb key "parameters" then
    if forallb named_contract items then sort_by_name items else items
  else if String.eqb key "allowed_values" then
    if forallb is_string items then sort_strings items else items
  else if String.eqb key "fields" then
    if forallb named_contract items then sort_by_name items else items
  else items.

Definition arrange (key : string) (value : Value) : Value :=
  match value with JArray items => JArray (arrange_array key items) | _ => value end.

(** Arrays are sorted before their elements are visited; the fuel bounds the depth. *)
Fixpoint canonicalize_loop (fuel : nat) (value : Value) : Value :=
  match fuel with
  | O => value
  | S fuel =>
      match value with
      | JArray items => JArray (map (canonicalize_loop fuel) items)
      | JObject fields => JObject (map (fun '(k, v) => (k, canonicalize_loop fuel (arrange k v))) fields)
      | JNull | JBool _ | JNumber _ | JString _ => value
      end
  end.

Definition canonicalize_registry_value (value : Value) : Value := canonicalize_loop (json_size value) value.

Section block.
Context {J : JsonEnv}.
Context (block_to_value : RegistryBlock -> result string Value).
Context (block_from_str : string -> result string RegistryBlock).

Definition canonicalize_registry_block (block : RegistryBlock) : result RegistryError RegistryBlock :=
  value ← map_err Serialize (block_to_value block);
  canonical ← map_err CanonicalJson (canonical_json (canonicalize_registry_value value));
  map_err Serialize (block_from_str canonical).
End block.

(** * Theorems *)

Section theory.

Lemma arrange_array_perm k items : arrange_array k items ≡ₚ items.
Proof.
  unfold arrange_array, sort_by_name, sort_strings. repeat case_match; by rewrite ?sort_by_perm.
Qed.

Lemma arrange_size k v : json_size (arrange k v) = json_size v.
Proof.
  destruct v as [| | | |items|]; try done. cbn. f_equal.
  by rewrite (arrange_array_perm k items).
Qed.

Lemma list_sum_elem {A} (f : A -> nat) l x : x ∈ l -> (f x <= list_sum (map f l))%nat.
Proof.
  induction l as [|y l IH]; [by intros ?%elem_of_nil|]. cbn.
  intros [->|Hx]%elem_of_cons; [|specialize (IH Hx)]; unfold list_sum in *; cbn; lia.
Qed.

Lemma canonicalize_fuel fuel v :
  (json_size v <= fuel)%nat -> canonicalize_loop fuel v = canonicalize_registry_value v.
Proof.
  unfold canonicalize_registry_value. remember (json_size v) as n eqn:Hn.
  assert (json_size v <= n)%nat as Hle by lia. clear Hn. revert fuel v Hle.
  induction n as [|n IH]; intros fuel v Hle Hf; [destruct v; cbn in Hle; lia|].
  destruct fuel as [|fuel]; [lia|]. destruct v as [| | | |items|fields]; cbn in *; try done; f_equal.
  - apply map_ext_in. intros x Hx%list_elem_of_In. apply IH; [|lia].
    pose proof (list_sum_elem json_size items x Hx). lia.
  - apply map_ext_in. intros [k x] Hx%list_elem_of_In. f_equal. apply IH; [|lia].
    pose proof (list_sum_elem (fun '(_, v) => json_size v) fields (k, x) Hx) as H. cbn in H.
    rewrite arrange_size. lia.
Qed.

(** The equations of the code. *)
Lemma canonicalize_array items :
  canonicalize_registry_value (JArray items) = JArray (map canonicalize_registry_value items).
Proof.
  unfold canonicalize_registry_value at 1. cbn. f_equal. apply map_ext_in.
  intros x Hx%list_elem_of_In. apply canonicalize_fuel. by apply list_sum_elem.
Qed.

Lemma canonicalize_object fields :
  canonicalize_registry_value (JObject fields) =
    JObject (map (fun '(k, v) => (k, canonicalize_registry_value (arrange k v))) fields).
Proof.
  unfold canonicalize_registry_value at 1. cbn. f_equal. apply map_ext_in.
  intros [k x] Hx%list_elem_of_In. f_equal. apply canonicalize_fuel. rewrite arrange_size.
  exact (list_sum_elem (fun '(_, v) => json_size v) fields (k, x) Hx).
Qed.

(** Sorting looks only at what canonicalization keeps. *)
Lemma as_str_arrange k v : as_str (arrange k v) = as_str v.
Proof. by destruct v. Qed.

Lemma as_str_canonicalize v : as_str (canonicalize_registry_value v) = as_str v.
Proof. by destruct v. Qed.

Lemma value_get_canonicalize v key :
  value_get (canonicalize_registry_value v) key =
    (fun x => canonicalize_registry_value (arrange key x)) <$> value_get v key.
Proof.
  destruct v as [| | | |items|fields]; try done. rewrite canonicalize_object. cbn.
  induction fields as [|[k x] fields IH]; [done|]. cbn. destruct (String.eqb_spec k key) as [->|_]; done.
Qed.

Lemma name_of_canonicalize v : name_of (canonicalize_registry_value v) = name_of v.
Proof.
  unfold name_of. rewrite value_get_canonicalize. destruct (value_get v "name") as [x|]; [|done]. cbn.
  by rewrite as_str_canonicalize, as_str_arrange.
Qed.

Lemma is_string_canonicalize v : is_string (canonicalize_registry_value v) = is_string v.
Proof. by destruct v. Qed.

Lemma named_contract_canonicalize v :
  named_contract (canonicalize_registry_value v) = named_contract v.
Proof.
  unfold named_contract. rewrite name_of_canonicalize, value_get_canonicalize.
  by destruct (value_get v "value_contract").
Qed.

Lemma forallb_map {A} (p : A -> bool) f l :
  (forall x, p (f x) = p x) -> forallb p (map f l) = forallb p l.
Proof. intros H. induction l as [|x l IH]; cbn; [done|]. by rewrite H, IH. Qed.

Lemma forallb_perm {A} (p : A -> bool) l l' : l ≡ₚ l' -> forallb p l = forallb p l'.
Proof. induction 1; cbn; try congruence. by rewrite !andb_assoc, (andb_comm (p y)). Qed.

Lemma opt_str_leb_total a b : opt_str_leb a b = true \/ opt_str_leb b a = true.
Proof. destruct a, b; cbn; auto using str_leb_total. Qed.

Lemma opt_str_leb_trans a b c :
  opt_str_leb a b = true -> opt_str_leb b c = true -> opt_str_leb a c = true.
Proof. destruct a, b, c; cbn; try done. apply str_leb_trans. Qed.

(** A list sorted by a key that [f] keeps stays sorted under [f]. *)
Lemma sort_map_id {A B} (leb : B -> B -> bool) (key : A -> B) f l :
  (forall a b, leb a b = true \/ leb b a = true) ->
  (forall a b c, leb a b = true -> leb b c = true -> leb a c = true) ->
  (forall x, key (f x) = key x) ->
  let sort := sort_by (fun x y => leb (key x) (key y)) in
  sort (map f (sort l)) = map f (sort l).
Proof.
  intros Ht Htr Hk sort. apply sort_by_id. pose proof (sort_by_sorted (fun x y => leb (key x) (key y))
    (fun a b => Ht (key a) (key b)) (fun a b c => Htr (key a) (key b) (key c)) l) as Hs.
  fold sort in Hs. induction Hs as [|a l' _ IH Ha]; cbn; constructor; [done|].
  apply Forall_map. eapply Forall_impl; [exact Ha|]. intros x Hx. unfold before_eq in *. by rewrite !Hk.
Qed.

Lemma arrange_array_again k items :
  arrange_array k (map canonicalize_registry_value (arrange_array k items)) =
    map canonicalize_registry_value (arrange_array k items).
Proof.
  assert (forall l, sort_by_name (map canonicalize_registry_value (sort_by_name l)) =
    map canonicalize_registry_value (sort_by_name l)) as Hn.
  { intros l. apply (sort_map_id opt_str_leb name_of); eauto using opt_str_leb_total, opt_str_leb_trans,
      name_of_canonicalize. }
  assert (forall l, sort_strings (map canonicalize_registry_value (sort_strings l)) =
    map canonicalize_registry_value (sort_strings l)) as Hs.
  { intros l. apply (sort_map_id opt_str_leb as_str); eauto using opt_str_leb_total, opt_str_leb_trans,
      as_str_canonicalize. }
  assert (forall l, forallb named_contract (map canonicalize_registry_value l) = forallb named_contract l)
    as Hfn by (intros l; apply forallb_map, named_contract_canonicalize).
  assert (forall l, forallb is_string (map canonicalize_registry_value l) = forallb is_string l)
    as Hfs by (intros l; apply forallb_map, is_string_canonicalize).
  assert (forall l, forallb named_contract (sort_by_name l) = forallb named_contract l) as Hpn
    by (intros l; apply forallb_perm, sort_by_perm).
  assert (forall l, forallb is_string (sort_strings l) = forallb is_string l) as Hps
    by (intros l; apply forallb_perm, sort_by_perm).
  unfold arrange_array. destruct (String.eqb k "allowed_parameters"); [done|].
  destruct (String.eqb k "parameters").
  { destruct (forallb named_contract items) eqn:E; rewrite Hfn, ?Hpn, E; done. }
  destruct (String.eqb k "allowed_values").
  { destruct (forallb is_string items) eqn:E; rewrite Hfs, ?Hps, E; done. }
  destruct (String.eqb k "fields"); [|done].
  destruct (forallb named_contract items) eqn:E; rewrite Hfn, ?Hpn, E; done.
Qed.

Lemma arrange_again k v :
  arrange k (canonicalize_registry_value (arrange k v)) = canonicalize_registry_value (arrange k v).
Proof.
  destruct v as [| | | |items|fields]; try done.
  cbn [arrange]. rewrite canonicalize_array. cbn [arrange]. by rewrite arrange_array_again.
Qed.

(** Canonicalization is idempotent: a block in canonical form stays as it is. *)
Lemma canonicalize_idempotent v :
  canonicalize_registry_value (canonicalize_registry_value v) = canonicalize_registry_value v.
Proof.
  remember (json_size v) as n eqn:Hn. assert (json_size v <= n)%nat as Hle by lia. clear Hn.
  revert v Hle. induction n as [|n IH]; intros v Hle; [destruct v; cbn in Hle; lia|].
  destruct v as [| | | |items|fields]; try done.
  - rewrite !canonicalize_array, map_map. f_equal. apply map_ext_in.
    intros x Hx%list_elem_of_In. apply IH. cbn in Hle.
    pose proof (list_sum_elem json_size items x Hx). lia.
  - rewrite !canonicalize_object, map_map. f_equal. apply map_ext_in.
    intros [k x] Hx%list_elem_of_In. f_equal. rewrite arrange_again. apply IH. rewrite arrange_size.
    cbn in Hle. pose proof (list_sum_elem (fun '(_, v) => json_size v) fields (k, x) Hx) as H.
    cbn in H. lia.
Qed.

(** ** Authored order *)

Lemma insert_sorted_map {A B} (leb : B -> B -> bool) (key : A -> B) f a l :
  (forall x, key (f x) = key x) ->
  let le := fun x y => leb (key x) (key y) in
  map f (insert_sorted le a l) = insert_sorted le (f a) (map f l).
Proof.
  intros Hk le. induction l as [|b l IH]; [done|]. cbn. unfold le at 1 3. rewrite !Hk.
  destruct (leb (key a) (key b)); cbn; [done|]. by rewrite IH.
Qed.

Lemma sort_by_map {A B} (leb : B -> B -> bool) (key : A -> B) f l :
  (forall x, key (f x) = key x) ->
  let le := fun x y => leb (key x) (key y) in
  map f (sort_by le l) = sort_by le (map f l).
Proof.
  intros Hk le. induction l as [|a l IH]; [done|]. cbn.
  by rewrite (insert_sorted_map leb key f), IH.
Qed.

Lemma canonicalize_arrange k v :
  canonicalize_registry_value (arrange k v) = arrange k (canonicalize_registry_value v).
Proof.
  destruct v as [| | | |items|fields]; try done. cbn [arrange]. rewrite !canonicalize_array. cbn [arrange].
  f_equal. unfold arrange_array, sort_by_name, sort_strings.
  rewrite (forallb_map named_contract canonicalize_registry_value), (forallb_map is_string canonicalize_registry_value)
    by auto using named_contract_canonicalize, is_string_canonicalize.
  repeat case_match; rewrite ?(sort_by_map opt_str_leb name_of canonicalize_registry_value),
    ?(sort_by_map opt_str_leb as_str canonicalize_registry_value)
    by auto using name_of_canonicalize, as_str_canonicalize; done.
Qed.

(** Two listings of one array whose order carries no meaning: strings, or values with distinct
    names. *)
Definition unordered (key : string) (items : list Value) : Prop :=
  key = "allowed_values" /\ forallb is_string items = true \/
  (key = "allowed_parameters" \/ key = "parameters" \/ key = "fields") /\
    forallb named_contract items = true /\ NoDup (map name_of items).

Inductive reorder : Value -> Value -> Prop :=
| reorder_here k items items' before after :
    unordered k items -> items ≡ₚ items' ->
    reorder (JObject (before ++ (k, JArray items) :: after)) (JObject (before ++ (k, JArray items') :: after))
| reorder_item v w before after :
    reorder v w -> reorder (JArray (before ++ v :: after)) (JArray (before ++ w :: after))
| reorder_field k v w before after :
    reorder v w -> reorder (JObject (before ++ (k, v) :: after)) (JObject (before ++ (k, w) :: after)).

Lemma opt_str_leb_anti a b : opt_str_leb a b = true -> opt_str_leb b a = true -> a = b.
Proof.
  destruct a as [a|], b as [b|]; cbn; try done. rewrite !str_leb_le.
  intros [->|H1] [H2|H2]; try done; [by rewrite H2|]. exfalso. apply (irreflexivity str_lt a).
  by transitivity b.
Qed.

Lemma sort_perm {B} (leb : B -> B -> bool) (key : Value -> B) l l' :
  (forall a b, leb a b = true \/ leb b a = true) ->
  (forall a b c, leb a b = true -> leb b c = true -> leb a c = true) ->
  (forall x y, x ∈ l -> y ∈ l -> leb (key x) (key y) = true -> leb (key y) (key x) = true -> x = y) ->
  l ≡ₚ l' ->
  let le := fun x y => leb (key x) (key y) in sort_by le l = sort_by le l'.
Proof.
  intros Ht Htr Ha Hp le. apply (sorted_perm_unique le).
  - intros a b. rewrite !(sort_by_perm le l). apply Ha.
  - by apply sort_by_sorted; unfold le; eauto.
  - by apply sort_by_sorted; unfold le; eauto.
  - by rewrite !sort_by_perm.
Qed.

Lemma arrange_unordered k items items' :
  unordered k items -> items ≡ₚ items' -> arrange_array k items = arrange_array k items'.
Proof.
  intros Hu Hp. unfold arrange_array.
  rewrite <- (forallb_perm named_contract _ _ Hp), <- (forallb_perm is_string _ _ Hp).
  destruct Hu as [[-> Hs]|(Hk & Hn & Hnd)].
  - cbn. rewrite Hs. apply (sort_perm opt_str_leb as_str); [apply opt_str_leb_total|
      apply opt_str_leb_trans| |done].
    rewrite forallb_forall in Hs. intros x y Hx%list_elem_of_In%Hs Hy%list_elem_of_In%Hs Hxy Hyx.
    destruct x, y; try done. pose proof (opt_str_leb_anti _ _ Hxy Hyx) as [= ->]. done.
  - assert (sort_by_name items = sort_by_name items') as Hs.
    { apply (sort_perm opt_str_leb name_of); [apply opt_str_leb_total|apply opt_str_leb_trans| |done].
      intros x y Hx Hy Hxy Hyx. apply (opt_str_leb_anti _ _ Hxy) in Hyx.
      apply list_elem_of_lookup in Hx as [i Hi]. apply list_elem_of_lookup in Hy as [j Hj].
      assert (i = j) as ->; [|congruence].
      eapply NoDup_lookup; [exact Hnd| |]; rewrite list_lookup_fmap, ?Hi, ?Hj; cbn; by f_equal. }
    rewrite Hn. by destruct Hk as [->|[->| ->]].
Qed.

Lemma reorder_canonicalize v w : reorder v w -> canonicalize_registry_value v = canonicalize_registry_value w.
Proof.
  induction 1 as [k items items' before after Hu Hp|v w before after _ IH|k v w before after _ IH].
  - rewrite !canonicalize_object, !map_app. cbn. by rewrite (arrange_unordered _ _ _ Hu Hp).
  - rewrite !canonicalize_array, !map_app. cbn. by rewrite IH.
  - rewrite !canonicalize_object, !map_app. cbn. by rewrite !canonicalize_arrange, IH.
Qed.

(** The canonical form does not depend on the order in which a block's parameters, fields and
    allowed values were written, as long as the names in one list are distinct; and it is stable:
    canonicalizing it again changes nothing. *)
Theorem canonicalize_order_free v w :
  rtsc reorder v w ->
  canonicalize_registry_value v = canonicalize_registry_value w /\
  canonicalize_registry_value (canonicalize_registry_value v) = canonicalize_registry_value v.
Proof.
  intros H. split; [|apply canonicalize_idempotent].
  induction H as [|x y z [Hxy|Hxy] _ IH]; [done|..]; rewrite <- IH; [|symmetry]; by apply reorder_canonicalize.
Qed.

Lemma canonicalize_order_free_witness :
  let a := JObject [("name", JString "a"); ("value_contract", JNull)] in
  let b := JObject [("name", JString "b"); ("value_contract", JNull)] in
  canonicalize_registry_value (JObject [("fields", JArray [b; a]); ("type", JString "map")]) =
    JObject [("fields", JArray [a; b]); ("type", JString "map")].
Proof.
  intros a b.
  destruct (canonicalize_order_free (JObject [("fields", JArray [b; a]); ("type", JString "map")])
    (JObject [("fields", JArray [a; b]); ("type", JString "map")])) as [-> _]; [|vm_compute; reflexivity].
  apply rtsc_lr.
  apply (reorder_here "fields" [b; a] [a; b] [] [("type", JString "map")]).
  - right. split_and!; [by right; right|reflexivity|]. apply (bool_decide_unpack _). vm_compute. reflexivity.
  - apply Permutation_swap.
Defined.
End theory.
