(* ===== verification/Registry.v ===== *)
(** The resolved registry ([core-script/src/script/registry.rs] and [naming.rs]): how blocks
    are named, linked and bounded before a flow may run.

    A [BTreeMap] is a [gmap] iterated in key order ([Sorting]); the serde forms of the blocks are
    parameters, as in [CanonicalBlock]. *)

From Stdlib Require Import ZArith Lia Ascii String.
From stdpp Require Import base strings sorting sets option gmap countable list.
From S2P Require Import Prelude Decimal Sorting Metadata Json FlowValue Paths Values Blocks.
From S2P Require Import CanonicalBlock.

Open Scope Z_scope.

Section registry.
Context {J : JsonEnv}.

(** * Names *)

Definition normalize_string (value : string) : string := nfc value.

Definition names_of (ids : NameIds) (kind : RegistryBlockKind) : gmap string string :=
  default ∅ (ids !! kind).

Definition insert_named_block {T} (kind : RegistryBlockKind) (identity : BlockIdentity)
    (blocks : gmap string T) (ids : NameIds) (block : T)
    : result RegistryError (gmap string T * NameIds) :=
  let names_for_kind := names_of ids kind in
  reject negb (is_valid_block_id (id identity)) with InvalidBlockId (id identity) ;;
  reject String.eqb (name identity) "" with InvalidBlockName (kind_as_str kind) (id identity) ;;
  reject is_some (blocks !! id identity) with DuplicateId (kind_as_str kind) (id identity) ;;
  reject is_some (names_for_kind !! id identity) with
    AmbiguousReference (kind_as_str kind) (id identity) ;;
  reject is_some (blocks !! name identity) with
    AmbiguousReference (kind_as_str kind) (name identity) ;;
  let normalized_name := normalize_string (name identity) in
  reject is_some (names_for_kind !! normalized_name) with
    DuplicateName (kind_as_str kind) (name identity) ;;
  Ok (<[id identity := block]> blocks,
      <[kind := <[normalized_name := id identity]> names_for_kind]> ids).

Definition named_block {T} (ids : NameIds) (kind : RegistryBlockKind) (reference : string)
    (blocks : gmap string T) : option T :=
  match blocks !! reference with
  | Some block => Some block
  | None => id ← names_of ids kind !! normalize_string reference; blocks !! id
  end.

Definition flow_block (r : ResolvedRegistry) (reference : string) : option FlowBlock :=
  named_block (name_ids r) KindFlow reference (flows r).

Definition phase_block (r : ResolvedRegistry) (reference : string) : option PhaseBlock :=
  named_block (name_ids r) KindPhase reference (phases r).

Definition tool_block (r : ResolvedRegistry) (reference : string) : option ToolBlock :=
  named_block (name_ids r) KindTool reference (tools r).

Definition instruction_block (r : ResolvedRegistry) (reference : string) : option InstructionBlock :=
  named_block (name_ids r) KindInstruction reference (instructions r).

(** * References *)

Definition require_block {T} (block : option T) (reference : string) (from_kind : RegistryBlockKind)
    (from_id : string) (kind : RegistryBlockKind) : result RegistryError T :=
  ok_or block (MissingReference (kind_as_str from_kind) from_id (kind_as_str kind) reference).

Definition require_tool (r : ResolvedRegistry) (reference : string) (from_kind : RegistryBlockKind)
    (from_id : string) : result RegistryError ToolBlock :=
  require_block (tool_block r reference) reference from_kind from_id KindTool.

Definition require_instruction (r : ResolvedRegistry) (reference : string)
    (from_kind : RegistryBlockKind) (from_id : string) : result RegistryError InstructionBlock :=
  require_block (instruction_block r reference) reference from_kind from_id KindInstruction.

Definition require_phase (r : ResolvedRegistry) (reference : string) (from_kind : RegistryBlockKind)
    (from_id : string) : result RegistryError PhaseBlock :=
  require_block (phase_block r reference) reference from_kind from_id KindPhase.

Definition require_flow (r : ResolvedRegistry) (reference : string) (from_kind : RegistryBlockKind)
    (from_id : string) : result RegistryError FlowBlock :=
  require_block (flow_block r reference) reference from_kind from_id KindFlow.

(** The loop of [phase_positions]; [index] counts the references seen. *)
Fixpoint phase_positions_loop (r : ResolvedRegistry) (references : list string) (index : nat)
    (positions : gmap string nat) (from_kind : RegistryBlockKind) (from_id : string)
    : result RegistryError (gmap string nat) :=
  match references with
  | [] => Ok positions
  | reference :: references =>
      phase ← require_phase r reference from_kind from_id;
      let phase_id := id (phase_identity phase) in
      reject is_some (positions !! phase_id) with
        DuplicateId "child phase reference" (from_id +:+ "." +:+ phase_id) ;;
      phase_positions_loop r references (S index) (<[phase_id := index]> positions) from_kind from_id
  end.

Definition phase_positions (r : ResolvedRegistry) (references : list string)
    (from_kind : RegistryBlockKind) (from_id : string) : result RegistryError (gmap string nat) :=
  phase_positions_loop r references 0 ∅ from_kind from_id.

Definition transition_error (from_kind : RegistryBlockKind) (from_id source_id : string)
    (error : FlowValueError) : RegistryError :=
  let message := "Transition predicate for source Phase " +:+ source_id
    +:+ " does not match its output contract: " +:+ fve_message error in
  match from_kind with
  | KindPhase => Semantic (InvalidPhaseDefinition from_id message)
  | _ => Semantic (InvalidFlowDefinition from_id message)
  end.

Definition validate_transition (r : ResolvedRegistry) (positions : gmap string nat)
    (from_kind : RegistryBlockKind) (from_id : string) (transition : PhaseTransition)
    : result RegistryError unit :=
  source ← require_phase r (from_phase_ref transition) from_kind from_id;
  target ← require_phase r (to_phase_ref transition) from_kind from_id;
  source_index ← ok_or (positions !! id (phase_identity source))
    (MissingReference (kind_as_str from_kind) from_id "Transition source child Phase"
       (from_phase_ref transition));
  target_index ← ok_or (positions !! id (phase_identity target))
    (MissingReference (kind_as_str from_kind) from_id "Transition target child Phase"
       (to_phase_ref transition));
  reject (target_index <=? source_index)%nat with
    InvalidTransition (kind_as_str from_kind) from_id (id (phase_identity source))
      (id (phase_identity target)) ;;
  map_err (transition_error from_kind from_id (id (phase_identity source)))
    (validate_predicate_against_contract (when transition) (phase_output source)).

Definition validate_transitions (r : ResolvedRegistry) (transitions : list PhaseTransition)
    (positions : gmap string nat) (from_kind : RegistryBlockKind) (from_id : string)
    : result RegistryError unit :=
  try_for_each (validate_transition r positions from_kind from_id) transitions.

(** The loops over Instruction and Tool references, with the ids seen so far. *)
Fixpoint distinct_references {T} (require : string -> result RegistryError T) (id_of : T -> string)
    (kind from_id : string) (references : list string) (ids : gset string)
    : result RegistryError unit :=
  match references with
  | [] => Ok tt
  | reference :: references =>
      block ← require reference;
      if decide (id_of block ∈ ids) then Err (DuplicateId kind (from_id +:+ "." +:+ id_of block))
      else distinct_references require id_of kind from_id references ({[id_of block]} ∪ ids)
  end.

(** [PartialEq] of contracts. *)
Fixpoint contract_eqb (a b : ValueContract) {struct a} : bool :=
  let opt_eqb (x y : option Z) := bool_decide (x = y) in
  match a, b with
  | CBoolean, CBoolean | CSessionObject, CSessionObject => true
  | CInteger min max, CInteger min' max' => opt_eqb min min' && opt_eqb max max'
  | CString max, CString max' => opt_eqb max max'
  | CList items max, CList items' max' => contract_eqb items items' && opt_eqb max max'
  | CMap fields, CMap fields' =>
      (fix go (a b : list (ValueFieldContract ValueContract)) : bool :=
        match a, b with
        | [], [] => true
        | mkField n q c :: a, mkField n' q' c' :: b =>
            String.eqb n n' && Bool.eqb q q' && contract_eqb c c' && go a b
        | _, _ => false
        end) fields fields'
  | _, _ => false
  end.

Definition validate_phase_references (r : ResolvedRegistry) (phase : PhaseBlock)
    : result RegistryError unit :=
  let phase_id := id (phase_identity phase) in
  _ ← distinct_references (fun reference => require_instruction r reference KindPhase phase_id)
        (fun i => id (instruction_identity i)) "phase instruction reference" phase_id
        (phase_instruction_refs phase) ∅;
  _ ← distinct_references (fun reference => require_tool r reference KindPhase phase_id)
        (fun t => id (tool_identity t)) "phase tool reference" phase_id (phase_tool_refs phase) ∅;
  child_positions ← phase_positions r (phase_phase_refs phase) KindPhase phase_id;
  _ ← match phase_result_from phase with
      | Some result_from =>
          result_phase ← require_phase r result_from KindPhase phase_id;
          reject negb (is_some (child_positions !! id (phase_identity result_phase))) with
            MissingReference (kind_as_str KindPhase) phase_id "direct child Phase result" result_from ;;
          reject negb (contract_eqb (phase_output phase) (phase_output result_phase)) with
            Semantic (InvalidPhaseDefinition phase_id
              ("output contract must exactly match result_from Phase "
               +:+ id (phase_identity result_phase))) ;;
          Ok tt
      | None => Ok tt
      end;
  validate_transitions r (phase_transitions phase) child_positions KindPhase phase_id.

Definition validate_flow_references (r : ResolvedRegistry) (flow : FlowBlock)
    : result RegistryError unit :=
  let flow_id := id (flow_identity flow) in
  positions ← phase_positions r (flow_phase_refs flow) KindFlow flow_id;
  _ ← try_for_each (fun reference =>
        _ ← require_flow r reference KindFlow flow_id; Ok tt) (flow_subflow_refs flow);
  validate_transitions r (flow_transitions flow) positions KindFlow flow_id.

(** * Nesting

    [visit_phase] and [visit_flow] are the same walk: over the blocks of one kind, their
    child references, the limits of the kind and the errors it reports. *)

Record TailDepth : Type := mkTail { deepest_id : string; tail_depth : Z }.

Record Nesting : Type := mkNesting {
  (** the id and child references of the block a reference names, or the error *)
  resolve : string -> string -> result RegistryError (string * list string);
  max_depth : Z;
  max_fanout : Z;
  depth_error : string -> Z -> RegistryError;
  cycle_error : string -> RegistryError;
  fanout_error : string -> Z -> RegistryError;
}.

Section nesting.
Context (n : Nesting).

(** The loop over the children; [visit] is the visit one level deeper. *)
Definition visit_children
    (visit : string -> gset string -> gmap string TailDepth ->
             result RegistryError (gset string * gmap string TailDepth)) (from_id : string)
    : list string -> TailDepth -> gset string -> gmap string TailDepth ->
      result RegistryError (TailDepth * gset string * gmap string TailDepth) :=
  fix go references tail visiting visited :=
    match references with
    | [] => Ok (tail, visiting, visited)
    | reference :: references =>
        '(child_id, _) ← resolve n reference from_id;
        '(visiting, visited) ← visit child_id visiting visited;
        child_tail ← expect (visited !! child_id);
        let tail :=
          if tail_depth tail <? tail_depth child_tail + 1
          then mkTail (deepest_id child_tail) (tail_depth child_tail + 1)
          else tail in
        go references tail visiting visited
    end.

(** The depth limit ends the recursion: [max_depth + 1] units of fuel are enough. *)
Fixpoint visit (fuel : nat) (block_id : string) (depth : Z) (visiting : gset string)
    (visited : gmap string TailDepth) : result RegistryError (gset string * gmap string TailDepth) :=
  match fuel with
  | O => Panic
  | S fuel =>
      reject (max_depth n <? depth) with depth_error n block_id depth ;;
      match visited !! block_id with
      | Some tail =>
          let resolved_depth := depth + tail_depth tail - 1 in
          reject (max_depth n <? resolved_depth) with depth_error n (deepest_id tail) resolved_depth ;;
          Ok (visiting, visited)
      | None =>
          if decide (block_id ∈ visiting) then Err (cycle_error n block_id)
          else
            let visiting := {[block_id]} ∪ visiting in
            '(_, references) ← resolve n block_id block_id;
            reject (max_fanout n <? len references) with fanout_error n block_id (len references) ;;
            '(tail, visiting, visited) ←
              visit_children (fun child visiting visited => visit fuel child (depth + 1) visiting visited)
                block_id references (mkTail block_id 1) visiting visited;
            Ok (visiting ∖ {[block_id]}, <[block_id := tail]> visited)
      end
  end.

Definition visit_fuel : nat := Z.to_nat (max_depth n + 1).

(** The loop over all ids; [visiting] starts empty for each. *)
Fixpoint validate_cycles (ids : list string) (visited : gmap string TailDepth)
    : result RegistryError unit :=
  match ids with
  | [] => Ok tt
  | block_id :: ids =>
      '(_, visited) ← visit visit_fuel block_id 1 ∅ visited;
      validate_cycles ids visited
  end.
End nesting.

Definition phase_nesting (r : ResolvedRegistry) : Nesting := {|
  resolve reference from_id :=
    phase ← require_phase r reference KindPhase from_id;
    Ok (id (phase_identity phase), phase_phase_refs phase);
  max_depth := MAX_PHASE_NESTING_DEPTH;
  max_fanout := MAX_PHASE_FANOUT;
  depth_error phase_id depth := PhaseDepthExceeded phase_id depth MAX_PHASE_NESTING_DEPTH;
  cycle_error phase_id := PhaseCycle phase_id;
  fanout_error phase_id count := PhaseFanoutExceeded phase_id count MAX_PHASE_FANOUT;
|}.

Definition flow_nesting (r : ResolvedRegistry) : Nesting := {|
  resolve reference from_id :=
    flow ← require_flow r reference KindFlow from_id;
    Ok (id (flow_identity flow), flow_subflow_refs flow);
  max_depth := MAX_FLOW_NESTING_DEPTH;
  max_fanout := MAX_FLOW_FANOUT;
  depth_error flow_id depth := FlowDepthExceeded flow_id depth MAX_FLOW_NESTING_DEPTH;
  cycle_error flow_id := FlowCycle flow_id;
  fanout_error flow_id count := FlowFanoutExceeded flow_id count MAX_FLOW_FANOUT;
|}.

Definition visit_phase (r : ResolvedRegistry) := visit (phase_nesting r).
Definition visit_flow (r : ResolvedRegistry) := visit (flow_nesting r).

(** [self.phases.keys()] in order. *)
Definition keys {T} (m : gmap string T) : list string := (map_iter str_cmp m).*1.

Definition validate_phase_cycles (r : ResolvedRegistry) : result RegistryError unit :=
  validate_cycles (phase_nesting r) (keys (phases r)) ∅.

Definition validate_flow_cycles (r : ResolvedRegistry) : result RegistryError unit :=
  validate_cycles (flow_nesting r) (keys (flows r)) ∅.

Definition validate_references (r : ResolvedRegistry) : result RegistryError unit :=
  _ ← try_for_each (validate_phase_references r) (map_iter str_cmp (phases r)).*2;
  _ ← try_for_each (validate_flow_references r) (map_iter str_cmp (flows r)).*2;
  _ ← validate_phase_cycles r;
  validate_flow_cycles r.

(** * Canonical references *)

Definition canonicalize_reference (ids : NameIds) (kind : RegistryBlockKind) (reference : string) : string :=
  default reference (names_of ids kind !! reference).

Definition canonicalize_transition_references (ids : NameIds) (t : PhaseTransition) : PhaseTransition :=
  mkTransition (canonicalize_reference ids KindPhase (from_phase_ref t))
    (canonicalize_reference ids KindPhase (to_phase_ref t)) (when t).

Definition canonical_phase (ids : NameIds) (p : PhaseBlock) : PhaseBlock := {|
  phase_identity := phase_identity p;
  phase_instruction_refs := canonicalize_reference ids KindInstruction <$> phase_instruction_refs p;
  phase_tool_refs := canonicalize_reference ids KindTool <$> phase_tool_refs p;
  phase_phase_refs := canonicalize_reference ids KindPhase <$> phase_phase_refs p;
  phase_output := phase_output p;
  phase_result_from := canonicalize_reference ids KindPhase <$> phase_result_from p;
  phase_loop := phase_loop p;
  phase_transitions := canonicalize_transition_references ids <$> phase_transitions p;
|}.

Definition canonical_flow (ids : NameIds) (f : FlowBlock) : FlowBlock := {|
  flow_identity := flow_identity f;
  flow_phase_refs := canonicalize_reference ids KindPhase <$> flow_phase_refs f;
  flow_subflow_refs := canonicalize_reference ids KindFlow <$> flow_subflow_refs f;
  flow_transitions := canonicalize_transition_references ids <$> flow_transitions f;
|}.

Definition with_canonical_references (r : ResolvedRegistry) : ResolvedRegistry := {|
  instructions := instructions r;
  flows := canonical_flow (name_ids r) <$> flows r;
  phases := canonical_phase (name_ids r) <$> phases r;
  tools := tools r;
  name_ids := name_ids r;
|}.

(** * Resolution *)

Context (pattern_error : string -> option string).
Context (block_to_value : RegistryBlock -> result string Value).
Context (block_from_str : string -> result string RegistryBlock).

(** [insert]: the registry is being built, so [name_ids] is passed beside it. *)
Definition insert_block (r : ResolvedRegistry) (block : RegistryBlock) (ids : NameIds)
    : result RegistryError (ResolvedRegistry * NameIds) :=
  _ ← map_err Semantic (validate_registry_block_semantics pattern_error block);
  match block with
  | RTool b =>
      '(blocks, ids) ← insert_named_block KindTool (tool_identity b) (tools r) ids b;
      Ok (mkRegistry (instructions r) (flows r) (phases r) blocks (name_ids r), ids)
  | RInstruction b =>
      '(blocks, ids) ← insert_named_block KindInstruction (instruction_identity b) (instructions r) ids b;
      Ok (mkRegistry blocks (flows r) (phases r) (tools r) (name_ids r), ids)
  | RPhase b =>
      '(blocks, ids) ← insert_named_block KindPhase (phase_identity b) (phases r) ids b;
      Ok (mkRegistry (instructions r) (flows r) blocks (tools r) (name_ids r), ids)
  | RFlow b =>
      '(blocks, ids) ← insert_named_block KindFlow (flow_identity b) (flows r) ids b;
      Ok (mkRegistry (instructions r) blocks (phases r) (tools r) (name_ids r), ids)
  end.

Definition shape_error (block : RegistryBlock) (message : string) : RegistryError :=
  let '(kind, identity) := kind_and_identity block in
  if negb (is_valid_block_id (id identity)) then InvalidBlockId (id identity)
  else if String.eqb (name identity) "" then InvalidBlockName (kind_as_str kind) (id identity)
  else parse_error "programmatic registry" message.

Fixpoint insert_blocks (r : ResolvedRegistry) (ids : NameIds) (blocks : list RegistryBlock)
    : result RegistryError (ResolvedRegistry * NameIds) :=
  match blocks with
  | [] => Ok (r, ids)
  | block :: blocks =>
      _ ← map_err (shape_error block) (validate_registry_block_shape block);
      block ← canonicalize_registry_block block_to_value block_from_str block;
      _ ← map_err (parse_error "programmatic registry") (validate_registry_block_shape block);
      '(r, ids) ← insert_block r block ids;
      insert_blocks r ids blocks
  end.

Definition empty_registry : ResolvedRegistry := mkRegistry ∅ ∅ ∅ ∅ ∅.

Definition with_names (r : ResolvedRegistry) (ids : NameIds) : ResolvedRegistry :=
  mkRegistry (instructions r) (flows r) (phases r) (tools r) ids.

Definition from_blocks (blocks : list RegistryBlock) : result RegistryError ResolvedRegistry :=
  '(r, ids) ← insert_blocks empty_registry ∅ blocks;
  let r := with_names r ids in
  _ ← validate_references r;
  Ok (with_canonical_references r).
End registry.
