(* ===== verification/NestingTheory.v ===== *)
(** The nesting check of the registry ([visit] of [Registry]) is exact: it accepts exactly the
    graphs in which no chain of nested blocks is longer than the limit and no block has too
    many children.  Cycles are the chains without a bound. *)

From Stdlib Require Import ZArith Lia Ascii String.
From stdpp Require Import base strings sorting sets option gmap countable list.
From S2P Require Import Prelude Sorting Json Values Blocks Registry.

Open Scope Z_scope.

Section nesting.
Context (n : Nesting) (ids : list string).

(** [c] is a child of [b]. *)
Definition child (b c : string) : Prop :=
  exists refs ref crefs,
    resolve n b b = Ok (b, refs) /\ ref ∈ refs /\ resolve n ref b = Ok (c, crefs).

(** [chain b k]: [k] blocks nested in each other, [b] outermost. *)
Inductive chain : string -> Z -> Prop :=
| chain_one b : b ∈ ids -> chain b 1
| chain_more b c k : b ∈ ids -> child b c -> chain c k -> chain b (k + 1).

(** Every id names its own block, and every reference of a block names one of the ids. *)
Record graph_ok : Prop := {
  go_self : forall b, b ∈ ids -> exists refs, resolve n b b = Ok (b, refs);
  go_child : forall b refs ref, b ∈ ids -> resolve n b b = Ok (b, refs) -> ref ∈ refs ->
    exists c crefs, resolve n ref b = Ok (c, crefs) /\ c ∈ ids;
}.

Definition bounded : Prop := forall b k, chain b k -> k <= max_depth n.

Definition fanout_ok : Prop :=
  forall b refs, b ∈ ids -> resolve n b b = Ok (b, refs) -> len refs <= max_fanout n.

Lemma chain_pos b k : chain b k -> 1 <= k.
Proof. induction 1; lia. Qed.

Lemma chain_in b k : chain b k -> b ∈ ids.
Proof. by inversion 1. Qed.

(** * Soundness *)

(** What the cache of visited blocks says. *)
Definition upper (visited : gmap string TailDepth) : Prop :=
  forall b t, visited !! b = Some t ->
    1 <= tail_depth t /\ (forall k, chain b k -> k <= tail_depth t) /\
    (forall refs, resolve n b b = Ok (b, refs) -> len refs <= max_fanout n).

Definition sound_visit (depth : Z)
    (v : string -> gset string -> gmap string TailDepth ->
         result RegistryError (gset string * gmap string TailDepth)) : Prop :=
  forall b visiting visited visiting' visited',
    v b visiting visited = Ok (visiting', visited') -> upper visited ->
    upper visited' /\ visited ⊆ visited' /\
    exists t, visited' !! b = Some t /\ depth + tail_depth t - 1 <= max_depth n.

Lemma visit_children_sound v depth from_id refs tail visiting visited tail' visiting' visited' :
  sound_visit (depth + 1) v -> upper visited ->
  depth + tail_depth tail - 1 <= max_depth n ->
  visit_children n v from_id refs tail visiting visited = Ok (tail', visiting', visited') ->
  upper visited' /\ visited ⊆ visited' /\ tail_depth tail <= tail_depth tail' /\
  depth + tail_depth tail' - 1 <= max_depth n /\
  forall ref c crefs k, ref ∈ refs -> resolve n ref from_id = Ok (c, crefs) -> chain c k ->
    k + 1 <= tail_depth tail'.
Proof.
  intros Hv. revert tail visiting visited.
  induction refs as [|ref refs IH]; intros tail visiting visited Hu Ht; cbn.
  { intros [= <- <- <-]. split_and!; [done..|lia|done|]. by intros ref c crefs k ?%elem_of_nil. }
  intros ([child_id crefs] & Hres & H)%bind_Ok_inv. apply bind_Ok_inv in H as ([ving ved] & Hvis & H).
  apply bind_Ok_inv in H as (ct & Hct%expect_Ok_inv & H).
  destruct (Hv _ _ _ _ _ Hvis Hu) as (Hu' & Hsub & t & Et & Hd).
  rewrite Et in Hct. injection Hct as ->.
  apply IH in H as (Hu'' & Hsub' & Hle & Hd' & Hch);
    [|done|destruct (Z.ltb_spec (tail_depth tail) (tail_depth ct + 1)); cbn; lia].
  split_and!; [done|by transitivity ved| |done|].
  - destruct (Z.ltb_spec (tail_depth tail) (tail_depth ct + 1)); cbn in Hle; lia.
  - intros ref' c crefs' k [->|Hin]%elem_of_cons Hr Hk; [|by eapply Hch].
    rewrite Hres in Hr. injection Hr as <- <-.
    destruct (Hu' _ _ Et) as (_ & Hub & _). specialize (Hub k Hk).
    destruct (Z.ltb_spec (tail_depth tail) (tail_depth ct + 1)); cbn in Hle; lia.
Qed.

Lemma visit_sound fuel depth : sound_visit depth (fun b => visit n fuel b depth).
Proof.
  revert depth. induction fuel as [|fuel IH]; intros depth b visiting visited visiting' visited' H Hu;
    [done|]. cbn [visit] in H.
  destruct (Z.ltb_spec (max_depth n) depth) as [|Hd]; [done|].
  destruct (visited !! b) as [t|] eqn:Eb.
  { destruct (Z.ltb_spec (max_depth n) (depth + tail_depth t - 1)); [done|].
    injection H as <- <-. split_and!; [done..|]. eauto. }
  destruct (decide (b ∈ visiting)); [done|].
  apply bind_Ok_inv in H as ([b' refs] & Hres & H).
  destruct (Z.ltb_spec (max_fanout n) (len refs)) as [|Hf]; [done|].
  apply bind_Ok_inv in H as ([[tail ving] ved] & Hch & [= <- <-]).
  apply (visit_children_sound _ depth) in Hch as (Hu' & Hsub & Hle & Hdt & Hc);
    [|apply IH|done|cbn; lia]. cbn in Hle. split_and!.
  - intros x t Hx. apply lookup_insert_Some in Hx as [[<- <-]|[_ Hx]]; [|by apply Hu'].
    split_and!; [lia| |].
    + intros k Hk. inversion Hk as [|? c k' Hin (refs' & ref & crefs & Hr' & Hin' & Hrc) Hck]; subst; [lia|].
      rewrite Hres in Hr'. injection Hr' as -> ->. by eapply Hc.
    + intros refs' Hr'. rewrite Hres in Hr'. injection Hr' as -> ->. done.
  - apply map_subseteq_spec. intros k t Hk. rewrite lookup_insert_ne by congruence.
    by eapply lookup_weaken.
  - exists tail. rewrite lookup_insert_eq. split; [done|lia].
Qed.

Lemma validate_cycles_sound l visited :
  validate_cycles n l visited = Ok tt -> upper visited ->
  forall b, b ∈ l ->
    (forall k, chain b k -> k <= max_depth n) /\
    (forall refs, resolve n b b = Ok (b, refs) -> len refs <= max_fanout n).
Proof.
  revert visited. induction l as [|a l IH]; intros visited H Hu b; [by intros ?%elem_of_nil|].
  cbn in H. apply bind_Ok_inv in H as ([ving ved] & Hv & H).
  destruct (visit_sound _ 1 _ _ _ _ _ Hv Hu) as (Hu' & _ & t & Et & Hd).
  intros [->|Hb]%elem_of_cons; [|by eapply IH].
  destruct (Hu' _ _ Et) as (_ & Hub & Hf). split; [|done]. intros k Hk. specialize (Hub k Hk). lia.
Qed.

(** * Completeness *)

Context (Hg : graph_ok) (Hb : bounded) (Hf : fanout_ok) (Hmax : 1 <= max_depth n).

(** Every chain from [c] extends to a longer one from [b]. *)
Definition reaches (b c : string) : Prop := exists j, 1 <= j /\ forall k, chain c k -> chain b (k + j).

Lemma reaches_self b : b ∈ ids -> ~ reaches b b.
Proof.
  intros Hin (j & Hj & H).
  assert (forall m : nat, chain b (1 + Z.of_nat m * j)) as Hc.
  { intros m. induction m as [|m IH]; [by apply chain_one|].
    replace (1 + Z.of_nat (S m) * j) with (1 + Z.of_nat m * j + j) by lia. by apply H. }
  specialize (Hc (Z.to_nat (max_depth n))). apply Hb in Hc. nia.
Qed.

Lemma reaches_child a b c : reaches a b -> b ∈ ids -> child b c -> reaches a c.
Proof.
  intros (j & Hj & H) Hin Hc. exists (j + 1). split; [lia|]. intros k Hk.
  replace (k + (j + 1)) with (k + 1 + j) by lia. apply H. by eapply chain_more.
Qed.

Lemma reaches_one b c : b ∈ ids -> child b c -> reaches b c.
Proof. intros Hin Hc. exists 1. split; [lia|]. intros k Hk. by eapply chain_more. Qed.

(** The cached depth of a block is the length of a chain from it. *)
Definition lower (visited : gmap string TailDepth) : Prop :=
  forall b t, visited !! b = Some t -> chain b (tail_depth t).

Definition complete_visit (depth : Z)
    (v : string -> gset string -> gmap string TailDepth ->
         result RegistryError (gset string * gmap string TailDepth)) : Prop :=
  forall b visiting visited,
    b ∈ ids -> lower visited -> (forall k, chain b k -> depth + k - 1 <= max_depth n) ->
    (forall a, a ∈ visiting -> reaches a b) ->
    exists visited', v b visiting visited = Ok (visiting, visited') /\ lower visited' /\
      is_Some (visited' !! b).

Lemma visit_children_complete v depth b refs tail visiting visited :
  complete_visit (depth + 1) v -> b ∈ ids -> lower visited ->
  (forall ref, ref ∈ refs -> exists c crefs, resolve n ref b = Ok (c, crefs) /\ c ∈ ids /\ child b c) ->
  (forall k, chain b k -> depth + k - 1 <= max_depth n) ->
  (forall a, a ∈ visiting -> a = b \/ reaches a b) ->
  chain b (tail_depth tail) ->
  exists tail' visited',
    visit_children n v b refs tail visiting visited = Ok (tail', visiting, visited') /\
    lower visited' /\ chain b (tail_depth tail').
Proof.
  intros Hv Hin Hl Hrefs Hdepth Hvis. revert tail visited Hl Hrefs.
  induction refs as [|ref refs IH]; intros tail visited Hl Hrefs Ht; cbn; [by eauto|].
  destruct (Hrefs ref ltac:(left)) as (c & crefs & -> & Hc & Hch). cbn [mbind result_bind].
  destruct (Hv c visiting visited) as (visited' & -> & Hl' & t & Et); [done|done| | |].
  - intros k Hk. specialize (Hdepth (k + 1) (chain_more b c k Hin Hch Hk)). lia.
  - intros a [->|Ha]%Hvis; [by apply reaches_one|by eapply reaches_child].
  - cbn [mbind result_bind]. rewrite Et. cbn [expect mbind result_bind].
    apply IH; [done|intros; apply Hrefs; by right|].
    destruct (tail_depth tail <? tail_depth t + 1); [|done]. cbn.
    eapply chain_more; [done|exact Hch|]. by apply Hl'.
Qed.

Lemma visit_complete fuel depth :
  1 <= depth -> max_depth n + 2 <= Z.of_nat fuel + depth -> 1 <= Z.of_nat fuel ->
  complete_visit depth (fun b => visit n fuel b depth).
Proof.
  revert depth. induction fuel as [|fuel IH]; intros depth H1 Hfuel Hp b visiting visited Hin Hl Hdepth Hvis;
    [lia|]. cbn [visit].
  pose proof (Hdepth 1 (chain_one b Hin)) as Hd1.
  destruct (Z.ltb_spec (max_depth n) depth) as [|Hd]; [lia|].
  destruct (visited !! b) as [t|] eqn:Eb.
  { pose proof (Hdepth _ (Hl _ _ Eb)). destruct (Z.ltb_spec (max_depth n) (depth + tail_depth t - 1)); [lia|].
    eexists. split; [done|]. split; [done|]. by rewrite Eb. }
  destruct (decide (b ∈ visiting)) as [Hbv|Hbv]; [by apply Hvis, reaches_self in Hbv|].
  destruct (go_self Hg b Hin) as [refs Hres]. rewrite Hres. cbn [mbind result_bind].
  destruct (Z.ltb_spec (max_fanout n) (len refs)) as [Hlt|_]; [specialize (Hf b refs Hin Hres); lia|].
  destruct (visit_children_complete (fun child visiting visited => visit n fuel child (depth + 1) visiting visited)
    depth b refs (mkTail b 1) ({[b]} ∪ visiting) visited) as (tail & visited' & -> & Hl' & Ht).
  - apply IH; lia.
  - done.
  - done.
  - intros ref Href. destruct (go_child Hg b refs ref Hin Hres Href) as (c & crefs & Hr & Hc).
    exists c, crefs. split_and!; [done..|]. by exists refs, ref, crefs.
  - done.
  - intros a. rewrite elem_of_union, elem_of_singleton. intros [->|Ha]; [by left|right; by apply Hvis].
  - by apply chain_one.
  - cbn [mbind result_bind].
    assert (({[b]} ∪ visiting) ∖ {[b]} = visiting) as -> by set_solver.
    eexists. split; [done|]. split; [|by rewrite lookup_insert_eq].
    intros x t Hx. apply lookup_insert_Some in Hx as [[<- <-]|[_ Hx]]; [done|by apply Hl'].
Qed.

Lemma validate_cycles_complete l visited :
  l ⊆ ids -> lower visited -> validate_cycles n l visited = Ok tt.
Proof.
  revert visited. induction l as [|b l IH]; intros visited Hsub Hl; [done|]. cbn.
  destruct (visit_complete (visit_fuel n) 1 ltac:(lia) ltac:(unfold visit_fuel; lia)
    ltac:(unfold visit_fuel; lia) b ∅ visited) as (visited' & -> & Hl' & _).
  - set_solver.
  - done.
  - intros k Hk%Hb. lia.
  - set_solver.
  - cbn [mbind result_bind]. apply IH; [set_solver|done].
Qed.
End nesting.

(** The check is exact on graphs whose references resolve. *)
Lemma validate_cycles_exact n ids :
  graph_ok n ids -> 1 <= max_depth n ->
  validate_cycles n ids ∅ = Ok tt <-> bounded n ids /\ fanout_ok n ids.
Proof.
  intros Hg Hm. split.
  - intros H. assert (upper n ids ∅) as Hu by (intros ? ?; by rewrite lookup_empty).
    pose proof (validate_cycles_sound n ids ids ∅ H Hu) as Hs. split.
    + intros b k Hk. eapply Hs; [by eapply chain_in|done].
    + intros b refs Hin Hr. by apply (Hs b Hin).
  - intros [Hb Hf]. apply (validate_cycles_complete n ids); try done.
Qed.

(** In a bounded graph no block is nested in itself. *)
Lemma bounded_acyclic n ids b :
  graph_ok n ids -> 1 <= max_depth n -> bounded n ids -> b ∈ ids -> ~ tc (child n) b b.
Proof.
  intros Hg Hm Hb Hin Hc.
  assert (forall x y, tc (child n) x y -> x ∈ ids -> y ∈ ids /\ reaches n ids x y) as Hr.
  { intros x y Hxy. induction Hxy as [x y Hxy|x z y Hxz Hzy IH]; intros Hx.
    - split; [|by apply reaches_one].
      destruct Hxy as (refs & ref & crefs & Hr & Href & Hrc).
      destruct (go_child n ids Hg x refs ref Hx Hr Href) as (c & crefs' & Hc' & Hin').
      rewrite Hrc in Hc'. by injection Hc' as <- <-.
    - assert (z ∈ ids) as Hz.
      { destruct Hxz as (refs & ref & crefs & Hr & Href & Hrc).
        destruct (go_child n ids Hg x refs ref Hx Hr Href) as (c & crefs' & Hc' & Hin').
        rewrite Hrc in Hc'. by injection Hc' as <- <-. }
      destruct (IH Hz) as [Hy (j & Hj & H)]. split; [done|]. exists (j + 1). split; [lia|].
      intros k Hk. replace (k + (j + 1)) with (k + j + 1) by lia. eapply chain_more; [done|done|].
      by apply H. }
  destruct (Hr b b Hc Hin) as [_ Hbb]. by eapply (reaches_self n ids).
Qed.
