(* ===== verification/RegistryTheory.v ===== *)
(** A resolved registry keeps its promises ([Registry]): ids and names are unambiguous, every
    reference is the id of a block, transitions lead forward and carry predicates that cannot
    fail, and nesting is bounded.  [registry_ok] is the interface the runtime relies on. *)

From Stdlib Require Import ZArith Lia Ascii String.
From stdpp Require Import base strings sorting sets option gmap countable list.
From S2P Require Import Prelude Decimal Sorting Metadata Json FlowValue Paths Values ValuesTheory.
From S2P Require Import Blocks CanonicalBlock Registry NestingTheory.

Open Scope Z_scope.

(** * The interface *)

Section interface.
Context {J : JsonEnv}.

(** A sequence of sibling Phases with its transitions, as the runtime walks it. *)
Record sequence_ok (r : ResolvedRegistry) (refs : list string) (transitions : list PhaseTransition)
    (result_from : option string) : Prop := {
  sq_refs : forall ref, ref ∈ refs -> exists p, phases r !! ref = Some p /\ id (phase_identity p) = ref;
  sq_nodup : NoDup refs;
  sq_transitions : forall t, t ∈ transitions -> exists i j source,
    refs !! i = Some (from_phase_ref t) /\ refs !! j = Some (to_phase_ref t) /\ (i < j)%nat /\
    phases r !! from_phase_ref t = Some source /\
    checked_predicate (when t) (phase_output source);
  sq_result : forall f, result_from = Some f -> f ∈ refs;
}.

(** Chains of nested Phases and of nested Flows. *)
Inductive phase_chain (r : ResolvedRegistry) : string -> Z -> Prop :=
| phase_chain_one k p : phases r !! k = Some p -> phase_chain r k 1
| phase_chain_more k p c n :
    phases r !! k = Some p -> c ∈ phase_phase_refs p -> phase_chain r c n -> phase_chain r k (n + 1).

Inductive flow_chain (r : ResolvedRegistry) : string -> Z -> Prop :=
| flow_chain_one k f : flows r !! k = Some f -> flow_chain r k 1
| flow_chain_more k f c n :
    flows r !! k = Some f -> c ∈ flow_subflow_refs f -> flow_chain r c n -> flow_chain r k (n + 1).

Record phase_ok (r : ResolvedRegistry) (p : PhaseBlock) : Prop := {
  po_sequence : sequence_ok r (phase_phase_refs p) (phase_transitions p) (phase_result_from p);
  po_output : contract_depth (phase_output p) <= 16 /\ contract_shape (phase_output p);
  po_loop : forall l, phase_loop p = Some l ->
    1 <= loop_max_iterations l <= 32 /\ checked_predicate (loop_until l) (phase_output p);
  po_instructions : forall ref, ref ∈ phase_instruction_refs p -> is_Some (instructions r !! ref);
  po_tools : forall ref, ref ∈ phase_tool_refs p -> is_Some (tools r !! ref);
  po_composite : phase_phase_refs p <> [] -> is_Some (phase_result_from p);
  po_result : forall f child, phase_result_from p = Some f -> phases r !! f = Some child ->
    phase_output child = phase_output p;
}.

Record flow_ok (r : ResolvedRegistry) (f : FlowBlock) : Prop := {
  fo_sequence : sequence_ok r (flow_phase_refs f) (flow_transitions f) None;
  fo_phases : flow_phase_refs f <> [];
  fo_subflows : forall ref, ref ∈ flow_subflow_refs f -> is_Some (flows r !! ref);
}.

Record registry_ok (r : ResolvedRegistry) : Prop := {
  ro_phase_ids : forall k p, phases r !! k = Some p -> id (phase_identity p) = k;
  ro_flow_ids : forall k f, flows r !! k = Some f -> id (flow_identity f) = k;
  ro_tool_ids : forall k t, tools r !! k = Some t -> id (tool_identity t) = k;
  ro_instruction_ids : forall k i, instructions r !! k = Some i -> id (instruction_identity i) = k;
  ro_phases : forall k p, phases r !! k = Some p -> phase_ok r p;
  ro_flows : forall k f, flows r !! k = Some f -> flow_ok r f;
  ro_phase_depth : forall k n, phase_chain r k n -> n <= 16;
  ro_flow_depth : forall k n, flow_chain r k n -> n <= 16;
}.
End interface.

(** * Names *)

Section names.
Context {J : JsonEnv}.

(** The blocks of one kind with their names: keyed by id, names lead to blocks, and a name
    that is also an id is that block's own. *)
Record maps_ok {T} (identity : T -> BlockIdentity) (blocks : gmap string T) (names : gmap string string)
    : Prop := {
  mo_keyed : forall k b, blocks !! k = Some b -> id (identity b) = k;
  mo_named : forall nm i, names !! nm = Some i -> is_Some (blocks !! i);
  mo_unambiguous : forall nm i, names !! nm = Some i -> is_Some (blocks !! nm) -> i = nm;
}.

Lemma is_some_false {A} (o : option A) : is_some o = false <-> o = None.
Proof. by destruct o. Qed.

Lemma insert_named_block_Ok {T} (identity : T -> BlockIdentity) kind b blocks ids blocks' ids' :
  maps_ok identity blocks (names_of ids kind) -> nfc (name (identity b)) = name (identity b) ->
  insert_named_block kind (identity b) blocks ids b = Ok (blocks', ids') ->
  maps_ok identity blocks' (names_of ids' kind) /\ blocks' = <[id (identity b) := b]> blocks /\
  forall kind', kind' <> kind -> names_of ids' kind' = names_of ids kind'.
Proof.
  intros [Hk Hn Hu] Hnfc H. unfold insert_named_block in H. inv_ok.
  repeat match goal with Hs : is_some _ = false |- _ => apply is_some_false in Hs end.
  unfold normalize_string in *. rewrite Hnfc in *.
  assert (names_of (<[kind := <[name (identity b) := id (identity b)]> (names_of ids kind)]> ids) kind
    = <[name (identity b) := id (identity b)]> (names_of ids kind)) as E
    by (unfold names_of at 1; by rewrite lookup_insert_eq).
  split; [|split; [done|]].
  - rewrite E. split.
    + intros k x Hx. apply lookup_insert_Some in Hx as [[<- <-]|[_ Hx]]; auto.
    + intros nm i Hx. destruct (decide (i = id (identity b))) as [->|Hne]; [by rewrite lookup_insert_eq|].
      rewrite lookup_insert_ne by done.
      apply lookup_insert_Some in Hx as [[_ <-]|[_ Hx]]; [done|by eapply Hn].
    + intros nm i Hx. destruct (decide (nm = id (identity b))) as [->|Hne].
      * intros _. apply lookup_insert_Some in Hx as [[_ <-]|[_ Hx]]; [done|congruence].
      * rewrite lookup_insert_ne by done. intros [x Hxx].
        apply lookup_insert_Some in Hx as [[<- <-]|[_ Hx]]; [congruence|by eapply Hu].
  - intros kind' Hne. unfold names_of. by rewrite lookup_insert_ne.
Qed.

(** A normalized reference resolves to the block its canonical form is the id of. *)
Lemma named_block_canonical {T} (identity : T -> BlockIdentity) ids kind ref (blocks : gmap string T) b :
  maps_ok identity blocks (names_of ids kind) -> nfc ref = ref ->
  named_block ids kind ref blocks = Some b ->
  canonicalize_reference ids kind ref = id (identity b) /\ blocks !! id (identity b) = Some b.
Proof.
  intros [Hk Hn Hu] Hnfc. unfold named_block, canonicalize_reference, normalize_string.
  destruct (blocks !! ref) as [x|] eqn:E.
  - intros [= ->]. rewrite (Hk _ _ E). split; [|done].
    destruct (names_of ids kind !! ref) as [i|] eqn:Ei; [|done]. cbn. by apply (Hu _ _ Ei).
  - rewrite Hnfc. destruct (names_of ids kind !! ref) as [i|] eqn:Ei; [|done]. cbn. intros Hb.
    by rewrite (Hk _ _ Hb).
Qed.
End names.

(** * The registry while it is built *)

Section build.
Context {J : JsonEnv}.
Context (pattern_error : string -> option string).
Context (to_value : RegistryBlock -> result string Value).
Context (of_str : string -> result string RegistryBlock).

(** The strings of a block that name it or refer to others. *)
Definition block_strings (b : RegistryBlock) : list string :=
  name (kind_and_identity b).2 ::
  match b with
  | RTool _ | RInstruction _ => []
  | RPhase p =>
      phase_instruction_refs p ++ phase_tool_refs p ++ phase_phase_refs p ++
      option_list (phase_result_from p) ++
      (from_phase_ref <$> phase_transitions p) ++ (to_phase_ref <$> phase_transitions p)
  | RFlow f =>
      flow_phase_refs f ++ flow_subflow_refs f ++
      (from_phase_ref <$> flow_transitions f) ++ (to_phase_ref <$> flow_transitions f)
  end.

Definition normal_strings (l : list string) : Prop := Forall (fun s => nfc s = s) l.

(** What the derived reader is relied on for: the strings of a block are read as they stand in
    the text, so that a block read from canonical JSON holds text in normal form. *)
Definition reads_normalized : Prop :=
  forall v text b, canonical_json v = Ok text -> of_str text = Ok b -> normal_strings (block_strings b).

Lemma canonicalize_normalizes b b' :
  reads_normalized -> canonicalize_registry_block to_value of_str b = Ok b' ->
  normal_strings (block_strings b').
Proof.
  intros Hr H. unfold canonicalize_registry_block in H. apply bind_Ok_inv in H as (v & _ & H).
  apply bind_Ok_inv in H as (text & Ht & H). eapply Hr.
  - destruct (canonical_json (canonicalize_registry_value v)) eqn:E; [|done..].
    injection Ht as <-. exact E.
  - destruct (of_str text) as [x| |]; [|done..]. by injection H as <-.
Qed.

(** Every Tool passed the checks of one block. *)
Definition tools_checked (r : ResolvedRegistry) : Prop :=
  forall k t, tools r !! k = Some t -> validate_tool_semantics pattern_error t = Ok tt.

Lemma insert_block_tools r b ids r' ids' :
  tools_checked r -> insert_block pattern_error r b ids = Ok (r', ids') -> tools_checked r'.
Proof.
  intros Ht H. unfold insert_block in H. apply bind_Ok_inv in H as ([] & Hsem & H).
  destruct b as [b|b|b|b]; cbn in Hsem; apply bind_Ok_inv in H as ([blocks ids1] & Hins & [= <- <-]);
    try done.
  unfold insert_named_block in Hins. inv_ok. intros k t Hk. cbn in Hk.
  apply lookup_insert_Some in Hk as [[_ <-]|[_ Hk]]; [|by eapply Ht].
  by destruct (validate_tool_semantics pattern_error b) as [[]| |].
Qed.

Record build_ok (r : ResolvedRegistry) (ids : NameIds) : Prop := {
  bo_tools : maps_ok tool_identity (tools r) (names_of ids KindTool);
  bo_instructions : maps_ok instruction_identity (instructions r) (names_of ids KindInstruction);
  bo_phases : maps_ok phase_identity (phases r) (names_of ids KindPhase);
  bo_flows : maps_ok flow_identity (flows r) (names_of ids KindFlow);
  bo_phase : forall k p, phases r !! k = Some p ->
    validate_phase_semantics p = Ok tt /\ normal_strings (block_strings (RPhase p));
  bo_flow : forall k f, flows r !! k = Some f ->
    validate_flow_semantics f = Ok tt /\ normal_strings (block_strings (RFlow f));
}.

Lemma build_ok_empty : build_ok empty_registry ∅.
Proof. split; try (split; intros ? ?; unfold names_of; rewrite ?lookup_empty; done); done. Qed.

Lemma insert_block_ok r b ids r' ids' :
  build_ok r ids -> normal_strings (block_strings b) ->
  insert_block pattern_error r b ids = Ok (r', ids') -> build_ok r' ids'.
Proof.
  intros [Ht Hi Hp Hf Hps Hfs] Hn H.
  pose proof (proj1 (proj1 (Forall_cons _ _ _) Hn)) as Hname.
  unfold insert_block in H. apply bind_Ok_inv in H as ([] & Hsem & H).
  assert (validate_registry_block_semantics pattern_error b = Ok tt) as Hs
    by (by destruct (validate_registry_block_semantics pattern_error b) as [[]| |]).
  destruct b as [b|b|b|b]; cbn in Hname, Hs; apply bind_Ok_inv in H as ([blocks ids1] & Hins & [= <- <-]);
    apply insert_named_block_Ok in Hins as (Hm & -> & Ho); try done;
    (split; cbn; [rewrite ?Ho by done; done..| |]; cbn; try done).
  - intros k p Hk. apply lookup_insert_Some in Hk as [[_ <-]|[_ Hk]]; [done|by eapply Hps].
  - intros k f Hk. apply lookup_insert_Some in Hk as [[_ <-]|[_ Hk]]; [done|by eapply Hfs].
Qed.

Lemma insert_blocks_ok r ids blocks r' ids' :
  reads_normalized -> build_ok r ids ->
  insert_blocks pattern_error to_value of_str r ids blocks = Ok (r', ids') -> build_ok r' ids'.
Proof.
  intros Hc. revert r ids. induction blocks as [|b blocks IH]; intros r ids Hb; cbn.
  { by intros [= <- <-]. }
  intros (u & _ & H)%bind_Ok_inv. apply bind_Ok_inv in H as (b' & Hb' & H).
  apply bind_Ok_inv in H as (u' & _ & H). apply bind_Ok_inv in H as ([r1 ids1] & Hins & H).
  eapply IH; [|exact H]. eapply insert_block_ok; [exact Hb|by eapply canonicalize_normalizes|exact Hins].
Qed.

Lemma from_blocks_tools blocks r : from_blocks pattern_error to_value of_str blocks = Ok r -> tools_checked r.
Proof.
  intros H. unfold from_blocks in H. apply bind_Ok_inv in H as ([r0 ids] & Hb & H).
  apply bind_Ok_inv in H as (u & _ & [= <-]).
  assert (forall r0 ids0 r1 ids1, tools_checked r0 ->
    insert_blocks pattern_error to_value of_str r0 ids0 blocks = Ok (r1, ids1) -> tools_checked r1) as Hall.
  { clear. induction blocks as [|b blocks IH]; intros r0 ids0 r1 ids1 Ht; cbn; [by intros [= <- <-]|].
    intros (u & _ & H)%bind_Ok_inv. apply bind_Ok_inv in H as (b' & Hb' & H).
    apply bind_Ok_inv in H as (u' & _ & H). apply bind_Ok_inv in H as ([r2 ids2] & Hins & H).
    eapply IH; [|exact H]. by eapply insert_block_tools. }
  assert (tools_checked r0) as Ht; [|exact Ht]. eapply Hall; [|exact Hb]. intros k t Hk. done.
Qed.
End build.

(** * References *)

Lemma contract_eqb_eq a b : contract_eqb a b = true -> a = b.
Proof.
  revert b. induction a as [| |min max|max|items max IH|fields IH] using ValueContract_ind';
    intros [|min' max'|max'|items' max'|fields'|]; cbn; try done.
  - by intros [->%bool_decide_eq_true ->%bool_decide_eq_true]%andb_true_iff.
  - by intros ->%bool_decide_eq_true.
  - by intros [->%IH ->%bool_decide_eq_true]%andb_true_iff.
  - intros H. f_equal. revert fields' H. induction IH as [|[n q c] fields Hc _ IHf]; intros [|[n' q' c'] fields'];
      try done.
    cbn in Hc.
    intros [[[->%String.eqb_eq ->%eqb_prop]%andb_true_iff Hcc%Hc]%andb_true_iff H]%andb_true_iff.
    subst c'. f_equal. by apply IHf.
Qed.

Section references.
Context {J : JsonEnv}.
Context (r : ResolvedRegistry) (Hr : build_ok r (name_ids r)).

Abbreviation canon kind := (canonicalize_reference (name_ids r) kind).

Lemma require_phase_Ok ref from_kind from_id p :
  nfc ref = ref -> require_phase r ref from_kind from_id = Ok p ->
  canon KindPhase ref = id (phase_identity p) /\ phases r !! id (phase_identity p) = Some p.
Proof.
  intros Hn H%ok_or_Ok_inv. eapply named_block_canonical; [apply (bo_phases _ _ Hr)|done|done].
Qed.

(** ** Positions *)

Lemma phase_positions_loop_Ok refs index positions from_kind from_id positions' :
  normal_strings refs ->
  phase_positions_loop r refs index positions from_kind from_id = Ok positions' ->
  (forall ref, ref ∈ refs -> exists p, phases r !! canon KindPhase ref = Some p /\
     require_phase r ref from_kind from_id = Ok p) /\
  NoDup (canon KindPhase <$> refs) /\
  (forall x, x ∈ canon KindPhase <$> refs -> positions !! x = None) /\
  (forall x i, positions' !! x = Some i <->
     positions !! x = Some i \/ (index <= i)%nat /\ (canon KindPhase <$> refs) !! (i - index)%nat = Some x).
Proof.
  revert index positions. induction refs as [|ref refs IH]; intros index positions Hn; cbn.
  { intros [= <-]. split_and!; [by intros ? ?%elem_of_nil|constructor|by intros ? ?%elem_of_nil|].
    intros x i. rewrite lookup_nil. naive_solver. }
  apply Forall_cons in Hn as [Hnr Hn].
  intros (p & Hp & H)%bind_Ok_inv. inv_ok. apply is_some_false in Hb.
  destruct (require_phase_Ok _ _ _ _ Hnr Hp) as [Hc Hl].
  apply IH in H as (Hres & Hnd & Hfresh & Hpos); [|done]. split_and!.
  - intros x [->|Hx]%elem_of_cons; [|by apply Hres]. exists p. by rewrite Hc.
  - constructor; [|done]. rewrite Hc. intros Hin. apply Hfresh in Hin.
    by rewrite lookup_insert_eq in Hin.
  - intros x [->|Hx]%elem_of_cons; [by rewrite Hc|]. apply Hfresh in Hx as Hx'.
    by apply lookup_insert_None in Hx' as [? _].
  - intros x i. rewrite Hpos, lookup_insert_Some, Hc. split.
    + intros [[[<- <-]|[_ ?]]|[? ?]]; [right|by left|right].
      * split; [lia|]. by rewrite Nat.sub_diag.
      * split; [lia|]. by replace (i - index)%nat with (S (i - S index)) by lia.
    + intros [Hx|[Hi Hx]].
      * left. right. split; [|done]. intros E. subst x. congruence.
      * destruct (decide (i = index)) as [->|Hne].
        -- rewrite Nat.sub_diag in Hx. injection Hx as <-. by left; left.
        -- right. split; [lia|]. by replace (i - index)%nat with (S (i - S index)) in Hx by lia.
Qed.

Lemma phase_positions_Ok refs from_kind from_id positions :
  normal_strings refs -> phase_positions r refs from_kind from_id = Ok positions ->
  (forall ref, ref ∈ refs -> exists p, phases r !! canon KindPhase ref = Some p /\
     require_phase r ref from_kind from_id = Ok p) /\
  NoDup (canon KindPhase <$> refs) /\
  (forall x i, positions !! x = Some i <-> (canon KindPhase <$> refs) !! i = Some x).
Proof.
  intros Hn H%phase_positions_loop_Ok; [|done]. destruct H as (Hres & Hnd & _ & Hpos).
  split_and!; [done..|]. intros x i. rewrite Hpos, lookup_empty, Nat.sub_0_r.
  split; [by intros [|[_ ?]]|]. intros ?. right. split; [lia|done].
Qed.

(** ** Transitions *)

Lemma transitions_Ok (refs : list string) transitions (positions : gmap string nat) from_kind from_id :
  normal_strings (from_phase_ref <$> transitions) -> normal_strings (to_phase_ref <$> transitions) ->
  (forall x i, positions !! x = Some i <-> (canon KindPhase <$> refs) !! i = Some x) ->
  validate_transitions r transitions positions from_kind from_id = Ok tt ->
  forall t, t ∈ transitions -> exists i j source,
    (canon KindPhase <$> refs) !! i = Some (canon KindPhase (from_phase_ref t)) /\
    (canon KindPhase <$> refs) !! j = Some (canon KindPhase (to_phase_ref t)) /\ (i < j)%nat /\
    phases r !! canon KindPhase (from_phase_ref t) = Some source /\
    checked_predicate (when t) (phase_output source).
Proof.
  intros Hnf Hnt Hpos H t Ht. unfold validate_transitions in H.
  rewrite try_for_each_Ok, Forall_forall in H. specialize (H t Ht).
  unfold normal_strings in Hnf, Hnt. rewrite Forall_fmap, Forall_forall in Hnf, Hnt.
  specialize (Hnf t Ht). specialize (Hnt t Ht). cbn in Hnf, Hnt.
  unfold validate_transition in H. apply bind_Ok_inv in H as (source & Hs & H).
  apply bind_Ok_inv in H as (target & Htg & H).
  apply bind_Ok_inv in H as (i & Hi%ok_or_Ok_inv & H). apply bind_Ok_inv in H as (j & Hj%ok_or_Ok_inv & H).
  destruct (require_phase_Ok _ _ _ _ Hnf Hs) as [Hcs Hls].
  destruct (require_phase_Ok _ _ _ _ Hnt Htg) as [Hct _].
  destruct (Nat.leb_spec j i) as [|Hij]; [done|].
  exists i, j, source. rewrite Hcs, Hct. split_and!; [by apply Hpos..|done|done|].
  unfold checked_predicate. by destruct (validate_predicate_against_contract _ _) as [[]| |].
Qed.

(** ** Other references *)

Lemma distinct_references_Ok {T} (require : string -> result RegistryError T) id_of kind from_id refs ids :
  distinct_references require id_of kind from_id refs ids = Ok tt ->
  forall ref, ref ∈ refs -> exists b, require ref = Ok b.
Proof.
  revert ids. induction refs as [|x refs IH]; intros ids; cbn; [by intros _ ref ?%elem_of_nil|].
  intros (b & Hx & H)%bind_Ok_inv. destruct (decide _); [done|].
  intros ref [->|Hin]%elem_of_cons; [by exists b|by eapply IH].
Qed.

(** The registry with canonical references. *)
Abbreviation rc := (with_canonical_references r).

Lemma rc_phases k p : phases r !! k = Some p -> phases rc !! k = Some (canonical_phase (name_ids r) p).
Proof. intros H. cbn. by rewrite lookup_fmap, H. Qed.

Lemma canonical_sequence (refs : list string) transitions result_from positions from_kind from_id :
  normal_strings refs ->
  normal_strings (from_phase_ref <$> transitions) -> normal_strings (to_phase_ref <$> transitions) ->
  phase_positions r refs from_kind from_id = Ok positions ->
  validate_transitions r transitions positions from_kind from_id = Ok tt ->
  (forall f, result_from = Some f -> canon KindPhase f ∈ canon KindPhase <$> refs) ->
  sequence_ok rc (canon KindPhase <$> refs)
    (canonicalize_transition_references (name_ids r) <$> transitions) (canon KindPhase <$> result_from).
Proof.
  intros Hn Hnf Hnt Hp Ht Hres. apply phase_positions_Ok in Hp as (Hrefs & Hnd & Hpos); [|done].
  split.
  - intros ref (x & -> & Hx)%list_elem_of_fmap. destruct (Hrefs x Hx) as (p & Hl & _).
    eexists. split; [by apply rc_phases|]. cbn. by apply (mo_keyed _ _ _ (bo_phases _ _ Hr)).
  - done.
  - intros t' (t & -> & Hin)%list_elem_of_fmap.
    destruct (transitions_Ok refs transitions positions from_kind from_id Hnf Hnt Hpos Ht t Hin)
      as (i & j & source & Hi & Hj & Hij & Hs & Hc).
    exists i, j, (canonical_phase (name_ids r) source). cbn [from_phase_ref to_phase_ref when canonicalize_transition_references].
    split_and!; [done..|by apply rc_phases|done].
  - intros f' (f & -> & ->)%fmap_Some. by apply Hres.
Qed.

Lemma normal_app a b : normal_strings (a ++ b) <-> normal_strings a /\ normal_strings b.
Proof. apply Forall_app. Qed.

Lemma phase_semantics_Ok p :
  validate_phase_semantics p = Ok tt ->
  (contract_depth (phase_output p) <= 16 /\ contract_shape (phase_output p)) /\
  (forall l, phase_loop p = Some l ->
    1 <= loop_max_iterations l <= 32 /\ checked_predicate (loop_until l) (phase_output p)) /\
  (phase_phase_refs p <> [] -> is_Some (phase_result_from p)).
Proof using Type.
  clear Hr. unfold validate_phase_semantics. intros H.
  apply bind_Ok_inv in H as ([] & Hout & H). apply bind_Ok_inv in H as ([] & Hloop & H).
  apply bind_Ok_inv in H as ([] & Hcomp & _). split_and!.
  1,2: destruct (validate_value_contract_definition (phase_output p)) as [[]| |] eqn:E; try done;
    by apply contract_definition_Ok in E as [? ?].
  - intros l E. rewrite E in Hloop. inv_ok. rewrite negb_false_iff, andb_true_iff in Hb.
    unfold MAX_PHASE_LOOP_ITERATIONS in Hb. split; [lia|]. unfold checked_predicate.
    by destruct (validate_predicate_against_contract _ _) as [[]| |].
  - intros Hne. rewrite bool_decide_eq_false_2 in Hcomp by done. inv_ok.
    by destruct (phase_result_from p).
Qed.

Lemma phase_references_ok p k :
  phases r !! k = Some p -> validate_phase_references r p = Ok tt ->
  phase_ok rc (canonical_phase (name_ids r) p).
Proof.
  intros Hk H. destruct (bo_phase _ _ Hr k p Hk) as [Hsem Hn].
  apply phase_semantics_Ok in Hsem as (Hout & Hloop & Hcomp).
  cbn in Hn. unfold normal_strings in Hn. apply Forall_cons in Hn as [_ Hn].
  rewrite !Forall_app in Hn. destruct Hn as (Hni & Hnt & Hnp & Hnr & Hnf & Hnto).
  unfold validate_phase_references in H.
  apply bind_Ok_inv in H as ([] & Hi & H). apply bind_Ok_inv in H as ([] & Ht & H).
  apply bind_Ok_inv in H as (positions & Hpos & H). apply bind_Ok_inv in H as ([] & Hres & Htr).
  pose proof (phase_positions_Ok _ _ _ _ Hnp Hpos) as (Hrefs & Hnd & Hp).
  assert (forall f, phase_result_from p = Some f -> exists child,
    canon KindPhase f = id (phase_identity child) /\ phases r !! id (phase_identity child) = Some child /\
    id (phase_identity child) ∈ canon KindPhase <$> phase_phase_refs p /\
    phase_output child = phase_output p) as Hresult.
  { intros f Ef. rewrite Ef in Hres, Hnr. apply Forall_cons in Hnr as [Hnf' _].
    apply bind_Ok_inv in Hres as (child & Hc & Hres). inv_ok.
    destruct (require_phase_Ok _ _ _ _ Hnf' Hc) as [Ec El]. exists child. split_and!; [done..| |].
    - rewrite negb_false_iff in Hb. destruct (positions !! id (phase_identity child)) as [i|] eqn:Ei; [|done].
      apply Hp in Ei. by eapply list_elem_of_lookup_2.
    - rewrite negb_false_iff in Hb0. symmetry. by apply contract_eqb_eq. }
  split; cbn.
  - eapply canonical_sequence; try done. intros f Ef. destruct (Hresult f Ef) as (child & -> & _ & ? & _). done.
  - done.
  - done.
  - intros ref (x & -> & Hx)%list_elem_of_fmap.
    destruct (distinct_references_Ok _ _ _ _ _ _ Hi x Hx) as [b Hb%ok_or_Ok_inv].
    rewrite Forall_forall in Hni. specialize (Hni x Hx).
    destruct (named_block_canonical _ _ _ _ _ _ (bo_instructions _ _ Hr) Hni Hb) as [-> ->]. done.
  - intros ref (x & -> & Hx)%list_elem_of_fmap.
    destruct (distinct_references_Ok _ _ _ _ _ _ Ht x Hx) as [b Hb%ok_or_Ok_inv].
    rewrite Forall_forall in Hnt. specialize (Hnt x Hx).
    destruct (named_block_canonical _ _ _ _ _ _ (bo_tools _ _ Hr) Hnt Hb) as [-> ->]. done.
  - intros Hne. rewrite fmap_is_Some. apply Hcomp. intros E. by rewrite E in Hne.
  - intros f' child' (f & Ef & ->)%fmap_Some Hc'. destruct (Hresult f Ef) as (child & E & El & _ & <-).
    rewrite E, lookup_fmap, El in Hc'. by injection Hc' as <-.
Qed.

Lemma flow_references_ok f k :
  flows r !! k = Some f -> validate_flow_references r f = Ok tt ->
  flow_ok rc (canonical_flow (name_ids r) f).
Proof.
  intros Hk H. destruct (bo_flow _ _ Hr k f Hk) as [Hsem Hn].
  cbn in Hn. unfold normal_strings in Hn. apply Forall_cons in Hn as [_ Hn].
  rewrite !Forall_app in Hn. destruct Hn as (Hnp & Hns & Hnf & Hnto).
  unfold validate_flow_semantics in Hsem. inv_ok. apply bool_decide_eq_false in Hb.
  unfold validate_flow_references in H.
  apply bind_Ok_inv in H as (positions & Hpos & H). apply bind_Ok_inv in H as ([] & Hsub & Htr).
  split; cbn.
  - change None with (canon KindPhase <$> (None : option string)). by eapply canonical_sequence.
  - by destruct (flow_phase_refs f).
  - intros ref (x & -> & Hx)%list_elem_of_fmap. rewrite try_for_each_Ok, Forall_forall in Hsub.
    specialize (Hsub x Hx). apply bind_Ok_inv in Hsub as (b & Hb'%ok_or_Ok_inv & _).
    rewrite Forall_forall in Hns. specialize (Hns x Hx).
    destruct (named_block_canonical _ _ _ _ _ _ (bo_flows _ _ Hr) Hns Hb') as [-> Hl].
    by rewrite lookup_fmap, Hl.
Qed.
End references.

(** * Nesting *)

Lemma elem_of_keys {T} (m : gmap string T) k : k ∈ keys m <-> is_Some (m !! k).
Proof.
  unfold keys. rewrite list_elem_of_fmap. split.
  - intros ([x v] & -> & H%elem_of_map_iter). by exists v.
  - intros [v H]. exists (k, v). split; [done|]. by apply elem_of_map_iter.
Qed.

Lemma elem_of_values {T} (m : gmap string T) k v : m !! k = Some v -> v ∈ (map_iter str_cmp m).*2.
Proof. intros H. apply list_elem_of_fmap. exists (k, v). split; [done|]. by apply elem_of_map_iter. Qed.

Section nested.
Context {J : JsonEnv}.
Context (r : ResolvedRegistry) (Hr : build_ok r (name_ids r)).
Context (Hphases : forall k p, phases r !! k = Some p -> validate_phase_references r p = Ok tt).
Context (Hflows : forall k f, flows r !! k = Some f -> validate_flow_references r f = Ok tt).

(** The references of a Phase to its children, and of a Flow to its Subflows, resolve. *)
Lemma child_phase_resolves k p ref from_kind from_id :
  phases r !! k = Some p -> ref ∈ phase_phase_refs p ->
  exists q, require_phase r ref from_kind from_id = Ok q /\
    canonicalize_reference (name_ids r) KindPhase ref = id (phase_identity q) /\
    phases r !! id (phase_identity q) = Some q.
Proof using Hr Hphases.
  intros Hk Hin. destruct (bo_phase _ _ Hr k p Hk) as [_ Hn].
  cbn in Hn. unfold normal_strings in Hn. apply Forall_cons in Hn as [_ Hn].
  rewrite !Forall_app in Hn. destruct Hn as (_ & _ & Hnp & _).
  pose proof (Hphases k p Hk) as H. unfold validate_phase_references in H.
  apply bind_Ok_inv in H as (_ & _ & H). apply bind_Ok_inv in H as (_ & _ & H).
  apply bind_Ok_inv in H as (positions & Hpos & _).
  destruct (phase_positions_Ok _ Hr _ _ _ _ Hnp Hpos) as (Hrefs & _ & _).
  destruct (Hrefs ref Hin) as (q & _ & Hq). exists q. rewrite Forall_forall in Hnp. split.
  - unfold require_phase, require_block in *. apply ok_or_Ok_inv in Hq. by rewrite Hq.
  - by eapply require_phase_Ok; [exact Hr|apply Hnp|exact Hq].
Qed.

Lemma subflow_resolves k f ref from_kind from_id :
  flows r !! k = Some f -> ref ∈ flow_subflow_refs f ->
  exists g, require_flow r ref from_kind from_id = Ok g /\
    canonicalize_reference (name_ids r) KindFlow ref = id (flow_identity g) /\
    flows r !! id (flow_identity g) = Some g.
Proof using Hr Hflows.
  intros Hk Hin. destruct (bo_flow _ _ Hr k f Hk) as [_ Hn].
  cbn in Hn. unfold normal_strings in Hn. apply Forall_cons in Hn as [_ Hn].
  rewrite !Forall_app in Hn. destruct Hn as (_ & Hns & _).
  pose proof (Hflows k f Hk) as H. unfold validate_flow_references in H.
  apply bind_Ok_inv in H as (? & ? & H). apply bind_Ok_inv in H as ([] & Hsub & _).
  rewrite try_for_each_Ok, Forall_forall in Hsub. specialize (Hsub ref Hin).
  apply bind_Ok_inv in Hsub as (g & Hg & _). exists g. rewrite Forall_forall in Hns.
  apply ok_or_Ok_inv in Hg. split.
  - unfold require_flow, require_block. by rewrite Hg.
  - by eapply named_block_canonical; [apply (bo_flows _ _ Hr)|apply Hns|exact Hg].
Qed.

Lemma phase_block_id k p : phases r !! k = Some p -> phase_block r k = Some p.
Proof using Type. clear. intros H. unfold phase_block, named_block. by rewrite H. Qed.

Lemma flow_block_id k f : flows r !! k = Some f -> flow_block r k = Some f.
Proof using Type. clear. intros H. unfold flow_block, named_block. by rewrite H. Qed.

Lemma resolve_phase_id k p from : phases r !! k = Some p ->
  resolve (phase_nesting r) k from = Ok (k, phase_phase_refs p).
Proof using Hr.
  intros H. cbn. unfold require_phase, require_block. rewrite (phase_block_id _ _ H). cbn.
  by rewrite (mo_keyed _ _ _ (bo_phases _ _ Hr) _ _ H).
Qed.

Lemma resolve_flow_id k f from : flows r !! k = Some f ->
  resolve (flow_nesting r) k from = Ok (k, flow_subflow_refs f).
Proof using Hr.
  intros H. cbn. unfold require_flow, require_block. rewrite (flow_block_id _ _ H). cbn.
  by rewrite (mo_keyed _ _ _ (bo_flows _ _ Hr) _ _ H).
Qed.

Lemma phase_graph_ok : graph_ok (phase_nesting r) (keys (phases r)).
Proof using Hr Hphases.
  split.
  - intros b [p Hb]%elem_of_keys. eexists. by apply resolve_phase_id.
  - intros b refs ref [p Hb]%elem_of_keys Hres Hin. rewrite (resolve_phase_id _ _ _ Hb) in Hres.
    injection Hres as <-. destruct (child_phase_resolves _ _ _ KindPhase b Hb Hin) as (q & Hq & _ & Hl).
    exists (id (phase_identity q)), (phase_phase_refs q). cbn. rewrite Hq. split; [done|].
    by apply elem_of_keys.
Qed.

Lemma flow_graph_ok : graph_ok (flow_nesting r) (keys (flows r)).
Proof using Hr Hflows.
  split.
  - intros b [p Hb]%elem_of_keys. eexists. by apply resolve_flow_id.
  - intros b refs ref [p Hb]%elem_of_keys Hres Hin. rewrite (resolve_flow_id _ _ _ Hb) in Hres.
    injection Hres as <-. destruct (subflow_resolves _ _ _ KindFlow b Hb Hin) as (q & Hq & _ & Hl).
    exists (id (flow_identity q)), (flow_subflow_refs q). cbn. rewrite Hq. split; [done|].
    by apply elem_of_keys.
Qed.

(** The chains of the registry with canonical references are those the check walks. *)
Lemma phase_chain_canonical k n :
  phase_chain (with_canonical_references r) k n <-> chain (phase_nesting r) (keys (phases r)) k n.
Proof using Hr Hphases.
  split.
  - induction 1 as [k p' Hk|k p' c n Hk Hc _ IH]; cbn in Hk; rewrite lookup_fmap in Hk;
      apply fmap_Some in Hk as (p & Hk & ->); [constructor; by apply elem_of_keys|].
    cbn in Hc. apply list_elem_of_fmap in Hc as (ref & -> & Hin).
    destruct (child_phase_resolves _ _ _ KindPhase k Hk Hin) as (q & Hq & Hcan & Hl). rewrite Hcan in *.
    eapply chain_more; [by apply elem_of_keys| |done].
    exists (phase_phase_refs p), ref, (phase_phase_refs q).
    split_and!; [by apply resolve_phase_id|done|cbn; by rewrite Hq].
  - induction 1 as [k [p Hk]%elem_of_keys|k c n [p Hk]%elem_of_keys Hc _ IH].
    { eapply phase_chain_one. cbn. by rewrite lookup_fmap, Hk. }
    destruct Hc as (refs & ref & crefs & Hres & Hin & Hcr). rewrite (resolve_phase_id _ _ _ Hk) in Hres.
    injection Hres as <-. destruct (child_phase_resolves _ _ _ KindPhase k Hk Hin) as (q & Hq & Hcan & Hl).
    cbn in Hcr. rewrite Hq in Hcr. injection Hcr as <- <-.
    eapply phase_chain_more; [cbn; by rewrite lookup_fmap, Hk| |done].
    cbn. apply list_elem_of_fmap. by exists ref.
Qed.

Lemma flow_chain_canonical k n :
  flow_chain (with_canonical_references r) k n <-> chain (flow_nesting r) (keys (flows r)) k n.
Proof using Hr Hflows.
  split.
  - induction 1 as [k p' Hk|k p' c n Hk Hc _ IH]; cbn in Hk; rewrite lookup_fmap in Hk;
      apply fmap_Some in Hk as (p & Hk & ->); [constructor; by apply elem_of_keys|].
    cbn in Hc. apply list_elem_of_fmap in Hc as (ref & -> & Hin).
    destruct (subflow_resolves _ _ _ KindFlow k Hk Hin) as (q & Hq & Hcan & Hl). rewrite Hcan in *.
    eapply chain_more; [by apply elem_of_keys| |done].
    exists (flow_subflow_refs p), ref, (flow_subflow_refs q).
    split_and!; [by apply resolve_flow_id|done|cbn; by rewrite Hq].
  - induction 1 as [k [p Hk]%elem_of_keys|k c n [p Hk]%elem_of_keys Hc _ IH].
    { eapply flow_chain_one. cbn. by rewrite lookup_fmap, Hk. }
    destruct Hc as (refs & ref & crefs & Hres & Hin & Hcr). rewrite (resolve_flow_id _ _ _ Hk) in Hres.
    injection Hres as <-. destruct (subflow_resolves _ _ _ KindFlow k Hk Hin) as (q & Hq & Hcan & Hl).
    cbn in Hcr. rewrite Hq in Hcr. injection Hcr as <- <-.
    eapply flow_chain_more; [cbn; by rewrite lookup_fmap, Hk| |done].
    cbn. apply list_elem_of_fmap. by exists ref.
Qed.
End nested.

(** * Resolution *)

Lemma with_names_build_ok {J : JsonEnv} r ids : build_ok r ids -> build_ok (with_names r ids) ids.
Proof. by intros [? ? ? ? ? ?]. Qed.

Section resolution.
Context {J : JsonEnv}.
Context (r : ResolvedRegistry) (Hr : build_ok r (name_ids r)).

Lemma validate_references_Ok :
  validate_references r = Ok tt <->
  (forall k p, phases r !! k = Some p -> validate_phase_references r p = Ok tt) /\
  (forall k f, flows r !! k = Some f -> validate_flow_references r f = Ok tt) /\
  validate_phase_cycles r = Ok tt /\ validate_flow_cycles r = Ok tt.
Proof using Type.
  clear. assert (forall T (m : gmap string T) (f : T -> result RegistryError unit),
    try_for_each f (map_iter str_cmp m).*2 = Ok tt <-> forall k v, m !! k = Some v -> f v = Ok tt) as Hall.
  { intros T m f. rewrite try_for_each_Ok, Forall_forall. split.
    - intros H k v Hk. eapply H, elem_of_values, Hk.
    - intros H v ([k v'] & -> & Hin%elem_of_map_iter)%list_elem_of_fmap. by eapply H. }
  unfold validate_references. rewrite <- !Hall. split.
  - intros ([] & H1 & H)%bind_Ok_inv. apply bind_Ok_inv in H as ([] & H2 & H).
    apply bind_Ok_inv in H as ([] & H3 & H4). split_and!; assumption.
  - intros (H1 & H2 & H3 & H4). rewrite H1. cbn [mbind result_bind]. rewrite H2.
    cbn [mbind result_bind]. rewrite H3. exact H4.
Qed.

Lemma validate_references_registry_ok :
  validate_references r = Ok tt -> registry_ok (with_canonical_references r).
Proof using Hr.
  intros (Hp & Hf & Hpc & Hfc)%validate_references_Ok.
  apply (validate_cycles_exact _ _ (phase_graph_ok r Hr Hp)) in Hpc as [Hpb _]; [|done].
  apply (validate_cycles_exact _ _ (flow_graph_ok r Hr Hf)) in Hfc as [Hfb _]; [|done].
  split.
  - intros k p' Hk. cbn in Hk. rewrite lookup_fmap in Hk. apply fmap_Some in Hk as (p & Hk & ->).
    cbn. by apply (mo_keyed _ _ _ (bo_phases _ _ Hr)).
  - intros k f' Hk. cbn in Hk. rewrite lookup_fmap in Hk. apply fmap_Some in Hk as (f & Hk & ->).
    cbn. by apply (mo_keyed _ _ _ (bo_flows _ _ Hr)).
  - apply (mo_keyed _ _ _ (bo_tools _ _ Hr)).
  - apply (mo_keyed _ _ _ (bo_instructions _ _ Hr)).
  - intros k p' Hk. cbn in Hk. rewrite lookup_fmap in Hk. apply fmap_Some in Hk as (p & Hk & ->).
    eapply phase_references_ok; [done|exact Hk|by eapply Hp].
  - intros k f' Hk. cbn in Hk. rewrite lookup_fmap in Hk. apply fmap_Some in Hk as (f & Hk & ->).
    eapply flow_references_ok; [done|exact Hk|by eapply Hf].
  - intros k n Hn. eapply Hpb. by apply phase_chain_canonical in Hn.
  - intros k n Hn. eapply Hfb. by apply flow_chain_canonical in Hn.
Qed.
End resolution.

Lemma from_blocks_registry_ok {J : JsonEnv} (pattern_error : string -> option string)
    (to_value : RegistryBlock -> result string Value)
    (of_str : string -> result string RegistryBlock)
    (blocks : list RegistryBlock) (r : ResolvedRegistry) :
  reads_normalized of_str ->
  from_blocks pattern_error to_value of_str blocks = Ok r -> registry_ok r.
Proof.
  intros Hc H. unfold from_blocks in H. apply bind_Ok_inv in H as ([r0 ids] & Hb & H).
  apply bind_Ok_inv in H as ([] & Hv & [= <-]).
  apply validate_references_registry_ok; [|done].
  apply with_names_build_ok. eapply insert_blocks_ok; [exact Hc|apply build_ok_empty|exact Hb].
Qed.

(** C3: A registry that resolves is well formed: every Phase and Flow is keyed by its id; every
    reference in it is the id of a block it holds; sibling Phases are distinct and transitions
    lead from an earlier sibling to a later one, with a predicate that fits the source's output
    contract; a composite Phase names one of its children as the source of its result and has
    that child's contract; loops run between 1 and 32 times; and no chain of nested Phases or of
    nested Flows is longer than 16 (in particular there is no cycle). *)
Theorem from_blocks_ok {J : JsonEnv} (pattern_error : string -> option string)
    (to_value : RegistryBlock -> result string Value)
    (of_str : string -> result string RegistryBlock)
    (blocks : list RegistryBlock) (r : ResolvedRegistry) :
  reads_normalized of_str ->
  from_blocks pattern_error to_value of_str blocks = Ok r -> registry_ok r.
Proof. apply from_blocks_registry_ok. Qed.

(** C40: The nesting check is exact.  On a registry whose names and references are sound, it accepts
    exactly when no chain of nested Phases is longer than 16 and no Phase has more than 32
    children; a cycle is a chain without end, so it is refused. *)
Theorem validate_phase_cycles_exact {J : JsonEnv} (r : ResolvedRegistry) :
  build_ok r (name_ids r) ->
  (forall k p, phases r !! k = Some p -> validate_phase_references r p = Ok tt) ->
  validate_phase_cycles r = Ok tt <->
  (forall k n, phase_chain (with_canonical_references r) k n -> n <= 16) /\
  (forall k p, phases r !! k = Some p -> len (phase_phase_refs p) <= 32).
Proof.
  intros Hr Hp. unfold validate_phase_cycles.
  rewrite (validate_cycles_exact _ _ (phase_graph_ok r Hr Hp)) by done. apply Morphisms_Prop.and_iff_morphism.
  - split; intros H k n Hk; eapply H; by apply phase_chain_canonical.
  - split.
    + intros H k p Hk. eapply H; [by apply elem_of_keys|by apply resolve_phase_id].
    + intros H k refs [p Hk]%elem_of_keys Hres. rewrite (resolve_phase_id _ Hr _ _ _ Hk) in Hres.
      injection Hres as <-. by eapply H.
Qed.

(** * Lookup *)

Section lookup.
Context {J : JsonEnv}.
Context (pattern_error : string -> option string).
Context (to_value : RegistryBlock -> result string Value).
Context (of_str : string -> result string RegistryBlock).

(** A block is held under its id, and its name leads to that id. *)
Definition held {T} (identity : T -> BlockIdentity) (blocks : gmap string T) (names : gmap string string)
    (b : T) : Prop :=
  blocks !! id (identity b) = Some b /\ names !! name (identity b) = Some (id (identity b)).

Definition block_held (r : ResolvedRegistry) (ids : NameIds) (b : RegistryBlock) : Prop :=
  match b with
  | RTool b => held tool_identity (tools r) (names_of ids KindTool) b
  | RInstruction b => held instruction_identity (instructions r) (names_of ids KindInstruction) b
  | RPhase b => held phase_identity (phases r) (names_of ids KindPhase) b
  | RFlow b => held flow_identity (flows r) (names_of ids KindFlow) b
  end.

Lemma insert_named_block_held {T} (identity : T -> BlockIdentity) kind b blocks ids blocks' ids' :
  nfc (name (identity b)) = name (identity b) ->
  insert_named_block kind (identity b) blocks ids b = Ok (blocks', ids') ->
  held identity blocks' (names_of ids' kind) b /\
  (forall c, held identity blocks (names_of ids kind) c -> held identity blocks' (names_of ids' kind) c) /\
  forall kind', kind' <> kind -> names_of ids' kind' = names_of ids kind'.
Proof using Type.
  clear. intros Hnfc H. unfold insert_named_block in H. inv_ok.
  repeat match goal with Hs : is_some _ = false |- _ => apply is_some_false in Hs end.
  unfold normalize_string in *. rewrite Hnfc in *.
  assert (names_of (<[kind := <[name (identity b) := id (identity b)]> (names_of ids kind)]> ids) kind
    = <[name (identity b) := id (identity b)]> (names_of ids kind)) as E
    by (unfold names_of at 1; by rewrite lookup_insert_eq).
  rewrite E. unfold held. split_and!.
  - by rewrite lookup_insert_eq.
  - by rewrite lookup_insert_eq.
  - intros c [Hc Hn]. split; rewrite lookup_insert_ne; congruence.
  - intros kind' Hne. unfold names_of. by rewrite lookup_insert_ne.
Qed.

Lemma insert_block_held r b ids r' ids' :
  nfc (name (kind_and_identity b).2) = name (kind_and_identity b).2 ->
  insert_block pattern_error r b ids = Ok (r', ids') ->
  block_held r' ids' b /\ forall c, block_held r ids c -> block_held r' ids' c.
Proof.
  intros Hn H. unfold insert_block in H. apply bind_Ok_inv in H as (u & _ & H).
  destruct b; cbn in Hn; apply bind_Ok_inv in H as ([blocks ids1] & Hins & [= <- <-]);
    apply insert_named_block_held in Hins as (Hb & Hc & Ho); try done; (split; [done|]);
    intros [c|c|c|c]; cbn; rewrite ?Ho by done; auto.
Qed.

Lemma insert_blocks_held r ids blocks r' ids' :
  reads_normalized of_str ->
  insert_blocks pattern_error to_value of_str r ids blocks = Ok (r', ids') ->
  (forall b b', b ∈ blocks -> canonicalize_registry_block to_value of_str b = Ok b' -> block_held r' ids' b') /\
  forall c, block_held r ids c -> block_held r' ids' c.
Proof.
  intros Hc. revert r ids. induction blocks as [|b blocks IH]; intros r ids; cbn.
  { intros [= <- <-]. split; [by intros b b' ?%elem_of_nil|done]. }
  intros (u & _ & H)%bind_Ok_inv. apply bind_Ok_inv in H as (b' & Hb' & H).
  apply bind_Ok_inv in H as (u' & _ & H). apply bind_Ok_inv in H as ([r1 ids1] & Hins & H).
  pose proof (canonicalize_normalizes _ _ _ _ Hc Hb') as Hn. apply Forall_cons in Hn as [Hn _].
  apply insert_block_held in Hins as [Hb1 Hk1]; [|done]. apply IH in H as [Hb2 Hk2]. split.
  - intros a a' [->|Ha]%elem_of_cons Haa; [|by eapply Hb2].
    rewrite Hb' in Haa. injection Haa as <-. auto.
  - auto.
Qed.

Lemma held_named {T} (identity : T -> BlockIdentity) blocks names b :
  maps_ok identity blocks names -> held identity blocks names b ->
  blocks !! name (identity b) = None \/ blocks !! name (identity b) = Some b.
Proof using Type.
  clear. intros [_ _ Hu] [Hb Hn]. destruct (blocks !! name (identity b)) as [x|] eqn:E; [right|by left].
  assert (id (identity b) = name (identity b)) as Hi by (eapply Hu; [done|by exists x]).
  congruence.
Qed.

Lemma held_lookup {T} (identity : T -> BlockIdentity) (f : T -> T) ids kind blocks b :
  nfc (name (identity b)) = name (identity b) ->
  maps_ok identity blocks (names_of ids kind) -> held identity blocks (names_of ids kind) b ->
  named_block ids kind (id (identity b)) (f <$> blocks) = Some (f b) /\
  named_block ids kind (name (identity b)) (f <$> blocks) = Some (f b).
Proof using Type.
  clear. intros Hnfc Hm Hh. pose proof Hh as [Hb Hn]. unfold named_block, normalize_string. split.
  - by rewrite lookup_fmap, Hb.
  - rewrite lookup_fmap. destruct (held_named _ _ _ _ Hm Hh) as [-> | ->]; cbn; [|done].
    rewrite Hnfc, Hn. cbn. by rewrite lookup_fmap, Hb.
Qed.
End lookup.

(** What was put in is found again: each block given to a registry that resolves can be looked
    up by its id and by its name, and both lookups give that block, with canonical references. *)
Theorem from_blocks_lookup {J : JsonEnv} (pattern_error : string -> option string)
    (to_value : RegistryBlock -> result string Value)
    (of_str : string -> result string RegistryBlock)
    (blocks : list RegistryBlock) (r : ResolvedRegistry) (b b' : RegistryBlock) :
  reads_normalized of_str ->
  from_blocks pattern_error to_value of_str blocks = Ok r -> b ∈ blocks ->
  canonicalize_registry_block to_value of_str b = Ok b' ->
  forall reference, reference = id (kind_and_identity b').2 \/ reference = name (kind_and_identity b').2 ->
  match b' with
  | RTool t => tool_block r reference = Some t
  | RInstruction i => instruction_block r reference = Some i
  | RPhase p => phase_block r reference = Some (canonical_phase (name_ids r) p)
  | RFlow f => flow_block r reference = Some (canonical_flow (name_ids r) f)
  end.
Proof.
  intros Hc H Hin Hb' reference Href. unfold from_blocks in H.
  apply bind_Ok_inv in H as ([r0 ids] & Hb & H). apply bind_Ok_inv in H as ([] & Hv & [= <-]).
  pose proof (canonicalize_normalizes _ _ _ _ Hc Hb') as Hn. apply Forall_cons in Hn as [Hn _].
  pose proof (insert_blocks_ok _ _ _ _ _ _ _ _ Hc build_ok_empty Hb) as [Ht Hi Hp Hf _ _].
  apply insert_blocks_held in Hb as [Hb _]; [|done]. specialize (Hb _ _ Hin Hb').
  destruct b' as [b'|b'|b'|b']; cbn [kind_and_identity snd block_held] in *;
    [apply (held_lookup _ (fun x => x)) in Hb; [|done..]|apply (held_lookup _ (fun x => x)) in Hb; [|done..]
    |apply (held_lookup _ (canonical_phase ids)) in Hb; [|done..]
    |apply (held_lookup _ (canonical_flow ids)) in Hb; [|done..]];
    rewrite ?map_fmap_id in Hb; destruct Hb as [H1 H2]; destruct Href as [-> | ->]; done.
Qed.
