(* ===== verification/Errors.v ===== *)
(** Errors, failures and effects of the runtime ([flow-agent-core/src/runtime/error.rs],
    [execution_plan.rs]), and the denial reasons of [core-policy/src/lib.rs]. *)

From Stdlib Require Import ZArith Lia Ascii String.
From stdpp Require Import base strings sorting sets option gmap countable list.
From S2P Require Import Prelude Decimal Sorting Metadata Json FlowValue Event Lifecycle.

Open Scope Z_scope.

(** * Reasons *)

Inductive DenyReasonCode : Type :=
| WriteDenied | NetworkDenied | EnvironmentDenied | ToolOutOfPhase | SymlinkEscapeDenied
| InterpreterEscapeDenied.

Definition deny_all : list DenyReasonCode :=
  [WriteDenied; NetworkDenied; EnvironmentDenied; ToolOutOfPhase; SymlinkEscapeDenied;
   InterpreterEscapeDenied].

Definition deny_as_str (c : DenyReasonCode) : string :=
  match c with
  | WriteDenied => "write_denied"
  | NetworkDenied => "network_denied"
  | EnvironmentDenied => "environment_denied"
  | ToolOutOfPhase => "tool_out_of_phase"
  | SymlinkEscapeDenied => "symlink_escape_denied"
  | InterpreterEscapeDenied => "interpreter_escape_denied"
  end.

#[export] Instance DenyReasonCode_eq_dec : EqDecision DenyReasonCode.
Proof. solve_decision. Defined.

(** [std::io::ErrorKind]: the kinds the runtime names, and the others. *)
Inductive ErrorKind : Type :=
| NotFound | PermissionDenied | AlreadyExists | InvalidInput | InvalidData | TimedOut | WriteZero
| StorageFull | ReadOnlyFilesystem | FileTooLarge | ResourceBusy | Interrupted | UnexpectedEof
| OutOfMemory | OtherError | Unlisted.

#[export] Instance ErrorKind_eq_dec : EqDecision ErrorKind.
Proof. solve_decision. Defined.

(** * Errors and failures *)

(** The variants of [RuntimeError] the planner builds or tells apart.  Messages that only wrap
    another error are [RuntimeError::Protocol] in the code too: [Invalid] of the stream
    validator, [Unserializable] of the canonical writer with what was written, [Rejected] of the
    event contract.  [Io] and [Denied] keep what a failure reports of them; [EventWriter] and
    [EventWriterFailures] wrap the errors of the event writer.  [OtherVariant] is any
    other variant, which the workspace and the sink may return, by its name. *)
Inductive RuntimeError : Type :=
| Protocol (message : string)
| Invalid (error : ProtocolError)
| Unserializable (what : string) (error : CanonicalJsonError)
| Rejected (error : EventValidationError)
| Io (kind : ErrorKind)
| Denied (reason : DenyReasonCode)
| ContextBudgetExceeded (input_budget_tokens required_bytes : Z)
| EventWriter (source : RuntimeError)
| EventWriterFailures (failures : list RuntimeError)
| OtherVariant (name : string).

Record RuntimeFailure : Type := mkFailure {
  failure_reason : string;
  failure_message : string;
  failure_data : list (string * Value);
  failure_tool_id : option string;
  failure_phase_id : option string;
  emit_tool_failed : bool;
}.

Inductive ExecutionOutcome : Type :=
| Completed (result : option FlowValue)
| Failed (failure : RuntimeFailure).

(** * Effects

    Code that changes a builder behind [&mut] and returns a [Result]: the builder keeps what was
    done to it before an error. *)

Definition eff (S A : Type) : Type := S -> S * result RuntimeError A.

#[export] Instance eff_ret {S} : MRet (eff S) := fun A a s => (s, Ok a).

#[export] Instance eff_bind {S} : MBind (eff S) := fun A B f m s =>
  match m s with
  | (s, Ok a) => f a s
  | (s, Err e) => (s, Err e)
  | (s, Panic) => (s, Panic)
  end.

Definition lift {S A} (r : result RuntimeError A) : eff S A := fun s => (s, r).

(** Reading the builder. *)
Definition reads {S A} (f : S -> result RuntimeError A) : eff S A := fun s => (s, f s).
