(* ===== verification/EffectTheory.v ===== *)
(** A small program logic for effects ([Errors.eff]).

    [keeps P m]: [m] keeps the invariant [P] of the builder, whatever it returns.
    [triple P m Q]: from a builder with [P], [m] does not panic, keeps [P], and a value it returns
    satisfies [Q]. *)

From Stdlib Require Import ZArith Lia Ascii String.
From stdpp Require Import base strings sorting sets option gmap countable list.
From S2P Require Import Prelude Decimal Sorting Metadata Json FlowValue Event Lifecycle Errors.

Open Scope Z_scope.

Lemma eff_bind_eq {S A B} (m : eff S A) (f : A -> eff S B) s :
  (m ≫= f) s =
    match m s with
    | (s, Ok a) => f a s
    | (s, Err e) => (s, Err e)
    | (s, Panic) => (s, Panic)
    end.
Proof. done. Qed.

Lemma eff_bind_Ok {S A B} (m : eff S A) (f : A -> eff S B) s s' b :
  (m ≫= f) s = (s', Ok b) -> exists s1 a, m s = (s1, Ok a) /\ f a s1 = (s', Ok b).
Proof.
  rewrite eff_bind_eq. destruct (m s) as [s1 [a|err|]]; intros H; try discriminate H. by exists s1, a.
Qed.

Lemma lift_expect_Some {S A B} (o : option A) a (f : A -> eff S B) s :
  o = Some a -> (lift (expect o) ≫= f) s = f a s.
Proof. by intros ->. Qed.

(** * Invariants *)

Definition keeps {S A} (P : S -> Prop) (m : eff S A) : Prop := forall s, P s -> P (m s).1.

Lemma keeps_result {S A} (P : S -> Prop) (m : eff S A) s s' r : keeps P m -> P s -> m s = (s', r) -> P s'.
Proof. intros Hm Hs E. specialize (Hm s Hs). by rewrite E in Hm. Qed.

Lemma keeps_bind {S A B} P (m : eff S A) (f : A -> eff S B) :
  keeps P m -> (forall a, keeps P (f a)) -> keeps P (m ≫= f).
Proof.
  intros Hm Hf s Hs. specialize (Hm s Hs). rewrite eff_bind_eq.
  destruct (m s) as [s1 [a|err|]]; cbn in *; [by apply Hf|done|done].
Qed.

Lemma keeps_bind_Ok {S A B} P (r : result RuntimeError A) (f : A -> eff S B) :
  (forall a, r = Ok a -> keeps P (f a)) -> keeps P (lift r ≫= f).
Proof. intros Hf s Hs. rewrite eff_bind_eq. destruct r; cbn; [by apply Hf|done|done]. Qed.

Lemma keeps_lift {S A} (P : S -> Prop) (r : result RuntimeError A) : keeps P (lift (S:=S) r).
Proof. by intros s. Qed.

Lemma keeps_reads {S A} (P : S -> Prop) (f : S -> result RuntimeError A) : keeps P (reads f).
Proof. by intros s. Qed.

Lemma keeps_ret {S A} (P : S -> Prop) (a : A) : keeps P (mret (M := eff S) a).
Proof. by intros s. Qed.

Create HintDb keeps.
#[export] Hint Resolve keeps_lift keeps_ret keeps_reads : keeps.

(** Splits [keeps P m] along the binds and tests of [m]. *)
Ltac keeps :=
  repeat first
    [ solve [eauto with keeps]
    | match goal with
      | |- keeps _ (_ ≫= _) => apply keeps_bind; [|intros ?]
      | |- keeps _ (match ?x with _ => _ end) => destruct x eqn:?
      | |- keeps _ (let '_ := ?x in _) => destruct x eqn:?
      end ].

(** * Triples *)

Section triples.
Context {S : Type} (P : S -> Prop).

Definition triple {A} (m : eff S A) (Q : A -> Prop) : Prop :=
  forall s, P s -> P (m s).1 /\ (m s).2 <> Panic /\ forall a, (m s).2 = Ok a -> Q a.

(** No condition on the value. *)
Definition safe {A} (m : eff S A) : Prop := triple m (fun _ => True).

Lemma triple_ret {A} (a : A) (Q : A -> Prop) : Q a -> triple (mret a) Q.
Proof. intros H s Hs. split_and!; [done..|]. by intros ? [= <-]. Qed.

Lemma triple_lift {A} (r : result RuntimeError A) (Q : A -> Prop) :
  r <> Panic -> (forall a, r = Ok a -> Q a) -> triple (lift r) Q.
Proof. intros H1 H2 s Hs. split_and!; done. Qed.

Lemma triple_reads {A} (f : S -> result RuntimeError A) (Q : A -> Prop) :
  (forall s, P s -> f s <> Panic /\ forall a, f s = Ok a -> Q a) -> triple (reads f) Q.
Proof. intros H s Hs. destruct (H s Hs). by split_and!. Qed.

Lemma triple_bind {A B} (m : eff S A) (f : A -> eff S B) (Q : A -> Prop) (Q' : B -> Prop) :
  triple m Q -> (forall a, Q a -> triple (f a) Q') -> triple (m ≫= f) Q'.
Proof.
  intros Hm Hf s Hs. destruct (Hm s Hs) as (H1 & H2 & H3). rewrite eff_bind_eq.
  destruct (m s) as [s1 [a|err|]]; cbn in *; [by apply Hf; [apply H3|]| |done].
  split_and!; [done..|]. intros ? [=].
Qed.

Lemma triple_weaken {A} (m : eff S A) (Q Q' : A -> Prop) :
  (forall a, Q a -> Q' a) -> triple m Q -> triple m Q'.
Proof. intros Hq Hm s Hs. destruct (Hm s Hs) as (H1 & H2 & H3). split_and!; [done..|]. eauto. Qed.

Lemma safe_of_triple {A} (m : eff S A) Q : triple m Q -> safe m.
Proof. by apply triple_weaken. Qed.

Lemma safe_lift {A} (r : result RuntimeError A) : r <> Panic -> safe (lift r).
Proof. intros H. by apply triple_lift. Qed.

Lemma safe_ret {A} (a : A) : safe (mret a).
Proof. by apply triple_ret. Qed.

Lemma safe_bind {A B} (m : eff S A) (f : A -> eff S B) :
  safe m -> (forall a, safe (f a)) -> safe (m ≫= f).
Proof. intros H1 H2. eapply triple_bind; [exact H1|]. intros a _. apply H2. Qed.
End triples.

Create HintDb safe.
#[export] Hint Resolve safe_ret safe_lift : safe.
