(* ===== verification/PhaseControl.v ===== *)
(** How the runtime walks a sequence of sibling Phases
    ([flow-agent-core/src/runtime/phase_control.rs], and the loop of [emit_phase_sequence] in
    [planning/execution.rs]): where it goes next, what each Phase is given as input, and which
    result the sequence has.

    An index is a [nat]: a [usize] below the length of a slice, so that [index + 1] does not
    overflow.  The code relies on the registry with [expect]; a failed [expect] is [Panic]. *)

From Stdlib Require Import ZArith Lia Ascii String.
From stdpp Require Import base strings sorting sets option gmap countable list.
From S2P Require Import Prelude Decimal Sorting Metadata Json FlowValue Event Lifecycle.
From S2P Require Import Paths Values Blocks Registry Errors.

Open Scope Z_scope.

(** * One sequence *)

Section control.
Context {J : JsonEnv}.

Record PhaseSequenceState : Type := mkSequence {
  index : nat;
  next_input : option FlowValue;
  selected_result : option FlowValue;
}.

Definition sequence_new (input : option FlowValue) : PhaseSequenceState := mkSequence 0 input None.

Definition current_index (s : PhaseSequenceState) (phase_count : nat) : option nat :=
  if (index s <? phase_count)%nat then Some (index s) else None.

Definition take_input (s : PhaseSequenceState) : option FlowValue * PhaseSequenceState :=
  (next_input s, mkSequence (index s) None (selected_result s)).

(** [iter().position(..)]. *)
Fixpoint position_of (candidate : string) (phase_refs : list string) : option nat :=
  match phase_refs with
  | [] => None
  | phase_ref :: phase_refs =>
      if String.eqb phase_ref candidate then Some 0%nat else S <$> position_of candidate phase_refs
  end.

(** The loop over the transitions that leave the current Phase. *)
Fixpoint first_transition (phase_refs : list string) (transitions : list PhaseTransition) (index : nat)
    (result : FlowValue) : Prelude.result RuntimeError nat :=
  match transitions with
  | [] => Ok (index + 1)%nat
  | transition :: transitions =>
      match predicate_matches result (when transition) with
      | Ok true => expect (position_of (to_phase_ref transition) phase_refs)
      | Ok false => first_transition phase_refs transitions index result
      | Err _ | Panic => Panic
      end
  end.

Definition select_next_phase_index (phase_refs : list string) (transitions : list PhaseTransition)
    (index : nat) (result : FlowValue) : Prelude.result RuntimeError nat :=
  phase_ref ← expect (phase_refs !! index);
  first_transition phase_refs
    (List.filter (fun transition => String.eqb (from_phase_ref transition) phase_ref) transitions)
    index result.

(** [slice.get(from..to)]. *)
Definition get_range {A} (l : list A) (from to : nat) : option (list A) :=
  if (from <=? to)%nat && (to <=? length l)%nat then Some (take (to - from) (drop from l)) else None.

Definition skipped_error (result_from : string) : RuntimeError :=
  Protocol ("composite Phase result_from " +:+ result_from +:+ " was skipped by a Transition").

(** The caller drops the state on an error. *)
Definition advance (s : PhaseSequenceState) (phase_refs : list string)
    (transitions : list PhaseTransition) (result_from : option string) (result : FlowValue)
    : Prelude.result RuntimeError (PhaseSequenceState * nat) :=
  phase_ref ← expect (phase_refs !! index s);
  let selected :=
    if bool_decide (result_from = Some phase_ref) then Some result else selected_result s in
  next ← select_next_phase_index phase_refs transitions (index s) result;
  reject match result_from with
         | Some result_from =>
             negb (is_some selected) &&
             match get_range phase_refs (index s + 1) next with
             | Some skipped => existsb (fun phase => String.eqb phase result_from) skipped
             | None => false
             end
         | None => false
         end with skipped_error (default "" result_from) ;;
  Ok (mkSequence next (Some result) selected, next).

Definition sequence_finish (s : PhaseSequenceState) (result_from : option string)
    : Prelude.result RuntimeError (option FlowValue) :=
  match result_from with
  | Some result_from => Some <$> ok_or (selected_result s) (skipped_error result_from)
  | None => Ok (next_input s)
  end.

Definition phase_should_repeat (result : FlowValue) (loop_config : option PhaseLoop)
    : Prelude.result RuntimeError bool :=
  match loop_config with
  | Some config =>
      match predicate_matches result (loop_until config) with
      | Ok matched => Ok (negb matched)
      | Err _ | Panic => Panic
      end
  | None => Ok false
  end.

(** * The loop over a sequence

    [S] is the state the Phases act on, and [emit_phase] runs one of them. *)

Context {S : Type} (registry : ResolvedRegistry).
Context (emit_phase : PhaseBlock -> option FlowValue -> eff S ExecutionOutcome).

(** The body of the loop goes on at a later index, or returns. *)
Fixpoint emit_phase_sequence_loop (fuel : nat) (phase_refs : list string)
    (transitions : list PhaseTransition) (result_from : option string)
    (sequence : PhaseSequenceState) : eff S ExecutionOutcome :=
  match fuel with
  | O => lift Panic
  | Datatypes.S fuel =>
      match current_index sequence (length phase_refs) with
      | Some index =>
          phase_ref ← lift (expect (phase_refs !! index));
          phase ← lift (expect (phase_block registry phase_ref));
          let '(input, sequence) := take_input sequence in
          outcome ← emit_phase phase input;
          match outcome with
          | Completed (Some result) =>
              '(sequence, _) ← lift (advance sequence phase_refs transitions result_from result);
              emit_phase_sequence_loop fuel phase_refs transitions result_from sequence
          | Completed None =>
              lift (Err (Protocol ("phase " +:+ phase_ref +:+ " completed without a result")))
          | Failed failure => mret (Failed failure)
          end
      | None =>
          result ← lift (sequence_finish sequence result_from);
          mret (Completed result)
      end
  end.

(** Every step goes forward: one more unit of fuel than there are Phases is enough. *)
Definition emit_phase_sequence (phase_refs : list string) (transitions : list PhaseTransition)
    (input : option FlowValue) (result_from : option string) : eff S ExecutionOutcome :=
  emit_phase_sequence_loop (Datatypes.S (length phase_refs)) phase_refs transitions result_from
    (sequence_new input).
End control.
