(* ===== verification/PhaseControlTheory.v ===== *)
(** A sequence of Phases in a resolved registry ([registry_ok]) runs forward, ends, and never
    meets a failed [expect]; its result is what the sequence declares. *)

From Stdlib Require Import ZArith Lia Ascii String.
From stdpp Require Import base strings sorting sets option gmap countable list.
From S2P Require Import Prelude Decimal Sorting Metadata Json FlowValue Event Lifecycle.
From S2P Require Import Paths Values ValuesTheory Blocks Registry NestingTheory RegistryTheory.
From S2P Require Import Errors EffectTheory PhaseControl.

Open Scope Z_scope.

Section theory.
Context {J : JsonEnv} {S : Type} (r : ResolvedRegistry).
Context (emit_phase : PhaseBlock -> option FlowValue -> eff S ExecutionOutcome).

(** * Which Phase is next *)

Definition holds (v : FlowValue) (t : PhaseTransition) : Prop :=
  select_value v (pred_path (when t)) = Some (pred_equals (when t)).

(** The transitions that leave the Phase at [i], in the order they are written. *)
Definition outgoing (refs : list string) (ts : list PhaseTransition) (i : nat) : list PhaseTransition :=
  match refs !! i with
  | Some ref => List.filter (fun t => String.eqb (from_phase_ref t) ref) ts
  | None => []
  end.

(** The first transition that holds decides; without one the next sibling follows. *)
Definition next_index (refs : list string) (ts : list PhaseTransition) (i : nat) (v : FlowValue)
    (j : nat) : Prop :=
  (exists before t after, outgoing refs ts i = before ++ t :: after /\
     Forall (fun t => ~ holds v t) before /\ holds v t /\ refs !! j = Some (to_phase_ref t)) \/
  Forall (fun t => ~ holds v t) (outgoing refs ts i) /\ j = (i + 1)%nat.

Lemma position_of_lookup x refs j : position_of x refs = Some j -> refs !! j = Some x.
Proof using Type.
  clear. revert j. induction refs as [|y refs IH]; intros j; cbn; [done|].
  destruct (String.eqb_spec y x) as [->|_]; [by intros [= <-]|].
  intros (k & Hk & ->)%fmap_Some. by apply IH.
Qed.

Lemma position_of_elem x refs : x ∈ refs -> exists j, position_of x refs = Some j.
Proof using Type.
  clear. induction refs as [|y refs IH]; [by intros ?%elem_of_nil|]. cbn.
  destruct (String.eqb_spec y x) as [->|Hne]; [by exists 0%nat|].
  intros [->|Hin]%elem_of_cons; [done|]. destruct (IH Hin) as [j ->]. by exists (Datatypes.S j).
Qed.

Section sequence.
Context (refs : list string) (ts : list PhaseTransition) (result_from : option string).
Context (Hseq : sequence_ok r refs ts result_from).

Lemma outgoing_forward i t j :
  t ∈ outgoing refs ts i -> refs !! j = Some (to_phase_ref t) -> (i < j)%nat.
Proof using Hseq.
  unfold outgoing. destruct (refs !! i) as [ref|] eqn:Ei; [|by intros ?%elem_of_nil].
  rewrite list_elem_of_In, filter_In, <- list_elem_of_In. intros [Hin Heq%String.eqb_eq] Hj.
  destruct (sq_transitions _ _ _ _ Hseq t Hin) as (a & b & source & Ha & Hb & Hab & _).
  rewrite Heq in Ha.
  assert (a = i) as -> by (eapply NoDup_lookup; [apply (sq_nodup _ _ _ _ Hseq)|done|done]).
  assert (b = j) as -> by (eapply NoDup_lookup; [apply (sq_nodup _ _ _ _ Hseq)|done|done]). done.
Qed.

Lemma transition_decides i ref p v t :
  refs !! i = Some ref -> phases r !! ref = Some p ->
  validate_flow_value_against_contract v (phase_output p) = Ok tt -> t ∈ outgoing refs ts i ->
  (predicate_matches v (when t) = Ok true /\ holds v t /\
   exists j, position_of (to_phase_ref t) refs = Some j) \/
  predicate_matches v (when t) = Ok false /\ ~ holds v t.
Proof using Hseq.
  intros Ei Hp Hv. unfold outgoing. rewrite Ei, list_elem_of_In, filter_In, <- list_elem_of_In.
  intros [Hin Heq%String.eqb_eq].
  destruct (sq_transitions _ _ _ _ Hseq t Hin) as (a & b & source & Ha & Hb & Hab & Hs & Hc).
  rewrite Heq, Hp in Hs. injection Hs as <-.
  pose proof (predicate_matches_checked _ _ _ Hc Hv) as Hm. unfold holds.
  destruct (select_value v (pred_path (when t))) as [x|]; [|right; by rewrite Hm].
  destruct (fv_eqb x (pred_equals (when t))) eqn:E; rewrite Hm; [left|right].
  - apply fv_eqb_eq in E as ->. split_and!; [done..|].
    apply position_of_elem. by eapply list_elem_of_lookup_2.
  - split; [done|]. intros [= ->]. assert (fv_eqb (pred_equals (when t)) (pred_equals (when t)) = true)
      by (by apply fv_eqb_eq). congruence.
Qed.

Lemma first_transition_spec i ref p v l :
  refs !! i = Some ref -> phases r !! ref = Some p ->
  validate_flow_value_against_contract v (phase_output p) = Ok tt ->
  (forall t, t ∈ l -> t ∈ outgoing refs ts i) ->
  exists j, first_transition refs l i v = Ok j /\ (i < j)%nat /\
    ((exists before t after, l = before ++ t :: after /\ Forall (fun t => ~ holds v t) before /\
        holds v t /\ refs !! j = Some (to_phase_ref t)) \/
     Forall (fun t => ~ holds v t) l /\ j = (i + 1)%nat).
Proof using Hseq.
  intros Ei Hp Hv. induction l as [|t l IH]; intros Hl; cbn.
  { exists (i + 1)%nat. split_and!; [done|lia|by right]. }
  destruct (transition_decides i ref p v t Ei Hp Hv (Hl t (list_elem_of_here _ _)))
    as [(-> & Hh & j & Hj)|[-> Hh]].
  - rewrite Hj. exists j. apply position_of_lookup in Hj. split; [done|]. split.
    + eapply outgoing_forward; [apply Hl, list_elem_of_here|done].
    + left. by exists [], t, l.
  - destruct IH as (j & -> & Hij & Hcase). { intros x Hx. apply Hl. by right. }
    exists j. split_and!; [done..|]. destruct Hcase as [(b & x & a & -> & Hb & Hx)|[Hall ->]]; [left|right].
    + exists (t :: b), x, a. split_and!; [done| |apply Hx..]. by constructor.
    + split; [by constructor|done].
Qed.

Lemma select_next_spec i ref p v :
  refs !! i = Some ref -> phases r !! ref = Some p ->
  validate_flow_value_against_contract v (phase_output p) = Ok tt ->
  exists j, select_next_phase_index refs ts i v = Ok j /\ (i < j)%nat /\ next_index refs ts i v j.
Proof using Hseq.
  intros Ei Hp Hv. unfold select_next_phase_index, next_index. rewrite Ei. cbn.
  destruct (first_transition_spec i ref p v (outgoing refs ts i) Ei Hp Hv (fun t H => H)) as (j & Hj & H).
  unfold outgoing in Hj. rewrite Ei in Hj. by exists j.
Qed.

(** * The walk *)

(** [walk i input s trace s']: from the Phase at [i] on, the Phases of [trace] run one after
    another, each on the result of the one before, until the end of the sequence. *)
Inductive walk : nat -> option FlowValue -> S -> list (nat * FlowValue) -> S -> Prop :=
| walk_end i input s : (length refs <= i)%nat -> walk i input s [] s
| walk_step i j ref p input v s s1 trace s2 :
    refs !! i = Some ref -> phases r !! ref = Some p ->
    emit_phase p input s = (s1, Ok (Completed (Some v))) ->
    next_index refs ts i v j -> (i < j)%nat ->
    walk j (Some v) s1 trace s2 -> walk i input s ((i, v) :: trace) s2.

(** The result of a sequence: that of the named Phase, or of the last one. *)
Definition sequence_result (input : option FlowValue) (trace : list (nat * FlowValue))
    (result : option FlowValue) : Prop :=
  match result_from with
  | Some f => exists i v, (i, v) ∈ trace /\ refs !! i = Some f /\ result = Some v
  | None => result = default input (Some <$> last trace.*2)
  end.

(** A result of a Phase respects its output contract. *)
Definition respects (p : PhaseBlock) (o : ExecutionOutcome) : Prop :=
  forall v, o = Completed (Some v) -> validate_flow_value_against_contract v (phase_output p) = Ok tt.

(** What a Phase of the sequence must do: keep the invariant [P] of the state, not panic, and
    respect its output contract. *)
Definition phase_respects (P : S -> Prop) : Prop :=
  forall ref p input, ref ∈ refs -> phases r !! ref = Some p ->
    triple P (emit_phase p input) (respects p).

Lemma advance_spec s ref p v :
  refs !! index s = Some ref -> phases r !! ref = Some p ->
  validate_flow_value_against_contract v (phase_output p) = Ok tt ->
  let selected := if bool_decide (result_from = Some ref) then Some v else selected_result s in
  exists j, (index s < j)%nat /\ next_index refs ts (index s) v j /\
    (advance s refs ts result_from v = Ok (mkSequence j (Some v) selected, j) \/
     exists f, result_from = Some f /\ advance s refs ts result_from v = Err (skipped_error f)).
Proof using Hseq.
  intros Ei Hp Hv selected. destruct (select_next_spec _ _ _ _ Ei Hp Hv) as (j & Hj & Hij & Hn).
  exists j. split_and!; [done..|]. unfold advance. rewrite Ei. cbn [mbind result_bind expect].
  rewrite Hj. cbn [mbind result_bind]. fold selected.
  destruct result_from as [f|]; [|by left].
  destruct (negb (is_some selected) && _); [right; by exists f|by left].
Qed.

Lemma phase_block_ref i ref :
  refs !! i = Some ref -> exists p, phase_block r ref = Some p /\ phases r !! ref = Some p.
Proof using Hseq.
  intros Hi. destruct (sq_refs _ _ _ _ Hseq ref) as (p & Hp & _); [by eapply list_elem_of_lookup_2|].
  exists p. split; [|done]. unfold phase_block, named_block. by rewrite Hp.
Qed.

(** What holds of the rest of the walk from any state of the sequence. *)
Lemma loop_spec P fuel q s :
  phase_respects P -> P s -> (length refs - index q < fuel)%nat ->
  let '(s', out) := emit_phase_sequence_loop r emit_phase fuel refs ts result_from q s in
  P s' /\ out <> Panic /\
  forall o, out = Ok (Completed o) ->
    exists trace, walk (index q) (next_input q) s trace s' /\
      match result_from with
      | Some f => exists v, o = Some v /\
          (selected_result q = Some v \/ exists i, (i, v) ∈ trace /\ refs !! i = Some f)
      | None => o = default (next_input q) (Some <$> last trace.*2)
      end.
Proof using Hseq.
  intros Hresp. revert q s. induction fuel as [|fuel IH]; intros q s Hs Hf.
  { lia. }
  cbn [emit_phase_sequence_loop]. unfold current_index.
  destruct (Nat.ltb_spec (index q) (length refs)) as [Hi|Hi].
  - destruct (lookup_lt_is_Some_2 refs (index q) Hi) as [ref Href].
    destruct (phase_block_ref _ _ Href) as (p & Hb & Hp).
    rewrite (lift_expect_Some _ _ _ _ Href), (lift_expect_Some _ _ _ _ Hb).
    cbn [take_input]. rewrite eff_bind_eq.
    destruct (Hresp ref p (next_input q) (list_elem_of_lookup_2 _ _ _ Href) Hp s Hs) as (Hs1 & Hnp & Hv).
    destruct (emit_phase p (next_input q) s) as [s1 out] eqn:Ep. cbn in Hs1, Hnp, Hv.
    destruct out as [[[v|]|failure]|e|]; try (split_and!; [done..|intros ? [=]]).
    specialize (Hv _ eq_refl v eq_refl).
    set (q' := mkSequence (index q) None (selected_result q)).
    destruct (advance_spec q' ref p v Href Hp Hv) as (j & Hij & Hn & [Ha|(f & Hf' & Ha)]);
      rewrite eff_bind_eq; unfold lift; rewrite Ha; [|split_and!; [done..|intros ? [=]]].
    cbn in Hij, Hn. specialize (IH (mkSequence j (Some v)
      (if bool_decide (result_from = Some ref) then Some v else selected_result q)) s1).
    cbn [index] in IH. specialize (IH Hs1 ltac:(lia)). cbn [selected_result q'] in *.
    destruct (emit_phase_sequence_loop r emit_phase fuel refs ts result_from _ s1) as [s' out].
    destruct IH as (Hs' & Hnp' & IH). split_and!; [done..|]. intros o Ho. destruct (IH o Ho) as (trace & Hw & Hr).
    cbn [index next_input selected_result] in Hw, Hr. exists ((index q, v) :: trace).
    split; [by eapply walk_step|]. destruct result_from as [f|].
    + destruct Hr as (w & -> & Hr). exists w. split; [done|].
      destruct Hr as [Hsel|(i & Hin & Hif)]; [|right; exists i; split; [by right|done]].
      case_bool_decide as E; [|by left]. injection Hsel as <-. injection E as ->.
      right. exists (index q). split; [by left|done].
    + subst o. rewrite fmap_cons, last_cons. by destruct (last trace.*2).
  - rewrite eff_bind_eq. unfold lift, sequence_finish. destruct result_from as [f|].
    + destruct (selected_result q) as [v|]; cbn; [|split_and!; [done..|intros ? [=]]].
      split_and!; [done..|]. intros o [= <-]. exists []. split; [by constructor|].
      exists v. split; [done|by left].
    + split_and!; [done..|]. intros o [= <-]. exists []. split; [by constructor|done].
Qed.
End sequence.

Lemma sequence_spec (refs : list string) (ts : list PhaseTransition)
    (result_from : option string) (input : option FlowValue) (P : S -> Prop) (s : S) :
  sequence_ok r refs ts result_from -> phase_respects refs P -> P s ->
  let '(s', out) := emit_phase_sequence r emit_phase refs ts input result_from s in
  P s' /\ out <> Panic /\
  forall o, out = Ok (Completed o) -> exists trace,
    walk refs ts 0 input s trace s' /\ sequence_result refs result_from input trace o.
Proof.
  intros Hseq Hresp Hs. pose proof (loop_spec refs ts result_from Hseq P
    (Datatypes.S (length refs)) (sequence_new input) s Hresp Hs) as H.
  cbn [index sequence_new] in H. specialize (H ltac:(lia)). unfold emit_phase_sequence.
  destruct (emit_phase_sequence_loop _ _ _ _ _ _ _ s) as [s' out]. destruct H as (Hs' & Hnp & H).
  split_and!; [done..|]. intros o Ho. destruct (H o Ho) as (trace & Hw & Hr). exists trace. split; [done|].
  unfold sequence_result. destruct result_from as [f|]; [|done].
  destruct Hr as (v & -> & [[=]|(i & Hin & Hi)]). by exists i, v.
Qed.

(** C30: A sequence of Phases of a resolved registry runs as declared.  If its Phases keep an
    invariant of the state, do not panic and respect their output contracts, the loop keeps the
    invariant and ends without a panic (no [expect] fails and the fuel is enough); and when it
    completes, the Phases that ran are a walk that starts at the first one and always goes
    forward, where each Phase is given the result of the one before it and the first outgoing
    transition that holds decides which is next; the result is that of the Phase [result_from]
    names, or else of the last Phase that ran. *)
Theorem emit_phase_sequence_spec (refs : list string) (ts : list PhaseTransition)
    (result_from : option string) (input : option FlowValue) (P : S -> Prop) (s : S) :
  sequence_ok r refs ts result_from -> phase_respects refs P -> P s ->
  let '(s', out) := emit_phase_sequence r emit_phase refs ts input result_from s in
  P s' /\ out <> Panic /\
  forall o, out = Ok (Completed o) -> exists trace,
    walk refs ts 0 input s trace s' /\ sequence_result refs result_from input trace o.
Proof. apply sequence_spec. Qed.
End theory.
