(* ===== verification/Policy.v ===== *)
(** Invocation policy ([core-policy/src]): which Tools a Flow may call, in which Phases, with
    which command lines; compiled from a resolved registry ([compile.rs]) and checked
    ([artifact.rs], [artifact/command.rs], [artifact/environment.rs]).  [command_policy_for_phase]
    ([runtime/policy_resolution.rs]) is the question the runtime asks. *)

From Stdlib Require Import ZArith Lia Ascii String.
From stdpp Require Import base strings sorting sets option gmap countable list.
From S2P Require Import Prelude Decimal Sorting Metadata Json FlowValue Paths Values Blocks.
From S2P Require Import CanonicalBlock Registry Errors PhaseControl.

Open Scope Z_scope.

(** * Trusted commands ([lib.rs]) *)

Definition POLICY_VERSION_V0 : string := "0".
Definition OWN_SCRIPT_RUNNER_POSIX_SH : string := "runner:posix-sh".

Inductive TrustedPredefinedCommand : Type := Echo | Negative | Read.

Definition trusted_all : list TrustedPredefinedCommand := [Echo; Negative; Read].

Definition trusted_as_str (c : TrustedPredefinedCommand) : string :=
  match c with Echo => "agent-echo" | Negative => "agent-negative" | Read => "agent-read" end.

Definition trusted_parse (command_id : string) : option TrustedPredefinedCommand :=
  List.find (fun c => String.eqb (trusted_as_str c) command_id) trusted_all.

Definition productive_executable (c : TrustedPredefinedCommand) : option string :=
  match c with Echo => Some "/bin/echo" | Negative => None | Read => Some "/bin/cat" end.

Definition executable_of (c : TrustedPredefinedCommand) : string := "registry:" +:+ trusted_as_str c.

(** * Artifacts *)

Inductive EnvironmentDefault : Type := Clear.

Record EnvironmentPolicy : Type := mkEnvironment { allow : list string; default_env : EnvironmentDefault }.

Record CommandPolicy : Type := mkCommand {
  allowed_parameters : list AllowedParameter;
  argv : list string;
  command_id : string;
  environment : EnvironmentPolicy;
  executable : string;
  script_runtime : option ScriptRuntime;
  cp_tool_id : string;
  cp_tool_kind : ScriptToolKind;
}.

Record PhaseScope : Type := mkScope { scope_phase_id : string; scope_tool_ids : list string }.

Record RuntimeLimits : Type := mkLimits { headless : bool; timeout_ms : Z }.

Record PolicyArtifact : Type := mkArtifact {
  commands : list CommandPolicy;
  phase_scope : list PhaseScope;
  policy_version : string;
  runtime_limits : RuntimeLimits;
  source_flow_definition_id : string;
}.

Record PolicyArtifactValidationError : Type := policy_artifact_error { pae_message : string }.

Inductive PolicyCompileError : Type :=
| MissingFlow (reference : string)
| InvalidArtifact (error : PolicyArtifactValidationError).

(** * Validation *)

Section policy.
Context {J : JsonEnv}.
Context (pattern_error : string -> option string).

Definition has_valid_environment_allow_name_shape (name : string) : bool :=
  if 64 <? slen name then false
  else
    match name with
    | EmptyString => false
    | String first bytes =>
        if negb (is_byte 95 first) && negb (is_ascii_uppercase first) then false
        else bytes_all (fun a => is_byte 95 a || is_ascii_uppercase a || is_ascii_digit a) bytes
    end.

Definition validate_environment_allow_name (tool_id name : string)
    : result PolicyArtifactValidationError unit :=
  reject negb (has_valid_environment_allow_name_shape name) with
    policy_artifact_error ("tool " +:+ tool_id +:+ " environment allow entry " +:+ debug_str name
      +:+ " must match ^[A-Z_][A-Z0-9_]{0,63}$") ;;
  Ok tt.

Definition validate_environment (e : EnvironmentPolicy) (tool_id : string)
    : result PolicyArtifactValidationError unit :=
  try_for_each (validate_environment_allow_name tool_id) (allow e).

Definition validate_command_shape (c : CommandPolicy) : result PolicyArtifactValidationError unit :=
  let error message := policy_artifact_error message in
  match cp_tool_kind c with
  | SPredefinedCommand =>
      reject negb (is_valid_command_id (command_id c)) with
        error ("predefined-command tool " +:+ cp_tool_id c +:+ " command_id " +:+ debug_str (command_id c)
          +:+ " must be a valid command id") ;;
      command ← ok_or (trusted_parse (command_id c))
        (error ("predefined-command tool " +:+ cp_tool_id c +:+ " references unknown trusted command "
           +:+ debug_str (command_id c)));
      let expected_executable := executable_of command in
      reject negb (String.eqb (executable c) expected_executable) with
        error ("predefined-command tool " +:+ cp_tool_id c +:+ " executable must be "
          +:+ expected_executable) ;;
      reject is_some (script_runtime c) with
        error ("predefined-command tool " +:+ cp_tool_id c +:+ " must omit script_runtime") ;;
      Ok tt
  | SOwnScript =>
      let expected_command_id := own_script_command_id (cp_tool_id c) in
      reject negb (String.eqb (command_id c) expected_command_id) with
        error ("own-script tool " +:+ cp_tool_id c +:+ " command_id must be " +:+ expected_command_id) ;;
      reject negb (is_some (script_runtime c)) with
        error ("own-script tool " +:+ cp_tool_id c +:+ " must use script_runtime "
          +:+ runtime_as_str PosixSh) ;;
      reject negb (String.eqb (executable c) OWN_SCRIPT_RUNNER_POSIX_SH) with
        error ("own-script tool " +:+ cp_tool_id c +:+ " executable must be "
          +:+ OWN_SCRIPT_RUNNER_POSIX_SH) ;;
      reject negb (bool_decide (argv c = [])) with
        error ("own-script tool " +:+ cp_tool_id c +:+ " must omit argv") ;;
      Ok tt
  end.

(** The loop over the parameters, with the names seen so far. *)
Fixpoint validate_command_parameters (c : CommandPolicy) (parameters : list AllowedParameter)
    (names : gset string) : result PolicyArtifactValidationError unit :=
  match parameters with
  | [] => Ok tt
  | parameter :: parameters =>
      _ ← map_err (fun message => policy_artifact_error ("tool " +:+ cp_tool_id c +:+ " " +:+ message))
            (allowed_parameter_validate pattern_error parameter);
      if decide (ap_name parameter ∈ names) then
        Err (policy_artifact_error ("tool " +:+ cp_tool_id c +:+ " allowed parameter "
               +:+ ap_name parameter +:+ " is declared more than once"))
      else validate_command_parameters c parameters ({[ap_name parameter]} ∪ names)
  end.

Definition validate_command (c : CommandPolicy) : result PolicyArtifactValidationError unit :=
  _ ← validate_command_shape c;
  _ ← validate_command_parameters c (allowed_parameters c) ∅;
  validate_environment (environment c) (cp_tool_id c).

(** [validate_phase_scope]: the ids of the commands, then of the Phases. *)
Fixpoint command_ids (l : list CommandPolicy) (seen : gset string)
    : result PolicyArtifactValidationError (gset string) :=
  match l with
  | [] => Ok seen
  | command :: l =>
      if decide (cp_tool_id command ∈ seen) then
        Err (policy_artifact_error ("duplicate command tool_id " +:+ cp_tool_id command))
      else command_ids l ({[cp_tool_id command]} ∪ seen)
  end.

Fixpoint scope_tools (phase_id : string) (command_tool_ids : gset string) (l : list string)
    (phase_tool_ids scoped_tool_ids : gset string)
    : result PolicyArtifactValidationError (gset string) :=
  match l with
  | [] => Ok scoped_tool_ids
  | tool_id :: l =>
      reject negb (bool_decide (tool_id ∈ command_tool_ids)) with
        policy_artifact_error ("phase_scope " +:+ phase_id +:+ " references unknown tool_id " +:+ tool_id) ;;
      if decide (tool_id ∈ phase_tool_ids) then
        Err (policy_artifact_error ("phase_scope " +:+ phase_id +:+ " contains duplicate tool_id "
               +:+ tool_id))
      else
        scope_tools phase_id command_tool_ids l ({[tool_id]} ∪ phase_tool_ids)
          ({[tool_id]} ∪ scoped_tool_ids)
  end.

Fixpoint scope_phases (command_tool_ids : gset string) (l : list PhaseScope)
    (phase_ids scoped_tool_ids : gset string)
    : result PolicyArtifactValidationError (gset string) :=
  match l with
  | [] => Ok scoped_tool_ids
  | phase :: l =>
      if decide (scope_phase_id phase ∈ phase_ids) then
        Err (policy_artifact_error ("duplicate phase_scope phase_id " +:+ scope_phase_id phase))
      else
        scoped_tool_ids ← scope_tools (scope_phase_id phase) command_tool_ids (scope_tool_ids phase)
                            ∅ scoped_tool_ids;
        scope_phases command_tool_ids l ({[scope_phase_id phase]} ∪ phase_ids) scoped_tool_ids
  end.

Definition validate_phase_scope (a : PolicyArtifact) : result PolicyArtifactValidationError unit :=
  command_tool_ids ← command_ids (commands a) ∅;
  scoped_tool_ids ← scope_phases command_tool_ids (phase_scope a) ∅ ∅;
  try_for_each (fun tool_id =>
    if decide (tool_id ∈ scoped_tool_ids) then Ok tt
    else Err (policy_artifact_error ("command " +:+ tool_id +:+ " must appear in phase_scope")))
    (set_iter str_cmp command_tool_ids).

Definition validate_artifact (a : PolicyArtifact) : result PolicyArtifactValidationError unit :=
  reject negb (String.eqb (policy_version a) POLICY_VERSION_V0) with
    policy_artifact_error ("policy_version must be fixed string " +:+ String quote_char ""
      +:+ POLICY_VERSION_V0 +:+ String quote_char "") ;;
  _ ← try_for_each validate_command (commands a);
  validate_phase_scope a.

(** * Compilation *)

(** The sets the collection fills. *)
Record PolicyScope : Type := mkPolicyScope {
  phase_tools : gmap string (gset string);
  tool_ids : gset string;
  visited_flows : gset string;
  visited_phases : gset string;
}.

Context (registry : ResolvedRegistry).

(** The ids of the Tools of a Phase. *)
Fixpoint tool_ids_of (tool_refs : list string) : result PolicyCompileError (list string) :=
  match tool_refs with
  | [] => Ok []
  | tool_ref :: tool_refs =>
      tool ← expect (tool_block registry tool_ref);
      rest ← tool_ids_of tool_refs;
      Ok (id (tool_identity tool) :: rest)
  end.

(** A [for] loop that changes the scope. *)
Definition collect_each {A} (collect : A -> PolicyScope -> result PolicyCompileError PolicyScope)
    : list A -> PolicyScope -> result PolicyCompileError PolicyScope :=
  fix go l s :=
    match l with
    | [] => Ok s
    | a :: l => s ← collect a s; go l s
    end.

(** Nesting is bounded: the recursion is not deeper than the limit. *)
Fixpoint collect_phase_policy_scope (fuel : nat) (phase : PhaseBlock) (s : PolicyScope)
    : result PolicyCompileError PolicyScope :=
  match fuel with
  | O => Panic
  | S fuel =>
      let phase_id := id (phase_identity phase) in
      if decide (phase_id ∈ visited_phases s) then Ok s
      else
        ids ← tool_ids_of (phase_tool_refs phase);
        let scoped_tools := list_to_set ids ∪ default ∅ (phase_tools s !! phase_id) in
        let s := mkPolicyScope (<[phase_id := scoped_tools]> (phase_tools s)) (list_to_set ids ∪ tool_ids s)
                   (visited_flows s) ({[phase_id]} ∪ visited_phases s) in
        collect_each (fun child_ref s =>
          child ← expect (phase_block registry child_ref);
          collect_phase_policy_scope fuel child s) (phase_phase_refs phase) s
  end.

Definition phase_fuel : nat := Z.to_nat MAX_PHASE_NESTING_DEPTH.

Fixpoint collect_flow_policy_scope (fuel : nat) (flow : FlowBlock) (s : PolicyScope)
    : result PolicyCompileError PolicyScope :=
  match fuel with
  | O => Panic
  | S fuel =>
      let flow_id := id (flow_identity flow) in
      if decide (flow_id ∈ visited_flows s) then Ok s
      else
        let s := mkPolicyScope (phase_tools s) (tool_ids s) ({[flow_id]} ∪ visited_flows s)
                   (visited_phases s) in
        s ← collect_each (fun phase_ref s =>
              phase ← expect (phase_block registry phase_ref);
              collect_phase_policy_scope phase_fuel phase s) (flow_phase_refs flow) s;
        collect_each (fun subflow_ref s =>
          subflow ← expect (flow_block registry subflow_ref);
          collect_flow_policy_scope fuel subflow s) (flow_subflow_refs flow) s
  end.

Definition flow_fuel : nat := Z.to_nat MAX_FLOW_NESTING_DEPTH.

Definition command_policy_from_tool (tool : ToolBlock) : result PolicyCompileError CommandPolicy :=
  let tool_id := id (tool_identity tool) in
  let command command_id argv executable script_runtime :=
    mkCommand (tool_allowed_parameters tool) argv command_id (mkEnvironment [] Clear) executable
      script_runtime tool_id (tool_kind tool) in
  match tool_kind tool, tool_command tool with
  | SPredefinedCommand, CmdPredefined command_id argv =>
      trusted ← ok_or (trusted_parse command_id)
        (InvalidArtifact (policy_artifact_error ("predefined-command tool " +:+ tool_id
           +:+ " references unknown trusted command " +:+ debug_str command_id)));
      Ok (command command_id argv (executable_of trusted) None)
  | SOwnScript, CmdOwnScript command_id =>
      Ok (command command_id [] OWN_SCRIPT_RUNNER_POSIX_SH (Some PosixSh))
  | _, _ =>
      Err (InvalidArtifact (policy_artifact_error ("tool " +:+ tool_id
             +:+ " command shape does not match tool_kind")))
  end.

Definition empty_scope : PolicyScope := mkPolicyScope ∅ ∅ ∅ ∅.

Definition compile_policy_artifact (flow_ref : string) : result PolicyCompileError PolicyArtifact :=
  flow ← ok_or (flow_block registry flow_ref) (MissingFlow flow_ref);
  s ← collect_flow_policy_scope flow_fuel flow empty_scope;
  cs ← try_collect (fun tool_id =>
         tool ← expect (tool_block registry tool_id);
         command_policy_from_tool tool) (set_iter str_cmp (tool_ids s));
  let artifact := {|
    commands := cs;
    phase_scope :=
      map (fun '(phase_id, ids) => mkScope phase_id (set_iter str_cmp ids))
        (map_iter str_cmp (phase_tools s));
    policy_version := POLICY_VERSION_V0;
    runtime_limits := mkLimits true
      (if (1 <? len (flow_phase_refs flow)) || negb (bool_decide (flow_subflow_refs flow = []))
       then 60000 else 30000);
    source_flow_definition_id := id (flow_identity flow) |} in
  _ ← map_err InvalidArtifact (validate_artifact artifact);
  Ok artifact.

(** * The runtime's question *)

Definition command_policy_for_phase (policy : PolicyArtifact) (phase_id : string) (tool : ToolBlock)
    : result RuntimeError CommandPolicy :=
  let tool_id := id (tool_identity tool) in
  let scoped :=
    match List.find (fun phase => String.eqb (scope_phase_id phase) phase_id) (phase_scope policy) with
    | Some phase => existsb (fun id => String.eqb id tool_id) (scope_tool_ids phase)
    | None => false
    end in
  reject negb scoped with
    Protocol ("tool " +:+ tool_id +:+ " is not available in phase " +:+ phase_id) ;;
  ok_or (List.find (fun command => String.eqb (cp_tool_id command) tool_id) (commands policy))
    (Protocol ("runtime policy missing command for tool " +:+ tool_id)).
End policy.
