(* ===== verification/PolicyTheory.v ===== *)
(** What a compiled policy grants ([Policy]): exactly the Tools that the Phases of the Flow and of
    its Subflows declare, in those Phases, with the command lines the Tools declare. *)

From Stdlib Require Import ZArith Lia Ascii String.
From stdpp Require Import base strings sorting sets option gmap countable list.
From S2P Require Import Prelude Decimal Sorting Metadata Json FlowValue Paths Values ValuesTheory.
From S2P Require Import Blocks CanonicalBlock Registry NestingTheory RegistryTheory Errors PhaseControl Policy.

Open Scope Z_scope.

Section theory.
Context {J : JsonEnv}.
Context (r : ResolvedRegistry) (Hr : registry_ok r).

(** * Reachable Phases *)

Definition phase_child (a b : string) : Prop :=
  exists p, phases r !! a = Some p /\ b ∈ phase_phase_refs p.

Definition subflow (a b : string) : Prop :=
  exists f, flows r !! a = Some f /\ b ∈ flow_subflow_refs f.

(** Phase [q] belongs to Flow [root] or to one of its Subflows. *)
Definition uses_phase (root q : string) : Prop :=
  exists k f p, rtc subflow root k /\ flows r !! k = Some f /\ p ∈ flow_phase_refs f /\
    rtc phase_child p q.

Lemma phase_ref_resolves k p ref :
  phases r !! k = Some p -> ref ∈ phase_phase_refs p ->
  exists q, phase_block r ref = Some q /\ phases r !! ref = Some q.
Proof using Hr.
  intros Hk Hin.
  destruct (sq_refs _ _ _ _ (po_sequence _ _ (ro_phases _ Hr k p Hk)) ref Hin) as (q & Hq & _).
  exists q. split; [|done]. by apply phase_block_id.
Qed.

Lemma flow_phase_resolves k f ref :
  flows r !! k = Some f -> ref ∈ flow_phase_refs f ->
  exists q, phase_block r ref = Some q /\ phases r !! ref = Some q.
Proof using Hr.
  intros Hk Hin.
  destruct (sq_refs _ _ _ _ (fo_sequence _ _ (ro_flows _ Hr k f Hk)) ref Hin) as (q & Hq & _).
  exists q. split; [|done]. by apply phase_block_id.
Qed.

Lemma subflow_ref_resolves k f ref :
  flows r !! k = Some f -> ref ∈ flow_subflow_refs f ->
  exists g, flow_block r ref = Some g /\ flows r !! ref = Some g.
Proof using Hr.
  intros Hk Hin. destruct (fo_subflows _ _ (ro_flows _ Hr k f Hk) ref Hin) as [g Hg].
  exists g. split; [|done]. by apply flow_block_id.
Qed.

Lemma tool_ids_of_ok k p :
  phases r !! k = Some p -> tool_ids_of r (phase_tool_refs p) = Ok (phase_tool_refs p).
Proof using Hr.
  intros Hk. pose proof (po_tools _ _ (ro_phases _ Hr k p Hk)) as Ht.
  induction (phase_tool_refs p) as [|ref refs IH]; [done|]. cbn.
  destruct (Ht ref (list_elem_of_here _ _)) as [t Et].
  unfold tool_block, named_block. rewrite Et. cbn.
  rewrite IH by (intros x Hx; apply Ht; by right). cbn. by rewrite (ro_tool_ids _ Hr _ _ Et).
Qed.

(** * The collection *)

(** The scope holds the Tools of the visited Phases, and nothing else. *)
Record scope_inv (s : PolicyScope) : Prop := {
  si_tools : forall x, phase_tools s !! x =
    if decide (x ∈ visited_phases s)
    then (fun p => list_to_set (phase_tool_refs p)) <$> phases r !! x else None;
  si_ids : forall t, t ∈ tool_ids s <->
    exists x p, x ∈ visited_phases s /\ phases r !! x = Some p /\ t ∈ phase_tool_refs p;
  si_phases : forall x, x ∈ visited_phases s -> is_Some (phases r !! x);
}.

(** What the collection of the Phases [roots] adds. *)
Record collected (roots : list string) (s s' : PolicyScope) : Prop := {
  co_flows : visited_flows s' = visited_flows s;
  co_sub : visited_phases s ⊆ visited_phases s';
  co_roots : forall k, k ∈ roots -> k ∈ visited_phases s';
  co_new : forall x, x ∈ visited_phases s' -> x ∈ visited_phases s \/
    (exists k, k ∈ roots /\ rtc phase_child k x) /\ forall y, phase_child x y -> y ∈ visited_phases s';
}.

Lemma collected_app l1 l2 s s1 s2 :
  collected l1 s s1 -> collected l2 s1 s2 -> collected (l1 ++ l2) s s2.
Proof using Type.
  clear. intros [F1 S1 R1 N1] [F2 S2 R2 N2]. split; [congruence|set_solver|set_solver|].
  intros x Hx. destruct (N2 x Hx) as [Hx1|[(k & Hk & Hr) Hc]].
  - destruct (N1 x Hx1) as [|[(k & Hk & Hr) Hc]]; [by left|right]. split; [|set_solver].
    exists k. split; [set_solver|done].
  - right. split; [|done]. exists k. split; [set_solver|done].
Qed.

Lemma scope_inv_visit k p s :
  phases r !! k = Some p -> k ∉ visited_phases s -> scope_inv s ->
  scope_inv (mkPolicyScope
    (<[k := list_to_set (phase_tool_refs p) ∪ default ∅ (phase_tools s !! k)]> (phase_tools s))
    (list_to_set (phase_tool_refs p) ∪ tool_ids s) (visited_flows s) ({[k]} ∪ visited_phases s)).
Proof using Type.
  clear Hr. intros Hk Hn [It Ii Ip]. split; cbn.
  - intros x. destruct (decide (x = k)) as [->|Hne].
    + rewrite lookup_insert_eq, decide_True by set_solver. rewrite It, decide_False, Hk by done. cbn.
      by rewrite (right_id_L ∅ (∪)).
    + rewrite lookup_insert_ne, It by done. destruct (decide (x ∈ visited_phases s));
        [rewrite decide_True by set_solver; done|rewrite decide_False by set_solver; done].
  - intros t. rewrite elem_of_union, elem_of_list_to_set, Ii. split.
    + intros [Ht|(x & q & Hx & Hq & Ht)]; [exists k, p|exists x, q]; set_solver.
    + intros (x & q & [->%elem_of_singleton|Hx]%elem_of_union & Hq & Ht); [|right; by exists x, q].
      left. by rewrite Hk in Hq; injection Hq as ->.
  - intros x [->%elem_of_singleton|Hx]%elem_of_union; [by rewrite Hk|by apply Ip].
Qed.

(** A loop whose body collects one root. *)
Lemma collect_each_ok {A} (collect : A -> PolicyScope -> result PolicyCompileError PolicyScope)
    (I : PolicyScope -> Prop) (P : list A -> PolicyScope -> PolicyScope -> Prop) l s :
  (forall s, P [] s s) ->
  (forall l1 l2 s s1 s2, P l1 s s1 -> P l2 s1 s2 -> P (l1 ++ l2) s s2) ->
  (forall a s, a ∈ l -> I s -> exists s', collect a s = Ok s' /\ I s' /\ P [a] s s') ->
  I s -> exists s', collect_each collect l s = Ok s' /\ I s' /\ P l s s'.
Proof using Type.
  clear. intros Hnil Happ. revert s. induction l as [|a l IH]; intros s Hb Hs; cbn; [by exists s|].
  destruct (Hb a s (list_elem_of_here _ _) Hs) as (s1 & -> & Hs1 & H1). cbn.
  destruct (IH s1) as (s2 & H2 & Hs2 & HP); [intros x y Hx; apply Hb; by right|done|].
  exists s2. split_and!; [done..|]. by apply (Happ [a] l s s1).
Qed.

Lemma collect_phase_ok fuel k p s :
  phases r !! k = Some p -> (forall n, phase_chain r k n -> n <= Z.of_nat fuel) -> scope_inv s ->
  exists s', collect_phase_policy_scope r fuel p s = Ok s' /\ scope_inv s' /\ collected [k] s s'.
Proof using Hr.
  revert k p s. induction fuel as [|fuel IH]; intros k p s Hk Hd Hs.
  { specialize (Hd 1 (phase_chain_one r k p Hk)). lia. }
  cbn [collect_phase_policy_scope]. rewrite (ro_phase_ids _ Hr k p Hk).
  destruct (decide (k ∈ visited_phases s)) as [Hin|Hn].
  { exists s. split_and!; [done..|]. split; [done|done|set_solver|by left]. }
  rewrite (tool_ids_of_ok k p Hk). cbn [mbind result_bind].
  pose proof (scope_inv_visit k p s Hk Hn Hs) as Hs0.
  set (s0 := mkPolicyScope _ _ _ _) in *.
  destruct (collect_each_ok (fun child_ref s =>
      child ← expect (phase_block r child_ref); collect_phase_policy_scope r fuel child s)
    scope_inv collected (phase_phase_refs p) s0) as (s' & Hc & Hs' & [Cf Cs Cr Cn]).
  - intros s1. split; [done|done|set_solver|by left].
  - apply collected_app.
  - intros ref s1 Hin Hs1. destruct (phase_ref_resolves k p ref Hk Hin) as (q & -> & Hq). cbn.
    apply IH; [done| |done]. intros n Hch.
    specialize (Hd (n + 1) (phase_chain_more r k p ref n Hk Hin Hch)). lia.
  - done.
  - exists s'. split_and!; [done..|]. split; [by rewrite Cf| | |].
    + transitivity (visited_phases s0); [|done]. cbn. set_solver.
    + intros x ->%list_elem_of_singleton. apply Cs. cbn. set_solver.
    + intros x Hx. destruct (Cn x Hx) as [[->%elem_of_singleton|Hx0]%elem_of_union|[(c & Hc' & Hrc) Hy]].
      * right. split; [exists k; split; [by left|done]|]. intros y (q & Hq & Hy).
        rewrite Hk in Hq. injection Hq as <-. by apply Cr.
      * by left.
      * right. split; [|done]. exists k. split; [by left|]. eapply rtc_l; [by exists p|done].
Qed.

(** What the collection of the Flows [roots] adds. *)
Record flows_collected (roots : list string) (s s' : PolicyScope) : Prop := {
  fc_flows_sub : visited_flows s ⊆ visited_flows s';
  fc_phases_sub : visited_phases s ⊆ visited_phases s';
  fc_roots : forall k, k ∈ roots -> k ∈ visited_flows s';
  fc_new : forall k, k ∈ visited_flows s' -> k ∈ visited_flows s \/
    (exists root, root ∈ roots /\ rtc subflow root k) /\
    (forall y, subflow k y -> y ∈ visited_flows s') /\
    (forall f p, flows r !! k = Some f -> p ∈ flow_phase_refs f -> p ∈ visited_phases s');
  fc_phases : forall x, x ∈ visited_phases s' -> x ∈ visited_phases s \/
    (exists root, root ∈ roots /\ uses_phase root x) /\
    forall y, phase_child x y -> y ∈ visited_phases s';
}.

Lemma flows_collected_app l1 l2 s s1 s2 :
  flows_collected l1 s s1 -> flows_collected l2 s1 s2 -> flows_collected (l1 ++ l2) s s2.
Proof using Type.
  clear Hr. intros [F1 S1 R1 N1 P1] [F2 S2 R2 N2 P2]. split; [set_solver|set_solver|set_solver| |].
  - intros x Hx. destruct (N2 x Hx) as [Hx1|[(k & Hk & Hrr) [Hc Hp]]].
    + destruct (N1 x Hx1) as [|[(k & Hk & Hrr) [Hc Hp]]]; [by left|right]. split_and!.
      * exists k. split; [set_solver|done].
      * intros y Hy. by apply F2, Hc.
      * intros f p Hf Hin. by eapply S2, Hp.
    + right. split_and!; [|done..]. exists k. split; [set_solver|done].
  - intros x Hx. destruct (P2 x Hx) as [Hx1|[(k & Hk & Hrr) Hc]].
    + destruct (P1 x Hx1) as [|[(k & Hk & Hrr) Hc]]; [by left|right]. split; [|set_solver].
      exists k. split; [set_solver|done].
    + right. split; [|done]. exists k. split; [set_solver|done].
Qed.

Lemma collect_flow_ok fuel k f s :
  flows r !! k = Some f -> (forall n, flow_chain r k n -> n <= Z.of_nat fuel) -> scope_inv s ->
  exists s', collect_flow_policy_scope r fuel f s = Ok s' /\ scope_inv s' /\ flows_collected [k] s s'.
Proof using Hr.
  revert k f s. induction fuel as [|fuel IH]; intros k f s Hk Hd Hs.
  { specialize (Hd 1 (flow_chain_one r k f Hk)). lia. }
  cbn [collect_flow_policy_scope]. rewrite (ro_flow_ids _ Hr k f Hk).
  destruct (decide (k ∈ visited_flows s)) as [Hin|Hn].
  { exists s. split_and!; [done..|]. split; [done|done|set_solver|by left|by left]. }
  set (s0 := mkPolicyScope _ _ _ _). assert (scope_inv s0) as Hs0 by (by destruct Hs).
  destruct (collect_each_ok (fun phase_ref s =>
      phase ← expect (phase_block r phase_ref); collect_phase_policy_scope r phase_fuel phase s)
    scope_inv collected (flow_phase_refs f) s0) as (s1 & -> & Hs1 & [Pf Ps Pr Pn]).
  - intros s1. split; [done|done|set_solver|by left].
  - apply collected_app.
  - intros ref s1 Hin Hs1. destruct (flow_phase_resolves k f ref Hk Hin) as (q & -> & Hq). cbn [mbind result_bind expect].
    apply collect_phase_ok; [done| |done]. intros n Hch. by apply (ro_phase_depth _ Hr ref).
  - done.
  - cbn [mbind result_bind].
    destruct (collect_each_ok (fun subflow_ref s =>
        subflow ← expect (flow_block r subflow_ref); collect_flow_policy_scope r fuel subflow s)
      scope_inv flows_collected (flow_subflow_refs f) s1) as (s' & Hc & Hs' & [Ff Fp Fr Fn Fx]).
    + intros s2. split; [done|done|set_solver|by left|by left].
    + apply flows_collected_app.
    + intros ref s2 Hin Hs2. destruct (subflow_ref_resolves k f ref Hk Hin) as (g & -> & Hg). cbn.
      apply IH; [done| |done]. intros n Hch.
      specialize (Hd (n + 1) (flow_chain_more r k f ref n Hk Hin Hch)). lia.
    + done.
    + rewrite Pf in Ff, Fn. exists s'. split_and!; [done..|]. split.
      * cbn in Ff. set_solver.
      * cbn in Ps. set_solver.
      * intros x ->%list_elem_of_singleton. apply Ff. cbn. set_solver.
      * intros x Hx. destruct (Fn x Hx) as [[->%elem_of_singleton|Hx0]%elem_of_union|[(c & Hc' & Hrc) [Hy Hp]]].
        -- right. split_and!; [exists k; split; [by left|done]| |].
           ++ intros y (g & Hg & Hy). rewrite Hk in Hg. injection Hg as <-. by apply Fr.
           ++ intros g p Hg Hp. rewrite Hk in Hg. injection Hg as <-. by apply Fp, Pr.
        -- by left.
        -- right. split_and!; [|done..]. exists k. split; [by left|]. eapply rtc_l; [by exists f|done].
      * intros x Hx. destruct (Fx x Hx) as [Hx1|[(c & Hc' & Hu) Hy]].
        -- destruct (Pn x Hx1) as [|[(p & Hp & Hrp) Hy]]; [by left|right]. split; [|set_solver].
           exists k. split; [by left|]. by exists k, f, p.
        -- right. split; [|done]. exists k. split; [by left|].
           destruct Hu as (k' & g & p & Hrc & Hg & Hp & Hrp). exists k', g, p. split_and!; [|done..].
           eapply rtc_l; [by exists f|done].
Qed.

(** The Phases that are collected from an empty scope are those the Flow uses. *)
Lemma collect_flow_exact k f :
  flows r !! k = Some f ->
  exists s, collect_flow_policy_scope r flow_fuel f empty_scope = Ok s /\ scope_inv s /\
    forall x, x ∈ visited_phases s <-> uses_phase k x.
Proof using Hr.
  intros Hk. assert (scope_inv empty_scope) as He.
  { split; cbn; [intros x; by rewrite decide_False by set_solver| |set_solver].
    intros t. split; [set_solver|]. intros (x & p & Hx & _). set_solver. }
  destruct (collect_flow_ok flow_fuel k f empty_scope Hk) as (s & Hc & Hs & [Ff Fp Fr Fn Fx]); [|done|].
  { intros n Hch. by apply (ro_flow_depth _ Hr k). }
  exists s. split_and!; [done..|]. intros x. split.
  - intros Hx. destruct (Fx x Hx) as [H|[(c & ->%list_elem_of_singleton & Hu) _]]; [|exact Hu].
    by apply not_elem_of_empty in H.
  - intros (k' & g & p & Hrc & Hg & Hp & Hrp).
    assert (forall a, a ∈ visited_flows s -> forall y, subflow a y -> y ∈ visited_flows s) as Hcl.
    { intros a Ha. destruct (Fn a Ha) as [H|(_ & Hy & _)]; [by apply not_elem_of_empty in H|exact Hy]. }
    assert (forall a, a ∈ visited_phases s -> forall y, phase_child a y -> y ∈ visited_phases s) as Hcp.
    { intros a Ha. destruct (Fx a Ha) as [H|(_ & Hy)]; [by apply not_elem_of_empty in H|exact Hy]. }
    assert (k' ∈ visited_flows s) as Hk'.
    { assert (k ∈ visited_flows s) as H by (apply Fr; by left). clear -Hrc H Hcl.
      induction Hrc as [|a b c Hab _ IH]; [done|]. apply IH. by eapply Hcl. }
    assert (p ∈ visited_phases s) as Hpv.
    { destruct (Fn k' Hk') as [Ha|(_ & _ & Hph)]; [by apply not_elem_of_empty in Ha|by eapply Hph]. }
    clear -Hrp Hpv Hcp. induction Hrp as [|a b c Hab _ IH]; [done|]. apply IH. by eapply Hcp.
Qed.

(** * What is granted *)

Lemma find_scope (m : gmap string (gset string)) pid :
  List.find (fun sc => String.eqb (scope_phase_id sc) pid)
    (map (fun '(k, ids) => mkScope k (set_iter str_cmp ids)) (map_iter str_cmp m)) =
  (fun ids => mkScope pid (set_iter str_cmp ids)) <$> m !! pid.
Proof using Type.
  clear. destruct (List.find _ _) as [sc|] eqn:E.
  - apply find_some in E as [Hin Heq%String.eqb_eq]. apply in_map_iff in Hin as ([k ids] & <- & Hin).
    cbn in Heq. subst k. apply list_elem_of_In, elem_of_map_iter in Hin. by rewrite Hin.
  - destruct (m !! pid) as [ids|] eqn:Em; [|done]. exfalso.
    pose proof (find_none _ _ E (mkScope pid (set_iter str_cmp ids))) as H. cbn in H.
    rewrite String.eqb_refl in H. discriminate H. apply in_map_iff. exists (pid, ids). split; [done|].
    by apply list_elem_of_In, elem_of_map_iter.
Qed.

Lemma existsb_set_iter (ids : gset string) t :
  existsb (fun i => String.eqb i t) (set_iter str_cmp ids) = bool_decide (t ∈ ids).
Proof using Type.
  clear. apply eq_bool_prop_intro. rewrite !Is_true_true, existsb_exists, bool_decide_eq_true. split.
  - intros (x & Hin%list_elem_of_In%elem_of_set_iter & ->%String.eqb_eq). done.
  - intros Hin. exists t. split; [by apply list_elem_of_In, elem_of_set_iter|apply String.eqb_refl].
Qed.

Lemma command_of_tool_id t c : command_policy_from_tool t = Ok c -> cp_tool_id c = id (tool_identity t).
Proof using Type.
  clear. unfold command_policy_from_tool. destruct (tool_kind t), (tool_command t); try done.
  - intros (x & _ & [= <-])%bind_Ok_inv. done.
  - by intros [= <-].
Qed.

(** The commands, in the order of the Tool ids. *)
Lemma commands_of_tools l cs :
  try_collect (fun tid => tool ← expect (tool_block r tid); command_policy_from_tool tool) l = Ok cs ->
  (forall tid, tid ∈ l -> is_Some (tools r !! tid)) ->
  map cp_tool_id cs = l /\
  forall tid t, tid ∈ l -> tools r !! tid = Some t -> exists c,
    command_policy_from_tool t = Ok c /\
    List.find (fun c => String.eqb (cp_tool_id c) tid) cs = Some c.
Proof using Hr.
  revert cs. induction l as [|a l IH]; intros cs H Hl; cbn in H.
  { injection H as <-. split; [done|]. by intros tid t ?%elem_of_nil. }
  apply bind_Ok_inv in H as (c & Hc & H). apply bind_Ok_inv in H as (cs' & Hcs & [= <-]).
  apply bind_Ok_inv in Hc as (t & Ht%expect_Ok_inv & Hc).
  destruct (Hl a (list_elem_of_here _ _)) as [t' Ha]. unfold tool_block, named_block in Ht.
  rewrite Ha in Ht. injection Ht as ->.
  pose proof (command_of_tool_id t c Hc) as Hid. rewrite (ro_tool_ids _ Hr a t Ha) in Hid.
  destruct (IH cs' Hcs) as [Hm Hf]; [intros x Hx; apply Hl; by right|]. split; [cbn; by rewrite Hid, Hm|].
  intros tid t' Hin Ht'. cbn. rewrite Hid. destruct (String.eqb_spec a tid) as [->|Hne].
  - rewrite Ha in Ht'. injection Ht' as <-. by exists c.
  - apply elem_of_cons in Hin as [->|Hin]; [done|]. by apply Hf.
Qed.

(** A Tool is granted in the Phases of the Flow that declare it. *)
Definition granted (root pid tid : string) : Prop :=
  uses_phase root pid /\ exists p, phases r !! pid = Some p /\ tid ∈ phase_tool_refs p.

Lemma scope_granted s root pid tid :
  scope_inv s -> (forall x, x ∈ visited_phases s <-> uses_phase root x) ->
  (exists ids, phase_tools s !! pid = Some ids /\ tid ∈ ids) <-> granted root pid tid.
Proof using Type.
  clear. intros [It _ _] Hv. rewrite It. unfold granted. destruct (decide (pid ∈ visited_phases s)) as [Hin|Hn].
  - split.
    + intros (ids & (p & Hp & ->)%fmap_Some & Ht%elem_of_list_to_set). split; [by apply Hv|by exists p].
    + intros [_ (p & Hp & Ht)]. exists (list_to_set (phase_tool_refs p)). rewrite Hp.
      split; [done|by apply elem_of_list_to_set].
  - split; [by intros (ids & [=] & _)|]. intros [Hu%Hv _]. done.
Qed.

Lemma flow_block_keyed ref f : flow_block r ref = Some f -> flows r !! id (flow_identity f) = Some f.
Proof using Hr.
  unfold flow_block, named_block. destruct (flows r !! ref) as [g|] eqn:E.
  - intros [= ->]. by rewrite (ro_flow_ids _ Hr _ _ E).
  - intros (i & _ & Hi)%bind_Some. by rewrite (ro_flow_ids _ Hr _ _ Hi).
Qed.

Lemma compile_inv pattern_error ref a :
  compile_policy_artifact pattern_error r ref = Ok a ->
  exists f s cs, flow_block r ref = Some f /\ scope_inv s /\
    (forall x, x ∈ visited_phases s <-> uses_phase (id (flow_identity f)) x) /\
    map cp_tool_id cs = set_iter str_cmp (tool_ids s) /\
    (forall tid t, tid ∈ tool_ids s -> tools r !! tid = Some t -> exists c,
       command_policy_from_tool t = Ok c /\
       List.find (fun c => String.eqb (cp_tool_id c) tid) cs = Some c) /\
    commands a = cs /\
    phase_scope a = map (fun '(k, ids) => mkScope k (set_iter str_cmp ids)) (map_iter str_cmp (phase_tools s)).
Proof using Hr.
  intros H. unfold compile_policy_artifact in H.
  apply bind_Ok_inv in H as (f & Hf%ok_or_Ok_inv & H).
  destruct (collect_flow_exact _ f (flow_block_keyed _ _ Hf)) as (s & Hc & Hs & Hv).
  rewrite Hc in H. cbn [mbind result_bind] in H. apply bind_Ok_inv in H as (cs & Hcs & H).
  apply bind_Ok_inv in H as (u & _ & [= <-]).
  destruct (commands_of_tools _ _ Hcs) as [Hm Hfind].
  { intros tid Ht%elem_of_set_iter. apply Hs in Ht as (x & p & Hx & Hp & Ht).
    by apply (po_tools _ _ (ro_phases _ Hr x p Hp)). }
  exists f, s, cs. split_and!; try done. intros tid t Hin Ht. apply Hfind; [|done]. by apply elem_of_set_iter.
Qed.

Lemma grants_exactly pattern_error ref f a pid tid t :
  compile_policy_artifact pattern_error r ref = Ok a -> flow_block r ref = Some f ->
  tools r !! tid = Some t ->
  match command_policy_for_phase a pid t with
  | Ok c => granted (id (flow_identity f)) pid tid /\ command_policy_from_tool t = Ok c
  | Err _ => ~ granted (id (flow_identity f)) pid tid
  | Panic => False
  end.
Proof using Hr.
  intros (f' & s & cs & Hf & Hs & Hv & _ & Hfind & Hcs & Hps)%compile_inv Hf' Ht.
  rewrite Hf in Hf'. injection Hf' as ->. unfold command_policy_for_phase. rewrite Hps, find_scope, Hcs.
  rewrite (ro_tool_ids _ Hr tid t Ht).
  pose proof (scope_granted s _ pid tid Hs Hv) as Hg.
  destruct (phase_tools s !! pid) as [ids|] eqn:E; cbn [fmap option_fmap option_map].
  2:{ cbn. intros Hgr. apply Hg in Hgr as (ids & [=] & _). }
  cbn [scope_tool_ids]. rewrite existsb_set_iter. case_bool_decide as Hin; cbn [negb].
  - assert (granted (id (flow_identity f)) pid tid) as Hgr by (apply Hg; by exists ids).
    destruct (Hfind tid t) as (c & Hc & ->); [|done|by split].
    apply Hs. destruct Hgr as [Hu (p & Hp & Htp)]. exists pid, p. split_and!; [by apply Hv|done..].
  - intros Hgr. apply Hg in Hgr as (ids' & [= <-] & Hin'). done.
Qed.
End theory.

(** A compiled policy grants exactly what the Flow declares: asked for a Tool in a Phase, the
    runtime gets a command if and only if the Phase belongs to the Flow or one of its Subflows
    and declares the Tool, and the command is the one the Tool declares; otherwise it is refused. *)
Theorem policy_grants_exactly {J : JsonEnv} (pattern_error : string -> option string)
    (r : ResolvedRegistry) (flow_ref : string) (f : FlowBlock) (a : PolicyArtifact)
    (pid tid : string) (t : ToolBlock) :
  registry_ok r -> compile_policy_artifact pattern_error r flow_ref = Ok a ->
  flow_block r flow_ref = Some f -> tools r !! tid = Some t ->
  match command_policy_for_phase a pid t with
  | Ok c => granted r (id (flow_identity f)) pid tid /\ command_policy_from_tool t = Ok c
  | Err _ => ~ granted r (id (flow_identity f)) pid tid
  | Panic => False
  end.
Proof. intros Hr. by apply grants_exactly. Qed.

(** * When compilation succeeds *)

Section success.
Context {J : JsonEnv}.
Context (pattern_error : string -> option string).
Context (r : ResolvedRegistry) (Hr : registry_ok r) (Ht : tools_checked pattern_error r).

(** A predefined command must be one the runtime knows. *)
Definition trusted (t : ToolBlock) : Prop :=
  match tool_command t with
  | CmdPredefined command_id _ => is_Some (trusted_parse command_id)
  | CmdOwnScript _ => True
  end.

Lemma command_parameters_ok t c ps names :
  validate_tool_parameters pattern_error t ps names = Ok tt ->
  validate_command_parameters pattern_error c ps names = Ok tt.
Proof using Type.
  clear. revert names. induction ps as [|p ps IH]; intros names; cbn; [done|].
  destruct (allowed_parameter_validate pattern_error p) as [[]| |]; cbn; try done.
  destruct (decide _); [done|]. apply IH.
Qed.

#[local] Arguments trusted_parse : simpl never.
#[local] Arguments executable_of : simpl never.
#[local] Arguments is_valid_command_id : simpl never.

(** The command of a checked Tool passes validation, and exists exactly for trusted ones. *)
Lemma command_of_checked_tool k t :
  tools r !! k = Some t ->
  (trusted t -> exists c, command_policy_from_tool t = Ok c) /\
  (forall c, command_policy_from_tool t = Ok c -> trusted t /\ validate_command pattern_error c = Ok tt) /\
  command_policy_from_tool t <> Panic.
Proof using Ht.
  intros Hk. pose proof (Ht k t Hk) as Hs. unfold validate_tool_semantics in Hs.
  apply bind_Ok_inv in Hs as ([] & Hs & Hp).
  unfold trusted, command_policy_from_tool, validate_command, validate_command_shape.
  destruct (tool_kind t) eqn:Ek, (tool_command t) as [cid args|cmd] eqn:Ec; try done.
  - inv_ok. apply negb_false_iff in Hb. split_and!.
    + intros [x ->]. by eexists.
    + intros c (x & Hx%ok_or_Ok_inv & [= <-])%bind_Ok_inv. split; [by exists x|]. cbn.
      rewrite ?Ek, Hb. cbn. rewrite Hx. cbn. rewrite String.eqb_refl. cbn.
      rewrite (command_parameters_ok t _ _ _ Hp). done.
    + destruct (trusted_parse cid); done.
  - inv_ok. apply negb_false_iff, String.eqb_eq in Hb. subst cmd. split_and!; [by eexists| |done].
    intros c [= <-]. split; [done|]. cbn. rewrite ?Ek, !String.eqb_refl. cbn.
    by rewrite (command_parameters_ok t _ _ _ Hp).
Qed.

Lemma command_ids_ok cs seen :
  NoDup (map cp_tool_id cs) -> (forall c, c ∈ map cp_tool_id cs -> c ∉ seen) ->
  exists ids, command_ids cs seen = Ok ids /\ forall x, x ∈ ids <-> x ∈ seen \/ x ∈ map cp_tool_id cs.
Proof using Type.
  clear. revert seen. induction cs as [|c cs IH]; intros seen; cbn.
  { intros _ _. exists seen. split; [done|set_solver]. }
  intros [Hn Hnd]%NoDup_cons Hs. rewrite decide_False by (apply Hs; by left).
  destruct (IH ({[cp_tool_id c]} ∪ seen) Hnd) as (ids & -> & Hids).
  - intros x Hx. specialize (Hs x (list_elem_of_further _ _ _ Hx)). set_solver.
  - exists ids. split; [done|]. intros x. rewrite Hids. set_solver.
Qed.

Lemma scope_tools_ok pid known l seen scoped :
  NoDup l -> (forall t, t ∈ l -> t ∈ known /\ t ∉ seen) ->
  scope_tools pid known l seen scoped = Ok (list_to_set l ∪ scoped).
Proof using Type.
  clear. revert seen scoped. induction l as [|t l IH]; intros seen scoped; cbn.
  { intros _ _. by rewrite (left_id_L ∅ (∪)). }
  intros [Hn Hnd]%NoDup_cons Hl. destruct (Hl t (list_elem_of_here _ _)) as [Hk Hs].
  rewrite bool_decide_eq_true_2 by done. cbn. rewrite decide_False by done.
  rewrite IH; [f_equal; set_solver|done|].
  intros x Hx. destruct (Hl x (list_elem_of_further _ _ _ Hx)). split; [done|]. set_solver.
Qed.

Lemma scope_phases_ok known (l : list (string * gset string)) seen scoped :
  NoDup l.*1 -> (forall k ids, (k, ids) ∈ l -> (k ∉ seen) /\ (ids ⊆ known)) ->
  exists ids, scope_phases known (map (fun '(k, ids) => mkScope k (set_iter str_cmp ids)) l) seen scoped
      = Ok ids /\
    forall x, x ∈ ids <-> x ∈ scoped \/ exists k ids, (k, ids) ∈ l /\ x ∈ ids.
Proof using Type.
  clear. revert seen scoped. induction l as [|[k ids] l IH]; intros seen scoped; cbn.
  { intros _ _. exists scoped. split; [done|]. intros x. split; [by left|].
    intros [|(? & ? & ?%elem_of_nil & _)]; done. }
  intros [Hn Hnd]%NoDup_cons Hl. destruct (Hl k ids (list_elem_of_here _ _)) as [Hk Hs].
  rewrite decide_False by done. rewrite scope_tools_ok;
    [|apply NoDup_set_iter|intros t Hin%elem_of_set_iter; split; set_solver]. cbn.
  destruct (IH ({[k]} ∪ seen) (list_to_set (set_iter str_cmp ids) ∪ scoped) Hnd) as (out & -> & Hout).
  - intros k' ids' Hin. destruct (Hl k' ids' (list_elem_of_further _ _ _ Hin)) as [Hk' Hs'].
    split; [|done]. intros [->%elem_of_singleton|]%elem_of_union; [|done]. apply Hn.
    apply list_elem_of_fmap. by exists (k, ids').
  - exists out. split; [done|]. intros x. rewrite Hout, elem_of_union, elem_of_list_to_set, elem_of_set_iter.
    split.
    + intros [[Hx|Hx]|(k' & ids' & Hin & Hx)]; [right; exists k, ids; split; [by left|done]|by left|].
      right. exists k', ids'. split; [by right|done].
    + intros [Hx|(k' & ids' & [[= -> ->]|Hin]%elem_of_cons & Hx)]; [by left; right|by left; left|].
      right. by exists k', ids'.
Qed.

Lemma try_collect_all {E A B} (f : A -> result E B) l :
  (forall a, a ∈ l -> exists b, f a = Ok b) -> exists bs, try_collect f l = Ok bs /\ Forall2 (fun a b => f a = Ok b) l bs.
Proof using Type.
  clear. induction l as [|a l IH]; intros H; cbn; [exists []; split; [done|constructor]|].
  destruct (H a (list_elem_of_here _ _)) as [b Hb]. rewrite Hb. cbn.
  destruct IH as (bs & -> & Hbs); [intros x Hx; apply H; by right|]. cbn.
  exists (b :: bs). split; [done|by constructor].
Qed.

Lemma tool_block_id tid t : tools r !! tid = Some t -> tool_block r tid = Some t.
Proof using Type. clear. intros H. unfold tool_block, named_block. by rewrite H. Qed.

(** The artifact that is built passes validation. *)
Lemma artifact_valid s cs limits source root :
  scope_inv r s -> (forall x, x ∈ visited_phases s <-> uses_phase r root x) ->
  map cp_tool_id cs = set_iter str_cmp (tool_ids s) ->
  Forall (fun c => validate_command pattern_error c = Ok tt) cs ->
  validate_artifact pattern_error {|
    commands := cs;
    phase_scope := map (fun '(k, ids) => mkScope k (set_iter str_cmp ids)) (map_iter str_cmp (phase_tools s));
    policy_version := POLICY_VERSION_V0; runtime_limits := limits;
    source_flow_definition_id := source |} = Ok tt.
Proof using Type.
  clear Hr Ht. intros Hs Hv Hm Hall. unfold validate_artifact. cbn [policy_version commands].
  rewrite String.eqb_refl. cbn [negb].
  assert (try_for_each (validate_command pattern_error) cs = Ok tt) as -> by (by apply try_for_each_Ok).
  cbn [mbind result_bind]. unfold validate_phase_scope. cbn [commands phase_scope].
  destruct (command_ids_ok cs ∅) as (known & -> & Hknown); [rewrite Hm; apply NoDup_set_iter|set_solver|].
  cbn [mbind result_bind].
  assert (forall x, x ∈ known <-> x ∈ tool_ids s) as Hkn.
  { intros x. rewrite Hknown, Hm, elem_of_set_iter. set_solver. }
  assert (forall k ids t, phase_tools s !! k = Some ids -> t ∈ ids -> t ∈ tool_ids s) as Hin.
  { intros k ids t Hk Hti. apply (si_ids _ _ Hs). rewrite (si_tools _ _ Hs) in Hk.
    destruct (decide (k ∈ visited_phases s)) as [Hin|]; [|done].
    apply fmap_Some in Hk as (p & Hp & ->). apply elem_of_list_to_set in Hti. by exists k, p. }
  destruct (scope_phases_ok known (map_iter str_cmp (phase_tools s)) ∅ ∅) as (scoped & -> & Hscoped).
  - apply NoDup_map_iter.
  - intros k ids Hk%elem_of_map_iter. split; [set_solver|]. intros t Hti. by eapply Hkn, Hin.
  - cbn [mbind result_bind]. apply try_for_each_Ok, Forall_forall. intros t Hti%elem_of_set_iter%Hkn.
    rewrite decide_True; [done|]. apply Hscoped. right.
    apply (si_ids _ _ Hs) in Hti as (x & p & Hx & Hp & Htp).
    exists x, (list_to_set (phase_tool_refs p)). rewrite elem_of_map_iter, (si_tools _ _ Hs), decide_True, Hp by done.
    split; [done|by apply elem_of_list_to_set].
Qed.

Lemma compile_checked flow_ref f :
  flow_block r flow_ref = Some f ->
  (forall pid p tid t, uses_phase r (id (flow_identity f)) pid -> phases r !! pid = Some p ->
     tid ∈ phase_tool_refs p -> tools r !! tid = Some t -> trusted t) ->
  exists a, compile_policy_artifact pattern_error r flow_ref = Ok a.
Proof using Hr Ht.
  intros Hf Htr. unfold compile_policy_artifact. rewrite Hf. cbn [mbind result_bind ok_or].
  destruct (collect_flow_exact r Hr _ f (flow_block_keyed r Hr _ _ Hf)) as (s & -> & Hs & Hv).
  cbn [mbind result_bind].
  assert (forall tid, tid ∈ set_iter str_cmp (tool_ids s) -> exists t, tools r !! tid = Some t /\ trusted t) as Htools.
  { intros tid Hti%elem_of_set_iter. apply (si_ids _ _ Hs) in Hti as (x & p & Hx%Hv & Hp & Hti).
    destruct (po_tools _ _ (ro_phases _ Hr x p Hp) tid Hti) as [t Et]. exists t. split; [done|]. by eapply Htr. }
  destruct (try_collect_all (fun tid => tool ← expect (tool_block r tid); command_policy_from_tool tool)
    (set_iter str_cmp (tool_ids s))) as (cs & Hcs & Hall).
  { intros tid Hti. destruct (Htools tid Hti) as (t & Et & Htt). rewrite (tool_block_id _ _ Et). cbn.
    by apply (command_of_checked_tool tid t Et). }
  rewrite Hcs. cbn [mbind result_bind].
  destruct (commands_of_tools r Hr _ _ Hcs) as [Hm _].
  { intros tid Hti. destruct (Htools tid Hti) as (t & Et & _). by exists t. }
  rewrite (artifact_valid s cs _ _ _ Hs Hv Hm); [by eexists|].
  apply Forall_forall. intros c Hc.
  apply list_elem_of_lookup in Hc as [i Hi].
  destruct (Forall2_lookup_r _ _ _ _ _ Hall Hi) as (tid & Hti & H).
  apply list_elem_of_lookup_2 in Hti. destruct (Htools tid Hti) as (t & Et & _).
  rewrite (tool_block_id _ _ Et) in H. cbn in H. by apply (command_of_checked_tool tid t Et).
Qed.

Lemma compile_trusted flow_ref a f :
  compile_policy_artifact pattern_error r flow_ref = Ok a -> flow_block r flow_ref = Some f ->
  forall pid p tid t, uses_phase r (id (flow_identity f)) pid -> phases r !! pid = Some p ->
    tid ∈ phase_tool_refs p -> tools r !! tid = Some t -> trusted t.
Proof using Hr Ht.
  intros (f' & s & cs & Hf & Hs & Hv & _ & Hfind & _)%(compile_inv r Hr) Hf'. rewrite Hf in Hf'.
  injection Hf' as ->. intros pid p tid t Hu Hp Hti Et.
  destruct (Hfind tid t) as (c & Hc & _); [|done|by destruct (proj1 (proj2 (command_of_checked_tool tid t Et)) c Hc)].
  apply (si_ids _ _ Hs). exists pid, p. split_and!; [by apply Hv|done..].
Qed.

Lemma scope_tools_no_panic pid known l seen scoped : scope_tools pid known l seen scoped <> Panic.
Proof using Type.
  clear. revert seen scoped. induction l as [|t l IH]; intros seen scoped; cbn; [done|].
  destruct (negb _); [done|]. destruct (decide _); [done|apply IH].
Qed.

Lemma scope_phases_no_panic known l seen scoped : scope_phases known l seen scoped <> Panic.
Proof using Type.
  clear. revert seen scoped. induction l as [|sc l IH]; intros seen scoped; cbn; [done|].
  destruct (decide _); [done|]. apply bind_no_panic; [apply scope_tools_no_panic|intros; apply IH].
Qed.

Lemma compile_no_panic flow_ref : compile_policy_artifact pattern_error r flow_ref <> Panic.
Proof using Hr Ht.
  unfold compile_policy_artifact. destruct (flow_block r flow_ref) as [f|] eqn:Hf; [|done].
  cbn [mbind result_bind ok_or].
  destruct (collect_flow_exact r Hr _ f (flow_block_keyed r Hr _ _ Hf)) as (s & -> & Hs & Hv).
  cbn [mbind result_bind]. apply bind_no_panic.
  - assert (forall tid, tid ∈ set_iter str_cmp (tool_ids s) -> exists t, tools r !! tid = Some t) as Htools.
    { intros tid Hti%elem_of_set_iter. apply (si_ids _ _ Hs) in Hti as (x & p & Hx%Hv & Hp & Hti).
      destruct (po_tools _ _ (ro_phases _ Hr x p Hp) tid Hti) as [t Et]. by exists t. }
    induction (set_iter str_cmp (tool_ids s)) as [|tid l IH]; [done|]. cbn.
    destruct (Htools tid (list_elem_of_here _ _)) as [t Et]. rewrite (tool_block_id _ _ Et). cbn.
    apply bind_no_panic; [by apply (command_of_checked_tool tid t Et)|]. intros c _.
    apply bind_no_panic; [|done]. apply IH. intros x Hx. apply Htools. by right.
  - intros cs _. apply bind_no_panic; [|done]. apply map_err_no_panic.
    unfold validate_artifact, validate_phase_scope.
    assert (forall c, validate_command pattern_error c <> Panic) as Hc.
    { intros c. unfold validate_command, validate_command_shape, validate_environment, validate_environment_allow_name.
      apply bind_no_panic; [destruct (cp_tool_kind c); no_panic|]. intros _ _.
      apply bind_no_panic; [|intros _ _; apply try_for_each_no_panic; intros x; no_panic].
      generalize (∅ : gset string). induction (allowed_parameters c) as [|p ps IH]; intros names; cbn; [done|].
      apply bind_no_panic; [|intros _ _; destruct (decide _); [done|apply IH]].
      apply map_err_no_panic. unfold allowed_parameter_validate.
      destruct (ap_value_type p); no_panic. }
    apply (bind_no_panic (try_for_each _ _)); [by apply try_for_each_no_panic|]. intros _ _. cbn [commands].
    apply bind_no_panic.
    { generalize (∅ : gset string). induction cs as [|c cs IH]; intros seen; cbn; [done|].
      destruct (decide _); [done|apply IH]. }
    intros known _. apply bind_no_panic; [|intros scoped _; apply try_for_each_no_panic; intros x; by destruct (decide _)].
    apply scope_phases_no_panic.
Qed.
End success.

(** Compilation of a policy succeeds exactly when every Tool the Flow can reach is either a
    script of its own or a predefined command the runtime trusts; it never panics. *)
Theorem compile_policy_exact {J : JsonEnv} (pattern_error : string -> option string)
    (r : ResolvedRegistry) (flow_ref : string) (f : FlowBlock) :
  registry_ok r -> tools_checked pattern_error r -> flow_block r flow_ref = Some f ->
  compile_policy_artifact pattern_error r flow_ref <> Panic /\
  ((exists a, compile_policy_artifact pattern_error r flow_ref = Ok a) <->
   forall pid tid t, granted r (id (flow_identity f)) pid tid -> tools r !! tid = Some t -> trusted t).
Proof.
  intros Hr Ht Hf. split; [by apply compile_no_panic|]. split.
  - intros [a Ha] pid tid t [Hu (p & Hp & Hin)] Et. by eapply compile_trusted.
  - intros H. apply compile_checked with f; [done..|]. intros pid p tid t Hu Hp Hin Et.
    eapply H; [split; [exact Hu|by exists p]|done].
Qed.
