(* ===== verification/ScriptExamples.v ===== *)
(** A small registry, resolved, its composite Phase, run, and the policy of a Flow with one Tool:
    the theorems of [RegistryTheory], [PhaseControlTheory] and [PolicyTheory] at concrete inputs. *)

From Stdlib Require Import ZArith Lia Ascii String.
From stdpp Require Import base strings sorting sets option gmap countable list.
From S2P Require Import Prelude Decimal Sorting Metadata Json FlowValue Event Lifecycle Paths Values ValuesTheory.
From S2P Require Import Blocks CanonicalBlock Registry NestingTheory RegistryTheory.
From S2P Require Import Errors EffectTheory PhaseControl PhaseControlTheory Policy PolicyTheory.

Open Scope Z_scope.

Definition verdict_contract : ValueContract := CMap [mkField "approved" true CBoolean].

Definition when_approved : ValuePredicate := mkPredicate [SegField "approved"] (FBoolean true).

Definition demo_instruction : InstructionBlock :=
  mkInstruction (mkIdentity "write" "Write it") "Write the text." [].

Definition leaf_phase (id name : string) (loop : option PhaseLoop) : PhaseBlock :=
  mkPhase (mkIdentity id name) ["Write it"] [] [] verdict_contract None loop [].

(** A composite Phase that refers to its children by name. *)
Definition work_phase : PhaseBlock :=
  mkPhase (mkIdentity "work" "Work") [] [] ["Draft"; "Check"; "Polish"] verdict_contract
    (Some "Polish") None [mkTransition "Draft" "Polish" when_approved].

Definition demo_flow : FlowBlock := mkFlow (mkIdentity "main" "Main") ["Work"] [] [].

Definition demo_blocks : list RegistryBlock :=
  [RInstruction demo_instruction; RPhase (leaf_phase "draft" "Draft" (Some (mkLoop 3 when_approved)));
   RPhase (leaf_phase "check" "Check" None); RPhase (leaf_phase "polish" "Polish" None);
   RPhase work_phase; RFlow demo_flow].

(** A serde form for these blocks: a block is written as its kind, its id and its strings. *)
Definition demo_value_of (b : RegistryBlock) : Value :=
  let '(kind, identity) := kind_and_identity b in
  JArray (JString (kind_as_str kind) :: JString (id identity) :: map JString (block_strings b)).

Definition demo_to_value (b : RegistryBlock) : result string Value := Ok (demo_value_of b).

Definition demo_of_str (text : string) : result string RegistryBlock :=
  ok_or (find_map (fun b =>
    match @canonical_json plain_json (demo_value_of b) with
    | Ok t => if String.eqb t text then Some b else None
    | _ => None
    end) demo_blocks) "unknown block".

Definition no_pattern_error : string -> option string := fun _ => None.

Definition demo_build : ResolvedRegistry * NameIds :=
  match @insert_blocks plain_json no_pattern_error demo_to_value demo_of_str empty_registry ∅ demo_blocks with
  | Ok p => p
  | _ => (empty_registry, ∅)
  end.

Definition demo_registry : ResolvedRegistry :=
  match @from_blocks plain_json no_pattern_error demo_to_value demo_of_str demo_blocks with
  | Ok r => r
  | _ => empty_registry
  end.

Lemma demo_reads_normalized : @reads_normalized plain_json demo_of_str.
Proof. intros v text b _ _. apply Forall_forall. intros s _. reflexivity. Qed.

Lemma demo_build_ok : @build_ok plain_json (with_names demo_build.1 demo_build.2) demo_build.2.
Proof.
  apply with_names_build_ok.
  apply (@insert_blocks_ok plain_json no_pattern_error demo_to_value demo_of_str empty_registry ∅ demo_blocks).
  - apply demo_reads_normalized.
  - apply build_ok_empty.
  - vm_compute. reflexivity.
Qed.

Lemma demo_registry_ok : @registry_ok plain_json demo_registry.
Proof.
  assert (demo_registry = with_canonical_references (with_names demo_build.1 demo_build.2)) as ->
    by (vm_compute; reflexivity).
  apply (@validate_references_registry_ok plain_json _ demo_build_ok). vm_compute. reflexivity.
Qed.

Lemma from_blocks_ok_witness : @registry_ok plain_json demo_registry.
Proof.
  apply (@from_blocks_ok plain_json no_pattern_error demo_to_value demo_of_str demo_blocks).
  - apply demo_reads_normalized.
  - vm_compute. reflexivity.
Defined.

Lemma from_blocks_lookup_witness :
  @phase_block plain_json demo_registry "Polish" =
    Some (canonical_phase (name_ids demo_registry) (leaf_phase "polish" "Polish" None)).
Proof.
  apply (@from_blocks_lookup plain_json no_pattern_error demo_to_value demo_of_str demo_blocks demo_registry
           (RPhase (leaf_phase "polish" "Polish" None)) (RPhase (leaf_phase "polish" "Polish" None))).
  - apply demo_reads_normalized.
  - vm_compute. reflexivity.
  - unfold demo_blocks. do 3 apply list_elem_of_further. apply list_elem_of_here.
  - vm_compute. reflexivity.
  - by right.
Defined.

Lemma validate_phase_cycles_exact_witness :
  let r := with_names demo_build.1 demo_build.2 in
  (forall k n, phase_chain (with_canonical_references r) k n -> n <= 16) /\
  (forall k p, phases r !! k = Some p -> len (phase_phase_refs p) <= 32).
Proof.
  intros r. apply (@validate_phase_cycles_exact plain_json r).
  - apply demo_build_ok.
  - apply (@validate_references_Ok plain_json r). vm_compute. reflexivity.
  - vm_compute. reflexivity.
Defined.

Definition approval (b : bool) : FlowValue := FMap [("approved", FBoolean b)].

(** A Phase that notes that it ran; the first draft is approved at once. *)
Definition noting_phase (p : PhaseBlock) (input : option FlowValue) : eff (list string) ExecutionOutcome :=
  fun log => (log ++ [id (phase_identity p)], Ok (Completed (Some (approval true)))).

Definition work_refs : list string := ["draft"; "check"; "polish"].
Definition work_transitions : list PhaseTransition := [mkTransition "draft" "polish" when_approved].

Lemma work_sequence_ok :
  @sequence_ok plain_json demo_registry work_refs work_transitions (Some "polish").
Proof.
  destruct (phases demo_registry !! "work") as [p|] eqn:E; [|vm_compute in E; discriminate E].
  pose proof (@po_sequence plain_json _ _ (@ro_phases plain_json _ demo_registry_ok "work" p E)) as H.
  assert (p = canonical_phase (name_ids demo_registry) work_phase) as ->
    by (apply (inj Some); rewrite <- E; vm_compute; reflexivity).
  exact H.
Qed.

(** Only Phases of the sequence are noted. *)
Definition noted (log : list string) : Prop := Forall (fun x => x ∈ work_refs) log.

Lemma work_phase_facts ref p :
  ref ∈ work_refs -> phases demo_registry !! ref = Some p ->
  phase_output p = verdict_contract /\ id (phase_identity p) = ref.
Proof.
  intros Hin Hp. unfold work_refs in Hin. rewrite !elem_of_cons in Hin.
  destruct Hin as [->|[->|[->|Hin]]]; [vm_compute in Hp; by injection Hp as <-..|].
  apply elem_of_nil in Hin. destruct Hin.
Qed.

Lemma noting_phase_respects : @phase_respects plain_json _ demo_registry noting_phase work_refs noted.
Proof.
  intros ref p input Hin Hp log Hlog. destruct (work_phase_facts ref p Hin Hp) as [Ho Hid].
  clear Hp. split_and!; [|discriminate|].
  - apply Forall_app. split; [exact Hlog|]. rewrite Hid. constructor; [exact Hin|constructor].
  - intros o [= <-] v [= <-]. rewrite Ho. vm_compute. reflexivity.
Qed.

(** The draft is approved, so the check is skipped and the polished text is the result. *)
Example work_runs :
  @emit_phase_sequence plain_json _ demo_registry noting_phase work_refs work_transitions None
    (Some "polish") [] = (["draft"; "polish"], Ok (Completed (Some (approval true)))).
Proof. vm_compute. reflexivity. Qed.

Lemma emit_phase_sequence_spec_witness :
  exists trace,
    walk demo_registry noting_phase work_refs work_transitions 0 None [] trace
      ["draft"; "polish"] /\
    sequence_result work_refs (Some "polish") None trace (Some (approval true)).
Proof.
  pose proof (@emit_phase_sequence_spec plain_json _ demo_registry noting_phase work_refs
    work_transitions (Some "polish") None noted [] work_sequence_ok noting_phase_respects
    (Forall_nil_2 _)) as H.
  rewrite work_runs in H. destruct H as (_ & _ & H). apply H. reflexivity.
Defined.

Definition echo_tool : ToolBlock :=
  mkTool (mkIdentity "say" "Say") SPredefinedCommand (CmdPredefined "agent-echo" ["hello"]) None None [].

Definition tool_phase : PhaseBlock :=
  mkPhase (mkIdentity "talk" "Talk") [] ["Say"] [] verdict_contract None None [].

Definition talk_flow : FlowBlock := mkFlow (mkIdentity "talking" "Talking") ["Talk"] [] [].

Definition policy_blocks : list RegistryBlock := [RTool echo_tool; RPhase tool_phase; RFlow talk_flow].

Definition policy_of_str (text : string) : result string RegistryBlock :=
  ok_or (find_map (fun b =>
    match @canonical_json plain_json (demo_value_of b) with
    | Ok t => if String.eqb t text then Some b else None
    | _ => None
    end) policy_blocks) "unknown block".

Definition policy_build : ResolvedRegistry * NameIds :=
  match @insert_blocks plain_json no_pattern_error demo_to_value policy_of_str empty_registry ∅ policy_blocks with
  | Ok p => p
  | _ => (empty_registry, ∅)
  end.

Definition policy_registry : ResolvedRegistry :=
  with_canonical_references (with_names policy_build.1 policy_build.2).

Lemma policy_registry_ok : @registry_ok plain_json policy_registry.
Proof.
  apply (@validate_references_registry_ok plain_json); [|vm_compute; reflexivity].
  apply with_names_build_ok.
  apply (@insert_blocks_ok plain_json no_pattern_error demo_to_value policy_of_str empty_registry ∅ policy_blocks).
  - intros v text b _ _. apply Forall_forall. intros s _. reflexivity.
  - apply build_ok_empty.
  - vm_compute. reflexivity.
Qed.

Lemma policy_tools_checked : @tools_checked plain_json no_pattern_error policy_registry.
Proof.
  apply (@from_blocks_tools plain_json no_pattern_error demo_to_value policy_of_str policy_blocks).
  vm_compute. reflexivity.
Qed.

Definition policy_artifact : PolicyArtifact :=
  match @compile_policy_artifact plain_json no_pattern_error policy_registry "Talking" with
  | Ok a => a
  | _ => mkArtifact [] [] "" (mkLimits true 0) ""
  end.

(** The Tool is granted in its Phase, and refused in another. *)
Example echo_granted :
  match command_policy_for_phase policy_artifact "talk" echo_tool with
  | Ok c => argv c = ["hello"] /\ executable c = "registry:agent-echo"
  | _ => False
  end.
Proof. vm_compute. split; reflexivity. Qed.

Lemma policy_grants_exactly_witness : ~ granted policy_registry "talking" "other" "say".
Proof.
  pose proof (@policy_grants_exactly plain_json no_pattern_error policy_registry "Talking"
    (canonical_flow (name_ids policy_registry) talk_flow) policy_artifact "other" "say" echo_tool
    policy_registry_ok) as H.
  assert (command_policy_for_phase policy_artifact "other" echo_tool
    = Err (Protocol "tool say is not available in phase other")) as E by (vm_compute; reflexivity).
  rewrite E in H. apply H; vm_compute; reflexivity.
Defined.

Lemma compile_policy_exact_witness :
  @compile_policy_artifact plain_json no_pattern_error policy_registry "Talking" <> Panic /\
  (forall pid tid t, granted policy_registry "talking" pid tid -> tools policy_registry !! tid = Some t -> trusted t).
Proof.
  assert (@flow_block plain_json policy_registry "Talking" = Some (canonical_flow (name_ids policy_registry) talk_flow)) as Hf
    by (vm_compute; reflexivity).
  destruct (@compile_policy_exact plain_json no_pattern_error policy_registry "Talking" _
    policy_registry_ok policy_tools_checked Hf) as [Hp Hx].
  split; [exact Hp|]. apply Hx. exists policy_artifact. vm_compute. reflexivity.
Defined.
