(* ===== verification/OwnScript.v ===== *)
(** The deterministic interpreter of own-script Tools
    ([flow-agent-core/src/runtime/fixture_tools/own_script.rs], and
    [normalize_script_write_target] of [script_output/target.rs]): which file a script writes, and
    with which contents.

    Quotes, [>], [%] and [\ ] are ASCII, so a scan over characters is one over bytes; characters
    matter for white space and in messages. *)

From Stdlib Require Import ZArith Lia Ascii String.
From stdpp Require Import base strings sorting sets option gmap countable list.
From S2P Require Import Prelude Decimal Sorting Metadata Json FlowValue Event Lifecycle Validate.
From S2P Require Import Paths Values Blocks Errors.

Open Scope Z_scope.

(** * Characters *)

Definition is_continuation (a : ascii) : bool := (128 <=? byte a) && (byte a <=? 191).

(** [str::chars], each character as its UTF-8 bytes. *)
Fixpoint chars (s : string) : list string :=
  match s with
  | EmptyString => []
  | String a s' =>
      match chars s' with
      | c :: cs =>
          match c with
          | String b _ => if is_continuation b then String a c :: cs else String a "" :: c :: cs
          | EmptyString => String a "" :: c :: cs
          end
      | [] => [String a ""]
      end
  end.

Fixpoint concat_chars (cs : list string) : string :=
  match cs with [] => "" | c :: cs => c +:+ concat_chars cs end.

Fixpoint drop_blank (cs : list string) : list string :=
  match cs with
  | [] => []
  | c :: cs => if is_blank c then drop_blank cs else c :: cs
  end.

(** [str::trim]: Unicode white space. *)
Definition trim (s : string) : string :=
  concat_chars (rev (drop_blank (rev (drop_blank (chars s))))).

(** [str::split_whitespace().count()]. *)
Fixpoint count_words (cs : list string) (in_word : bool) : Z :=
  match cs with
  | [] => 0
  | c :: cs =>
      if is_blank c then count_words cs false
      else (if in_word then 0 else 1) + count_words cs true
  end.

(** [str::lines]: a carriage return goes with the line feed after it. *)
Fixpoint strip_returns (pieces : list string) : list string :=
  match pieces with
  | [] => []
  | [p] => if String.eqb p "" then [] else [p]
  | p :: pieces => default p (strip_suffix_char cr p) :: strip_returns pieces
  end.

Definition lines (s : string) : list string := strip_returns (split lf s).

(** [s[..i]] and [s[i..]]. *)
Fixpoint str_take (n : nat) (s : string) : string :=
  match n, s with S n, String a s => String a (str_take n s) | _, _ => "" end.

Fixpoint str_drop (n : nat) (s : string) : string :=
  match n, s with S n, String _ s => str_drop n s | _, _ => s end.

Definition single_quote : ascii := ascii_of_N 39.
Definition double_quote : ascii := ascii_of_N 34.
Definition greater : ascii := ascii_of_N 62.
Definition percent : ascii := ascii_of_N 37.
Definition dollar : ascii := ascii_of_N 36.
Definition backtick : ascii := ascii_of_N 96.

Definition is_quote (a : ascii) : bool := Ascii.eqb a single_quote || Ascii.eqb a double_quote.

(** * The interpreter *)

Record ScriptWrite : Type := mkWrite { write_contents : string; write_target : string }.

Section script.
(** [{:?}] of a string, which follows the Unicode tables. *)
Context (debug_text : string -> string).

Definition normalize_script_write_target (target : string) : result RuntimeError string :=
  reject String.eqb target "" || starts_with_char slash target || contains_char (ascii_of_N 58) target
         || contains_char backslash target || contains_char dollar target
         || contains_char (ascii_of_N 42) target || contains_char (ascii_of_N 63) target with
    Protocol ("own-script write target " +:+ debug_text target
      +:+ " must be a literal workspace-relative path") ;;
  reject relative_path_has_windows_alias target with
    Protocol ("own-script write target " +:+ debug_text target +:+ " must not use a Windows path alias") ;;
  ok_or (normalize_safe_relative_path target)
    (Protocol ("own-script write target " +:+ debug_text target +:+ " must stay inside the workspace")).

(** The loop over the characters, with the quote that is open and the redirection found. *)
Fixpoint scan_redirection (s : string) (index : nat) (quote : option ascii) (position : option nat)
    : result RuntimeError (option nat) :=
  match s with
  | EmptyString =>
      match quote with
      | Some _ => Err (Protocol "own-script command contains an unterminated quote")
      | None => Ok position
      end
  | String ch s =>
      match quote with
      | Some active =>
          scan_redirection s (S index) (if Ascii.eqb ch active then None else quote) position
      | None =>
          if is_quote ch then scan_redirection s (S index) (Some ch) position
          else if Ascii.eqb ch greater then
            if starts_with_char greater s then
              Err (Protocol "own-script append redirection is not supported in M1")
            else if is_some position then
              Err (Protocol "own-script multiple redirections are not supported in M1")
            else scan_redirection s (S index) None (Some index)
          else scan_redirection s (S index) None position
      end
  end.

Definition redirection_position (line : string) : result RuntimeError (option nat) :=
  scan_redirection line 0 None None.

Definition path_error : RuntimeError :=
  Protocol "own-script redirection target must be one literal path".

Definition unquote_script_path (value : string) : result RuntimeError string :=
  match value with
  | EmptyString => Err path_error
  | String quote _ =>
      if is_quote quote then
        reject (slen value <? 2) || negb (ends_with_char quote value) with path_error ;;
        Ok (str_take (String.length value - 2) (str_drop 1 value))
      else
        reject contains_char double_quote value || contains_char single_quote value
               || negb (count_words (chars value) false =? 1) with path_error ;;
        Ok value
  end.

Definition script_redirection (line : string) : result RuntimeError (option (string * string)) :=
  redirection_index ← redirection_position line;
  match redirection_index with
  | None => Ok None
  | Some redirection_index =>
      let command := trim (str_take redirection_index line) in
      reject String.eqb command "" with Protocol "own-script redirection must include a command" ;;
      target ← unquote_script_path (trim (str_drop (S redirection_index) line));
      Ok (Some (command, target))
  end.

Definition first_char (s : string) : string := default "" (head (chars s)).

Fixpoint decode_printf_escapes (value : string) : result RuntimeError string :=
  match value with
  | EmptyString => Ok ""
  | String ch rest =>
      if negb (Ascii.eqb ch backslash) then out ← decode_printf_escapes rest; Ok (String ch out)
      else
        match rest with
        | EmptyString => Err (Protocol "own-script printf format contains a dangling escape")
        | String other rest' =>
            if Ascii.eqb other (ascii_of_N 110) then out ← decode_printf_escapes rest'; Ok (String lf out)
            else if Ascii.eqb other backslash then
              out ← decode_printf_escapes rest'; Ok (String backslash out)
            else Err (Protocol ("unsupported own-script printf escape " +:+ String backslash (first_char rest)))
        end
  end.

Fixpoint evaluate_printf_string_format (format : string) (argument : option string)
    : result RuntimeError string :=
  match format with
  | EmptyString => Ok ""
  | String ch rest =>
      if negb (Ascii.eqb ch percent) then
        formatted ← evaluate_printf_string_format rest argument; Ok (String ch formatted)
      else
        match rest with
        | EmptyString => Err (Protocol "unsupported own-script printf conversion at end of format")
        | String conversion rest' =>
            if Ascii.eqb conversion percent then
              formatted ← evaluate_printf_string_format rest' argument; Ok (String percent formatted)
            else if Ascii.eqb conversion (ascii_of_N 115) then
              formatted ← evaluate_printf_string_format rest' None; Ok (default "" argument +:+ formatted)
            else Err (Protocol ("unsupported own-script printf conversion %" +:+ first_char rest))
        end
  end.

Definition parse_single_quoted_argument (value : string) : result RuntimeError (string * string) :=
  rest ← ok_or (strip_prefix (String single_quote "") value)
    (Protocol "own-script printf format must be single-quoted");
  ok_or (split_once single_quote rest) (Protocol "own-script printf format is unterminated").

Definition summary_argument : string := String dollar "SUMMARY".
Definition quoted_summary_argument : string :=
  String double_quote (summary_argument +:+ String double_quote "").

Definition evaluate_printf_command (rest : string) : result RuntimeError string :=
  '(format, rest) ← parse_single_quoted_argument (trim rest);
  let rest := trim rest in
  argument ←
    (if String.eqb rest "" then Ok None
     else if String.eqb rest quoted_summary_argument || String.eqb rest summary_argument then
       Ok (Some "hello"%string)
     else Err (Protocol ("unsupported own-script printf argument " +:+ debug_text rest)));
  decoded ← decode_printf_escapes format;
  evaluate_printf_string_format decoded argument.

Definition unquote_script_argument (value : string) : result RuntimeError string :=
  let unquoted :=
    if (2 <=? slen value)
       && (starts_with_char double_quote value && ends_with_char double_quote value
           || starts_with_char single_quote value && ends_with_char single_quote value)
    then str_take (String.length value - 2) (str_drop 1 value) else value in
  if contains_char dollar unquoted || contains_char backtick unquoted || contains_char backslash unquoted
  then Err (Protocol ("unsupported own-script argument " +:+ debug_text value))
  else Ok unquoted.

Definition evaluate_script_command (command : string) : result RuntimeError string :=
  let command := trim command in
  match strip_prefix "printf " command with
  | Some rest => evaluate_printf_command rest
  | None =>
      match strip_prefix "echo " command with
      | Some rest => out ← unquote_script_argument (trim rest); Ok (out +:+ String lf "")
      | None => Err (Protocol ("unsupported own-script command " +:+ debug_text command))
      end
  end.

(** The loop over the lines. *)
Fixpoint compile_lines (l : list string) (write : option ScriptWrite)
    : result RuntimeError (option ScriptWrite) :=
  match l with
  | [] => Ok write
  | line :: l =>
      let line := trim line in
      if String.eqb line "" || starts_with_char (ascii_of_N 35) line || String.eqb line "---"
      then compile_lines l write
      else
        redirection ← script_redirection line;
        match redirection with
        | Some (command, target) =>
            reject is_some write with
              Protocol "own-script multiple write operations are not supported in M1" ;;
            target ← normalize_script_write_target target;
            contents ← evaluate_script_command command;
            compile_lines l (Some (mkWrite contents target))
        | None => _ ← evaluate_script_command line; compile_lines l write
        end
  end.

Definition compile_own_script_operations (script_body : string) : result RuntimeError (option ScriptWrite) :=
  compile_lines (lines script_body) None.

Definition plan_own_script (tool : ToolBlock) : result RuntimeError (option ScriptWrite) :=
  reject negb (bool_decide (tool_script_runtime tool = Some PosixSh)) with
    Protocol ("tool " +:+ id (tool_identity tool) +:+ " must use script_runtime " +:+ runtime_as_str PosixSh) ;;
  script_body ← ok_or (tool_script_body tool)
    (Protocol ("tool " +:+ id (tool_identity tool) +:+ " must include script_body"));
  compile_own_script_operations script_body.
End script.
