(* ===== verification/OwnScriptTheory.v ===== *)
(** Own-script Tools: what a script writes stays inside the workspace, and a text without single
    quotes can be written with one [printf]. *)

From Stdlib Require Import ZArith Lia Ascii String.
From stdpp Require Import base strings sorting sets option gmap countable list.
From S2P Require Import Prelude Decimal Sorting Metadata Json FlowValue Event Lifecycle Validate.
From S2P Require Import StreamProps Paths Values Blocks Errors OwnScript.

Open Scope Z_scope.

(** * Characters and trimming *)

(** An ASCII byte that is no white space. *)
Definition visible (a : ascii) : bool := (33 <=? byte a) && (byte a <=? 126).

Lemma visible_not_blank a r : visible a = true -> is_blank (String a r) = false.
Proof.
  unfold visible. intros H. cbn [is_blank].
  assert ((9 <=? byte a) && (byte a <=? 13) || (byte a =? 32) = false) as -> by lia.
  destruct r as [|b r]; [done|].
  assert ((byte a =? 194) = false) as -> by lia. cbn [andb]. destruct r as [|c r]; [done|].
  assert ((byte a =? 225) = false) as -> by lia. assert ((byte a =? 226) = false) as -> by lia.
  assert ((byte a =? 227) = false) as -> by lia. done.
Qed.

Lemma chars_cons a s : exists r cs, chars (String a s) = String a r :: cs.
Proof.
  cbn. destruct (chars s) as [|c cs]; [eauto|]. destruct c as [|b c]; [eauto|].
  destruct (is_continuation b); eauto.
Qed.

Lemma chars_lead a s :
  match s with String b _ => is_continuation b = false | EmptyString => True end ->
  chars (String a s) = String a "" :: chars s.
Proof.
  intros H. cbn [chars]. destruct s as [|b s]; [done|].
  change (match s with EmptyString => _ | _ => _ end) with (chars (String b s)) in *.
  destruct (chars_cons b s) as (r & cs & ->). by rewrite H.
Qed.

Lemma chars_snoc s a : is_continuation a = false -> chars (s +:+ String a "") = chars s ++ [String a ""].
Proof.
  intros Ha. induction s as [|x s IH]; [done|].
  change (String x s +:+ String a "") with (String x (s +:+ String a "")).
  destruct s as [|b s].
  - by rewrite chars_lead.
  - assert (forall z, chars (String x z) = match chars z with
      | c :: cs =>
          match c with
          | String b _ => if is_continuation b then String x c :: cs else String x "" :: c :: cs
          | EmptyString => String x "" :: c :: cs
          end
      | [] => [String x ""]
      end) as Hx by done.
    rewrite !Hx, IH. destruct (chars_cons b s) as (r & cs & ->). cbn. by destruct (is_continuation b).
Qed.

Lemma concat_chars_app l k : concat_chars (l ++ k) = concat_chars l +:+ concat_chars k.
Proof. induction l as [|c l IH]; [done|]. cbn. by rewrite IH, app_string_assoc. Qed.

Lemma concat_chars_id s : concat_chars (chars s) = s.
Proof.
  induction s as [|a s IH]; [done|]. cbn [chars].
  destruct (chars s) as [|[|b c] cs]; cbn in *; [by rewrite <- IH..|].
  destruct (is_continuation b); cbn in *; by rewrite <- IH.
Qed.

(** What starts with a visible byte and ends with one has nothing to trim, but for a space put
    after it. *)
Definition tight (s : string) : Prop :=
  (exists a r, s = String a r /\ visible a = true) /\ (exists r a, s = r +:+ String a "" /\ visible a = true).

Lemma visible_continuation a : visible a = true -> is_continuation a = false.
Proof. unfold visible, is_continuation. lia. Qed.

Lemma drop_blank_tight s : tight s -> drop_blank (chars s) = chars s.
Proof.
  intros [(a & r & -> & Ha) _]. destruct (chars_cons a r) as (c & cs & ->). cbn [drop_blank].
  by rewrite visible_not_blank.
Qed.

Lemma drop_blank_rev_tight s : tight s -> drop_blank (rev (chars s)) = rev (chars s).
Proof.
  intros [_ (r & a & -> & Ha)]. rewrite chars_snoc by (by apply visible_continuation).
  rewrite rev_app_distr. cbn [rev app drop_blank]. by rewrite visible_not_blank.
Qed.

Lemma trim_tight s : tight s -> trim s = s.
Proof.
  intros H. unfold trim. rewrite (drop_blank_tight s H), (drop_blank_rev_tight s H), rev_involutive.
  apply concat_chars_id.
Qed.

Lemma trim_space s : tight s -> trim (s +:+ String space "") = s.
Proof.
  intros H. unfold trim. rewrite chars_snoc by done.
  assert (drop_blank (chars s ++ [String space ""]) = chars s ++ [String space ""]) as ->.
  { destruct H as [(a & r & -> & Ha) _]. destruct (chars_cons a r) as (c & cs & ->).
    cbn [app drop_blank]. by rewrite visible_not_blank. }
  rewrite rev_app_distr. cbn [rev app drop_blank]. change (is_blank (String space "")) with true. cbn iota.
  rewrite (drop_blank_rev_tight s H), rev_involutive. apply concat_chars_id.
Qed.

Lemma trim_space_l s : tight s -> trim (String space s) = s.
Proof.
  intros H. unfold trim. rewrite chars_lead.
  - cbn [drop_blank]. change (is_blank (String space "")) with true. cbn iota.
    rewrite (drop_blank_tight s H), (drop_blank_rev_tight s H), rev_involutive. apply concat_chars_id.
  - destruct H as [(a & r & -> & Ha) _]. by apply visible_continuation.
Qed.

(** * Slices *)

Lemma str_take_app s t : str_take (String.length s) (s +:+ t) = s.
Proof. induction s as [|a s IH]; cbn; [done|]. by f_equal. Qed.

Lemma str_drop_app s t : str_drop (String.length s) (s +:+ t) = t.
Proof. induction s as [|a s IH]; cbn; [done|]. done. Qed.

Lemma bytes_all_impl (p q : ascii -> bool) s :
  (forall a, p a = true -> q a = true) -> bytes_all p s = true -> bytes_all q s = true.
Proof. intros H. induction s as [|a s IH]; cbn; [done|]. intros [Ha Hs]%andb_true_iff. by rewrite H, IH. Qed.

(** * Scanning *)

Definition plain_byte (a : ascii) : bool := negb (is_quote a) && negb (Ascii.eqb a greater).

Lemma scan_plain w s i p :
  bytes_all plain_byte w = true ->
  scan_redirection (w +:+ s) i None p = scan_redirection s (i + String.length w) None p.
Proof.
  revert i. induction w as [|a w IH]; intros i; cbn [bytes_all String.length].
  { intros _. by rewrite Nat.add_0_r. }
  intros [[Hq%negb_true_iff Hg%negb_true_iff]%andb_true_iff Hw]%andb_true_iff.
  change (String a w +:+ s) with (String a (w +:+ s)). cbn [scan_redirection]. rewrite Hq, Hg, IH by done.
  f_equal. lia.
Qed.

Lemma scan_quoted q w s i p :
  free_of q w = true ->
  scan_redirection (w +:+ s) i (Some q) p = scan_redirection s (i + String.length w) (Some q) p.
Proof.
  unfold free_of. revert i. induction w as [|a w IH]; intros i; cbn [bytes_all String.length].
  { intros _. by rewrite Nat.add_0_r. }
  intros [Ha%negb_true_iff Hw]%andb_true_iff.
  change (String a w +:+ s) with (String a (w +:+ s)). cbn [scan_redirection]. rewrite Ha, IH by done.
  f_equal. lia.
Qed.

(** * [printf] *)

(** The text of a format that prints [s]. *)
Fixpoint printf_escape (s : string) : string :=
  match s with
  | EmptyString => ""
  | String a s =>
      if Ascii.eqb a lf then String backslash (String (ascii_of_N 110) (printf_escape s))
      else if Ascii.eqb a backslash then String backslash (String backslash (printf_escape s))
      else if Ascii.eqb a percent then String percent (String percent (printf_escape s))
      else String a (printf_escape s)
  end.

(** The format after its escapes. *)
Fixpoint percent_escape (s : string) : string :=
  match s with
  | EmptyString => ""
  | String a s =>
      if Ascii.eqb a percent then String percent (String percent (percent_escape s))
      else String a (percent_escape s)
  end.

Lemma decode_escape s : decode_printf_escapes (printf_escape s) = Ok (percent_escape s).
Proof.
  induction s as [|a s IH]; [done|]. cbn [printf_escape percent_escape].
  destruct (Ascii.eqb_spec a lf) as [->|Hlf]; [cbn; by rewrite IH|].
  destruct (Ascii.eqb_spec a backslash) as [->|Hb]; [cbn; by rewrite IH|].
  destruct (Ascii.eqb_spec a percent) as [->|Hp]; [cbn; by rewrite IH|].
  cbn [decode_printf_escapes]. rewrite (proj2 (Ascii.eqb_neq _ _) Hb). cbn [negb]. by rewrite IH.
Qed.

Lemma format_escape s argument : evaluate_printf_string_format (percent_escape s) argument = Ok s.
Proof.
  induction s as [|a s IH]; [done|]. cbn [percent_escape].
  destruct (Ascii.eqb_spec a percent) as [->|Hp]; [cbn; by rewrite IH|].
  cbn [evaluate_printf_string_format]. rewrite (proj2 (Ascii.eqb_neq _ _) Hp). cbn [negb]. by rewrite IH.
Qed.

Lemma escape_free c s :
  c <> backslash -> c <> ascii_of_N 110 -> c <> percent -> free_of c s = true ->
  free_of c (printf_escape s) = true.
Proof.
  unfold free_of. intros H1 H2 H3. induction s as [|a s IH]; [done|]. cbn [bytes_all printf_escape].
  intros [Ha Hs]%andb_true_iff. specialize (IH Hs).
  repeat case_match; cbn [bytes_all]; rewrite IH, ?Ha, ?andb_true_r; try done;
    apply andb_true_iff; split; apply negb_true_iff, Ascii.eqb_neq; congruence.
Qed.

Lemma escape_no_lf s : free_of lf (printf_escape s) = true.
Proof.
  unfold free_of. induction s as [|a s IH]; [done|]. cbn [printf_escape].
  destruct (Ascii.eqb a lf) eqn:Ha; [cbn [bytes_all]; by rewrite IH|].
  destruct (Ascii.eqb a backslash); [cbn [bytes_all]; by rewrite IH|].
  destruct (Ascii.eqb a percent); cbn [bytes_all]; by rewrite ?Ha, IH.
Qed.

Lemma tight_between a s b :
  visible a = true -> visible b = true -> tight (String a (s +:+ String b "")).
Proof. intros Ha Hb. split; [by exists a, (s +:+ String b "")|]. by exists (String a s), b. Qed.

Definition quoted (s : string) : string := String single_quote (s +:+ String single_quote "").

(** * Writes *)

Section writes.
Context (debug_text : string -> string).

Lemma evaluate_printf s :
  free_of single_quote s = true ->
  evaluate_script_command debug_text ("printf " +:+ quoted (printf_escape s)) = Ok s.
Proof using Type.
  intros Hs. unfold evaluate_script_command.
  assert (tight ("printf " +:+ quoted (printf_escape s))) as Ht.
  { split; [by exists "p"%char, ("rintf " +:+ quoted (printf_escape s))|].
    exists ("printf " +:+ String single_quote (printf_escape s)), single_quote.
    split; [|done]. by rewrite app_string_assoc. }
  rewrite trim_tight by done.
  rewrite (proj2 (strip_prefix_Some "printf " _ (quoted (printf_escape s))) eq_refl).
  unfold evaluate_printf_command. rewrite trim_tight by (by apply tight_between).
  unfold parse_single_quoted_argument, quoted.
  cbn [strip_prefix]. rewrite Ascii.eqb_refl. cbn [ok_or mbind result_bind].
  rewrite (split_once_sep single_quote (printf_escape s) "") by (by apply escape_free).
  cbn [ok_or mbind result_bind]. change (trim "") with ""%string. cbn [String.eqb mbind result_bind].
  rewrite decode_escape. cbn [mbind result_bind]. apply format_escape.
Qed.

Lemma quoted_tight s : tight (quoted s).
Proof using Type. by apply tight_between. Qed.

Lemma length_quoted s : String.length (quoted s) = S (S (String.length s)).
Proof using Type. unfold quoted. cbn [String.length]. rewrite length_app_string. cbn [String.length]. lia. Qed.

Lemma unquote_quoted path : unquote_script_path (quoted path) = Ok path.
Proof using Type.
  unfold unquote_script_path, quoted. change (is_quote single_quote) with true. cbn iota.
  fold (quoted path). unfold slen. rewrite length_quoted.
  rewrite (proj2 (Z.ltb_ge (Z.of_nat (S (S (String.length path)))) 2)) by lia.
  assert (ends_with_char single_quote (quoted path) = true) as ->.
  { change (quoted path) with (String single_quote path +:+ String single_quote ""). apply ends_with_char_snoc. }
  cbn [orb negb]. unfold quoted. cbn [str_drop]. replace (S (S (String.length path)) - 2)%nat with (String.length path) by lia.
  by rewrite str_take_app.
Qed.

(** What the check of a target accepts, it leaves as it is, and it is a safe path. *)
Lemma target_accepted path target :
  normalize_script_write_target debug_text path = Ok target -> target = path /\ safe_path path.
Proof using Type. unfold normalize_script_write_target. intros H. inv_ok. by apply normalize_Some in H as [-> ?]. Qed.

(** The line [printf '<text>' > '<path>'], the text escaped. *)
Definition print_script (text path : string) : string :=
  "printf " +:+ quoted (printf_escape text) +:+ " > " +:+ quoted path.

Lemma scan_tail path i :
  free_of single_quote path = true ->
  scan_redirection (String single_quote (String space (String greater (String space (quoted path))))) i
    (Some single_quote) None = Ok (Some (S (S i))).
Proof using Type.
  intros Hp. cbn [scan_redirection]. rewrite Ascii.eqb_refl.
  change (is_quote space) with false. change (is_quote greater) with false.
  change (Ascii.eqb space greater) with false. rewrite Ascii.eqb_refl.
  change (starts_with_char greater (String space (quoted path))) with false. cbn [is_some].
  unfold quoted. cbn [scan_redirection]. change (is_quote single_quote) with true. cbn iota.
  rewrite scan_quoted by done. cbn [scan_redirection]. by rewrite Ascii.eqb_refl.
Qed.

Lemma print_redirection text path :
  free_of single_quote text = true -> free_of single_quote path = true ->
  script_redirection (print_script text path) =
    Ok (Some ("printf " +:+ quoted (printf_escape text), path)).
Proof using Type.
  intros Ht Hp. unfold script_redirection, redirection_position, print_script.
  set (command := "printf " +:+ quoted (printf_escape text)).
  assert (scan_redirection (command +:+ String space (String greater (String space (quoted path)))) 0 None None =
          Ok (Some (S (String.length command)))) as Hscan.
  { unfold command. rewrite app_string_assoc, scan_plain by done. unfold quoted at 1.
    change (String single_quote (printf_escape text +:+ String single_quote "") +:+ ?z)
      with (String single_quote ((printf_escape text +:+ String single_quote "") +:+ z)).
    rewrite app_string_assoc. cbn [scan_redirection is_quote]. change (is_quote single_quote) with true.
    cbn iota. rewrite scan_quoted by (by apply escape_free).
    change (String single_quote "" +:+ ?z) with (String single_quote z).
    rewrite scan_tail by done. do 2 f_equal. rewrite length_app_string, length_quoted. cbn. lia. }
  change ("printf " +:+ quoted (printf_escape text) +:+ " > " +:+ quoted path)
    with ("printf " +:+ (quoted (printf_escape text) +:+ (" > " +:+ quoted path))).
  rewrite <- app_string_assoc. fold command. change (" > " +:+ quoted path)
    with (String space (String greater (String space (quoted path)))).
  rewrite Hscan. cbn [mbind result_bind].
  assert (tight command) as Htc.
  { split; [by exists "p"%char, ("rintf " +:+ quoted (printf_escape text))|].
    exists ("printf " +:+ String single_quote (printf_escape text)), single_quote.
    split; [|done]. unfold command. by rewrite app_string_assoc. }
  assert (command +:+ String space (String greater (String space (quoted path))) =
          (command +:+ String space "") +:+ String greater (String space (quoted path))) as -> by (by rewrite app_string_assoc).
  assert (S (String.length command) = String.length (command +:+ String space "")) as ->
    by (rewrite length_app_string; cbn; lia).
  rewrite str_take_app, trim_space by done.
  assert (String.eqb command "" = false) as -> by done.
  assert ((command +:+ String space "") +:+ String greater (String space (quoted path)) =
          ((command +:+ String space "") +:+ String greater "") +:+ String space (quoted path)) as ->
    by (by rewrite (app_string_assoc (command +:+ String space ""))).
  assert (S (String.length (command +:+ String space "")) =
          String.length ((command +:+ String space "") +:+ String greater "")) as ->
    by (rewrite (length_app_string (command +:+ String space "")); cbn; lia).
  rewrite str_drop_app, trim_space_l by apply quoted_tight. by rewrite unquote_quoted.
Qed.

Lemma print_lines text path :
  free_of lf path = true -> lines (print_script text path) = [print_script text path].
Proof using Type.
  intros Hp. unfold lines. rewrite split_free; [done|].
  assert (forall s, free_of lf s = true -> free_of lf (quoted s) = true) as Hquoted.
  { intros s Hs. unfold quoted, free_of in *. cbn [bytes_all]. rewrite bytes_all_app, Hs. done. }
  unfold print_script. pose proof (Hquoted _ (escape_no_lf text)) as H1. pose proof (Hquoted _ Hp) as H2.
  unfold free_of in *. by rewrite !bytes_all_app, H1, H2.
Qed.

Lemma print_tight text path : tight (print_script text path).
Proof using Type.
  split; [by eexists "p"%char, _|].
  exists ("printf " +:+ quoted (printf_escape text) +:+ " > " +:+ String single_quote path), single_quote. split; [|done].
  unfold print_script. rewrite !app_string_assoc. done.
Qed.

(** C39: Texts and paths survive the script language: for every text and path without a single quote
    (which its quoted words cannot hold), the path without a line feed too, the script of the one
    line [printf '<text>' > '<path>'], with the line feeds, backslashes and percent signs of
    the text escaped, compiles exactly if the path is one that the check of targets accepts,
    and fails with the error of this check otherwise; it then is one write of just that
    text to just that path, which is safe. *)
Theorem own_script_round_trip text path :
  free_of single_quote text = true -> free_of single_quote path = true -> free_of lf path = true ->
  compile_own_script_operations debug_text (print_script text path) =
    (target ← normalize_script_write_target debug_text path; Ok (Some (mkWrite text target))) /\
  (forall target, normalize_script_write_target debug_text path = Ok target -> target = path /\ safe_path path).
Proof using Type.
  intros Ht Hq Hl. split; [|intros target; apply target_accepted]. unfold compile_own_script_operations.
  rewrite print_lines by done. cbn [compile_lines]. rewrite trim_tight by apply print_tight.
  assert (String.eqb (print_script text path) "" || starts_with_char (ascii_of_N 35) (print_script text path)
    || String.eqb (print_script text path) "---" = false) as -> by done.
  rewrite print_redirection by done. cbn [mbind result_bind is_some].
  destruct (normalize_script_write_target debug_text path); [|done..]. cbn [mbind result_bind]. by rewrite evaluate_printf.
Qed.

Lemma compile_lines_target l write w :
  (forall w, write = Some w -> safe_path (write_target w)) ->
  compile_lines debug_text l write = Ok (Some w) -> safe_path (write_target w).
Proof using Type.
  revert write. induction l as [|line l IH]; intros write Hw H; cbn [compile_lines] in H.
  { injection H as ->. by apply Hw. }
  destruct (_ || _); [by eapply IH|].
  apply bind_Ok_inv in H as ([[command target]|] & _ & H).
  - destruct (is_some write); [done|]. apply bind_Ok_inv in H as (t & Ht & H).
    apply bind_Ok_inv in H as (c & _ & H). eapply IH; [|exact H]. intros ? [= <-].
    by apply target_accepted in Ht as [-> ?].
  - apply bind_Ok_inv in H as (c & _ & H). by eapply IH.
Qed.

Lemma plan_own_script_target tool w :
  plan_own_script debug_text tool = Ok (Some w) -> safe_path (write_target w).
Proof using Type.
  unfold plan_own_script. intros H. inv_ok. by eapply compile_lines_target; [|exact H].
Qed.

(** the only file a script writes has a safe relative path: it has no empty, [.] or [..]
    component, no drive, no backslash and no name that Windows aliases. *)
Theorem own_script_target_safe tool w :
  plan_own_script debug_text tool = Ok (Some w) -> safe_path (write_target w).
Proof using Type. apply plan_own_script_target. Qed.
End writes.

Example script_write :
  compile_own_script_operations Datatypes.id
    ("# header" +:+ String lf "printf 'a%s!' $SUMMARY > out/notes.txt") =
  Ok (Some (mkWrite "ahello!" "out/notes.txt")).
Proof. reflexivity. Qed.

Example script_escape :
  is_ok (compile_own_script_operations Datatypes.id "echo secret > ../outside.txt") = false.
Proof. reflexivity. Qed.

Lemma own_script_round_trip_witness :
  compile_own_script_operations Datatypes.id (print_script ("50% off" +:+ String lf "") "docs/my notes (1).txt") =
    Ok (Some (mkWrite ("50% off" +:+ String lf "") "docs/my notes (1).txt")) /\ safe_path "docs/my notes (1).txt".
Proof.
  destruct (own_script_round_trip Datatypes.id ("50% off" +:+ String lf "") "docs/my notes (1).txt") as [H1 H2]; [reflexivity..|].
  split; [exact H1|]. apply (H2 "docs/my notes (1).txt"%string). reflexivity.
Defined.

Definition write_tool : ToolBlock :=
  mkTool (mkIdentity "write-notes" "Write notes") SOwnScript (CmdOwnScript "script:write-notes")
    (Some PosixSh) (Some "echo hello > docs/notes.txt"%string) [].

Lemma own_script_target_safe_witness :
  plan_own_script Datatypes.id write_tool =
    Ok (Some (mkWrite ("hello" +:+ String lf "") "docs/notes.txt")) /\ safe_path "docs/notes.txt".
Proof.
  split; [reflexivity|].
  apply (own_script_target_safe Datatypes.id write_tool (mkWrite ("hello" +:+ String lf "") "docs/notes.txt")).
  reflexivity.
Defined.
