(* ===== verification/Context.v ===== *)
(** The context a model is given for one turn ([flow-agent-core/src/runtime/context.rs],
    [context/provider_turn.rs], [context/history.rs], [digest.rs]): ordered sources, the first five
    of which change least, within the input budget of the model; the manifest that records them
    and the objects that hold them.

    Sizes are [usize]; a sum of lengths of texts that exist in memory does not overflow. *)

From Stdlib Require Import ZArith Lia Ascii String.
From stdpp Require Import base strings sorting sets option gmap countable list.
From S2P Require Import Prelude Decimal Sorting Metadata Json FlowValue Event Lifecycle Validate.
From S2P Require Import Paths Values Blocks Registry Errors PhaseControl Policy.

Open Scope Z_scope.

(** * Libraries

    SHA-256, Unicode escapes, derived serde forms, the allocator and the version the build puts
    in. *)

Class RuntimeEnv : Type := {
  (** [sha2::Sha256] *)
  Hasher : Type;
  hasher_new : Hasher;
  hasher_update : Hasher -> string -> Hasher;
  hasher_finalize : Hasher -> string;
  (** [chars().flat_map(char::escape_debug)], which follows the Unicode tables *)
  escape_human_failure_text : string -> string;
  (** [serde_json::to_value] of derived forms *)
  tool_to_value : ToolBlock -> Value;
  command_to_value : CommandPolicy -> Value;
  (** [serde_json::from_str] of one value and of a list of values; the error is its text *)
  flow_value_from_str : string -> result string FlowValue;
  flow_values_from_str : string -> result string (list FlowValue);
  (** [String::try_reserve_exact] and the text of a [CanonicalJsonError] *)
  try_reserve : string -> Z -> bool;
  canonical_error_text : CanonicalJsonError -> string;
  (** [env!("CARGO_PKG_VERSION")] *)
  cargo_pkg_version : string;
}.

(** What the code relies on: a SHA-256 digest has 32 bytes, and parsing returns. *)
Class RuntimeLaws {R : RuntimeEnv} : Prop := {
  digest_length : forall h, String.length (hasher_finalize h) = 32%nat;
  flow_value_parsed : forall s, flow_value_from_str s <> Panic;
  flow_values_parsed : forall s, flow_values_from_str s <> Panic;
}.

(** [stream_signature.rs] *)
Record FlowInvocation : Type := mkInvocation {
  invocation_flow_id : string;
  invocation_parent_flow_id : option string;
}.

(** * Digests ([digest.rs]) *)

Definition hex_digit (n : Z) : ascii := default "0"%char (String.get (Z.to_nat n) "0123456789abcdef").

Fixpoint encode_sha256 (digest : string) : string :=
  match digest with
  | EmptyString => ""
  | String b digest =>
      String (hex_digit (Z.shiftr (byte b) 4))
        (String (hex_digit (Z.land (byte b) 15)) (encode_sha256 digest))
  end.

Definition sha256_hex {R : RuntimeEnv} (bytes : string) : string :=
  encode_sha256 (hasher_finalize (hasher_update hasher_new bytes)).

(** * Sources and manifests ([context.rs]) *)

Definition CONTEXT_PROFILE_ID : string := "flow-context-v0".
Definition CONTEXT_PROFILE_VERSION : string := "0".
Definition CONTEXT_ESTIMATOR_ID : string := "utf8-byte-v0".
Definition CONTEXT_ESTIMATOR_VERSION : string := "0".
Definition CACHE_STABLE_TIER_ZERO_SOURCES : Z := 5.
Definition STUB_MODEL_CONTEXT_LIMIT : Z := 128 * 1024.
Definition STUB_MODEL_OUTPUT_RESERVE : Z := 8 * 1024.
Definition STUB_MODEL_PROFILE_ID : string := "stub-model-v0".
Definition CONTEXT_SAFETY_MARGIN : Z := 4 * 1024.
Definition MAX_SESSION_CONTEXT_MANIFEST_BYTES : Z := 48 * 1024 * 1024.

Record ContextModelProfile : Type := mkProfile {
  context_limit : Z;
  profile_id : string;
  output_reserve : Z;
  safety_margin : Z;
}.

Definition stub_v0 : ContextModelProfile :=
  mkProfile STUB_MODEL_CONTEXT_LIMIT STUB_MODEL_PROFILE_ID STUB_MODEL_OUTPUT_RESERVE CONTEXT_SAFETY_MARGIN.

(** [usize::checked_sub]. *)
Definition checked_sub (a b : Z) : option Z := if b <=? a then Some (a - b) else None.

Definition input_budget_tokens (m : ContextModelProfile) : result RuntimeError Z :=
  input_budget ← ok_or (remaining ← checked_sub (context_limit m) (output_reserve m);
                        checked_sub remaining (safety_margin m))
    (Protocol ("model profile " +:+ profile_id m +:+ " reserves more tokens than its context limit"));
  reject input_budget =? 0 with Protocol ("model profile " +:+ profile_id m +:+ " leaves no input budget") ;;
  Ok input_budget.

Definition ensure_input_budget (m : ContextModelProfile) (required_bytes : Z) : result RuntimeError unit :=
  input_budget ← input_budget_tokens m;
  reject input_budget <? required_bytes with ContextBudgetExceeded input_budget required_bytes ;;
  Ok tt.

Record ContextSource : Type := mkSource { source_id : string; content : Value }.

Record ContextOmissionCounts : Type := mkOmitted { recent_complete_interaction : Z; tier_2 : Z }.

Definition no_omissions : ContextOmissionCounts := mkOmitted 0 0.

Definition jnum (n : Z) : Value := JNumber (PosInt n).

Definition omission_record (o : ContextOmissionCounts) : Value :=
  JObject [("checkpoint", jnum 0); ("current_incomplete_turn", jnum 0);
           ("recent_complete_interaction", jnum (recent_complete_interaction o));
           ("referenced_projection", jnum 0); ("tier_2", jnum (tier_2 o)); ("tier_3", jnum 0)].

Record ContextObject : Type := mkObject { object_bytes : string; object_digest : string }.
Record ContextManifest : Type := mkManifest { manifest_line : string }.

Record ContextManifestCheckpoint : Type := mkCheckpoint {
  checkpoint_manifest : ContextManifest;
  checkpoint_objects : list ContextObject;
  checkpoint_ordinal : Z;
}.

Record ContextManifestSourceRecord : Type := mkSourceRecord {
  object_uri : string;
  projection_hash : string;
  record_source_id : string;
}.

Definition source_record_value (s : ContextManifestSourceRecord) : Value :=
  JObject [("object_uri", JString (object_uri s)); ("projection_hash", JString (projection_hash s));
           ("source_id", JString (record_source_id s))].

(** [u64::try_from(..).unwrap_or(u64::MAX)] and [saturating_add]. *)
Definition ensure_context_manifest_growth_within_limit (current_bytes appended_bytes : Z)
    : result RuntimeError Z :=
  let total := sat_u64 (current_bytes + appended_bytes) in
  reject MAX_SESSION_CONTEXT_MANIFEST_BYTES <? total with
    Protocol ("context manifest size " +:+ Z_to_string total +:+ " bytes exceeds max "
      +:+ Z_to_string MAX_SESSION_CONTEXT_MANIFEST_BYTES) ;;
  Ok total.

Record CompiledContext : Type := mkCompiled {
  cache_prefix_bytes : Z;
  context_hash : string;
  compiled_manifest : ContextManifest;
  compiled_objects : list ContextObject;
  provider_bytes : string;
}.

Definition sum_lengths (l : list string) : Z := foldr Z.add 0 (map slen l).
Definition concat_bytes (l : list string) : string := foldr append "" l.

(** * The history of a run ([context/history.rs]) *)

Record ContextHistory : Type := mkHistory {
  completed_interactions : Z;
  latest_completed : option (Z * Value * list Value);
  pending_deltas : gmap string (list Value);
  unresolved_tools : gset string;
}.

Definition event_payload_id (e : EventEnvelope) (f : string) : option string :=
  value_get (payload e) f ≫= as_str.

Definition history_default : ContextHistory := mkHistory 0 None ∅ ∅.

Definition history_record (h : ContextHistory) (e : EventEnvelope) : ContextHistory :=
  match event_type e with
  | MessageDelta =>
      match payload_str e "message_id" with
      | Some message_id =>
          mkHistory (completed_interactions h) (latest_completed h)
            (<[message_id := default [] (pending_deltas h !! message_id) ++ [payload e]]> (pending_deltas h))
            (unresolved_tools h)
      | None => h
      end
  | MessageCompleted =>
      let '(deltas, pending) :=
        match payload_str e "message_id" with
        | Some message_id =>
            (default [] (pending_deltas h !! message_id), delete message_id (pending_deltas h))
        | None => ([], pending_deltas h)
        end in
      mkHistory (completed_interactions h + 1) (Some (sequence e, payload e, deltas)) pending
        (unresolved_tools h)
  | ToolStarted =>
      match payload_str e "tool_id" with
      | Some tool_id =>
          mkHistory (completed_interactions h) (latest_completed h) (pending_deltas h)
            ({[tool_id]} ∪ unresolved_tools h)
      | None => h
      end
  | ToolCompleted | ToolFailed | ToolTimedOut =>
      match payload_str e "tool_id" with
      | Some tool_id =>
          mkHistory (completed_interactions h) (latest_completed h) (pending_deltas h)
            (unresolved_tools h ∖ {[tool_id]})
      | None => h
      end
  | _ => h
  end.

(** [completed_interactions - 1] is on a [usize]. *)
Definition continuity (h : ContextHistory)
    : result RuntimeError (option ContextSource * ContextOmissionCounts) :=
  match latest_completed h with
  | None => Ok (None, no_omissions)
  | Some (sequence, payload, deltas) =>
      tier_2 ← expect (checked_sub (completed_interactions h) 1);
      match value_get payload "message_id" ≫= as_str with
      | None => Err (Protocol "message.completed missing message_id while compiling context")
      | Some _ =>
          if bool_decide (deltas = []) then Ok (None, mkOmitted 1 tier_2)
          else
            Ok (Some (mkSource ("interaction-" +:+ Z_to_string sequence)
                   (JObject [("completed", payload); ("deltas", JArray deltas)])),
                mkOmitted 0 tier_2)
      end
  end.

Definition unresolved_call_result_state (h : ContextHistory) : Value :=
  JArray (map JString (set_iter str_cmp (unresolved_tools h))).

(** * Compiling *)

Section context.
Context {J : JsonEnv} {R : RuntimeEnv}.

Definition context_source_bytes (s : ContextSource) : result RuntimeError string :=
  text ← map_err (Unserializable "provider context source")
    (canonical_json (JObject [("content", content s); ("source_id", JString (source_id s))]));
  Ok (text +:+ newline).

(** The loop over the items: [required] bytes so far, and the items taken. *)
Fixpoint bounded_items (items : list (result RuntimeError (option Value))) (required budget : Z)
    (content : list Value) : result RuntimeError (list Value) :=
  match items with
  | [] => Ok content
  | item :: items =>
      item ← item;
      match item with
      | None => bounded_items items required budget content
      | Some item =>
          text ← map_err (Unserializable "provider context array item") (canonical_json item);
          let required :=
            sat_u64 (sat_u64 (required + (if bool_decide (content = []) then 0 else 1)) + slen text) in
          reject budget <? required with ContextBudgetExceeded budget required ;;
          bounded_items items required budget (content ++ [item])
      end
  end.

Definition bounded_context_array_source (source_id : string)
    (items : list (result RuntimeError (option Value))) (input_budget_tokens : Z)
    : result RuntimeError ContextSource :=
  empty ← context_source_bytes (mkSource source_id (JArray []));
  reject input_budget_tokens <? slen empty with ContextBudgetExceeded input_budget_tokens (slen empty) ;;
  content ← bounded_items items (slen empty) input_budget_tokens [];
  Ok (mkSource source_id (JArray content)).

(** The [expect] on the URI of a digest. *)
Definition source_object (source : ContextSource) (bytes : string)
    : result RuntimeError (ContextManifestSourceRecord * ContextObject) :=
  let digest := sha256_hex bytes in
  match build_session_object_uri digest with
  | Ok uri => Ok (mkSourceRecord uri digest (source_id source), mkObject bytes digest)
  | Err _ | Panic => Panic
  end.

Definition manifest_value (m : ContextModelProfile) (boundary_id : string) (cache_prefix : Z)
    (hash : string) (tokens : Z) (omitted : ContextOmissionCounts)
    (sources : list ContextManifestSourceRecord) : Value :=
  JObject
    [("cache_boundaries",
      JArray [JObject [("after_source_id", JString boundary_id); ("byte_offset", jnum cache_prefix)]]);
     ("context_hash", JString hash);
     ("context_profile_id", JString CONTEXT_PROFILE_ID);
     ("context_profile_version", JString CONTEXT_PROFILE_VERSION);
     ("estimated_input_tokens", jnum tokens);
     ("estimator_id", JString CONTEXT_ESTIMATOR_ID);
     ("estimator_version", JString CONTEXT_ESTIMATOR_VERSION);
     ("model_context_limit", jnum (context_limit m));
     ("model_profile_id", JString (profile_id m));
     ("omitted_source_counts", omission_record omitted);
     ("ordered_sources", JArray (map source_record_value sources));
     ("output_reserve", jnum (output_reserve m));
     ("runtime_version", JString cargo_pkg_version);
     ("safety_margin", jnum (safety_margin m))].

Definition compile_context (model : ContextModelProfile) (tier_zero : list ContextSource)
    (recent_interaction : option ContextSource) (omitted : ContextOmissionCounts)
    : result RuntimeError CompiledContext :=
  reject len tier_zero <? CACHE_STABLE_TIER_ZERO_SOURCES with
    Protocol ("cache-stable tier zero requires at least " +:+ Z_to_string CACHE_STABLE_TIER_ZERO_SOURCES
      +:+ " sources") ;;
  input_budget ← input_budget_tokens model;
  tier_zero_bytes ← try_collect context_source_bytes tier_zero;
  let mandatory_bytes := sum_lengths tier_zero_bytes in
  _ ← ensure_input_budget model mandatory_bytes;
  recent_bytes ← match recent_interaction with
                 | Some source => bytes ← context_source_bytes source; Ok (Some (source, bytes))
                 | None => Ok None
                 end;
  let included :=
    match recent_bytes with
    | Some (source, bytes) =>
        if mandatory_bytes + slen bytes <=? input_budget then Some (source, bytes) else None
    | None => None
    end in
  let omitted :=
    if is_some recent_interaction && negb (is_some included)
    then mkOmitted (recent_complete_interaction omitted + 1) (tier_2 omitted) else omitted in
  let parts := zip tier_zero tier_zero_bytes ++ option_list included in
  let provider_bytes := concat_bytes (map snd parts) in
  let cache_prefix := sum_lengths (take (Z.to_nat CACHE_STABLE_TIER_ZERO_SOURCES) tier_zero_bytes) in
  let hash := sha256_hex provider_bytes in
  sources ← try_collect (fun '(source, bytes) => source_object source bytes) parts;
  boundary ← expect (tier_zero !! Z.to_nat (CACHE_STABLE_TIER_ZERO_SOURCES - 1));
  line ← map_err (Unserializable "context manifest")
    (canonical_json (manifest_value model (source_id boundary) cache_prefix hash (slen provider_bytes)
       omitted (map fst sources)));
  Ok (mkCompiled cache_prefix hash (mkManifest (line +:+ newline)) (map snd sources) provider_bytes).

(** * One turn ([provider_turn.rs]) *)

Context (registry : ResolvedRegistry).

(** The derived equalities of definitions. *)
Definition predicate_eqb (a b : ValuePredicate) : bool :=
  bool_decide (pred_path a = pred_path b) && fv_eqb (pred_equals a) (pred_equals b).

Definition transition_eqb (a b : PhaseTransition) : bool :=
  String.eqb (from_phase_ref a) (from_phase_ref b) && String.eqb (to_phase_ref a) (to_phase_ref b)
  && predicate_eqb (when a) (when b).

Fixpoint list_eqb {A} (eqb : A -> A -> bool) (a b : list A) : bool :=
  match a, b with
  | [], [] => true
  | x :: a, y :: b => eqb x y && list_eqb eqb a b
  | _, _ => false
  end.

Definition loop_eqb (a b : PhaseLoop) : bool :=
  (loop_max_iterations a =? loop_max_iterations b) && predicate_eqb (loop_until a) (loop_until b).

Definition option_eqb {A} (eqb : A -> A -> bool) (a b : option A) : bool :=
  match a, b with
  | None, None => true
  | Some a, Some b => eqb a b
  | _, _ => false
  end.

Definition identity_eqb (a b : BlockIdentity) : bool :=
  String.eqb (id a) (id b) && String.eqb (name a) (name b).

Definition phase_eqb (a b : PhaseBlock) : bool :=
  identity_eqb (phase_identity a) (phase_identity b)
  && bool_decide (phase_instruction_refs a = phase_instruction_refs b)
  && bool_decide (phase_tool_refs a = phase_tool_refs b)
  && bool_decide (phase_phase_refs a = phase_phase_refs b)
  && contract_eqb (phase_output a) (phase_output b)
  && bool_decide (phase_result_from a = phase_result_from b)
  && option_eqb loop_eqb (phase_loop a) (phase_loop b)
  && list_eqb transition_eqb (phase_transitions a) (phase_transitions b).

Definition flow_eqb (a b : FlowBlock) : bool :=
  identity_eqb (flow_identity a) (flow_identity b)
  && bool_decide (flow_phase_refs a = flow_phase_refs b)
  && bool_decide (flow_subflow_refs a = flow_subflow_refs b)
  && list_eqb transition_eqb (flow_transitions a) (flow_transitions b).

(** [Option::filter]. *)
Definition option_filter {A} (p : A -> bool) (o : option A) : option A :=
  match o with Some a => if p a then Some a else None | None => None end.

(** The loop over the pending references, a stack whose top is the end of the list. *)
Fixpoint scope_loop (fuel : nat) (flow : FlowBlock) (phase : PhaseBlock) (pending : list string)
    (visited : gset string) : result RuntimeError unit :=
  match fuel with
  | O => Panic
  | S fuel =>
      match last pending with
      | None =>
          Err (Protocol ("active Phase " +:+ id (phase_identity phase)
            +:+ " does not belong to active Flow " +:+ id (flow_identity flow)))
      | Some phase_ref =>
          let pending := removelast pending in
          if bool_decide (phase_ref ∈ visited) then scope_loop fuel flow phase pending visited
          else if String.eqb phase_ref (id (phase_identity phase)) then Ok tt
          else
            match phase_block registry phase_ref with
            | None =>
                Err (Protocol ("active Flow " +:+ id (flow_identity flow)
                  +:+ " references unavailable Phase " +:+ debug_str phase_ref))
            | Some parent =>
                scope_loop fuel flow phase (pending ++ phase_phase_refs parent) ({[phase_ref]} ∪ visited)
            end
      end
  end.

(** Each reference is expanded once; the references a Flow or a Phase of the registry holds. *)
Definition scope_references (flow : FlowBlock) : list string :=
  flow_phase_refs flow ++ concat (map (fun '(_, p) => phase_phase_refs p) (map_iter str_cmp (phases registry))).

Definition expansion (phase_ref : string) : nat :=
  match phase_block registry phase_ref with Some p => List.length (phase_phase_refs p) | None => 0%nat end.

Definition scope_fuel (flow : FlowBlock) : nat :=
  S (List.length (flow_phase_refs flow)
     + foldr Nat.add 0%nat (map expansion (remove_dups (scope_references flow)))).

Definition validate_provider_turn_scope (flow : FlowBlock) (phase : PhaseBlock) : result RuntimeError unit :=
  registered_flow ← ok_or (option_filter (fun registered => flow_eqb registered flow)
                             (flow_block registry (id (flow_identity flow))))
    (Protocol ("active Flow " +:+ id (flow_identity flow) +:+ " does not belong to the active registry"));
  _ ← ok_or (option_filter (fun registered => phase_eqb registered phase)
               (phase_block registry (id (phase_identity phase))))
    (Protocol ("active Phase " +:+ id (phase_identity phase) +:+ " does not belong to the active registry"));
  scope_loop (scope_fuel registered_flow) flow phase (flow_phase_refs registered_flow) ∅.

(** [BTreeMap::insert]. *)
Fixpoint btree_insert {A} (key : string) (value : A) (fields : list (string * A)) : list (string * A) :=
  match fields with
  | [] => [(key, value)]
  | (k, v) :: fields =>
      match str_cmp key k with
      | Lt => (key, value) :: (k, v) :: fields
      | Eq => (key, value) :: fields
      | Gt => (k, v) :: btree_insert key value fields
      end
  end.

Definition btree_collect {A} (fields : list (string * A)) : list (string * A) :=
  foldl (fun m '(k, v) => btree_insert k v m) [] fields.

Definition instruction_parameter_values (instruction : InstructionBlock) (phase_input : option FlowValue)
    : result RuntimeError (list (string * FlowValue)) :=
  if bool_decide (instruction_parameters instruction = []) then Ok []
  else
    match phase_input with
    | Some (FMap input) =>
        btree_collect <$> try_collect (fun parameter =>
          value ← ok_or (map_get input (ip_name parameter))
            (Protocol ("instruction " +:+ id (instruction_identity instruction)
              +:+ " is missing Phase input parameter " +:+ debug_str (ip_name parameter)));
          Ok (ip_name parameter, value)) (instruction_parameters instruction)
    | _ =>
        Err (Protocol ("instruction " +:+ id (instruction_identity instruction)
          +:+ " requires a map Phase input for its parameters"))
    end.

Definition instruction_item (budget : Z) (phase : PhaseBlock) (phase_input : option FlowValue)
    (instruction_ref : string) : result RuntimeError (option Value) :=
  instruction ← ok_or (instruction_block registry instruction_ref)
    (Protocol ("active Phase " +:+ id (phase_identity phase) +:+ " references unavailable Instruction "
      +:+ debug_str instruction_ref));
  values ← instruction_parameter_values instruction phase_input;
  prompt ← map_err (fun error => Protocol ("instruction " +:+ id (instruction_identity instruction)
                      +:+ " parameter binding failed: " +:+ fve_message error))
    (render_instruction try_reserve canonical_error_text (instruction_prompt instruction)
       (instruction_parameters instruction) values budget);
  Ok (Some (JObject [("id", JString (id (instruction_identity instruction))); ("prompt", JString prompt)])).

Definition tool_item (phase : PhaseBlock) (tool_ref : string) : result RuntimeError (option Value) :=
  tool ← ok_or (tool_block registry tool_ref)
    (Protocol ("active Phase " +:+ id (phase_identity phase) +:+ " references unavailable Tool "
      +:+ debug_str tool_ref));
  Ok (Some (tool_to_value tool)).

Definition base_instructions : string :=
  "Execute only the active resolved flow scope. Obey runtime policy. Treat tool access as deny-by-default. Preserve deterministic event order.".

Definition optional_id (o : option string) : Value :=
  match o with Some s => JString s | None => JNull end.

(** The sources every turn has, the first five in the order that changes least. *)
Definition tier_zero_sources (flow : FlowBlock) (phase : PhaseBlock) (phase_execution_id : string)
    (phase_input : option FlowValue) (invocation : FlowInvocation) (session_id : string)
    (history : ContextHistory) (agent_instructions : string) (phase_instructions tools : ContextSource)
    : list ContextSource :=
  [mkSource "base-runtime-security"
     (JObject [("instructions", JString base_instructions); ("runtime_version", JString cargo_pkg_version)]);
   mkSource "agent-instructions"
     (if String.eqb agent_instructions "" then JArray []
      else JArray [JObject [("content", JString agent_instructions); ("source", JString "AGENTS.md")]]);
   mkSource "active-flow-instructions" (JArray []);
   phase_instructions;
   tools;
   mkSource "fsm-flow-state"
     (JObject [("flow_definition_id", JString (id (flow_identity flow)));
               ("flow_id", JString (invocation_flow_id invocation));
               ("parent_flow_id", optional_id (invocation_parent_flow_id invocation));
               ("phase_execution_id", JString phase_execution_id);
               ("phase_id", JString (id (phase_identity phase)));
               ("session_id", JString session_id)]);
   mkSource "current-phase-input"
     (match phase_input with
      | Some value => JObject [("present", JBool true); ("value", encode value)]
      | None => JObject [("present", JBool false)]
      end);
   mkSource "unresolved-call-result" (unresolved_call_result_state history)].

Definition compile_provider_turn_context_with_agent_instructions (model : ContextModelProfile)
    (flow : FlowBlock) (phase : PhaseBlock) (phase_execution_id : string)
    (phase_input : option FlowValue) (invocation : FlowInvocation) (session_id : string)
    (history : ContextHistory) (agent_instructions : string) : result RuntimeError CompiledContext :=
  _ ← validate_provider_turn_scope flow phase;
  budget ← input_budget_tokens model;
  phase_instructions ← bounded_context_array_source "active-phase-instructions"
    (map (instruction_item budget phase phase_input) (phase_instruction_refs phase)) budget;
  tools ← bounded_context_array_source "active-available-tools"
    (map (tool_item phase) (phase_tool_refs phase)) budget;
  '(tier_one, omitted) ← continuity history;
  compile_context model
    (tier_zero_sources flow phase phase_execution_id phase_input invocation session_id history
       agent_instructions phase_instructions tools) tier_one omitted.

Definition compile_provider_turn_context (model : ContextModelProfile)
    (flow : FlowBlock) (phase : PhaseBlock) (phase_execution_id : string)
    (phase_input : option FlowValue) (invocation : FlowInvocation) (session_id : string)
    (history : ContextHistory) : result RuntimeError CompiledContext :=
  compile_provider_turn_context_with_agent_instructions model flow phase phase_execution_id phase_input
    invocation session_id history "".
End context.
