(* ===== verification/ContextTheory.v ===== *)
(** The compiled context of a turn: it fits the budget, keeps every mandatory source in order,
    its cached prefix depends on the first five sources only.  The check that a turn belongs to
    the active Flow ends and accepts exactly the Phases the Flow reaches through its references.
    Compiling never panics. *)

From Stdlib Require Import ZArith Lia Ascii String.
From stdpp Require Import base strings sorting sets option gmap countable list.
From S2P Require Import Prelude Decimal Sorting Metadata Json FlowValue Event Lifecycle Validate.
From S2P Require Import Paths Values ValuesTheory Blocks CanonicalBlock Registry NestingTheory RegistryTheory.
From S2P Require Import OwnScript.
From S2P Require Import Errors PhaseControl Policy PolicyTheory Context.

Open Scope Z_scope.

(** * Digests *)

Lemma hex_digit_lower n : 0 <= n < 16 -> is_lower_hex (hex_digit n) = true.
Proof.
  intros Hn. assert (Forall (fun k => is_lower_hex (hex_digit (Z.of_nat k)) = true) (seq 0 16)) as H
    by (by repeat constructor).
  rewrite Forall_forall in H. rewrite <- (Z2Nat.id n) by lia. apply H, elem_of_seq. lia.
Qed.

Lemma encode_sha256_hex s :
  bytes_all is_lower_hex (encode_sha256 s) = true /\
  String.length (encode_sha256 s) = (2 * String.length s)%nat.
Proof.
  induction s as [|b s [IH1 IH2]]; [done|]. cbn [encode_sha256 bytes_all String.length].
  pose proof (byte_range b) as Hb. split; [|rewrite IH2; lia].
  rewrite !hex_digit_lower, IH1; [done| |].
  - pose proof (Z.land_ones (byte b) 4 ltac:(lia)) as H. change (Z.ones 4) with 15 in H. rewrite H.
    apply Z.mod_pos_bound. lia.
  - rewrite Z.shiftr_div_pow2 by lia. change (2 ^ 4) with 16.
    split; [apply Z.div_pos; lia|]. apply Z.div_lt_upper_bound; lia.
Qed.

Section context.
Context {J : JsonEnv} {R : RuntimeEnv} {RL : RuntimeLaws}.

Lemma sha256_hex_valid bytes : is_sha256_hex (sha256_hex bytes) = true.
Proof.
  unfold is_sha256_hex, sha256_hex, slen.
  destruct (encode_sha256_hex (hasher_finalize (hasher_update hasher_new bytes))) as [H1 H2].
  rewrite H1, H2, digest_length. done.
Qed.

Lemma digest_uri bytes : exists uri, build_session_object_uri (sha256_hex bytes) = Ok uri.
Proof.
  unfold build_session_object_uri.
  rewrite (proj2 (validate_digest_Ok _) (sha256_hex_valid bytes)). by eexists.
Qed.

Lemma source_object_Ok s b :
  exists uri, source_object s b =
    Ok (mkSourceRecord uri (sha256_hex b) (source_id s), mkObject b (sha256_hex b)).
Proof. unfold source_object. destruct (digest_uri b) as [uri ->]. by eexists. Qed.

(** * Lengths *)

Lemma sum_lengths_app a b : sum_lengths (a ++ b) = sum_lengths a + sum_lengths b.
Proof using Type.
  unfold sum_lengths. rewrite map_app, foldr_app. generalize (foldr Z.add 0 (map slen b)) as z.
  intros z. induction (map slen a) as [|x l IH]; cbn; [done|]. rewrite IH. lia.
Qed.

Lemma slen_concat l : slen (concat_bytes l) = sum_lengths l.
Proof using Type.
  induction l as [|s l IH]; [done|]. unfold concat_bytes, sum_lengths in *. cbn [foldr map].
  change (append ?a ?b) with (a +:+ b). by rewrite slen_app, IH.
Qed.

Lemma concat_bytes_app a b : concat_bytes (a ++ b) = concat_bytes a +:+ concat_bytes b.
Proof using Type.
  induction a as [|s a IH]; [done|]. cbn. change (append ?a ?b) with (a +:+ b) in *.
  unfold concat_bytes in *. rewrite IH. by rewrite app_string_assoc.
Qed.

(** * The compiled context *)

Definition budget (m : ContextModelProfile) : Z := context_limit m - output_reserve m - safety_margin m.

Lemma input_budget_Ok m n :
  input_budget_tokens m = Ok n <-> n = budget m /\ 0 < budget m /\ output_reserve m <= context_limit m /\
    safety_margin m <= context_limit m - output_reserve m.
Proof using Type.
  unfold input_budget_tokens, checked_sub, budget.
  destruct (Z.leb_spec (output_reserve m) (context_limit m)) as [H1|H1];
    cbn [mbind option_bind ok_or result_bind]; [|split; [done|lia]].
  destruct (Z.leb_spec (safety_margin m) (context_limit m - output_reserve m)) as [H2|H2];
    cbn [ok_or mbind result_bind]; [|split; [done|lia]].
  destruct (Z.eqb_spec (context_limit m - output_reserve m - safety_margin m) 0) as [H3|H3].
  - split; [done|lia].
  - split; [intros [= <-]; lia|]. intros (-> & _). done.
Qed.

(** What a compiled context holds: [parts] are its sources with their bytes. *)
Record compiled_ok (m : ContextModelProfile) (tier_zero : list ContextSource)
    (recent : option ContextSource) (c : CompiledContext) (parts : list (ContextSource * string)) : Prop := {
  co_sources : map fst parts = tier_zero \/ exists s, recent = Some s /\ map fst parts = tier_zero ++ [s];
  co_source_bytes : Forall (fun sb => context_source_bytes sb.1 = Ok sb.2) parts;
  co_provider : provider_bytes c = concat_bytes (map snd parts);
  co_budget : slen (provider_bytes c) <= budget m;
  co_recent : forall s b, recent = Some s -> context_source_bytes s = Ok b ->
    map fst parts = tier_zero -> budget m < slen (provider_bytes c) + slen b;
  co_objects : compiled_objects c = map (fun sb => mkObject sb.2 (sha256_hex sb.2)) parts;
  co_prefix : cache_prefix_bytes c = sum_lengths (take 5 (map snd parts));
  co_hash : context_hash c = sha256_hex (provider_bytes c);
}.

Lemma ensure_input_budget_Ok m n :
  ensure_input_budget m n = Ok tt -> n <= budget m.
Proof using Type.
  unfold ensure_input_budget. intros H. apply bind_Ok_inv in H as (b & Hb & H).
  apply input_budget_Ok in Hb as [-> _]. destruct (Z.ltb_spec (budget m) n); [done|lia].
Qed.

Lemma zip_snd {A B} (l : list A) (k : list B) : List.length l = List.length k -> map snd (zip l k) = k.
Proof using Type.
  revert k. induction l as [|a l IH]; intros [|b k]; cbn; try done. intros [= H]. f_equal. by apply IH.
Qed.

Lemma zip_fst {A B} (l : list A) (k : list B) : List.length l = List.length k -> map fst (zip l k) = l.
Proof using Type.
  revert k. induction l as [|a l IH]; intros [|b k]; cbn; try done. intros [= H]. f_equal. by apply IH.
Qed.

Lemma zip_Forall2 {A B} (P : A -> B -> Prop) l k :
  Forall2 P l k -> Forall (fun ab => P ab.1 ab.2) (zip l k).
Proof using Type. induction 1; cbn; constructor; done. Qed.

Lemma source_objects parts sources :
  try_collect (fun '(s, b) => source_object s b) parts = Ok sources ->
  map snd sources = map (fun sb => mkObject sb.2 (sha256_hex sb.2)) parts.
Proof.
  rewrite try_collect_Forall2. induction 1 as [|[s b] [rec obj] parts sources H _ IH]; [done|]. cbn.
  destruct (source_object_Ok s b) as [uri Hu]. rewrite Hu in H. injection H as _ <-. by rewrite IH.
Qed.

Lemma compile_context_ok m tier_zero recent omitted c :
  compile_context m tier_zero recent omitted = Ok c -> exists parts, compiled_ok m tier_zero recent c parts.
Proof.
  unfold compile_context. intros H. destruct (Z.ltb_spec (len tier_zero) CACHE_STABLE_TIER_ZERO_SOURCES) as [|Hlen]; [done|].
  apply bind_Ok_inv in H as (bud & Hbud & H). apply input_budget_Ok in Hbud as [-> _].
  apply bind_Ok_inv in H as (bs & Hbs & H). apply try_collect_Forall2 in Hbs.
  apply bind_Ok_inv in H as ([] & Hens & H). apply ensure_input_budget_Ok in Hens.
  apply bind_Ok_inv in H as (rb & Hrb & H). cbn zeta in H.
  set (included := match rb with Some (s, b) =>
    if sum_lengths bs + slen b <=? budget m then Some (s, b) else None | None => None end) in *.
  apply bind_Ok_inv in H as (sources & Hsrc & H). apply bind_Ok_inv in H as (bound & _ & H).
  apply bind_Ok_inv in H as (line & _ & H). injection H as <-.
  pose proof (Forall2_length _ _ _ Hbs) as Hl.
  set (parts := zip tier_zero bs ++ option_list included) in *.
  assert (match included with
    | Some (s, b) => recent = Some s /\ context_source_bytes s = Ok b /\ sum_lengths bs + slen b <= budget m
    | None => forall s b, recent = Some s -> context_source_bytes s = Ok b -> budget m < sum_lengths bs + slen b
    end) as Hinc.
  { unfold included. destruct recent as [s|].
    - apply bind_Ok_inv in Hrb as (b & Hb & Hrb). injection Hrb as <-.
      destruct (Z.leb_spec (sum_lengths bs + slen b) (budget m)); [done|].
      intros s' b' [= <-] Hb'. assert (b' = b) as -> by congruence. done.
    - by injection Hrb as <-. }
  assert (map snd parts = bs ++ option_list (snd <$> included)) as Hsnd.
  { unfold parts. rewrite map_app, zip_snd by done. f_equal. by destruct included. }
  assert (map fst parts = tier_zero ++ option_list (fst <$> included)) as Hfst.
  { unfold parts. rewrite map_app, zip_fst by done. f_equal. by destruct included. }
  assert (CACHE_STABLE_TIER_ZERO_SOURCES = 5) as H5 by done.
  exists parts. constructor; cbn [provider_bytes compiled_objects cache_prefix_bytes context_hash].
  - rewrite Hfst. destruct included as [[s b]|]; [right|left; apply app_nil_r].
    exists s. by destruct Hinc as [-> _].
  - unfold parts. apply Forall_app. split; [exact (zip_Forall2 (fun s b => context_source_bytes s = Ok b) _ _ Hbs)|].
    destruct included as [[s b]|]; [|constructor]. constructor; [|constructor]. by destruct Hinc as (_ & ? & _).
  - done.
  - rewrite slen_concat, Hsnd, sum_lengths_app. destruct included as [[s b]|].
    + change (sum_lengths (option_list _)) with (slen b + 0). lia.
    + change (sum_lengths (option_list _)) with 0. lia.
  - intros s b Hs Hb. rewrite Hfst, slen_concat, Hsnd, sum_lengths_app.
    destruct included as [[s' b']|].
    + intros Hx. apply (f_equal List.length) in Hx. rewrite length_app in Hx. cbn in Hx. lia.
    + intros _. specialize (Hinc s b Hs Hb). change (sum_lengths (option_list _)) with 0. lia.
  - by apply source_objects.
  - rewrite Hsnd, take_app_le; [done|]. unfold len in Hlen. lia.
  - done.
Qed.

(** C38: a compiled context fits the input budget of its model, its limit less the output reserve
    and the safety margin; it is the bytes of every mandatory source in order, followed by the
    most recent interaction exactly when that still fits; its objects are these bytes under
    their digests, and its cached prefix is the first five sources. *)
Theorem compile_context_exact m tier_zero recent omitted c :
  compile_context m tier_zero recent omitted = Ok c -> exists parts, compiled_ok m tier_zero recent c parts.
Proof. apply compile_context_ok. Qed.

Lemma str_take_concat l k : str_take (Z.to_nat (sum_lengths l)) (concat_bytes (l ++ k)) = concat_bytes l.
Proof using Type.
  rewrite concat_bytes_app. rewrite <- slen_concat. unfold slen. rewrite Nat2Z.id. 
  induction (concat_bytes l) as [|a s IH]; cbn; [done|]. by f_equal.
Qed.

(** the cached prefix of a context depends on its first five sources only: contexts that
    share them share the prefix, byte for byte, whatever input, state and history follow. *)
Theorem context_cache_stable m m' tier_zero tier_zero' recent recent' omitted omitted' c c' :
  compile_context m tier_zero recent omitted = Ok c ->
  compile_context m' tier_zero' recent' omitted' = Ok c' ->
  take 5 tier_zero = take 5 tier_zero' ->
  cache_prefix_bytes c = cache_prefix_bytes c' /\
  str_take (Z.to_nat (cache_prefix_bytes c)) (provider_bytes c) =
  str_take (Z.to_nat (cache_prefix_bytes c')) (provider_bytes c').
Proof.
  intros Hc Hc' Htake.
  assert (forall m tz r o c, compile_context m tz r o = Ok c ->
    exists bs rest, try_collect context_source_bytes (take 5 tz) = Ok bs /\
      cache_prefix_bytes c = sum_lengths bs /\ provider_bytes c = concat_bytes (bs ++ rest)) as Hx.
  { clear -RL. intros m tz r o c Hc. assert (5 <= List.length tz)%nat as Hlen.
    { unfold compile_context in Hc. destruct (Z.ltb_spec (len tz) CACHE_STABLE_TIER_ZERO_SOURCES); [done|].
      unfold len, CACHE_STABLE_TIER_ZERO_SOURCES in *. lia. }
    destruct (compile_context_ok _ _ _ _ _ Hc) as (parts & [Hs Hb Hp _ _ _ Hpre _]).
    exists (take 5 (map snd parts)), (drop 5 (map snd parts)).
    rewrite take_drop. split_and!; [|done|done]. apply try_collect_Forall2.
    assert (take 5 tz = take 5 (map fst parts)) as ->.
    { destruct Hs as [->|(s & _ & ->)]; [done|]. by rewrite take_app_le by lia. }
    rewrite !firstn_map. clear -Hb.
    assert (Forall (fun sb => context_source_bytes sb.1 = Ok sb.2) (take 5 parts)) as Ht by (by apply Forall_take).
    induction Ht; cbn; constructor; done. }
  destruct (Hx _ _ _ _ _ Hc) as (bs & rest & H1 & -> & ->).
  destruct (Hx _ _ _ _ _ Hc') as (bs' & rest' & H1' & -> & ->).
  rewrite Htake, H1' in H1. injection H1 as <-. by rewrite !str_take_concat.
Qed.
End context.

(** * Derived equalities *)

Section equality.

Lemma list_eqb_eq {A} (eqb : A -> A -> bool) a b :
  (forall x y, eqb x y = true <-> x = y) -> list_eqb eqb a b = true <-> a = b.
Proof.
  intros H. revert b. induction a as [|x a IH]; intros [|y b]; cbn; try done.
  rewrite andb_true_iff, H, IH. naive_solver.
Qed.

Lemma option_eqb_eq {A} (eqb : A -> A -> bool) a b :
  (forall x y, eqb x y = true <-> x = y) -> option_eqb eqb a b = true <-> a = b.
Proof. intros H. destruct a, b; cbn; rewrite ?H; naive_solver. Qed.

Lemma contract_eqb_refl c : contract_eqb c c = true.
Proof.
  induction c as [| |min max|max|items max IH|fields IH] using ValueContract_ind'; cbn; try done;
    rewrite ?bool_decide_eq_true_2 by done; rewrite ?IH; try done.
  induction IH as [|[n q c] fields Hc _ IH]; [done|]. cbn in *.
  by rewrite String.eqb_refl, eqb_reflx, Hc, IH.
Qed.

Lemma contract_eqb_spec a b : contract_eqb a b = true <-> a = b.
Proof. split; [apply contract_eqb_eq|]. intros ->. apply contract_eqb_refl. Qed.

Lemma predicate_eqb_eq a b : predicate_eqb a b = true <-> a = b.
Proof.
  unfold predicate_eqb. rewrite andb_true_iff, bool_decide_eq_true, fv_eqb_eq. destruct a, b; naive_solver.
Qed.

Lemma transition_eqb_eq a b : transition_eqb a b = true <-> a = b.
Proof.
  unfold transition_eqb. rewrite !andb_true_iff, !String.eqb_eq, predicate_eqb_eq. destruct a, b; naive_solver.
Qed.

Lemma loop_eqb_eq a b : loop_eqb a b = true <-> a = b.
Proof. unfold loop_eqb. rewrite andb_true_iff, Z.eqb_eq, predicate_eqb_eq. destruct a, b; naive_solver. Qed.

Lemma identity_eqb_eq a b : identity_eqb a b = true <-> a = b.
Proof. unfold identity_eqb. rewrite andb_true_iff, !String.eqb_eq. destruct a, b; naive_solver. Qed.

Lemma phase_eqb_eq a b : phase_eqb a b = true <-> a = b.
Proof.
  unfold phase_eqb. rewrite !andb_true_iff, !bool_decide_eq_true, identity_eqb_eq, contract_eqb_spec,
    (option_eqb_eq _ _ _ loop_eqb_eq), (list_eqb_eq _ _ _ transition_eqb_eq).
  destruct a, b; cbn. split; [|by intros [= -> -> -> -> -> -> -> ->]].
  by intros [[[[[[[-> ->] ->] ->] ->] ->] ->] ->].
Qed.

Lemma flow_eqb_eq a b : flow_eqb a b = true <-> a = b.
Proof.
  unfold flow_eqb. rewrite !andb_true_iff, !bool_decide_eq_true, identity_eqb_eq,
    (list_eqb_eq _ _ _ transition_eqb_eq).
  destruct a, b; cbn. split; [|by intros [= -> -> -> ->]]. by intros [[[-> ->] ->] ->].
Qed.
End equality.

(** * The loop ends *)

Section scope.
Context {J : JsonEnv} {R : RuntimeEnv} (r : ResolvedRegistry).

(** What the unvisited references can still add. *)
Definition open_expansion (refs : list string) (visited : gset string) : nat :=
  foldr (fun x n => ((if bool_decide (x ∈ visited) then 0 else expansion r x) + n)%nat) 0%nat refs.

Lemma open_expansion_cons x refs visited :
  open_expansion (x :: refs) visited =
    ((if bool_decide (x ∈ visited) then 0 else expansion r x) + open_expansion refs visited)%nat.
Proof using Type. done. Qed.

Lemma open_expansion_absent refs visited x :
  x ∉ refs -> open_expansion refs ({[x]} ∪ visited) = open_expansion refs visited.
Proof using Type.
  induction refs as [|y refs IH]; intros Hx; [done|]. apply not_elem_of_cons in Hx as [Hne Hx].
  rewrite !open_expansion_cons, IH by done. f_equal. rewrite (bool_decide_ext (y ∈ {[x]} ∪ visited) (y ∈ visited)); [done|].
  rewrite elem_of_union, elem_of_singleton. naive_solver.
Qed.

Lemma open_expansion_visit refs visited x :
  NoDup refs -> x ∈ refs -> x ∉ visited ->
  open_expansion refs visited = (expansion r x + open_expansion refs ({[x]} ∪ visited))%nat.
Proof using Type.
  intros Hnd Hin Hx. induction Hnd as [|y refs Hy Hnd IH]; [by apply not_elem_of_nil in Hin|].
  rewrite !open_expansion_cons. destruct (decide (x = y)) as [<-|Hne].
  - rewrite bool_decide_eq_false_2, bool_decide_eq_true_2 by (done || (rewrite elem_of_union, elem_of_singleton; by left)).
    rewrite open_expansion_absent by done. done.
  - apply elem_of_cons in Hin as [->|Hin]; [done|]. rewrite (IH Hin).
    rewrite (bool_decide_ext (y ∈ {[x]} ∪ visited) (y ∈ visited)); [lia|].
    rewrite elem_of_union, elem_of_singleton. naive_solver.
Qed.

Lemma phase_block_held ref p : phase_block r ref = Some p -> exists k, phases r !! k = Some p.
Proof using Type.
  unfold phase_block, named_block. destruct (phases r !! ref) eqn:E; [intros [= <-]; eauto|].
  intros (k & _ & Hk)%bind_Some. eauto.
Qed.

Lemma phase_refs_in_scope flow ref p x :
  phase_block r ref = Some p -> x ∈ phase_phase_refs p -> x ∈ scope_references r flow.
Proof using Type.
  intros [k Hk]%phase_block_held Hx. unfold scope_references. apply elem_of_app. right.
  apply list_elem_of_In, in_concat. exists (phase_phase_refs p). split; [|by apply list_elem_of_In].
  apply in_map_iff. exists (k, p). split; [done|]. apply list_elem_of_In, elem_of_map_iter. done.
Qed.

Lemma last_removelast {A} (l : list A) x : last l = Some x -> l = removelast l ++ [x].
Proof using Type.
  intros H. destruct (exists_last (l := l)) as (k & y & ->); [by intros ->|].
  rewrite last_snoc in H. injection H as ->. by rewrite removelast_last.
Qed.

Section loop.
Context (flow : FlowBlock) (phase : PhaseBlock).

Abbreviation universe := (remove_dups (scope_references r flow)).

Lemma scope_loop_no_panic fuel flow' pending visited :
  (forall x, x ∈ pending -> x ∈ scope_references r flow) ->
  (List.length pending + open_expansion universe visited < fuel)%nat ->
  scope_loop r fuel flow' phase pending visited <> Panic.
Proof using Type.
  revert pending visited. induction fuel as [|fuel IH]; intros pending visited Hsub Hm; [lia|].
  cbn [scope_loop]. destruct (last pending) as [x|] eqn:Hl; [|done].
  apply last_removelast in Hl. set (rest := removelast pending) in *.
  assert (List.length pending = S (List.length rest)) as Hlen by (rewrite Hl, length_app; cbn; lia).
  assert (forall y, y ∈ rest -> y ∈ scope_references r flow) as Hrest
    by (intros y Hy; apply Hsub; rewrite Hl; apply elem_of_app; by left).
  assert (x ∈ scope_references r flow) as Hx by (apply Hsub; rewrite Hl; apply elem_of_app; right; left).
  destruct (bool_decide_reflect (x ∈ visited)) as [Hv|Hv]; [apply IH; [done|lia]|].
  destruct (String.eqb x _); [done|]. destruct (phase_block r x) as [p|] eqn:Hp; [|done].
  apply IH.
  - intros y [Hy|Hy]%elem_of_app; [by apply Hrest|]. by eapply phase_refs_in_scope.
  - rewrite (open_expansion_visit _ _ x) in Hm;
      [|apply NoDup_remove_dups|by apply elem_of_remove_dups|done].
    assert (expansion r x = List.length (phase_phase_refs p)) as Hex by (unfold expansion; by rewrite Hp).
    rewrite length_app. lia.
Qed.

Lemma open_expansion_none refs : open_expansion refs ∅ = foldr Nat.add 0%nat (map (expansion r) refs).
Proof using Type.
  induction refs as [|x refs IH]; [done|]. rewrite open_expansion_cons, IH.
  by rewrite bool_decide_eq_false_2 by apply not_elem_of_empty.
Qed.

Lemma validate_scope_no_panic : validate_provider_turn_scope r flow phase <> Panic.
Proof using Type.
  unfold validate_provider_turn_scope.
  apply bind_no_panic; [apply ok_or_no_panic|]. intros f Hf%ok_or_Ok_inv.
  apply bind_no_panic; [apply ok_or_no_panic|]. intros _ _.
  assert (f = flow) as ->.
  { unfold option_filter in Hf. destruct (flow_block r _); [|done]. destruct (flow_eqb _ _) eqn:E; [|done].
    injection Hf as <-. by apply flow_eqb_eq. }
  apply scope_loop_no_panic.
  - intros x Hx. apply elem_of_app. by left.
  - rewrite open_expansion_none. unfold scope_fuel. lia.
Qed.

(** * What it accepts *)

Context (Hr : registry_ok r).
Context (Hphase : phases r !! id (phase_identity phase) = Some phase).

Abbreviation target := (id (phase_identity phase)).

Record search_inv (pending : list string) (visited : gset string) : Prop := {
  si_target : target ∉ visited;
  si_root : forall x, x ∈ flow_phase_refs flow -> x ∈ visited \/ x ∈ pending;
  si_closed : forall x y, x ∈ visited -> phase_child r x y -> y ∈ visited \/ y ∈ pending;
  si_reached : forall x, x ∈ pending -> exists root, root ∈ flow_phase_refs flow /\ rtc (phase_child r) root x;
}.

Definition reached : Prop :=
  exists root, root ∈ flow_phase_refs flow /\ rtc (phase_child r) root target.

Lemma closed_reached visited :
  search_inv [] visited -> reached -> False.
Proof using Type.
  intros [Ht Hroot Hcl _] (root & Hin & Hrtc).
  assert (root ∈ visited) as Hv by (destruct (Hroot root Hin) as [|?%not_elem_of_nil]; done).
  assert (forall x z, rtc (phase_child r) x z -> x ∈ visited -> z ∈ visited) as Hall; [|eauto].
  induction 1 as [|x y z Hxy _ IH]; [done|]. intros Hx. apply IH.
  by destruct (Hcl x y Hx Hxy) as [|?%not_elem_of_nil].
Qed.

Context (Hrefs : forall x, x ∈ flow_phase_refs flow -> is_Some (phases r !! x)).

Lemma reached_resolves root x :
  root ∈ flow_phase_refs flow -> rtc (phase_child r) root x -> is_Some (phases r !! x).
Proof using Hr Hrefs.
  intros Hin Hrtc. apply Hrefs in Hin. induction Hrtc as [|x y z (p & Hp & Hy) _ IH]; [done|].
  apply IH. destruct (phase_ref_resolves r Hr x p y Hp Hy) as (q & _ & Hq). eauto.
Qed.

Lemma scope_loop_exact fuel flow' pending visited :
  search_inv pending visited -> scope_loop r fuel flow' phase pending visited <> Panic ->
  scope_loop r fuel flow' phase pending visited = Ok tt <-> reached.
Proof using Hr Hrefs.
  revert pending visited. induction fuel as [|fuel IH]; intros pending visited Hinv Hnp; [done|].
  cbn [scope_loop] in *. destruct (last pending) as [x|] eqn:Hl.
  2:{ apply last_None in Hl as ->. split; [done|]. by intros ?%(closed_reached visited). }
  apply last_removelast in Hl. set (rest := removelast pending) in *.
  destruct Hinv as [Ht Hroot Hcl Hre].
  assert (forall y, y ∈ pending <-> y ∈ rest \/ y = x) as Hp
    by (intros y; rewrite Hl, elem_of_app, list_elem_of_singleton; done).
  destruct (bool_decide_reflect (x ∈ visited)) as [Hv|Hv].
  { apply IH; [|done]. split; [done|..].
    - intros y Hy. destruct (Hroot y Hy) as [H|[H|H]%Hp]; [by left|by right|left; by rewrite H].
    - intros a y Ha Hy. destruct (Hcl a y Ha Hy) as [H|[H|H]%Hp]; [by left|by right|left; by rewrite H].
    - intros y Hy. apply Hre, Hp. by left. }
  destruct (Hre x) as (root & Hin & Hrtc); [apply Hp; by right|].
  destruct (String.eqb_spec x target) as [Heq|Hne].
  { split; [|done]. intros _. exists root. by rewrite <- Heq. }
  destruct (reached_resolves root x Hin Hrtc) as [p Hpx].
  rewrite (phase_block_id r x p Hpx) in *. apply IH; [|done]. split.
  - rewrite elem_of_union, elem_of_singleton. intros [|]; [congruence|done].
  - intros y Hy. destruct (Hroot y Hy) as [H|[H|H]%Hp].
    + left. apply elem_of_union. by right.
    + right. apply elem_of_app. by left.
    + left. apply elem_of_union. left. by apply elem_of_singleton.
  - intros a y [->%elem_of_singleton|Ha]%elem_of_union Hy.
    + right. apply elem_of_app. right. destruct Hy as (q & Hq & Hy). congruence.
    + destruct (Hcl a y Ha Hy) as [H|[H|H]%Hp].
      * left. apply elem_of_union. by right.
      * right. apply elem_of_app. by left.
      * left. apply elem_of_union. left. by apply elem_of_singleton.
  - intros y [Hy|Hy]%elem_of_app; [apply Hre, Hp; by left|].
    exists root. split; [done|]. eapply rtc_r; [done|]. by exists p.
Qed.
End loop.
End scope.

Lemma option_filter_Some {A} (p : A -> bool) o a :
  option_filter p o = Some a <-> o = Some a /\ p a = true.
Proof.
  unfold option_filter. destruct o as [b|]; [|by split; [|intros [? _]]].
  destruct (p b) eqn:E; split; try done.
  - by intros [= <-].
  - by intros [[= <-] _].
  - intros [[= <-] H]. congruence.
Qed.

Lemma validate_scope_exact {J : JsonEnv} {R : RuntimeEnv} r flow phase :
  registry_ok r ->
  validate_provider_turn_scope r flow phase = Ok tt <->
  flows r !! id (flow_identity flow) = Some flow /\ phases r !! id (phase_identity phase) = Some phase /\
  reached r flow phase.
Proof.
  intros Hr. pose proof (validate_scope_no_panic r flow phase) as Hnp.
  assert (forall ref f, flow_block r ref = Some f -> id (flow_identity f) = ref -> flows r !! ref = Some f) as Hfk.
  { intros ref f Hf Hid. unfold flow_block, named_block in Hf. destruct (flows r !! ref) eqn:E; [done|].
    apply bind_Some in Hf as (k & _ & Hk). rewrite <- (ro_flow_ids _ Hr k f Hk), Hid, E in Hk. done. }
  assert (forall ref f, phase_block r ref = Some f -> id (phase_identity f) = ref -> phases r !! ref = Some f) as Hpk.
  { intros ref f Hf Hid. unfold phase_block, named_block in Hf. destruct (phases r !! ref) eqn:E; [done|].
    apply bind_Some in Hf as (k & _ & Hk). rewrite <- (ro_phase_ids _ Hr k f Hk), Hid, E in Hk. done. }
  unfold validate_provider_turn_scope in *.
  destruct (option_filter _ (flow_block _ _)) as [f|] eqn:Ef; cbn [ok_or mbind result_bind] in *.
  2:{ split; [done|]. intros (Hf & _). rewrite (flow_block_id r _ _ Hf) in Ef. cbn in Ef.
      by rewrite (proj2 (flow_eqb_eq flow flow) eq_refl) in Ef. }
  apply option_filter_Some in Ef as [Ef ->%flow_eqb_eq]. apply Hfk in Ef; [|done].
  destruct (option_filter _ (phase_block _ _)) as [p|] eqn:Ep; cbn [ok_or mbind result_bind] in *.
  2:{ split; [done|]. intros (_ & Hp & _). rewrite (phase_block_id r _ _ Hp) in Ep. cbn in Ep.
      by rewrite (proj2 (phase_eqb_eq phase phase) eq_refl) in Ep. }
  apply option_filter_Some in Ep as [Ep ->%phase_eqb_eq]. apply Hpk in Ep; [|done].
  rewrite (scope_loop_exact r flow phase Hr); [|..|done].
  - naive_solver.
  - intros x Hx. destruct (sq_refs _ _ _ _ (fo_sequence _ _ (ro_flows _ Hr _ _ Ef)) x Hx) as (q & Hq & _). eauto.
  - split; [apply not_elem_of_empty|by right|by intros x y ?%not_elem_of_empty|].
    intros x Hx. exists x. split; [done|]. constructor.
Qed.

(** in a resolved registry a turn is compiled for a Phase exactly when Flow and Phase are the
    registered ones and the Phase is reached from the references of that Flow, directly or
    through composite Phases; the search ends, whatever the registry. *)
Theorem turn_scope_exact {J : JsonEnv} {R : RuntimeEnv} r flow phase :
  registry_ok r ->
  (validate_provider_turn_scope r flow phase = Ok tt <->
   flows r !! id (flow_identity flow) = Some flow /\ phases r !! id (phase_identity phase) = Some phase /\
   reached r flow phase) /\
  validate_provider_turn_scope r flow phase <> Panic.
Proof. intros Hr. split; [by apply validate_scope_exact|apply validate_scope_no_panic]. Qed.
