(* ===== verification/Builder.v ===== *)
(** The event builder of the Flow runtime
    ([flow-agent-core/src/runtime/event_construction.rs],
    [event_construction/transition.rs]), with the clock and the failure status of [types.rs],
    and the stream signature of [stream_signature.rs].

    The builder turns what happens into events, validates each against the stream so far, and
    keeps what later turns and the plan need.  A path argument, which only names the stream in
    messages, is left out. *)

From Stdlib Require Import ZArith Lia Ascii String.
From stdpp Require Import base strings sorting sets option gmap countable list.
From S2P Require Import Prelude Decimal Sorting Metadata Json FlowValue Event Lifecycle Validate.
From S2P Require Import Paths Values Blocks Registry Errors PhaseControl Policy OwnScript Context.

Open Scope Z_scope.

(** * The clock ([types.rs]) *)

Record EventClock : Type := mkClock { base_unix_seconds : Z }.

(** [u64::saturating_sub(1)], then [i64::try_from(..).unwrap_or(i64::MAX)]. *)
Definition clock_offset (sequence : Z) : Z :=
  let offset := Z.max 0 (sequence - 1) in if offset <=? i64_max then offset else i64_max.

Definition clock_timestamp (clock : EventClock) (sequence : Z) : result RuntimeError string :=
  ok_or (format_rfc3339_utc_timestamp (sat_i64 (base_unix_seconds clock + clock_offset sequence)))
    (Protocol "runtime event timestamp is outside the protocol four-digit year range").

(** * Signatures ([stream_signature.rs]) *)

Definition EVENT_PLAN_DOMAIN : string := "watershed.runtime.event-plan.v1".
Definition CONTEXT_PLAN_DOMAIN : string := "watershed.runtime.context-plan.v1".

(** [u64::to_be_bytes]. *)
Definition to_be_bytes (n : Z) : string :=
  foldr (fun i s => String (ascii_of_N (Z.to_N (Z.land (Z.shiftr n (8 * i)) 255))) s) ""
    [7; 6; 5; 4; 3; 2; 1; 0].

Section signature.
Context {R : RuntimeEnv}.

Record RuntimeStreamSignatureBuilder : Type := mkSignature {
  byte_count : Z;
  hasher : Hasher;
  record_count : Z;
}.

Definition signature_new (domain : string) : RuntimeStreamSignatureBuilder :=
  mkSignature 0 (hasher_update (hasher_update hasher_new (to_be_bytes (slen domain))) domain) 0.

Definition signature_push (s : RuntimeStreamSignatureBuilder) (record : string)
    : RuntimeStreamSignatureBuilder :=
  mkSignature (sat_u64 (byte_count s + slen record))
    (hasher_update (hasher_update (hasher s) (to_be_bytes (slen record))) record)
    (sat_u64 (record_count s + 1)).
End signature.

(** * The failure status ([types.rs]) *)

Record HumanFailureStatus : Type := mkStatus {
  error_messages : gmap string string;
  rendered : option string;
}.

Definition status_default : HumanFailureStatus := mkStatus ∅ None.

Section status.
Context {R : RuntimeEnv}.

Definition render_human_failure_status (reason : string) (message : option string) : string :=
  let reason := escape_human_failure_text reason in
  match message with
  | None => "failed (" +:+ reason +:+ ")"
  | Some message => "failed (" +:+ reason +:+ "): " +:+ escape_human_failure_text message
  end.

Definition observe (s : HumanFailureStatus) (e : EventEnvelope) : HumanFailureStatus :=
  if bool_decide (event_type e = Metadata.Error) then
    match payload_str e "code", payload_str e "message" with
    | Some code, Some message => mkStatus (<[code := message]> (error_messages s)) (rendered s)
    | _, _ => s
    end
  else if bool_decide (event_type e = SessionFailed) then
    match payload_str e "reason" with
    | Some reason =>
        mkStatus (error_messages s)
          (Some (render_human_failure_status reason (error_messages s !! reason)))
    | None => s
    end
  else s.
End status.

(** * Plans ([execution_plan.rs]) *)

Inductive PlannedFixtureEffect : Type :=
| EffectPredefined (command_id : string) (argv : list string) (progress : option string)
| EffectOwnScript (progress : string) (write : option ScriptWrite).

Record PlannedFlowFailureBoundary : Type := mkBoundary {
  boundary_definition_id : string;
  boundary_flow_id : string;
  boundary_parent_flow_id : option string;
}.

Record PlannedFailureTransition : Type := mkFailureTransition {
  ancestor_flows : list PlannedFlowFailureBoundary;
  ancestor_phase_failure_payloads : list Value;
  ft_flow_definition_id : string;
  ft_flow_id : string;
  ft_parent_flow_id : option string;
  ft_phase_id : string;
  ft_phase_failure_payload : Value;
  ft_tool_id : string;
}.

Record PlannedFixtureAction : Type := mkFixtureAction {
  fixture_action_id : string;
  fixture_command_policy : CommandPolicy;
  completion_sequence : Z;
  effect : PlannedFixtureEffect;
  failure_transition : PlannedFailureTransition;
}.

Record ConstructedRuntimeEvent : Type := mkConstructed {
  constructed_jsonl : string;
  constructed_event : EventEnvelope;
}.

Record PlannedEventAction : Type := mkEventAction {
  event_action_id : string;
  context_checkpoint : option ContextManifestCheckpoint;
  action_event : ConstructedRuntimeEvent;
}.

Inductive FlowExecutionAction : Type :=
| ActionEvent (action : PlannedEventAction)
| ActionFixture (action : PlannedFixtureAction).

Record PlannedToolIntent : Type := mkIntent {
  intent_canonical : string;
  intent_flow_id : string;
  intent_tool_id : string;
}.

(** * The builder *)

Definition FLOW_AGENT_EVENT_SOURCE : string := "flow-agent-cli".
Definition MAX_PHASE_ITERATIONS : Z := 512.
Definition TOOL_EXECUTION_INTENT_DOMAIN : string := "watershed.runtime.tool-execution-intent.v1".

Definition runtime_event_id (sequence : Z) : string := "evt-" +:+ dec_pad 3 sequence.

Section builder.
Context {J : JsonEnv} {R : RuntimeEnv}.

Definition constructed_new (e : EventEnvelope) : result CanonicalJsonError ConstructedRuntimeEvent :=
  canonical ← canonical_jsonl e; Ok (mkConstructed canonical e).

Record RuntimeEventBuilder : Type := mkBuilder {
  actions : list FlowExecutionAction;
  active_phase_payloads : gmap string (list Value);
  clock : EventClock;
  context_manifests : RuntimeStreamSignatureBuilder;
  events : RuntimeStreamSignatureBuilder;
  failure_status : HumanFailureStatus;
  history : ContextHistory;
  flow_counter : Z;
  message_counter : Z;
  phase_counter : Z;
  builder_sequence : Z;
  builder_session_id : string;
  pending_context_manifest : option (ContextManifest * list ContextObject);
  tool_intents : list PlannedToolIntent;
  validation : option SessionAppendValidationState;
}.

Definition with_clock (session_id : string) (clock : EventClock) (validate_plan : bool)
    : RuntimeEventBuilder := {|
  actions := [];
  active_phase_payloads := ∅;
  clock := clock;
  context_manifests := signature_new CONTEXT_PLAN_DOMAIN;
  events := signature_new EVENT_PLAN_DOMAIN;
  failure_status := status_default;
  history := history_default;
  flow_counter := 0;
  message_counter := 0;
  phase_counter := 0;
  builder_sequence := 0;
  builder_session_id := session_id;
  pending_context_manifest := None;
  tool_intents := [];
  validation := if validate_plan then Some (empty_state session_id) else None;
|}.

(** Field updates. *)
Definition with_counters (b : RuntimeEventBuilder) (flow message phase : Z) : RuntimeEventBuilder :=
  mkBuilder (actions b) (active_phase_payloads b) (clock b) (context_manifests b) (events b)
    (failure_status b) (history b) flow message phase (builder_sequence b) (builder_session_id b)
    (pending_context_manifest b) (tool_intents b) (validation b).

Definition with_pending (b : RuntimeEventBuilder) (pending : option (ContextManifest * list ContextObject))
    : RuntimeEventBuilder :=
  mkBuilder (actions b) (active_phase_payloads b) (clock b) (context_manifests b) (events b)
    (failure_status b) (history b) (flow_counter b) (message_counter b) (phase_counter b)
    (builder_sequence b) (builder_session_id b) pending (tool_intents b) (validation b).

Definition with_plan (b : RuntimeEventBuilder) (actions : list FlowExecutionAction)
    (tool_intents : list PlannedToolIntent) : RuntimeEventBuilder :=
  mkBuilder actions (active_phase_payloads b) (clock b) (context_manifests b) (events b)
    (failure_status b) (history b) (flow_counter b) (message_counter b) (phase_counter b)
    (builder_sequence b) (builder_session_id b) (pending_context_manifest b) tool_intents (validation b).

Definition next_flow_invocation (parent_flow_id : option string) : eff RuntimeEventBuilder FlowInvocation :=
  fun b =>
    let next_flow_counter := flow_counter b + 1 in
    if MAX_FLOW_INVOCATIONS <? next_flow_counter then
      (b, Err (Protocol ("flow invocation budget exceeded: next invocation "
                 +:+ Z_to_string next_flow_counter +:+ " exceeds max "
                 +:+ Z_to_string MAX_FLOW_INVOCATIONS)))
    else
      (with_counters b next_flow_counter (message_counter b) (phase_counter b),
       Ok (mkInvocation ("flow-" +:+ dec_pad 3 next_flow_counter) parent_flow_id)).

Definition next_phase_execution_id : eff RuntimeEventBuilder string :=
  fun b =>
    let next := sat_u64 (phase_counter b + 1) in
    if MAX_PHASE_ITERATIONS <? next then
      (b, Err (Protocol ("phase iteration budget exceeded: next iteration " +:+ Z_to_string next
                 +:+ " exceeds max " +:+ Z_to_string MAX_PHASE_ITERATIONS)))
    else
      (with_counters b (flow_counter b) (message_counter b) next,
       Ok ("phase-" +:+ dec_pad 6 next)).

Definition next_message_id : eff RuntimeEventBuilder string :=
  fun b =>
    let next := message_counter b + 1 in
    (with_counters b (flow_counter b) next (phase_counter b), Ok ("msg-" +:+ dec_pad 3 next)).

(** [RuntimeToolPolicy]. *)
Record RuntimeToolPolicy : Type := mkToolPolicy {
  policy_command : CommandPolicy;
  stub_model_fixture_profile : bool;
}.

Definition record_tool_intent (invocation : FlowInvocation) (tool : ToolBlock) (policy : RuntimeToolPolicy)
    : eff RuntimeEventBuilder unit :=
  fun b =>
    match canonical_json (JObject
      [("command_policy", command_to_value (policy_command policy));
       ("domain", JString TOOL_EXECUTION_INTENT_DOMAIN);
       ("flow_id", JString (invocation_flow_id invocation));
       ("stub_model_fixture_profile", JBool (stub_model_fixture_profile policy));
       ("tool", tool_to_value tool)]) with
    | Ok canonical =>
        (with_plan b (actions b)
           (tool_intents b ++ [mkIntent canonical (invocation_flow_id invocation) (id (tool_identity tool))]),
         Ok tt)
    | Err error => (b, Err (Unserializable ("tool intent " +:+ id (tool_identity tool)) error))
    | Panic => (b, Panic)
    end.

Definition record_fixture_action (transition : PlannedFailureTransition) (policy : RuntimeToolPolicy)
    (completion : Z) (effect : PlannedFixtureEffect) : eff RuntimeEventBuilder unit :=
  fun b =>
    let ordinal := len (tool_intents b) in
    (with_plan b (actions b ++ [ActionFixture
       (mkFixtureAction ("fixture-" +:+ dec_pad 6 ordinal) (policy_command policy) completion effect transition)])
       (tool_intents b), Ok tt).

Definition record_context_manifest (manifest : ContextManifest) (objects : list ContextObject)
    : eff RuntimeEventBuilder unit :=
  fun b =>
    match ensure_context_manifest_growth_within_limit (byte_count (context_manifests b))
            (slen (manifest_line manifest)) with
    | Ok _ => (with_pending b (Some (manifest, objects)), Ok tt)
    | Err e => (b, Err e)
    | Panic => (b, Panic)
    end.

(** * Emitting one event *)

Definition with_invocation (e : EventEnvelope) (invocation : option FlowInvocation) : EventEnvelope :=
  match invocation with
  | Some i =>
      {| additional_fields := additional_fields e; correlation_id := correlation_id e;
         event_id := event_id e; event_type := event_type e;
         flow_id := Some (invocation_flow_id i); parent_flow_id := invocation_parent_flow_id i;
         payload := payload e; protocol_version := protocol_version e; sequence := sequence e;
         session_id := session_id e; source := source e; timestamp := timestamp e |}
  | None => e
  end.

Definition runtime_event (session_id : string) (sequence : Z) (timestamp : string)
    (invocation : option FlowInvocation) (t : EventType) (payload : Value) : EventEnvelope :=
  with_invocation
    (Event.new (runtime_event_id sequence) t session_id sequence timestamp FLOW_AGENT_EVENT_SOURCE payload)
    invocation.

(** The payloads of the entered Phases of a Flow. *)
Definition track_phases (phases : gmap string (list Value)) (invocation : option FlowInvocation)
    (e : EventEnvelope) : gmap string (list Value) :=
  match invocation with
  | None => phases
  | Some i =>
      let flow := invocation_flow_id i in
      match event_type e with
      | PhaseEntered => <[flow := default [] (phases !! flow) ++ [payload e]]> phases
      | PhaseCompleted | PhaseFailed =>
          match phases !! flow with
          | Some l =>
              let l := removelast l in
              if bool_decide (l = []) then delete flow phases else <[flow := l]> phases
          | None => phases
          end
      | _ => phases
      end
  end.

(** The fields that change once an event was accepted. *)
Definition with_event (b : RuntimeEventBuilder) (invocation : option FlowInvocation)
    (constructed : ConstructedRuntimeEvent) (checkpoint : option ContextManifestCheckpoint)
    (validation : option SessionAppendValidationState) (sequence : Z) : RuntimeEventBuilder :=
  let e := constructed_event constructed in {|
  actions := actions b ++
    [ActionEvent (mkEventAction ("event-" +:+ dec_pad 6 sequence) checkpoint constructed)];
  active_phase_payloads := track_phases (active_phase_payloads b) invocation e;
  clock := clock b;
  context_manifests :=
    match checkpoint with
    | Some c => signature_push (context_manifests b) (manifest_line (checkpoint_manifest c))
    | None => context_manifests b
    end;
  events := signature_push (events b) (constructed_jsonl constructed);
  failure_status := observe (failure_status b) e;
  history := history_record (history b) e;
  flow_counter := flow_counter b;
  message_counter := message_counter b;
  phase_counter := phase_counter b;
  builder_sequence := sequence;
  builder_session_id := builder_session_id b;
  pending_context_manifest := pending_context_manifest b;
  tool_intents := tool_intents b;
  validation := validation;
|}.

(** The event of a message that ends takes the compiled context with it. *)
Definition take_checkpoint (t : EventType) : eff RuntimeEventBuilder (option ContextManifestCheckpoint) :=
  fun b =>
    if bool_decide (t = MessageCompleted) then
      match pending_context_manifest b with
      | Some (manifest, objects) =>
          (with_pending b None,
           Ok (Some (mkCheckpoint manifest objects (sat_u64 (record_count (context_manifests b) + 1)))))
      | None => (b, Err (Protocol "message.completed has no compiled context manifest"))
      end
    else (b, Ok None).

Definition validate_next (validation : option SessionAppendValidationState) (c : ConstructedRuntimeEvent)
    : result RuntimeError (option SessionAppendValidationState) :=
  match validation with
  | Some st =>
      st ← map_err Invalid (validate_constructed_event st (constructed_event c) (slen (constructed_jsonl c)));
      Ok (Some st)
  | None => Ok None
  end.

Definition accept_event (invocation : option FlowInvocation) (constructed : ConstructedRuntimeEvent)
    (sequence : Z) (checkpoint : option ContextManifestCheckpoint) : eff RuntimeEventBuilder unit :=
  fun b =>
    match validate_next (validation b) constructed with
    | Ok validation => (with_event b invocation constructed checkpoint validation sequence, Ok tt)
    | Err e => (b, Err e)
    | Panic => (b, Panic)
    end.

Definition emit (invocation : option FlowInvocation) (t : EventType) (payload : Value)
    : eff RuntimeEventBuilder unit :=
  fun b =>
    let sequence := builder_sequence b + 1 in
    if MAX_FLOW_EVENTS <? sequence then
      (b, Err (Protocol ("runtime event budget exceeded: next event " +:+ Z_to_string sequence
                 +:+ " exceeds max " +:+ Z_to_string MAX_FLOW_EVENTS)))
    else
      (timestamp ← lift (clock_timestamp (clock b) sequence);
       let e := runtime_event (builder_session_id b) sequence timestamp invocation t payload in
       constructed ← lift (map_err (Unserializable "runtime event") (constructed_new e));
       checkpoint ← take_checkpoint t;
       accept_event invocation constructed sequence checkpoint : eff RuntimeEventBuilder unit) b.

(** * Alternatives ([transition.rs]) *)

Record PlannedRuntimeEvent : Type := mkPlanned {
  planned_invocation : option FlowInvocation;
  planned_type : EventType;
  planned_payload : Value;
}.

(** The loop over the planned events; [index] counts from 0. *)
Fixpoint construct_from (session_id : string) (clock : EventClock) (starting_sequence index : Z)
    (planned : list PlannedRuntimeEvent) : result RuntimeError (list ConstructedRuntimeEvent) :=
  match planned with
  | [] => Ok []
  | p :: planned =>
      let offset := sat_u64 (index + 1) in
      let sequence := sat_u64 (starting_sequence + offset) in
      timestamp ← clock_timestamp clock sequence;
      let e := runtime_event session_id sequence timestamp (planned_invocation p) (planned_type p)
                 (planned_payload p) in
      _ ← map_err (fun error => Rejected error) (validate_v0 e);
      constructed ← map_err (Unserializable "runtime event") (constructed_new e);
      _ ← map_err Invalid (validate_event_size sequence (slen (constructed_jsonl constructed)));
      rest ← construct_from session_id clock starting_sequence (index + 1) planned;
      Ok (constructed :: rest)
  end.

Definition construct_runtime_transition (session_id : string) (clock : EventClock)
    (starting_sequence : Z) (planned : list PlannedRuntimeEvent)
    : result RuntimeError (list ConstructedRuntimeEvent) :=
  construct_from session_id clock starting_sequence 0 planned.

Definition validate_runtime_transition_capacity (prefix_event_count prefix_bytes : Z) (label : string)
    (alternative : list ConstructedRuntimeEvent) : result RuntimeError unit :=
  let prospective_event_count := sat_u64 (prefix_event_count + len alternative) in
  reject MAX_FLOW_EVENTS <? prospective_event_count with
    Protocol (label +:+ " event budget exceeded: prospective event count "
      +:+ Z_to_string prospective_event_count +:+ " exceeds max " +:+ Z_to_string MAX_FLOW_EVENTS) ;;
  let transition_bytes := foldl (fun total e => sat_u64 (total + slen (constructed_jsonl e))) 0 alternative in
  let prospective_bytes := sat_u64 (prefix_bytes + transition_bytes) in
  reject MAX_SESSION_EVENT_BYTES <? prospective_bytes with
    Protocol (label +:+ " data budget exceeded: prospective size " +:+ Z_to_string prospective_bytes
      +:+ " bytes exceeds max " +:+ Z_to_string MAX_SESSION_EVENT_BYTES) ;;
  Ok tt.

(** The loop over the alternatives keeps the first one as the example. *)
Fixpoint check_alternatives (b : RuntimeEventBuilder) (label : string)
    (alternatives : list (list PlannedRuntimeEvent)) (example : option (list ConstructedRuntimeEvent))
    : result RuntimeError (option (list ConstructedRuntimeEvent)) :=
  match alternatives with
  | [] => Ok example
  | planned :: alternatives =>
      constructed ← construct_runtime_transition (builder_session_id b) (clock b) (builder_sequence b) planned;
      _ ← validate_runtime_transition_capacity (builder_sequence b) (byte_count (events b)) label constructed;
      check_alternatives b label alternatives
        (match example with Some e => Some e | None => Some constructed end)
  end.

Fixpoint validate_each (st : SessionAppendValidationState) (l : list ConstructedRuntimeEvent)
    : result RuntimeError SessionAppendValidationState :=
  match l with
  | [] => Ok st
  | c :: l =>
      st ← map_err Invalid (validate_constructed_event st (constructed_event c) (slen (constructed_jsonl c)));
      validate_each st l
  end.

(** The builder is only read: the state that validates the example is a copy. *)
Definition validate_lifecycle_equivalent_alternatives (b : RuntimeEventBuilder) (label : string)
    (alternatives : list (list PlannedRuntimeEvent)) : result RuntimeError unit :=
  example ← check_alternatives b label alternatives None;
  match validation b with
  | Some st => _ ← validate_each st (default [] example); Ok tt
  | None => Ok tt
  end.

Definition validate_alternative_transition (b : RuntimeEventBuilder) (label : string)
    (planned : list PlannedRuntimeEvent) : result RuntimeError unit :=
  validate_lifecycle_equivalent_alternatives b label [planned].
End builder.
