(* ===== verification/BuilderTheory.v ===== *)
(** What a builder keeps, and that the dry run of a failure transition agrees with emitting it.

    [builder_ok] relates a validating builder to the events it emitted: they are a run of the
    stream validator, the builder's counters, signatures, history and failure status are those
    of these events, and its Phase payloads mirror the Phase stacks of the validator.  Every
    operation preserves it, also when it fails. *)

From Stdlib Require Import ZArith Lia Ascii String.
From stdpp Require Import base strings sorting sets option gmap countable list.
From S2P Require Import Prelude Decimal Sorting Metadata Json FlowValue Event Lifecycle.
From S2P Require Import LifecycleTheory Validate ValidateTheory StreamProps.
From S2P Require Import Paths Values Blocks Registry Errors EffectTheory PhaseControl Policy OwnScript Context Builder.

Open Scope Z_scope.

(** * What was emitted *)

Section theory.
Context {J : JsonEnv} {R : RuntimeEnv}.

Definition emitted_action (a : FlowExecutionAction) : option PlannedEventAction :=
  match a with ActionEvent a => Some a | ActionFixture _ => None end.

(** The emitted events, with the contexts taken along. *)
Definition emitted_actions (b : RuntimeEventBuilder) : list PlannedEventAction :=
  omap emitted_action (actions b).
Definition emitted (b : RuntimeEventBuilder) : list ConstructedRuntimeEvent :=
  map action_event (emitted_actions b).
Definition emitted_events (b : RuntimeEventBuilder) : list EventEnvelope :=
  map constructed_event (emitted b).

Definition sized (c : ConstructedRuntimeEvent) : EventEnvelope * Z :=
  (constructed_event c, slen (constructed_jsonl c)).

Definition manifest_lines (l : list PlannedEventAction) : list string :=
  map (fun c => manifest_line (checkpoint_manifest c)) (omap context_checkpoint l).

Definition execution_of (payload : Value) : option string :=
  value_get payload "phase_execution_id" ≫= as_str.

(** A context goes with the end of a message and with nothing else; contexts are numbered. *)
Record checkpoints_ok (l : list PlannedEventAction) : Prop := {
  cp_message : forall a, a ∈ l -> is_Some (context_checkpoint a) <->
    event_type (constructed_event (action_event a)) = MessageCompleted;
  cp_ordinal : forall i c, omap context_checkpoint l !! i = Some c -> checkpoint_ordinal c = Z.of_nat i + 1;
}.

Record builder_ok (session : string) (b : RuntimeEventBuilder) (st : SessionAppendValidationState)
    : Prop := {
  bo_session : builder_session_id b = session;
  bo_validation : validation b = Some st;
  bo_run : stream_run (empty_state session) (map sized (emitted b)) st;
  bo_sequence : builder_sequence b = len (emitted b);
  bo_lines : Forall (fun c => canonical_jsonl (constructed_event c) = Ok (constructed_jsonl c)) (emitted b);
  bo_events : events b =
    foldl signature_push (signature_new EVENT_PLAN_DOMAIN) (map constructed_jsonl (emitted b));
  bo_manifests : context_manifests b =
    foldl signature_push (signature_new CONTEXT_PLAN_DOMAIN) (manifest_lines (emitted_actions b));
  bo_checkpoints : checkpoints_ok (emitted_actions b);
  bo_history : history b = foldl history_record history_default (emitted_events b);
  bo_status : failure_status b = foldl observe status_default (emitted_events b);
  bo_phases : forall f,
    map execution_of <$> active_phase_payloads b !! f =
    map (fun k => Some (phase_execution_id k)) <$> active_phases (lifecycle st) !! f;
}.

Lemma emitted_snoc b a :
  omap emitted_action (actions b ++ [ActionEvent a]) = emitted_actions b ++ [a].
Proof. unfold emitted_actions. by rewrite omap_app. Qed.

Lemma builder_ok_new session clock :
  builder_ok session (with_clock session clock true) (empty_state session).
Proof.
  constructor; try done.
  - apply run_nil.
  - split; [intros a Ha; by apply not_elem_of_nil in Ha|done].
Qed.

(** [builder_ok] reads none of the counters, pending contexts and intents. *)
Lemma builder_ok_counters session b st flow message phase :
  builder_ok session b st -> builder_ok session (with_counters b flow message phase) st.
Proof. intros []; by constructor. Qed.

Lemma builder_ok_pending session b st pending :
  builder_ok session b st -> builder_ok session (with_pending b pending) st.
Proof. intros []; by constructor. Qed.

Lemma builder_ok_plan session b st a intents :
  builder_ok session b st -> builder_ok session (with_plan b (actions b ++ [ActionFixture a]) intents) st.
Proof.
  assert (omap emitted_action (actions b ++ [ActionFixture a]) = emitted_actions b) as Heq.
  { rewrite omap_app. cbn. apply app_nil_r. }
  intros []; constructor; unfold emitted_events, emitted, emitted_actions; cbn; rewrite ?Heq; done.
Qed.

Lemma builder_ok_intents session b st intents :
  builder_ok session b st -> builder_ok session (with_plan b (actions b) intents) st.
Proof. intros []; by constructor. Qed.

(** * Phase stacks *)

Lemma lifecycle_payload_string_Ok e f v : lifecycle_payload_string e f = Ok v -> payload_str e f = Some v.
Proof. unfold lifecycle_payload_string. apply expect_Ok_inv. Qed.

Lemma phase_key_execution e k :
  lifecycle_phase_key e = Ok k -> execution_of (payload e) = Some (phase_execution_id k).
Proof. intros H. unfold lifecycle_phase_key in H. inv_ok. by apply lifecycle_payload_string_Ok in Hx. Qed.

Lemma push_mirror (payloads : gmap string (list Value)) (phases : gmap string (list PhaseLifecycleKey)) f v k :
  (forall g, map execution_of <$> payloads !! g = map (fun k => Some (phase_execution_id k)) <$> phases !! g) ->
  execution_of v = Some (phase_execution_id k) ->
  forall g, map execution_of <$> (<[f := default [] (payloads !! f) ++ [v]]> payloads) !! g =
            map (fun k => Some (phase_execution_id k)) <$> push_phase phases f k !! g.
Proof.
  intros Hm Hv g. unfold push_phase. destruct (decide (g = f)) as [->|Hne].
  - rewrite !lookup_insert_eq. cbn. rewrite !map_app. cbn. rewrite Hv. do 2 f_equal.
    specialize (Hm f). destruct (payloads !! f), (phases !! f); try discriminate Hm; [|done].
    by injection Hm.
  - by rewrite !lookup_insert_ne.
Qed.

Lemma pop_mirror (payloads : gmap string (list Value)) (phases : gmap string (list PhaseLifecycleKey)) f :
  (forall g, map execution_of <$> payloads !! g = map (fun k => Some (phase_execution_id k)) <$> phases !! g) ->
  forall g, map execution_of <$>
      (match payloads !! f with
       | Some l => let l := removelast l in
                   if bool_decide (l = []) then delete f payloads else <[f := l]> payloads
       | None => payloads
       end) !! g =
    map (fun k => Some (phase_execution_id k)) <$> pop_phase phases f !! g.
Proof.
  intros Hm g. unfold pop_phase. pose proof (Hm f) as Hf. pose proof (Hm g) as Hg.
  destruct (payloads !! f) as [l|], (phases !! f) as [k|]; try discriminate Hf; [|done].
  injection Hf as Hf. cbn zeta.
  assert (map execution_of (removelast l) =
          map (fun k => Some (phase_execution_id k)) (take (List.length k - 1) k)) as Hr.
  { rewrite removelast_firstn_len. rewrite <- !firstn_map, Hf, <- (length_map execution_of l), Hf, length_map.
    by rewrite <- Nat.sub_1_r. }
  destruct (bool_decide_reflect (removelast l = [])) as [Hl|Hl].
  - rewrite Hl in Hr. destruct (take _ k); [|discriminate Hr].
    destruct (decide (g = f)) as [->|Hne]; [by rewrite !lookup_delete_eq|by rewrite !lookup_delete_ne].
  - destruct (take _ k) eqn:Hk; [by destruct (removelast l)|].
    destruct (decide (g = f)) as [->|Hne]; [|by rewrite !lookup_insert_ne].
    rewrite !lookup_insert_eq. cbn [fmap option_fmap option_map]. by rewrite Hr.
Qed.

(** The payloads an accepted event leaves are those of the Phases the validator has open. *)
Lemma track_phases_mirror payloads s line inv e s' :
  flow_id e = invocation_flow_id <$> inv ->
  lifecycle_record_event s line e = Ok s' ->
  (forall f, map execution_of <$> payloads !! f =
             map (fun k => Some (phase_execution_id k)) <$> active_phases s !! f) ->
  forall f, map execution_of <$> track_phases payloads inv e !! f =
            map (fun k => Some (phase_execution_id k)) <$> active_phases s' !! f.
Proof.
  intros Hflow Hrec Hm. unfold lifecycle_record_event in Hrec. unfold track_phases.
  destruct (event_type e); inv_ok; try (by destruct inv).
  - destruct inv as [i|]; [|by rewrite Hflow in Hx]. rewrite Hflow in Hx. injection Hx as <-.
    apply push_mirror; [done|]. by apply phase_key_execution.
  - destruct inv as [i|]; [|by rewrite Hflow in Hx]. rewrite Hflow in Hx. injection Hx as <-.
    by apply pop_mirror.
  - destruct inv as [i|]; [|by rewrite Hflow in Hx]. rewrite Hflow in Hx. injection Hx as <-.
    by apply pop_mirror.
  - destruct (active_message_roles s !! _); inv_ok; by destruct inv.
Qed.

(** * Signatures *)

Lemma signature_record_count s l :
  0 <= record_count s -> record_count s + len l <= u64_max ->
  record_count (foldl signature_push s l) = record_count s + len l.
Proof.
  unfold len. revert s. induction l as [|x l IH]; intros s Hs Hl; cbn [foldl List.length] in *; [lia|].
  assert (sat_u64 (record_count s + 1) = record_count s + 1) as Hsat by (apply sat_u64_id; unfold in_u64; lia).
  rewrite IH; cbn [record_count signature_push]; rewrite ?Hsat; lia.
Qed.

Definition text_bytes (l : list string) : Z := foldr Z.add 0 (map slen l).

Lemma text_bytes_nonneg l : 0 <= text_bytes l.
Proof. unfold text_bytes. induction l as [|x l IH]; cbn; [lia|]. pose proof (slen_nonneg x). lia. Qed.

Lemma signature_byte_count s l :
  0 <= byte_count s -> byte_count s + text_bytes l <= u64_max ->
  byte_count (foldl signature_push s l) = byte_count s + text_bytes l.
Proof.
  revert s. induction l as [|x l IH]; intros s Hs Hl; cbn [foldl] in *; [unfold text_bytes; cbn; lia|].
  pose proof (slen_nonneg x). pose proof (text_bytes_nonneg l) as Ht.
  change (text_bytes (x :: l)) with (slen x + text_bytes l) in *.
  assert (sat_u64 (byte_count s + slen x) = byte_count s + slen x) as Hsat
    by (apply sat_u64_id; unfold in_u64; lia).
  rewrite IH; cbn [byte_count signature_push]; rewrite ?Hsat; lia.
Qed.

Section facts.
Context (session : string) (b : RuntimeEventBuilder) (st : SessionAppendValidationState).
Context (Hok : builder_ok session b st).

Lemma builder_budget :
  stream_bytes st = text_bytes (map constructed_jsonl (emitted b)) /\ line_count st = len (emitted b) /\
  text_bytes (map constructed_jsonl (emitted b)) <= MAX_SESSION_EVENT_BYTES /\
  len (emitted b) <= MAX_FLOW_EVENTS.
Proof using Hok.
  destruct (run_budget _ _ _ (bo_run _ _ _ Hok)) as (Hb & Hl & [_ Hr] & Hn).
  assert (total_bytes (map sized (emitted b)) = text_bytes (map constructed_jsonl (emitted b))) as Ht.
  { unfold total_bytes, text_bytes. by rewrite !map_map. }
  unfold len in *. rewrite length_map in *. by rewrite <- Ht.
Qed.

(** The byte count of the plan is the length of its text; it has not saturated. *)
Lemma builder_byte_count : byte_count (events b) = text_bytes (map constructed_jsonl (emitted b)).
Proof using Hok.
  destruct builder_budget as (_ & _ & Hb & _). rewrite (bo_events _ _ _ Hok).
  rewrite signature_byte_count; cbn [byte_count signature_new]; [lia|lia|].
  unfold u64_max, MAX_SESSION_EVENT_BYTES in *. lia.
Qed.

Lemma checkpoint_count_le :
  (List.length (omap context_checkpoint (emitted_actions b)) <= List.length (emitted b))%nat.
Proof using Type.
  unfold emitted. rewrite length_map. clear. induction (emitted_actions b) as [|a l IH]; cbn; [lia|].
  destruct (context_checkpoint a); cbn; lia.
Qed.

Lemma manifest_count : record_count (context_manifests b) = len (omap context_checkpoint (emitted_actions b)).
Proof using Hok.
  destruct builder_budget as (_ & _ & _ & Hn). rewrite (bo_manifests _ _ _ Hok).
  pose proof checkpoint_count_le as Hle.
  unfold manifest_lines. rewrite signature_record_count; cbn [record_count signature_new]; [|lia|].
  - unfold len. by rewrite length_map.
  - unfold len, u64_max, MAX_FLOW_EVENTS in *. rewrite length_map. lia.
Qed.

(** One more event. *)
Context (inv : option FlowInvocation) (c : ConstructedRuntimeEvent).
Context (cp : option ContextManifestCheckpoint) (st' : SessionAppendValidationState).
Context (Hvalid : validate_constructed_event st (constructed_event c) (slen (constructed_jsonl c)) = Ok st').
Context (Hline : canonical_jsonl (constructed_event c) = Ok (constructed_jsonl c)).
Context (Hflow : flow_id (constructed_event c) = invocation_flow_id <$> inv).
Context (Hcp : is_Some cp <-> event_type (constructed_event c) = MessageCompleted).
Context (Hord : forall x, cp = Some x -> checkpoint_ordinal x = sat_u64 (record_count (context_manifests b) + 1)).

Lemma event_stream_step : stream_step st (constructed_event c) (slen (constructed_jsonl c)) st'.
Proof using Hvalid. apply constructed_event_step; [apply slen_nonneg|exact Hvalid]. Qed.

Lemma checkpoints_ok_snoc id : checkpoints_ok (emitted_actions b ++ [mkEventAction id cp c]).
Proof using Hok Hcp Hord.
  destruct (bo_checkpoints _ _ _ Hok) as [Hm Ho]. split.
  - intros a [Ha| ->%list_elem_of_singleton]%elem_of_app; [by apply Hm|done].
  - intros i x. rewrite omap_app. cbn. destruct cp as [y|] eqn:Hy; cbn; [|rewrite app_nil_r; apply Ho].
    intros [Hi|[-> ->]]%snoc_lookup; [by eapply Ho|].
    rewrite (Hord _ eq_refl), manifest_count. apply sat_u64_id.
    pose proof builder_budget as (_ & _ & _ & Hn). pose proof checkpoint_count_le as Hle.
    unfold len, in_u64, u64_max, MAX_FLOW_EVENTS in *. lia.
Qed.

Lemma builder_ok_event :
  builder_ok session (with_event b inv c cp (Some st') (builder_sequence b + 1)) st'.
Proof using All.
  pose proof event_stream_step as Hstep.
  pose proof (step_record _ _ _ _ Hstep) as (_ & _ & _ & _ & _ & _ & _ & _ & Hrec)%record_event_Ok.
  pose proof (checkpoints_ok_snoc ("event-" +:+ dec_pad 6 (builder_sequence b + 1))) as Hcps.
  destruct Hok as [Hs _ Hrun Hseq Hlines Hev Hman _ Hh Hst Hph].
  constructor; unfold emitted_events, emitted, emitted_actions; cbn [actions with_event validation
    builder_sequence events context_manifests Builder.history failure_status active_phase_payloads
    builder_session_id]; rewrite ?emitted_snoc, ?map_app, ?foldl_app; try done.
  - cbn. by eapply run_snoc.
  - rewrite Hseq. unfold len, emitted. rewrite !length_app, !length_map. cbn. lia.
  - apply Forall_app. split; [done|]. by repeat constructor.
  - cbn. by rewrite Hev.
  - unfold manifest_lines. rewrite omap_app, map_app, foldl_app, Hman. by destruct cp.
  - cbn. by rewrite Hh.
  - cbn. by rewrite Hst.
  - by eapply track_phases_mirror.
Qed.
End facts.

(** * Emitting *)

(** The event [emit] constructs for a planned one. *)
Inductive constructs (b : RuntimeEventBuilder) (inv : option FlowInvocation) (t : EventType) (p : Value)
    : ConstructedRuntimeEvent -> Prop :=
| Constructs timestamp line :
    clock_timestamp (clock b) (builder_sequence b + 1) = Ok timestamp ->
    let e := runtime_event (builder_session_id b) (builder_sequence b + 1) timestamp inv t p in
    canonical_jsonl e = Ok line -> constructs b inv t p (mkConstructed line e).

(** The context taken along, and the builder without it. *)
Inductive takes (b : RuntimeEventBuilder) (t : EventType)
    : option ContextManifestCheckpoint -> RuntimeEventBuilder -> Prop :=
| TakesContext manifest objects :
    t = MessageCompleted -> pending_context_manifest b = Some (manifest, objects) ->
    takes b t (Some (mkCheckpoint manifest objects (sat_u64 (record_count (context_manifests b) + 1))))
      (with_pending b None)
| TakesNothing : t <> MessageCompleted -> takes b t None b.

Lemma runtime_event_flow session n ts inv t p :
  flow_id (runtime_event session n ts inv t p) = invocation_flow_id <$> inv.
Proof. by destruct inv. Qed.

Lemma runtime_event_type session n ts inv t p : event_type (runtime_event session n ts inv t p) = t.
Proof. by destruct inv. Qed.

Lemma clock_timestamp_no_panic c n : clock_timestamp c n <> Panic.
Proof. apply ok_or_no_panic. Qed.

Lemma canonical_jsonl_no_panic e : canonical_jsonl e <> Panic.
Proof.
  unfold canonical_jsonl. destruct (negb _); [done|]. destruct (negb _); [done|].
  apply bind_no_panic; [apply map_err_no_panic, validate_v0_no_panic|]. intros _ _.
  apply bind_no_panic; [|done]. unfold canonical_json. case_match; [done|].
  apply append_canonical_json_no_panic.
Qed.

Lemma validate_next_no_panic v c : validate_next v c <> Panic.
Proof.
  destruct v; cbn; [|done]. apply bind_no_panic; [|done].
  apply map_err_no_panic, constructed_event_no_panic.
Qed.

Lemma emit_cases inv t p b b' r :
  emit inv t p b = (b', r) ->
  (exists c cp b0 v, builder_sequence b + 1 <= MAX_FLOW_EVENTS /\ constructs b inv t p c /\
     takes b t cp b0 /\ validate_next (validation b) c = Ok v /\
     b' = with_event b0 inv c cp v (builder_sequence b + 1) /\ r = Ok tt) \/
  ((b' = b \/ b' = with_pending b None) /\ exists err, r = Err err).
Proof.
  unfold emit. destruct (Z.ltb_spec MAX_FLOW_EVENTS (builder_sequence b + 1)) as [Hlt|Hle].
  { intros [= <- <-]. right. eauto. }
  unfold mbind, eff_bind, lift.
  pose proof (clock_timestamp_no_panic (clock b) (builder_sequence b + 1)) as Hnt.
  destruct (clock_timestamp _ _) as [ts|err|] eqn:Hts; [|intros [= <- <-]; right; eauto|done].
  set (e := runtime_event _ _ ts inv t p). unfold constructed_new.
  pose proof (canonical_jsonl_no_panic e) as Hnj.
  destruct (canonical_jsonl e) as [line|err|] eqn:Hline; cbn [mbind result_bind map_err];
    [|intros [= <- <-]; right; eauto|done].
  unfold take_checkpoint, accept_event.
  destruct (bool_decide_reflect (t = MessageCompleted)) as [Ht|Ht].
  - destruct (pending_context_manifest b) as [[m o]|] eqn:Hp; [|intros [= <- <-]; right; eauto].
    pose proof (validate_next_no_panic (validation b) (mkConstructed line e)) as Hnv.
    cbn [validation with_pending]. destruct (validate_next _ _) as [v|err|] eqn:Hv;
      [|intros [= <- <-]; right; eauto|done].
    intros [= <- <-]. left. eexists _, _, _, _. split_and!; [done|by econstructor|by constructor|done..].
  - pose proof (validate_next_no_panic (validation b) (mkConstructed line e)) as Hnv.
    destruct (validate_next _ _) as [v|err|] eqn:Hv; [|intros [= <- <-]; right; eauto|done].
    intros [= <- <-]. left. eexists _, _, _, _. split_and!; [done|by econstructor|by constructor|done..].
Qed.

Lemma takes_ok session b st t cp b0 : takes b t cp b0 -> builder_ok session b st -> builder_ok session b0 st.
Proof. intros []; [by apply builder_ok_pending|done]. Qed.

Lemma takes_message b t cp b0 : takes b t cp b0 -> is_Some cp <-> t = MessageCompleted.
Proof. intros [m o Ht _|Ht]; split; by (intros [? [=]] || idtac). Qed.

Lemma takes_ordinal b t cp b0 x :
  takes b t cp b0 -> cp = Some x -> checkpoint_ordinal x = sat_u64 (record_count (context_manifests b0) + 1).
Proof. by intros [m o _ _|] [= <-]. Qed.

Lemma takes_fields b t cp b0 :
  takes b t cp b0 -> builder_sequence b0 = builder_sequence b /\ validation b0 = validation b /\
    actions b0 = actions b /\ clock b0 = clock b /\ builder_session_id b0 = builder_session_id b.
Proof. by intros []. Qed.

(** A builder whose history is in order, whatever its validator state. *)
Definition builder_sound (session : string) (b : RuntimeEventBuilder) : Prop :=
  exists st, builder_ok session b st.

(** An event that was emitted is accepted by the validator, and tracked. *)
Lemma emit_ok session b st inv t p b' :
  builder_ok session b st -> emit inv t p b = (b', Ok tt) ->
  exists c st', event_type (constructed_event c) = t /\
    flow_id (constructed_event c) = invocation_flow_id <$> inv /\
    validate_constructed_event st (constructed_event c) (slen (constructed_jsonl c)) = Ok st' /\
    active_phase_payloads b' = track_phases (active_phase_payloads b) inv (constructed_event c) /\
    builder_ok session b' st'.
Proof.
  intros Hok [(c & cp & b0 & v & _ & Hc & Htk & Hv & -> & _)|[_ [err [=]]]]%emit_cases.
  rewrite (bo_validation _ _ _ Hok) in Hv. cbn in Hv. inv_ok.
  destruct (validate_constructed_event st _ _) as [st'|err|] eqn:Hst; [|discriminate Hx..].
  injection Hx as <-. destruct (takes_fields _ _ _ _ Htk) as (Hsq & _).
  assert (active_phase_payloads b0 = active_phase_payloads b) as Hph by (by destruct Htk).
  rewrite <- Hsq. destruct Hc as [ts line Hts e Hline]. exists (mkConstructed line e), st'.
  split_and!; [apply runtime_event_type|apply runtime_event_flow|exact Hst|cbn; by rewrite Hph|].
  apply (builder_ok_event session b0 st); cbn; try done.
  - by eapply takes_ok.
  - apply runtime_event_flow.
  - unfold e. rewrite runtime_event_type. by eapply takes_message.
  - intros x. by eapply takes_ordinal.
Qed.

Lemma emit_keeps session inv t p : keeps (builder_sound session) (emit inv t p).
Proof.
  intros b [st Hok]. destruct (emit inv t p b) as [b' r] eqn:Hemit. cbn.
  destruct (emit_cases _ _ _ _ _ _ Hemit) as [(_ & _ & _ & _ & _ & _ & _ & _ & _ & ->)|[[->| ->] _]].
  - destruct (emit_ok _ _ _ _ _ _ _ Hok Hemit) as (_ & st' & _ & _ & _ & _ & Hok'). by exists st'.
  - by exists st.
  - exists st. by apply builder_ok_pending.
Qed.

(** * Programs *)

(** The operations that change a builder, without their results. *)
Inductive builder_op : Type :=
| OpFlow (parent_flow_id : option string)
| OpPhase
| OpMessage
| OpIntent (invocation : FlowInvocation) (tool : ToolBlock) (policy : RuntimeToolPolicy)
| OpFixture (transition : PlannedFailureTransition) (policy : RuntimeToolPolicy) (completion : Z)
    (effect : PlannedFixtureEffect)
| OpContext (manifest : ContextManifest) (objects : list ContextObject)
| OpEmit (invocation : option FlowInvocation) (t : EventType) (payload : Value).

Definition run_op (op : builder_op) (b : RuntimeEventBuilder) : RuntimeEventBuilder :=
  match op with
  | OpFlow parent => (next_flow_invocation parent b).1
  | OpPhase => (next_phase_execution_id b).1
  | OpMessage => (next_message_id b).1
  | OpIntent invocation tool policy => (record_tool_intent invocation tool policy b).1
  | OpFixture transition policy completion effect =>
      (record_fixture_action transition policy completion effect b).1
  | OpContext manifest objects => (record_context_manifest manifest objects b).1
  | OpEmit invocation t payload => (emit invocation t payload b).1
  end.

Definition run_ops (session : string) (clock : EventClock) (ops : list builder_op) : RuntimeEventBuilder :=
  foldl (fun b op => run_op op b) (with_clock session clock true) ops.

Lemma next_flow_keeps session parent : keeps (builder_sound session) (next_flow_invocation parent).
Proof.
  intros b [st H]. unfold next_flow_invocation. case_match; [by exists st|].
  exists st. by apply builder_ok_counters.
Qed.

Lemma next_phase_keeps session : keeps (builder_sound session) next_phase_execution_id.
Proof.
  intros b [st H]. unfold next_phase_execution_id. case_match; [by exists st|].
  exists st. by apply builder_ok_counters.
Qed.

Lemma next_message_keeps session : keeps (builder_sound session) next_message_id.
Proof. intros b [st H]. exists st. by apply builder_ok_counters. Qed.

Lemma record_intent_keeps session inv tool policy :
  keeps (builder_sound session) (record_tool_intent inv tool policy).
Proof.
  intros b [st H]. exists st. unfold record_tool_intent. case_match; [|done..]. by apply builder_ok_intents.
Qed.

Lemma record_fixture_keeps session tr policy completion eff :
  keeps (builder_sound session) (record_fixture_action tr policy completion eff).
Proof. intros b [st H]. exists st. by apply builder_ok_plan. Qed.

Lemma record_context_keeps session m o : keeps (builder_sound session) (record_context_manifest m o).
Proof.
  intros b [st H]. exists st. unfold record_context_manifest. case_match; [|done..]. by apply builder_ok_pending.
Qed.

Lemma run_op_keeps session op b : builder_sound session b -> builder_sound session (run_op op b).
Proof.
  destruct op; cbn; [apply next_flow_keeps|apply next_phase_keeps|apply next_message_keeps
    |apply record_intent_keeps|apply record_fixture_keeps|apply record_context_keeps|apply emit_keeps].
Qed.

Lemma run_ops_sound session clock ops : builder_sound session (run_ops session clock ops).
Proof.
  unfold run_ops. assert (builder_sound session (with_clock session clock true)) as H
    by (eexists; apply builder_ok_new).
  revert H. generalize (with_clock session clock true).
  induction ops as [|op ops IH]; intros b Hb; cbn; [done|]. by apply IH, run_op_keeps.
Qed.

(** * Properties *)

(** What every stream of a builder satisfies. *)
Record emitted_wf (session : string) (b : RuntimeEventBuilder) : Prop := {
  ew_stream : stream_wf (Some session) (emitted_events b);
  ew_order : forall pre e post, emitted_events b = pre ++ e :: post -> in_order pre e;
  ew_sequence : builder_sequence b = len (emitted b);
  ew_bytes : byte_count (events b) = text_bytes (map constructed_jsonl (emitted b));
  ew_budget : byte_count (events b) <= 352 * 1024 * 1024 /\ builder_sequence b <= 155750;
  ew_lines : forall c, c ∈ emitted b -> canonical_jsonl (constructed_event c) = Ok (constructed_jsonl c);
  ew_contexts : checkpoints_ok (emitted_actions b);
}.

Lemma builder_sound_wf session b : builder_sound session b -> emitted_wf session b.
Proof.
  intros [st Hok]. destruct (builder_budget _ _ _ Hok) as (_ & _ & Hb & Hn).
  assert (map fst (map sized (emitted b)) = emitted_events b) as Hfst by (by rewrite map_map).
  constructor.
  - rewrite <- Hfst. eapply run_stream_wf, (bo_run _ _ _ Hok).
  - rewrite <- Hfst. eapply run_in_order, (bo_run _ _ _ Hok).
  - apply (bo_sequence _ _ _ Hok).
  - by eapply builder_byte_count.
  - rewrite (builder_byte_count _ _ _ Hok), (bo_sequence _ _ _ Hok). done.
  - by apply Forall_forall, (bo_lines _ _ _ Hok).
  - apply (bo_checkpoints _ _ _ Hok).
Qed.

(** C29: whatever is done to a fresh builder, failed operations included, the events it holds are
    a well-formed stream of its session in order: numbered from one without gaps, one start,
    nothing after an end, flows and phases opened before they are closed; every line is the
    canonical JSON of its event, the byte and event counters are exact and within their limits,
    and each completed message, and nothing else, carries a compiled context, numbered from
    one. *)
Theorem builder_stream_sound session clock ops : emitted_wf session (run_ops session clock ops).
Proof. apply builder_sound_wf, run_ops_sound. Qed.

(** * Dry runs *)

(** Emitting planned events one after the other. *)
Fixpoint emit_all (planned : list PlannedRuntimeEvent) : eff RuntimeEventBuilder unit :=
  match planned with
  | [] => mret tt
  | p :: planned =>
      _ ← emit (planned_invocation p) (planned_type p) (planned_payload p);
      emit_all planned
  end.

(** A planned event that takes no context. *)
Definition plain (p : PlannedRuntimeEvent) : Prop := planned_type p <> MessageCompleted.

(** The builder after events that were constructed and validated. *)
Inductive extends (session : string) (b : RuntimeEventBuilder) (cs : list ConstructedRuntimeEvent)
    (b' : RuntimeEventBuilder) : Prop :=
| Extends : builder_sound session b' -> clock b' = clock b -> emitted b' = emitted b ++ cs ->
    extends session b cs b'.

Lemma emitted_event b inv c cp v n : emitted (with_event b inv c cp v n) = emitted b ++ [c].
Proof. unfold emitted, emitted_actions. cbn [actions with_event]. by rewrite emitted_snoc, map_app. Qed.

Lemma canonical_jsonl_v0 e line : canonical_jsonl e = Ok line -> validate_v0 e = Ok tt.
Proof.
  unfold canonical_jsonl. intros H. inv_ok. destruct (validate_v0 e) as [[]| |]; done.
Qed.

Section dry_run.
Context (session : string).

Section one.
Context (b : RuntimeEventBuilder) (st : SessionAppendValidationState) (p : PlannedRuntimeEvent).
Context (Hok : builder_ok session b st) (Hplain : plain p).

Abbreviation emit_p := (emit (planned_invocation p) (planned_type p) (planned_payload p)).
Abbreviation constructs_p := (constructs b (planned_invocation p) (planned_type p) (planned_payload p)).

Lemma emit_plain_inv b' :
  emit_p b = (b', Ok tt) ->
  exists c st', builder_sequence b + 1 <= MAX_FLOW_EVENTS /\ constructs_p c /\
    validate_constructed_event st (constructed_event c) (slen (constructed_jsonl c)) = Ok st' /\
    b' = with_event b (planned_invocation p) c None (Some st') (builder_sequence b + 1).
Proof using Hok Hplain.
  intros [(c & cp & b0 & v & Hle & Hc & Htk & Hv & -> & _)|[_ [err [=]]]]%emit_cases.
  rewrite (bo_validation _ _ _ Hok) in Hv. cbn in Hv. inv_ok.
  destruct (validate_constructed_event st _ _) as [st'|err|] eqn:Hst; [|discriminate Hx..].
  injection Hx as <-. destruct Htk as [m o Ht _|_]; [done|]. by exists c, st'.
Qed.

Lemma emit_plain c st' :
  builder_sequence b + 1 <= MAX_FLOW_EVENTS -> constructs_p c ->
  validate_constructed_event st (constructed_event c) (slen (constructed_jsonl c)) = Ok st' ->
  emit_p b = (with_event b (planned_invocation p) c None (Some st') (builder_sequence b + 1), Ok tt).
Proof using Hok Hplain.
  intros Hle [ts line Hts e Hline] Hst. unfold emit.
  destruct (Z.ltb_spec MAX_FLOW_EVENTS (builder_sequence b + 1)) as [Hlt|_]; [lia|].
  unfold mbind, eff_bind, lift. rewrite Hts. fold e. unfold constructed_new. rewrite Hline.
  cbn [mbind result_bind map_err]. unfold take_checkpoint. rewrite bool_decide_eq_false_2 by done.
  unfold accept_event. rewrite (bo_validation _ _ _ Hok). cbn [validate_next]. rewrite Hst. done.
Qed.

Lemma plain_extends c st' :
  constructs_p c ->
  validate_constructed_event st (constructed_event c) (slen (constructed_jsonl c)) = Ok st' ->
  builder_ok session (with_event b (planned_invocation p) c None (Some st') (builder_sequence b + 1)) st'.
Proof using Hok Hplain.
  intros [ts line Hts e Hline] Hst. apply (builder_ok_event session b st); try done.
  - apply runtime_event_flow.
  - cbn. unfold e. rewrite runtime_event_type. split; [by intros [? [=]]|done].
Qed.
End one.

(** The constructor of transitions makes the events [emit] makes. *)
Lemma construct_from_cons b start index p planned :
  builder_session_id b = session ->
  builder_sequence b = start + index -> 0 <= index -> 0 <= start ->
  start + index + 1 <= MAX_FLOW_EVENTS ->
  construct_from session (clock b) start index (p :: planned) =
    (timestamp ← clock_timestamp (clock b) (builder_sequence b + 1);
     let e := runtime_event session (builder_sequence b + 1) timestamp (planned_invocation p)
                (planned_type p) (planned_payload p) in
     _ ← map_err (fun error => Rejected error) (validate_v0 e);
     constructed ← map_err (Unserializable "runtime event") (constructed_new e);
     _ ← map_err Invalid (validate_event_size (builder_sequence b + 1) (slen (constructed_jsonl constructed)));
     rest ← construct_from session (clock b) start (index + 1) planned;
     Ok (constructed :: rest)).
Proof using Type.
  intros Hs Hseq Hi Hst Hmax.
  assert (sat_u64 (index + 1) = index + 1) as H1
    by (apply sat_u64_id; unfold in_u64, u64_max, MAX_FLOW_EVENTS in *; lia).
  assert (sat_u64 (start + (index + 1)) = builder_sequence b + 1) as H2.
  { rewrite Hseq, Z.add_assoc. apply sat_u64_id; unfold in_u64, u64_max, MAX_FLOW_EVENTS in *; lia. }
  cbn [construct_from]. by rewrite H1, H2.
Qed.

Lemma construct_emit planned : forall b st start index cs st',
  builder_ok session b st -> Forall plain planned ->
  builder_sequence b = start + index -> 0 <= index -> 0 <= start ->
  start + index + len planned <= MAX_FLOW_EVENTS ->
  construct_from session (clock b) start index planned = Ok cs ->
  validate_each st cs = Ok st' ->
  exists b', emit_all planned b = (b', Ok tt) /\ extends session b cs b'.
Proof using Type.
  induction planned as [|p planned IH]; intros b st start index cs st' Hok Hpl Hseq Hi Hst0 Hmax Hc Hv.
  { injection Hc as <-. exists b. split; [done|]. split; [by exists st|done|by rewrite app_nil_r]. }
  apply Forall_cons in Hpl as [Hp Hpl]. unfold len in *. cbn [List.length] in Hmax.
  pose proof (bo_session _ _ _ Hok) as Hs.
  rewrite construct_from_cons in Hc by (done || lia). cbn zeta in Hc.
  apply bind_Ok_inv in Hc as (ts & Hts & Hc). apply bind_Ok_inv in Hc as ([] & _ & Hc).
  apply bind_Ok_inv in Hc as (c & Hn & Hc). apply bind_Ok_inv in Hc as ([] & _ & Hc).
  apply bind_Ok_inv in Hc as (rest & Hrest & Hc). injection Hc as <-.
  cbn [validate_each] in Hv. apply bind_Ok_inv in Hv as (st1 & Hst & Hv).
  destruct (validate_constructed_event st _ _) as [st2|err|] eqn:Hst2; [|discriminate Hst..].
  injection Hst as <-.
  assert (constructs b (planned_invocation p) (planned_type p) (planned_payload p) c) as Hcon.
  { unfold constructed_new in Hn. rewrite <- Hs in Hn.
    destruct (canonical_jsonl _) as [line| |] eqn:Hline; try discriminate Hn.
    injection Hn as <-. by constructor. }
  pose proof (plain_extends b st p Hok Hp c st2 Hcon Hst2) as Hok'.
  destruct (IH _ _ start (index + 1) rest st' Hok' Hpl) as (b' & He & [Hx Hclk Hem]);
    [cbn; lia|lia|lia|lia|exact Hrest|exact Hv|].
  exists b'. split.
  - cbn [emit_all]. unfold mbind, eff_bind.
    rewrite (emit_plain b st p Hok Hp c st2); [exact He|lia|done|done].
  - split; [done|done|]. by rewrite Hem, emitted_event, <- app_assoc.
Qed.

Lemma emit_construct planned : forall b st start index b',
  builder_ok session b st -> Forall plain planned ->
  builder_sequence b = start + index -> 0 <= index -> 0 <= start ->
  emit_all planned b = (b', Ok tt) ->
  exists cs st', construct_from session (clock b) start index planned = Ok cs /\
    validate_each st cs = Ok st' /\ builder_sound session b' /\ emitted b' = emitted b ++ cs.
Proof using Type.
  induction planned as [|p planned IH]; intros b st start index b' Hok Hpl Hseq Hi Hst0 He.
  { injection He as <-. exists [], st. split_and!; try done; [by exists st|by rewrite app_nil_r]. }
  apply Forall_cons in Hpl as [Hp Hpl]. pose proof (bo_session _ _ _ Hok) as Hs.
  cbn [emit_all] in He. apply eff_bind_Ok in He as (b1 & [] & He1 & He2).
  destruct (emit_plain_inv b st p Hok Hp b1 He1) as (c & st1 & Hle & Hc & Hst & ->).
  pose proof (plain_extends b st p Hok Hp c st1 Hc Hst) as Hok1.
  destruct (IH _ _ start (index + 1) b' Hok1 Hpl) as (cs & st' & Hcs & Hv & Hsnd & Hem);
    [cbn; lia|lia|lia|exact He2|]. cbn [clock with_event] in Hcs.
  exists (c :: cs), st'. split_and!; [| |done|by rewrite Hem, emitted_event, <- app_assoc].
  - rewrite construct_from_cons by (done || lia). destruct Hc as [ts line Hts e Hline].
    rewrite Hts. cbn [mbind result_bind]. rewrite <- Hs. fold e.
    rewrite (canonical_jsonl_v0 _ _ Hline). unfold constructed_new. rewrite Hline.
    cbn [mbind result_bind map_err constructed_jsonl].
    pose proof (event_stream_step st (mkConstructed line e) st1 Hst) as Hstep.
    destruct Hstep as [st1 _ [_ Hsize] _ _ _]. cbn in Hsize. unfold validate_event_size.
    destruct (Z.leb_spec (slen line) MAX_CANONICAL_EVENT_BYTES); [|lia].
    cbn [mbind result_bind map_err]. by rewrite Hs, Hcs.
  - cbn [validate_each]. rewrite Hst. exact Hv.
Qed.

Lemma transition_bytes cs : forall total,
  0 <= total -> total + text_bytes (map constructed_jsonl cs) <= u64_max ->
  foldl (fun total e => sat_u64 (total + slen (constructed_jsonl e))) total cs =
    total + text_bytes (map constructed_jsonl cs).
Proof using Type.
  induction cs as [|c cs IH]; intros total Ht Hm; cbn [foldl map] in *; [unfold text_bytes; cbn; lia|].
  change (text_bytes (constructed_jsonl c :: map constructed_jsonl cs))
    with (slen (constructed_jsonl c) + text_bytes (map constructed_jsonl cs)) in *.
  pose proof (slen_nonneg (constructed_jsonl c)). pose proof (text_bytes_nonneg (map constructed_jsonl cs)).
  rewrite sat_u64_id by (unfold in_u64; lia). rewrite IH; lia.
Qed.

(** What the builder would hold is within the limits. *)
Lemma capacity_Ok b st cs label :
  builder_ok session b st ->
  len (emitted b ++ cs) <= MAX_FLOW_EVENTS ->
  text_bytes (map constructed_jsonl (emitted b ++ cs)) <= MAX_SESSION_EVENT_BYTES ->
  validate_runtime_transition_capacity (builder_sequence b) (byte_count (events b)) label cs = Ok tt.
Proof using Type.
  intros Hok Hn Hb. unfold validate_runtime_transition_capacity.
  rewrite (builder_byte_count _ _ _ Hok), (bo_sequence _ _ _ Hok).
  assert (text_bytes (map constructed_jsonl (emitted b ++ cs)) =
    text_bytes (map constructed_jsonl (emitted b)) + text_bytes (map constructed_jsonl cs)) as Happ.
  { rewrite map_app. unfold text_bytes. rewrite map_app, foldr_app.
    generalize (foldr Z.add 0 (map slen (map constructed_jsonl cs))).
    induction (map slen (map constructed_jsonl (emitted b))) as [|x l IH]; intros z; cbn; [lia|].
    rewrite IH. lia. }
  pose proof (text_bytes_nonneg (map constructed_jsonl cs)).
  pose proof (text_bytes_nonneg (map constructed_jsonl (emitted b))).
  unfold MAX_SESSION_EVENT_BYTES, MAX_FLOW_EVENTS, len in *. rewrite length_app in Hn.
  rewrite transition_bytes by (unfold u64_max; lia).
  rewrite !sat_u64_id by (unfold in_u64, u64_max; lia).
  destruct (Z.ltb_spec 155750 (Z.of_nat (List.length (emitted b)) + Z.of_nat (List.length cs))); [lia|].
  destruct (Z.ltb_spec (352 * 1024 * 1024)
    (text_bytes (map constructed_jsonl (emitted b)) + (0 + text_bytes (map constructed_jsonl cs)))); [lia|done].
Qed.

Lemma capacity_count b st cs label :
  builder_ok session b st ->
  validate_runtime_transition_capacity (builder_sequence b) (byte_count (events b)) label cs = Ok tt ->
  len (emitted b) + len cs <= MAX_FLOW_EVENTS.
Proof using Type.
  intros Hok. unfold validate_runtime_transition_capacity. rewrite (bo_sequence _ _ _ Hok).
  intros H. inv_ok. unfold sat_u64, clamp, MAX_FLOW_EVENTS, u64_max, len in *. lia.
Qed.

Lemma construct_from_length clock start index planned : forall cs,
  construct_from session clock start index planned = Ok cs -> List.length cs = List.length planned.
Proof using Type.
  revert index. induction planned as [|p planned IH]; intros index cs H; cbn [construct_from] in H.
  { by injection H as <-. }
  inv_ok. cbn. f_equal. by eapply IH.
Qed.
End dry_run.

Lemma alternative_transition_dry_run session b label planned :
  builder_sound session b -> Forall plain planned ->
  validate_alternative_transition b label planned = Ok tt <->
  exists cs b', construct_runtime_transition session (clock b) (builder_sequence b) planned = Ok cs /\
    emit_all planned b = (b', Ok tt) /\ emitted b' = emitted b ++ cs.
Proof.
  intros [st Hok] Hpl. unfold validate_alternative_transition, validate_lifecycle_equivalent_alternatives.
  cbn [check_alternatives]. unfold construct_runtime_transition.
  rewrite (bo_session _ _ _ Hok), (bo_validation _ _ _ Hok).
  assert (0 <= builder_sequence b) as Hseq0 by (rewrite (bo_sequence _ _ _ Hok); unfold len; lia).
  split.
  - intros H. apply bind_Ok_inv in H as (ex & Hex & H). apply bind_Ok_inv in Hex as (cs & Hcs & Hex).
    apply bind_Ok_inv in Hex as ([] & Hcap & Hex). injection Hex as <-.
    apply bind_Ok_inv in H as (st' & Hv & _). cbn [default] in Hv.
    apply (capacity_count session b st cs label Hok) in Hcap.
    apply construct_from_length in Hcs as Hlen. unfold len in Hcap. rewrite Hlen in Hcap.
    destruct (construct_emit session planned b st (builder_sequence b) 0 cs st') as (b' & He & [_ _ Hem]);
      try done; [lia|..].
    { rewrite (bo_sequence _ _ _ Hok). unfold len. lia. }
    by exists cs, b'.
  - intros (cs & b' & Hcs & He & Hem). rewrite Hcs. cbn [mbind result_bind].
    destruct (emit_construct session planned b st (builder_sequence b) 0 b')
      as (cs' & st' & Hcs' & Hv & [st'' Hok'] & _); try done; [lia|].
    assert (cs' = cs) as -> by congruence.
    destruct (builder_budget _ _ _ Hok') as (_ & _ & Hb & Hn). rewrite Hem in Hb, Hn.
    rewrite (capacity_Ok session b st cs label Hok Hn Hb). cbn [mbind result_bind default].
    unfold Datatypes.id. by rewrite Hv.
Qed.

(** the dry run of a transition agrees with doing it: in every state a builder reaches,
    [validate_alternative_transition] accepts planned events that end no message exactly when
    they can be emitted one after the other, and then the builder holds the very events the
    dry run constructed; budgets, sizes, timestamps and lifecycle rules included. *)
Theorem alternative_transition_exact session clock ops label planned :
  Forall plain planned ->
  let b := run_ops session clock ops in
  validate_alternative_transition b label planned = Ok tt <->
  exists cs b', construct_runtime_transition session (Builder.clock b) (builder_sequence b) planned = Ok cs /\
    emit_all planned b = (b', Ok tt) /\ emitted b' = emitted b ++ cs.
Proof. intros Hpl b. apply alternative_transition_dry_run; [apply run_ops_sound|done]. Qed.
End theory.
