(* ===== verification/Planner.v ===== *)
(** Planning a Flow ([flow-agent-core/src/runtime/planning.rs], [planning/execution.rs],
    [planning/execution/stub_provider.rs], [failures.rs], [fixture_effects.rs],
    [event_construction/payload.rs], and the transitions of [event_construction/transition.rs]):
    the registry and the policy become the events and the Tool effects of a session.

    The builder is threaded through effects ([Errors.eff]).  Nesting of Phases and of Subflows is
    fuel; an [expect] on a registry reference and [unreachable!] are [Panic]. *)

From Stdlib Require Import ZArith Lia Ascii String.
From stdpp Require Import base strings sorting sets option gmap countable list.
From S2P Require Import Prelude Decimal Sorting Metadata Json FlowValue Event Lifecycle Validate.
From S2P Require Import Paths Values Blocks Registry Errors PhaseControl Policy OwnScript Context Builder.

Open Scope Z_scope.

(** * Payloads ([payload.rs]) *)

Definition flow_started_payload (flow : FlowBlock) : Value :=
  JObject [("flow_definition_id", JString (id (flow_identity flow)));
           ("flow_name", JString (name (flow_identity flow)))].

Definition flow_completed_payload (flow : FlowBlock) (result : option FlowValue) : Value :=
  let payload :=
    [("flow_definition_id", JString (id (flow_identity flow)));
     ("flow_name", JString (name (flow_identity flow)))] in
  JObject (match result with
           | Some result => obj_insert "result" (encode result) payload
           | None => payload
           end).

Definition runtime_phase_kind (phase : PhaseBlock) : PhaseKind :=
  if bool_decide (phase_phase_refs phase = []) then Leaf else Composite.

(** The [expect]s on references of a validated registry. *)
Definition phase_entered_payload {J : JsonEnv} (registry : ResolvedRegistry) (phase : PhaseBlock)
    (phase_execution_id : string) (iteration : Z) : result RuntimeError Value :=
  instruction_ids ← try_collect (fun instruction_ref =>
    instruction ← expect (instruction_block registry instruction_ref);
    Ok (JString (id (instruction_identity instruction)))) (phase_instruction_refs phase);
  tool_ids ← try_collect (fun tool_ref =>
    tool ← expect (tool_block registry tool_ref);
    Ok (JString (id (tool_identity tool)))) (phase_tool_refs phase);
  Ok (JObject
    [("instruction_ids", JArray instruction_ids);
     ("iteration", jnum iteration);
     ("phase_execution_id", JString phase_execution_id);
     ("phase_id", JString (id (phase_identity phase)));
     ("phase_kind", JString (phase_kind_as_str (runtime_phase_kind phase)));
     ("phase_name", JString (name (phase_identity phase)));
     ("tool_ids", JArray tool_ids)]).

Definition phase_completed_payload (phase : PhaseBlock) (phase_execution_id : string) (iteration : Z)
    (result : FlowValue) (will_repeat : bool) : Value :=
  JObject
    [("iteration", jnum iteration);
     ("phase_execution_id", JString phase_execution_id);
     ("phase_id", JString (id (phase_identity phase)));
     ("phase_kind", JString (phase_kind_as_str (runtime_phase_kind phase)));
     ("result", encode result);
     ("will_repeat", JBool will_repeat)].

Definition runtime_tool_kind (kind : ScriptToolKind) : ToolKind :=
  match kind with SPredefinedCommand => PredefinedCommand | SOwnScript => Event.OwnScript end.

Definition tool_started_payload (tool : ToolBlock) (policy : CommandPolicy) (attempt_id : option string)
    : Value :=
  let payload :=
    [("allowed_parameters", JArray (map (fun parameter => JString (ap_name parameter))
                                      (allowed_parameters policy)));
     ("tool_id", JString (id (tool_identity tool)));
     ("tool_kind", JString (tool_kind_as_str (runtime_tool_kind (tool_kind tool))));
     ("tool_name", JString (name (tool_identity tool)))] in
  JObject (match attempt_id with
           | Some attempt_id => obj_insert "attempt_id" (JString attempt_id) payload
           | None => payload
           end).

(** * Failures ([failures.rs]) *)

Definition RUNTIME_ERROR_REASON : string := "runtime_error".

Definition RUNTIME_IO_ERROR_KINDS : list (ErrorKind * string) :=
  [(NotFound, "not_found"); (PermissionDenied, "permission_denied");
   (AlreadyExists, "already_exists"); (InvalidInput, "invalid_input");
   (InvalidData, "invalid_data"); (TimedOut, "timed_out"); (WriteZero, "write_zero");
   (StorageFull, "storage_full"); (ReadOnlyFilesystem, "read_only_filesystem");
   (FileTooLarge, "file_too_large"); (ResourceBusy, "resource_busy");
   (Interrupted, "interrupted"); (UnexpectedEof, "unexpected_eof");
   (OutOfMemory, "out_of_memory"); (OtherError, "other")]%string.

Definition runtime_io_error_kind (kind : ErrorKind) : string :=
  default "other"%string
    (find_map (fun '(candidate, name) => if bool_decide (candidate = kind) then Some name else None)
       RUNTIME_IO_ERROR_KINDS).

Definition denial_message (reason : DenyReasonCode) : string :=
  match reason with
  | WriteDenied => "write outside declared roots denied"
  | NetworkDenied => "network egress denied by default"
  | EnvironmentDenied => "environment read denied"
  | ToolOutOfPhase => "tool is not available in the active phase"
  | SymlinkEscapeDenied => "symlink escape denied"
  | InterpreterEscapeDenied => "interpreter escape denied"
  end.

Definition runtime_failure_for_reason (reason : DenyReasonCode) (tool_id : option string) : RuntimeFailure :=
  mkFailure (deny_as_str reason) (denial_message reason) [] tool_id None (is_some tool_id).

Definition runtime_failure_for_unhandled_error (err : RuntimeError) : RuntimeFailure :=
  let '(reason, message, data) :=
    match err with
    | ContextBudgetExceeded budget required =>
        ("context_budget_exceeded", "mandatory context exceeds the model input budget",
         [("input_budget_tokens", jnum budget); ("required_bytes", jnum required)])
    | Io kind =>
        (RUNTIME_ERROR_REASON, "runtime execution failed",
         [("io_kind", JString (runtime_io_error_kind kind))])
    | Denied reason => (deny_as_str reason, denial_message reason, [])
    | _ => (RUNTIME_ERROR_REASON, "runtime execution failed", [])
    end%string in
  mkFailure reason message data None None false.

Definition fixture_failure_capacity_candidates : list RuntimeFailure :=
  map (fun reason => runtime_failure_for_reason reason None) deny_all
  ++ [runtime_failure_for_unhandled_error (ContextBudgetExceeded usize_max usize_max);
      runtime_failure_for_unhandled_error (Protocol "capacity probe")]
  ++ map (fun '(kind, _) => runtime_failure_for_unhandled_error (Io kind)) RUNTIME_IO_ERROR_KINDS.

Definition runtime_out_of_phase_failure (phase_id tool_id : string) : RuntimeFailure :=
  mkFailure (deny_as_str ToolOutOfPhase) (denial_message ToolOutOfPhase) [] (Some tool_id) (Some phase_id) false.

Definition sandbox_negative_arguments (tool : ToolBlock) : option (list string) :=
  match tool_kind tool, tool_command tool with
  | SPredefinedCommand, CmdPredefined command_id argv =>
      match trusted_parse command_id with Some Negative => Some argv | _ => None end
  | _, _ => None
  end.

Definition sandbox_negative_reason_for_operation (operation : string) : option DenyReasonCode :=
  if String.eqb operation "environment" then Some EnvironmentDenied
  else if String.eqb operation "interpreter" then Some InterpreterEscapeDenied
  else if String.eqb operation "network" then Some NetworkDenied
  else if String.eqb operation "symlink" then Some SymlinkEscapeDenied
  else if String.eqb operation "write" then Some WriteDenied
  else None.

(** [str::starts_with] of a string. *)
Definition starts_with (pattern s : string) : bool := is_some (strip_prefix pattern s).

Definition sandbox_out_of_phase_failure (phase : PhaseBlock) (stub_model_fixture_profile : bool)
    : option RuntimeFailure :=
  if negb stub_model_fixture_profile
     || negb (bool_decide (phase_tool_refs phase = []))
     || negb (starts_with "negative-" (id (phase_identity phase)))
     || negb (contains_str "no-tools" (id (phase_identity phase)))
     || negb (existsb (String.eqb "deny-attempt") (phase_instruction_refs phase))
  then None
  else Some (runtime_out_of_phase_failure (id (phase_identity phase)) "negative-tool").

Definition runtime_error_payload (failure : RuntimeFailure) : Value :=
  let payload :=
    [("code", JString (failure_reason failure)); ("message", JString (failure_message failure))] in
  JObject (if bool_decide (failure_data failure = []) then payload
           else obj_insert "data" (JObject (failure_data failure)) payload).

(** * Transitions ([transition.rs]) *)

(** [as_object_mut().expect(..).insert("error", ..)]. *)
Definition with_error (payload : Value) (error : string) : result RuntimeError Value :=
  match payload with
  | JObject fields => Ok (JObject (obj_insert "error" (JString error) fields))
  | _ => Panic
  end.

Definition flow_failed_payload (error flow_definition_id : string) : Value :=
  JObject [("error", JString error); ("flow_definition_id", JString flow_definition_id)].

Definition boundary_invocation (b : PlannedFlowFailureBoundary) : FlowInvocation :=
  mkInvocation (boundary_flow_id b) (boundary_parent_flow_id b).

Definition flow_failure_tail (boundaries : list PlannedFlowFailureBoundary) (failure : RuntimeFailure)
    : list PlannedRuntimeEvent :=
  map (fun b => mkPlanned (Some (boundary_invocation b)) FlowFailed
                  (flow_failed_payload (failure_reason failure) (boundary_definition_id b))) boundaries
  ++ [mkPlanned None SessionFailed (JObject [("reason", JString (failure_reason failure))])].

Definition fixture_failure_transition_events (t : PlannedFailureTransition) (failure : RuntimeFailure)
    : result RuntimeError (list PlannedRuntimeEvent) :=
  let invocation := Some (mkInvocation (ft_flow_id t) (ft_parent_flow_id t)) in
  phase_failed ← with_error (ft_phase_failure_payload t) (failure_reason failure);
  ancestors ← try_collect (fun payload =>
      payload ← with_error payload (failure_reason failure); Ok (mkPlanned invocation PhaseFailed payload))
    (rev (ancestor_phase_failure_payloads t));
  Ok ([mkPlanned invocation ToolFailed
         (JObject [("error", JString (failure_reason failure)); ("tool_id", JString (ft_tool_id t))]);
       mkPlanned invocation PhaseFailed phase_failed]
      ++ ancestors
      ++ [mkPlanned invocation Metadata.Error (runtime_error_payload failure);
          mkPlanned invocation FlowFailed
            (flow_failed_payload (failure_reason failure) (ft_flow_definition_id t))]
      ++ flow_failure_tail (rev (ancestor_flows t)) failure).

Definition live_invocation_failure_transition_events (active_boundaries : list PlannedFlowFailureBoundary)
    (failure : RuntimeFailure) : list PlannedRuntimeEvent :=
  mkPlanned (boundary_invocation <$> last active_boundaries) Metadata.Error (runtime_error_payload failure)
  :: flow_failure_tail (rev active_boundaries) failure.

(** * Text of the stub provider *)

Fixpoint to_ascii_lowercase (s : string) : string :=
  match s with
  | EmptyString => EmptyString
  | String a s =>
      String (if is_ascii_uppercase a then ascii_of_N (Z.to_N (byte a + 32)) else a) (to_ascii_lowercase s)
  end.

(** What comes before the first match of a pattern, and after it. *)
Fixpoint find_str (pattern s : string) : option (string * string) :=
  match strip_prefix pattern s with
  | Some rest => Some (EmptyString, rest)
  | None =>
      match s with
      | EmptyString => None
      | String a s => '(before, after) ← find_str pattern s; Some (String a before, after)
      end
  end.

(** [str::split(pattern).nth(1)]. *)
Definition split_second (pattern s : string) : option string :=
  '(_, after) ← find_str pattern s;
  match find_str pattern after with
  | Some (piece, _) => Some piece
  | None => Some after
  end.

Section planner.
Context {J : JsonEnv} {R : RuntimeEnv}.

(** * Emitting failures *)

Definition emit_runtime_tool_failure (invocation : FlowInvocation) (failure : RuntimeFailure)
    : eff RuntimeEventBuilder unit :=
  match failure_tool_id failure with
  | Some tool_id =>
      emit (Some invocation) ToolFailed
        (JObject [("error", JString (failure_reason failure)); ("tool_id", JString tool_id)])
  | None => mret tt
  end.

Definition error_data (failure : RuntimeFailure) : list (string * Value) :=
  match failure_phase_id failure with
  | Some phase_id =>
      let data := obj_insert "phase_id" (JString phase_id) (failure_data failure) in
      match failure_tool_id failure with
      | Some tool_id => obj_insert "tool_id" (JString tool_id) data
      | None => data
      end
  | None => failure_data failure
  end.

Definition emit_runtime_error (invocation : FlowInvocation) (failure : RuntimeFailure)
    : eff RuntimeEventBuilder unit :=
  let payload :=
    [("code", JString (failure_reason failure)); ("message", JString (failure_message failure))] in
  emit (Some invocation) Metadata.Error
    (JObject (if bool_decide (error_data failure = []) then payload
              else obj_insert "data" (JObject (error_data failure)) payload)).

Definition emit_runtime_flow_failure (flow : FlowBlock) (invocation : FlowInvocation) (reason : string)
    : eff RuntimeEventBuilder unit :=
  emit (Some invocation) FlowFailed (flow_failed_payload reason (id (flow_identity flow))).

Definition emit_runtime_failure (flow : FlowBlock) (invocation : FlowInvocation) (failure : RuntimeFailure)
    : eff RuntimeEventBuilder unit :=
  _ ← (if emit_tool_failed failure then emit_runtime_tool_failure invocation failure else mret tt);
  _ ← emit_runtime_error invocation failure;
  emit_runtime_flow_failure flow invocation (failure_reason failure).

(** [entered.get(field).cloned().unwrap_or_default()]. *)
Definition entered_field (entered : Value) (field : string) : Value :=
  default JNull (value_get entered field).

Definition complete_active_phase (invocation : FlowInvocation) (reason : string)
    : eff RuntimeEventBuilder unit :=
  fun b =>
    match (active_phase_payloads b !! invocation_flow_id invocation) ≫= last with
    | Some entered =>
        emit (Some invocation) PhaseFailed (JObject
          [("error", JString reason);
           ("iteration", entered_field entered "iteration");
           ("phase_execution_id", entered_field entered "phase_execution_id");
           ("phase_id", entered_field entered "phase_id");
           ("phase_kind", entered_field entered "phase_kind")]) b
    | None => (b, Ok tt)
    end.

Definition emit_runtime_error_failure (flow : FlowBlock) (invocation : FlowInvocation) (err : RuntimeError)
    : eff RuntimeEventBuilder unit :=
  let failure := runtime_failure_for_unhandled_error err in
  _ ← complete_active_phase invocation (failure_reason failure);
  _ ← emit_runtime_error invocation failure;
  emit_runtime_flow_failure flow invocation (failure_reason failure).

Definition sandbox_negative_reason_for_tool (tool : ToolBlock) : result RuntimeError (option DenyReasonCode) :=
  match sandbox_negative_arguments tool with
  | None => Ok None
  | Some [operation] =>
      Some <$> ok_or (sandbox_negative_reason_for_operation operation)
        (Protocol ("tool " +:+ id (tool_identity tool)
          +:+ " declares unsupported sandbox-negative operation " +:+ debug_str operation))
  | Some _ =>
      Err (Protocol ("tool " +:+ id (tool_identity tool)
        +:+ " negative fixture command must declare one denied operation"))
  end.

Definition sandbox_tool_dispatch_failure (tool : ToolBlock) (stub_model_fixture_profile : bool)
    : result RuntimeError (option RuntimeFailure) :=
  if negb stub_model_fixture_profile then Ok None
  else
    reason ← sandbox_negative_reason_for_tool tool;
    Ok (reason ← reason; Some (runtime_failure_for_reason reason (Some (id (tool_identity tool))))).

(** * Tool effects ([fixture_effects.rs]) *)

Definition trusted_predefined_command_progress (command_id : string) : result RuntimeError (option string) :=
  command ← ok_or (trusted_parse command_id)
    (Protocol ("unsupported predefined command " +:+ debug_str command_id));
  Ok (match command with Read => Some "stub read completed"%string | _ => None end).

Definition execute_predefined_command (policy : CommandPolicy) (command_id : string) (args : list string)
    : result RuntimeError (option string) :=
  progress ← trusted_predefined_command_progress command_id;
  command ← ok_or (trusted_parse command_id)
    (Protocol ("unsupported predefined command " +:+ debug_str command_id));
  reject negb (String.eqb (executable policy) (executable_of command)) with
    Protocol ("runtime policy executable does not match trusted command " +:+ debug_str command_id) ;;
  reject negb (bool_decide (argv policy = args)) with
    Protocol ("runtime policy arguments do not match trusted command " +:+ debug_str command_id) ;;
  Ok progress.

Definition compile_fixture_tool_effect (tool : ToolBlock) (policy : CommandPolicy)
    : result RuntimeError (PlannedFixtureEffect * option string) :=
  match tool_kind tool, tool_command tool with
  | SPredefinedCommand, CmdPredefined command_id args =>
      progress ← execute_predefined_command policy command_id args;
      Ok (EffectPredefined command_id args progress, progress)
  | SOwnScript, CmdOwnScript _ =>
      write ← plan_own_script debug_str tool;
      Ok (EffectOwnScript "stub write completed" write, Some "stub write completed"%string)
  | _, _ => Err (Protocol ("tool command shape does not match " +:+ id (tool_identity tool)))
  end.

(** * The stub provider ([stub_provider.rs]) *)

Record FlowEmitContext : Type := mkEmitContext {
  ctx_registry : ResolvedRegistry;
  ctx_policy : PolicyArtifact;
  ctx_stub_model_fixture_profile : bool;
}.

(** The loop over the instructions. *)
Fixpoint message_content (registry : ResolvedRegistry) (instruction_refs : list string)
    : result RuntimeError string :=
  match instruction_refs with
  | [] => Ok "hello"%string
  | instruction_ref :: instruction_refs =>
      instruction ← expect (instruction_block registry instruction_ref);
      if contains_str "smoke" (to_ascii_lowercase (instruction_prompt instruction)) then Ok "smoke"%string
      else message_content registry instruction_refs
  end.

Definition stub_message_content (registry : ResolvedRegistry) (phase : PhaseBlock) (provider_context : string)
    : result RuntimeError string :=
  reject String.eqb provider_context "" with Protocol "stub model received empty compiled context" ;;
  message_content registry (phase_instruction_refs phase).

Definition emit_stub_provider_turn (context : FlowEmitContext) (flow : FlowBlock) (phase : PhaseBlock)
    (phase_execution_id : string) (invocation : FlowInvocation) (input : option FlowValue)
    (content_override : option string) : eff RuntimeEventBuilder unit :=
  compiled ← reads (fun b => compile_provider_turn_context (ctx_registry context) stub_v0 flow phase
    phase_execution_id input invocation (builder_session_id b) (history b));
  content ← lift (match content_override with
                  | Some content => Ok content
                  | None => stub_message_content (ctx_registry context) phase (provider_bytes compiled)
                  end);
  _ ← record_context_manifest (compiled_manifest compiled) (compiled_objects compiled);
  message_id ← next_message_id;
  _ ← emit (Some invocation) MessageDelta
    (JObject [("content_delta", JString content); ("message_id", JString message_id);
              ("role", JString "assistant")]);
  emit (Some invocation) MessageCompleted
    (JObject [("message_id", JString message_id); ("role", JString "assistant")]).

Definition stub_provider_requests_tools (registry : ResolvedRegistry) (phase : PhaseBlock) : bool :=
  if bool_decide (phase_tool_refs phase = []) then false
  else negb (existsb (fun instruction_ref =>
         match instruction_block registry instruction_ref with
         | Some instruction => contains_str "fixture-tool-request: none" (instruction_prompt instruction)
         | None => false
         end) (phase_instruction_refs phase)).

Definition zero_digest : string := concat_bytes (repeat "0"%string 64).

Fixpoint stub_value_for_contract (contract : ValueContract) (content : string) {struct contract}
    : result RuntimeError FlowValue :=
  match contract with
  | CBoolean => Ok (FBoolean true)
  | CInteger min max => Ok (FInteger (Z_to_string (Z.min (default 0 min) (default i64_max max))))
  | CString max_length =>
      Ok (FString (match max_length with
                   | Some limit => concat_chars (take (Z.to_nat limit) (chars content))
                   | None => content
                   end))
  | CList _ _ => Ok (FList [])
  | CMap fields =>
      fields ←
        (fix go (fields : list (ValueFieldContract ValueContract))
            : result RuntimeError (list (string * FlowValue)) :=
          match fields with
          | [] => Ok []
          | mkField name required value_contract :: fields =>
              if required then
                value ← stub_value_for_contract value_contract content;
                rest ← go fields;
                Ok ((name, value) :: rest)
              else go fields
          end) fields;
      Ok (FMap (btree_collect fields))
  | CSessionObject =>
      FSessionObject <$> map_err (fun _ => Protocol "stub session object URI is invalid")
        (build_session_object_uri zero_digest)
  end.

(** The loop over the instructions for a declared result. *)
Fixpoint declared_result (registry : ResolvedRegistry) (iteration : Z) (instruction_refs : list string)
    : result RuntimeError (option FlowValue) :=
  match instruction_refs with
  | [] => Ok None
  | instruction_ref :: instruction_refs =>
      instruction ← expect (instruction_block registry instruction_ref);
      let instruction_id := id (instruction_identity instruction) in
      match split_second "fixture-results:" (instruction_prompt instruction) with
      | Some json =>
          values ← map_err (fun error => Protocol ("stub fixture-results for " +:+ instruction_id
                              +:+ " are invalid: " +:+ error)) (flow_values_from_str (trim json));
          let index := Z.min (Z.max 0 (iteration - 1)) (Z.max 0 (len values - 1)) in
          Some <$> ok_or (values !! Z.to_nat index)
            (Protocol ("stub fixture-results for " +:+ instruction_id +:+ " must not be empty"))
      | None =>
          match split_second "fixture-result:" (instruction_prompt instruction) with
          | Some json =>
              Some <$> map_err (fun error => Protocol ("stub fixture-result for " +:+ instruction_id
                                  +:+ " is invalid: " +:+ error)) (flow_value_from_str (trim json))
          | None => declared_result registry iteration instruction_refs
          end
      end
  end.

Definition stub_phase_result (registry : ResolvedRegistry) (phase : PhaseBlock) (iteration : Z)
    (input : option FlowValue) : result RuntimeError FlowValue :=
  declared ← declared_result registry iteration (phase_instruction_refs phase);
  match declared with
  | Some value => Ok value
  | None =>
      match option_filter (fun input =>
              is_ok (validate_flow_value_against_contract input (phase_output phase))) input with
      | Some input => Ok input
      | None =>
          content ← stub_message_content registry phase "stub";
          stub_value_for_contract (phase_output phase) content
      end
  end.

(** * Tools ([planning/execution.rs]) *)

Definition should_terminalize_error (err : RuntimeError) : bool :=
  match err with ContextBudgetExceeded _ _ => true | _ => false end.

Definition emit_tool_progress (message : string) (tool : ToolBlock) (invocation : FlowInvocation)
    : eff RuntimeEventBuilder unit :=
  emit (Some invocation) ToolProgress
    (JObject [("message", JString message); ("tool_id", JString (id (tool_identity tool)))]).

(** The failures a Tool may still have, all of which must fit. *)
Definition validate_failure_capacity (transition : PlannedFailureTransition) (b : RuntimeEventBuilder)
    : result RuntimeError unit :=
  alternatives ← try_collect (fixture_failure_transition_events transition) fixture_failure_capacity_candidates;
  validate_lifecycle_equivalent_alternatives b "runtime failure transition" alternatives.

(** What follows once a Tool was started and is not denied. *)
Definition emit_tool_success (transition : PlannedFailureTransition) (policy : RuntimeToolPolicy)
    (invocation : FlowInvocation) (tool : ToolBlock) (effect : PlannedFixtureEffect)
    (planned_progress : option string) : eff RuntimeEventBuilder unit :=
  side_effect_sequence ← reads (fun b => Ok (builder_sequence b + 1));
  let completed_sequence := side_effect_sequence + (if is_some planned_progress then 1 else 0) in
  let replay_guard_sequence :=
    if is_some planned_progress then side_effect_sequence else completed_sequence in
  _ ← reads (validate_failure_capacity transition);
  _ ← record_fixture_action transition policy replay_guard_sequence effect;
  _ ← match planned_progress with
      | Some message => emit_tool_progress message tool invocation
      | None => mret tt
      end;
  emit (Some invocation) ToolCompleted
    (JObject [("exit_code", jnum 0); ("tool_id", JString (id (tool_identity tool)))]).

Definition emit_planned_tool (ancestor_flows : list PlannedFlowFailureBoundary)
    (ancestor_phase_failure_payloads : list Value) (flow : FlowBlock) (invocation : FlowInvocation)
    (phase : PhaseBlock) (policy : RuntimeToolPolicy) (phase_failure_payload : Value) (tool : ToolBlock)
    : eff RuntimeEventBuilder (option RuntimeFailure) :=
  _ ← record_tool_intent invocation tool policy;
  '(effect, planned_progress) ← lift (compile_fixture_tool_effect tool (policy_command policy));
  _ ← emit (Some invocation) ToolStarted (tool_started_payload tool (policy_command policy) None);
  failure ← lift (sandbox_tool_dispatch_failure tool (stub_model_fixture_profile policy));
  match failure with
  | Some failure => mret (Some failure)
  | None =>
      let transition := mkFailureTransition ancestor_flows ancestor_phase_failure_payloads
        (id (flow_identity flow)) (invocation_flow_id invocation) (invocation_parent_flow_id invocation)
        (id (phase_identity phase)) phase_failure_payload (id (tool_identity tool)) in
      _ ← emit_tool_success transition policy invocation tool effect planned_progress;
      mret None
  end.

(** * Phases *)

Definition phase_failure_payload (phase : PhaseBlock) (phase_execution_id : string) (iteration : Z) : Value :=
  JObject
    [("iteration", jnum iteration);
     ("phase_execution_id", JString phase_execution_id);
     ("phase_id", JString (id (phase_identity phase)));
     ("phase_kind", JString (phase_kind_as_str (runtime_phase_kind phase)))].

Definition emit_phase_failed (invocation : FlowInvocation) (payload : Value) (error : string)
    : eff RuntimeEventBuilder unit :=
  payload ← lift (with_error payload error);
  emit (Some invocation) PhaseFailed payload.

Definition phase_runtime_failure (phase : PhaseBlock) (reason message : string) : RuntimeFailure :=
  mkFailure reason message [] None (Some (id (phase_identity phase))) false.

Section flow.
(** What stays fixed while one Flow runs. *)
Context (context : FlowEmitContext) (flow : FlowBlock) (invocation : FlowInvocation).
Context (ancestor_flows : list PlannedFlowFailureBoundary).

(** The loop over the Tools a turn requested; it returns the failure of the first one denied. *)
Fixpoint emit_tools (phase : PhaseBlock) (ancestor_phase_failure_payloads : list Value)
    (failure_payload : Value) (tool_refs : list string)
    : eff RuntimeEventBuilder (option RuntimeFailure) :=
  match tool_refs with
  | [] => mret None
  | tool_ref :: tool_refs =>
      tool ← lift (expect (tool_block (ctx_registry context) tool_ref));
      command ← lift (command_policy_for_phase (ctx_policy context) (id (phase_identity phase)) tool);
      failure ← emit_planned_tool ancestor_flows ancestor_phase_failure_payloads flow invocation phase
        (mkToolPolicy command (ctx_stub_model_fixture_profile context)) failure_payload tool;
      match failure with
      | Some failure =>
          _ ← emit_runtime_tool_failure invocation failure;
          mret (Some (mkFailure (failure_reason failure) (failure_message failure) (failure_data failure)
                        (failure_tool_id failure) (failure_phase_id failure) false))
      | None => emit_tools phase ancestor_phase_failure_payloads failure_payload tool_refs
      end
  end.

(** A leaf Phase: a turn of the provider, the Tools it requested, and a turn after them. *)
Definition emit_leaf_iteration (phase : PhaseBlock) (phase_execution_id : string) (iteration : Z)
    (ancestor_phase_failure_payloads : list Value) (input : option FlowValue) (failure_payload : Value)
    : eff RuntimeEventBuilder ExecutionOutcome :=
  match sandbox_out_of_phase_failure phase (ctx_stub_model_fixture_profile context) with
  | Some failure => mret (Failed failure)
  | None =>
      let requests_tools := stub_provider_requests_tools (ctx_registry context) phase in
      _ ← emit_stub_provider_turn context flow phase phase_execution_id invocation input
        (if requests_tools then Some "tool-request"%string else None);
      failure ←
        (if requests_tools then
           failure ← emit_tools phase ancestor_phase_failure_payloads failure_payload (phase_tool_refs phase);
           match failure with
           | Some failure => mret (Some failure)
           | None =>
               _ ← emit_stub_provider_turn context flow phase phase_execution_id invocation input None;
               mret None
           end
         else mret None);
      match failure with
      | Some failure => mret (Failed failure)
      | None =>
          result ← lift (stub_phase_result (ctx_registry context) phase iteration input);
          mret (Completed (Some result))
      end
  end.

(** The loop over the iterations of a Phase; [remaining] counts down to the [unreachable!]. *)
Fixpoint phase_iterations (phase : PhaseBlock)
    (run : string -> Z -> option FlowValue -> Value -> eff RuntimeEventBuilder ExecutionOutcome)
    (max_iterations : Z) (remaining : nat) (iteration : Z) (iteration_input : option FlowValue)
    : eff RuntimeEventBuilder ExecutionOutcome :=
  match remaining with
  | O => lift Panic
  | S remaining =>
      phase_execution_id ← next_phase_execution_id;
      entered_payload ← lift (phase_entered_payload (ctx_registry context) phase phase_execution_id iteration);
      _ ← emit (Some invocation) PhaseEntered entered_payload;
      let failure_payload := phase_failure_payload phase phase_execution_id iteration in
      outcome ← run phase_execution_id iteration iteration_input failure_payload;
      match outcome with
      | Completed (Some result) =>
          _ ← lift (map_err (fun error => Protocol ("phase " +:+ id (phase_identity phase)
                 +:+ " result violates its output contract: " +:+ fve_message error))
               (validate_flow_value_against_contract result (phase_output phase)));
          repeat ← lift (phase_should_repeat result (phase_loop phase));
          if repeat && (iteration =? max_iterations) then
            let failure := phase_runtime_failure phase "loop-limit-reached"
              "Phase loop reached max_iterations before its until condition matched" in
            _ ← emit_phase_failed invocation failure_payload (failure_reason failure);
            mret (Failed failure)
          else
            _ ← emit (Some invocation) PhaseCompleted
              (phase_completed_payload phase phase_execution_id iteration result repeat);
            if negb repeat then mret (Completed (Some result))
            else phase_iterations phase run max_iterations remaining (iteration + 1) (Some result)
      | Completed None =>
          lift (Err (Protocol ("phase " +:+ id (phase_identity phase) +:+ " completed without a result")))
      | Failed failure =>
          _ ← emit_phase_failed invocation failure_payload (failure_reason failure);
          mret (Failed failure)
      end
  end.

Fixpoint emit_phase (fuel : nat) (ancestor_phase_failure_payloads : list Value) (phase : PhaseBlock)
    (input : option FlowValue) : eff RuntimeEventBuilder ExecutionOutcome :=
  match fuel with
  | O => lift Panic
  | S fuel =>
      let max_iterations :=
        match phase_loop phase with Some config => loop_max_iterations config | None => 1 end in
      phase_iterations phase
        (fun phase_execution_id iteration input failure_payload =>
           if negb (bool_decide (phase_phase_refs phase = [])) then
             emit_phase_sequence (ctx_registry context)
               (emit_phase fuel (ancestor_phase_failure_payloads ++ [failure_payload]))
               (phase_phase_refs phase) (phase_transitions phase) input (phase_result_from phase)
           else
             emit_leaf_iteration phase phase_execution_id iteration ancestor_phase_failure_payloads input
               failure_payload)
        max_iterations (Z.to_nat max_iterations) 1 input
  end.
End flow.

(** * Flows *)

(** [match outcome { .. Err(err) if should_terminalize_error(&err) => { on_error(&err)?; Err(err) } .. }]. *)
Definition terminalize {A} (m : eff RuntimeEventBuilder A)
    (on_error : RuntimeError -> eff RuntimeEventBuilder unit) : eff RuntimeEventBuilder A :=
  fun b =>
    match m b with
    | (b, Err err) =>
        if should_terminalize_error err then (_ ← on_error err; lift (Err err)) b else (b, Err err)
    | other => other
    end.

Definition live_invocation_failure : RuntimeFailure :=
  runtime_failure_for_unhandled_error (Protocol "global live flow invocation limit reached").

(** The loop over the Subflows; each is given the result of the one before. *)
Fixpoint emit_subflows (context : FlowEmitContext) (flow : FlowBlock) (invocation : FlowInvocation)
    (emit_child : FlowBlock -> option FlowValue -> eff RuntimeEventBuilder ExecutionOutcome)
    (subflow_refs : list string) (result : option FlowValue)
    : eff RuntimeEventBuilder ExecutionOutcome :=
  match subflow_refs with
  | [] => mret (Completed result)
  | subflow_ref :: subflow_refs =>
      subflow ← lift (expect (flow_block (ctx_registry context) subflow_ref));
      outcome ← terminalize (emit_child subflow result)
        (fun err => emit_runtime_flow_failure flow invocation
           (failure_reason (runtime_failure_for_unhandled_error err)));
      match outcome with
      | Failed failure =>
          _ ← emit_runtime_flow_failure flow invocation (failure_reason failure);
          mret (Failed failure)
      | Completed subflow_result =>
          emit_subflows context flow invocation emit_child subflow_refs subflow_result
      end
  end.

Fixpoint emit_flow_block (fuel phase_fuel : nat) (context : FlowEmitContext) (flow : FlowBlock)
    (parent_flow_id : option string) (input : option FlowValue)
    (ancestor_flows : list PlannedFlowFailureBoundary) : eff RuntimeEventBuilder ExecutionOutcome :=
  match fuel with
  | O => lift Panic
  | S fuel =>
      invocation ← next_flow_invocation parent_flow_id;
      let current_flow := mkBoundary (id (flow_identity flow)) (invocation_flow_id invocation)
        (invocation_parent_flow_id invocation) in
      _ ← reads (fun b => validate_alternative_transition b "live invocation failure transition"
             (live_invocation_failure_transition_events ancestor_flows live_invocation_failure));
      _ ← emit (Some invocation) FlowStarted (flow_started_payload flow);
      outcome ← terminalize
        (emit_phase_sequence (ctx_registry context) (emit_phase context flow invocation ancestor_flows phase_fuel [])
           (flow_phase_refs flow) (flow_transitions flow) input None)
        (emit_runtime_error_failure flow invocation);
      match outcome with
      | Failed failure =>
          _ ← emit_runtime_failure flow invocation failure;
          mret (Failed failure)
      | Completed result =>
          outcome ← emit_subflows context flow invocation
            (fun subflow result => emit_flow_block fuel phase_fuel context subflow
               (Some (invocation_flow_id invocation)) result (ancestor_flows ++ [current_flow]))
            (flow_subflow_refs flow) result;
          match outcome with
          | Failed failure => mret (Failed failure)
          | Completed result =>
              _ ← emit (Some invocation) FlowCompleted (flow_completed_payload flow result);
              mret (Completed result)
          end
      end
  end.

(** * Plans ([planning.rs], [execution_plan.rs]) *)

Inductive ToolSideEffectMode : Type :=
| ModeApply
| ModePlan
| ModePreflightResume (prefix_event_count : Z)
| ModeResume (prefix_event_count : Z).

Definition should_execute_tool (mode : ToolSideEffectMode) (completed_sequence : Z) : bool :=
  match mode with
  | ModeApply => true
  | ModePlan | ModePreflightResume _ => false
  | ModeResume prefix_event_count => prefix_event_count <? completed_sequence
  end.

Definition should_preflight_tool (mode : ToolSideEffectMode) (completed_sequence : Z) : bool :=
  match mode with
  | ModePreflightResume prefix_event_count => prefix_event_count <? completed_sequence
  | ModeApply | ModePlan | ModeResume _ => false
  end.

Record FlowExecutionOptions : Type := mkOptions {
  option_clock : EventClock;
  root_input : option FlowValue;
  side_effect_mode : ToolSideEffectMode;
  option_stub_model_fixture_profile : bool;
}.

Record RuntimeStreamSignature : Type := mkStreamSignature {
  sig_byte_count : Z;
  sig_digest : string;
  sig_record_count : Z;
}.

Definition signature (s : RuntimeStreamSignatureBuilder) : RuntimeStreamSignature :=
  mkStreamSignature (byte_count s) (hasher_finalize (hasher s)) (record_count s).

Record RuntimeExecution : Type := mkExecution {
  exec_actions : list FlowExecutionAction;
  exec_context_manifests : RuntimeStreamSignature;
  exec_events : RuntimeStreamSignature;
  exec_failed : bool;
  exec_failure_status : option string;
  exec_terminal_error : option RuntimeError;
  exec_tool_intents : list PlannedToolIntent;
}.

Definition into_execution (b : RuntimeEventBuilder) (failed : bool) (terminal_error : option RuntimeError)
    : RuntimeExecution :=
  mkExecution (actions b) (signature (context_manifests b)) (signature (events b)) failed
    (rendered (failure_status b)) terminal_error (tool_intents b).

Definition finish_plan (t : EventType) (payload : Value) (failed : bool) (terminal_error : option RuntimeError)
    : eff RuntimeEventBuilder RuntimeExecution :=
  _ ← emit None t payload;
  reads (fun b => Ok (into_execution b failed terminal_error)).

(** The root Flow and the end of the session; the nesting limits of a registry bound the
    recursion. *)
Definition plan_root_flow (registry : ResolvedRegistry) (policy : PolicyArtifact) (root_flow : FlowBlock)
    (options : FlowExecutionOptions) : eff RuntimeEventBuilder RuntimeExecution :=
  fun b =>
    let context := mkEmitContext registry policy (option_stub_model_fixture_profile options) in
    match emit_flow_block flow_fuel phase_fuel context root_flow None (root_input options) [] b with
    | (b, Ok (Failed failure)) =>
        finish_plan SessionFailed (JObject [("reason", JString (failure_reason failure))]) true None b
    | (b, Ok (Completed _)) => finish_plan SessionCompleted (JObject []) false None b
    | (b, Err err) =>
        if should_terminalize_error err then
          finish_plan SessionFailed
            (JObject [("reason", JString (failure_reason (runtime_failure_for_unhandled_error err)))])
            true (Some err) b
        else (b, Err err)
    | (b, Panic) => (b, Panic)
    end.

Definition plan_session (registry : ResolvedRegistry) (policy : PolicyArtifact) (root_flow : FlowBlock)
    (options : FlowExecutionOptions) : eff RuntimeEventBuilder RuntimeExecution :=
  _ ← emit None SessionStarted
    (if option_stub_model_fixture_profile options then JObject [("reason", JString "fixture-start")]
     else JObject []);
  plan_root_flow registry policy root_flow options.

Definition compile_flow_plan (registry : ResolvedRegistry) (policy : PolicyArtifact) (root_flow : FlowBlock)
    (session_id : string) (options : FlowExecutionOptions) : result RuntimeError RuntimeExecution :=
  (plan_session registry policy root_flow options (with_clock session_id (option_clock options) true)).2.

(** Without the signature and the workspace identity of the plan. *)
Definition plan_flow (registry : ResolvedRegistry) (policy : PolicyArtifact) (root_flow : FlowBlock)
    (session_id : string) (options : FlowExecutionOptions) : result RuntimeError RuntimeExecution :=
  match side_effect_mode options with
  | ModePlan => compile_flow_plan registry policy root_flow session_id options
  | _ => Err (Protocol "flow planning requires ToolSideEffectMode::Plan")
  end.
End planner.
