(* ===== verification/NoPanic.v ===== *)
(** The pure parts of planning never panic: values and contracts, rendering, own scripts, the
    context of a turn, the stub provider and the dry run of transitions. *)

From Stdlib Require Import ZArith Lia Ascii String.
From stdpp Require Import base strings sorting sets option gmap countable list.
From S2P Require Import Prelude Decimal Sorting Metadata Json FlowValue Event Lifecycle.
From S2P Require Import LifecycleTheory Validate ValidateTheory StreamProps.
From S2P Require Import Paths Values ValuesTheory Blocks CanonicalBlock Registry NestingTheory RegistryTheory.
From S2P Require Import Errors EffectTheory PhaseControl PhaseControlTheory Policy PolicyTheory.
From S2P Require Import OwnScript Context ContextTheory Builder BuilderTheory Planner.

Open Scope Z_scope.

(** [fmap] of a result. *)
Lemma fmap_no_panic {E A B} (f : A -> B) (r : result E A) : r <> Panic -> f <$> r <> Panic.
Proof. by destruct r. Qed.
#[export] Hint Resolve fmap_no_panic : no_panic.

Section values.
Context {J : JsonEnv}.

Lemma canonical_json_no_panic v : canonical_json v <> Panic.
Proof. unfold canonical_json. case_match; [done|]. apply append_canonical_json_no_panic. Qed.
Hint Resolve canonical_json_no_panic : no_panic.

(** * Values *)

Lemma guard_depth_no_panic v : forall depth, guard_flow_value_serialization_depth v depth <> Panic.
Proof.
  induction v as [b|s|s|s|vs IH|fs IH] using FlowValue_ind'; intros depth; cbn;
    (destruct (MAX_FLOW_VALUE_DEPTH <? depth); [done|]); try done.
  - induction IH as [|v vs Hv _ IH]; cbn; [done|]. by apply bind_no_panic.
  - induction IH as [|[k v] fs Hv _ IH]; cbn; [done|]. by apply bind_no_panic.
Qed.

Lemma flow_value_no_panic v : validate_flow_value v <> Panic.
Proof.
  unfold validate_flow_value. apply bind_no_panic; [apply guard_depth_no_panic|]. intros _ _.
  destruct (validate_v0_total (encode v)) as [->|[e ->]]; done.
Qed.

Lemma contract_at_no_panic c : forall depth path, validate_value_contract_at c depth path <> Panic.
Proof.
  induction c as [| |min max|max|items max IH|fields IH] using ValueContract_ind'; intros depth path;
    cbn -[String.append]; (destruct (MAX_FLOW_VALUE_DEPTH <? depth); [done|]); try done.
  - destruct min, max; try done. by case_match.
  - destruct (match max with Some _ => _ | None => _ end); [done|]. apply IH.
  - destruct (MAX_FLOW_VALUE_MEMBERS <? len fields); [done|]. generalize (∅ : gset string).
    induction IH as [|[n q c] fields Hc _ IHf]; intros names; [done|]. cbn -[String.append] in *.
    apply bind_no_panic; [unfold validate_key, validate_nfc; no_panic|]. intros _ _.
    destruct (decide _); [done|]. apply bind_no_panic; [apply Hc|]. intros _ _. apply IHf.
Qed.

Lemma against_contract_at_no_panic c : forall v path, validate_against_contract_at v c path <> Panic.
Proof.
  induction c as [| |min max|max|items max IH|fields IH] using ValueContract_ind'; intros v path;
    destruct v; cbn -[String.append]; try done.
  - apply bind_no_panic; [apply map_err_no_panic; unfold parse_canonical_i64; no_panic|].
    intros z _. by destruct (_ || _).
  - destruct max; [|done]. by case_match.
  - apply bind_no_panic; [destruct max; [by case_match|done]|]. intros _ _.
    generalize 0. induction values as [|v values IHv]; intros index; [done|]. cbn -[String.append].
    apply bind_no_panic; [apply IH|]. intros _ _. apply IHv.
  - apply bind_no_panic.
    + induction IH as [|[n q c] fields Hc _ IHf]; [done|]. cbn -[String.append] in *.
      apply bind_no_panic; [|intros _ _; apply IHf].
      destruct (map_get _ n); [apply Hc|]. by destruct q.
    + intros _ _. apply try_for_each_no_panic. intros [n v]. by case_match.
Qed.

Lemma against_contract_no_panic v c : validate_flow_value_against_contract v c <> Panic.
Proof.
  unfold validate_flow_value_against_contract. apply bind_no_panic; [apply flow_value_no_panic|].
  intros _ _. apply bind_no_panic; [apply contract_at_no_panic|]. intros _ _.
  apply against_contract_at_no_panic.
Qed.
Hint Resolve against_contract_no_panic : no_panic.

(** * Rendering *)

Lemma render_loop_no_panic reserve text fuel ps reps rendered remaining max :
  (String.length remaining < fuel)%nat ->
  render_loop reserve text fuel ps reps rendered remaining max <> Panic.
Proof.
  assert (forall a b, append_instruction_fragment reserve a b max <> Panic) as Happ.
  { intros a b. unfold append_instruction_fragment. by repeat case_match. }
  revert reps rendered remaining. induction fuel as [|fuel IH]; intros reps rendered remaining Hf; [lia|].
  cbn [render_loop]. destruct (find_pair open_brace remaining) as [[before after]|] eqn:Eo; [|apply Happ].
  apply find_pair_length in Eo. apply bind_no_panic; [apply Happ|]. intros r1 _.
  destruct (find_pair close_brace after) as [[name rest]|] eqn:Ec; [|apply Happ].
  apply find_pair_length in Ec. destruct (map_get ps name) as [v|].
  - apply bind_no_panic.
    { destruct (reps !! name); [done|]. apply bind_no_panic; [|done].
      apply map_err_no_panic, canonical_json_no_panic. }
    intros reps' Hr. assert (is_Some (reps' !! name)) as [t ->].
    { destruct (reps !! name) as [t|] eqn:E; [injection Hr as <-; by rewrite E|].
      apply bind_Ok_inv in Hr as (t & _ & Hr). injection Hr as <-. by rewrite lookup_insert_eq. }
    cbn [expect mbind result_bind]. apply bind_no_panic; [apply Happ|]. intros r2 _. apply IH. lia.
  - apply bind_no_panic; [apply Happ|]. intros r2 _. apply IH. lia.
Qed.

Lemma render_no_panic reserve text prompt declared ps max :
  render_instruction reserve text prompt declared ps max <> Panic.
Proof.
  unfold render_instruction. apply bind_no_panic.
  { apply try_for_each_no_panic. intros p. apply bind_no_panic; [apply ok_or_no_panic|]. intros v _.
    apply map_err_no_panic, against_contract_no_panic. }
  intros _ _. apply bind_no_panic; [apply try_for_each_no_panic; intros [n v]; by case_match|].
  intros _ _. apply render_loop_no_panic. lia.
Qed.

(** * Own scripts *)

Section script.
Context (debug : string -> string).

Lemma scan_no_panic s : forall i q p, scan_redirection s i q p <> Panic.
Proof using Type.
  induction s as [|a s IH]; intros i q p; cbn [scan_redirection]; [by destruct q|].
  destruct q; [apply IH|]. repeat case_match; try done; apply IH.
Qed.

Lemma decode_escapes_no_panic n s : (String.length s <= n)%nat -> decode_printf_escapes s <> Panic.
Proof using Type.
  revert s. induction n as [|n IH]; intros [|a s] Hn; cbn [String.length] in Hn; try done; [lia|].
  cbn [decode_printf_escapes]. destruct (negb _); [apply bind_no_panic; [apply IH; lia|done]|].
  destruct s as [|b s]; [done|]. cbn [String.length] in Hn.
  repeat case_match; try done; (apply bind_no_panic; [apply IH; lia|done]).
Qed.

Lemma format_no_panic n s arg : (String.length s <= n)%nat -> evaluate_printf_string_format s arg <> Panic.
Proof using Type.
  revert s arg. induction n as [|n IH]; intros [|a s] arg Hn; cbn [String.length] in Hn; try done; [lia|].
  cbn [evaluate_printf_string_format]. destruct (negb _); [apply bind_no_panic; [apply IH; lia|done]|].
  destruct s as [|b s]; [done|]. cbn [String.length] in Hn.
  repeat case_match; try done; (apply bind_no_panic; [apply IH; lia|done]).
Qed.

Lemma script_command_no_panic c : evaluate_script_command debug c <> Panic.
Proof using Type.
  unfold evaluate_script_command, evaluate_printf_command, parse_single_quoted_argument, unquote_script_argument.
  destruct (strip_prefix "printf " _).
  - apply bind_no_panic; [apply bind_no_panic; [apply ok_or_no_panic|intros; apply ok_or_no_panic]|].
    intros [format rest] _. apply bind_no_panic; [by repeat case_match|]. intros arg _.
    apply bind_no_panic; [by eapply decode_escapes_no_panic|]. intros decoded _. by eapply format_no_panic.
  - destruct (strip_prefix "echo " _); [|done]. apply bind_no_panic; [by case_match|done].
Qed.

Lemma script_redirection_no_panic l : script_redirection l <> Panic.
Proof using Type.
  unfold script_redirection, redirection_position. apply bind_no_panic; [apply scan_no_panic|].
  intros [i|] _; [|done]. destruct (String.eqb _ _); [done|]. apply bind_no_panic; [|done].
  unfold unquote_script_path. by repeat case_match.
Qed.

Lemma own_script_no_panic tool : plan_own_script debug tool <> Panic.
Proof using Type.
  unfold plan_own_script, compile_own_script_operations. destruct (negb _); [done|].
  apply bind_no_panic; [apply ok_or_no_panic|]. intros body _. generalize (lines body) as l.
  intros l. generalize (@None ScriptWrite). induction l as [|line l IH]; intros w; [done|]. cbn [compile_lines].
  destruct (_ || _); [apply IH|]. apply bind_no_panic; [apply script_redirection_no_panic|].
  intros [[command target]|] _.
  - destruct (is_some w); [done|]. apply bind_no_panic.
    { unfold normalize_script_write_target. destruct (_ || _); [done|]. case_match; [done|].
      apply ok_or_no_panic. }
    intros t _. apply bind_no_panic; [apply script_command_no_panic|]. intros; apply IH.
  - apply bind_no_panic; [apply script_command_no_panic|]. intros; apply IH.
Qed.
End script.

(** * The dry run of transitions *)

Lemma with_error_object fields error : exists fields', with_error (JObject fields) error = Ok (JObject fields').
Proof. by eexists. Qed.

Section transitions.
Context {R : RuntimeEnv}.

Lemma constructed_new_no_panic e : constructed_new e <> Panic.
Proof using Type. unfold constructed_new. apply bind_no_panic; [apply canonical_jsonl_no_panic|done]. Qed.

Lemma construct_no_panic session clock start planned : forall index,
  construct_from session clock start index planned <> Panic.
Proof using Type.
  induction planned as [|p planned IH]; intros index; cbn [construct_from]; [done|].
  apply bind_no_panic; [apply clock_timestamp_no_panic|]. intros ts _.
  apply bind_no_panic; [apply map_err_no_panic, validate_v0_no_panic|]. intros _ _.
  apply bind_no_panic; [apply map_err_no_panic, constructed_new_no_panic|]. intros c _.
  apply bind_no_panic; [apply map_err_no_panic; unfold validate_event_size; by case_match|]. intros _ _.
  apply bind_no_panic; [apply IH|done].
Qed.

Lemma validate_each_no_panic l : forall st, validate_each st l <> Panic.
Proof using Type.
  induction l as [|c l IH]; intros st; cbn; [done|].
  apply bind_no_panic; [apply map_err_no_panic, constructed_event_no_panic|]. intros st' _. apply IH.
Qed.

Lemma alternatives_no_panic b label l : validate_lifecycle_equivalent_alternatives b label l <> Panic.
Proof using Type.
  unfold validate_lifecycle_equivalent_alternatives. apply bind_no_panic.
  - generalize (@None (list ConstructedRuntimeEvent)). induction l as [|p l IH]; intros ex; cbn; [done|].
    apply bind_no_panic; [apply construct_no_panic|]. intros c _. apply bind_no_panic; [|intros; apply IH].
    unfold validate_runtime_transition_capacity. by repeat case_match.
  - intros ex _. destruct (validation b); [|done]. apply bind_no_panic; [apply validate_each_no_panic|done].
Qed.

(** The payloads a failure transition extends are objects. *)
Definition payloads_are_objects (t : PlannedFailureTransition) : Prop :=
  is_object (ft_phase_failure_payload t) = true /\
  Forall (fun v => is_object v = true) (ancestor_phase_failure_payloads t).

Lemma with_error_no_panic v error : is_object v = true -> with_error v error <> Panic.
Proof using Type. by destruct v. Qed.

Lemma failure_capacity_no_panic t b : payloads_are_objects t -> validate_failure_capacity t b <> Panic.
Proof using Type.
  intros [Hp Ha]. unfold validate_failure_capacity. apply bind_no_panic; [|intros; apply alternatives_no_panic].
  apply try_collect_no_panic. intros f. unfold fixture_failure_transition_events.
  apply bind_no_panic; [by apply with_error_no_panic|]. intros v _. apply bind_no_panic; [|done].
  assert (Forall (fun v => is_object v = true) (rev (ancestor_phase_failure_payloads t))) as Hr
    by (apply Forall_rev; exact Ha).
  induction Hr as [|w l Hw _ IH]; cbn; [done|]. apply bind_no_panic.
  - apply bind_no_panic; [by apply with_error_no_panic|done].
  - intros x _. by apply bind_no_panic.
Qed.

(** * Tools *)

Lemma tool_effect_no_panic tool policy : compile_fixture_tool_effect tool policy <> Panic.
Proof using Type.
  unfold compile_fixture_tool_effect, execute_predefined_command, trusted_predefined_command_progress.
  destruct (tool_kind tool), (tool_command tool); try done.
  - apply bind_no_panic; [|done].
    apply bind_no_panic; [apply bind_no_panic; [apply ok_or_no_panic|done]|]. intros progress _.
    apply bind_no_panic; [apply ok_or_no_panic|]. intros c _. by repeat case_match.
  - apply bind_no_panic; [apply own_script_no_panic|done].
Qed.

Lemma dispatch_no_panic tool stub : sandbox_tool_dispatch_failure tool stub <> Panic.
Proof using Type.
  unfold sandbox_tool_dispatch_failure, sandbox_negative_reason_for_tool. destruct (negb stub); [done|].
  apply bind_no_panic; [|done]. destruct (sandbox_negative_arguments tool) as [[|x [|y l]]|]; try done.
  apply fmap_no_panic, ok_or_no_panic.
Qed.

Lemma command_policy_no_panic policy pid tool : command_policy_for_phase policy pid tool <> Panic.
Proof using Type.
  unfold command_policy_for_phase. destruct (negb _); [done|]. apply ok_or_no_panic.
Qed.

(** * The context of a turn *)

Context {RL : RuntimeLaws} (r : ResolvedRegistry).

Lemma input_budget_no_panic m : input_budget_tokens m <> Panic.
Proof using Type.
  unfold input_budget_tokens. apply bind_no_panic; [apply ok_or_no_panic|]. intros n _. by case_match.
Qed.

Lemma source_bytes_no_panic s : context_source_bytes s <> Panic.
Proof using Type.
  unfold context_source_bytes. apply bind_no_panic; [|done]. apply map_err_no_panic, canonical_json_no_panic.
Qed.

Lemma bounded_source_no_panic sid items n :
  Forall (fun i => i <> Panic) items -> bounded_context_array_source sid items n <> Panic.
Proof using Type.
  intros Hi. unfold bounded_context_array_source. apply bind_no_panic; [apply source_bytes_no_panic|].
  intros e _. destruct (_ <? _); [done|]. apply bind_no_panic; [|done].
  generalize (slen e), (@nil Value). induction Hi as [|i items Hi _ IH]; intros req content; cbn; [done|].
  apply bind_no_panic; [done|]. intros [v|] _; [|apply IH].
  apply bind_no_panic; [apply map_err_no_panic, canonical_json_no_panic|]. intros t _.
  destruct (_ <? _); [done|]. apply IH.
Qed.

Lemma compile_context_no_panic m tz recent om : compile_context m tz recent om <> Panic.
Proof using RL.
  unfold compile_context. destruct (Z.ltb_spec (len tz) CACHE_STABLE_TIER_ZERO_SOURCES) as [|Hlen]; [done|].
  apply bind_no_panic; [apply input_budget_no_panic|]. intros bud _.
  apply bind_no_panic; [apply try_collect_no_panic, source_bytes_no_panic|]. intros bs _.
  apply bind_no_panic.
  { unfold ensure_input_budget. apply bind_no_panic; [apply input_budget_no_panic|]. intros n _. by case_match. }
  intros _ _. apply bind_no_panic.
  { destruct recent; [|done]. apply bind_no_panic; [apply source_bytes_no_panic|done]. }
  intros rb _. apply bind_no_panic.
  { apply try_collect_no_panic. intros [s b]. by destruct (source_object_Ok s b) as [u ->]. }
  intros sources _. destruct (lookup_lt_is_Some_2 tz (Z.to_nat (CACHE_STABLE_TIER_ZERO_SOURCES - 1))) as [x ->].
  { unfold len, CACHE_STABLE_TIER_ZERO_SOURCES in *. lia. }
  cbn [expect mbind result_bind]. apply bind_no_panic; [|done]. apply map_err_no_panic, canonical_json_no_panic.
Qed.

(** An interaction that completed was counted. *)
Definition history_ok (h : ContextHistory) : Prop :=
  is_Some (latest_completed h) -> 1 <= completed_interactions h.

Lemma history_record_ok h e : 0 <= completed_interactions h ->
  history_ok h -> history_ok (history_record h e) /\ 0 <= completed_interactions (history_record h e).
Proof using Type.
  intros Hn Hh. unfold history_record, history_ok in *. destruct (event_type e); try done;
    repeat case_match; cbn; try done; lia.
Qed.

Lemma continuity_no_panic h : history_ok h -> continuity h <> Panic.
Proof using Type.
  intros Hh. unfold continuity. destruct (latest_completed h) as [[[n p] d]|] eqn:E; [|done].
  unfold checked_sub. unfold history_ok in Hh. rewrite E in Hh. specialize (Hh ltac:(by eexists)).
  destruct (Z.leb_spec 1 (completed_interactions h)); [|lia]. cbn [expect mbind result_bind].
  by repeat case_match.
Qed.

Lemma turn_context_no_panic m flow phase eid input inv session h :
  history_ok h -> compile_provider_turn_context r m flow phase eid input inv session h <> Panic.
Proof using RL.
  intros Hh. unfold compile_provider_turn_context, compile_provider_turn_context_with_agent_instructions.
  apply bind_no_panic; [apply validate_scope_no_panic|]. intros _ _.
  apply bind_no_panic; [apply input_budget_no_panic|]. intros bud _.
  apply bind_no_panic.
  { apply bounded_source_no_panic, Forall_map, Forall_forall. intros ref _. unfold instruction_item.
    apply bind_no_panic; [apply ok_or_no_panic|]. intros i _. apply bind_no_panic.
    - unfold instruction_parameter_values. case_match; [done|]. destruct input as [[]|]; try done.
      apply fmap_no_panic, try_collect_no_panic. intros p. apply bind_no_panic; [apply ok_or_no_panic|done].
    - intros vs _. apply bind_no_panic; [apply map_err_no_panic, render_no_panic|done]. }
  intros ins _. apply bind_no_panic.
  { apply bounded_source_no_panic, Forall_map, Forall_forall. intros ref _. unfold tool_item.
    apply bind_no_panic; [apply ok_or_no_panic|done]. }
  intros ts _. apply bind_no_panic; [by apply continuity_no_panic|]. intros [one om] _.
  apply compile_context_no_panic.
Qed.

(** * The stub provider *)

Context (phase : PhaseBlock).
Context (Hins : forall ref, ref ∈ phase_instruction_refs phase -> is_Some (instruction_block r ref)).

Lemma message_content_no_panic refs :
  (forall ref, ref ∈ refs -> is_Some (instruction_block r ref)) -> message_content r refs <> Panic.
Proof using Type.
  clear. induction refs as [|ref refs IH]; intros H; cbn [message_content]; [done|].
  destruct (H ref) as [i ->]; [left|]. cbn [expect mbind result_bind]. case_match; [done|].
  apply IH. intros x Hx. apply H. by right.
Qed.

Lemma stub_content_no_panic text : stub_message_content r phase text <> Panic.
Proof using Hins. unfold stub_message_content. case_match; [done|]. by apply message_content_no_panic. Qed.

Lemma declared_result_no_panic iteration refs :
  (forall ref, ref ∈ refs -> is_Some (instruction_block r ref)) -> declared_result r iteration refs <> Panic.
Proof using RL.
  induction refs as [|ref refs IH]; intros H; cbn [declared_result]; [done|].
  destruct (H ref) as [i ->]; [left|]. cbn [expect mbind result_bind].
  destruct (split_second "fixture-results:" _).
  - apply bind_no_panic; [apply map_err_no_panic, flow_values_parsed|]. intros vs _.
    apply fmap_no_panic, ok_or_no_panic.
  - destruct (split_second "fixture-result:" _); [apply fmap_no_panic, map_err_no_panic, flow_value_parsed|].
    apply IH. intros x Hx. apply H. by right.
Qed.

Lemma stub_value_no_panic c content : stub_value_for_contract c content <> Panic.
Proof using Type.
  induction c as [| |min max|max|items max IH|fields IH] using ValueContract_ind'; cbn; try done.
  apply bind_no_panic; [|done]. induction IH as [|[n q c] fields Hc _ IH]; [done|].
  destruct q; [|exact IH]. apply bind_no_panic; [done|]. intros v _. apply bind_no_panic; [exact IH|done].
Qed.

Lemma phase_result_no_panic iteration input : stub_phase_result r phase iteration input <> Panic.
Proof using RL Hins.
  unfold stub_phase_result. apply bind_no_panic; [by apply declared_result_no_panic|].
  intros [v|] _; [done|]. destruct (option_filter _ input); [done|].
  apply bind_no_panic; [apply stub_content_no_panic|]. intros c _. apply stub_value_no_panic.
Qed.
End transitions.
End values.
