(* ===== verification/PlannerTheory.v ===== *)
(** Planned sessions: every plan is a well-formed, closed stream whose Tools the policy grants, and
    planning a resolved registry never panics. *)

From Stdlib Require Import ZArith Lia Ascii String.
From stdpp Require Import base strings sorting sets option gmap countable list.
From S2P Require Import Prelude Decimal Sorting Metadata Json FlowValue Event Lifecycle.
From S2P Require Import LifecycleTheory Validate ValidateTheory StreamProps.
From S2P Require Import Paths Values ValuesTheory Blocks CanonicalBlock Registry NestingTheory RegistryTheory.
From S2P Require Import Errors EffectTheory PhaseControl PhaseControlTheory Policy PolicyTheory.
From S2P Require Import OwnScript Context ContextTheory Builder BuilderTheory Planner NoPanic.

Open Scope Z_scope.

Section theory.
Context {J : JsonEnv} {R : RuntimeEnv}.

(** * Invariants of the builder through a plan

    An invariant the operations of the builder keep holds of the builder after planning, whatever
    the registry and the policy are.  An effect may be recorded under the next sequence number,
    for a Tool the policy grants in its Phase. *)

(** Events that start or end a Flow, and the marker of a resumption, which planning does not emit. *)
Definition set_apart (t : EventType) : bool :=
  match t with FlowStarted | FlowCompleted | FlowFailed | SessionResumed => true | _ => false end.

Definition flow_boundary_of (flow : FlowBlock) (inv : FlowInvocation) : PlannedFlowFailureBoundary :=
  mkBoundary (id (flow_identity flow)) (invocation_flow_id inv) (invocation_parent_flow_id inv).

(** An event that cannot be emitted is no failure that planning terminalizes. *)
Lemma emit_error_plain inv t p b b' err :
  emit inv t p b = (b', Err err) -> should_terminalize_error err = false.
Proof.
  unfold emit. destruct (MAX_FLOW_EVENTS <? _); [by intros [= _ <-]|]. unfold mbind, eff_bind, lift.
  destruct (clock_timestamp _ _) as [ts|e|] eqn:Hts; [|intros [= _ <-]|done].
  2: { unfold clock_timestamp, ok_or in Hts. case_match; [done|]. by injection Hts as <-. }
  destruct (constructed_new _) as [c|e|]; cbn [map_err]; [|by intros [= _ <-]|done].
  assert (forall b2 b3 cp, accept_event inv c (builder_sequence b + 1) cp b2 = (b3, Err err) ->
    should_terminalize_error err = false) as Ha.
  { intros b2 b3 cp. unfold accept_event. destruct (validate_next _ _) as [v|e|] eqn:Hv; try done.
    intros [= _ <-]. unfold validate_next in Hv. destruct (validation b2); [|done].
    destruct (validate_constructed_event _ _ _) as [st1|e'|]; [done|by injection Hv as <-|done]. }
  unfold take_checkpoint. destruct (bool_decide _); [|by apply Ha].
  destruct (pending_context_manifest b) as [[m o]|]; [by apply Ha|by intros [= _ <-]].
Qed.

Lemma next_flow_error parent b err :
  (next_flow_invocation parent b).2 = Err err -> should_terminalize_error err = false.
Proof. unfold next_flow_invocation. case_match; [|done]. by intros [= <-]. Qed.

Section invariant.
(** The Flows that are running, the outermost first, index the invariant. *)
Context (P : list PlannedFlowFailureBoundary -> RuntimeEventBuilder -> Prop).
Context (allowed : PlannedFailureTransition -> CommandPolicy -> PlannedFixtureEffect -> Prop).
Context (Hemit : forall stack inv t p, set_apart t = false -> keeps (P stack) (emit inv t p)).
Context (Hstart : forall stack flow inv b b', P stack b ->
  validate_alternative_transition b "live invocation failure transition"
    (live_invocation_failure_transition_events stack live_invocation_failure) = Ok tt ->
  emit (Some inv) FlowStarted (flow_started_payload flow) b = (b', Ok tt) ->
  P (stack ++ [flow_boundary_of flow inv]) b').
Context (Hend : forall stack flow inv t p b b', t = FlowCompleted \/ t = FlowFailed ->
  P (stack ++ [flow_boundary_of flow inv]) b -> emit (Some inv) t p b = (b', Ok tt) -> P stack b').
Context (Hflow : forall stack parent, keeps (P stack) (next_flow_invocation parent)).
Context (Hphase : forall stack, keeps (P stack) next_phase_execution_id).
Context (Hmessage : forall stack, keeps (P stack) next_message_id).
Context (Hintent : forall stack inv tool policy, keeps (P stack) (record_tool_intent inv tool policy)).
Context (Hcontext : forall stack m o, keeps (P stack) (record_context_manifest m o)).
Context (Hfixture : forall stack tr policy eff b, allowed tr (policy_command policy) eff ->
  validate_failure_capacity tr b = Ok tt -> P stack b ->
  P stack (record_fixture_action tr policy (builder_sequence b + 1) eff b).1).

(** What the section takes as granted of the Tools. *)
Context (context : FlowEmitContext).
Context (Hallowed : forall ref tr tool command eff progress,
  tool_block (ctx_registry context) ref = Some tool ->
  command_policy_for_phase (ctx_policy context) (ft_phase_id tr) tool = Ok command ->
  ft_tool_id tr = id (tool_identity tool) ->
  compile_fixture_tool_effect tool command = Ok (eff, progress) -> allowed tr command eff).

Section stack.
Context (stack : list PlannedFlowFailureBoundary).
Abbreviation Q := (P stack).

#[local] Hint Extern 1 (keeps _ (emit _ _ _)) => (apply Hemit; reflexivity) : keeps.
#[local] Hint Resolve Hflow Hphase Hmessage Hintent Hcontext : keeps.

Lemma keeps_tool_failure inv f : keeps Q (emit_runtime_tool_failure inv f).
Proof using Hemit. unfold emit_runtime_tool_failure. keeps. Qed.

Lemma keeps_runtime_error inv f : keeps Q (emit_runtime_error inv f).
Proof using Hemit. unfold emit_runtime_error. keeps. Qed.
#[local] Hint Resolve keeps_tool_failure keeps_runtime_error : keeps.

Lemma keeps_complete_phase inv reason : keeps Q (complete_active_phase inv reason).
Proof using Hemit. intros b Hb. unfold complete_active_phase. case_match; [by apply Hemit|done]. Qed.

Lemma keeps_phase_failed inv payload error : keeps Q (emit_phase_failed inv payload error).
Proof using Hemit. unfold emit_phase_failed. keeps. Qed.
#[local] Hint Resolve keeps_complete_phase keeps_phase_failed : keeps.

Lemma keeps_turn flow phase eid inv input content :
  keeps Q (emit_stub_provider_turn context flow phase eid inv input content).
Proof using Hemit Hmessage Hcontext. unfold emit_stub_provider_turn. keeps. Qed.
#[local] Hint Resolve keeps_turn : keeps.

Lemma keeps_tool_success tr policy inv tool eff progress :
  allowed tr (policy_command policy) eff -> keeps Q (emit_tool_success tr policy inv tool eff progress).
Proof using Hemit Hfixture.
  intros Hal b Hb. unfold emit_tool_success. rewrite eff_bind_eq. unfold reads at 1. cbn zeta iota.
  rewrite eff_bind_eq. unfold reads at 1.
  destruct (validate_failure_capacity tr b) as [[]|err|] eqn:Hcap; [|done|done].
  assert ((if is_some progress then builder_sequence b + 1
           else builder_sequence b + 1 + (if is_some progress then 1 else 0)) = builder_sequence b + 1) as ->
    by (destruct (is_some progress); lia).
  match goal with |- P stack ((?m ≫= ?f) b).1 => assert (forall u, keeps Q (f u)) as Hf end.
  { intros ?. unfold emit_tool_progress. keeps. }
  rewrite eff_bind_eq. pose proof (Hfixture stack tr policy eff b Hal Hcap Hb) as Hr.
  destruct (record_fixture_action _ _ _ _ b) as [b1 [u1|err|]]; [by apply Hf|done|done].
Qed.

Lemma keeps_planned_tool anc ancp flow inv phase policy payload ref tool :
  tool_block (ctx_registry context) ref = Some tool ->
  command_policy_for_phase (ctx_policy context) (id (phase_identity phase)) tool = Ok (policy_command policy) ->
  keeps Q (emit_planned_tool anc ancp flow inv phase policy payload tool).
Proof using Hemit Hintent Hfixture Hallowed.
  intros Href Hpol. unfold emit_planned_tool. apply keeps_bind; [apply Hintent|]. intros _.
  apply keeps_bind_Ok. intros [eff progress] Heff.
  apply keeps_bind; [by apply Hemit|]. intros _. apply keeps_bind; [apply keeps_lift|].
  intros [f|]; [apply keeps_ret|]. apply keeps_bind; [|intros _; apply keeps_ret].
  apply keeps_tool_success. by eapply Hallowed.
Qed.

Lemma keeps_tools flow inv anc phase ancp payload refs :
  keeps Q (emit_tools context flow inv anc phase ancp payload refs).
Proof using Hemit Hintent Hfixture Hallowed.
  induction refs as [|ref refs IH]; cbn [emit_tools]; [apply keeps_ret|].
  apply keeps_bind_Ok. intros tool Href%expect_Ok_inv.
  apply keeps_bind_Ok. intros command Hpol. apply keeps_bind.
  - by eapply keeps_planned_tool.
  - intros [f|]; [|done]. keeps.
Qed.
#[local] Hint Resolve keeps_tools : keeps.

Lemma keeps_leaf flow inv anc phase eid iteration ancp input payload :
  keeps Q (emit_leaf_iteration context flow inv anc phase eid iteration ancp input payload).
Proof using Hemit Hmessage Hintent Hcontext Hfixture Hallowed. unfold emit_leaf_iteration. keeps. Qed.

Lemma keeps_iterations inv phase run max remaining iteration input :
  (forall eid i v payload, keeps Q (run eid i v payload)) ->
  keeps Q (phase_iterations context inv phase run max remaining iteration input).
Proof using Hemit Hphase.
  intros Hrun. revert iteration input. induction remaining as [|n IH]; intros iteration input;
    cbn [phase_iterations]; keeps.
Qed.

Lemma keeps_sequence emit_phase refs ts input result_from :
  (forall p v, keeps Q (emit_phase p v)) ->
  keeps Q (emit_phase_sequence (ctx_registry context) emit_phase refs ts input result_from).
Proof using Type.
  intros Hp. unfold emit_phase_sequence. generalize (sequence_new input).
  generalize (Datatypes.S (List.length refs)). induction n as [|n IH]; intros q;
    cbn [emit_phase_sequence_loop]; keeps.
Qed.

Lemma keeps_phase fuel : forall flow inv anc ancp p input,
  keeps Q (emit_phase context flow inv anc fuel ancp p input).
Proof using Hemit Hphase Hmessage Hintent Hcontext Hfixture Hallowed.
  induction fuel as [|fuel IH]; intros flow inv anc ancp p input; cbn [emit_phase]; [apply keeps_lift|].
  apply keeps_iterations. intros eid i v payload. case_match; [|apply keeps_leaf].
  apply keeps_sequence. intros q w. apply IH.
Qed.
End stack.

(** ** Flows

    [leaves Q1 Q2 m]: from a builder with [Q1], [m] returns one with [Q2] or an error that is not
    terminalized. *)

Definition leaves {A} (Q1 Q2 : RuntimeEventBuilder -> Prop) (m : eff RuntimeEventBuilder A) : Prop :=
  forall b, Q1 b ->
    match m b with
    | (b', Ok _) => Q2 b'
    | (_, Err err) => should_terminalize_error err = false
    | (_, Panic) => True
    end.

Lemma leaves_bind {A B} Q1 Q2 Q3 (m : eff RuntimeEventBuilder A) (f : A -> eff RuntimeEventBuilder B) :
  leaves Q1 Q2 m -> (forall a, leaves Q2 Q3 (f a)) -> leaves Q1 Q3 (m ≫= f).
Proof using Type.
  intros Hm Hf b Hb. rewrite eff_bind_eq. specialize (Hm b Hb).
  destruct (m b) as [b1 [a|err|]]; [by apply Hf|done|done].
Qed.

Lemma leaves_emit stack inv t p : set_apart t = false -> leaves (P stack) (P stack) (emit inv t p).
Proof using Hemit.
  intros Ht b Hb. pose proof (Hemit stack inv t p Ht b Hb) as Hk.
  destruct (emit inv t p b) as [b' [u|err|]] eqn:E; [done| |done]. by eapply emit_error_plain.
Qed.

Section one_flow.
Context (stack : list PlannedFlowFailureBoundary) (flow : FlowBlock) (inv : FlowInvocation).
Abbreviation inside := (P (stack ++ [flow_boundary_of flow inv])).

Lemma leaves_flow_failure reason : leaves inside (P stack) (emit_runtime_flow_failure flow inv reason).
Proof using Hend.
  intros b Hb. unfold emit_runtime_flow_failure. destruct (emit _ _ _ b) as [b' [[]|err|]] eqn:E; [| |done].
  - eapply Hend; [by right|exact Hb|exact E].
  - by eapply emit_error_plain.
Qed.

Lemma leaves_runtime_error f : leaves inside inside (emit_runtime_error inv f).
Proof using Hemit. by apply leaves_emit. Qed.

Lemma leaves_runtime_failure f : leaves inside (P stack) (emit_runtime_failure flow inv f).
Proof using Hemit Hend.
  unfold emit_runtime_failure. eapply (leaves_bind inside inside).
  { unfold emit_runtime_tool_failure. destruct (emit_tool_failed f); [|by intros b].
    destruct (failure_tool_id f); [by apply leaves_emit|by intros b]. }
  intros _. eapply leaves_bind; [apply leaves_runtime_error|]. intros _. apply leaves_flow_failure.
Qed.

Lemma leaves_error_failure err : leaves inside (P stack) (emit_runtime_error_failure flow inv err).
Proof using Hemit Hend.
  unfold emit_runtime_error_failure. eapply (leaves_bind inside inside).
  { intros b Hb. unfold complete_active_phase. destruct (_ ≫= last); [by apply leaves_emit|done]. }
  intros _. eapply leaves_bind; [apply leaves_runtime_error|]. intros _. apply leaves_flow_failure.
Qed.

(** How a Flow ends: the builder is outside it again, unless planning stops. *)
Definition flow_ends {A} (Q1 : RuntimeEventBuilder -> Prop) (m : eff RuntimeEventBuilder A)
    (Q2 : A -> RuntimeEventBuilder -> Prop) (Q3 : RuntimeEventBuilder -> Prop) : Prop :=
  forall b, Q1 b ->
    match m b with
    | (b', Ok a) => Q2 a b'
    | (b', Err err) => should_terminalize_error err = true -> Q3 b'
    | (_, Panic) => True
    end.

Lemma ends_terminalize {A} (m : eff RuntimeEventBuilder A) on_error :
  flow_ends inside m (fun _ => inside) inside -> (forall err, leaves inside (P stack) (on_error err)) ->
  flow_ends inside (terminalize m on_error) (fun _ => inside) (P stack).
Proof using Type.
  intros Hm Ho b Hb. specialize (Hm b Hb). unfold terminalize.
  destruct (m b) as [b1 [a|err|]]; [done| |done]. destruct (should_terminalize_error err) eqn:Ht; [|congruence].
  rewrite eff_bind_eq. specialize (Ho err b1 (Hm eq_refl)).
  destruct (on_error err b1) as [b2 [[]|err2|]]; [by intros _| |done]. congruence.
Qed.

(** After a failure the Flow is over. *)
Definition outcome_at (o : ExecutionOutcome) : RuntimeEventBuilder -> Prop :=
  match o with Completed _ => inside | Failed _ => P stack end.

Lemma ends_subflows emit_child refs : forall result,
  (forall f v, flow_ends inside (emit_child f v) (fun _ => inside) inside) ->
  flow_ends inside (emit_subflows context flow inv emit_child refs result) outcome_at (P stack).
Proof using Hend.
  induction refs as [|ref refs IH]; intros result Hc b Hb; cbn [emit_subflows]; [done|].
  rewrite eff_bind_eq. unfold lift at 1. destruct (expect (flow_block _ ref)) as [sub|err|] eqn:Hx; [|by destruct (flow_block _ ref)|done].
  rewrite eff_bind_eq.
  pose proof (ends_terminalize (emit_child sub result)
    (fun err => emit_runtime_flow_failure flow inv (failure_reason (runtime_failure_for_unhandled_error err)))
    (Hc sub result) (fun err => leaves_flow_failure _) b Hb) as H.
  destruct (terminalize _ _ b) as [b1 [[v|f]|err|]]; [by apply IH| |done|done].
  rewrite eff_bind_eq. pose proof (leaves_flow_failure (failure_reason f) b1 H) as Hl.
  destruct (emit_runtime_flow_failure _ _ _ b1) as [b2 [[]|err|]]; [done|congruence|done].
Qed.
End one_flow.

Lemma ends_flow_block fuel pfuel : forall stack flow parent input,
  flow_ends (P stack) (emit_flow_block fuel pfuel context flow parent input stack) (fun _ => P stack) (P stack).
Proof using Hemit Hstart Hend Hflow Hphase Hmessage Hintent Hcontext Hfixture Hallowed.
  induction fuel as [|fuel IH]; intros stack flow parent input b Hb; cbn [emit_flow_block]; [done|].
  rewrite eff_bind_eq. pose proof (Hflow stack parent b Hb) as H0. pose proof (next_flow_error parent b) as He0.
  destruct (next_flow_invocation parent b) as [b0 [inv|err|]]; cbn in H0, He0; [|by rewrite (He0 err)|done].
  rewrite eff_bind_eq. unfold reads at 1.
  destruct (validate_alternative_transition b0 _ _) as [[]|err|] eqn:Hval; [|done|done].
  rewrite eff_bind_eq. destruct (emit _ FlowStarted _ b0) as [b1 [[]|err|]] eqn:Hs; [| |done].
  2: { apply emit_error_plain in Hs. congruence. }
  pose proof (Hstart stack flow inv b0 b1 H0 Hval Hs) as H1. rewrite eff_bind_eq.
  pose proof (ends_terminalize stack flow inv
    (emit_phase_sequence (ctx_registry context) (emit_phase context flow inv stack pfuel [])
       (flow_phase_refs flow) (flow_transitions flow) input None)
    (emit_runtime_error_failure flow inv)) as Ht.
  specialize (Ht ltac:(intros c Hc; pose proof (keeps_sequence (stack ++ [flow_boundary_of flow inv])
    (emit_phase context flow inv stack pfuel []) (flow_phase_refs flow) (flow_transitions flow) input None
    (fun p v => keeps_phase _ pfuel flow inv stack [] p v) c Hc) as Hk;
    by destruct (emit_phase_sequence _ _ _ _ _ _ c) as [c1 [a|e|]]) (leaves_error_failure stack flow inv) b1 H1).
  destruct (terminalize _ _ b1) as [b2 [[v|f]|err|]]; [| |done|done].
  - rewrite eff_bind_eq.
    pose proof (ends_subflows stack flow inv (fun subflow result => emit_flow_block fuel pfuel context subflow
       (Some (invocation_flow_id inv)) result (stack ++ [flow_boundary_of flow inv])) (flow_subflow_refs flow) v
       (fun f w => IH _ f _ w) b2 Ht) as Hsub.
    unfold flow_boundary_of in Hsub.
    destruct (emit_subflows _ _ _ _ _ _ b2) as [b3 [[w|f]|err|]]; [|done|done|done].
    rewrite eff_bind_eq. destruct (emit _ FlowCompleted _ b3) as [b4 [[]|err|]] eqn:Hf; [| |done].
    + eapply (Hend stack flow inv); [by left|exact Hsub|exact Hf].
    + apply emit_error_plain in Hf. congruence.
  - rewrite eff_bind_eq. pose proof (leaves_runtime_failure stack flow inv f b2 Ht) as Hl.
    destruct (emit_runtime_failure _ _ _ b2) as [b3 [[]|err|]]; [done|congruence|done].
Qed.

Lemma finish_plan_Ok t payload failed err b b' ex :
  finish_plan t payload failed err b = (b', Ok ex) ->
  emit None t payload b = (b', Ok tt) /\ ex = into_execution b' failed err.
Proof using Type.
  unfold finish_plan. intros (b1 & [] & He & Hx)%eff_bind_Ok. unfold reads in Hx. by injection Hx as <- <-.
Qed.

(** A plan is the builder after the last event of the session; no Flow is left running. *)
Lemma plan_session_inv root options b b' ex :
  ctx_stub_model_fixture_profile context = option_stub_model_fixture_profile options -> P [] b ->
  plan_session (ctx_registry context) (ctx_policy context) root options b = (b', Ok ex) ->
  exists b1 payload err,
    P [] b1 /\ ex = into_execution b' (exec_failed ex) err /\
    emit None (if exec_failed ex then SessionFailed else SessionCompleted) payload b1 = (b', Ok tt).
Proof using Hemit Hstart Hend Hflow Hphase Hmessage Hintent Hcontext Hfixture Hallowed.
  intros Hstub Hb (b0 & [] & He0 & H)%eff_bind_Ok.
  assert (P [] b0) as Hb0.
  { match type of He0 with emit _ _ ?p _ = _ => pose proof (Hemit [] None SessionStarted p eq_refl b Hb) as Hk end.
    by rewrite He0 in Hk. }
  unfold plan_root_flow in H. rewrite <- Hstub in H.
  replace (mkEmitContext _ _ _) with context in H by (by destruct context).
  pose proof (ends_flow_block flow_fuel phase_fuel [] root None (root_input options) b0 Hb0) as Hk.
  destruct (emit_flow_block _ _ _ _ _ _ _ b0) as [b1 [[v|f]|err|]]; cbn in Hk.
  - apply finish_plan_Ok in H as [H ->]. by eexists b1, _, _.
  - apply finish_plan_Ok in H as [H ->]. by eexists b1, _, _.
  - destruct (should_terminalize_error err); [|done].
    apply finish_plan_Ok in H as [H ->]. specialize (Hk eq_refl). by eexists b1, _, _.
  - done.
Qed.
End invariant.

(** Invariants that do not mention the running Flows. *)
Section flat.
Context (P : RuntimeEventBuilder -> Prop).
Context (allowed : PlannedFailureTransition -> CommandPolicy -> PlannedFixtureEffect -> Prop).
Context (Hemit : forall inv t p, t <> SessionResumed -> keeps P (emit inv t p)).
Context (Hflow : forall parent, keeps P (next_flow_invocation parent)).
Context (Hphase : keeps P next_phase_execution_id).
Context (Hmessage : keeps P next_message_id).
Context (Hintent : forall inv tool policy, keeps P (record_tool_intent inv tool policy)).
Context (Hcontext : forall m o, keeps P (record_context_manifest m o)).
Context (Hfixture : forall tr policy eff b, allowed tr (policy_command policy) eff -> P b ->
  P (record_fixture_action tr policy (builder_sequence b + 1) eff b).1).
Context (context : FlowEmitContext).
Context (Hallowed : forall ref tr tool command eff progress,
  tool_block (ctx_registry context) ref = Some tool ->
  command_policy_for_phase (ctx_policy context) (ft_phase_id tr) tool = Ok command ->
  ft_tool_id tr = id (tool_identity tool) ->
  compile_fixture_tool_effect tool command = Ok (eff, progress) -> allowed tr command eff).

Lemma plan_session_kept root options b b' ex :
  ctx_stub_model_fixture_profile context = option_stub_model_fixture_profile options -> P b ->
  plan_session (ctx_registry context) (ctx_policy context) root options b = (b', Ok ex) ->
  exists b1 payload err,
    P b1 /\ ex = into_execution b' (exec_failed ex) err /\
    emit None (if exec_failed ex then SessionFailed else SessionCompleted) payload b1 = (b', Ok tt).
Proof using Hemit Hflow Hphase Hmessage Hintent Hcontext Hfixture Hallowed.
  apply (plan_session_inv (fun _ => P) allowed); try done.
  - intros ? inv t p Ht. apply Hemit. by intros ->.
  - intros ? flow inv c c' Hc _. eapply keeps_result; [by apply Hemit|done].
  - intros ? flow inv t p c c' Ht Hc. eapply keeps_result; [apply Hemit; by destruct Ht as [->| ->]|done].
  - intros ? tr policy eff c Hal _. by apply Hfixture.
Qed.
End flat.

(** * No panic *)

(** The history of the builder can be compiled. *)
Definition ready (b : RuntimeEventBuilder) : Prop :=
  history_ok (Builder.history b) /\ 0 <= completed_interactions (Builder.history b).

Lemma emit_safe inv t p : safe ready (emit inv t p).
Proof.
  intros b [Hh Hn]. destruct (emit inv t p b) as [b' res] eqn:E. cbn.
  destruct (emit_cases _ _ _ _ _ _ E) as [(c & cp & b0 & v & _ & _ & Htk & _ & -> & ->)|[[->| ->] [err ->]]];
    [|by split_and!..].
  assert (Builder.history b0 = Builder.history b) as Hb by (by destruct Htk).
  split; [|done]. unfold ready. cbn [Builder.history with_event]. rewrite Hb.
  by apply history_record_ok.
Qed.

Lemma next_flow_safe parent : safe ready (next_flow_invocation parent).
Proof. intros b Hb. unfold next_flow_invocation. by case_match. Qed.

Lemma next_phase_safe : safe ready next_phase_execution_id.
Proof. intros b Hb. unfold next_phase_execution_id. by case_match. Qed.

Lemma next_message_safe : safe ready next_message_id.
Proof. by intros b Hb. Qed.

Lemma record_intent_safe inv tool policy : safe ready (record_tool_intent inv tool policy).
Proof.
  intros b Hb. unfold record_tool_intent.
  match goal with |- context [canonical_json ?v] => pose proof (canonical_json_no_panic v) as H;
    destruct (canonical_json v) end; done.
Qed.

Lemma record_fixture_safe tr policy n eff : safe ready (record_fixture_action tr policy n eff).
Proof. by intros b Hb. Qed.

Lemma record_context_safe m o : safe ready (record_context_manifest m o).
Proof.
  intros b Hb. unfold record_context_manifest, ensure_context_manifest_growth_within_limit. destruct (_ <? _); by split_and!.
Qed.

#[local] Hint Resolve emit_safe next_flow_safe next_phase_safe next_message_safe record_intent_safe
  record_fixture_safe record_context_safe : safe.

Ltac safe :=
  repeat first
    [ solve [eauto with safe]
    | match goal with
      | |- safe _ (_ ≫= _) => apply safe_bind; [|intros ?]
      | |- safe _ (match ?x with _ => _ end) => destruct x eqn:?
      end ].

Lemma tool_failure_safe inv f : safe ready (emit_runtime_tool_failure inv f).
Proof. unfold emit_runtime_tool_failure. safe. Qed.

Lemma flow_failure_safe flow inv reason : safe ready (emit_runtime_flow_failure flow inv reason).
Proof. unfold emit_runtime_flow_failure. safe. Qed.

Lemma runtime_error_safe inv f : safe ready (emit_runtime_error inv f).
Proof. unfold emit_runtime_error. safe. Qed.
#[local] Hint Resolve tool_failure_safe flow_failure_safe runtime_error_safe : safe.

Lemma runtime_failure_safe flow inv f : safe ready (emit_runtime_failure flow inv f).
Proof. unfold emit_runtime_failure. safe. Qed.

Lemma complete_phase_safe inv reason : safe ready (complete_active_phase inv reason).
Proof. intros b Hb. unfold complete_active_phase. case_match; [by apply emit_safe|done]. Qed.
#[local] Hint Resolve runtime_failure_safe complete_phase_safe : safe.

Lemma error_failure_safe flow inv err : safe ready (emit_runtime_error_failure flow inv err).
Proof. unfold emit_runtime_error_failure. safe. Qed.

Lemma phase_failed_safe inv payload error :
  is_object payload = true -> safe ready (emit_phase_failed inv payload error).
Proof.
  intros Hp. unfold emit_phase_failed. apply safe_bind; [by apply safe_lift, with_error_no_panic|].
  intros v. safe.
Qed.

Lemma terminalize_safe {A} (m : eff RuntimeEventBuilder A) on_error :
  safe ready m -> (forall err, safe ready (on_error err)) -> safe ready (terminalize m on_error).
Proof.
  intros Hm Ho b Hb. unfold terminalize. destruct (Hm b Hb) as (H1 & H2 & _).
  destruct (m b) as [b1 [a|err|]]; cbn in *; [done| |done].
  destruct (should_terminalize_error err); [|done].
  assert (safe ready (_ ← on_error err; lift (A:=A) (Err err))) as H by safe. by apply H.
Qed.

Section registry.
Context {RL : RuntimeLaws} (context : FlowEmitContext) (Hr : registry_ok (ctx_registry context)).
Abbreviation r := (ctx_registry context).

Section phases.
Context (flow : FlowBlock) (inv : FlowInvocation) (anc : list PlannedFlowFailureBoundary).

Lemma instruction_resolves k p ref :
  phases r !! k = Some p -> ref ∈ phase_instruction_refs p -> is_Some (instruction_block r ref).
Proof using Hr.
  intros Hk Hin. destruct (po_instructions _ _ (ro_phases _ Hr k p Hk) ref Hin) as [i Hi].
  exists i. unfold instruction_block, named_block. by rewrite Hi.
Qed.

Lemma tool_resolves k p ref :
  phases r !! k = Some p -> ref ∈ phase_tool_refs p -> is_Some (tool_block r ref).
Proof using Hr.
  intros Hk Hin. destruct (po_tools _ _ (ro_phases _ Hr k p Hk) ref Hin) as [t Ht].
  exists t. unfold tool_block, named_block. by rewrite Ht.
Qed.

Lemma turn_safe k p eid input content :
  phases r !! k = Some p -> safe ready (emit_stub_provider_turn context flow p eid inv input content).
Proof using Hr RL.
  intros Hk. unfold emit_stub_provider_turn. eapply triple_bind.
  { apply (triple_reads ready _ (fun _ => True)). intros b [Hh _]. split; [|done]. by apply turn_context_no_panic. }
  intros c _. apply safe_bind.
  { apply safe_lift. destruct content; [done|]. apply stub_content_no_panic. intros ref. by eapply instruction_resolves. }
  intros text. safe.
Qed.

Lemma tool_success_safe tr policy tool eff progress :
  payloads_are_objects tr -> safe ready (emit_tool_success tr policy inv tool eff progress).
Proof using Type.
  intros Ho. unfold emit_tool_success. apply safe_bind; [by apply triple_reads|]. intros n.
  apply safe_bind.
  { apply triple_reads. intros b _. split; [|done]. by apply failure_capacity_no_panic. }
  intros _. unfold emit_tool_progress. safe.
Qed.

Lemma planned_tool_safe ancp p policy payload tool :
  is_object payload = true -> Forall (fun v => is_object v = true) ancp ->
  safe ready (emit_planned_tool anc ancp flow inv p policy payload tool).
Proof using Type.
  intros Hp Ha. unfold emit_planned_tool. apply safe_bind; [safe|]. intros _.
  apply safe_bind; [apply safe_lift, tool_effect_no_panic|]. intros [eff progress].
  apply safe_bind; [safe|]. intros _. apply safe_bind; [apply safe_lift, dispatch_no_panic|].
  intros [f|]; [safe|]. apply safe_bind; [by apply tool_success_safe|]. intros _. safe.
Qed.

Lemma tools_safe p ancp payload refs :
  is_object payload = true -> Forall (fun v => is_object v = true) ancp ->
  (forall ref, ref ∈ refs -> is_Some (tool_block r ref)) ->
  safe ready (emit_tools context flow inv anc p ancp payload refs).
Proof using Type.
  intros Hp Ha. induction refs as [|ref refs IH]; intros Hrefs; cbn [emit_tools]; [safe|].
  destruct (Hrefs ref) as [tool ->]; [left|]. apply safe_bind; [by apply safe_lift|]. intros t.
  apply safe_bind; [apply safe_lift, command_policy_no_panic|]. intros c.
  apply safe_bind; [by apply planned_tool_safe|]. intros [f|]; [safe|].
  apply IH. intros x Hx. apply Hrefs. by right.
Qed.

Lemma leaf_safe k p eid i ancp input payload :
  phases r !! k = Some p -> is_object payload = true -> Forall (fun v => is_object v = true) ancp ->
  safe ready (emit_leaf_iteration context flow inv anc p eid i ancp input payload).
Proof using Hr RL.
  intros Hk Hp Ha. unfold emit_leaf_iteration. destruct (sandbox_out_of_phase_failure _ _); [safe|].
  apply safe_bind; [by eapply turn_safe|]. intros _. apply safe_bind.
  { destruct (stub_provider_requests_tools _ _); [|safe]. apply safe_bind.
    - apply tools_safe; [done..|]. intros ref. by eapply tool_resolves.
    - intros [f|]; [safe|]. apply safe_bind; [by eapply turn_safe|]. intros _. safe. }
  intros [f|]; [safe|]. apply safe_bind; [|intros v; safe].
  apply safe_lift, phase_result_no_panic. intros ref. by eapply instruction_resolves.
Qed.

Lemma entered_no_panic k p eid i : phases r !! k = Some p -> phase_entered_payload r p eid i <> Panic.
Proof using Hr.
  intros Hk. unfold phase_entered_payload.
  assert (forall refs, (forall ref, ref ∈ refs -> is_Some (instruction_block r ref)) ->
    try_collect (fun ref => instruction ← expect (E := RuntimeError) (instruction_block r ref);
      Ok (JString (id (instruction_identity instruction)))) refs <> Panic) as Hi.
  { clear. induction refs as [|ref refs IH]; intros H; cbn; [done|]. destruct (H ref) as [x ->]; [left|].
    cbn [expect mbind result_bind]. apply bind_no_panic; [|done]. apply IH. intros y Hy. apply H. by right. }
  assert (forall refs, (forall ref, ref ∈ refs -> is_Some (tool_block r ref)) ->
    try_collect (fun ref => tool ← expect (E := RuntimeError) (tool_block r ref);
      Ok (JString (id (tool_identity tool)))) refs <> Panic) as Ht.
  { clear. induction refs as [|ref refs IH]; intros H; cbn; [done|]. destruct (H ref) as [x ->]; [left|].
    cbn [expect mbind result_bind]. apply bind_no_panic; [|done]. apply IH. intros y Hy. apply H. by right. }
  apply bind_no_panic; [apply Hi; intros ref; by eapply instruction_resolves|]. intros ins _.
  apply bind_no_panic; [apply Ht; intros ref; by eapply tool_resolves|done].
Qed.

Lemma should_repeat_no_panic k p v :
  phases r !! k = Some p -> validate_flow_value_against_contract v (phase_output p) = Ok tt ->
  phase_should_repeat v (phase_loop p) <> Panic.
Proof using Hr.
  intros Hk Hv. unfold phase_should_repeat. destruct (phase_loop p) as [l|] eqn:Hl; [|done].
  destruct (po_loop _ _ (ro_phases _ Hr k p Hk) l Hl) as [_ Hc].
  by rewrite (predicate_matches_checked _ _ _ Hc Hv).
Qed.

Lemma iterations_triple k p run max remaining : forall iteration input,
  phases r !! k = Some p ->
  (forall eid i v payload, is_object payload = true -> safe ready (run eid i v payload)) ->
  iteration + Z.of_nat remaining = max + 1 -> iteration <= max ->
  triple ready (phase_iterations context inv p run max remaining iteration input) (respects p).
Proof using Hr.
  induction remaining as [|n IH]; intros iteration input Hk Hrun Hsum Hle; [lia|]. cbn [phase_iterations].
  eapply triple_bind; [apply next_phase_safe|]. intros eid _.
  eapply triple_bind; [by apply safe_lift, (entered_no_panic k)|]. intros entered _.
  eapply triple_bind; [apply emit_safe|]. intros _ _.
  eapply triple_bind; [by apply Hrun|]. intros [[v|]|f] _.
  - eapply (triple_bind ready _ _ (fun _ => validate_flow_value_against_contract v (phase_output p) = Ok tt)).
    { apply triple_lift; [apply map_err_no_panic, against_contract_no_panic|].
      intros []. by destruct (validate_flow_value_against_contract _ _) as [[]| |]. }
    intros _ Hv. eapply triple_bind; [by apply safe_lift, (should_repeat_no_panic k)|]. intros rep _.
    destruct (rep && (iteration =? max)) eqn:Elim.
    + eapply triple_bind; [by apply phase_failed_safe|]. intros _ _. apply triple_ret. by intros w [=].
    + eapply triple_bind; [apply emit_safe|]. intros _ _. destruct rep; cbn [negb].
      * apply IH; [done..|lia|]. cbn in Elim. lia.
      * apply triple_ret. by intros w [= <-].
  - apply triple_lift; [done|]. by intros o [=].
  - eapply triple_bind; [by apply phase_failed_safe|]. intros _ _. apply triple_ret. by intros w [=].
Qed.

Lemma sequence_safe emit_phase refs ts input result_from :
  sequence_ok r refs ts result_from -> phase_respects r emit_phase refs ready ->
  safe ready (emit_phase_sequence r emit_phase refs ts input result_from).
Proof using Type.
  intros Hseq Hp b Hb. pose proof (sequence_spec r emit_phase refs ts result_from input ready b Hseq Hp Hb) as H.
  destruct (emit_phase_sequence _ _ _ _ _ _ b) as [b' out]. destruct H as (H1 & H2 & _). done.
Qed.

Lemma phase_triple fuel : forall ancp k p input,
  phases r !! k = Some p -> (forall n, phase_chain r k n -> n <= Z.of_nat fuel) ->
  Forall (fun v => is_object v = true) ancp ->
  triple ready (emit_phase context flow inv anc fuel ancp p input) (respects p).
Proof using Hr RL.
  induction fuel as [|fuel IH]; intros ancp k p input Hk Hd Ha.
  { specialize (Hd 1 (phase_chain_one r k p Hk)). lia. }
  cbn [emit_phase]. pose proof (ro_phases _ Hr k p Hk) as Hp.
  assert (1 <= match phase_loop p with Some config => loop_max_iterations config | None => 1 end) as Hmax.
  { destruct (phase_loop p) as [l|] eqn:El; [|lia]. destruct (po_loop _ _ Hp l El). lia. }
  eapply iterations_triple; [done| |lia|lia]. intros eid i v payload Hpay.
  destruct (bool_decide_reflect (phase_phase_refs p = [])) as [He|He]; cbn [negb]; [by eapply leaf_safe|].
  apply sequence_safe; [apply (po_sequence _ _ Hp)|]. intros ref q w Hin Hq. eapply IH; [done| |].
  - intros n Hn. specialize (Hd _ (phase_chain_more r k p ref n Hk Hin Hn)). lia.
  - apply Forall_app. split; [done|]. by repeat constructor.
Qed.
End phases.

Lemma subflows_safe flow inv emit_child refs : forall result,
  (forall ref, ref ∈ refs -> exists f, flows r !! ref = Some f /\ forall v, safe ready (emit_child f v)) ->
  safe ready (emit_subflows context flow inv emit_child refs result).
Proof using Type.
  induction refs as [|ref refs IH]; intros result H; cbn [emit_subflows]; [safe|].
  destruct (H ref) as (f & Hf & Hs); [left|]. rewrite (flow_block_id r ref f Hf).
  eapply (triple_bind ready _ _ (fun g => g = f)); [by apply triple_lift; [|intros ? [= <-]]|].
  intros g ->. apply safe_bind.
  { apply terminalize_safe; [apply Hs|]. intros err. apply flow_failure_safe. }
  intros [v|e]; [|safe]. apply IH. intros x Hx. apply H. by right.
Qed.

Lemma flow_block_safe fuel : forall k flow parent input anc,
  flows r !! k = Some flow -> (forall n, flow_chain r k n -> n <= Z.of_nat fuel) ->
  safe ready (emit_flow_block fuel phase_fuel context flow parent input anc).
Proof using Hr RL.
  induction fuel as [|fuel IH]; intros k flow parent input anc Hk Hd.
  { specialize (Hd 1 (flow_chain_one r k flow Hk)). lia. }
  cbn [emit_flow_block]. pose proof (ro_flows _ Hr k flow Hk) as Hf.
  apply safe_bind; [safe|]. intros inv. apply safe_bind.
  { apply triple_reads. intros b _. split; [|done]. apply alternatives_no_panic. }
  intros _. apply safe_bind; [safe|]. intros _. apply safe_bind.
  { apply terminalize_safe; [|intros err; apply error_failure_safe].
    apply sequence_safe; [apply (fo_sequence _ _ Hf)|]. intros ref p v Hin Hp.
    eapply phase_triple; [done| |constructor]. intros n Hn. apply (ro_phase_depth _ Hr) in Hn.
    change (Z.of_nat phase_fuel) with 16. done. }
  intros [result|f]; [|safe]. apply safe_bind; [|intros [v|e]; safe].
  apply subflows_safe. intros ref Hin. destruct (fo_subflows _ _ Hf ref Hin) as [g Hg].
  exists g. split; [done|]. intros v. eapply IH; [done|].
  intros n Hn. specialize (Hd _ (flow_chain_more r k flow ref n Hk Hin Hn)). lia.
Qed.
End registry.
End theory.
