(* ===== verification/PlanProps.v ===== *)
(** Plans ([flow-agent-core/src/runtime/planning.rs]): a plan is a closed session whose Tools the
    policy grants, planning a resolved registry never panics, and one failure that planning does
    not terminalize. *)

From Stdlib Require Import ZArith Lia Ascii String.
From stdpp Require Import base strings sorting sets option gmap countable list.
From S2P Require Import Prelude Decimal Sorting Metadata Json FlowValue Event Lifecycle.
From S2P Require Import LifecycleTheory Validate ValidateTheory StreamProps.
From S2P Require Import Paths Values ValuesTheory Blocks CanonicalBlock Registry NestingTheory RegistryTheory.
From S2P Require Import Errors EffectTheory PhaseControl PhaseControlTheory Policy PolicyTheory.
From S2P Require Import OwnScript OwnScriptTheory Context ContextTheory.
From S2P Require Import Builder BuilderTheory Planner NoPanic PlannerTheory.

Open Scope Z_scope.

Section theory.
Context {J : JsonEnv} {R : RuntimeEnv}.

(** The events of a plan, with their lines. *)
Definition plan_constructed (ex : RuntimeExecution) : list ConstructedRuntimeEvent :=
  map action_event (omap emitted_action (exec_actions ex)).
Definition plan_events (ex : RuntimeExecution) : list EventEnvelope :=
  map constructed_event (plan_constructed ex).

(** * Closed sessions *)

(** A stream of one session that ended: [failed] says how, [sig] is its signature. *)
Record stream_closed (session : string) (cs : list ConstructedRuntimeEvent) (failed : bool)
    (sig : RuntimeStreamSignature) : Prop := {
  pc_stream : stream_wf (Some session) (map constructed_event cs);
  pc_order : forall pre e post, map constructed_event cs = pre ++ e :: post -> in_order pre e;
  pc_end : exists e, last (map constructed_event cs) = Some e /\
    event_type e = if failed then SessionFailed else SessionCompleted;
  pc_flows : forall f, f ∈ omap started_flow (map constructed_event cs) ->
    f ∈ omap ended_flow (map constructed_event cs);
  pc_phases : forall x, x ∈ omap entered_phase (map constructed_event cs) ->
    x ∈ omap ended_phase (map constructed_event cs);
  pc_messages : forall m, m ∈ omap (message_of MessageDelta) (map constructed_event cs) ->
    m ∈ omap (message_of MessageCompleted) (map constructed_event cs);
  pc_tools_ended : forall t, t ∈ tools_of is_tool_start (map constructed_event cs) ->
    t ∈ tools_of is_tool_end (map constructed_event cs);
  pc_tools : exists st, stream_run (new_state (Some session)) (map sized cs) st /\
    active (Lifecycle.tools (lifecycle st)) = ∅;
  pc_signature : sig = signature (foldl signature_push (signature_new EVENT_PLAN_DOMAIN) (map constructed_jsonl cs));
}.

Definition plan_closed (session : string) (ex : RuntimeExecution) : Prop :=
  stream_closed session (plan_constructed ex) (exec_failed ex) (exec_events ex).

Lemma emit_last inv t p b b' :
  emit inv t p b = (b', Ok tt) -> exists c, emitted b' = emitted b ++ [c] /\ event_type (constructed_event c) = t.
Proof.
  intros [(c & cp & b0 & v & _ & Hc & Htk & _ & -> & _)|[_ [err [=]]]]%emit_cases.
  exists c. rewrite emitted_event. destruct Hc as [ts line Hts e Hline]. split.
  - unfold emitted, emitted_actions. by destruct (takes_fields _ _ _ _ Htk) as (_ & _ & -> & _).
  - cbn. unfold e. apply runtime_event_type.
Qed.

(** A builder whose last event ended the session holds a closed stream. *)
Lemma emitted_closed session b1 b' (failed : bool) payload :
  builder_sound session b1 ->
  emit None (if failed then SessionFailed else SessionCompleted) payload b1 = (b', Ok tt) ->
  stream_closed session (emitted b') failed (signature (events b')).
Proof.
  intros Hb1 He. destruct (emit_last _ _ _ _ _ He) as (c & Hc & Ht).
  assert (builder_sound session b') as Hb' by (eapply keeps_result; [apply emit_keeps|exact Hb1|exact He]).
  pose proof (builder_sound_wf _ _ Hb') as [Hw Ho _ _ _ _ _]. destruct Hb' as [st Hok].
  fold (emitted_events b').
  assert (map fst (map sized (emitted b')) = emitted_events b') as Hfst by (by rewrite map_map).
  assert (last (emitted_events b') = Some (constructed_event c)) as Hl.
  { unfold emitted_events. rewrite Hc, map_app. apply last_snoc. }
  assert (is_session_end (event_type (constructed_event c)) = true) as Hend
    by (rewrite Ht; by destruct failed).
  destruct (run_ended_closed _ _ _ (constructed_event c) (bo_run _ _ _ Hok)) as (Hf & Hp & Hm & Htl & Hcl);
    [rewrite Hfst; by apply last_Some_elem_of|done|]. cbn zeta in *. rewrite Hfst in *.
  constructor; [done|done|by exists (constructed_event c)|done|done|done|done| |].
  - exists st. split; [apply (bo_run _ _ _ Hok)|apply Hcl].
  - by rewrite (bo_events _ _ _ Hok).
Qed.

Lemma emitted_plan_closed session b1 b' ex payload err :
  builder_sound session b1 -> ex = into_execution b' (exec_failed ex) err ->
  emit None (if exec_failed ex then SessionFailed else SessionCompleted) payload b1 = (b', Ok tt) ->
  plan_closed session ex.
Proof.
  intros Hb1 Hex He. pose proof (emitted_closed _ _ _ _ _ Hb1 He) as H. unfold plan_closed.
  assert (plan_constructed ex = emitted b') as -> by (by rewrite Hex).
  by replace (exec_events ex) with (signature (events b')) by (by rewrite Hex).
Qed.

(** A compiled plan is what a sound builder holds after the event that ends the session. *)
Lemma compiled_built registry policy root session options ex :
  compile_flow_plan registry policy root session options = Ok ex ->
  exists b1 b' payload err, builder_sound session b1 /\ ex = into_execution b' (exec_failed ex) err /\
    emit None (if exec_failed ex then SessionFailed else SessionCompleted) payload b1 = (b', Ok tt).
Proof.
  unfold compile_flow_plan. destruct (plan_session _ _ _ _ _) as [b' res] eqn:E. cbn. intros ->.
  pose (context := mkEmitContext registry policy (option_stub_model_fixture_profile options)).
  destruct (plan_session_kept (builder_sound session) (fun _ _ _ => True) (fun inv t p _ => emit_keeps session inv t p)
    (next_flow_keeps session) (next_phase_keeps session) (next_message_keeps session)
    (record_intent_keeps session) (record_context_keeps session)
    (fun tr policy eff b _ H => record_fixture_keeps session tr policy _ eff b H)
    context (fun _ _ _ _ _ _ _ _ _ _ => I) root options _ b' ex eq_refl
    (ex_intro _ _ (builder_ok_new session _)) E) as (b1 & payload & err & Hb1 & Hex & He).
  by exists b1, b', payload, err.
Qed.

Lemma compiled_closed registry policy root session options ex :
  compile_flow_plan registry policy root session options = Ok ex -> plan_closed session ex.
Proof. intros (b1 & b' & payload & err & Hb1 & Hex & He)%compiled_built. by eapply emitted_plan_closed. Qed.

Lemma compiled_sound registry policy root session options ex :
  compile_flow_plan registry policy root session options = Ok ex ->
  exists b st, builder_ok session b st /\ exec_actions ex = actions b /\ exec_events ex = signature (events b) /\
    exec_context_manifests ex = signature (context_manifests b).
Proof.
  intros (b1 & b' & payload & err & Hb1 & Hex & He)%compiled_built.
  destruct (keeps_result _ _ _ _ _ (emit_keeps session _ _ _) Hb1 He) as [st Hok]. exists b', st. rewrite Hex. by split_and!.
Qed.

(** C4: whatever registry, policy and options a session is planned from, a plan is a complete
    session: its events are a well-formed stream in order, the last one says whether the session
    failed as the plan does, every flow that is started ends, every phase that is entered ends,
    every message completes and no tool is left running; the signature of the plan is that of
    these lines. *)
Theorem plan_stream_closed registry policy root session options ex :
  compile_flow_plan registry policy root session options = Ok ex -> plan_closed session ex.
Proof. apply compiled_closed. Qed.

(** * Tools *)

(** A Tool of the Flow, with the command its policy gives it, and an effect that writes, if
    anything, a safe path. *)
Record tool_allowed (r : ResolvedRegistry) (flow : FlowBlock) (tr : PlannedFailureTransition)
    (command : CommandPolicy) (eff : PlannedFixtureEffect) : Prop := {
  ta_granted : granted r (id (flow_identity flow)) (ft_phase_id tr) (ft_tool_id tr);
  ta_command : exists tool, tools r !! ft_tool_id tr = Some tool /\ command_policy_from_tool tool = Ok command;
  ta_write : forall progress w, eff = EffectOwnScript progress (Some w) -> safe_path (write_target w);
}.

(** Every effect is planned under the sequence number of the event that follows it. *)
Definition fixtures_ok (allowed : PlannedFailureTransition -> CommandPolicy -> PlannedFixtureEffect -> Prop)
    (l : list FlowExecutionAction) : Prop :=
  forall pre a post, l = pre ++ ActionFixture a :: post ->
    completion_sequence a = len (omap emitted_action pre) + 1 /\
    allowed (failure_transition a) (fixture_command_policy a) (effect a).

Section fixtures.
Context (allowed : PlannedFailureTransition -> CommandPolicy -> PlannedFixtureEffect -> Prop).

Lemma fixtures_ok_event l e : fixtures_ok allowed l -> fixtures_ok allowed (l ++ [ActionEvent e]).
Proof.
  intros H pre a post Hl. destruct post as [|x post _] using rev_ind.
  - apply app_inj_tail in Hl as [_ [=]].
  - rewrite app_comm_cons, app_assoc in Hl. apply app_inj_tail in Hl as [Hl _]. by eapply H.
Qed.

Lemma fixtures_ok_fixture l a :
  completion_sequence a = len (omap emitted_action l) + 1 ->
  allowed (failure_transition a) (fixture_command_policy a) (effect a) ->
  fixtures_ok allowed l -> fixtures_ok allowed (l ++ [ActionFixture a]).
Proof.
  intros Hseq Hal H pre x post Hl. destruct post as [|y post _] using rev_ind.
  - by apply app_inj_tail in Hl as [<- [= <-]].
  - rewrite app_comm_cons, app_assoc in Hl. apply app_inj_tail in Hl as [Hl _]. by eapply H.
Qed.

Definition planned_sound (session : string) (b : RuntimeEventBuilder) : Prop :=
  builder_sound session b /\ fixtures_ok allowed (actions b).

Lemma planned_sound_same session {A} (m : eff RuntimeEventBuilder A) :
  keeps (builder_sound session) m -> (forall b, actions (m b).1 = actions b) ->
  keeps (planned_sound session) m.
Proof. intros Hm Ha b [Hb Hf]. split; [by apply Hm|]. by rewrite Ha. Qed.

Lemma emit_planned_sound session inv t p : keeps (planned_sound session) (emit inv t p).
Proof.
  intros b [Hb Hf]. split; [by apply emit_keeps|].
  destruct (emit inv t p b) as [b' res] eqn:E. cbn.
  destruct (emit_cases _ _ _ _ _ _ E) as [(c & cp & b0 & v & _ & _ & Htk & _ & -> & _)|[[->| ->] _]];
    [|done|done].
  cbn [actions with_event]. destruct (takes_fields _ _ _ _ Htk) as (_ & _ & -> & _).
  by apply fixtures_ok_event.
Qed.

Lemma fixture_planned_sound session tr policy eff b :
  allowed tr (policy_command policy) eff -> planned_sound session b ->
  planned_sound session (record_fixture_action tr policy (builder_sequence b + 1) eff b).1.
Proof.
  intros Hal [Hb Hf]. split; [by apply record_fixture_keeps|]. cbn [record_fixture_action fst actions with_plan].
  apply fixtures_ok_fixture; [|done|done]. destruct Hb as [st Hok]. cbn.
  rewrite (bo_sequence _ _ _ Hok). unfold len, emitted, emitted_actions. by rewrite length_map.
Qed.
End fixtures.

Lemma tool_block_key r ref tool :
  registry_ok r -> tool_block r ref = Some tool -> tools r !! id (tool_identity tool) = Some tool.
Proof.
  intros Hr H. assert (exists k, tools r !! k = Some tool) as [k Hk].
  { unfold tool_block, named_block in H. destruct (tools r !! ref) eqn:E; [injection H as ->; by eexists|].
    apply bind_Some in H as (k & _ & Hk). by exists k. }
  by rewrite (ro_tool_ids _ Hr k tool Hk).
Qed.

Lemma effect_write tool command progress w p :
  compile_fixture_tool_effect tool command = Ok (EffectOwnScript progress (Some w), p) ->
  safe_path (write_target w).
Proof.
  unfold compile_fixture_tool_effect. destruct (tool_kind tool), (tool_command tool); try done;
    intros (x & Hx & [= ])%bind_Ok_inv. subst. by eapply plan_own_script_target.
Qed.

(** C26: planning with the policy compiled for a Flow plans no effect that the Flow does not
    declare: each belongs to a Phase of the Flow or its Subflows that declares the Tool, runs the
    command the policy derives from that Tool, writes only a safe relative path, and is recorded
    under the sequence number of the event that reports it. *)
Theorem planned_tools_granted pattern_error registry flow_ref flow policy root session options ex :
  registry_ok registry -> compile_policy_artifact pattern_error registry flow_ref = Ok policy ->
  flow_block registry flow_ref = Some flow ->
  compile_flow_plan registry policy root session options = Ok ex ->
  fixtures_ok (tool_allowed registry flow) (exec_actions ex).
Proof.
  intros Hr Hp Hf. unfold compile_flow_plan. destruct (plan_session _ _ _ _ _) as [b' res] eqn:E. cbn. intros ->.
  pose (context := mkEmitContext registry policy (option_stub_model_fixture_profile options)).
  destruct (plan_session_kept (planned_sound (tool_allowed registry flow) session) (tool_allowed registry flow)
    (fun inv t p _ => emit_planned_sound _ session inv t p)) with (context := context) (root := root) (options := options)
    (b := with_clock session (option_clock options) true) (b' := b') (ex := ex)
    as (b1 & payload & err & Hb1 & Hex & He); try done.
  - intros parent. apply planned_sound_same; [apply next_flow_keeps|]. intros b. unfold next_flow_invocation. by case_match.
  - apply planned_sound_same; [apply next_phase_keeps|]. intros b. unfold next_phase_execution_id. by case_match.
  - by apply planned_sound_same; [apply next_message_keeps|].
  - intros inv tool pol. apply planned_sound_same; [apply record_intent_keeps|]. intros b.
    unfold record_tool_intent. by case_match.
  - intros m o. apply planned_sound_same; [apply record_context_keeps|]. intros b.
    unfold record_context_manifest. by case_match.
  - intros tr pol eff b. apply fixture_planned_sound.
  - intros ref tr tool command eff progress Href Hcmd Hid Heff.
    apply (tool_block_key registry) in Href; [|done]. rewrite <- Hid in Href.
    pose proof (grants_exactly registry Hr pattern_error flow_ref flow policy (ft_phase_id tr) _ tool Hp Hf Href) as Hg.
    cbn in Hcmd. rewrite Hcmd in Hg. destruct Hg as [Hg Hc]. constructor; [done|by exists tool|].
    intros pr w ->. by eapply effect_write.
  - split; [eexists; apply builder_ok_new|]. intros pre a post Hnil. by destruct pre.
  - rewrite Hex. cbn. eapply keeps_result in He; [|apply emit_planned_sound|exact Hb1]. apply He.
Qed.

(** * No panic *)

Lemma plan_session_safe {RL : RuntimeLaws} registry policy k root options :
  registry_ok registry -> flows registry !! k = Some root ->
  safe ready (plan_session registry policy root options).
Proof.
  intros Hr Hk. unfold plan_session. apply safe_bind; [apply emit_safe|]. intros _ b Hb. unfold plan_root_flow.
  assert (forall t v f e, safe ready (finish_plan t v f e)) as Hfin.
  { intros t v f e. unfold finish_plan. apply safe_bind; [apply emit_safe|]. intros _. by apply triple_reads. }
  pose (context := mkEmitContext registry policy (option_stub_model_fixture_profile options)). fold context.
  destruct (flow_block_safe context Hr flow_fuel k root None (root_input options) []) with (s := b)
    as (H1 & H2 & _); [done| |done|].
  { intros n Hn. by apply (ro_flow_depth _ Hr) in Hn. }
  destruct (emit_flow_block _ _ _ _ _ _ _ b) as [b1 [[v|f]|err|]]; cbn in H1, H2;
    [by apply Hfin|by apply Hfin| |done].
  destruct (should_terminalize_error err); [by apply Hfin|]. by split_and!.
Qed.

(** C25: planning a registered Flow of a registry that resolves never panics, whatever the policy,
    the input and the options: every reference found while it was resolved is still there, no
    Phase or Flow nests deeper than the recursion, loops end before their [unreachable!], and
    predicates, own scripts, contexts and payloads are handled without one. *)
Theorem planning_never_panics {RL : RuntimeLaws} pattern_error to_value of_str blocks registry policy
    flow_ref root session options :
  reads_normalized of_str -> from_blocks pattern_error to_value of_str blocks = Ok registry ->
  flow_block registry flow_ref = Some root ->
  plan_flow registry policy root session options <> Panic.
Proof.
  intros Hn Hb Hf. assert (registry_ok registry) as Hr by (by eapply from_blocks_registry_ok).
  assert (exists k, flows registry !! k = Some root) as [k Hk].
  { unfold flow_block, named_block in Hf. destruct (flows registry !! flow_ref) eqn:E; [injection Hf as ->; by eexists|].
    apply bind_Some in Hf as (k & _ & Hk). by exists k. }
  unfold plan_flow, compile_flow_plan. destruct (side_effect_mode options); try done.
  apply (plan_session_safe registry policy k root options Hr Hk). split; [|done]. by intros [? [=]].
Qed.

(** * Failures of nested Phases *)

(** The end of a Flow needs all its Phases ended. *)
Lemma flow_failed_no_phases session b st inv p b' :
  builder_ok session b st -> emit (Some inv) FlowFailed p b = (b', Ok tt) ->
  forall l, active_phase_payloads b !! invocation_flow_id inv = Some l -> l = [].
Proof.
  intros Hok (c & st' & Ht & Hf & Hv & _ & _)%(emit_ok session b st); [|done]. intros l Hl.
  pose proof (event_stream_step st c st' Hv) as Hstep. apply step_accepted, ac_lifecycle in Hstep.
  unfold lifecycle_validate_event in Hstep. rewrite Ht in Hstep. inv_ok.
  apply validate_flow_end_Ok in Hstep as (f & Hf' & Hp & _). rewrite Hf in Hf'. injection Hf' as <-.
  pose proof (bo_phases _ _ _ Hok (invocation_flow_id inv)) as Hm. rewrite Hl in Hm.
  unfold active_phase in Hp. destruct (active_phases (lifecycle st) !! _) as [stack|]; [|discriminate Hm].
  cbn in Hp, Hm. injection Hm as Hm. apply last_None in Hp as ->. by destruct l.
Qed.

(** C37: when an error must be terminalized while two or more Phases of a Flow are open, as in a
    child of a composite Phase, the events that should end the Flow are refused: only the
    innermost Phase is failed, and a Flow does not end before its Phases do. *)
Theorem nested_failure_refused session b flow inv err payloads :
  builder_sound session b -> active_phase_payloads b !! invocation_flow_id inv = Some payloads ->
  2 <= len payloads -> (emit_runtime_error_failure flow inv err b).2 <> Ok tt.
Proof.
  intros [st Hok] Hp Hlen. destruct (emit_runtime_error_failure flow inv err b) as [b' res] eqn:E. cbn. intros ->.
  unfold emit_runtime_error_failure in E. apply eff_bind_Ok in E as (b1 & [] & H1 & E).
  apply eff_bind_Ok in E as (b2 & [] & H2 & H3).
  unfold complete_active_phase in H1. rewrite Hp in H1. cbn [mbind option_bind] in H1.
  unfold len in Hlen. destruct payloads as [|x l _] using rev_ind; [done|]. rewrite length_app in Hlen. cbn in Hlen.
  rewrite last_snoc in H1.
  destruct (emit_ok _ _ _ _ _ _ _ Hok H1) as (c1 & st1 & Ht1 & _ & _ & Hph1 & Hok1).
  destruct (emit_ok _ _ _ _ _ _ _ Hok1 H2) as (c2 & st2 & Ht2 & _ & _ & Hph2 & Hok2).
  unfold track_phases in Hph1, Hph2. rewrite Ht1, Hp, removelast_last in Hph1. rewrite Ht2 in Hph2.
  assert (l <> []) as Hl by (destruct l; cbn in Hlen; [lia|done]).
  rewrite bool_decide_eq_false_2 in Hph1 by done. apply Hl.
  eapply (flow_failed_no_phases session b2 st2 inv _ b' Hok2 H3). by rewrite Hph2, Hph1, lookup_insert_eq.
Qed.
End theory.
