(* ===== verification/PlanExamples.v ===== *)
(** A planned session: a Flow whose Phase calls a Tool, and the theorems of the planner, the
    builder and the context at concrete inputs. *)

From Stdlib Require Import ZArith Lia Ascii String.
From stdpp Require Import base strings sorting sets option gmap countable list.
From S2P Require Import Prelude Decimal Sorting Metadata Json FlowValue Event Lifecycle.
From S2P Require Import LifecycleTheory Validate ValidateTheory StreamProps.
From S2P Require Import Paths Values ValuesTheory Blocks CanonicalBlock Registry NestingTheory RegistryTheory.
From S2P Require Import ScriptExamples Errors EffectTheory PhaseControl PhaseControlTheory.
From S2P Require Import Policy PolicyTheory OwnScript OwnScriptTheory.
From S2P Require Import Context ContextTheory Builder BuilderTheory.
From S2P Require Import Planner NoPanic PlannerTheory PlanProps.

Open Scope Z_scope.

#[local] Existing Instance plain_json.

(** A hash of 32 bytes that depends on the length of the text, serde forms by id, and parsers
    that refuse. *)
#[local] Instance demo_env : RuntimeEnv := {|
  Hasher := string;
  hasher_new := "";
  hasher_update := fun h s => h +:+ s;
  hasher_finalize := fun h => String (ascii_of_N (N.of_nat (String.length h)))
    "..............................."%string;
  escape_human_failure_text := fun s => s;
  tool_to_value := fun t => JString (id (tool_identity t));
  command_to_value := fun c => JString (executable c);
  flow_value_from_str := fun _ => Err "refused"%string;
  flow_values_from_str := fun _ => Err "refused"%string;
  try_reserve := fun _ _ => true;
  canonical_error_text := fun _ => "not canonical"%string;
  cargo_pkg_version := "0.1.0";
|}.

#[local] Instance demo_laws : RuntimeLaws.
Proof. split; done. Qed.

Definition demo_options : FlowExecutionOptions := mkOptions (mkClock 1767225600) None ModePlan true.

Definition talk_root : FlowBlock := canonical_flow (name_ids policy_registry) talk_flow.

Definition talk_plan : result RuntimeError RuntimeExecution :=
  compile_flow_plan policy_registry policy_artifact talk_root "session-1" demo_options.

(** The session of the plan, event by event. *)
Example talk_plan_events :
  map event_type <$> (plan_events <$> talk_plan) =
  Ok [SessionStarted; FlowStarted; PhaseEntered; MessageDelta; MessageCompleted; ToolStarted; ToolCompleted;
      MessageDelta; MessageCompleted; PhaseCompleted; FlowCompleted; SessionCompleted].
Proof. vm_compute. reflexivity. Qed.

Definition talk_execution : RuntimeExecution :=
  match talk_plan with Ok ex => ex | _ => into_execution (with_clock "" (mkClock 0) true) true None end.

Lemma talk_planned : talk_plan = Ok talk_execution.
Proof. vm_compute. reflexivity. Qed.

Lemma plan_stream_closed_witness :
  plan_closed "session-1" talk_execution /\ exec_failed talk_execution = false /\
  "flow-001" ∈ omap ended_flow (plan_events talk_execution).
Proof.
  assert (plan_closed "session-1" talk_execution) as H
    by exact (plan_stream_closed policy_registry policy_artifact talk_root "session-1" demo_options _ talk_planned).
  split; [exact H|]. split; [vm_compute; reflexivity|]. apply (pc_flows _ _ _ _ H). fold (plan_events talk_execution).
  assert (omap started_flow (plan_events talk_execution) = ["flow-001"%string]) as -> by (vm_compute; reflexivity).
  left.
Defined.

Lemma planned_tools_granted_witness : granted policy_registry "talking" "talk" "say".
Proof.
  assert (fixtures_ok (tool_allowed policy_registry talk_root) (exec_actions talk_execution)) as H.
  { apply (planned_tools_granted no_pattern_error policy_registry "Talking" talk_root policy_artifact talk_root
      "session-1" demo_options); [apply policy_registry_ok|vm_compute; reflexivity..|exact talk_planned]. }
  assert (exists a, exec_actions talk_execution = take 6 (exec_actions talk_execution) ++
      ActionFixture a :: drop 7 (exec_actions talk_execution) /\
    ft_phase_id (failure_transition a) = "talk"%string /\ ft_tool_id (failure_transition a) = "say"%string)
    as (a & Ha & Hphase & Htool) by (eexists; split_and!; vm_compute; reflexivity).
  destruct (H _ _ _ Ha) as [_ [Hg _ _]]. rewrite Hphase, Htool in Hg.
  exact Hg.
Defined.

Lemma planning_never_panics_witness :
  plan_flow policy_registry policy_artifact talk_root "session-1" demo_options <> Panic.
Proof.
  apply (planning_never_panics no_pattern_error demo_to_value policy_of_str policy_blocks policy_registry
    policy_artifact "Talking").
  - intros v text b _ _. apply Forall_forall. intros s _. reflexivity.
  - vm_compute. reflexivity.
  - vm_compute. reflexivity.
Defined.

(** * The context of a turn *)

Definition demo_source (id text : string) : ContextSource := mkSource id (JString text).

Definition demo_sources (last : string) : list ContextSource :=
  [demo_source "a" "runtime"; demo_source "b" "instructions"; demo_source "c" "tools"; demo_source "d" "flow";
   demo_source "e" "phase"; demo_source "f" last].

Definition demo_context (last : string) (recent : option ContextSource) : CompiledContext :=
  match compile_context stub_v0 (demo_sources last) recent no_omissions with
  | Ok c => c
  | _ => mkCompiled 0 "" (mkManifest "") [] ""
  end.

Lemma compile_context_exact_witness :
  exists parts, compiled_ok stub_v0 (demo_sources "input") (Some (demo_source "g" "said")) 
    (demo_context "input" (Some (demo_source "g" "said"))) parts.
Proof. apply (compile_context_exact stub_v0 _ _ no_omissions). vm_compute. reflexivity. Defined.

Lemma context_cache_stable_witness :
  let c := demo_context "first input" None in
  let c' := demo_context "second input" (Some (demo_source "g" "said")) in
  provider_bytes c <> provider_bytes c' /\
  str_take (Z.to_nat (cache_prefix_bytes c)) (provider_bytes c) =
  str_take (Z.to_nat (cache_prefix_bytes c')) (provider_bytes c').
Proof.
  split; [vm_compute; discriminate|].
  apply (context_cache_stable stub_v0 stub_v0 (demo_sources "first input") (demo_sources "second input")
    None (Some (demo_source "g" "said")) no_omissions no_omissions); vm_compute; reflexivity.
Defined.

(** A child of a composite Phase is in scope. *)
Definition demo_root : FlowBlock := canonical_flow (name_ids demo_registry) demo_flow.
Definition demo_child : PhaseBlock :=
  canonical_phase (name_ids demo_registry) (leaf_phase "polish" "Polish" None).

Lemma turn_scope_exact_witness : reached demo_registry demo_root demo_child.
Proof.
  apply (turn_scope_exact demo_registry demo_root demo_child demo_registry_ok). vm_compute. reflexivity.
Defined.

(** * Transitions *)

Definition demo_invocation : FlowInvocation := mkInvocation "flow-001" None.

Definition demo_ops : list builder_op :=
  [OpEmit None SessionStarted (JObject []); OpFlow None;
   OpEmit (Some demo_invocation) FlowStarted (flow_started_payload demo_flow)].

Definition demo_builder : RuntimeEventBuilder := run_ops "session-1" (mkClock 1767225600) demo_ops.

Definition demo_failure : list PlannedRuntimeEvent :=
  live_invocation_failure_transition_events [mkBoundary "main" "flow-001" None] live_invocation_failure.

Lemma alternative_transition_exact_witness :
  exists cs b', construct_runtime_transition "session-1" (Builder.clock demo_builder)
      (builder_sequence demo_builder) demo_failure = Ok cs /\
    emit_all demo_failure demo_builder = (b', Ok tt) /\ emitted b' = emitted demo_builder ++ cs.
Proof.
  apply (alternative_transition_exact "session-1" (mkClock 1767225600) demo_ops "failure" demo_failure).
  - repeat constructor; vm_compute; discriminate.
  - vm_compute. reflexivity.
Defined.

(** * A failure in a nested Phase *)

Definition entered (execution id kind : string) : Value :=
  JObject [("instruction_ids", JArray []); ("iteration", jnum 1); ("phase_execution_id", JString execution);
           ("phase_id", JString id); ("phase_kind", JString kind); ("phase_name", JString id);
           ("tool_ids", JArray [])].

Definition nested_ops : list builder_op :=
  demo_ops ++ [OpEmit (Some demo_invocation) PhaseEntered (entered "phase-000001" "work" "composite");
               OpEmit (Some demo_invocation) PhaseEntered (entered "phase-000002" "draft" "leaf")].

Definition nested_builder : RuntimeEventBuilder := run_ops "session-1" (mkClock 1767225600) nested_ops.

Lemma nested_failure_refused_witness :
  (emit_runtime_error_failure demo_flow demo_invocation (ContextBudgetExceeded 118784 119358) nested_builder).2
    <> Ok tt.
Proof.
  apply (nested_failure_refused "session-1" nested_builder demo_flow demo_invocation
    (ContextBudgetExceeded 118784 119358)
    [entered "phase-000001" "work" "composite"; entered "phase-000002" "draft" "leaf"]).
  - apply run_ops_sound.
  - vm_compute. reflexivity.
  - vm_compute. discriminate.
Defined.

(** The same, from a registry: with an instruction that fills the input budget, planning a Phase
    of the Flow fails the session, and planning the same Phase inside a composite one is an error. *)
Definition long_text : string := concat_bytes (repeat "write this "%string 10780).

Definition flat_flow : FlowBlock := mkFlow (mkIdentity "flat" "Flat") ["draft"] [] [].

Definition long_registry : ResolvedRegistry :=
  mkRegistry
    (<["write"%string := mkInstruction (mkIdentity "write" "Write it") long_text []]> (instructions demo_registry))
    (<["flat"%string := flat_flow]> (flows demo_registry)) (phases demo_registry) (tools demo_registry)
    (name_ids demo_registry).

Example flat_failure_planned :
  match compile_flow_plan long_registry policy_artifact flat_flow "session-1" demo_options with
  | Ok ex =>
      map event_type (plan_events ex) =
        [SessionStarted; FlowStarted; PhaseEntered; PhaseFailed; Metadata.Error; FlowFailed; SessionFailed]
      /\ exec_terminal_error ex = Some (ContextBudgetExceeded 118784 119358)
  | _ => False
  end.
Proof. vm_compute. split; reflexivity. Qed.

Example nested_failure_not_planned :
  compile_flow_plan long_registry policy_artifact demo_root "session-1" demo_options =
    Err (Invalid (RequiresNoActive 7 FlowFailed "phase" "phase-000001")).
Proof. vm_compute. reflexivity. Qed.
