(* ===== verification/AlternativeTheory.v ===== *)
(** Alternatives of one transition
    ([event_construction.rs], [validate_lifecycle_equivalent_alternatives]): the code validates
    the lifecycle of the first alternative only.  Here: the validator reads of an event its
    envelope and a few payload fields, so alternatives that agree on these are accepted
    together, and the failures a Tool may have agree on them. *)

From Stdlib Require Import ZArith Lia Ascii String.
From stdpp Require Import base strings sorting sets option gmap countable list.
From S2P Require Import Prelude Decimal Sorting Metadata Json FlowValue Event Lifecycle.
From S2P Require Import LifecycleTheory Validate ValidateTheory StreamProps.
From S2P Require Import Paths Values Blocks Registry Errors EffectTheory PhaseControl Policy OwnScript Context.
From S2P Require Import Builder BuilderTheory Planner.

Open Scope Z_scope.

Lemma map_err_Ok {E F A} (f : E -> F) (r : result E A) a : map_err f r = Ok a -> r = Ok a.
Proof. destruct r; [by intros [= ->]|done..]. Qed.

Lemma Forall2_Forall_exists {A B} (R : A -> B -> Prop) (P : B -> Prop) l k :
  Forall2 R l k -> Forall P k -> Forall (fun a => exists b, R a b /\ P b) l.
Proof. induction 1; inversion 1; subst; constructor; eauto. Qed.

(** * What the validator reads of an event *)

Definition lifecycle_fields : list string :=
  ["flow_definition_id"; "phase_execution_id"; "phase_id"; "phase_kind"; "tool_id"; "attempt_id";
   "message_id"; "role"]%string.

Definition same_payload (v v' : Value) : Prop :=
  forall k, k ∈ lifecycle_fields -> value_get v k = value_get v' k.

Record same_shape (e e' : EventEnvelope) : Prop := {
  ss_type : event_type e' = event_type e;
  ss_flow : flow_id e' = flow_id e;
  ss_parent : parent_flow_id e' = parent_flow_id e;
  ss_session : session_id e' = session_id e;
  ss_sequence : sequence e' = sequence e;
  ss_event_id : event_id e' = event_id e;
  ss_payload : forall k, k ∈ lifecycle_fields -> payload_str e' k = payload_str e k;
}.

Definition with_bytes (st : SessionAppendValidationState) (n : Z) : SessionAppendValidationState :=
  {| expected_session_id := expected_session_id st; stream_session_id := stream_session_id st;
     previous_sequence := previous_sequence st; event_ids := event_ids st;
     flow_started_ids := flow_started_ids st; terminal_line := terminal_line st;
     stream_bytes := n; line_count := line_count st; lifecycle := lifecycle st |}.

Lemma with_bytes_id st : with_bytes st (stream_bytes st) = st.
Proof. by destruct st. Qed.

Section shape.
Context (e e' : EventEnvelope) (Hs : same_shape e e').

Lemma shape_field k : k ∈ lifecycle_fields -> lifecycle_payload_string e' k = lifecycle_payload_string e k.
Proof using Hs. intros Hk. unfold lifecycle_payload_string. by rewrite (ss_payload _ _ Hs k Hk). Qed.

Lemma shape_fields :
  lifecycle_payload_string e' "flow_definition_id" = lifecycle_payload_string e "flow_definition_id"
  /\ lifecycle_payload_string e' "phase_execution_id" = lifecycle_payload_string e "phase_execution_id"
  /\ lifecycle_payload_string e' "phase_id" = lifecycle_payload_string e "phase_id"
  /\ payload_str e' "phase_kind" = payload_str e "phase_kind"
  /\ lifecycle_payload_string e' "tool_id" = lifecycle_payload_string e "tool_id"
  /\ payload_str e' "attempt_id" = payload_str e "attempt_id"
  /\ lifecycle_payload_string e' "message_id" = lifecycle_payload_string e "message_id"
  /\ lifecycle_payload_string e' "role" = lifecycle_payload_string e "role".
Proof using Hs.
  split_and!; (apply shape_field || apply (ss_payload _ _ Hs)); unfold lifecycle_fields; set_solver.
Qed.

(** Rewrites every reading of [e'] into one of [e]. *)
Ltac reshape :=
  destruct shape_fields as (H1 & H2 & H3 & H4 & H5 & H6 & H7 & H8);
  unfold require_active_leaf_phase, lifecycle_phase_key, terminal_phase_matches,
    lifecycle_tool_key, lifecycle_message_key, reject_terminal_tool_event, reject_terminal,
    require_lifecycle_flow_id;
  rewrite ?(ss_type _ _ Hs), ?(ss_flow _ _ Hs), ?(ss_parent _ _ Hs), ?H1, ?H2, ?H3, ?H4, ?H5, ?H6, ?H7, ?H8;
  try reflexivity.

Lemma shape_tool_key phases : lifecycle_tool_key e' phases = lifecycle_tool_key e phases.
Proof using Hs. reshape. Qed.

Lemma shape_message_key line : lifecycle_message_key line e' = lifecycle_message_key line e.
Proof using Hs. reshape. Qed.

Lemma shape_phase_matches k : terminal_phase_matches e' k = terminal_phase_matches e k.
Proof using Hs. reshape. Qed.

Lemma shape_messages s line :
  validate_message_delta s line e' = validate_message_delta s line e
  /\ validate_message_completed s line e' = validate_message_completed s line e.
Proof using Hs.
  unfold validate_message_delta, validate_message_completed. rewrite !shape_message_key. split; reshape.
Qed.

Lemma shape_tools s line :
  validate_tool_started s line e' = validate_tool_started s line e
  /\ validate_tool_running s line e' = validate_tool_running s line e
  /\ validate_tool_failed s line e' = validate_tool_failed s line e.
Proof using Hs.
  unfold validate_tool_started, validate_tool_running, validate_tool_failed.
  rewrite !shape_tool_key. split_and!; reshape.
Qed.

Lemma shape_phases s line :
  validate_phase_entered s line e' = validate_phase_entered s line e
  /\ validate_phase_end s line e' = validate_phase_end s line e.
Proof using Hs.
  unfold validate_phase_entered, validate_phase_end.
  assert (forall f, match active_phase (active_phases s) f with
                    | Some phase => terminal_phase_matches e' phase | None => Ok false end
                  = match active_phase (active_phases s) f with
                    | Some phase => terminal_phase_matches e phase | None => Ok false end) as Hm.
  { intros f. case_match; [apply shape_phase_matches|done]. }
  split; [reshape|]. destruct shape_fields as (_ & -> & _).
  destruct (lifecycle_payload_string e _) as [x| |]; [|done..]. cbn [mbind result_bind]. unfold reject_terminal, require_lifecycle_flow_id.
  rewrite (ss_type _ _ Hs), (ss_flow _ _ Hs). destruct (terminal_phases s !! x); [done|].
  cbn [mbind result_bind]. destruct (flow_id e) as [f|]; [|done]. cbn [ok_or mbind result_bind]. by rewrite Hm.
Qed.

Lemma shape_flows s line :
  validate_flow_open s line e' = validate_flow_open s line e
  /\ validate_lifecycle_parent line e' (Lifecycle.flows s) (flow_parents s)
     = validate_lifecycle_parent line e (Lifecycle.flows s) (flow_parents s)
  /\ validate_flow_end s line e' = validate_flow_end s line e.
Proof using Hs. unfold validate_flow_open, validate_lifecycle_parent, validate_flow_end. split_and!; reshape. Qed.

Lemma shape_validate s line : lifecycle_validate_event s line e' = lifecycle_validate_event s line e.
Proof using Hs.
  unfold lifecycle_validate_event, require_active_work.
  destruct (shape_flows s line) as (-> & -> & ->), (shape_phases s line) as (-> & ->),
    (shape_tools s line) as (-> & -> & ->), (shape_messages s line) as (-> & ->). reshape.
Qed.

Lemma shape_record s line : lifecycle_record_event s line e' = lifecycle_record_event s line e.
Proof using Hs. unfold lifecycle_record_event. rewrite !shape_tool_key. reshape. Qed.

Lemma shape_validate_event st n line : validate_event (with_bytes st n) line e' = validate_event st line e.
Proof using Hs.
  unfold validate_event, validate_flow_started, validate_terminal_session. cbn [expected_session_id
    previous_sequence event_ids terminal_line stream_session_id lifecycle flow_started_ids with_bytes].
  rewrite shape_validate. cbn [is_some_and].
  by rewrite (ss_type _ _ Hs), (ss_flow _ _ Hs), (ss_session _ _ Hs), (ss_sequence _ _ Hs), (ss_event_id _ _ Hs).
Qed.

Lemma shape_record_event st n line k k' st1 :
  record_event st line e k = Ok st1 ->
  record_event (with_bytes st n) line e' k' = Ok (with_bytes st1 (sat_u64 (n + k'))).
Proof using Hs.
  unfold record_event. cbn [with_bytes event_ids flow_started_ids lifecycle expected_session_id stream_session_id
    terminal_line stream_bytes].
  rewrite shape_record, (ss_type _ _ Hs), (ss_flow _ _ Hs), (ss_session _ _ Hs), (ss_sequence _ _ Hs),
    (ss_event_id _ _ Hs).
  case_match; [done|]. intros (fl & -> & (life & -> & [= <-])%bind_Ok_inv)%bind_Ok_inv. done.
Qed.
End shape.

Section alternatives.
Context {J : JsonEnv} {R : RuntimeEnv}.

(** * Transitions of one shape *)

Record same_planned (p p' : PlannedRuntimeEvent) : Prop := {
  sp_invocation : planned_invocation p' = planned_invocation p;
  sp_type : planned_type p' = planned_type p;
  sp_payload : same_payload (planned_payload p) (planned_payload p');
}.

(** What the constructor of transitions checked of an event. *)
Record fits (c : ConstructedRuntimeEvent) : Prop := {
  fits_v0 : validate_v0 (constructed_event c) = Ok tt;
  fits_size : slen (constructed_jsonl c) <= MAX_CANONICAL_EVENT_BYTES;
}.

Definition same_event (c c' : ConstructedRuntimeEvent) : Prop :=
  same_shape (constructed_event c) (constructed_event c').

Lemma value_get_nfc v k : value_get (nfc_json_string_values v) k = nfc_json_string_values <$> value_get v k.
Proof.
  destruct v as [| | | | |fs]; try done. cbn. induction fs as [|[k' v] fs IH]; [done|]. cbn. by case_match.
Qed.

(** Events that pass the contract do not nest too deeply, so their payloads were normalized. *)
Lemma runtime_event_payload session n ts inv t v :
  validate_v0 (runtime_event session n ts inv t v) = Ok tt ->
  payload (runtime_event session n ts inv t v) = nfc_json_string_values v.
Proof.
  unfold runtime_event. intros H.
  assert (json_nesting_reaches_limit
    (payload (with_invocation (Event.new (runtime_event_id n) t session n ts FLOW_AGENT_EVENT_SOURCE v) inv)) 1
      = false) as Hd.
  { unfold validate_v0 in H. apply bind_Ok_inv in H as (x & _ & H). inv_ok.
    destruct (List.find _ _); [discriminate H|]. by inv_ok. }
  destruct inv; cbn [with_invocation payload Event.new] in *;
    by destruct (json_nesting_reaches_limit v 1) eqn:E; [rewrite E in Hd|].
Qed.

Lemma runtime_event_shape session n ts inv t v v' :
  validate_v0 (runtime_event session n ts inv t v) = Ok tt ->
  validate_v0 (runtime_event session n ts inv t v') = Ok tt ->
  same_payload v v' -> same_shape (runtime_event session n ts inv t v) (runtime_event session n ts inv t v').
Proof.
  intros H H' Hv. constructor.
  7: { intros k Hk. unfold payload_str. rewrite !runtime_event_payload by done.
       by rewrite !value_get_nfc, (Hv k Hk). }
  all: unfold runtime_event; by destruct inv.
Qed.

Lemma construct_from_shape session clock start ps : forall ps' index cs cs',
  Forall2 same_planned ps ps' ->
  construct_from session clock start index ps = Ok cs ->
  construct_from session clock start index ps' = Ok cs' ->
  Forall2 same_event cs cs' /\ Forall fits cs'.
Proof.
  induction ps as [|p ps IH]; intros ps' index cs cs' Hp Hc Hc'; inversion Hp as [|? p' ? ps1 H1 H2]; subst.
  { injection Hc as <-. by injection Hc' as <-. }
  cbn [construct_from] in Hc, Hc'. cbn zeta in Hc, Hc'.
  apply bind_Ok_inv in Hc as (ts & Hts & Hc), Hc' as (ts' & Hts' & Hc').
  rewrite Hts in Hts'. injection Hts' as <-.
  apply bind_Ok_inv in Hc as ([] & Hv & Hc), Hc' as ([] & Hv' & Hc').
  apply map_err_Ok in Hv, Hv'.
  apply bind_Ok_inv in Hc as (c & Hn & Hc), Hc' as (c' & Hn' & Hc').
  apply bind_Ok_inv in Hc as ([] & _ & Hc), Hc' as ([] & Hsz & Hc').
  apply bind_Ok_inv in Hc as (rest & Hr & Hc), Hc' as (rest' & Hr' & Hc').
  injection Hc as <-. injection Hc' as <-. destruct (IH _ _ _ _ H2 Hr Hr') as [IH1 IH2].
  destruct H1 as [Hi Ht Hpay]. rewrite Hi, Ht in *. unfold constructed_new in Hn, Hn'.
  destruct (canonical_jsonl _) as [line| |]; [|discriminate Hn..]. injection Hn as <-.
  destruct (canonical_jsonl _) as [line'| |]; [|discriminate Hn'..]. injection Hn' as <-.
  split; constructor; [by apply runtime_event_shape|done| |done]. constructor; cbn [constructed_event constructed_jsonl].
  - done.
  - unfold validate_event_size in Hsz. cbn in Hsz. destruct (Z.leb_spec (slen line') MAX_CANONICAL_EVENT_BYTES); done.
Qed.

Lemma shape_constructed st n c c' st1 :
  same_event c c' -> fits c' -> 0 <= n -> n + slen (constructed_jsonl c') <= MAX_SESSION_EVENT_BYTES ->
  validate_constructed_event st (constructed_event c) (slen (constructed_jsonl c)) = Ok st1 ->
  validate_constructed_event (with_bytes st n) (constructed_event c') (slen (constructed_jsonl c'))
    = Ok (with_bytes st1 (n + slen (constructed_jsonl c'))).
Proof.
  intros Hs [Hv Hsz] Hn Hmax H. pose proof (slen_nonneg (constructed_jsonl c')) as Hnn.
  assert (sat_u64 (n + slen (constructed_jsonl c')) = n + slen (constructed_jsonl c')) as Hsat
    by (apply sat_u64_id; unfold in_u64, u64_max, MAX_SESSION_EVENT_BYTES in *; lia).
  unfold validate_constructed_event in *. cbn [line_count with_bytes] in *.
  apply bind_Ok_inv in H as ([] & _ & H). apply bind_Ok_inv in H as ([] & _ & H).
  apply bind_Ok_inv in H as ([] & Hb & H). apply bind_Ok_inv in H as ([] & Hval & H).
  unfold validate_event_payload_line. rewrite Hv. cbn [map_err mbind result_bind].
  unfold validate_event_size. destruct (Z.leb_spec (slen (constructed_jsonl c')) MAX_CANONICAL_EVENT_BYTES); [|lia].
  cbn [mbind result_bind]. unfold validate_budget in *. cbn [stream_bytes with_bytes]. rewrite Hsat.
  destruct (MAX_FLOW_EVENTS <? line_count st + 1); [done|].
  destruct (Z.ltb_spec MAX_SESSION_EVENT_BYTES (n + slen (constructed_jsonl c'))); [lia|].
  cbn [mbind result_bind]. rewrite (shape_validate_event _ _ Hs), Hval. cbn [mbind result_bind].
  rewrite (shape_record_event _ _ Hs _ _ _ _ _ _ H). by rewrite Hsat.
Qed.

Lemma shape_validate_each cs : forall cs' st n st1,
  Forall2 same_event cs cs' -> Forall fits cs' -> 0 <= n ->
  n + text_bytes (map constructed_jsonl cs') <= MAX_SESSION_EVENT_BYTES ->
  validate_each st cs = Ok st1 -> exists m, validate_each (with_bytes st n) cs' = Ok (with_bytes st1 m).
Proof.
  induction cs as [|c cs IH]; intros cs' st n st1 Hs Hf Hn Hmax H; inversion Hs as [|? c' ? cs1 H1 H2]; subst.
  { injection H as <-. by exists n. }
  apply Forall_cons in Hf as [Hf1 Hf2].
  change (text_bytes (map constructed_jsonl (c' :: cs1)))
    with (slen (constructed_jsonl c') + text_bytes (map constructed_jsonl cs1)) in Hmax.
  pose proof (slen_nonneg (constructed_jsonl c')). pose proof (text_bytes_nonneg (map constructed_jsonl cs1)).
  cbn [validate_each] in *. apply bind_Ok_inv in H as (st2 & Hst & H).
  destruct (validate_constructed_event st _ _) as [st3| |] eqn:E; [|discriminate Hst..]. injection Hst as <-.
  rewrite (shape_constructed st n c c' st3) by (done || lia). cbn [map_err mbind result_bind].
  eapply IH; [done..|lia|lia|done].
Qed.

(** * The alternatives are accepted together *)

Section builder.
Context (session : string) (b : RuntimeEventBuilder) (label : string).

Definition constructible (planned : list PlannedRuntimeEvent) (cs : list ConstructedRuntimeEvent) : Prop :=
  construct_runtime_transition (builder_session_id b) (clock b) (builder_sequence b) planned = Ok cs /\
  validate_runtime_transition_capacity (builder_sequence b) (byte_count (events b)) label cs = Ok tt.

Lemma check_alternatives_example alts example r :
  check_alternatives b label alts (Some example) = Ok r <->
  r = Some example /\ Forall (fun planned => exists cs, constructible planned cs) alts.
Proof.
  revert r. induction alts as [|planned alts IH]; intros r; cbn [check_alternatives].
  { split; [by intros [= <-]|by intros [-> _]]. }
  rewrite Forall_cons. split.
  - intros (cs & Hcs & ([] & Hcap & H)%bind_Ok_inv)%bind_Ok_inv. apply IH in H as [-> H].
    split_and!; [done|by exists cs|done].
  - intros (-> & (cs & Hcs & Hcap) & H). rewrite Hcs. cbn [mbind result_bind]. rewrite Hcap.
    cbn [mbind result_bind]. by apply IH.
Qed.

Lemma alternative_Ok st planned :
  validation b = Some st ->
  validate_alternative_transition b label planned = Ok tt <->
  exists cs st1, constructible planned cs /\ validate_each st cs = Ok st1.
Proof.
  intros Hst. unfold validate_alternative_transition, validate_lifecycle_equivalent_alternatives.
  rewrite Hst. cbn [check_alternatives]. split.
  - intros H. apply bind_Ok_inv in H as (ex & Hex & H). apply bind_Ok_inv in Hex as (cs & Hcs & Hex).
    apply bind_Ok_inv in Hex as ([] & Hcap & [= <-]). apply bind_Ok_inv in H as (st1 & Hv & _).
    by exists cs, st1.
  - intros (cs & st1 & [Hcs Hcap] & Hv). rewrite Hcs. cbn [mbind result_bind]. rewrite Hcap.
    cbn [mbind result_bind default]. unfold Datatypes.id. by rewrite Hv.
Qed.

Lemma alternatives_Ok st planned alts :
  validation b = Some st ->
  validate_lifecycle_equivalent_alternatives b label (planned :: alts) = Ok tt <->
  validate_alternative_transition b label planned = Ok tt /\
  Forall (fun planned => exists cs, constructible planned cs) alts.
Proof.
  intros Hst. rewrite (alternative_Ok st) by done. unfold validate_lifecycle_equivalent_alternatives.
  rewrite Hst. cbn [check_alternatives]. split.
  - intros H. apply bind_Ok_inv in H as (ex & Hex & H). apply bind_Ok_inv in Hex as (cs & Hcs & Hex).
    apply bind_Ok_inv in Hex as ([] & Hcap & Hex). apply check_alternatives_example in Hex as [-> HF].
    apply bind_Ok_inv in H as (st1 & Hv & _). split; [by exists cs, st1|done].
  - intros ((cs & st1 & [Hcs Hcap] & Hv) & HF). rewrite Hcs. cbn [mbind result_bind]. rewrite Hcap.
    cbn [mbind result_bind]. rewrite (proj2 (check_alternatives_example alts cs (Some cs))) by done.
    cbn [mbind result_bind default]. unfold Datatypes.id. by rewrite Hv.
Qed.

Lemma sat_min x : 0 <= x -> sat_u64 x = Z.min x u64_max.
Proof using Type. intros Hx. unfold sat_u64, clamp, u64_max. lia. Qed.

Lemma transition_bytes_min cs : forall total,
  0 <= total -> 
  Z.min u64_max (foldl (fun total e => sat_u64 (total + slen (constructed_jsonl e))) total cs)
    = Z.min u64_max (total + text_bytes (map constructed_jsonl cs)).
Proof using Type.
  induction cs as [|c cs IH]; intros total Ht; cbn [foldl map]; [unfold text_bytes; cbn; lia|].
  change (text_bytes (constructed_jsonl c :: map constructed_jsonl cs))
    with (slen (constructed_jsonl c) + text_bytes (map constructed_jsonl cs)).
  pose proof (slen_nonneg (constructed_jsonl c)). pose proof (text_bytes_nonneg (map constructed_jsonl cs)).
  rewrite sat_min by lia. rewrite IH by (unfold u64_max; lia). lia.
Qed.

Context (st : SessionAppendValidationState) (Hok : builder_ok session b st).

Lemma constructible_bytes planned cs :
  constructible planned cs ->
  stream_bytes st + text_bytes (map constructed_jsonl cs) <= MAX_SESSION_EVENT_BYTES.
Proof using Hok.
  intros [_ Hcap]. destruct (builder_budget _ _ _ Hok) as (-> & _ & _ & _).
  unfold validate_runtime_transition_capacity in Hcap. inv_ok.
  rewrite (builder_byte_count _ _ _ Hok) in *. pose proof (transition_bytes_min cs 0 ltac:(lia)) as Ht.
  pose proof (text_bytes_nonneg (map constructed_jsonl cs)).
  pose proof (text_bytes_nonneg (map constructed_jsonl (emitted b))).
  unfold sat_u64, clamp, MAX_SESSION_EVENT_BYTES, u64_max in *. lia.
Qed.

Lemma same_alternative planned planned' cs' :
  Forall2 same_planned planned planned' -> constructible planned' cs' ->
  validate_alternative_transition b label planned = Ok tt ->
  validate_alternative_transition b label planned' = Ok tt.
Proof using Hok.
  intros Hs Hc' H. pose proof (bo_validation _ _ _ Hok) as Hst.
  apply (alternative_Ok st planned Hst) in H as (cs & st1 & [Hcs _] & Hv). apply (alternative_Ok st); [done|].
  destruct (construct_from_shape _ _ _ _ _ _ _ _ Hs Hcs (proj1 Hc')) as [Hsh Hfit].
  destruct (builder_budget _ _ _ Hok) as (Hby & _).
  destruct (shape_validate_each cs cs' st (stream_bytes st) st1) as [m Hm]; [done|done| | |done|].
  - rewrite Hby. apply text_bytes_nonneg.
  - by eapply constructible_bytes.
  - rewrite with_bytes_id in Hm. by exists cs', (with_bytes st1 m).
Qed.

(** Alternatives of one shape: validating the first is validating all. *)
Lemma same_alternatives planned alts :
  Forall (Forall2 same_planned planned) alts ->
  validate_lifecycle_equivalent_alternatives b label (planned :: alts) = Ok tt <->
  Forall (fun planned => validate_alternative_transition b label planned = Ok tt) (planned :: alts).
Proof using Hok.
  intros Hs. pose proof (bo_validation _ _ _ Hok) as Hst.
  rewrite (alternatives_Ok st planned alts Hst), Forall_cons. split.
  - intros [H HF]. split; [done|]. rewrite Forall_forall in *. intros x Hx.
    destruct (HF x Hx) as [cs Hcs]. by eapply same_alternative; [apply Hs| |].
  - intros [H HF]. split; [done|]. eapply Forall_impl; [exact HF|]. intros x Hx. cbn in Hx.
    apply (alternative_Ok st x Hst) in Hx as (cs & _ & Hcs & _). by exists cs.
Qed.
End builder.

(** * The failures of a Tool *)

Lemma obj_get_insert_ne key key' v fields :
  key' <> key -> obj_get (obj_insert key v fields) key' = obj_get fields key'.
Proof.
  intros Hne. induction fields as [|[k w] fields IH]; cbn.
  - by rewrite (proj2 (String.eqb_neq _ _)) by congruence.
  - destruct (str_cmp key k) eqn:E; cbn.
    + apply str_cmp_eq in E as ->. by rewrite (proj2 (String.eqb_neq _ _)) by congruence.
    + by rewrite (proj2 (String.eqb_neq key key')) by congruence.
    + by rewrite IH.
Qed.

Lemma with_error_same payload r r' v v' :
  with_error payload r = Ok v -> with_error payload r' = Ok v' -> same_payload v v'.
Proof.
  destruct payload; try done. intros [= <-] [= <-] k Hk. cbn.
  rewrite !obj_get_insert_ne; [done|..]; intros ->; unfold lifecycle_fields in Hk; set_solver.
Qed.

#[local] Instance same_planned_refl : Reflexive same_planned.
Proof. by constructor. Qed.

Lemma same_planned_payload inv t v v' : same_payload v v' -> same_planned (mkPlanned inv t v) (mkPlanned inv t v').
Proof. by constructor. Qed.

(** The lifecycle reads no field of a runtime error. *)
Lemma runtime_error_same f f' : same_payload (runtime_error_payload f) (runtime_error_payload f').
Proof.
  assert (forall g k, k ∈ lifecycle_fields -> value_get (runtime_error_payload g) k = None) as H.
  { intros g k Hk. unfold runtime_error_payload, lifecycle_fields in *. cbn [value_get].
    destruct (bool_decide _); [|rewrite obj_get_insert_ne by (intros ->; set_solver)]; cbn [obj_get];
      (destruct (String.eqb_spec "code" k) as [<-|_]; [set_solver|]);
      (destruct (String.eqb_spec "message" k) as [<-|_]; [set_solver|done]). }
  intros k Hk. by rewrite !H.
Qed.

Lemma flow_failed_same r r' d : same_payload (flow_failed_payload r d) (flow_failed_payload r' d).
Proof.
  intros k Hk. unfold flow_failed_payload, lifecycle_fields in *. cbn [value_get obj_get].
  destruct (String.eqb_spec "error" k) as [<-|_]; [set_solver|done].
Qed.

Lemma flow_failure_tail_same boundaries f f' :
  Forall2 same_planned (flow_failure_tail boundaries f) (flow_failure_tail boundaries f').
Proof.
  unfold flow_failure_tail. apply Forall2_app.
  - induction boundaries as [|b bs IH]; constructor; [|done]. apply same_planned_payload, flow_failed_same.
  - constructor; [|constructor]. apply same_planned_payload. intros k Hk. unfold lifecycle_fields in Hk. cbn [value_get obj_get].
    destruct (String.eqb_spec "reason" k) as [<-|_]; [set_solver|done].
Qed.

Lemma ancestor_failures_same inv payloads r r' : forall l l',
  try_collect (fun payload => payload ← with_error payload r; Ok (mkPlanned inv PhaseFailed payload)) payloads = Ok l ->
  try_collect (fun payload => payload ← with_error payload r'; Ok (mkPlanned inv PhaseFailed payload)) payloads = Ok l' ->
  Forall2 same_planned l l'.
Proof.
  induction payloads as [|p ps IH]; intros l l' H H'; cbn in H, H'; [by simplify_eq|].
  inv_ok. constructor; [|by apply IH]. apply same_planned_payload. by eapply with_error_same.
Qed.

Lemma fixture_failure_same tr f f' l l' :
  fixture_failure_transition_events tr f = Ok l -> fixture_failure_transition_events tr f' = Ok l' ->
  Forall2 same_planned l l'.
Proof.
  unfold fixture_failure_transition_events. cbn zeta. intros H H'.
  apply bind_Ok_inv in H as (v & Hv & H), H' as (v' & Hv' & H').
  apply bind_Ok_inv in H as (anc & Ha & H), H' as (anc' & Ha' & H').
  injection H as <-. injection H' as <-. apply Forall2_cons; split; [|apply Forall2_cons; split].
  - apply same_planned_payload.
    intros k Hk. unfold lifecycle_fields in Hk. cbn [value_get obj_get].
    destruct (String.eqb_spec "error" k) as [<-|_]; [set_solver|done].
  - apply same_planned_payload. by eapply with_error_same.
  - apply Forall2_app; [by eapply ancestor_failures_same|].
    constructor; [|constructor; [|apply flow_failure_tail_same]]; apply same_planned_payload;
      [apply runtime_error_same|apply flow_failed_same].
Qed.

(** No failure transition ends a message. *)
Lemma ancestor_failures_plain inv payloads r l :
  try_collect (fun payload => payload ← with_error payload r; Ok (mkPlanned inv PhaseFailed payload)) payloads = Ok l ->
  Forall plain l.
Proof.
  revert l. induction payloads as [|p ps IH]; intros l H; cbn in H; [by simplify_eq|]. inv_ok.
  constructor; [done|by apply IH].
Qed.

Lemma flow_failure_tail_plain boundaries f : Forall plain (flow_failure_tail boundaries f).
Proof.
  unfold flow_failure_tail. apply Forall_app. split; [|by repeat constructor].
  by induction boundaries; constructor.
Qed.

Lemma fixture_failure_plain tr f l : fixture_failure_transition_events tr f = Ok l -> Forall plain l.
Proof.
  unfold fixture_failure_transition_events. cbn zeta. intros H.
  apply bind_Ok_inv in H as (v & Hv & H). apply bind_Ok_inv in H as (anc & Ha & H). simplify_eq.
  repeat (constructor; [done|]). apply Forall_app. split; [by eapply ancestor_failures_plain|].
  repeat (constructor; [done|]). apply flow_failure_tail_plain.
Qed.

(** A failure is reported by its reason, its message and its data. *)
Definition same_report (f f' : RuntimeFailure) : Prop :=
  failure_reason f = failure_reason f' /\ failure_message f = failure_message f' /\ failure_data f = failure_data f'.

Lemma fixture_failure_report tr f f' :
  same_report f f' -> fixture_failure_transition_events tr f = fixture_failure_transition_events tr f'.
Proof.
  intros (H1 & H2 & H3). unfold fixture_failure_transition_events, runtime_error_payload, flow_failure_tail.
  by rewrite H1, H2, H3.
Qed.

(** Every error an effect may have is reported like one of the candidates. *)
Lemma candidate_covers err :
  should_terminalize_error err = false ->
  exists f, f ∈ fixture_failure_capacity_candidates /\ same_report f (runtime_failure_for_unhandled_error err).
Proof.
  intros Hc. unfold fixture_failure_capacity_candidates.
  destruct err as [m|e|w e|e|kind|reason|budget required|source|sources|name]; [| | | | | |done| | |].
  1, 2, 3, 4, 7, 8, 9: exists (runtime_failure_for_unhandled_error (Protocol "capacity probe"));
    split; [rewrite !elem_of_app; right; left; right; left|by split_and!].
  - assert (exists k, k ∈ map fst RUNTIME_IO_ERROR_KINDS /\ runtime_io_error_kind k = runtime_io_error_kind kind)
      as (k & Hk & E).
    { destruct kind; try (eexists; split; [|done]; cbn; set_solver). exists OtherError. split; [cbn; set_solver|done]. }
    exists (runtime_failure_for_unhandled_error (Errors.Io k)). split.
    + rewrite !elem_of_app. right. right. apply list_elem_of_fmap in Hk as ([k' n] & -> & Hk).
      apply list_elem_of_fmap. by exists (k', n).
    + split_and!; [done|done|]. cbn [runtime_failure_for_unhandled_error failure_data]. by rewrite E.
  - exists (runtime_failure_for_reason reason None). split; [|by split_and!].
    rewrite elem_of_app. left. apply list_elem_of_fmap. exists reason. split; [done|].
    destruct reason; cbn; set_solver.
Qed.

(** The reserved room: once [validate_failure_capacity] accepts a Tool, every failure its effect
    may have can be recorded. *)
Lemma failure_capacity_alternatives session b tr :
  builder_sound session b ->
  validate_failure_capacity tr b = Ok tt <->
  Forall (fun f => exists planned, fixture_failure_transition_events tr f = Ok planned /\
                    validate_alternative_transition b "runtime failure transition" planned = Ok tt)
    fixture_failure_capacity_candidates.
Proof.
  intros [st Hok]. unfold validate_failure_capacity.
  assert (exists f fs, fixture_failure_capacity_candidates = f :: fs) as (f & fs & ->) by (by do 2 eexists).
  assert (forall planned alts, try_collect (fixture_failure_transition_events tr) (f :: fs) = Ok (planned :: alts) ->
    Forall (Forall2 same_planned planned) alts) as Hsame.
  { intros planned alts Hc%try_collect_Forall2. inversion Hc as [|? ? ? ? H1 H2]; subst.
    clear Hc. induction H2; constructor; [by eapply fixture_failure_same|done]. }
  split.
  - intros (alts & Hc & H)%bind_Ok_inv. pose proof (proj1 (try_collect_Forall2 _ _ _) Hc) as HF.
    destruct alts as [|planned alts]; [inversion HF|]. specialize (Hsame _ _ Hc).
    apply (same_alternatives session b _ st Hok) in H; [|done].
    by eapply Forall2_Forall_exists.
  - intros HF.
    assert (exists alts, try_collect (fixture_failure_transition_events tr) (f :: fs) = Ok alts /\
      Forall (fun planned => validate_alternative_transition b "runtime failure transition" planned = Ok tt) alts)
      as (alts & Hc & HA).
    { clear Hsame. induction HF as [|g gs (p & Hp & Hv) _ (alts & Hc & HA)]; [by exists []|].
      exists (p :: alts). split; [|by constructor]. cbn. rewrite Hp. cbn [mbind result_bind]. by rewrite Hc. }
    rewrite Hc. cbn [mbind result_bind]. destruct alts as [|planned alts].
    { apply try_collect_Forall2 in Hc. inversion Hc. }
    apply (same_alternatives session b _ st Hok); [by apply Hsame|done].
Qed.

Lemma failure_capacity_error session b tr err :
  builder_sound session b -> validate_failure_capacity tr b = Ok tt -> should_terminalize_error err = false ->
  exists planned, fixture_failure_transition_events tr (runtime_failure_for_unhandled_error err) = Ok planned /\
    validate_alternative_transition b "runtime failure transition" planned = Ok tt /\ Forall plain planned.
Proof.
  intros Hb Hc%(failure_capacity_alternatives session) He; [|done].
  destruct (candidate_covers err He) as (f & Hin & Hf). rewrite Forall_forall in Hc.
  destruct (Hc f Hin) as (planned & Hp & Hv). exists planned.
  rewrite <- (fixture_failure_report tr f) by done. split_and!; [done|done|by eapply fixture_failure_plain].
Qed.

(** C27: The dry run of a Tool's failures is exact: in every state a builder reaches,
    [validate_failure_capacity], which validates the lifecycle of one failure only, accepts the
    Tool exactly when each of its failures could be recorded: its events emitted one after the
    other, within all budgets and rules. *)
Theorem failure_capacity_exact session clock ops tr :
  let b := run_ops session clock ops in
  validate_failure_capacity tr b = Ok tt <->
  forall f, f ∈ fixture_failure_capacity_candidates ->
    exists planned cs b', fixture_failure_transition_events tr f = Ok planned /\
      emit_all planned b = (b', Ok tt) /\ emitted b' = emitted b ++ cs /\ List.length cs = List.length planned.
Proof.
  intros b. pose proof (run_ops_sound session clock ops) as Hb. fold b in Hb.
  rewrite (failure_capacity_alternatives session b tr Hb), Forall_forall. split; intros H f Hf.
  - destruct (H f Hf) as (planned & Hp & Hv). pose proof (fixture_failure_plain _ _ _ Hp) as Hpl.
    apply (alternative_transition_dry_run session) in Hv as (cs & b' & Hcs & He & Hem); [|done|done].
    exists planned, cs, b'. split_and!; try done. by eapply construct_from_length.
  - destruct (H f Hf) as (planned & cs & b' & Hp & He & Hem & _). exists planned. split; [done|].
    pose proof (fixture_failure_plain _ _ _ Hp) as Hpl.
    apply (alternative_transition_dry_run session); [done|done|]. pose proof Hb as [st Hok].
    destruct (emit_construct session planned b st (builder_sequence b) 0 b') as (cs' & _ & Hcs' & _ & _ & Hem');
      try done; [lia|rewrite (bo_sequence _ _ _ Hok); unfold len; lia|].
    by exists cs', b'.
Qed.
End alternatives.
