(* ===== verification/Live.v ===== *)
(** Live Flow invocations ([flow-agent-core/src/runtime/live_flow_invocations.rs]).

    [Slots]: the process-wide counter of running Flows, which threads change with atomic
    operations on one location; its executions are interleavings of the atomic steps of
    [acquire_live_flow_invocation] and of the drop of a guard.
    The tracker of one application follows the events of a plan: the Flows that are open, in the
    order they were started, each with its guard. *)

From Stdlib Require Import ZArith Lia Ascii String.
From stdpp Require Import base strings sorting sets option gmap countable list.
From S2P Require Import Prelude Decimal Sorting Metadata Json FlowValue Event Lifecycle Validate.
From S2P Require Import Paths Values Blocks Registry Errors PhaseControl Policy OwnScript Context Builder Planner.

Open Scope Z_scope.

Definition MAX_LIVE_FLOW_INVOCATIONS : Z := 32.

(** * The counter *)

Module Slots.

(** Where a thread is in [acquire_live_flow_invocation]: outside, or in the loop with the value
    it observed last. *)
Inductive pc : Type := Outside | InLoop (observed : Z).

Record state : Type := mkState {
  counter : Z;
  pcs : nat -> pc;
  guards : nat -> Z;
}.

Definition initial : state := mkState 0 (fun _ => Outside) (fun _ => 0).

Definition update {A} (f : nat -> A) (t : nat) (a : A) : nat -> A :=
  fun u => if decide (u = t) then a else f u.

(** What a step shows: the start of a call, which is its first read of the counter, its return,
    the drop of a guard. *)
Inductive event : Type := Silent | Began (t : nat) | Granted (t : nat) | Refused (t : nat) | Dropped (t : nat).

(** One atomic step.  [compare_exchange_weak] may fail although the value is the expected one. *)
Inductive step (s : state) : event -> state -> Prop :=
| Load t :
    pcs s t = Outside ->
    step s (Began t) (mkState (counter s) (update (pcs s) t (InLoop (counter s))) (guards s))
| Limit t observed :
    pcs s t = InLoop observed -> MAX_LIVE_FLOW_INVOCATIONS <= observed ->
    step s (Refused t) (mkState (counter s) (update (pcs s) t Outside) (guards s))
| Exchange t observed :
    pcs s t = InLoop observed -> observed < MAX_LIVE_FLOW_INVOCATIONS -> counter s = observed ->
    step s (Granted t)
      (mkState (observed + 1) (update (pcs s) t Outside) (update (guards s) t (guards s t + 1)))
| Retry t observed :
    pcs s t = InLoop observed -> observed < MAX_LIVE_FLOW_INVOCATIONS ->
    step s Silent (mkState (counter s) (update (pcs s) t (InLoop (counter s))) (guards s))
| Drop t :
    0 < guards s t ->
    step s (Dropped t) (mkState (counter s - 1) (pcs s) (update (guards s) t (guards s t - 1))).

Inductive run : state -> list event -> state -> Prop :=
| run_done s : run s [] s
| run_step s l s1 e s2 : run s l s1 -> step s1 e s2 -> run s (l ++ [e]) s2.

(** The steps a thread takes when it runs alone and no exchange fails spuriously. *)
Definition alone (t : nat) (s : state) : option (event * state) :=
  match pcs s t with
  | Outside => Some (Began t, mkState (counter s) (update (pcs s) t (InLoop (counter s))) (guards s))
  | InLoop observed =>
      if MAX_LIVE_FLOW_INVOCATIONS <=? observed then
        Some (Refused t, mkState (counter s) (update (pcs s) t Outside) (guards s))
      else if counter s =? observed then
        Some (Granted t, mkState (observed + 1) (update (pcs s) t Outside)
                           (update (guards s) t (guards s t + 1)))
      else Some (Silent, mkState (counter s) (update (pcs s) t (InLoop (counter s))) (guards s))
  end.
End Slots.

(** * The tracker *)

Record ActiveLiveInvocation : Type := mkActive {
  active_boundary : PlannedFlowFailureBoundary;
  active_guard : bool;
}.

Record LiveFlowInvocations : Type := mkLive {
  acquire_slots : bool;
  active_invocations : list ActiveLiveInvocation;
  prefix_count : Z;
  tracks_events : bool;
}.

Definition with_active (l : LiveFlowInvocations) (active : list ActiveLiveInvocation) : LiveFlowInvocations :=
  mkLive (acquire_slots l) active (prefix_count l) (tracks_events l).

Definition flow_boundary (e : EventEnvelope) : result RuntimeError PlannedFlowFailureBoundary :=
  flow_id ← ok_or (flow_id e) (Protocol "flow.started action is missing flow_id");
  flow_definition_id ← ok_or (payload_str e "flow_definition_id")
    (Protocol "flow.started action is missing payload.flow_definition_id");
  Ok (mkBoundary flow_definition_id flow_id (parent_flow_id e)).

(** [rposition] and [remove]: the last invocation of the Flow goes. *)
Fixpoint remove_last (flow : string) (active : list ActiveLiveInvocation)
    : option (list ActiveLiveInvocation) :=
  match active with
  | [] => None
  | a :: active =>
      match remove_last flow active with
      | Some active => Some (a :: active)
      | None => if String.eqb (boundary_flow_id (active_boundary a)) flow then Some active else None
      end
  end.

Definition live_finish (l : LiveFlowInvocations) (e : EventEnvelope) : LiveFlowInvocations :=
  match flow_id e with
  | None => l
  | Some flow => with_active l (default (active_invocations l) (remove_last flow (active_invocations l)))
  end.

Definition should_process (l : LiveFlowInvocations) (e : EventEnvelope) : bool :=
  tracks_events l && (prefix_count l <? sequence e).

Definition active_boundaries (l : LiveFlowInvocations) : list PlannedFlowFailureBoundary :=
  map active_boundary (active_invocations l).

Definition reconstruct_prefix_event (l : LiveFlowInvocations) (e : EventEnvelope)
    : result RuntimeError LiveFlowInvocations :=
  match event_type e with
  | FlowStarted =>
      boundary ← flow_boundary e;
      Ok (with_active l (active_invocations l ++ [mkActive boundary false]))
  | FlowCompleted | FlowFailed => Ok (live_finish l e)
  | _ => Ok l
  end.

Definition after_event (l : LiveFlowInvocations) (e : EventEnvelope) : LiveFlowInvocations :=
  if should_process l e
     && match event_type e with FlowCompleted | FlowFailed => true | _ => false end
  then live_finish l e else l.

(** The loop over the actions of a plan up to the first event after the prefix. *)
Fixpoint reconstruct_prefix (l : LiveFlowInvocations) (actions : list FlowExecutionAction)
    : result RuntimeError LiveFlowInvocations :=
  match actions with
  | [] => Ok l
  | ActionFixture _ :: actions => reconstruct_prefix l actions
  | ActionEvent action :: actions =>
      let e := constructed_event (action_event action) in
      if prefix_count l <? sequence e then Ok l
      else l ← reconstruct_prefix_event l e; reconstruct_prefix l actions
  end.
