(* ===== verification/LiveTheory.v ===== *)
(** The counter of live Flows and the tracker of an application ([Live]).

    Safety: in every interleaving the counter is the number of guards that are held, it stays
    within the limit, and a refusal is justified by a moment of the call at which the limit was
    reached.  Liveness: a call that runs alone returns within two steps, and a failed exchange is
    spurious or the effect of another thread's progress. *)

From Stdlib Require Import ZArith Lia Ascii String.
From stdpp Require Import base strings sorting sets option gmap countable list.
From S2P Require Import Prelude Decimal Sorting Metadata Json FlowValue Event Lifecycle Validate.
From S2P Require Import Paths Values Blocks Registry Errors PhaseControl Policy OwnScript Context Builder.
From S2P Require Import Planner Live.

Open Scope Z_scope.

Module SlotsTheory.
Import Slots.

(** * Sums over the threads *)

Definition total (f : nat -> Z) (n : nat) : Z := foldr (fun t acc => f t + acc) 0 (seq 0 n).

(** The guards of all threads: threads from [n] on hold none. *)
Definition holds (s : state) (n : nat) : Prop :=
  (forall t, 0 <= guards s t) /\ (forall t, (n <= t)%nat -> guards s t = 0) /\ counter s = total (guards s) n.

Lemma update_eq {A} (f : nat -> A) t a : update f t a t = a.
Proof. unfold update. by rewrite decide_True. Qed.

Lemma update_ne {A} (f : nat -> A) t a u : u <> t -> update f t a u = f u.
Proof. intros H. unfold update. by rewrite decide_False. Qed.

Lemma foldr_sum_ext (f g : nat -> Z) l :
  (forall t, t ∈ l -> f t = g t) ->
  foldr (fun t acc => f t + acc) 0 l = foldr (fun t acc => g t + acc) 0 l.
Proof.
  induction l as [|u l IH]; intros H; [done|]. cbn. rewrite (H u) by constructor.
  rewrite IH; [done|]. intros t Ht. apply H. by constructor.
Qed.

Lemma foldr_sum_app (f : nat -> Z) l k :
  foldr (fun t acc => f t + acc) 0 (l ++ k)
  = foldr (fun t acc => f t + acc) 0 l + foldr (fun t acc => f t + acc) 0 k.
Proof. induction l as [|u l IH]; cbn; [done|]. rewrite IH. lia. Qed.

Lemma total_S f n : total f (S n) = total f n + f n.
Proof. unfold total. rewrite seq_S, foldr_sum_app. cbn. lia. Qed.

Lemma total_update f t z n :
  total (update f t z) n = total f n + (if decide (t < n)%nat then z - f t else 0).
Proof.
  induction n as [|n IH]; [done|]. rewrite !total_S, IH.
  destruct (decide (n = t)) as [->|Hne].
  - rewrite update_eq. rewrite decide_False by lia. rewrite decide_True by lia. lia.
  - rewrite update_ne by done. destruct (decide (t < n)%nat); [rewrite decide_True by lia; lia|].
    rewrite decide_False by lia. lia.
Qed.

Lemma total_extend f n m :
  (n <= m)%nat -> (forall t, (n <= t)%nat -> f t = 0) -> total f m = total f n.
Proof. intros Hle Hz. induction Hle; [done|]. rewrite total_S, (Hz m) by lia. lia. Qed.

Lemma total_nonneg f n : (forall t, 0 <= f t) -> 0 <= total f n.
Proof. intros H. induction n as [|n IH]; [done|]. rewrite total_S. specialize (H n). lia. Qed.

Lemma total_ge f n t : (forall t, 0 <= f t) -> (t < n)%nat -> f t <= total f n.
Proof.
  intros H. induction n as [|n IH]; intros Ht; [lia|]. rewrite total_S.
  destruct (decide (t = n)) as [->|Hne].
  - pose proof (total_nonneg f n H). lia.
  - specialize (IH ltac:(lia)). specialize (H n). lia.
Qed.

Lemma holds_extend s n m : (n <= m)%nat -> holds s n -> holds s m.
Proof.
  intros Hle (H1 & H2 & H3). split_and!; [done| |].
  - intros t Ht. apply H2. lia.
  - by rewrite (total_extend (guards s) n m).
Qed.

Lemma holds_update s n t z c p :
  holds s n -> 0 <= z -> c = counter s + (z - guards s t) ->
  exists n', holds (mkState c p (update (guards s) t z)) n'.
Proof.
  intros Hs Hz ->. exists (Nat.max n (S t)).
  apply (holds_extend _ _ (Nat.max n (S t))) in Hs as (H1 & H2 & H3); [|lia].
  split_and!; cbn [guards counter].
  - intros u. destruct (decide (u = t)) as [->|]; [by rewrite update_eq|by rewrite update_ne].
  - intros u Hu. rewrite update_ne by lia. by apply H2.
  - rewrite total_update, decide_True by lia. lia.
Qed.

(** * The invariant *)

Definition counter_inv (s : state) : Prop :=
  (exists n, holds s n) /\ counter s <= MAX_LIVE_FLOW_INVOCATIONS.

Lemma holds_guard_le s n t : holds s n -> guards s t <= counter s.
Proof.
  intros (H1 & H2 & ->). destruct (decide (t < n)%nat); [by apply total_ge|].
  rewrite H2 by lia. by apply total_nonneg.
Qed.

Lemma counter_inv_initial : counter_inv initial.
Proof. split; [|done]. exists 0%nat. by split_and!. Qed.

Lemma counter_inv_step s e s' : counter_inv s -> step s e s' -> counter_inv s'.
Proof.
  intros [[n Hn] Hc] Hstep.
  destruct Hstep as [t Hpc|t v Hpc Hv|t v Hpc Hv Heq|t v Hpc Hv|t Hg]; cbn [counter].
  1, 2, 4: by split; [exists n|].
  - split; [|cbn [counter]; lia]. eapply holds_update; [exact Hn| |lia].
    destruct Hn as (H1 & _). specialize (H1 t). lia.
  - split; [|cbn [counter]; lia]. eapply holds_update; [exact Hn|lia|lia].
Qed.

Lemma run_inv l s : run initial l s -> counter_inv s.
Proof.
  remember initial as s0 eqn:E0. intros Hrun.
  induction Hrun as [s|s l s1 e s2 _ IH Hstep]; subst; [by apply counter_inv_initial|].
  eapply counter_inv_step; [by apply IH|exact Hstep].
Qed.

(** * What a thread observed *)

(** [t] is in one call: it began none and returned from none. *)
Definition pending (t : nat) (l : list event) : Prop := (Began t ∉ l) /\ (Granted t ∉ l) /\ (Refused t ∉ l).

(** The moment of this run, since the call of [t] began, at which [t] read the value it holds. *)
Definition observed_at (t : nat) (v : Z) (l : list event) (s : state) : Prop :=
  exists before l1 l2 s', l = before ++ Began t :: l1 ++ l2 /\ pending t (l1 ++ l2) /\
    run initial (before ++ Began t :: l1) s' /\ run s' l2 s /\ counter s' = v.

Lemma run_app s l s1 k s2 : run s l s1 -> run s1 k s2 -> run s (l ++ k) s2.
Proof.
  intros H1 H2. induction H2 as [s1|s1 k s2 e s3 _ IH Hstep]; [by rewrite app_nil_r|].
  rewrite app_assoc. econstructor; [by apply IH|exact Hstep].
Qed.

Lemma pending_snoc t l e :
  pending t l -> e <> Began t -> e <> Granted t -> e <> Refused t -> pending t (l ++ [e]).
Proof.
  intros (H1 & H2 & H3) H4 H5 H6. split_and!; rewrite elem_of_app, list_elem_of_singleton; intros [?|?]; by subst.
Qed.

Lemma observed_step t v l s e s' :
  observed_at t v l s -> step s e s' -> e <> Began t -> e <> Granted t -> e <> Refused t ->
  observed_at t v (l ++ [e]) s'.
Proof.
  intros (before & l1 & l2 & s0 & -> & H1 & H2 & H3 & H4) Hstep Hb Hg Hr.
  exists before, l1, (l2 ++ [e]), s0. rewrite app_assoc. split_and!; [|by apply pending_snoc|done|by econstructor|done].
  by rewrite <- app_assoc.
Qed.

(** The first read of a call, and a later one. *)
Lemma observed_first t l s s' :
  run initial l s -> step s (Began t) s' -> counter s' = counter s -> observed_at t (counter s) (l ++ [Began t]) s'.
Proof.
  intros Hrun Hstep Hc. exists l, [], [], s'. split_and!; [done|split_and!; apply not_elem_of_nil..|by econstructor|constructor|done].
Qed.

Lemma observed_again t w l s s' :
  run initial l s -> observed_at t w l s -> step s Silent s' -> counter s' = counter s ->
  observed_at t (counter s) (l ++ [Silent]) s'.
Proof.
  intros Hrun (before & l1 & l2 & s0 & -> & H1 & _) Hstep Hc.
  exists before, ((l1 ++ l2) ++ [Silent]), [], s'. rewrite app_nil_r.
  assert ((before ++ Began t :: l1 ++ l2) ++ [Silent] = before ++ Began t :: (l1 ++ l2) ++ [Silent]) as E
    by (by rewrite <- app_assoc).
  split_and!; [done|by apply pending_snoc|rewrite <- E; by econstructor|constructor|done].
Qed.

Lemma run_observed l s t v : run initial l s -> pcs s t = InLoop v -> observed_at t v l s.
Proof.
  remember initial as s0 eqn:E0. intros Hrun. revert t v.
  induction Hrun as [s|s l s1 e s2 Hrun IH Hstep]; intros t v Hpc; subst; [done|].
  specialize (IH eq_refl). pose proof Hstep as Hs.
  destruct Hstep as [u Hu|u w Hu Hw|u w Hu Hw Heq|u w Hu Hw|u Hu]; cbn [pcs] in Hpc.
  1, 2, 3, 4: destruct (decide (t = u)) as [->|Hne];
    [rewrite update_eq in Hpc|rewrite update_ne in Hpc by done].
  - injection Hpc as <-. by eapply observed_first.
  - eapply observed_step; [by apply IH|exact Hs|congruence|done|done].
  - done.
  - eapply observed_step; [by apply IH|exact Hs|done|done|congruence].
  - done.
  - eapply observed_step; [by apply IH|exact Hs|done|congruence|done].
  - injection Hpc as <-. eapply observed_again; [done|by apply IH|exact Hs|done].
  - eapply observed_step; [by apply IH|exact Hs|done|done|done].
  - eapply observed_step; [by apply IH|exact Hs|done|done|done].
Qed.

Lemma run_snoc_inv s l e s' : run s (l ++ [e]) s' -> exists s1, run s l s1 /\ step s1 e s'.
Proof.
  intros H. remember (l ++ [e]) as k eqn:E. destruct H as [s|s k s1 e' s2 Hrun Hstep].
  - by destruct l.
  - apply app_inj_tail in E as [-> ->]. by exists s1.
Qed.

(** C28: In every interleaving of the threads the counter is the number of guards that are held, it
    is between 0 and the limit, so dropping a guard never wraps it around; and a call is refused
    only if all slots were taken at some moment of this run between the step with which the call
    began and its refusal. *)
Theorem slots_safe l s :
  run initial l s ->
  (exists n, (forall t, (n <= t)%nat -> guards s t = 0) /\ counter s = total (guards s) n)
  /\ 0 <= counter s <= MAX_LIVE_FLOW_INVOCATIONS
  /\ (forall t, 0 < guards s t -> 1 <= counter s)
  /\ forall l0 t, l = l0 ++ [Refused t] ->
       exists before l1 l2 s1, l0 = before ++ Began t :: l1 ++ l2 /\ pending t (l1 ++ l2)
         /\ run initial (before ++ Began t :: l1) s1 /\ run s1 (l2 ++ [Refused t]) s
         /\ counter s1 = MAX_LIVE_FLOW_INVOCATIONS.
Proof.
  intros Hrun. destruct (run_inv _ _ Hrun) as [[n Hn] Hc].
  pose proof Hn as (H1 & H2 & H3). split_and!.
  - by exists n.
  - rewrite H3. by apply total_nonneg.
  - done.
  - intros t Ht. pose proof (holds_guard_le s n t Hn). lia.
  - intros l0 t ->. apply run_snoc_inv in Hrun as (s1 & Hrun & Hstep). inversion Hstep; subst.
    edestruct run_observed as (before & l1 & l2 & s' & -> & P & R1 & R2 & E); [exact Hrun|eassumption|].
    exists before, l1, l2, s'. split_and!; [done|done|done|by econstructor|].
    destruct (run_inv _ _ R1) as [_ Hle]. lia.
Qed.

(** * Progress *)

Lemma alone_step t s e s' : alone t s = Some (e, s') -> step s e s'.
Proof.
  unfold alone. intros H. destruct (pcs s t) eqn:Hpc.
  - injection H as <- <-. by apply Load.
  - repeat case_match; injection H as <- <-.
    + eapply Limit; [exact Hpc|lia].
    + eapply Exchange; [exact Hpc|lia|lia].
    + eapply Retry; [exact Hpc|lia].
Qed.

(** The steps of a thread that runs alone, to its return. *)
Fixpoint call (fuel : nat) (t : nat) (s : state) : option (event * state) :=
  match fuel with
  | O => None
  | S fuel =>
      match alone t s with
      | Some (Silent, s') | Some (Began _, s') => call fuel t s'
      | r => r
      end
  end.

Lemma call_run fuel t s e s' : call fuel t s = Some (e, s') -> exists l, run s (l ++ [e]) s'.
Proof.
  revert s. induction fuel as [|fuel IH]; intros s; [done|]. cbn.
  destruct (alone t s) as [[[] s1]|] eqn:Hal; intros E; try discriminate E.
  3, 4, 5: injection E as <- <-; exists []; apply alone_step in Hal;
    exact (run_step s [] s _ _ (run_done s) Hal).
  all: apply alone_step in Hal; apply IH in E as [l Hl];
    match type of Hal with step _ ?e _ => exists ([e] ++ l) end; rewrite <- app_assoc;
    (eapply run_app; [|exact Hl]); apply (run_step s [] s); [constructor|exact Hal].
Qed.

(** The events that change the counter. *)
Definition changes (e : event) : bool := match e with Granted _ | Dropped _ => true | _ => false end.

Lemma constant_counter s l s' : run s l s' -> existsb changes l = false -> counter s' = counter s.
Proof.
  induction 1 as [s|s l s1 e s2 _ IH Hstep]; intros HF; [done|].
  rewrite existsb_app, orb_false_iff in HF. destruct HF as [HF He].
  rewrite <- IH by done. cbn in He. rewrite orb_false_r in He. by destruct Hstep.
Qed.

(** A call that begins with the counter below the limit and runs alone is granted its slot within
    two steps; at the limit it is refused within two steps; a call that is already in its loop
    also returns within two steps.  An exchange that finds another value than the expected one
    means that another call was granted or a guard was dropped since the value was read. *)
Theorem acquire_progress l s t :
  run initial l s ->
  (pcs s t = Outside ->
     exists s', call 2 t s = Some (if counter s <? MAX_LIVE_FLOW_INVOCATIONS then Granted t else Refused t, s')
                /\ counter s' = counter s + (if counter s <? MAX_LIVE_FLOW_INVOCATIONS then 1 else 0))
  /\ (exists e s', call 2 t s = Some (e, s') /\ (e = Granted t \/ e = Refused t)
                   /\ exists l', run initial (l ++ l' ++ [e]) s')
  /\ forall v, pcs s t = InLoop v -> counter s <> v ->
       exists l1 l2 s1, l = l1 ++ l2 /\ run initial l1 s1 /\ counter s1 = v /\ run s1 l2 s
         /\ Exists (fun e => match e with Granted u => u <> t | Dropped _ => True | _ => False end) l2.
Proof.
  intros Hrun. split_and!.
  - intros Hpc. unfold call, alone. rewrite Hpc. cbn [pcs counter]. rewrite update_eq.
    destruct (Z.ltb_spec (counter s) MAX_LIVE_FLOW_INVOCATIONS) as [Hlt|Hge].
    + rewrite (proj2 (Z.leb_gt _ _)) by lia. rewrite Z.eqb_refl. eexists. by split.
    + rewrite (proj2 (Z.leb_le _ _)) by lia. eexists. split; [done|]. cbn. lia.
  - assert (exists e s', call 2 t s = Some (e, s') /\ (e = Granted t \/ e = Refused t)) as (e & s' & H & He).
    { unfold call, alone. destruct (pcs s t) eqn:Hpc; cbn [pcs counter]; rewrite ?update_eq.
      all: repeat case_match; simplify_eq; try (cbn [pcs counter] in *; rewrite ?update_eq in *; simplify_eq);
        eauto 10; lia. }
    exists e, s'. split_and!; [done|done|]. apply call_run in H as [l' Hl']. exists l'. by eapply run_app.
  - intros v Hpc Hne. edestruct run_observed as (before & l1 & l2 & s1 & -> & P & R1 & R2 & E); [exact Hrun|exact Hpc|].
    exists (before ++ Began t :: l1), l2, s1. split_and!; [by rewrite <- app_assoc|done..|].
    destruct (existsb changes l2) eqn:Hex.
    + apply existsb_exists in Hex as (e & Hin%list_elem_of_In & He). apply Exists_exists.
      exists e. split; [done|]. destruct e; try done. intros ->. apply (proj1 (proj2 P)). by apply elem_of_app; right.
    + exfalso. apply Hne. rewrite <- E. by eapply constant_counter.
Qed.
End SlotsTheory.
