(* ===== verification/ReserveTheory.v ===== *)
(** What a plan reserves for its failures: at every effect and at every start of a Flow the plan
    has room for the events that end the session there, and they end it properly. *)

From Stdlib Require Import ZArith Lia Ascii String.
From stdpp Require Import base strings sorting sets option gmap countable list.
From S2P Require Import Prelude Decimal Sorting Metadata Json FlowValue Event Lifecycle.
From S2P Require Import LifecycleTheory Validate ValidateTheory StreamProps.
From S2P Require Import Paths Values ValuesTheory Blocks CanonicalBlock Registry NestingTheory RegistryTheory.
From S2P Require Import Errors EffectTheory PhaseControl PhaseControlTheory Policy PolicyTheory.
From S2P Require Import OwnScript OwnScriptTheory Context ContextTheory.
From S2P Require Import Builder BuilderTheory Planner NoPanic PlannerTheory PlanProps AlternativeTheory Live.

Open Scope Z_scope.

(** * The Flows that are running after some events *)

Fixpoint remove_boundary (flow : string) (stack : list PlannedFlowFailureBoundary)
    : option (list PlannedFlowFailureBoundary) :=
  match stack with
  | [] => None
  | bd :: stack =>
      match remove_boundary flow stack with
      | Some stack => Some (bd :: stack)
      | None => if String.eqb (boundary_flow_id bd) flow then Some stack else None
      end
  end.

Definition track_flow (stack : list PlannedFlowFailureBoundary) (e : EventEnvelope)
    : list PlannedFlowFailureBoundary :=
  match event_type e with
  | FlowStarted => match flow_boundary e with Ok bd => stack ++ [bd] | _ => stack end
  | FlowCompleted | FlowFailed =>
      match flow_id e with Some flow => default stack (remove_boundary flow stack) | None => stack end
  | _ => stack
  end.

Definition running (l : list EventEnvelope) : list PlannedFlowFailureBoundary := foldl track_flow [] l.

Lemma remove_boundary_last flow stack bd :
  boundary_flow_id bd = flow -> remove_boundary flow (stack ++ [bd]) = Some stack.
Proof.
  intros <-. induction stack as [|x stack IH]; cbn; [by rewrite String.eqb_refl|]. by rewrite IH.
Qed.

Lemma running_snoc l e : running (l ++ [e]) = track_flow (running l) e.
Proof. unfold running. by rewrite foldl_app. Qed.

Lemma track_other stack e : set_apart (event_type e) = false -> track_flow stack e = stack.
Proof. unfold track_flow. by destruct (event_type e). Qed.

Section reserve.
Context {J : JsonEnv} {R : RuntimeEnv}.

(** A boundary as it is read back from an event. *)
Definition normal_boundary (bd : PlannedFlowFailureBoundary) : PlannedFlowFailureBoundary :=
  mkBoundary (nfc_string (boundary_definition_id bd)) (boundary_flow_id bd) (boundary_parent_flow_id bd).

(** * What is reserved *)

Section session.
Context (session : string) (clk : EventClock).

(** The effect is numbered by the event that follows it, and the plan up to [pre] can be ended by
    any failure of the effect. *)
Definition fixture_reserved (pre : list FlowExecutionAction) (a : PlannedFixtureAction) : Prop :=
  completion_sequence a = len (omap emitted_action pre) + 1 /\
  exists b, builder_sound session b /\ clock b = clk /\ actions b = pre /\
    validate_failure_capacity (failure_transition a) b = Ok tt.

Definition start_reserved (pre : list FlowExecutionAction) (e : EventEnvelope) : Prop :=
  exists b stack, builder_sound session b /\ clock b = clk /\ actions b = pre /\
    running (emitted_events b) = map normal_boundary stack /\
    validate_alternative_transition b "live invocation failure transition"
      (live_invocation_failure_transition_events stack live_invocation_failure) = Ok tt /\
    exists bd, flow_boundary e = Ok bd.

(** A trusted command of the plan can still be run under its policy. *)
Definition effect_runs (command : CommandPolicy) (eff : PlannedFixtureEffect) : Prop :=
  forall command_id argv progress, eff = EffectPredefined command_id argv progress ->
    exists p, execute_predefined_command command command_id argv = Ok p.

Record reserved (l : list FlowExecutionAction) : Prop := {
  rs_fixture : forall pre a post, l = pre ++ ActionFixture a :: post ->
    fixture_reserved pre a /\ effect_runs (fixture_command_policy a) (effect a);
  rs_start : forall pre a post, l = pre ++ ActionEvent a :: post ->
    event_type (constructed_event (action_event a)) = FlowStarted ->
    start_reserved pre (constructed_event (action_event a));
}.

Lemma reserved_nil : reserved [].
Proof. by constructor; intros [|? ?]. Qed.

Lemma reserved_snoc l x :
  reserved l ->
  (forall a, x = ActionFixture a -> fixture_reserved l a /\ effect_runs (fixture_command_policy a) (effect a)) ->
  (forall a, x = ActionEvent a -> event_type (constructed_event (action_event a)) = FlowStarted ->
     start_reserved l (constructed_event (action_event a))) ->
  reserved (l ++ [x]).
Proof.
  intros [H1 H2] Hf Hs. constructor; intros pre a post Hl; destruct post as [|y post _] using rev_ind.
  - apply app_inj_tail in Hl as [<- ->]. by apply Hf.
  - rewrite app_comm_cons, app_assoc in Hl. apply app_inj_tail in Hl as [Hl _]. by eapply H1.
  - apply app_inj_tail in Hl as [<- ->]. by apply Hs.
  - rewrite app_comm_cons, app_assoc in Hl. apply app_inj_tail in Hl as [Hl _]. by eapply H2.
Qed.

(** * The invariant of planning *)

Record reserving (stack : list PlannedFlowFailureBoundary) (b : RuntimeEventBuilder) : Prop := {
  rv_sound : builder_sound session b;
  rv_clock : clock b = clk;
  rv_reserved : reserved (actions b);
  rv_running : running (emitted_events b) = map normal_boundary stack;
}.

Lemma reserving_same {A} (m : eff RuntimeEventBuilder A) stack :
  keeps (builder_sound session) m ->
  (forall b, actions (m b).1 = actions b /\ clock (m b).1 = clock b) -> keeps (reserving stack) m.
Proof.
  intros Hm Hs b [H1 H2 H3 H4]. destruct (Hs b) as [Ha Hc].
  constructor; [by apply Hm|by rewrite Hc|by rewrite Ha|].
  unfold emitted_events, emitted, emitted_actions in *. by rewrite Ha.
Qed.

(** An event that was emitted, with the builder around it. *)
Lemma emit_appends inv t p b b' :
  emit inv t p b = (b', Ok tt) ->
  exists a, actions b' = actions b ++ [ActionEvent a] /\ clock b' = clock b /\
    constructs b inv t p (action_event a).
Proof.
  intros [(c & cp & b0 & v & _ & Hc & Htk & _ & -> & _)|[_ [err [=]]]]%emit_cases.
  destruct (takes_fields _ _ _ _ Htk) as (_ & _ & Ha & Hk & _).
  eexists. cbn [actions clock with_event]. rewrite Ha, Hk. by split_and!.
Qed.

Lemma emitted_events_snoc b b' a :
  actions b' = actions b ++ [ActionEvent a] ->
  emitted_events b' = emitted_events b ++ [constructed_event (action_event a)].
Proof.
  intros Ha. unfold emitted_events, emitted, emitted_actions. rewrite Ha, omap_app, !map_app. done.
Qed.

Lemma emit_fail_same inv t p b b' err :
  emit inv t p b = (b', Err err) -> actions b' = actions b /\ clock b' = clock b.
Proof. by intros [(c & cp & b0 & v & _ & _ & _ & _ & _ & [=])|[[->| ->] _]]%emit_cases. Qed.

Lemma reserving_emit stack inv t p : set_apart t = false -> keeps (reserving stack) (emit inv t p).
Proof.
  intros Ht b [H1 H2 H3 H4]. pose proof (emit_keeps session inv t p b H1) as Hk.
  destruct (emit inv t p b) as [b' [[]|err|]] eqn:E; cbn in *.
  - destruct (emit_appends _ _ _ _ _ E) as (a & Ha & Hc & Hcon).
    assert (event_type (constructed_event (action_event a)) = t) as Hty.
    { destruct Hcon as [ts line _ e _]. apply runtime_event_type. }
    constructor; [done|congruence| |].
    + rewrite Ha. apply reserved_snoc; [done|done|]. intros a' [= <-]. rewrite Hty. intros ->. done.
    + rewrite (emitted_events_snoc _ _ _ Ha), running_snoc, track_other by (by rewrite Hty). done.
  - destruct (emit_fail_same _ _ _ _ _ _ E) as [Ha Hc]. constructor; [done|congruence|by rewrite Ha|].
    unfold emitted_events, emitted, emitted_actions in *. by rewrite Ha.
  - apply emit_cases in E as [(c & cp & b0 & v & _ & _ & _ & _ & _ & [=])|[_ [err [=]]]].
Qed.

Lemma started_boundary flow inv b c :
  constructs b (Some inv) FlowStarted (flow_started_payload flow) c ->
  flow_boundary (constructed_event c) = Ok (normal_boundary (flow_boundary_of flow inv)).
Proof.
  intros [ts line _ e Hline]. unfold flow_boundary, payload_str. cbn [constructed_event].
  pose proof (canonical_jsonl_v0 _ _ Hline) as Hv. unfold e in *. rewrite runtime_event_payload by done.
  rewrite value_get_nfc. done.
Qed.

Lemma reserving_start stack flow inv b b' :
  reserving stack b ->
  validate_alternative_transition b "live invocation failure transition"
    (live_invocation_failure_transition_events stack live_invocation_failure) = Ok tt ->
  emit (Some inv) FlowStarted (flow_started_payload flow) b = (b', Ok tt) ->
  reserving (stack ++ [flow_boundary_of flow inv]) b'.
Proof.
  intros [H1 H2 H3 H4] Hv He. destruct (emit_appends _ _ _ _ _ He) as (a & Ha & Hc & Hcon).
  pose proof (started_boundary _ _ _ _ Hcon) as Hbd.
  assert (event_type (constructed_event (action_event a)) = FlowStarted) as Hty.
  { destruct Hcon as [ts line _ e _]. apply runtime_event_type. }
  constructor; [|congruence| |].
  - pose proof (emit_keeps session (Some inv) FlowStarted (flow_started_payload flow) b H1) as Hk.
    by rewrite He in Hk.
  - rewrite Ha. apply reserved_snoc; [done|done|]. intros a' [= <-] _.
    exists b, stack. split_and!; try done. by eexists.
  - rewrite (emitted_events_snoc _ _ _ Ha), running_snoc, H4. unfold track_flow. by rewrite Hty, Hbd, map_app.
Qed.

Lemma reserving_end stack flow inv t p b b' :
  t = FlowCompleted \/ t = FlowFailed -> reserving (stack ++ [flow_boundary_of flow inv]) b ->
  emit (Some inv) t p b = (b', Ok tt) -> reserving stack b'.
Proof.
  intros Ht [H1 H2 H3 H4] He. destruct (emit_appends _ _ _ _ _ He) as (a & Ha & Hc & Hcon).
  assert (event_type (constructed_event (action_event a)) = t /\
    flow_id (constructed_event (action_event a)) = Some (invocation_flow_id inv)) as [Hty Hfl].
  { destruct Hcon as [ts line _ e _]. split; [apply runtime_event_type|apply runtime_event_flow]. }
  constructor; [|congruence| |].
  - pose proof (emit_keeps session (Some inv) t p b H1) as Hk. by rewrite He in Hk.
  - rewrite Ha. apply reserved_snoc; [done|done|]. intros a' [= <-]. rewrite Hty. by destruct Ht as [->| ->].
  - rewrite (emitted_events_snoc _ _ _ Ha), running_snoc, H4. unfold track_flow. rewrite Hty, Hfl, map_app. cbn [map].
    rewrite remove_boundary_last by done. by destruct Ht as [->| ->].
Qed.

Lemma reserving_fixture stack tr policy eff b :
  effect_runs (policy_command policy) eff -> validate_failure_capacity tr b = Ok tt -> reserving stack b ->
  reserving stack (record_fixture_action tr policy (builder_sequence b + 1) eff b).1.
Proof.
  intros Hr Hcap [H1 H2 H3 H4]. constructor; [by apply record_fixture_keeps|done| |].
  - cbn [record_fixture_action fst actions with_plan]. apply reserved_snoc; [done| |done].
    intros a [= <-]. split; [|done]. split; [|by exists b]. destruct H1 as [st Hok]. cbn.
    rewrite (bo_sequence _ _ _ Hok). unfold len, emitted, emitted_actions. by rewrite length_map.
  - unfold emitted_events, emitted, emitted_actions in *. cbn [record_fixture_action fst actions with_plan].
    rewrite omap_app. cbn. by rewrite app_nil_r.
Qed.

Lemma compiled_effect_runs tool command eff progress :
  compile_fixture_tool_effect tool command = Ok (eff, progress) -> effect_runs command eff.
Proof.
  unfold compile_fixture_tool_effect, effect_runs. intros H command_id argv p ->.
  destruct (tool_kind tool), (tool_command tool); try done; apply bind_Ok_inv in H as (x & Hx & H);
    [|discriminate H]. injection H as <- <- _ _. by exists x.
Qed.
End session.

(** * The reserve of a plan *)

Lemma plan_reserved registry policy root session options ex :
  compile_flow_plan registry policy root session options = Ok ex ->
  reserved session (option_clock options) (exec_actions ex) /\ running (plan_events ex) = [].
Proof.
  unfold compile_flow_plan. destruct (plan_session _ _ _ _ _) as [b' res] eqn:E. cbn. intros ->.
  pose (context := mkEmitContext registry policy (option_stub_model_fixture_profile options)).
  destruct (plan_session_inv (reserving session (option_clock options)) (fun _ => effect_runs)
    (reserving_emit session (option_clock options)) (reserving_start session (option_clock options))
    (reserving_end session (option_clock options))) with (context := context) (root := root) (options := options)
    (b := with_clock session (option_clock options) true) (b' := b') (ex := ex)
    as (b1 & payload & err & Hb1 & Hex & He); try done.
  - intros stack parent. apply reserving_same; [apply next_flow_keeps|]. intros b. unfold next_flow_invocation. by case_match.
  - intros stack. apply reserving_same; [apply next_phase_keeps|]. intros b. unfold next_phase_execution_id. by case_match.
  - intros stack. by apply reserving_same; [apply next_message_keeps|].
  - intros stack inv tool pol. apply reserving_same; [apply record_intent_keeps|]. intros b.
    unfold record_tool_intent. by case_match.
  - intros stack m o. apply reserving_same; [apply record_context_keeps|]. intros b.
    unfold record_context_manifest. by case_match.
  - intros stack tr pol eff b. apply reserving_fixture.
  - intros ref tr tool command eff progress _ _ _. apply compiled_effect_runs.
  - constructor; [eexists; apply builder_ok_new|done|apply reserved_nil|done].
  - pose proof (reserving_emit session (option_clock options) [] None
      (if exec_failed ex then SessionFailed else SessionCompleted) payload ltac:(by destruct (exec_failed ex)) b1 Hb1) as H.
    rewrite He in H. destruct H as [_ _ H3 H4]. rewrite Hex. split; [exact H3|].
    unfold plan_events, plan_constructed. rewrite Hex. exact H4.
Qed.

(** * Ending the session from the reserve *)

Lemma emit_all_app l k b :
  emit_all (l ++ k) b = (_ ← emit_all l; emit_all k) b.
Proof.
  revert b. induction l as [|p l IH]; intros b; [done|]. cbn [app emit_all]. rewrite !eff_bind_eq.
  destruct (emit _ _ _ b) as [b1 [[]|err|]]; [|done|done]. by rewrite IH, !eff_bind_eq.
Qed.

Lemma emit_all_keeps session l : keeps (builder_sound session) (emit_all l).
Proof. induction l as [|p l IH]; cbn [emit_all]; [apply keeps_ret|]. apply keeps_bind; [apply emit_keeps|done]. Qed.

Lemma sequence_is_count session b : builder_sound session b -> builder_sequence b = record_count (events b).
Proof.
  intros [st Hok]. rewrite (bo_sequence _ _ _ Hok), (bo_events _ _ _ Hok).
  destruct (builder_budget _ _ _ Hok) as (_ & _ & _ & Hn). unfold MAX_FLOW_EVENTS in Hn.
  rewrite signature_record_count; unfold len in *; rewrite ?length_map; cbn [record_count signature_new];
    unfold u64_max in *; lia.
Qed.

(** The signature of some lines. *)
Definition signed (cs : list ConstructedRuntimeEvent) : RuntimeStreamSignatureBuilder :=
  foldl signature_push (signature_new EVENT_PLAN_DOMAIN) (map constructed_jsonl cs).

(** The events of a transition that fits end the session. *)
Lemma alternative_closes session b label planned payload :
  builder_sound session b -> Forall plain (planned ++ [mkPlanned None SessionFailed payload]) ->
  validate_alternative_transition b label (planned ++ [mkPlanned None SessionFailed payload]) = Ok tt ->
  exists cs, constructible b label (planned ++ [mkPlanned None SessionFailed payload]) cs /\
    stream_closed session (emitted b ++ cs) true (signature (signed (emitted b ++ cs))).
Proof.
  intros Hb Hpl Hv. pose proof Hb as [st Hok].
  destruct (proj1 (alternative_Ok b label st _ (bo_validation _ _ _ Hok)) Hv) as (cs & _ & Hc & _).
  destruct (proj1 (alternative_transition_dry_run session b label _ Hb Hpl) Hv) as (cs' & b' & Hcs' & He & Hem).
  pose proof (proj1 Hc) as Hcs. rewrite (bo_session _ _ _ Hok) in Hcs. rewrite Hcs in Hcs'. injection Hcs' as <-.
  exists cs. split; [done|]. rewrite emit_all_app in He. apply eff_bind_Ok in He as (b1 & [] & He1 & He2).
  cbn [emit_all planned_invocation planned_type planned_payload] in He2.
  apply eff_bind_Ok in He2 as (b2 & [] & He2 & [= ->]).
  assert (builder_sound session b1) as Hb1 by (eapply keeps_result; [apply emit_all_keeps|exact Hb|exact He1]).
  pose proof (emitted_closed session b1 b' true payload Hb1 He2) as Hcl. rewrite Hem in Hcl.
  unfold signed. by rewrite <- (pc_signature _ _ _ _ Hcl).
Qed.

(** ** Effects *)

Lemma fixture_failure_last tr f planned :
  fixture_failure_transition_events tr f = Ok planned ->
  exists l, planned = l ++ [mkPlanned None SessionFailed (JObject [("reason", JString (failure_reason f))])].
Proof.
  unfold fixture_failure_transition_events, flow_failure_tail. cbn zeta. intros H. inv_ok.
  eexists (_ :: _ :: (_ ++ _ :: _ :: _)). cbn. by rewrite <- app_assoc.
Qed.

Lemma fixture_reserve_closes session clk pre a err :
  fixture_reserved session clk pre a -> should_terminalize_error err = false ->
  exists b planned cs, builder_sound session b /\ clock b = clk /\ actions b = pre /\
    fixture_failure_transition_events (failure_transition a) (runtime_failure_for_unhandled_error err) = Ok planned /\
    constructible b "runtime failure transition" planned cs /\
    stream_closed session (emitted b ++ cs) true (signature (signed (emitted b ++ cs))).
Proof.
  intros (_ & b & Hb & Hk & Ha & Hcap) He.
  destruct (failure_capacity_error session b _ err Hb Hcap He) as (planned & Hp & Hv & Hpl).
  destruct (fixture_failure_last _ _ _ Hp) as [l ->].
  destruct (alternative_closes session b _ l _ Hb Hpl Hv) as (cs & Hc & Hcl). by eexists b, _, cs.
Qed.

(** ** Starts of Flows *)

Section normal.
Context {JL : JsonLaws}.

Definition same_runtime (p p' : PlannedRuntimeEvent) : Prop :=
  planned_invocation p = planned_invocation p' /\ planned_type p = planned_type p' /\
  forall session n ts inv t,
    runtime_event session n ts inv t (planned_payload p) = runtime_event session n ts inv t (planned_payload p').

Lemma construct_from_same session clk start ps ps' : forall index,
  Forall2 same_runtime ps ps' ->
  construct_from session clk start index ps = construct_from session clk start index ps'.
Proof.
  intros index H. revert index. induction H as [|p p' ps ps' (Hi & Ht & Hp) _ IH]; intros index; [done|].
  cbn [construct_from]. cbn zeta. rewrite Hi, Ht. destruct (clock_timestamp _ _); [|done..].
  cbn [mbind result_bind]. by rewrite Hp, IH.
Qed.

Lemma flow_failed_normal reason d session n ts inv t :
  runtime_event session n ts inv t (flow_failed_payload reason (nfc_string d))
  = runtime_event session n ts inv t (flow_failed_payload reason d).
Proof.
  unfold runtime_event. f_equal. unfold Event.new.
  assert (forall x, json_nesting_reaches_limit (flow_failed_payload reason x) 1 = false) as Hd by done.
  rewrite !Hd. f_equal. unfold flow_failed_payload.
  change (JObject [("error"%string, JString (nfc_string reason)); ("flow_definition_id"%string, JString (nfc_string (nfc_string d)))]
    = JObject [("error"%string, JString (nfc_string reason)); ("flow_definition_id"%string, JString (nfc_string d))]).
  by rewrite nfc_string_idem.
Qed.

Lemma live_failure_normal stack f :
  Forall2 same_runtime (live_invocation_failure_transition_events (map normal_boundary stack) f)
    (live_invocation_failure_transition_events stack f).
Proof.
  unfold live_invocation_failure_transition_events, flow_failure_tail. constructor.
  - split_and!; [|done|done]. cbn [planned_invocation]. change (map normal_boundary stack) with (normal_boundary <$> stack). rewrite fmap_last.
    by destruct (last stack).
  - apply Forall2_app; [|by constructor]. rewrite <- map_rev. induction (rev stack) as [|bd l IH]; constructor; [|done].
    split_and!; [done|done|]. intros. apply flow_failed_normal.
Qed.

Lemma live_failure_report stack f f' :
  same_report f f' -> live_invocation_failure_transition_events stack f = live_invocation_failure_transition_events stack f'.
Proof.
  intros (H1 & H2 & H3). unfold live_invocation_failure_transition_events, runtime_error_payload, flow_failure_tail.
  by rewrite H1, H2, H3.
Qed.

Lemma live_failure_plain stack f : Forall plain (live_invocation_failure_transition_events stack f).
Proof. constructor; [done|]. apply flow_failure_tail_plain. Qed.

Lemma start_reserve_closes session clk pre e :
  start_reserved session clk pre e ->
  exists b cs, builder_sound session b /\ clock b = clk /\ actions b = pre /\
    constructible b "live invocation failure transition"
      (live_invocation_failure_transition_events (running (emitted_events b)) live_invocation_failure) cs /\
    stream_closed session (emitted b ++ cs) true (signature (signed (emitted b ++ cs))).
Proof.
  intros (b & stack & Hb & Hk & Ha & Hrun & Hv & _). exists b.
  destruct (alternative_closes session b "live invocation failure transition"
    (mkPlanned (boundary_invocation <$> last stack) Metadata.Error (runtime_error_payload live_invocation_failure)
     :: map (fun b => mkPlanned (Some (boundary_invocation b)) FlowFailed
                  (flow_failed_payload (failure_reason live_invocation_failure) (boundary_definition_id b))) (rev stack))
    (JObject [("reason"%string, JString (failure_reason live_invocation_failure))])) as (cs & [Hc Hcap] & Hcl);
    [done|apply live_failure_plain|exact Hv|].
  exists cs. split_and!; try done. split; [|done]. rewrite Hrun. unfold construct_runtime_transition in *.
  by rewrite (construct_from_same _ _ _ _ _ _ (live_failure_normal stack live_invocation_failure)).
Qed.
End normal.
End reserve.
