(* ===== verification/Apply.v ===== *)
(** Applying a plan ([flow-agent-core/src/runtime/apply.rs], the effects of
    [fixture_effects.rs]): the events of the plan are committed to a sink, its effects are made
    in the workspace, and a failure of an effect ends the session with the events the plan
    reserved room for.

    What the sink, the workspace and the other threads do is the surroundings' part: every
    request is recorded in a trace, and the answer may depend on everything requested before.
    Theorems hold for all surroundings. *)

From Stdlib Require Import ZArith Lia Ascii String.
From stdpp Require Import base strings sorting sets option gmap countable list.
From S2P Require Import Prelude Decimal Sorting Metadata Json FlowValue Event Lifecycle Validate.
From S2P Require Import Paths Values Blocks Registry Errors PhaseControl Policy OwnScript Context Builder.
From S2P Require Import Planner Live.

Open Scope Z_scope.

(** * Requests *)

Inductive Request : Type :=
| IoVerifyIdentity
| IoVerifyBinding
| IoPreflightOutputs (write : option ScriptWrite)
| IoWrite (write : ScriptWrite)
| IoPreflightAlternatives (alternatives : list (list ConstructedRuntimeEvent))
| IoCommit (constructed : ConstructedRuntimeEvent) (context_manifest : option ContextManifestCheckpoint)
| IoAcquire.

(** The trait [RuntimeEventSink], the anchored workspace and the counter of live Flows. *)
Class Surroundings : Type := {
  (** [verify_identity], [verify_binding], [preflight_own_script_outputs], [write_script_output],
      [preflight_alternatives] and [commit_constructed] *)
  answer : list Request -> Request -> result RuntimeError unit;
  (** [needs_alternative_preflight] *)
  needs_alternative_preflight : list Request -> bool;
  (** the counter, at the last time [acquire_live_flow_invocation] observes it *)
  observed_live : list Request -> Z;
}.

Section apply.
Context {J : JsonEnv} {R : RuntimeEnv} {N : Surroundings}.

(** [RuntimeError::to_string], part of which is the text of [io::Error]. *)
Context (error_text : RuntimeError -> string).

Record ApplyState : Type := mkApply {
  trace : list Request;
  live : LiveFlowInvocations;
  event_signature : RuntimeStreamSignatureBuilder;
  context_signature : RuntimeStreamSignatureBuilder;
}.

Definition with_live (s : ApplyState) (l : LiveFlowInvocations) : ApplyState :=
  mkApply (trace s) l (event_signature s) (context_signature s).

(** A request and its answer. *)
Definition perform (io : Request) : eff ApplyState unit :=
  fun s => (mkApply (trace s ++ [io]) (live s) (event_signature s) (context_signature s), answer (trace s) io).

(** [match m { Err(error) => .., Ok(a) => .. }] *)
Definition attempt {A} (m : eff ApplyState A) : eff ApplyState (A + RuntimeError) :=
  fun s =>
    match m s with
    | (s, Ok a) => (s, Ok (inl a))
    | (s, Err error) => (s, Ok (inr error))
    | (s, Panic) => (s, Panic)
    end.

(** * Live invocations *)

Definition live_limit_error : RuntimeError :=
  Protocol ("global live flow invocation limit reached: max " +:+ Z_to_string MAX_LIVE_FLOW_INVOCATIONS).

Definition acquire_live_flow_invocation : eff ApplyState unit :=
  fun s =>
    (mkApply (trace s ++ [IoAcquire]) (live s) (event_signature s) (context_signature s),
     if MAX_LIVE_FLOW_INVOCATIONS <=? observed_live (trace s) then Err live_limit_error else Ok tt).

Definition set_live (l : LiveFlowInvocations) : eff ApplyState unit := fun s => (with_live s l, Ok tt).

Definition before_event (e : EventEnvelope) : eff ApplyState unit :=
  l ← reads (fun s : ApplyState => Ok (live s));
  if should_process l e && bool_decide (event_type e = FlowStarted) then
    boundary ← lift (flow_boundary e);
    _ ← (if acquire_slots l then acquire_live_flow_invocation else mret tt);
    set_live (with_active l (active_invocations l ++ [mkActive boundary (acquire_slots l)]))
  else mret tt.

Definition after (e : EventEnvelope) : eff ApplyState unit := fun s => (with_live s (after_event (live s) e), Ok tt).

(** The loop that takes a guard for each invocation of the prefix. *)
Fixpoint acquire_all (done pending : list ActiveLiveInvocation) : eff ApplyState (list ActiveLiveInvocation) :=
  match pending with
  | [] => mret done
  | a :: pending =>
      _ ← acquire_live_flow_invocation;
      acquire_all (done ++ [mkActive (active_boundary a) true]) pending
  end.

Definition tracker_for (mode : ToolSideEffectMode) : LiveFlowInvocations :=
  match mode with
  | ModeApply => mkLive true [] 0 true
  | ModeResume prefix => mkLive true [] prefix true
  | ModePreflightResume prefix => mkLive false [] prefix true
  | ModePlan => mkLive false [] 0 false
  end.

Definition for_application (actions : list FlowExecutionAction) (mode : ToolSideEffectMode)
    : eff ApplyState unit :=
  let tracker := tracker_for mode in
  if negb (tracks_events tracker) then set_live tracker
  else
    tracker ← lift (reconstruct_prefix tracker actions);
    if acquire_slots tracker then
      active ← acquire_all [] (active_invocations tracker);
      set_live (with_active tracker active)
    else set_live tracker.

(** * Effects ([fixture_effects.rs]) *)

Definition preflight_planned_fixture_effect (action : PlannedFixtureAction) : eff ApplyState unit :=
  match effect action with
  | EffectPredefined command_id argv _ =>
      _ ← lift (execute_predefined_command (fixture_command_policy action) command_id argv); mret tt
  | EffectOwnScript _ write => perform (IoPreflightOutputs write)
  end.

Definition apply_planned_fixture_effect (action : PlannedFixtureAction) : eff ApplyState unit :=
  match effect action with
  | EffectPredefined command_id argv _ =>
      _ ← lift (execute_predefined_command (fixture_command_policy action) command_id argv); mret tt
  | EffectOwnScript _ write =>
      match write with
      | Some write => perform (IoWrite write)
      | None => mret tt
      end
  end.

Definition runtime_failure_for_tool_error (err : RuntimeError) (tool_id : string) : option RuntimeFailure :=
  match err with
  | Denied reason => Some (runtime_failure_for_reason reason (Some tool_id))
  | _ => None
  end.

(** * The application *)

Record FlowApplication : Type := mkApplication {
  app_session_id : string;
  app_options : FlowExecutionOptions;
  app_execution : RuntimeExecution;
  app_has_sink : bool;
}.

Section application.
Context (application : FlowApplication).

Abbreviation mode := (side_effect_mode (app_options application)).
Abbreviation plan := (app_execution application).

Definition validate_flow_application : result RuntimeError unit :=
  match mode with
  | ModePlan => Err (Protocol "flow apply cannot use ToolSideEffectMode::Plan")
  | _ => Ok tt
  end.

Definition handles_tool (action : PlannedFixtureAction) : bool :=
  should_execute_tool mode (completion_sequence action) || should_preflight_tool mode (completion_sequence action).

Fixpoint preflight_actions (actions : list FlowExecutionAction) : eff ApplyState unit :=
  match actions with
  | [] => mret tt
  | ActionFixture action :: actions =>
      _ ← (if handles_tool action then preflight_planned_fixture_effect action else mret tt);
      preflight_actions actions
  | ActionEvent _ :: actions => preflight_actions actions
  end.

Definition preflight_flow_execution_plan : eff ApplyState unit :=
  _ ← perform IoVerifyIdentity;
  preflight_actions (exec_actions plan).

Definition construct_runtime_alternative (planned : list PlannedRuntimeEvent) (label : string) (s : ApplyState)
    : result RuntimeError (list ConstructedRuntimeEvent) :=
  events ← construct_runtime_transition (app_session_id application) (option_clock (app_options application))
    (record_count (event_signature s)) planned;
  _ ← validate_runtime_transition_capacity (record_count (event_signature s))
    (byte_count (event_signature s)) label events;
  Ok events.

Definition failure_label : string := "runtime failure transition".
Definition live_failure_label : string := "live invocation failure transition".

(** Whether the sink is there and asks for the alternatives. *)
Definition wants_preflight : eff ApplyState bool :=
  reads (fun s => Ok (app_has_sink application && needs_alternative_preflight (trace s))).

Definition preflight_fixture_failure_transitions (action : PlannedFixtureAction) : eff ApplyState unit :=
  wanted ← wants_preflight;
  if (wanted : bool) then
    alternatives ← reads (fun s : ApplyState => try_collect (fun failure =>
      planned ← fixture_failure_transition_events (failure_transition action) failure;
      construct_runtime_alternative planned failure_label s) fixture_failure_capacity_candidates);
    perform (IoPreflightAlternatives alternatives)
  else mret tt.

Definition preflight_live_invocation_failure_transition : eff ApplyState unit :=
  wanted ← wants_preflight;
  if (wanted : bool) then
    alternative ← reads (fun s : ApplyState => construct_runtime_alternative
      (live_invocation_failure_transition_events (active_boundaries (live s)) live_invocation_failure)
      live_failure_label s);
    perform (IoPreflightAlternatives [alternative])
  else mret tt.

Definition commit (c : ConstructedRuntimeEvent) (cp : option ContextManifestCheckpoint) : eff ApplyState unit :=
  if app_has_sink application then perform (IoCommit c cp) else mret tt.

Definition push_event (c : ConstructedRuntimeEvent) : eff ApplyState unit :=
  fun s => (mkApply (trace s) (live s) (signature_push (event_signature s) (constructed_jsonl c))
              (context_signature s), Ok tt).

Definition push_context (cp : option ContextManifestCheckpoint) : eff ApplyState unit :=
  fun s => (mkApply (trace s) (live s) (event_signature s)
              (match cp with
               | Some cp => signature_push (context_signature s) (manifest_line (checkpoint_manifest cp))
               | None => context_signature s
               end), Ok tt).

Fixpoint commit_constructed_transition (events : list ConstructedRuntimeEvent) : eff ApplyState unit :=
  match events with
  | [] => mret tt
  | constructed :: events =>
      _ ← before_event (constructed_event constructed);
      _ ← commit constructed None;
      _ ← push_event constructed;
      _ ← after (constructed_event constructed);
      commit_constructed_transition events
  end.

Definition failed_execution (failure : RuntimeFailure) (terminal_error : option RuntimeError) (s : ApplyState)
    : RuntimeExecution :=
  mkExecution (exec_actions plan) (signature (context_signature s)) (signature (event_signature s)) true
    (Some (render_human_failure_status (failure_reason failure) (Some (failure_message failure))))
    terminal_error (exec_tool_intents plan).

Definition tool_error_failure (action : PlannedFixtureAction) (error : RuntimeError) : RuntimeFailure :=
  let tool_id := ft_tool_id (failure_transition action) in
  let failure := default (runtime_failure_for_unhandled_error error)
                   (runtime_failure_for_tool_error error tool_id) in
  mkFailure (failure_reason failure) (failure_message failure) (failure_data failure) (Some tool_id)
    (failure_phase_id failure) (emit_tool_failed failure).

Definition terminalize_planned_fixture_error (action : PlannedFixtureAction) (error : RuntimeError)
    : eff ApplyState RuntimeExecution :=
  let known := is_some (runtime_failure_for_tool_error error (ft_tool_id (failure_transition action))) in
  let failure := tool_error_failure action error in
  planned ← lift (fixture_failure_transition_events (failure_transition action) failure);
  events ← reads (construct_runtime_alternative planned failure_label);
  _ ← commit_constructed_transition events;
  reads (fun s : ApplyState => Ok (failed_execution failure (if known then None else Some error) s)).

Definition terminalize_live_invocation_error (error : RuntimeError) : eff ApplyState RuntimeExecution :=
  let failure := runtime_failure_for_unhandled_error error in
  events ← reads (fun s : ApplyState => construct_runtime_alternative
    (live_invocation_failure_transition_events (active_boundaries (live s)) failure) live_failure_label s);
  _ ← commit_constructed_transition events;
  reads (fun s : ApplyState => Ok (failed_execution failure (Some error) s)).

(** * The loop over the actions

    An action that ends the session returns its execution. *)

Definition processes (e : EventEnvelope) : eff ApplyState bool := reads (fun s => Ok (should_process (live s) e)).

Definition apply_event (action : PlannedEventAction) : eff ApplyState (option RuntimeExecution) :=
  let event := constructed_event (action_event action) in
  starts ← processes event;
  _ ← (if bool_decide (event_type event = FlowStarted) && (starts : bool)
       then preflight_live_invocation_failure_transition else mret tt);
  started ← attempt (before_event event);
  match (started : unit + RuntimeError) with
  | inr error => execution ← terminalize_live_invocation_error error; mret (Some execution)
  | inl _ =>
      committed ← processes event;
      _ ← (if (committed : bool) then commit (action_event action) (context_checkpoint action) else mret tt);
      _ ← push_event (action_event action);
      _ ← push_context (context_checkpoint action);
      _ ← after event;
      mret None
  end.

Definition apply_fixture (action : PlannedFixtureAction) : eff ApplyState (option RuntimeExecution) :=
  if handles_tool action then
    _ ← preflight_fixture_failure_transitions action;
    if should_execute_tool mode (completion_sequence action) then
      applied ← attempt (_ ← perform IoVerifyBinding; apply_planned_fixture_effect action);
      match (applied : unit + RuntimeError) with
      | inr error => execution ← terminalize_planned_fixture_error action error; mret (Some execution)
      | inl _ => mret None
      end
    else mret None
  else mret None.

Definition apply_action (action : FlowExecutionAction) : eff ApplyState (option RuntimeExecution) :=
  match action with ActionEvent action => apply_event action | ActionFixture action => apply_fixture action end.

Fixpoint apply_actions (actions : list FlowExecutionAction) : eff ApplyState (option RuntimeExecution) :=
  match actions with
  | [] => mret None
  | action :: actions =>
      ended ← apply_action action;
      match (ended : option RuntimeExecution) with
      | Some execution => mret (Some execution)
      | None => apply_actions actions
      end
  end.

Definition clone_planned_terminal_error (error : option RuntimeError) : option RuntimeError :=
  (fun error => match error with
                | ContextBudgetExceeded budget required => ContextBudgetExceeded budget required
                | _ => Protocol (error_text error)
                end) <$> error.

(** [debug_assert!(live_invocations.is_empty())] panics in a debug build. *)
Definition completed_execution (s : ApplyState) : result RuntimeError RuntimeExecution :=
  if bool_decide (active_invocations (live s) = []) then
    Ok (mkExecution (exec_actions plan) (signature (context_signature s)) (signature (event_signature s))
          (exec_failed plan) (exec_failure_status plan)
          (clone_planned_terminal_error (exec_terminal_error plan)) (exec_tool_intents plan))
  else Panic.

Definition check_session : result RuntimeError unit :=
  planned_session_id ← ok_or
    (find_map (fun action => match action with
                             | ActionEvent action => Some (session_id (constructed_event (action_event action)))
                             | ActionFixture _ => None
                             end) (exec_actions plan))
    (Protocol "flow execution plan has no events");
  reject negb (String.eqb planned_session_id (app_session_id application)) with
    Protocol "flow apply did not match its execution plan" ;;
  Ok tt.

Definition apply_flow_with_workspace : eff ApplyState RuntimeExecution :=
  _ ← preflight_flow_execution_plan;
  _ ← lift check_session;
  _ ← for_application (exec_actions plan) mode;
  ended ← apply_actions (exec_actions plan);
  match (ended : option RuntimeExecution) with
  | Some execution => mret execution
  | None => reads completed_execution
  end.

(** The tracker is replaced before the first action. *)
Definition initial_apply_state : ApplyState :=
  mkApply [] (tracker_for mode) (signature_new EVENT_PLAN_DOMAIN) (signature_new CONTEXT_PLAN_DOMAIN).

Definition apply_flow_with_anchored_workspace : ApplyState * result RuntimeError RuntimeExecution :=
  (_ ← lift validate_flow_application; apply_flow_with_workspace) initial_apply_state.
End application.
End apply.
