(* ===== verification/ApplyTheory.v ===== *)
(** What an application does, whatever its surroundings answer: the events and the effects of the
    plan are requested in the order of the plan, each once, and after a failure only the events
    that end the session follow. *)

From Stdlib Require Import ZArith Lia Ascii String.
From stdpp Require Import base strings sorting sets option gmap countable list.
From S2P Require Import Prelude Decimal Sorting Metadata Json FlowValue Event Lifecycle Validate.
From S2P Require Import Paths Values Blocks Registry Errors EffectTheory PhaseControl Policy OwnScript Context.
From S2P Require Import Builder Planner Live Apply.

Open Scope Z_scope.

(** * The requests that change something *)

Definition is_effect (r : Request) : bool :=
  match r with IoCommit _ _ | IoWrite _ => true | _ => false end.

Definition effects (tr : list Request) : list Request := List.filter is_effect tr.

Definition commits (tr : list Request) : list ConstructedRuntimeEvent :=
  omap (fun r => match r with IoCommit c _ => Some c | _ => None end) tr.

Lemma effects_app l k : effects (l ++ k) = effects l ++ effects k.
Proof. apply List.filter_app. Qed.

Lemma commits_app l k : commits (l ++ k) = commits l ++ commits k.
Proof. apply omap_app. Qed.

(** The fields of the tracker that stay as they are. *)
Definition settings (l : LiveFlowInvocations) : bool * Z * bool := (acquire_slots l, prefix_count l, tracks_events l).

Lemma should_process_settings l l' e : settings l = settings l' -> should_process l e = should_process l' e.
Proof. unfold settings, should_process. by intros [= _ -> ->]. Qed.

Lemma live_finish_settings l e : settings (live_finish l e) = settings l.
Proof. unfold live_finish. by case_match. Qed.

Lemma after_event_settings l e : settings (after_event l e) = settings l.
Proof. unfold after_event. case_match; [apply live_finish_settings|done]. Qed.

Section apply.
Context {J : JsonEnv} {R : RuntimeEnv} {N : Surroundings}.
Context (application : FlowApplication).

Abbreviation mode := (side_effect_mode (app_options application)).
Abbreviation plan := (app_execution application).

(** ** A logic of requests

    [does m K]: [m] keeps the settings of the tracker, and its result and the effects it
    requests satisfy [K]. *)

Definition configured (s : ApplyState) : Prop := settings (live s) = settings (tracker_for mode).

Definition does {A} (m : eff ApplyState A) (K : result RuntimeError A -> list Request -> Prop) : Prop :=
  forall s, configured s ->
    configured (m s).1 /\ exists l, effects (trace (m s).1) = effects (trace s) ++ l /\ K (m s).2 l.

Definition quiet {A} (m : eff ApplyState A) : Prop := does m (fun _ l => l = []).

Lemma does_weaken {A} (m : eff ApplyState A) (K K' : result RuntimeError A -> list Request -> Prop) :
  does m K -> (forall r l, K r l -> K' r l) -> does m K'.
Proof. intros Hm HK s Hs. destruct (Hm s Hs) as (H & l & He & Hk). split; [done|]. exists l. auto. Qed.

Lemma does_bind {A B} (m : eff ApplyState A) (f : A -> eff ApplyState B) K1 (K2 : A -> _) K :
  does m K1 -> (forall a l1, K1 (Ok a) l1 -> does (f a) (K2 a)) ->
  (forall a l1 l2 r, K1 (Ok a) l1 -> K2 a r l2 -> K r (l1 ++ l2)) ->
  (forall e l, K1 (Err e) l -> K (Err e) l) -> (forall l, K1 Panic l -> K Panic l) -> does (m ≫= f) K.
Proof.
  intros Hm Hf HOk HErr HPanic s Hs. rewrite eff_bind_eq. destruct (Hm s Hs) as (H1 & l1 & E1 & K1l).
  destruct (m s) as [s1 [a|e|]]; cbn [fst snd] in *; [|by eauto..].
  destruct (Hf a l1 K1l s1 H1) as (H2 & l2 & E2 & K2l). split; [done|]. exists (l1 ++ l2).
  rewrite E2, E1, app_assoc. eauto.
Qed.

(** A quiet start changes nothing of what follows. *)
Lemma silent_bind {A B} (m : eff ApplyState A) (f : A -> eff ApplyState B) (K : _ -> _ -> Prop) :
  quiet m -> (forall a, does (f a) K) -> (forall e, K (Err e) []) -> K Panic [] -> does (m ≫= f) K.
Proof.
  intros Hm Hf H1 H2. eapply (does_bind m f _ (fun _ => K) K Hm (fun a _ _ => Hf a)); cbn beta.
  - by intros a l1 l2 r -> H.
  - by intros e l ->.
  - by intros l ->.
Qed.

Lemma silent_bind_quiet {A B} (m : eff ApplyState A) (f : A -> eff ApplyState B) :
  quiet m -> (forall a, quiet (f a)) -> quiet (m ≫= f).
Proof. intros Hm Hf. by apply silent_bind. Qed.

Lemma silent_lift {A} (r : result RuntimeError A) : quiet (lift r).
Proof. intros s Hs. split; [done|]. exists []. by rewrite app_nil_r. Qed.

Lemma quiet_reads {A} (f : ApplyState -> result RuntimeError A) : quiet (reads f).
Proof. intros s Hs. split; [done|]. exists []. by rewrite app_nil_r. Qed.

Lemma silent_ret {A} (a : A) : quiet (mret a).
Proof. apply silent_lift. Qed.

Lemma does_perform r :
  does (perform r) (fun _ l => l = if is_effect r then [r] else []).
Proof.
  intros s Hs. split; [done|]. exists (if is_effect r then [r] else []). split; [|done].
  cbn [perform fst trace]. rewrite effects_app. cbn. by destruct (is_effect r).
Qed.

Lemma quiet_perform r : is_effect r = false -> quiet (perform r).
Proof. intros Hr. pose proof (does_perform r) as H. by rewrite Hr in H. Qed.

Lemma quiet_acquire : quiet acquire_live_flow_invocation.
Proof. intros s Hs. split; [done|]. exists []. cbn [fst trace acquire_live_flow_invocation]. by rewrite effects_app. Qed.

Lemma quiet_attempt {A} (m : eff ApplyState A) : quiet m -> quiet (attempt m).
Proof. intros Hm s Hs. specialize (Hm s Hs). unfold attempt. by destruct (m s) as [s1 [a|e|]]. Qed.

Lemma quiet_set_live l : settings l = settings (tracker_for mode) -> quiet (set_live l).
Proof. intros Hl s Hs. split; [exact Hl|]. exists []. by rewrite app_nil_r. Qed.

Lemma quiet_push_event c : quiet (push_event c).
Proof. intros s Hs. split; [done|]. exists []. by rewrite app_nil_r. Qed.

Lemma quiet_push_context cp : quiet (push_context cp).
Proof. intros s Hs. split; [done|]. exists []. by rewrite app_nil_r. Qed.

Lemma quiet_after e : quiet (after e).
Proof.
  intros s Hs. split; [|exists []; by rewrite app_nil_r]. unfold configured, after in *. cbn.
  by rewrite after_event_settings.
Qed.

Create HintDb quiet.
#[local] Hint Resolve silent_lift quiet_reads silent_ret quiet_acquire quiet_set_live quiet_push_event
  quiet_push_context quiet_after : quiet.
#[local] Hint Extern 1 (quiet (perform _)) => (apply quiet_perform; reflexivity) : quiet.

Ltac quiet :=
  repeat first
    [ solve [eauto with quiet]
    | match goal with
      | |- quiet (_ ≫= _) => apply silent_bind_quiet; [|intros ?]
      | |- quiet (match ?x with _ => _ end) => destruct x eqn:?
      end ].

(** ** The pieces of an application *)

Lemma quiet_before e : quiet (before_event e).
Proof.
  intros s Hs.
  assert (quiet (if should_process (live s) e && bool_decide (event_type e = FlowStarted) then
      boundary ← lift (flow_boundary e);
      _ ← (if acquire_slots (live s) then acquire_live_flow_invocation else mret tt);
      set_live (with_active (live s) (active_invocations (live s) ++ [mkActive boundary (acquire_slots (live s))]))
    else mret tt)) as Hm; [|by apply Hm].
  destruct (_ && _); [|apply silent_ret].
  apply silent_bind_quiet; [apply silent_lift|]. intros bd. apply silent_bind_quiet; [|by intros _; apply quiet_set_live].
  destruct (acquire_slots _); quiet.
Qed.

Lemma quiet_processes e : quiet (processes e).
Proof. apply quiet_reads. Qed.

Definition processed (e : EventEnvelope) : bool := should_process (tracker_for mode) e.

Lemma does_processes e : does (processes e) (fun r l => r = Ok (processed e) /\ l = []).
Proof.
  intros s Hs. split; [done|]. exists []. rewrite app_nil_r. split_and!; [done| |done]. unfold processes, reads.
  cbn [fst snd]. by rewrite (should_process_settings (live s) (tracker_for mode) e Hs).
Qed.

Lemma quiet_preflight_live : quiet (preflight_live_invocation_failure_transition application).
Proof. unfold preflight_live_invocation_failure_transition, wants_preflight. quiet. Qed.

Lemma quiet_preflight_fixture a : quiet (preflight_fixture_failure_transitions application a).
Proof. unfold preflight_fixture_failure_transitions, wants_preflight. quiet. Qed.
#[local] Hint Resolve quiet_before quiet_processes quiet_preflight_live quiet_preflight_fixture : quiet.

(** The commit of an event. *)
Definition commit_request (c : ConstructedRuntimeEvent) (cp : option ContextManifestCheckpoint) : list Request :=
  if app_has_sink application then [IoCommit c cp] else [].

Lemma does_commit c cp : does (commit application c cp) (fun _ l => l = commit_request c cp).
Proof. unfold commit, commit_request. destruct (app_has_sink application); [apply does_perform|apply silent_ret]. Qed.

(** The planned failure events of an action: those of a failed effect with their Phases, Flows and
    session, or those of the Flows that are live when the next gets no slot; the last of them
    fails the session. *)
Definition failure_plan (x : FlowExecutionAction) (planned : list PlannedRuntimeEvent) : Prop :=
  exists error,
    match x with
    | ActionFixture a => fixture_failure_transition_events (failure_transition a) (tool_error_failure a error) = Ok planned
    | ActionEvent _ => exists live, planned =
        live_invocation_failure_transition_events live (runtime_failure_for_unhandled_error error)
    end.

(** The events that are constructed from them after the first [count] events of the session. *)
Definition failure_events (x : FlowExecutionAction) (events : list ConstructedRuntimeEvent) : Prop :=
  exists planned count, failure_plan x planned /\
    construct_runtime_transition (app_session_id application) (option_clock (app_options application)) count planned = Ok events.

(** The commits of these events, or of the first of them. *)
Definition first_commits (events : list ConstructedRuntimeEvent) (l : list Request) : Prop :=
  exists n, l = mjoin (map (fun c => commit_request c None) (take n events)).

Definition failure_commits (x : FlowExecutionAction) (l : list Request) : Prop :=
  l = [] \/ exists events, failure_events x events /\ first_commits events l.

Lemma failure_commits_nil x : failure_commits x [].
Proof. by left. Qed.

Lemma first_commits_nil events : first_commits events [].
Proof. by exists O. Qed.

Lemma does_commit_transition events : does (commit_constructed_transition application events) (fun _ l => first_commits events l).
Proof.
  induction events as [|c events IH]; cbn [commit_constructed_transition].
  { eapply does_weaken; [apply silent_ret|]. intros r l ->. apply first_commits_nil. }
  apply silent_bind; [quiet| |intros; apply first_commits_nil|apply first_commits_nil]. intros _.
  eapply (does_bind _ _ _ (fun _ _ l => first_commits events l)).
  - apply does_commit.
  - intros _ _ _. apply silent_bind; [quiet| |intros; apply first_commits_nil|apply first_commits_nil]. intros _.
    apply silent_bind; [quiet|intros _; apply IH|intros; apply first_commits_nil|apply first_commits_nil].
  - intros _ l1 l2 r -> [n ->]. by exists (S n).
  - intros e l ->. exists 1%nat. cbn. by rewrite take_0, app_nil_r.
  - intros l ->. exists 1%nat. cbn. by rewrite take_0, app_nil_r.
Qed.

(** A value that was read from the state. *)
Lemma does_reads {A B} (f : ApplyState -> result RuntimeError A) (g : A -> eff ApplyState B) (K : _ -> _ -> Prop) :
  (forall a, (exists s, f s = Ok a) -> does (g a) K) -> (forall e, K (Err e) []) -> K Panic [] -> does (reads f ≫= g) K.
Proof.
  intros Hg H1 H2 s Hs. rewrite eff_bind_eq. unfold reads. destruct (f s) as [a|e|] eqn:E.
  { apply Hg; [by exists s|done]. }
  all: split; [done|]; exists []; rewrite app_nil_r; cbn [fst snd]; auto.
Qed.

(** A session that was ended by its failure events. *)
Definition terminated (r : result RuntimeError (option RuntimeExecution)) : Prop :=
  forall o, r = Ok o -> exists ex, o = Some ex /\ exec_failed ex = true /\ exec_actions ex = exec_actions plan.

Definition ended (x : FlowExecutionAction) (r : result RuntimeError (option RuntimeExecution)) (l : list Request) : Prop :=
  failure_commits x l /\ terminated r.

Lemma ended_err x e : ended x (Err e) [].
Proof. split; [apply failure_commits_nil|]. by intros o [=]. Qed.

Lemma ended_panic x : ended x Panic [].
Proof. split; [apply failure_commits_nil|]. by intros o [=]. Qed.

Lemma does_failed x (events : list ConstructedRuntimeEvent) failure terminal_error :
  failure_events x events ->
  does (_ ← commit_constructed_transition application events;
        execution ← reads (fun s : ApplyState => Ok (failed_execution application failure terminal_error s));
        mret (Some execution)) (ended x).
Proof.
  intros Hx. assert (forall l, first_commits events l -> failure_commits x l) as Hl by (intros l H; right; eauto).
  eapply (does_bind _ _ _ (fun _ r l => l = [] /\ terminated r)).
  - apply does_commit_transition.
  - intros _ _ _ s Hs. rewrite eff_bind_eq. unfold reads. split; [done|]. exists []. rewrite app_nil_r.
    split_and!; [done..|]. intros o [= <-]. by eexists.
  - intros u l1 l2 r H%Hl [-> Hr]. rewrite app_nil_r. by split.
  - intros e l H%Hl. split; [done|]. by intros o [=].
  - intros l H%Hl. split; [done|]. by intros o [=].
Qed.

Lemma bind_assoc {A B C} (m : eff ApplyState A) (f : A -> eff ApplyState B) (g : B -> eff ApplyState C) s :
  ((m ≫= f) ≫= g) s = (m ≫= (fun a => f a ≫= g)) s.
Proof. rewrite !eff_bind_eq. by destruct (m s) as [s1 [a|e|]]. Qed.

Lemma does_ext {A} (m m' : eff ApplyState A) K : (forall s, m s = m' s) -> does m' K -> does m K.
Proof. intros He Hm s Hs. rewrite He. by apply Hm. Qed.

Lemma constructed_events planned label s events :
  construct_runtime_alternative application planned label s = Ok events ->
  construct_runtime_transition (app_session_id application) (option_clock (app_options application))
    (record_count (event_signature s)) planned = Ok events.
Proof. unfold construct_runtime_alternative. intros H. inv_ok. congruence. Qed.

Lemma does_live_error a error :
  does (execution ← terminalize_live_invocation_error application error; mret (Some execution)) (ended (ActionEvent a)).
Proof.
  unfold terminalize_live_invocation_error. eapply does_ext; [intros s; apply bind_assoc|].
  apply does_reads; [|intros; apply ended_err|apply ended_panic]. intros events [s Hs%constructed_events].
  eapply does_ext; [intros s'; apply bind_assoc|]. apply does_failed. do 2 eexists. split; [|exact Hs].
  exists error. by eexists.
Qed.

Lemma does_fixture_error a error :
  does (execution ← terminalize_planned_fixture_error application a error; mret (Some execution)) (ended (ActionFixture a)).
Proof.
  unfold terminalize_planned_fixture_error. cbn zeta. eapply does_ext; [intros s; apply bind_assoc|].
  apply (does_reads (fun _ => _)); [|intros; apply ended_err|apply ended_panic]. intros planned [_ Hp].
  eapply does_ext; [intros s; apply bind_assoc|].
  apply does_reads; [|intros; apply ended_err|apply ended_panic]. intros events [s Hs%constructed_events].
  eapply does_ext; [intros s'; apply bind_assoc|]. apply does_failed. do 2 eexists. split; [|exact Hs]. by exists error.
Qed.

(** ** Actions *)

Definition effect_request (a : PlannedFixtureAction) : list Request :=
  match effect a with EffectOwnScript _ (Some w) => [IoWrite w] | _ => [] end.

(** What an action of the plan requests when nothing fails. *)
Definition requests (x : FlowExecutionAction) : list Request :=
  match x with
  | ActionEvent a =>
      if processed (constructed_event (action_event a)) then commit_request (action_event a) (context_checkpoint a)
      else []
  | ActionFixture a => if should_execute_tool mode (completion_sequence a) then effect_request a else []
  end.

(** An action at which the application stopped: its own request may have been made, and failure
    events may follow. *)
Definition stopped (x : FlowExecutionAction) (r : result RuntimeError (option RuntimeExecution)) (l : list Request)
    : Prop :=
  terminated r /\ exists l1 l2, l = l1 ++ l2 /\ (l1 = [] \/ l1 = requests x) /\ failure_commits x l2.

Definition action_done (x : FlowExecutionAction) (r : result RuntimeError (option RuntimeExecution))
    (l : list Request) : Prop := r = Ok None /\ l = requests x \/ stopped x r l.

Lemma stopped_early x r : terminated r -> action_done x r [].
Proof. intros Hr. right. split; [done|]. exists [], []. split_and!; [done|by left|apply failure_commits_nil]. Qed.

Lemma stopped_err x e : action_done x (Err e) [].
Proof. apply stopped_early. by intros o [=]. Qed.

Lemma stopped_panic x : action_done x Panic [].
Proof. apply stopped_early. by intros o [=]. Qed.
#[local] Hint Resolve stopped_err stopped_panic : core.

Lemma ended_stopped x r l : ended x r l -> action_done x r l.
Proof. intros [Hl Hr]. right. split; [done|]. exists [], l. split_and!; [done|by left|done]. Qed.

Lemma requested_err x e : action_done x (Err e) (requests x).
Proof.
  right. split; [by intros o [=]|]. exists (requests x), []. rewrite app_nil_r.
  split_and!; [done|by right|apply failure_commits_nil].
Qed.

Lemma requested_panic x : action_done x Panic (requests x).
Proof.
  right. split; [by intros o [=]|]. exists (requests x), []. rewrite app_nil_r.
  split_and!; [done|by right|apply failure_commits_nil].
Qed.

Lemma does_event a : does (apply_event application a) (action_done (ActionEvent a)).
Proof.
  unfold apply_event. cbn zeta. set (e := constructed_event (action_event a)).
  apply silent_bind; [quiet| |done..]. intros starts.
  apply silent_bind; [destruct (_ && _); quiet| |done..]. intros _.
  apply silent_bind; [apply quiet_attempt; quiet| |done..]. intros [[]|error].
  2: { eapply does_weaken; [apply does_live_error|]. intros r l. apply ended_stopped. }
  eapply (does_bind _ _ _ (fun _ => action_done (ActionEvent a))).
  { apply does_processes. }
  2: { by intros b l1 l2 r [_ ->] H. }
  2: by intros err l [[=] _].
  2: by intros l [[=] _].
  intros b l1 [[= ->] _].
  eapply (does_bind _ _ (fun _ l => l = requests (ActionEvent a)) (fun _ r l => l = [] /\ r = Ok None)).
  - cbn [requests]. fold e. destruct (processed e); [apply does_commit|apply silent_ret].
  - intros _ _ _ s Hs. split.
    + unfold configured. transitivity (settings (after_event (live s) e)); [done|by rewrite after_event_settings].
    + exists []. rewrite app_nil_r. by split_and!.
  - intros u l2 l3 r -> [-> ->]. rewrite app_nil_r. by left.
  - intros err l ->. apply requested_err.
  - intros l ->. apply requested_panic.
Qed.

Lemma does_effect a :
  does (apply_planned_fixture_effect a) (fun r l => l = effect_request a).
Proof.
  unfold apply_planned_fixture_effect, effect_request. destruct (effect a) as [c argv p|p [w|]].
  - apply silent_bind_quiet; [apply silent_lift|intros; apply silent_ret].
  - apply does_perform.
  - apply silent_ret.
Qed.

Lemma does_attempt {A} (m : eff ApplyState A) (K : list Request -> Prop) :
  does m (fun _ l => K l) -> does (attempt m) (fun _ l => K l).
Proof. intros Hm s Hs. specialize (Hm s Hs). unfold attempt. by destruct (m s) as [s1 [a|e|]]. Qed.

Lemma does_bound_effect a :
  does (_ ← perform IoVerifyBinding; apply_planned_fixture_effect a)
    (fun r l => l = effect_request a \/ l = [] /\ forall u, r <> Ok u).
Proof.
  eapply (does_bind _ _ (fun _ l => l = []) (fun _ _ l => l = effect_request a)).
  - by apply quiet_perform.
  - intros _ _ _. apply does_effect.
  - intros u l1 l2 r -> ->. by left.
  - intros e l ->. by right.
  - intros l ->. by right.
Qed.

Lemma does_fixture a : does (apply_fixture application a) (action_done (ActionFixture a)).
Proof.
  assert (forall x, requests x = [] -> does (mret None) (action_done x)) as Hnone.
  { intros x Hx. intros s Hs. split; [done|]. exists []. rewrite app_nil_r. split; [done|]. left. by rewrite Hx. }
  unfold apply_fixture. destruct (handles_tool application a) eqn:Hh.
  2: { apply Hnone. unfold handles_tool in Hh. apply orb_false_iff in Hh as [Hh _]. cbn. by rewrite Hh. }
  apply silent_bind; [quiet| |done..]. intros _. destruct (should_execute_tool _ _) eqn:Hx.
  2: { apply Hnone. cbn. by rewrite Hx. }
  assert (requests (ActionFixture a) = effect_request a) as Hr by (cbn; by rewrite Hx).
  eapply (does_bind _ _ (fun r l => l = requests (ActionFixture a) \/ l = [] /\ exists e, r = Ok (inr e) \/ r = Panic)
    (fun o r l => match o with inl _ => l = [] /\ r = Ok None | inr _ => ended (ActionFixture a) r l end)).
  - intros s Hs. destruct (does_bound_effect a s Hs) as (H1 & l & H2 & H3). unfold attempt.
    match type of H1 with configured ?t.1 => destruct t as [s1 [u|e|]] end; cbn [fst snd] in *;
      (split; [done|]); exists l; (split; [done|]); rewrite Hr.
    + destruct H3 as [->|[-> H3]]; [by left|by destruct (H3 u)].
    + destruct H3 as [->|[-> H3]]; [by left|]. right. split; [done|]. exists e. by left.
    + destruct H3 as [->|[-> H3]]; [by left|]. right. split; [done|]. exists (Protocol ""). by right.
  - intros [u|e] l1 _; [|apply does_fixture_error]. intros s Hs. split; [done|]. exists []. by rewrite app_nil_r.
  - intros [u|e] l1 l2 r H1 H2.
    + destruct H2 as [-> ->]. rewrite app_nil_r. destruct H1 as [->|[-> [e [[=]|[=]]]]]. by left.
    + destruct H2 as [Hl Ht]. right. split; [done|]. exists l1, l2. split_and!; [done| |done].
      destruct H1 as [->|[-> _]]; [by right|by left].
  - intros e l [->|[-> _]]; [apply requested_err|done].
  - intros l [->|[-> _]]; [apply requested_panic|done].
Qed.

Lemma does_action x : does (apply_action application x) (action_done x).
Proof. destruct x; [apply does_event|apply does_fixture]. Qed.

(** ** The loop *)

(** The actions before the one at which the application stopped were done. *)
Definition actions_done (l : list FlowExecutionAction) (r : result RuntimeError (option RuntimeExecution))
    (made : list Request) : Prop :=
  exists done rest tail, l = done ++ rest /\ made = mjoin (map requests done) ++ tail /\
    match rest with
    | [] => tail = [] /\ r = Ok None
    | x :: _ => stopped x r tail
    end.

Lemma actions_done_cons x l r made :
  actions_done l r made -> actions_done (x :: l) r (requests x ++ made).
Proof.
  intros (done & rest & tail & -> & -> & H). exists (x :: done), rest, tail. split_and!; [done| |done].
  cbn. by rewrite app_assoc.
Qed.

Lemma actions_stopped x l r made : stopped x r made -> actions_done (x :: l) r made.
Proof. intros H. by exists [], (x :: l), made. Qed.

Lemma does_actions l : does (apply_actions application l) (actions_done l).
Proof.
  induction l as [|x l IH]; cbn [apply_actions].
  { intros s Hs. split; [done|]. exists []. rewrite app_nil_r. split; [done|]. by exists [], [], []. }
  eapply (does_bind _ _ (action_done x)
    (fun o r made => match o with Some ex => made = [] /\ r = Ok (Some ex) | None => actions_done l r made end)).
  - apply does_action.
  - intros [ex|] l1 _; [|apply IH]. intros s Hs. split; [done|]. exists []. by rewrite app_nil_r.
  - intros [ex|] l1 l2 r [[Hr ->]|Hs] H2.
    + done.
    + destruct H2 as [-> ->]. rewrite app_nil_r. by apply actions_stopped.
    + by apply actions_done_cons.
    + destruct Hs as [Ht _]. by destruct (Ht None eq_refl) as (ex & [=] & _).
  - intros e made [[[=] _]|Hs]. by apply actions_stopped.
  - intros made [[[=] _]|Hs]. by apply actions_stopped.
Qed.

(** ** Before the loop *)

Lemma quiet_preflight_actions l : quiet (preflight_actions application l).
Proof.
  induction l as [|[a|a] l IH]; cbn [preflight_actions]; [apply silent_ret|done|].
  apply silent_bind_quiet; [|done]. destruct (handles_tool application a); [|apply silent_ret].
  unfold preflight_planned_fixture_effect. destruct (effect a); quiet.
Qed.

Lemma reconstruct_settings l : forall tracker tracker',
  reconstruct_prefix tracker l = Ok tracker' -> settings tracker' = settings tracker.
Proof.
  induction l as [|[a|a] l IH]; intros tracker tracker' H; cbn [reconstruct_prefix] in H;
    [by injection H as <-| |by apply IH].
  case_match; [by injection H as <-|]. apply bind_Ok_inv in H as (t1 & H1 & H). apply IH in H as ->.
  unfold reconstruct_prefix_event in H1. destruct (event_type _); try (by injection H1 as <-);
    [apply bind_Ok_inv in H1 as (bd & _ & [= <-]); done|injection H1 as <-; apply live_finish_settings..].
Qed.

Lemma quiet_acquire_all pending : forall acquired, quiet (acquire_all acquired pending).
Proof. induction pending as [|a pending IH]; intros acquired; cbn [acquire_all]; quiet. Qed.

Lemma quiet_for_application l : quiet (for_application l mode).
Proof.
  unfold for_application. cbn zeta. destruct (negb _); [by apply quiet_set_live|].
  intros s Hs. destruct (reconstruct_prefix (tracker_for mode) l) as [tracker|e|] eqn:Hr.
  2, 3: by apply silent_lift.
  pose proof (reconstruct_settings _ _ _ Hr) as Hset.
  assert (quiet (if acquire_slots tracker then
      active ← acquire_all [] (active_invocations tracker); set_live (with_active tracker active)
    else set_live tracker)) as Hq; [|by apply Hq].
  destruct (acquire_slots tracker); [|by apply quiet_set_live].
  apply silent_bind_quiet; [apply quiet_acquire_all|]. intros active. by apply quiet_set_live.
Qed.

(** ** The application *)

Context (error_text : RuntimeError -> string).

(** What the result says of the actions that were done. *)
Definition result_done (r : result RuntimeError RuntimeExecution) (made : list Request) : Prop :=
  exists done rest tail, exec_actions plan = done ++ rest /\ made = mjoin (map requests done) ++ tail /\
    match rest with
    | [] => tail = []
    | x :: _ => exists l1 l2, tail = l1 ++ l2 /\ (l1 = [] \/ l1 = requests x) /\ failure_commits x l2
    end /\
    forall ex, r = Ok ex -> exec_actions ex = exec_actions plan /\
      exec_failed ex = match rest with [] => exec_failed plan | _ :: _ => true end.

Lemma result_nothing e : result_done (Err e) [] /\ result_done Panic [].
Proof.
  split; exists [], (exec_actions plan), []; (split_and!; [done|done| |by intros ex [=]]);
    (case_match; [done|]); exists [], []; (split_and!; [done|by left|apply failure_commits_nil]).
Qed.

Lemma does_apply : does (apply_flow_with_workspace error_text application) result_done.
Proof.
  unfold apply_flow_with_workspace, preflight_flow_execution_plan.
  assert (forall e, result_done (Err e) []) as He by (intros e; apply result_nothing).
  assert (result_done Panic []) as Hp by (apply (result_nothing (Protocol ""))).
  apply silent_bind; [apply silent_bind_quiet; [quiet|intros; apply quiet_preflight_actions]| |done|done]. intros _.
  apply silent_bind; [quiet| |done|done]. intros _. apply silent_bind; [apply quiet_for_application| |done|done]. intros _.
  eapply (does_bind _ _ (actions_done (exec_actions plan))
    (fun o r made => made = [] /\ forall ex, r = Ok ex -> exec_actions ex = exec_actions plan /\
       match o with Some x => ex = x | None => exec_failed ex = exec_failed plan end)).
  - apply does_actions.
  - intros [x|] l1 H s Hs; (split; [done|]); exists []; rewrite app_nil_r; (split_and!; [done..|]); intros ex Hex.
    + injection Hex as <-. split; [|done]. destruct H as (dn & rest & tail & _ & _ & H).
      destruct rest as [|y rest]; [by destruct H|]. destruct H as [Ht _].
      by destruct (Ht _ eq_refl) as (ex & [= <-] & _ & ?).
    + cbn in Hex. unfold completed_execution in Hex. destruct (bool_decide _); [|done]. by injection Hex as <-.
  - intros o l1 l2 r (dn & rest & tail & Hl & -> & H) [-> Hr]. rewrite app_nil_r.
    exists dn, rest, tail. split_and!; [done|done| |].
    + destruct rest; [apply H|apply H].
    + intros ex Hex. destruct (Hr ex Hex) as [Ha Ho]. split; [done|]. destruct rest as [|x rest].
      * destruct H as [_ [= ->]]. done.
      * destruct H as [Ht _]. destruct (Ht _ eq_refl) as (ex' & -> & Hf & _). by subst.
  - intros e l (dn & rest & tail & Hl & -> & H). exists dn, rest, tail. split_and!; [done|done| |by intros ex [=]].
    destruct rest; apply H.
  - intros l (dn & rest & tail & Hl & -> & H). exists dn, rest, tail. split_and!; [done|done| |by intros ex [=]].
    destruct rest; apply H.
Qed.


(** * Refused commits *)

(** Every commit of the trace was accepted. *)
Definition accepted (tr : list Request) : Prop :=
  forall pre c cp post, tr = pre ++ IoCommit c cp :: post -> answer pre (IoCommit c cp) = Ok tt.

(** The last request was a commit that was refused, with the error that is returned. *)
Definition refused {A} (tr : list Request) (r : result RuntimeError A) : Prop :=
  exists pre c cp, tr = pre ++ [IoCommit c cp] /\ accepted pre /\
    ((exists e, answer pre (IoCommit c cp) = Err e /\ r = Err e) \/ answer pre (IoCommit c cp) = Panic /\ r = Panic).

Definition careful {A} (m : eff ApplyState A) : Prop :=
  forall s, accepted (trace s) -> accepted (trace (m s).1) \/ refused (trace (m s).1) (m s).2.

(** Effects that commit nothing. *)
Definition tame {A} (m : eff ApplyState A) : Prop := forall s, accepted (trace s) -> accepted (trace (m s).1).

Lemma accepted_snoc tr r :
  accepted tr -> (forall c cp, r = IoCommit c cp -> answer tr r = Ok tt) -> accepted (tr ++ [r]).
Proof.
  intros Htr Hr pre c cp post H. destruct post as [|x post _] using rev_ind.
  - apply app_inj_tail in H as [<- ->]. by eapply Hr.
  - rewrite app_comm_cons, app_assoc in H. apply app_inj_tail in H as [H _]. by eapply Htr.
Qed.

Lemma tame_careful {A} (m : eff ApplyState A) : tame m -> careful m.
Proof. intros Hm s Hs. left. by apply Hm. Qed.

Lemma tame_lift {A} (r : result RuntimeError A) : tame (lift r).
Proof. by intros s. Qed.

Lemma tame_reads {A} (f : ApplyState -> result RuntimeError A) : tame (reads f).
Proof. by intros s. Qed.

Lemma tame_ret {A} (a : A) : tame (mret a).
Proof. by intros s. Qed.

Lemma tame_perform r : (forall c cp, r <> IoCommit c cp) -> tame (perform r).
Proof. intros Hr s Hs. apply accepted_snoc; [done|]. intros c cp E. by destruct (Hr c cp). Qed.

Lemma tame_bind {A B} (m : eff ApplyState A) (f : A -> eff ApplyState B) :
  tame m -> (forall a, tame (f a)) -> tame (m ≫= f).
Proof.
  intros Hm Hf s Hs. specialize (Hm s Hs). rewrite eff_bind_eq.
  destruct (m s) as [s1 [a|e|]]; [by apply Hf|done|done].
Qed.

Lemma tame_attempt {A} (m : eff ApplyState A) : tame m -> tame (attempt m).
Proof. intros Hm s Hs. specialize (Hm s Hs). unfold attempt. by destruct (m s) as [s1 [a|e|]]. Qed.

Lemma careful_bind {A B} (m : eff ApplyState A) (f : A -> eff ApplyState B) :
  careful m -> (forall a, careful (f a)) -> careful (m ≫= f).
Proof.
  intros Hm Hf s Hs. rewrite eff_bind_eq. specialize (Hm s Hs). destruct (m s) as [s1 [a|e|]]; cbn [fst snd] in *.
  - destruct Hm as [Hm|(pre & c & cp & _ & _ & [(e & _ & [=])|[_ [=]]])]. by apply Hf.
  - destruct Hm as [Hm|(pre & c & cp & H1 & H2 & [(e' & H3 & [= ->])|[_ [=]]])]; [by left|].
    right. exists pre, c, cp. split_and!; [done|done|left; by exists e'].
  - destruct Hm as [Hm|(pre & c & cp & H1 & H2 & [(e' & _ & [=])|[H3 _]])]; [by left|].
    right. exists pre, c, cp. split_and!; [done|done|by right].
Qed.

Lemma tame_acquire : tame acquire_live_flow_invocation.
Proof. intros s Hs. by apply accepted_snoc. Qed.

Lemma tame_push_event c : tame (push_event c).
Proof. by intros s. Qed.

Lemma tame_push_context cp : tame (push_context cp).
Proof. by intros s. Qed.

Lemma tame_after e : tame (after e).
Proof. by intros s. Qed.

Lemma tame_set_live l : tame (set_live l).
Proof. by intros s. Qed.

Create HintDb tame.
#[local] Hint Resolve tame_lift tame_reads tame_ret tame_acquire tame_push_event tame_push_context tame_after
  tame_set_live : tame.
#[local] Hint Extern 1 (tame (perform _)) => (apply tame_perform; discriminate) : tame.

Ltac tame :=
  repeat first
    [ solve [eauto with tame]
    | match goal with
      | |- tame (_ ≫= _) => apply tame_bind; [|intros ?]
      | |- tame (attempt _) => apply tame_attempt
      | |- tame (match ?x with _ => _ end) => destruct x eqn:?
      end ].

Lemma tame_before e : tame (before_event e).
Proof. unfold before_event. tame. Qed.

Lemma tame_effect a : tame (apply_planned_fixture_effect a).
Proof. unfold apply_planned_fixture_effect. tame. Qed.

Lemma tame_preflight_live : tame (preflight_live_invocation_failure_transition application).
Proof. unfold preflight_live_invocation_failure_transition, wants_preflight. tame. Qed.

Lemma tame_preflight_fixture a : tame (preflight_fixture_failure_transitions application a).
Proof. unfold preflight_fixture_failure_transitions, wants_preflight. tame. Qed.
#[local] Hint Resolve tame_before tame_effect tame_preflight_live tame_preflight_fixture : tame.

Lemma careful_commit c cp : careful (commit application c cp).
Proof.
  unfold commit. destruct (app_has_sink application); [|apply tame_careful, tame_ret].
  intros s Hs. cbn [perform fst snd trace]. destruct (answer (trace s) (IoCommit c cp)) as [[]|e|] eqn:E.
  - left. apply accepted_snoc; [done|]. by intros c' cp' [= <- <-].
  - right. exists (trace s), c, cp. split_and!; [done|done|left; by exists e].
  - right. exists (trace s), c, cp. split_and!; [done|done|by right].
Qed.

Ltac careful :=
  repeat first
    [ apply careful_commit
    | solve [apply tame_careful; tame]
    | match goal with
      | |- careful (_ ≫= _) => apply careful_bind; [|intros ?]
      | |- careful (match ?x with _ => _ end) => destruct x eqn:?
      end ].

Lemma careful_transition events : careful (commit_constructed_transition application events).
Proof. induction events as [|c events IH]; cbn [commit_constructed_transition]; [apply tame_careful, tame_ret|]. careful. apply IH. Qed.

Lemma careful_live_error error : careful (terminalize_live_invocation_error application error).
Proof. unfold terminalize_live_invocation_error. careful. apply careful_transition. Qed.

Lemma careful_fixture_error a error : careful (terminalize_planned_fixture_error application a error).
Proof. unfold terminalize_planned_fixture_error. cbn zeta. careful. apply careful_transition. Qed.

Lemma careful_action x : careful (apply_action application x).
Proof.
  destruct x as [a|a]; cbn [apply_action].
  - unfold apply_event, processes. cbn zeta. careful. apply careful_live_error.
  - unfold apply_fixture. careful. apply careful_fixture_error.
Qed.

Lemma careful_actions l : careful (apply_actions application l).
Proof.
  induction l as [|x l IH]; cbn [apply_actions]; [apply tame_careful, tame_ret|].
  apply careful_bind; [apply careful_action|]. intros [ex|]; [apply tame_careful, tame_ret|apply IH].
Qed.

Lemma tame_preflight_actions l : tame (preflight_actions application l).
Proof.
  induction l as [|[a|a] l IH]; cbn [preflight_actions]; [apply tame_ret|done|].
  apply tame_bind; [|done]. unfold preflight_planned_fixture_effect. tame.
Qed.

Lemma tame_acquire_all pending : forall acquired, tame (acquire_all acquired pending).
Proof. induction pending as [|a pending IH]; intros acquired; cbn [acquire_all]; tame. Qed.

Lemma tame_for_application l : tame (for_application l mode).
Proof. unfold for_application. cbn zeta. tame. apply tame_acquire_all. Qed.

Lemma careful_apply : careful (apply_flow_with_workspace error_text application).
Proof.
  unfold apply_flow_with_workspace, preflight_flow_execution_plan. apply careful_bind.
  { apply tame_careful, tame_bind; [tame|intros _; apply tame_preflight_actions]. }
  intros _. apply careful_bind; [apply tame_careful, tame_lift|]. intros _.
  apply careful_bind; [apply tame_careful, tame_for_application|]. intros _.
  apply careful_bind; [apply careful_actions|]. intros o. careful.
Qed.

(** C7: The journal decides: once the sink refuses an event, the application requests nothing more
    and returns the error of the sink; all events before it were accepted. *)
Theorem refused_commit_last :
  let '(s, r) := apply_flow_with_anchored_workspace error_text application in
  accepted (trace s) \/ refused (trace s) r.
Proof.
  unfold apply_flow_with_anchored_workspace.
  assert (careful (_ ← lift (validate_flow_application application); apply_flow_with_workspace error_text application))
    as H by (apply careful_bind; [apply tame_careful, tame_lift|intros _; apply careful_apply]).
  specialize (H (initial_apply_state application)).
  match type of H with _ -> accepted (trace ?t.1) \/ _ => destruct t as [s r] end.
  apply H. by intros [|? ?] c cp post.
Qed.
End apply.
