(* ===== verification/ApplyProps.v ===== *)
(** Applying a compiled plan: whatever the effects do and whether the slots are free, the
    committed stream is a closed session. *)

From Stdlib Require Import ZArith Lia Ascii String.
From stdpp Require Import base strings sorting sets option gmap countable list.
From S2P Require Import Prelude Decimal Sorting Metadata Json FlowValue Event Lifecycle.
From S2P Require Import LifecycleTheory Validate ValidateTheory StreamProps.
From S2P Require Import Paths Values ValuesTheory Blocks CanonicalBlock Registry NestingTheory RegistryTheory.
From S2P Require Import Errors EffectTheory PhaseControl PhaseControlTheory Policy PolicyTheory.
From S2P Require Import OwnScript OwnScriptTheory Context ContextTheory.
From S2P Require Import Builder BuilderTheory Planner NoPanic PlannerTheory PlanProps AlternativeTheory Live.
From S2P Require Import LiveTheory ReserveTheory Apply ApplyTheory.

Open Scope Z_scope.

(** Surroundings that take what a plan gives them.  The effects and the binding of the workspace
    may fail, with an error other than the one only the context compiler reports; how many Flows
    are live is open. *)
Record accepting (N : Surroundings) : Prop := {
  acc_request : forall tr r, (forall w, r <> IoWrite w) -> r <> IoVerifyBinding -> answer tr r = Ok tt;
  acc_no_panic : forall tr r, answer tr r <> Panic;
  acc_error : forall tr r err, answer tr r = Err err -> should_terminalize_error err = false;
}.

Definition constructed_of (l : list FlowExecutionAction) : list ConstructedRuntimeEvent :=
  map action_event (omap emitted_action l).

Lemma constructed_of_app l k : constructed_of (l ++ k) = constructed_of l ++ constructed_of k.
Proof. unfold constructed_of. by rewrite omap_app, map_app. Qed.

(** * Tracking *)

Lemma remove_last_boundaries flow l :
  remove_boundary flow (map active_boundary l) = map active_boundary <$> remove_last flow l.
Proof.
  induction l as [|a l IH]; [done|]. cbn. rewrite IH. destruct (remove_last flow l); [done|]. cbn. by case_match.
Qed.

Lemma finish_boundaries l e :
  active_boundaries (live_finish l e) =
  match flow_id e with
  | Some flow => default (active_boundaries l) (remove_boundary flow (active_boundaries l))
  | None => active_boundaries l
  end.
Proof.
  unfold live_finish, active_boundaries. destruct (flow_id e) as [flow|]; [|done]. cbn.
  rewrite remove_last_boundaries. by destruct (remove_last flow (active_invocations l)).
Qed.

(** * Transitions *)

Section apply.
Context {J : JsonEnv} {JL : JsonLaws} {R : RuntimeEnv} {N : Surroundings}.
Context (session : string) (clk : EventClock) (application : FlowApplication).

Abbreviation mode := (side_effect_mode (app_options application)).
Abbreviation plan := (app_execution application).

(** What the section takes as granted: a compiled plan of this session, applied with a sink. *)
Context (Hreserved : reserved session clk (exec_actions plan)).
Context (Hrunning : running (plan_events plan) = []).
Context (Hclosed : plan_closed session plan).
Context (Hsession : app_session_id application = session).
Context (Hclock : option_clock (app_options application) = clk).
Context (Hsink : app_has_sink application = true).
Context (Htracks : tracks_events (tracker_for mode) = true).
Context (Hacc : accepting N).

(** The events that are there already when the application starts. *)
Definition prefix_length : nat := Z.to_nat (prefix_count (tracker_for mode)).

Lemma perform_accepted r s :
  (forall w, r <> IoWrite w) -> r <> IoVerifyBinding ->
  perform r s = (mkApply (trace s ++ [r]) (live s) (event_signature s) (context_signature s), Ok tt).
Proof using Hacc. intros H1 H2. unfold perform. by rewrite (acc_request _ Hacc). Qed.

Lemma construct_types start ps : forall index cs,
  construct_from session clk start index ps = Ok cs ->
  map (fun c => event_type (constructed_event c)) cs = map planned_type ps.
Proof using Type.
  induction ps as [|p ps IH]; intros index cs H; cbn [construct_from] in H; [by injection H as <-|].
  cbn zeta in H. apply bind_Ok_inv in H as (ts & _ & H). apply bind_Ok_inv in H as (_ & _ & H).
  apply bind_Ok_inv in H as (c & Hc & H). apply bind_Ok_inv in H as (_ & _ & H).
  apply bind_Ok_inv in H as (rest & Hr & [= <-]). cbn. rewrite (IH _ _ Hr). f_equal.
  unfold constructed_new in Hc. destruct (canonical_jsonl _); [|discriminate Hc..]. injection Hc as <-.
  apply runtime_event_type.
Qed.

(** The state of the builder that planned the actions before. *)
Lemma construct_alternative b label planned cs s :
  builder_sound session b -> clock b = clk -> event_signature s = events b -> constructible b label planned cs ->
  construct_runtime_alternative application planned label s = Ok cs.
Proof using Hsession Hclock.
  intros Hb Hc He [Hcs Hcap]. pose proof (sequence_is_count session b Hb) as Hn. destruct Hb as [st Hok].
  unfold construct_runtime_alternative. rewrite Hsession, Hclock, He, <- Hn, <- Hc.
  rewrite (bo_session _ _ _ Hok) in Hcs. rewrite Hcs. cbn [mbind result_bind]. by rewrite Hcap.
Qed.

Lemma before_other e s :
  event_type e <> FlowStarted -> before_event e s = (s, Ok tt).
Proof using Type.
  intros He. unfold before_event. rewrite eff_bind_eq. unfold reads.
  rewrite (bool_decide_eq_false_2 _ He), andb_false_r. done.
Qed.

Lemma commit_all cs : forall s,
  Forall (fun c => event_type (constructed_event c) <> FlowStarted) cs ->
  exists s', commit_constructed_transition application cs s = (s', Ok tt) /\
    commits (trace s') = commits (trace s) ++ cs /\
    event_signature s' = foldl signature_push (event_signature s) (map constructed_jsonl cs) /\
    context_signature s' = context_signature s.
Proof using Hsink Hacc.
  induction cs as [|c cs IH]; intros s Hcs; cbn [commit_constructed_transition].
  { exists s. by rewrite app_nil_r. }
  apply Forall_cons in Hcs as [Hc Hcs]. rewrite eff_bind_eq, before_other by done.
  unfold commit. rewrite Hsink, eff_bind_eq, perform_accepted by done.
  rewrite eff_bind_eq. cbn [push_event]. rewrite eff_bind_eq. cbn [after].
  match goal with |- context [commit_constructed_transition application cs ?s1] => destruct (IH s1 Hcs) as (s' & H1 & H2 & H3 & H4) end.
  exists s'. rewrite H1, H2, H3, H4. cbn [trace event_signature context_signature with_live map foldl].
  rewrite commits_app, <- app_assoc. done.
Qed.

(** * The state of an application after some actions *)

Record at_actions (pre : list FlowExecutionAction) (s : ApplyState) : Prop := {
  at_configured : configured application s;
  at_signature : event_signature s = signed (constructed_of pre);
  at_commits : commits (trace s) = drop prefix_length (constructed_of pre);
  at_live : active_boundaries (live s) =
    running (take (Nat.max prefix_length (List.length (constructed_of pre))) (plan_events plan));
}.

Definition closes (s : ApplyState) (ex : RuntimeExecution) : Prop :=
  stream_closed session (take prefix_length (plan_constructed plan) ++ commits (trace s)) (exec_failed ex)
    (exec_events ex).

Lemma plan_split pre x post :
  exec_actions plan = pre ++ x :: post ->
  plan_constructed plan = constructed_of pre ++ constructed_of (x :: post).
Proof using Type. intros H. unfold plan_constructed. rewrite H. apply constructed_of_app. Qed.

Lemma event_sequence pre a post :
  exec_actions plan = pre ++ ActionEvent a :: post ->
  sequence (constructed_event (action_event a)) = Z.of_nat (List.length (constructed_of pre)) + 1.
Proof using Hclosed.
  intros H. apply (sw_sequence _ _ (pc_stream _ _ _ _ Hclosed)).
  rewrite (plan_split _ _ _ H), map_app, lookup_app_r; rewrite length_map; [|done].
  by rewrite Nat.sub_diag.
Qed.

Lemma processed_iff pre a post :
  exec_actions plan = pre ++ ActionEvent a :: post ->
  processed application (constructed_event (action_event a))
  = (prefix_length <=? List.length (constructed_of pre))%nat.
Proof using Hclosed Htracks.
  intros H. unfold processed, should_process, prefix_length.
  rewrite Htracks, (event_sequence _ _ _ H). cbn [andb].
  destruct (Z.ltb_spec (prefix_count (tracker_for mode)) (Z.of_nat (List.length (constructed_of pre)) + 1)),
    (Nat.leb_spec (Z.to_nat (prefix_count (tracker_for mode))) (List.length (constructed_of pre))); lia || done.
Qed.

(** Failure events after the prefix end the session. *)
Lemma failure_closes pre x post s cs s' failure terminal_error :
  exec_actions plan = pre ++ x :: post -> at_actions pre s -> (prefix_length <= List.length (constructed_of pre))%nat ->
  stream_closed session (constructed_of pre ++ cs) true (signature (signed (constructed_of pre ++ cs))) ->
  commits (trace s') = commits (trace s) ++ cs ->
  event_signature s' = foldl signature_push (event_signature s) (map constructed_jsonl cs) ->
  closes s' (failed_execution application failure terminal_error s').
Proof using Type.
  intros Hpre Hat Hlen Hcl Hcm Hsig. unfold closes. rewrite Hcm, (at_commits _ _ Hat), (plan_split _ _ _ Hpre).
  rewrite take_app_le by done. rewrite app_assoc, take_drop. cbn [exec_failed exec_events failed_execution].
  rewrite Hsig, (at_signature _ _ Hat). unfold signed in *. by rewrite <- foldl_app, <- map_app.
Qed.

Lemma same_signature b pre s :
  builder_sound session b -> actions b = pre -> at_actions pre s -> event_signature s = events b.
Proof using Type.
  intros [st Hok] Ha Hat. rewrite (at_signature _ _ Hat), (bo_events _ _ _ Hok).
  unfold emitted, emitted_actions. by rewrite Ha.
Qed.

(** * Effects *)

Lemma ancestor_failures_started inv payloads r l :
  try_collect (fun payload => payload ← with_error payload r; Ok (mkPlanned inv PhaseFailed payload)) payloads = Ok l ->
  Forall (fun p => planned_type p <> FlowStarted) l.
Proof using Type.
  revert l. induction payloads as [|p ps IH]; intros l H; cbn [try_collect] in H.
  { by injection H as <-. }
  apply bind_Ok_inv in H as (x & Hx & H). apply bind_Ok_inv in Hx as (v & _ & [= <-]).
  apply bind_Ok_inv in H as (rest & Hr & [= <-]). constructor; [done|by apply IH].
Qed.

Lemma flow_tail_started boundaries f :
  Forall (fun p => planned_type p <> FlowStarted) (flow_failure_tail boundaries f).
Proof using Type.
  unfold flow_failure_tail. apply Forall_app. split; [|by repeat constructor]. by induction boundaries; constructor.
Qed.

Lemma fixture_failure_started tr f l :
  fixture_failure_transition_events tr f = Ok l -> Forall (fun p => planned_type p <> FlowStarted) l.
Proof using Type.
  unfold fixture_failure_transition_events. cbn zeta. intros H.
  apply bind_Ok_inv in H as (v & Hv & H). apply bind_Ok_inv in H as (anc & Ha & [= <-]).
  repeat (constructor; [done|]). apply Forall_app. split; [by eapply ancestor_failures_started|].
  repeat (constructor; [done|]). apply flow_tail_started.
Qed.

Lemma constructed_started start ps cs :
  construct_from session clk start 0 ps = Ok cs -> Forall (fun p => planned_type p <> FlowStarted) ps ->
  Forall (fun c => event_type (constructed_event c) <> FlowStarted) cs.
Proof using Type.
  intros H%construct_types HF. rewrite <- (Forall_map (fun c => event_type (constructed_event c)) (fun t => t <> FlowStarted)).
  rewrite H. by rewrite Forall_map.
Qed.

Lemma tool_error_report a err :
  should_terminalize_error err = false ->
  same_report (tool_error_failure a err) (runtime_failure_for_unhandled_error err).
Proof using Type. by destruct err. Qed.

Lemma fixture_error_closes pre a post s err :
  exec_actions plan = pre ++ ActionFixture a :: post -> at_actions pre s ->
  (prefix_length <= List.length (constructed_of pre))%nat -> should_terminalize_error err = false ->
  exists s' ex, terminalize_planned_fixture_error application a err s = (s', Ok ex) /\ closes s' ex.
Proof using Hreserved Hsession Hclock Hsink Hacc.
  intros Hpre Hat Hlen Herr. destruct (rs_fixture _ _ _ Hreserved _ _ _ Hpre) as [Hres _].
  destruct (fixture_reserve_closes _ _ _ _ err Hres Herr) as (b & planned & cs & Hb & Hk & Ha & Hp & Hc & Hcl).
  assert (emitted b = constructed_of pre) as Hem by (unfold emitted, emitted_actions; by rewrite Ha).
  rewrite Hem in Hcl. unfold terminalize_planned_fixture_error. cbn zeta.
  rewrite eff_bind_eq. unfold lift.
  rewrite (fixture_failure_report _ _ _ (tool_error_report a err Herr)), Hp.
  rewrite eff_bind_eq. unfold reads, failure_label.
  rewrite (construct_alternative b _ planned cs s Hb Hk (same_signature b pre s Hb Ha Hat) Hc).
  assert (Forall (fun c => event_type (constructed_event c) <> FlowStarted) cs) as Hns.
  { destruct Hc as [Hcs _]. destruct Hb as [st Hok]. rewrite (bo_session _ _ _ Hok), Hk in Hcs.
    eapply constructed_started; [exact Hcs|by eapply fixture_failure_started]. }
  destruct (commit_all cs s Hns) as (s' & Hs' & Hcm & Hsig & _). rewrite eff_bind_eq, Hs'.
  do 2 eexists. split; [done|]. by eapply failure_closes.
Qed.

Lemma at_fixture pre a s :
  at_actions pre s -> at_actions (pre ++ [ActionFixture a]) s.
Proof using Type.
  assert (constructed_of (pre ++ [ActionFixture a]) = constructed_of pre) as E
    by (rewrite constructed_of_app; apply app_nil_r).
  intros [H1 H2 H3 H4]. constructor; [done|by rewrite E..].
Qed.

(** Requests that commit nothing. *)
Lemma at_requests pre s l :
  commits l = [] -> at_actions pre s ->
  at_actions pre (mkApply (trace s ++ l) (live s) (event_signature s) (context_signature s)).
Proof using Type.
  intros Hl [H1 H2 H3 H4]. constructor; [done|done| |done]. cbn [trace]. by rewrite commits_app, Hl, app_nil_r.
Qed.

(** How an action leaves the application. *)
Definition step_ok (pre : list FlowExecutionAction) (x : FlowExecutionAction)
    (out : ApplyState * result RuntimeError (option RuntimeExecution)) : Prop :=
  match out with
  | (s, Ok None) => at_actions (pre ++ [x]) s
  | (s, Ok (Some ex)) => closes s ex
  | _ => False
  end.

Lemma candidates_construct pre a s :
  fixture_reserved session clk pre a -> at_actions pre s ->
  exists alternatives, try_collect (fun failure =>
    planned ← fixture_failure_transition_events (failure_transition a) failure;
    construct_runtime_alternative application planned failure_label s) fixture_failure_capacity_candidates
      = Ok alternatives.
Proof using Hsession Hclock.
  intros (_ & b & Hb & Hk & Ha & Hcap) Hat. apply (failure_capacity_alternatives session) in Hcap; [|done].
  pose proof Hb as [st Hok]. revert Hcap. generalize fixture_failure_capacity_candidates.
  induction 1 as [|f fs (planned & Hp & Hv) _ [alts IH]]; [by exists []|].
  apply (alternative_Ok b _ st _ (bo_validation _ _ _ Hok)) in Hv as (cs & _ & Hc & _).
  exists (cs :: alts). cbn [try_collect]. rewrite Hp. cbn [mbind result_bind]. unfold failure_label in *.
  rewrite (construct_alternative b _ planned cs s Hb Hk (same_signature b pre s Hb Ha Hat) Hc).
  cbn [mbind result_bind]. by rewrite IH.
Qed.

Lemma preflight_fixture_ok pre a s :
  fixture_reserved session clk pre a -> at_actions pre s ->
  exists s', preflight_fixture_failure_transitions application a s = (s', Ok tt) /\ at_actions pre s'.
Proof using Hsession Hclock Hacc.
  intros Hres Hat. unfold preflight_fixture_failure_transitions, wants_preflight.
  rewrite eff_bind_eq. unfold reads at 1. destruct (_ && _); [|by exists s].
  rewrite eff_bind_eq. unfold reads. destruct (candidates_construct pre a s Hres Hat) as [alts ->].
  rewrite perform_accepted by done. eexists. split; [done|]. by apply at_requests.
Qed.

Lemma executes_after_prefix pre a :
  completion_sequence a = len (omap emitted_action pre) + 1 ->
  should_execute_tool mode (completion_sequence a) = true -> (prefix_length <= List.length (constructed_of pre))%nat.
Proof using Type.
  clear Htracks. intros -> H. unfold prefix_length, constructed_of. rewrite length_map. unfold len in *.
  destruct mode; cbn in *; lia || done.
Qed.

(** The effect itself succeeds or fails with an error that is terminalized. *)
Lemma effect_outcome a s :
  effect_runs (fixture_command_policy a) (effect a) ->
  exists l, commits l = [] /\
    match (_ ← perform IoVerifyBinding; apply_planned_fixture_effect a) s with
    | (s', Ok _) => s' = mkApply (trace s ++ l) (live s) (event_signature s) (context_signature s)
    | (s', Err err) => s' = mkApply (trace s ++ l) (live s) (event_signature s) (context_signature s)
                       /\ should_terminalize_error err = false
    | (_, Panic) => False
    end.
Proof using Hacc.
  intros Hrun. rewrite eff_bind_eq. unfold perform at 1.
  destruct (answer (trace s) IoVerifyBinding) as [[]|err|] eqn:Hv.
  2: { exists [IoVerifyBinding]. split_and!; [done|done|]. by eapply (acc_error _ Hacc). }
  2: { by apply (acc_no_panic _ Hacc) in Hv. }
  unfold apply_planned_fixture_effect. destruct (effect a) as [c argv p|p [w|]].
  - destruct (Hrun c argv p eq_refl) as [o Ho]. exists [IoVerifyBinding]. rewrite eff_bind_eq. unfold lift. by rewrite Ho.
  - exists [IoVerifyBinding; IoWrite w]. split; [done|]. unfold perform.
    cbn [trace live event_signature context_signature]. rewrite <- app_assoc. cbn [app].
    destruct (answer _ (IoWrite w)) as [[]|err|] eqn:Hw; [done| |].
    + split; [done|]. by eapply (acc_error _ Hacc).
    + by apply (acc_no_panic _ Hacc) in Hw.
  - by exists [IoVerifyBinding].
Qed.

Lemma fixture_step pre a post s :
  exec_actions plan = pre ++ ActionFixture a :: post -> at_actions pre s ->
  step_ok pre (ActionFixture a) (apply_fixture application a s).
Proof using Hreserved Hsession Hclock Hsink Hacc.
  intros Hpre Hat. destruct (rs_fixture _ _ _ Hreserved _ _ _ Hpre) as [Hres Hrun]. unfold apply_fixture.
  destruct (handles_tool application a); [|by apply at_fixture].
  rewrite eff_bind_eq. destruct (preflight_fixture_ok pre a s Hres Hat) as (s1 & -> & Hat1).
  destruct (should_execute_tool _ _) eqn:Hx; [|by apply at_fixture].
  rewrite eff_bind_eq. unfold attempt. destruct (effect_outcome a s1 Hrun) as (l & Hl & Hout).
  destruct ((_ ← perform IoVerifyBinding; apply_planned_fixture_effect a) s1) as [s2 [[]|err|]]; [| |done].
  - subst s2. by apply at_fixture, at_requests.
  - destruct Hout as [-> Herr]. rewrite eff_bind_eq.
    edestruct (fixture_error_closes pre a post) as (s3 & ex & -> & Hcl);
      [exact Hpre|by apply (at_requests pre s1 l)|by eapply executes_after_prefix; [apply Hres|]|exact Herr|]. done.
Qed.

(** * Events *)

Lemma processes_eq s e : configured application s -> processes e s = (s, Ok (processed application e)).
Proof using Type.
  intros Hs. unfold processes, reads, processed. by rewrite (should_process_settings (live s) (tracker_for mode) e Hs).
Qed.

Lemma live_now pre x post s :
  exec_actions plan = pre ++ x :: post -> at_actions pre s -> (prefix_length <= List.length (constructed_of pre))%nat ->
  active_boundaries (live s) = running (map constructed_event (constructed_of pre)).
Proof using Type.
  intros Hpre Hat Hlen. rewrite (at_live _ _ Hat), Nat.max_r by done. f_equal. unfold plan_events.
  rewrite (plan_split _ _ _ Hpre), map_app. by rewrite <- (length_map constructed_event), take_app_length.
Qed.

Lemma constructed_snoc pre a : constructed_of (pre ++ [ActionEvent a]) = constructed_of pre ++ [action_event a].
Proof using Type. apply constructed_of_app. Qed.

Lemma signed_snoc cs c : signed (cs ++ [c]) = signature_push (signed cs) (constructed_jsonl c).
Proof using Type. unfold signed. by rewrite map_app, foldl_app. Qed.

(** The part of an event of the plan that comes after its start was admitted. *)
Definition event_tail (a : PlannedEventAction) : eff ApplyState (option RuntimeExecution) :=
  _ ← (if processed application (constructed_event (action_event a))
       then commit application (action_event a) (context_checkpoint a) else mret tt);
  _ ← push_event (action_event a);
  _ ← push_context (context_checkpoint a);
  _ ← after (constructed_event (action_event a));
  mret None.

Lemma event_tail_live a s :
  configured application s ->
  processed application (constructed_event (action_event a)) = true ->
  exists s', event_tail a s = (s', Ok None) /\ commits (trace s') = commits (trace s) ++ [action_event a] /\
    event_signature s' = signature_push (event_signature s) (constructed_jsonl (action_event a)) /\
    live s' = after_event (live s) (constructed_event (action_event a)).
Proof using Hsink Hacc.
  intros Hs Hp. unfold event_tail. rewrite Hp. unfold commit. rewrite Hsink, eff_bind_eq, perform_accepted by done.
  eexists. split; [done|]. cbn [trace event_signature live with_live]. by rewrite commits_app.
Qed.

Lemma skip_step pre a post s :
  exec_actions plan = pre ++ ActionEvent a :: post -> at_actions pre s ->
  (List.length (constructed_of pre) < prefix_length)%nat ->
  step_ok pre (ActionEvent a) (apply_event application a s).
Proof using Hclosed Htracks.
  intros Hpre Hat Hlt. pose proof (processed_iff _ _ _ Hpre) as Hp.
  rewrite (proj2 (Nat.leb_gt _ _)) in Hp by lia. unfold apply_event. cbn zeta.
  set (e := constructed_event (action_event a)) in *. pose proof (at_configured _ _ Hat) as Hc.
  assert (should_process (live s) e = false) as Hsp.
  { rewrite <- Hp. by apply should_process_settings. }
  rewrite eff_bind_eq, processes_eq, Hp by done. rewrite andb_false_r, eff_bind_eq. cbn [mret eff_ret].
  rewrite eff_bind_eq. unfold attempt, before_event. rewrite eff_bind_eq. unfold reads at 1. rewrite Hsp. cbn [andb mret eff_ret].
  rewrite eff_bind_eq, processes_eq, Hp by done. rewrite eff_bind_eq. cbn [mret eff_ret].
  unfold step_ok. rewrite !eff_bind_eq. cbn [push_event push_context after].
  destruct Hat as [_ H2 H3 H4]. constructor; cbn [event_signature trace live with_live].
  - unfold configured. cbn [live]. unfold after_event. by rewrite Hsp.
  - by rewrite H2, constructed_snoc, signed_snoc.
  - rewrite H3, constructed_snoc. rewrite !drop_ge; [done| |lia]. rewrite length_app. cbn. lia.
  - unfold after_event. rewrite Hsp. cbn [andb]. rewrite H4, constructed_snoc, length_app. cbn.
    by rewrite !Nat.max_l by lia.
Qed.

Lemma after_boundaries l e :
  should_process l e = true -> event_type e <> FlowStarted ->
  active_boundaries (after_event l e) = track_flow (active_boundaries l) e.
Proof using Type.
  intros Hp Hne. unfold after_event, track_flow. rewrite Hp. cbn [andb].
  destruct (event_type e) eqn:Ht; try done; apply finish_boundaries.
Qed.

Lemma tail_step pre a post s :
  exec_actions plan = pre ++ ActionEvent a :: post -> (prefix_length <= List.length (constructed_of pre))%nat ->
  configured application s -> event_signature s = signed (constructed_of pre) ->
  commits (trace s) = drop prefix_length (constructed_of pre) ->
  active_boundaries (after_event (live s) (constructed_event (action_event a)))
    = track_flow (running (map constructed_event (constructed_of pre))) (constructed_event (action_event a)) ->
  step_ok pre (ActionEvent a) (event_tail a s).
Proof using Hclosed Htracks Hsink Hacc.
  intros Hpre Hlen Hc Hsig Hcm Hlive. pose proof (processed_iff _ _ _ Hpre) as Hp.
  rewrite (proj2 (Nat.leb_le _ _)) in Hp by lia.
  destruct (event_tail_live a s Hc Hp) as (s' & -> & H1 & H2 & H3). constructor.
  - unfold configured. by rewrite H3, after_event_settings.
  - by rewrite H2, Hsig, constructed_snoc, signed_snoc.
  - by rewrite H1, Hcm, constructed_snoc, drop_app_le.
  - rewrite H3, Hlive, constructed_snoc, length_app, Nat.max_r by (cbn; lia). cbn [List.length].
    rewrite <- running_snoc. f_equal. unfold plan_events. rewrite (plan_split _ _ _ Hpre).
    rewrite firstn_map.
    change (constructed_of (ActionEvent a :: post)) with ([action_event a] ++ constructed_of post).
    rewrite app_assoc, take_app_le by (rewrite length_app; cbn; lia).
    rewrite take_ge by (rewrite length_app; cbn; lia). by rewrite map_app.
Qed.

(** ** Starts of Flows *)

Lemma live_limit_report : same_report (runtime_failure_for_unhandled_error live_limit_error) live_invocation_failure.
Proof using Type. done. Qed.

Lemma live_failure_started stack f :
  Forall (fun p => planned_type p <> FlowStarted) (live_invocation_failure_transition_events stack f).
Proof using Type. constructor; [done|]. apply flow_tail_started. Qed.

(** The failure events of a start, as the application constructs them. *)
Lemma start_construct pre a post s :
  exec_actions plan = pre ++ ActionEvent a :: post -> at_actions pre s ->
  (prefix_length <= List.length (constructed_of pre))%nat ->
  event_type (constructed_event (action_event a)) = FlowStarted ->
  exists cs, construct_runtime_alternative application
      (live_invocation_failure_transition_events (active_boundaries (live s)) live_invocation_failure)
      live_failure_label s = Ok cs /\
    stream_closed session (constructed_of pre ++ cs) true (signature (signed (constructed_of pre ++ cs))) /\
    Forall (fun c => event_type (constructed_event c) <> FlowStarted) cs.
Proof using Hreserved Hsession Hclock JL.
  intros Hpre Hat Hlen Ht. pose proof (rs_start _ _ _ Hreserved _ _ _ Hpre Ht) as Hres.
  destruct (start_reserve_closes _ _ _ _ Hres) as (b & cs & Hb & Hk & Ha & Hc & Hcl).
  assert (emitted b = constructed_of pre) as Hem by (unfold emitted, emitted_actions; by rewrite Ha).
  unfold emitted_events in Hc. rewrite Hem in Hcl, Hc. exists cs. rewrite (live_now _ _ _ _ Hpre Hat Hlen).
  split_and!; [|done|].
  - by apply (construct_alternative b); [..|eapply same_signature|].
  - destruct Hc as [Hcs _]. destruct Hb as [st Hok]. rewrite (bo_session _ _ _ Hok), Hk in Hcs.
    eapply constructed_started; [exact Hcs|apply live_failure_started].
Qed.

Lemma preflight_live_ok pre a post s :
  exec_actions plan = pre ++ ActionEvent a :: post -> at_actions pre s ->
  (prefix_length <= List.length (constructed_of pre))%nat ->
  event_type (constructed_event (action_event a)) = FlowStarted ->
  exists s', preflight_live_invocation_failure_transition application s = (s', Ok tt) /\ at_actions pre s'.
Proof using Hreserved Hsession Hclock Hacc JL.
  intros Hpre Hat Hlen Ht. unfold preflight_live_invocation_failure_transition, wants_preflight.
  rewrite eff_bind_eq. unfold reads at 1. destruct (_ && _); [|by exists s].
  rewrite eff_bind_eq. unfold reads. destruct (start_construct _ _ _ _ Hpre Hat Hlen Ht) as (cs & -> & _).
  rewrite perform_accepted by done. eexists. split; [done|]. by apply at_requests.
Qed.

Lemma live_error_closes pre a post s :
  exec_actions plan = pre ++ ActionEvent a :: post -> at_actions pre s ->
  (prefix_length <= List.length (constructed_of pre))%nat ->
  event_type (constructed_event (action_event a)) = FlowStarted ->
  exists s' ex, terminalize_live_invocation_error application live_limit_error s = (s', Ok ex) /\ closes s' ex.
Proof using Hreserved Hsession Hclock Hsink Hacc JL.
  intros Hpre Hat Hlen Ht. destruct (start_construct _ _ _ _ Hpre Hat Hlen Ht) as (cs & Hcs & Hcl & Hns).
  unfold terminalize_live_invocation_error. rewrite eff_bind_eq. unfold reads.
  rewrite (live_failure_report _ _ _ live_limit_report), Hcs. rewrite eff_bind_eq.
  destruct (commit_all cs s Hns) as (s' & -> & Hcm & Hsig & _).
  do 2 eexists. split; [done|]. by eapply failure_closes.
Qed.

(** The tracker of a start that is admitted, or the refusal. *)
Lemma before_start s e bd :
  configured application s -> processed application e = true -> event_type e = FlowStarted -> flow_boundary e = Ok bd ->
  exists l, commits l = [] /\
    match before_event e s with
    | (s', Ok _) => configured application s' /\ trace s' = trace s ++ l /\ event_signature s' = event_signature s /\
        active_boundaries (live s') = active_boundaries (live s) ++ [bd]
    | (s', Err err) => s' = mkApply (trace s ++ l) (live s) (event_signature s) (context_signature s)
        /\ err = live_limit_error
    | (_, Panic) => False
    end.
Proof using Type.
  intros Hs Hp Ht Hbd. unfold before_event. rewrite eff_bind_eq. unfold reads.
  rewrite (should_process_settings (live s) (tracker_for mode) e Hs). fold (processed application e).
  rewrite Hp, (bool_decide_eq_true_2 _ Ht). cbn [andb]. rewrite eff_bind_eq. unfold lift. rewrite Hbd, eff_bind_eq.
  destruct (acquire_slots (live s)).
  - exists [IoAcquire]. split; [done|]. unfold acquire_live_flow_invocation.
    destruct (_ <=? _); [done|]. cbn [set_live]. split_and!; try done. unfold active_boundaries. cbn. by rewrite map_app.
  - exists []. cbn [mret eff_ret set_live]. split_and!; try done; cbn [trace with_live].
    + by rewrite app_nil_r.
    + unfold active_boundaries. cbn. by rewrite map_app.
Qed.

Lemma apply_event_tail a s s1 s2 :
  configured application s ->
  (if bool_decide (event_type (constructed_event (action_event a)) = FlowStarted)
      && processed application (constructed_event (action_event a))
   then preflight_live_invocation_failure_transition application else mret tt) s = (s1, Ok tt) ->
  before_event (constructed_event (action_event a)) s1 = (s2, Ok tt) -> configured application s2 ->
  apply_event application a s = event_tail a s2.
Proof using Type.
  intros Hs H1 H2 Hs2. unfold apply_event. cbn zeta. rewrite eff_bind_eq, processes_eq by done.
  rewrite eff_bind_eq, H1, eff_bind_eq. unfold attempt. rewrite H2.
  by rewrite eff_bind_eq, processes_eq.
Qed.

Lemma start_step pre a post s :
  exec_actions plan = pre ++ ActionEvent a :: post -> at_actions pre s ->
  (prefix_length <= List.length (constructed_of pre))%nat ->
  event_type (constructed_event (action_event a)) = FlowStarted ->
  step_ok pre (ActionEvent a) (apply_event application a s).
Proof using Hreserved Hclosed Hsession Hclock Hsink Htracks Hacc JL.
  intros Hpre Hat Hlen Ht. pose proof (processed_iff _ _ _ Hpre) as Hp.
  rewrite (proj2 (Nat.leb_le _ _)) in Hp by lia.
  destruct (rs_start _ _ _ Hreserved _ _ _ Hpre Ht) as (_ & _ & _ & _ & _ & _ & _ & bd & Hbd).
  destruct (preflight_live_ok _ _ _ _ Hpre Hat Hlen Ht) as (s1 & Hs1 & Hat1).
  destruct (before_start s1 _ bd (at_configured _ _ Hat1) Hp Ht Hbd) as (l & Hl & Hb).
  destruct (before_event _ s1) as [s2 [[]|err|]] eqn:Hbe; [| |done].
  - destruct Hb as (Hc2 & Htr & Hsig & Hlive).
    rewrite (apply_event_tail a s s1 s2); [|apply (at_configured _ _ Hat)| |done|done].
    + eapply tail_step; [exact Hpre|done|done| | |].
      * by rewrite Hsig, (at_signature _ _ Hat1).
      * by rewrite Htr, commits_app, Hl, app_nil_r, (at_commits _ _ Hat1).
      * unfold after_event, track_flow. rewrite Ht, andb_false_r, Hbd, Hlive.
        by rewrite (live_now _ _ _ _ Hpre Hat1 Hlen).
    + by rewrite (bool_decide_eq_true_2 _ Ht), Hp.
  - destruct Hb as [-> ->]. unfold apply_event. cbn zeta.
    rewrite eff_bind_eq, processes_eq by apply (at_configured _ _ Hat).
    rewrite (bool_decide_eq_true_2 _ Ht), Hp. cbn [andb]. rewrite eff_bind_eq, Hs1, eff_bind_eq. unfold attempt.
    rewrite Hbe, eff_bind_eq.
    destruct (live_error_closes pre a post _ Hpre (at_requests pre s1 l Hl Hat1) Hlen Ht) as (s3 & ex & -> & Hcl). done.
Qed.

Lemma action_step pre x post s :
  exec_actions plan = pre ++ x :: post -> at_actions pre s -> step_ok pre x (apply_action application x s).
Proof using Hreserved Hclosed Hsession Hclock Hsink Htracks Hacc JL.
  intros Hpre Hat. destruct x as [a|a]; cbn [apply_action]; [|by eapply fixture_step].
  destruct (decide (prefix_length <= List.length (constructed_of pre))%nat) as [Hlen|Hlen]; [|eapply skip_step; [done..|lia]].
  destruct (decide (event_type (constructed_event (action_event a)) = FlowStarted)) as [Ht|Ht]; [by eapply start_step|].
  pose proof (processed_iff _ _ _ Hpre) as Hp. rewrite (proj2 (Nat.leb_le _ _)) in Hp by lia.
  pose proof (at_configured _ _ Hat) as Hc.
  rewrite (apply_event_tail a s s s); [|done| |by apply before_other|done].
  - eapply tail_step; [exact Hpre|done|done|apply (at_signature _ _ Hat)|apply (at_commits _ _ Hat)|].
    rewrite after_boundaries; [by rewrite (live_now _ _ _ _ Hpre Hat Hlen)| |done].
    rewrite <- Hp. by apply should_process_settings.
  - by rewrite (bool_decide_eq_false_2 _ Ht).
Qed.

(** * The loop and its end *)

Lemma actions_step post : forall pre s,
  exec_actions plan = pre ++ post -> at_actions pre s ->
  match apply_actions application post s with
  | (s', Ok None) => at_actions (exec_actions plan) s'
  | (s', Ok (Some ex)) => closes s' ex
  | _ => False
  end.
Proof using Hreserved Hclosed Hsession Hclock Hsink Htracks Hacc JL.
  induction post as [|x post IH]; intros pre s Hpre Hat; cbn [apply_actions].
  { rewrite Hpre, app_nil_r. exact Hat. }
  rewrite eff_bind_eq. pose proof (action_step pre x post s Hpre Hat) as Hstep. unfold step_ok in Hstep.
  destruct (apply_action application x s) as [s1 [[ex|]|err|]]; [done| |done|done].
  apply (IH (pre ++ [x])); [by rewrite <- app_assoc|done].
Qed.

Context (error_text : RuntimeError -> string).

Lemma completed_closes s :
  at_actions (exec_actions plan) s ->
  exists ex, completed_execution error_text application s = Ok ex /\ closes s ex.
Proof using Hrunning Hclosed.
  intros [H1 H2 H3 H4]. assert (constructed_of (exec_actions plan) = plan_constructed plan) as E by done.
  rewrite E in *. rewrite take_ge in H4 by (unfold plan_events; rewrite length_map; lia). rewrite Hrunning in H4.
  unfold completed_execution. rewrite bool_decide_eq_true_2 by (by apply map_eq_nil in H4).
  eexists. split; [done|]. unfold closes. rewrite H3, take_drop. cbn [exec_failed exec_events].
  rewrite H2. unfold plan_closed in Hclosed. by rewrite (pc_signature _ _ _ _ Hclosed) in Hclosed.
Qed.

(** * The prefix *)

Lemma reconstruct_event e tracker :
  (event_type e = FlowStarted -> exists bd, flow_boundary e = Ok bd) ->
  exists tracker', reconstruct_prefix_event tracker e = Ok tracker' /\
    active_boundaries tracker' = track_flow (active_boundaries tracker) e /\ settings tracker' = settings tracker.
Proof using Type.
  intros Hbd. unfold reconstruct_prefix_event, track_flow.
  destruct (event_type e) eqn:Ht; try (by exists tracker).
  - destruct (Hbd eq_refl) as [bd ->]. eexists. split_and!; [done| |done]. unfold active_boundaries. cbn. by rewrite map_app.
  - eexists. split_and!; [done|apply finish_boundaries|apply live_finish_settings].
  - eexists. split_and!; [done|apply finish_boundaries|apply live_finish_settings].
Qed.

Lemma take_prefix pre post n :
  exec_actions plan = pre ++ post -> (n <= List.length (constructed_of pre))%nat ->
  take n (plan_events plan) = map constructed_event (take n (constructed_of pre)).
Proof using Type.
  intros Hpre Hn. unfold plan_events, plan_constructed. rewrite Hpre. fold (constructed_of (pre ++ post)).
  rewrite constructed_of_app, firstn_map. by rewrite take_app_le.
Qed.

Lemma reconstruct_spec post : forall pre tracker,
  exec_actions plan = pre ++ post -> settings tracker = settings (tracker_for mode) ->
  (List.length (constructed_of pre) <= prefix_length)%nat ->
  active_boundaries tracker = running (map constructed_event (constructed_of pre)) ->
  exists tracker', reconstruct_prefix tracker post = Ok tracker' /\ settings tracker' = settings (tracker_for mode) /\
    active_boundaries tracker' = running (take prefix_length (plan_events plan)).
Proof using Hreserved Hclosed Htracks.
  induction post as [|[a|a] post IH]; intros pre tracker Hpre Hset Hlen Hb; cbn [reconstruct_prefix].
  - exists tracker. split_and!; [done|done|]. rewrite Hb. rewrite app_nil_r in Hpre.
    unfold plan_events, plan_constructed. rewrite Hpre. fold (constructed_of pre).
    by rewrite take_ge by (rewrite length_map; lia).
  - pose proof (event_sequence _ _ _ Hpre) as Hseq.
    assert (prefix_count tracker = prefix_count (tracker_for mode)) as Hpc by (by injection Hset).
    rewrite Hpc, Hseq. unfold prefix_length in *.
    destruct (Z.ltb_spec (prefix_count (tracker_for mode)) (Z.of_nat (List.length (constructed_of pre)) + 1)) as [Hlt|Hge].
    + exists tracker. split_and!; [done|done|]. rewrite Hb. rewrite (take_prefix pre _ _ Hpre) by lia.
      by rewrite take_ge by lia.
    + destruct (reconstruct_event (constructed_event (action_event a)) tracker) as (t1 & -> & Hb1 & Hs1).
      { intros Ht. destruct (rs_start _ _ _ Hreserved _ _ _ Hpre Ht) as (_ & _ & _ & _ & _ & _ & _ & bd & Hbd). by exists bd. }
      cbn [mbind result_bind]. apply (IH (pre ++ [ActionEvent a])).
      * by rewrite <- app_assoc.
      * congruence.
      * rewrite constructed_snoc, length_app. cbn. lia.
      * rewrite constructed_snoc, map_app. cbn [map]. by rewrite running_snoc, Hb1, Hb.
  - apply (IH (pre ++ [ActionFixture a])); [by rewrite <- app_assoc|done|..];
      rewrite constructed_of_app; by rewrite app_nil_r.
Qed.

Lemma acquire_all_spec pending : forall acquired s,
  exists l, effects l = [] /\ commits l = [] /\ (pending = [] -> l = []) /\
    match acquire_all acquired pending s with
    | (s', Ok active) => s' = mkApply (trace s ++ l) (live s) (event_signature s) (context_signature s) /\
        map active_boundary active = map active_boundary (acquired ++ pending)
    | (s', Err err) => s' = mkApply (trace s ++ l) (live s) (event_signature s) (context_signature s) /\
        err = live_limit_error /\ pending <> []
    | (_, Panic) => False
    end.
Proof using Type.
  induction pending as [|a pending IH]; intros acquired s; cbn [acquire_all].
  { exists []. rewrite app_nil_r. split_and!; try done. cbn. rewrite app_nil_r. by destruct s. }
  rewrite eff_bind_eq. unfold acquire_live_flow_invocation. destruct (_ <=? _); [by exists [IoAcquire]|].
  match goal with |- context [acquire_all ?acq pending ?s1] => destruct (IH acq s1) as (l & H1 & H2 & H3 & H4) end.
  exists (IoAcquire :: l). split_and!; [done|done|done|].
  cbn [trace live event_signature context_signature] in H4. rewrite <- app_assoc in H4. cbn [app] in H4.
  destruct (acquire_all _ pending _) as [s2 [active|err|]]; [|by destruct_and!|done].
  destruct H4 as [-> ->]. split; [done|]. rewrite <- app_assoc, !map_app. done.
Qed.

Lemma for_application_spec s :
  configured application s -> event_signature s = signature_new EVENT_PLAN_DOMAIN -> commits (trace s) = [] ->
  match for_application (exec_actions plan) mode s with
  | (s', Ok _) => at_actions [] s'
  | (s', Err err) => err = live_limit_error /\ effects (trace s') = effects (trace s) /\ prefix_length <> 0%nat
  | (_, Panic) => False
  end.
Proof using Hreserved Hclosed Htracks.
  intros Hc Hsig Hcm. unfold for_application. cbn zeta. rewrite Htracks. cbn [negb].
  destruct (reconstruct_spec (exec_actions plan) [] (tracker_for mode)) as (tracker & Hr & Hset & Hb);
    [done|done|cbn; lia|by destruct mode|].
  rewrite eff_bind_eq. unfold lift. rewrite Hr.
  assert (forall s' active, configured application s' -> event_signature s' = signature_new EVENT_PLAN_DOMAIN ->
    commits (trace s') = [] -> map active_boundary active = active_boundaries tracker ->
    at_actions [] (with_live s' (with_active tracker active))) as Hat.
  { intros s' active _ H1 H2 H3. constructor; [exact Hset|exact H1| |].
    - cbn [trace with_live]. rewrite H2. symmetry. apply drop_nil.
    - cbn [List.length constructed_of omap list_omap map]. rewrite Nat.max_0_r, <- Hb. exact H3. }
  destruct (acquire_slots tracker) eqn:Hacq.
  - rewrite eff_bind_eq.
    destruct (acquire_all_spec (active_invocations tracker) [] s) as (l & H1 & H2 & H3 & H4).
    destruct (acquire_all [] _ s) as [s1 [active|err|]]; [| |done].
    + destruct H4 as [-> Hm]. apply Hat; [done|done| |done]. cbn [trace]. by rewrite commits_app, H2, Hcm.
    + destruct H4 as (-> & -> & Hne). split_and!; [done|cbn [trace]; by rewrite effects_app, H1, app_nil_r|].
      intros H0. rewrite H0 in Hb. cbn in Hb. unfold active_boundaries in Hb.
      destruct (active_invocations tracker); [done|discriminate Hb].
  - cbn [set_live]. replace tracker with (with_active tracker (active_invocations tracker)) at 1 by (by destruct tracker).
    by apply Hat.
Qed.

(** * The application *)

Lemma preflight_actions_ok post : forall pre s,
  exec_actions plan = pre ++ post ->
  exists l, effects l = [] /\ commits l = [] /\
    preflight_actions application post s
      = (mkApply (trace s ++ l) (live s) (event_signature s) (context_signature s), Ok tt).
Proof using Hreserved Hacc.
  induction post as [|[a|a] post IH]; intros pre s Hpre; cbn [preflight_actions].
  - exists []. rewrite app_nil_r. by destruct s.
  - apply (IH (pre ++ [ActionEvent a])). by rewrite <- app_assoc.
  - assert (exists l, effects l = [] /\ commits l = [] /\
      (if handles_tool application a then preflight_planned_fixture_effect a else mret tt) s
        = (mkApply (trace s ++ l) (live s) (event_signature s) (context_signature s), Ok tt)) as (l & H1 & H2 & H3).
    { destruct (handles_tool application a); [|exists []; rewrite app_nil_r; by destruct s].
      unfold preflight_planned_fixture_effect. destruct (rs_fixture _ _ _ Hreserved _ _ _ Hpre) as [_ Hrun].
      destruct (effect a) as [c argv p|p w].
      - destruct (Hrun c argv p eq_refl) as [o Ho]. exists []. rewrite app_nil_r, eff_bind_eq. unfold lift.
        rewrite Ho. by destruct s.
      - exists [IoPreflightOutputs w]. split_and!; [done|done|]. by apply perform_accepted. }
    rewrite eff_bind_eq, H3.
    match goal with |- context [preflight_actions application post ?s1] =>
      destruct (IH (pre ++ [ActionFixture a]) s1) as (k & K1 & K2 & ->) end; [by rewrite <- app_assoc|].
    exists (l ++ k). cbn [trace live event_signature context_signature].
    by rewrite effects_app, commits_app, H1, H2, app_assoc.
Qed.

Lemma check_session_ok : check_session application = Ok tt.
Proof using Hclosed Hsession.
  unfold check_session. destruct (pc_end _ _ _ _ Hclosed) as (e & He & _).
  assert (exists a, find_map (fun action => match action with
    | ActionEvent action => Some (session_id (constructed_event (action_event action)))
    | ActionFixture _ => None end) (exec_actions plan) = Some (session_id (constructed_event a)) /\ a ∈ plan_constructed plan)
    as (c & Hf & Hin).
  { unfold plan_constructed in *. clear -He. induction (exec_actions plan) as [|[a|a] l IH]; [done| |by apply IH].
    exists (action_event a). split; [done|left]. }
  rewrite Hf. cbn [ok_or mbind result_bind].
  rewrite (sw_expected _ _ (pc_stream _ _ _ _ Hclosed) (constructed_event c) session);
    [|by apply list_elem_of_fmap_2|done].
  by rewrite Hsession, String.eqb_refl.
Qed.

Lemma apply_workspace s :
  configured application s -> event_signature s = signature_new EVENT_PLAN_DOMAIN -> trace s = [] ->
  match apply_flow_with_workspace error_text application s with
  | (s', Ok ex) => closes s' ex
  | (s', Err err) => err = live_limit_error /\ effects (trace s') = [] /\ prefix_length <> 0%nat
  | (_, Panic) => False
  end.
Proof using Hreserved Hrunning Hclosed Hsession Hclock Hsink Htracks Hacc JL.
  intros Hc Hsig Htr. unfold apply_flow_with_workspace, preflight_flow_execution_plan.
  rewrite !eff_bind_eq, perform_accepted by done.
  match goal with |- context [preflight_actions application (exec_actions plan) ?s1] =>
    destruct (preflight_actions_ok (exec_actions plan) [] s1 eq_refl) as (l & H1 & H2 & ->) end.
  rewrite eff_bind_eq. unfold lift. rewrite check_session_ok, eff_bind_eq. rewrite Htr.
  match goal with |- context [for_application (exec_actions plan) mode ?s1] =>
    pose proof (for_application_spec s1 Hc Hsig) as Hfor end.
  cbn [trace live event_signature context_signature app] in Hfor |- *.
  specialize (Hfor ltac:(exact H2)). change (effects (IoVerifyIdentity :: l)) with (effects l) in Hfor. rewrite H1 in Hfor.
  destruct (for_application _ _ _) as [s1 [[]|err|]]; [|done|done].
  rewrite eff_bind_eq. pose proof (actions_step (exec_actions plan) [] s1 eq_refl Hfor) as Hact.
  destruct (apply_actions application (exec_actions plan) s1) as [s2 [[ex|]|err|]]; [exact Hact| |done|done].
  unfold reads. destruct (completed_closes s2 Hact) as (ex & -> & Hcl). exact Hcl.
Qed.
End apply.

