(* ===== verification/ApplyExamples.v ===== *)
(** Applications of the planned session of [PlanExamples]: one that succeeds, one whose effect
    fails, one that gets no slot; and runs of the counter of live Flows. *)

From Stdlib Require Import ZArith Lia Ascii String.
From stdpp Require Import base strings sorting sets option gmap countable list.
From S2P Require Import Prelude Decimal Sorting Metadata Json FlowValue Event Lifecycle.
From S2P Require Import Paths Values Blocks CanonicalBlock Registry ScriptExamples Errors PhaseControl.
From S2P Require Import Policy OwnScript Context Builder BuilderTheory Planner PlanProps PlanExamples.
From S2P Require Import Live LiveTheory Apply ApplyTheory ApplyProps.

Open Scope Z_scope.

#[local] Existing Instance plain_json.
#[local] Existing Instance plain_json_laws.
#[local] Existing Instance demo_env.

(** * Applications *)

(** A sink that wants to see the alternatives and takes all events. *)
Definition surroundings (binding : result RuntimeError unit) (live_flows : Z) : Surroundings := {|
  answer := fun _ r => match r with IoVerifyBinding => binding | _ => Ok tt end;
  needs_alternative_preflight := fun _ => true;
  observed_live := fun _ => live_flows;
|}.

Definition demo_application (mode : ToolSideEffectMode) : FlowApplication :=
  mkApplication "session-1" (mkOptions (mkClock 1767225600) None mode true) talk_execution true.

Definition no_text (_ : RuntimeError) : string := "".

(** The types of the committed events, and whether the execution failed. *)
Definition demo_apply (N : Surroundings) (mode : ToolSideEffectMode) : list EventType * option bool :=
  let '(s, r) := @apply_flow_with_anchored_workspace _ _ N no_text (demo_application mode) in
  (map (fun c => event_type (constructed_event c)) (commits (trace s)),
   match r with Ok ex => Some (exec_failed ex) | _ => None end).

Example apply_succeeds :
  demo_apply (surroundings (Ok tt) 0) ModeApply
  = ([SessionStarted; FlowStarted; PhaseEntered; MessageDelta; MessageCompleted; ToolStarted; ToolCompleted;
      MessageDelta; MessageCompleted; PhaseCompleted; FlowCompleted; SessionCompleted], Some false).
Proof. vm_compute. reflexivity. Qed.

Example apply_effect_fails :
  demo_apply (surroundings (Err (Errors.Io PermissionDenied)) 0) ModeApply
  = ([SessionStarted; FlowStarted; PhaseEntered; MessageDelta; MessageCompleted; ToolStarted;
      ToolFailed; PhaseFailed; Metadata.Error; FlowFailed; SessionFailed], Some true).
Proof. vm_compute. reflexivity. Qed.

Example apply_no_slot :
  demo_apply (surroundings (Ok tt) 32) ModeApply = ([SessionStarted; Metadata.Error; SessionFailed], Some true).
Proof. vm_compute. reflexivity. Qed.

(** Resumed after the Tool started: only the rest is committed. *)
Example apply_resumes :
  demo_apply (surroundings (Ok tt) 0) (ModeResume 6)
  = ([ToolCompleted; MessageDelta; MessageCompleted; PhaseCompleted; FlowCompleted; SessionCompleted], Some false).
Proof. vm_compute. reflexivity. Qed.

Lemma surroundings_accepting binding n :
  binding <> Panic -> (forall err, binding = Err err -> should_terminalize_error err = false) ->
  accepting (surroundings binding n).
Proof.
  intros Hp He. split; cbn.
  - by intros tr [] H1 H2.
  - by intros tr [].
  - intros tr [] err; try done. apply He.
Qed.


(** * The counter *)

Section counter.
Import Slots SlotsTheory.

(** The run of one thread. *)
Fixpoint steps (n : nat) (t : nat) (s : Slots.state) (l : list Slots.event) : list Slots.event * Slots.state :=
  match n with
  | O => (l, s)
  | S n => match alone t s with Some (e, s') => steps n t s' (l ++ [e]) | None => (l, s) end
  end.

Lemma steps_run n : forall t s l, run initial l s -> run initial (steps n t s l).1 (steps n t s l).2.
Proof.
  induction n as [|n IH]; intros t s l H; cbn [steps]; [done|].
  destruct (alone t s) as [[e s']|] eqn:E; [|done]. apply IH. econstructor; [exact H|by apply alone_step in E].
Qed.

(** 32 slots are granted, the next call is refused. *)
Example counter_fills : (steps 66 0 initial []).1 !! 65%nat = Some (Refused 0).
Proof. vm_compute. reflexivity. Qed.

Lemma slots_safe_witness :
  (0 <= counter (steps 66 0 initial []).2 <= MAX_LIVE_FLOW_INVOCATIONS)
  /\ exists before l1 l2 s1, (steps 65 0 initial []).1 = before ++ Began 0 :: l1 ++ l2 /\ pending 0 (l1 ++ l2)
       /\ run initial (before ++ Began 0 :: l1) s1 /\ run s1 (l2 ++ [Refused 0]) (steps 66 0 initial []).2
       /\ counter s1 = MAX_LIVE_FLOW_INVOCATIONS.
Proof.
  destruct (slots_safe (steps 66 0 initial []).1 (steps 66 0 initial []).2) as (_ & Hc & _ & Hr).
  { apply steps_run. constructor. }
  split; [exact Hc|]. apply (Hr (steps 65 0 initial []).1 0%nat). vm_compute. reflexivity.
Defined.

Lemma acquire_progress_witness :
  exists s', call 2 1 (steps 64 0 initial []).2 = Some (Refused 1, s').
Proof.
  destruct (acquire_progress (steps 64 0 initial []).1 (steps 64 0 initial []).2 1) as (H & _ & _).
  { apply steps_run. constructor. }
  destruct H as (s' & H & _).
  { vm_compute. reflexivity. }
  exists s'. exact H.
Defined.
End counter.
