(* ===== verification/Segments.v ===== *)
(** The segments of a stream ([flow-agent-core/src/runtime/fs_guards/segmented_jsonl.rs], the
    stream limits of [types.rs]): an event log or a log of context manifests is one base file
    and numbered siblings; a scan of the directory finds them and refuses names that are
    malformed, aliases, out of range or not contiguous. *)

From Stdlib Require Import ZArith Lia Ascii String.
From stdpp Require Import base strings sorting sets option gmap countable list.
From S2P Require Import Prelude Decimal Sorting Metadata Json FlowValue Event Lifecycle Errors.
From S2P Require Import Validate OwnScript Context Builder Planner.

Open Scope Z_scope.

(** * Limits ([types.rs]) *)

Definition MAX_SESSION_SEGMENT_BYTES : Z := 16 * 1024 * 1024.

Record SessionStreamLimits : Type := mkLimits {
  max_segments : Z;
  max_total_bytes : Z;
}.

Definition EVENT_STREAM_LIMITS : SessionStreamLimits := mkLimits 22 MAX_SESSION_EVENT_BYTES.
Definition CONTEXT_MANIFEST_STREAM_LIMITS : SessionStreamLimits :=
  mkLimits 5 MAX_SESSION_CONTEXT_MANIFEST_BYTES.

(** * Names *)

Definition JSONL_SUFFIX : string := ".jsonl".
Definition MAX_SEGMENT_ORDINAL : Z := 999999.

(** [str::strip_suffix(&str)]. *)
Fixpoint strip_suffix (p s : string) : option string :=
  if bool_decide (s = p) then Some ""%string
  else match s with
       | EmptyString => None
       | String a s => String a <$> strip_suffix p s
       end.

Inductive SegmentedJsonlLeaf : Type :=
| LeafUnrelated
| LeafInvalid
| LeafOrdinal (ordinal : Z).

#[export] Instance SegmentedJsonlLeaf_eq_dec : EqDecision SegmentedJsonlLeaf.
Proof. solve_decision. Defined.

(** [format!("{stem}.{ordinal:06}{JSONL_SUFFIX}")] *)
Definition numbered_leaf (stem : string) (ordinal : Z) : string :=
  stem +:+ "." +:+ dec_pad 6 ordinal +:+ JSONL_SUFFIX.

Definition segmented_jsonl_leaf (stem : string) (ordinal : Z) : option string :=
  if ordinal =? 1 then Some (stem +:+ JSONL_SUFFIX)
  else if in_range 2 MAX_SEGMENT_ORDINAL ordinal then Some (numbered_leaf stem ordinal)
  else None.

Definition segmented_jsonl_leaf_stem (name : string) : option string := strip_suffix JSONL_SUFFIX name.

Definition parse_segmented_jsonl_leaf (name stem : string) : SegmentedJsonlLeaf :=
  if bool_decide (Some name = segmented_jsonl_leaf stem 1) then LeafOrdinal 1
  else
    match (suffix ← strip_prefix stem name; suffix ← strip_prefix "." suffix; strip_suffix JSONL_SUFFIX suffix)
          : option string with
    | None => LeafUnrelated
    | Some ordinal =>
        if negb (slen ordinal =? 6) || negb (all_digits ordinal) then LeafInvalid
        else match parse_u64 ordinal with
             | Some ordinal => if ordinal <=? MAX_SEGMENT_ORDINAL then LeafOrdinal ordinal else LeafInvalid
             | None => LeafInvalid
             end
    end.

(** * Files *)

(** A file of an open directory: the path of the directory, the name in it. *)
Record AnchoredFile : Type := mkAnchored {
  parent_path : string;
  leaf : string;
}.

#[export] Instance AnchoredFile_eq_dec : EqDecision AnchoredFile.
Proof. solve_decision. Defined.

(** [AnchoredDir::file] on the directory of [base]. *)
Definition sibling (base : AnchoredFile) (name : string) : AnchoredFile := mkAnchored (parent_path base) name.

(** [diagnostic_path().display()]: the text of the path in a message. *)
Definition diagnostic_path (f : AnchoredFile) : string := parent_path f +:+ "/" +:+ leaf f.

(** [str::is_ascii] *)
Definition is_ascii (s : string) : bool := bytes_all (fun a => byte a <? 128) s.

Definition segmented_jsonl_stem (base : AnchoredFile) : result RuntimeError string :=
  stem ← ok_or (segmented_jsonl_leaf_stem (leaf base))
    (Protocol (diagnostic_path base +:+ " segmented JSONL path must end in .jsonl"));
  reject negb (is_ascii stem)
    with Protocol (diagnostic_path base +:+ " segmented JSONL stem must be ASCII");;
  Ok stem.

Definition segmented_jsonl_path (base : AnchoredFile) (ordinal : Z) : result RuntimeError AnchoredFile :=
  if ordinal =? 1 then Ok base
  else
    stem ← segmented_jsonl_stem base;
    name ← ok_or (segmented_jsonl_leaf stem ordinal) (Protocol "segmented JSONL ordinal is exhausted");
    Ok (sibling base name).

(** * The scan of the directory

    What the directory answers: its entries, in any order, each a name ([None] when it is not
    UTF-8) or an error of the listing; and [ensure_anchored_real_file] on a name. *)

Class Directory : Type := {
  entries : result RuntimeError (list (result RuntimeError (option string)));
  ensure_anchored_real_file : AnchoredFile -> result RuntimeError unit;
}.

Inductive SegmentedJsonlMember : Type :=
| MemberCanonical (ordinal : Z) (file : AnchoredFile)
| MemberAlias (file : AnchoredFile).

#[export] Instance SegmentedJsonlMember_eq_dec : EqDecision SegmentedJsonlMember.
Proof. solve_decision. Defined.

(** What an entry of the directory is to the stream with this stem: the argument of [visit],
    nothing, or an error. *)
Definition segmented_jsonl_member (base : AnchoredFile) (stem name : string)
    : result RuntimeError (option SegmentedJsonlMember) :=
  let folded_leaf := to_ascii_lowercase stem in
  let candidate := to_ascii_lowercase name in
  if bool_decide (candidate = folded_leaf +:+ JSONL_SUFFIX) then
    Ok (if bool_decide (name = stem +:+ JSONL_SUFFIX) then None else Some (MemberAlias (sibling base name)))
  else
    match parse_segmented_jsonl_leaf candidate folded_leaf with
    | LeafOrdinal ordinal =>
        Ok (Some (if bool_decide (name = numbered_leaf stem ordinal)
                  then MemberCanonical ordinal (sibling base name)
                  else MemberAlias (sibling base name)))
    | LeafInvalid =>
        Err (Protocol (parent_path base +:+ " contains malformed segmented JSONL name " +:+ name))
    | LeafUnrelated => Ok None
    end.

Section scan.
Context {D : Directory} (base : AnchoredFile).

(** The loop over the entries, with the variables that the closure [visit] captures. *)
Fixpoint visit_entries {S : Type} (stem : string) (visit : SegmentedJsonlMember -> S -> result RuntimeError S)
    (l : list (result RuntimeError (option string))) (s : S) : result RuntimeError S :=
  match l with
  | [] => Ok s
  | entry :: l =>
      name ← entry;
      match name with
      | None => visit_entries stem visit l s
      | Some name =>
          member ← segmented_jsonl_member base stem name;
          s ← match member with Some member => visit member s | None => Ok s end;
          visit_entries stem visit l s
      end
  end.

Definition for_each_segmented_jsonl_member {S : Type} (visit : SegmentedJsonlMember -> S -> result RuntimeError S)
    (s : S) : result RuntimeError S :=
  stem ← segmented_jsonl_stem base;
  l ← entries;
  visit_entries stem visit l s.

Definition canonical_segmented_jsonl_sibling (member : SegmentedJsonlMember)
    : result RuntimeError (Z * AnchoredFile) :=
  match member with
  | MemberCanonical ordinal file => Ok (ordinal, file)
  | MemberAlias file =>
      Err (Protocol (parent_path base +:+ " contains non-canonical segmented JSONL name " +:+ leaf file))
  end.

Context (limits : SessionStreamLimits).

(** [Some(invalid_ordinal.map_or(ordinal, |old| old.min(ordinal)))] *)
Definition lowest (invalid : option Z) (ordinal : Z) : option Z :=
  Some (match invalid with Some old => Z.min old ordinal | None => ordinal end).

Definition invalid_ordinal_error (ordinal : Z) : RuntimeError :=
  Protocol (diagnostic_path base +:+ " has invalid segmented JSONL ordinal " +:+ dec_pad 6 ordinal).
Definition segment_count_error : RuntimeError :=
  Protocol (diagnostic_path base +:+ " segment count exceeds max " +:+ Z_to_string (max_segments limits)).
Definition non_contiguous_error : RuntimeError :=
  Protocol (diagnostic_path base +:+ " has non-contiguous segmented JSONL ordinals").

(** ** The list of the files *)

(** The variables [siblings], [invalid_ordinal] and [exceeds_limit]. *)
Record Found : Type := mkFound {
  siblings : list (Z * AnchoredFile);
  invalid_ordinal : option Z;
  exceeds_limit : bool;
}.

Definition visit_file (member : SegmentedJsonlMember) (s : Found) : result RuntimeError Found :=
  '(ordinal, candidate) ← canonical_segmented_jsonl_sibling member;
  Ok (if ordinal <? 2 then mkFound (siblings s) (lowest (invalid_ordinal s) ordinal) (exceeds_limit s)
      else if max_segments limits <? ordinal then mkFound (siblings s) (invalid_ordinal s) true
      else mkFound (siblings s ++ [(ordinal, candidate)]) (invalid_ordinal s) (exceeds_limit s)).

(** [sort_unstable_by_key(|(ordinal, _)| *ordinal)]: equal ordinals have equal files. *)
Definition ordinal_leb (a b : Z * AnchoredFile) : bool := a.1 <=? b.1.

(** The loop over [(2..).zip(siblings)]. *)
Fixpoint contiguous_files (expected : Z) (l : list (Z * AnchoredFile)) (files : list AnchoredFile)
    : result RuntimeError (list AnchoredFile) :=
  match l with
  | [] => Ok files
  | (ordinal, candidate) :: l =>
      reject negb (ordinal =? expected) with non_contiguous_error;;
      _ ← ensure_anchored_real_file candidate;
      contiguous_files (expected + 1) l (files ++ [candidate])
  end.

Definition segmented_jsonl_files : result RuntimeError (list AnchoredFile) :=
  _ ← ensure_anchored_real_file base;
  found ← for_each_segmented_jsonl_member visit_file (mkFound [] None false);
  match invalid_ordinal found with
  | Some ordinal => Err (invalid_ordinal_error ordinal)
  | None =>
      reject exceeds_limit found with segment_count_error;;
      contiguous_files 2 (sort_by ordinal_leb (siblings found)) [base]
  end.

(** ** The number of files *)

(** The variables [segment_count], [max_ordinal], [invalid_ordinal] and [exceeds_limit]. *)
Record Counted : Type := mkCounted {
  segment_count : Z;
  max_ordinal : Z;
  count_invalid_ordinal : option Z;
  count_exceeds_limit : bool;
}.

Definition visit_count (inspect_candidate : AnchoredFile -> result RuntimeError unit)
    (member : SegmentedJsonlMember) (s : Counted) : result RuntimeError Counted :=
  '(ordinal, candidate) ← canonical_segmented_jsonl_sibling member;
  if ordinal <? 2 then
    Ok (mkCounted (segment_count s) (max_ordinal s) (lowest (count_invalid_ordinal s) ordinal)
          (count_exceeds_limit s))
  else if max_segments limits <? ordinal then
    Ok (mkCounted (segment_count s) (max_ordinal s) (count_invalid_ordinal s) true)
  else
    _ ← inspect_candidate candidate;
    Ok (mkCounted (sat_u64 (segment_count s + 1)) (Z.max (max_ordinal s) ordinal) (count_invalid_ordinal s)
          (count_exceeds_limit s)).

Definition segmented_jsonl_inventory (inspect_candidate : AnchoredFile -> result RuntimeError unit)
    : result RuntimeError Z :=
  counted ← for_each_segmented_jsonl_member (visit_count inspect_candidate) (mkCounted 1 1 None false);
  match count_invalid_ordinal counted with
  | Some ordinal => Err (invalid_ordinal_error ordinal)
  | None =>
      reject count_exceeds_limit counted with segment_count_error;;
      reject negb (segment_count counted =? max_ordinal counted) with non_contiguous_error;;
      Ok (segment_count counted)
  end.

Definition segmented_jsonl_segment_count : result RuntimeError Z :=
  _ ← ensure_anchored_real_file base;
  segmented_jsonl_inventory ensure_anchored_real_file.

Definition verify_segmented_jsonl_inventory (expected_segment_count : Z) : result RuntimeError unit :=
  count ← segmented_jsonl_inventory (fun _ => Ok tt);
  reject negb (count =? expected_segment_count)
    with Protocol (diagnostic_path base +:+ " segment inventory changed outside append semantics: expected "
                   +:+ Z_to_string expected_segment_count +:+ " segments, found " +:+ Z_to_string count);;
  Ok tt.
End scan.

(** [retry_event_segment_discovery]: the scan is repeated once, since another process may have
    added a segment during it; [discover n] is the answer of the [n]-th call. *)
Definition retry_event_segment_discovery {T} (discover : nat -> result RuntimeError T) : result RuntimeError T :=
  match discover 0%nat with
  | Err (Protocol _ | Invalid _ | Unserializable _ _ | Rejected _) => discover 1%nat
  | result => result
  end.
