(* ===== verification/SegmentsTheory.v ===== *)
(** Theorems on the segments of a stream: names and ordinals determine each other, and the two
    scans of the directory accept the same directories, those whose members are the segments
    2, 3, .. without a gap. *)

From Stdlib Require Import ZArith Lia Ascii String.
From stdpp Require Import base strings sorting sets option gmap countable list.
From S2P Require Import Prelude Decimal Sorting Metadata Json FlowValue Event Lifecycle Errors.
From S2P Require Import Validate Paths OwnScript Context Builder Planner Segments.

Open Scope Z_scope.

(** * Strings *)

Lemma strip_suffix_Some p s r : strip_suffix p s = Some r <-> s = r +:+ p.
Proof.
  revert r. induction s as [|a s IH]; intros r; cbn [strip_suffix].
  - case_bool_decide as H; [subst p|]; destruct r; cbn; [naive_solver..|].
    split; [discriminate|]. intros Hr. destruct r; cbn in Hr; [congruence|done].
  - case_bool_decide as H.
    + subst p. split; [by intros [= <-]|]. intros E. destruct r as [|b r]; [done|]. exfalso.
      apply (f_equal String.length) in E. rewrite length_app_string in E. cbn in E. lia.
    + rewrite fmap_Some. split.
      * intros (r' & ->%IH & ->). done.
      * destruct r as [|b r]; cbn; [congruence|]. intros [= -> E]. exists r. by rewrite IH.
Qed.

Lemma app_string_inj_l p s t : p +:+ s = p +:+ t -> s = t.
Proof. induction p as [|a p IH]; cbn; [done|]. intros [= E]. by apply IH. Qed.

Lemma app_string_inj_r p s t : s +:+ p = t +:+ p -> s = t.
Proof.
  intros E. assert (strip_suffix p (s +:+ p) = Some t) as H by (by apply strip_suffix_Some).
  rewrite (proj2 (strip_suffix_Some p _ s)) in H by done. by injection H.
Qed.

Lemma lowercase_app s t : to_ascii_lowercase (s +:+ t) = to_ascii_lowercase s +:+ to_ascii_lowercase t.
Proof. induction s as [|a s IH]; cbn; [done|]. by rewrite IH. Qed.

Lemma lowercase_digits s : all_digits s = true -> to_ascii_lowercase s = s.
Proof.
  unfold all_digits. induction s as [|a s IH]; cbn; [done|]. intros [Ha Hs]%andb_true_iff.
  rewrite IH by done. replace (is_ascii_uppercase a) with false; [done|].
  unfold is_ascii_uppercase, is_ascii_digit in *. lia.
Qed.

(** * Names *)

Lemma pad_digits k : 0 <= k <= MAX_SEGMENT_ORDINAL ->
  all_digits (dec_pad 6 k) = true /\ digits_value 0 (dec_pad 6 k) = k /\ String.length (dec_pad 6 k) = 6%nat.
Proof. unfold MAX_SEGMENT_ORDINAL. intros H. apply dec_pad_spec; lia. Qed.

Lemma parse_pad k : 0 <= k <= MAX_SEGMENT_ORDINAL -> parse_u64 (dec_pad 6 k) = Some k.
Proof.
  intros H. destruct (pad_digits k H) as (H1 & H2 & H3). unfold parse_u64.
  rewrite parse_int_digits by (done || by intros E; rewrite E in H3). rewrite H2.
  unfold MAX_SEGMENT_ORDINAL, u64_max in *. by replace (k <=? _) with true by lia.
Qed.

Lemma numbered_leaf_inj stem j k :
  0 <= j <= MAX_SEGMENT_ORDINAL -> 0 <= k <= MAX_SEGMENT_ORDINAL ->
  numbered_leaf stem j = numbered_leaf stem k -> j = k.
Proof.
  unfold numbered_leaf. intros Hj Hk E%app_string_inj_l%app_string_inj_l%app_string_inj_r.
  destruct (pad_digits j Hj) as (_ & <- & _), (pad_digits k Hk) as (_ & <- & _). by rewrite E.
Qed.

Lemma numbered_not_base stem k : 0 <= k <= MAX_SEGMENT_ORDINAL -> numbered_leaf stem k <> stem +:+ JSONL_SUFFIX.
Proof.
  intros Hk E%app_string_inj_l%(f_equal String.length). rewrite !length_app_string in E.
  destruct (pad_digits k Hk) as (_ & _ & Hl). rewrite Hl in E. cbn in E. lia.
Qed.

Lemma parse_numbered stem k :
  0 <= k <= MAX_SEGMENT_ORDINAL -> parse_segmented_jsonl_leaf (numbered_leaf stem k) stem = LeafOrdinal k.
Proof.
  intros Hk. unfold parse_segmented_jsonl_leaf. rewrite bool_decide_eq_false_2.
  2: { cbn. intros [= E]. by apply (numbered_not_base stem k Hk). }
  assert (strip_prefix stem (numbered_leaf stem k) = Some ("." +:+ dec_pad 6 k +:+ JSONL_SUFFIX)) as ->
    by (by apply strip_prefix_Some).
  cbn [mbind option_bind]. assert (strip_prefix "." ("." +:+ dec_pad 6 k +:+ JSONL_SUFFIX)
    = Some (dec_pad 6 k +:+ JSONL_SUFFIX)) as -> by (by apply strip_prefix_Some).
  cbn [mbind option_bind]. rewrite (proj2 (strip_suffix_Some JSONL_SUFFIX _ (dec_pad 6 k))) by done.
  destruct (pad_digits k Hk) as (H1 & H2 & H3). unfold slen. rewrite H1, H3, parse_pad by done. cbn.
  by replace (k <=? MAX_SEGMENT_ORDINAL) with true by lia.
Qed.

Lemma parse_ordinal name stem k :
  parse_segmented_jsonl_leaf name stem = LeafOrdinal k ->
  k = 1 /\ name = stem +:+ JSONL_SUFFIX \/ 0 <= k <= MAX_SEGMENT_ORDINAL /\ name = numbered_leaf stem k.
Proof.
  unfold parse_segmented_jsonl_leaf. case_bool_decide as H; [intros [= <-]; left; cbn in H; naive_solver|].
  destruct (strip_prefix stem name ≫= _) as [o|] eqn:E; [|discriminate].
  apply bind_Some in E as (s1 & E1%strip_prefix_Some & E).
  apply bind_Some in E as (s2 & E2%strip_prefix_Some & E3%strip_suffix_Some). subst.
  destruct (negb (slen o =? 6)) eqn:Hl; [discriminate|]. destruct (all_digits o) eqn:Hd; [|discriminate].
  cbn [orb negb]. destruct (parse_u64 o) as [n|] eqn:Hp; [|discriminate].
  destruct (Z.leb_spec n MAX_SEGMENT_ORDINAL) as [Hn|]; [|discriminate]. intros [= <-]. right.
  unfold parse_u64 in Hp. rewrite parse_int_digits in Hp by (done || by intros ->). case_match; [|done].
  injection Hp as <-. pose proof (digits_value_lb 0 o Hd ltac:(lia)). split; [lia|].
  destruct (pad_digits (digits_value 0 o)) as (P1 & P2 & P3); [lia|].
  apply negb_false_iff, Z.eqb_eq in Hl. unfold slen in Hl.
  unfold numbered_leaf. by rewrite <- (digits_value_inj o (dec_pad 6 (digits_value 0 o))) by (done || lia).
Qed.

(** A name and its ordinal determine each other: the name of every ordinal of a stream is read
    back as that ordinal, and only that name is. *)
Theorem segment_leaf_round_trip stem k name :
  1 <= k ->
  (segmented_jsonl_leaf stem k = Some name <->
   parse_segmented_jsonl_leaf name stem = LeafOrdinal k /\ name <> numbered_leaf stem 1).
Proof.
  intros Hk. unfold segmented_jsonl_leaf. assert (1 <= MAX_SEGMENT_ORDINAL) by (unfold MAX_SEGMENT_ORDINAL; lia).
  destruct (Z.eqb_spec k 1) as [->|Hne].
  - split.
    + intros [= <-]. split; [by unfold parse_segmented_jsonl_leaf; rewrite bool_decide_eq_true_2|].
      intros E. symmetry in E. by apply (numbered_not_base stem 1) in E; [|lia].
    + intros [[[_ ->]|[_ ->]]%parse_ordinal Hn]; done.
  - unfold in_range. split.
    + destruct ((2 <=? k) && (k <=? MAX_SEGMENT_ORDINAL)) eqn:E; [|discriminate].
      apply andb_true_iff in E as [E1%Z.leb_le E2%Z.leb_le]. intros [= <-]. rewrite parse_numbered by lia.
      split; [done|]. intros ->%numbered_leaf_inj; lia.
    + intros [[[-> _]|[Hr ->]]%parse_ordinal Hn]; [done|].
      replace (2 <=? k) with true by lia. by replace (k <=? MAX_SEGMENT_ORDINAL) with true by lia.
Qed.

(** * Members of a stream *)

(** The names the scan of the stream does not pass over: whatever the case of its letters, a
    name is the base name (but not the base file itself), or the stem, a dot, any text and the
    suffix. *)
Definition belongs (stem name : string) : Prop :=
  name <> stem +:+ JSONL_SUFFIX /\
  (to_ascii_lowercase name = to_ascii_lowercase stem +:+ JSONL_SUFFIX \/
   exists text, to_ascii_lowercase name = to_ascii_lowercase stem +:+ "." +:+ text +:+ JSONL_SUFFIX).

(** Whether a name is passed over, with the shape of a name that is not. *)
Lemma parse_related name stem :
  parse_segmented_jsonl_leaf name stem = LeafUnrelated /\
    name <> stem +:+ JSONL_SUFFIX /\ (forall text, name <> stem +:+ "." +:+ text +:+ JSONL_SUFFIX) \/
  parse_segmented_jsonl_leaf name stem <> LeafUnrelated /\
    (name = stem +:+ JSONL_SUFFIX \/ exists text, name = stem +:+ "." +:+ text +:+ JSONL_SUFFIX).
Proof.
  unfold parse_segmented_jsonl_leaf. cbn [segmented_jsonl_leaf Z.eqb Pos.eqb].
  case_bool_decide as H; [right; split; [done|]; left; by injection H|].
  assert (name <> stem +:+ JSONL_SUFFIX) by congruence.
  destruct (strip_prefix stem name ≫= _) as [o|] eqn:E.
  - apply bind_Some in E as (s1 & E1%strip_prefix_Some & E).
    apply bind_Some in E as (s2 & E2%strip_prefix_Some & E3%strip_suffix_Some). subst.
    right. split; [repeat case_match; discriminate|]. right. by exists o.
  - left. split_and!; [done..|]. intros text ->.
    rewrite (proj2 (strip_prefix_Some stem _ ("." +:+ text +:+ JSONL_SUFFIX))) in E by done.
    cbn [mbind option_bind] in E.
    rewrite (proj2 (strip_prefix_Some "." _ (text +:+ JSONL_SUFFIX))) in E by done.
    cbn [mbind option_bind] in E. by rewrite (proj2 (strip_suffix_Some JSONL_SUFFIX _ text)) in E.
Qed.

Lemma lowercase_numbered stem k :
  0 <= k <= MAX_SEGMENT_ORDINAL ->
  to_ascii_lowercase (numbered_leaf stem k) = numbered_leaf (to_ascii_lowercase stem) k.
Proof.
  intros Hk. unfold numbered_leaf. rewrite !lowercase_app, (lowercase_digits (dec_pad 6 k)); [done|].
  by destruct (pad_digits k Hk).
Qed.

Section members.
Context (base : AnchoredFile) (stem : string).

Definition segment (k : Z) : AnchoredFile := sibling base (numbered_leaf stem k).

Lemma member_belongs name :
  segmented_jsonl_member base stem name = Ok None /\ ~ belongs stem name \/
  segmented_jsonl_member base stem name <> Ok None /\ belongs stem name.
Proof.
  unfold segmented_jsonl_member, belongs. case_bool_decide as Hb; [case_bool_decide; naive_solver|].
  assert (name <> stem +:+ JSONL_SUFFIX) by (intros ->; apply Hb; by rewrite lowercase_app).
  pose proof (parse_related (to_ascii_lowercase name) (to_ascii_lowercase stem)) as Hu.
  destruct (parse_segmented_jsonl_leaf _ _) eqn:E; naive_solver.
Qed.

Lemma member_canonical name k file :
  segmented_jsonl_member base stem name = Ok (Some (MemberCanonical k file)) ->
  0 <= k <= MAX_SEGMENT_ORDINAL /\ name = numbered_leaf stem k /\ file = segment k.
Proof.
  unfold segmented_jsonl_member. case_bool_decide as Hb; [case_bool_decide; discriminate|].
  destruct (parse_segmented_jsonl_leaf _ _) eqn:E; [discriminate..|]. case_bool_decide as Hn; [|discriminate].
  intros [= -> <-]. apply parse_ordinal in E as [[_ E]|[Hk _]]; [done|]. by subst.
Qed.

Lemma member_numbered k :
  0 <= k <= MAX_SEGMENT_ORDINAL ->
  segmented_jsonl_member base stem (numbered_leaf stem k) = Ok (Some (MemberCanonical k (segment k))).
Proof.
  intros Hk. unfold segmented_jsonl_member. rewrite lowercase_numbered by done.
  rewrite bool_decide_eq_false_2 by (by apply numbered_not_base). rewrite parse_numbered by done.
  by rewrite bool_decide_eq_true_2.
Qed.

Lemma numbered_belongs k : 0 <= k <= MAX_SEGMENT_ORDINAL -> belongs stem (numbered_leaf stem k).
Proof.
  intros Hk. split; [by apply numbered_not_base|]. right. exists (dec_pad 6 k).
  by apply lowercase_numbered.
Qed.

(** * The scan as a fold over the ordinals *)

Definition ordinal_of (name : string) : option Z :=
  match segmented_jsonl_member base stem name with
  | Ok (Some (MemberCanonical k _)) => Some k
  | _ => None
  end.

(** Entries the scan goes past without an error of its own. *)
Definition fine_entry (entry : option string) : Prop :=
  match entry with
  | None => True
  | Some name => exists member, segmented_jsonl_member base stem name = Ok member /\
                   forall file, member <> Some (MemberAlias file)
  end.

Definition ordinals (l : list (option string)) : list Z := omap (fun entry => entry ≫= ordinal_of) l.

Fixpoint fold_ordinals {S} (visit : Z -> S -> result RuntimeError S) (ks : list Z) (s : S)
    : result RuntimeError S :=
  match ks with
  | [] => Ok s
  | k :: ks => s ← visit k s; fold_ordinals visit ks s
  end.

Lemma visit_entries_fold {S} (visit : SegmentedJsonlMember -> S -> result RuntimeError S) l s s' :
  (forall file s, is_ok (visit (MemberAlias file) s) = false) ->
  visit_entries base stem visit (Ok <$> l) s = Ok s' <->
  Forall fine_entry l /\ fold_ordinals (fun k => visit (MemberCanonical k (segment k))) (ordinals l) s = Ok s'.
Proof.
  intros Halias. revert s. induction l as [|entry l IH]; intros s.
  { cbn. split; [intros [= <-]; by split|naive_solver]. }
  rewrite Forall_cons. unfold ordinals. cbn [fmap list_fmap visit_entries omap list_omap mbind result_bind].
  fold (ordinals l). destruct entry as [name|]; cbn [mbind option_bind fine_entry]; [|rewrite IH; naive_solver].
  unfold ordinal_of. destruct (segmented_jsonl_member base stem name) as [[[k file|file]|]| |] eqn:E.
  - apply member_canonical in E as (Hk & -> & ->). cbn [mbind result_bind fold_ordinals].
    destruct (visit _ s) as [s1| |]; cbn [mbind result_bind]; [rewrite IH|..]; naive_solver.
  - cbn [mbind result_bind]. specialize (Halias file s). destruct (visit _ s); [discriminate|..];
      (split; [discriminate|]); intros [[(m & [= <-] & Hm) _] _]; by destruct (Hm file).
  - cbn [mbind result_bind]. rewrite IH. naive_solver.
  - cbn [mbind result_bind]. split; [discriminate|]. intros [[(m & [=] & Hm) _] _].
  - cbn [mbind result_bind]. split; [discriminate|]. intros [[(m & [=] & Hm) _] _].
Qed.

Lemma elem_of_ordinals l k :
  k ∈ ordinals l <-> 0 <= k <= MAX_SEGMENT_ORDINAL /\ Some (numbered_leaf stem k) ∈ l.
Proof.
  unfold ordinals. rewrite list_elem_of_omap. split.
  - intros (entry & Hin & (name & -> & Ho)%bind_Some). unfold ordinal_of in Ho. repeat case_match; try done.
    injection Ho as ->. by match goal with H : _ = Ok _ |- _ => apply member_canonical in H as (? & -> & _) end.
  - intros [Hk Hin]. exists (Some (numbered_leaf stem k)). split; [done|]. cbn. unfold ordinal_of.
    by rewrite member_numbered.
Qed.

Lemma NoDup_ordinals l : NoDup (omap id l) -> NoDup (ordinals l).
Proof.
  induction l as [|entry l IH]; [constructor|]. unfold ordinals. cbn [omap list_omap]. fold (ordinals l).
  destruct entry as [name|]; cbn [id mbind option_bind]; [|done]. intros [Hn Hl]%NoDup_cons.
  destruct (ordinal_of name) as [k|] eqn:E; [|by apply IH]. constructor; [|by apply IH].
  intros [_ Hin]%elem_of_ordinals. apply Hn. apply list_elem_of_omap. exists (Some name). split; [|done].
  unfold ordinal_of in E. repeat case_match; try done. injection E as ->.
  by match goal with H : _ = Ok _ |- _ => apply member_canonical in H as (_ & -> & _) end.
Qed.

(** The members of the stream in the directory are the segments 2 .. n. *)
Definition segments_upto (l : list (option string)) (n : Z) : Prop :=
  forall name, Some name ∈ l /\ belongs stem name <-> exists k, 2 <= k <= n /\ name = numbered_leaf stem k.

(** Ordinals without a gap come from the segments 2 .. n, however often an entry is listed. *)
Lemma ordinals_upto l n :
  Forall fine_entry l -> ordinals l ≡ₚ seqZ 2 (n - 1) -> segments_upto l n.
Proof.
  intros Hf Hp name. split.
  - intros [Hin Hb]. rewrite Forall_forall in Hf. destruct (Hf _ Hin) as (m & Hm & Ha).
    destruct m as [[k file|file]|]; [|by destruct (Ha file)|destruct (member_belongs name) as [[_ ?]|[? _]]; congruence].
    apply member_canonical in Hm as (Hk & -> & _). exists k. split; [|done].
    assert (k ∈ ordinals l) as Hk' by (by apply elem_of_ordinals). rewrite Hp in Hk'.
    apply elem_of_seqZ in Hk'. lia.
  - intros (k & Hk & ->). assert (k ∈ ordinals l) as Hk' by (rewrite Hp; apply elem_of_seqZ; lia).
    apply elem_of_ordinals in Hk' as [Hr Hin]. split; [done|by apply numbered_belongs].
Qed.

Lemma segments_upto_ordinals l n :
  NoDup (omap id l) -> n <= MAX_SEGMENT_ORDINAL ->
  segments_upto l n <-> Forall fine_entry l /\ ordinals l ≡ₚ seqZ 2 (n - 1).
Proof.
  intros Hnd Hn. split.
  - intros H. split.
    + apply Forall_forall. intros [name|] Hin; [|done]. cbn.
      destruct (segmented_jsonl_member base stem name) as [[m|]| |] eqn:E; [|by exists None|..];
        (assert (belongs stem name) as Hb by (destruct (member_belongs name) as [[? _]|[_ ?]]; [congruence|done])).
      all: destruct (proj1 (H name)) as (k & Hk & ->); [done|]; rewrite member_numbered in E by lia.
      all: try discriminate. injection E as <-. by eexists.
    + apply NoDup_Permutation; [by apply NoDup_ordinals|apply NoDup_seqZ|]. intros k.
      rewrite elem_of_ordinals, elem_of_seqZ. split.
      * intros [Hk Hin]. destruct (proj1 (H _) (conj Hin (numbered_belongs k Hk))) as (j & Hj & E).
        apply numbered_leaf_inj in E; lia.
      * intros Hk. split; [lia|]. apply (H (numbered_leaf stem k)). exists k. split; [lia|done].
  - intros [Hf Hp]. by apply ordinals_upto.
Qed.
End members.

(** * Contiguous ordinals *)

Lemma foldl_max_le b ks m : foldl Z.max b ks <= m <-> b <= m /\ Forall (fun k => k <= m) ks.
Proof.
  revert b. induction ks as [|k ks IH]; intros b; cbn [foldl].
  - split; [intros H; by split|by intros [? _]].
  - rewrite IH, Forall_cons. naive_solver lia.
Qed.

Lemma sorted_seqZ m n : StronglySorted Z.lt (seqZ m n).
Proof.
  destruct (decide (n <= 0)); [rewrite seqZ_nil by done; constructor|].
  replace n with (Z.of_nat (Z.to_nat n)) by lia. generalize (Z.to_nat n). clear. intros n. revert m.
  induction n as [|n IH]; intros m; [constructor|]. rewrite seqZ_cons by lia.
  replace (Z.pred (Z.of_nat (S n))) with (Z.of_nat n) by lia. constructor; [apply IH|].
  apply Forall_forall. intros k Hk%elem_of_seqZ. lia.
Qed.

Lemma len_seqZ m n : 0 <= n -> len (seqZ m n) = n.
Proof. intros H. unfold len. rewrite length_seqZ. lia. Qed.

Lemma perm_len {A} (l k : list A) : l ≡ₚ k -> len l = len k.
Proof. intros H. unfold len. by rewrite H. Qed.

(** As many distinct ordinals from 2 on as the largest one allows leave no gap. *)
Lemma contiguous_iff_max ks :
  NoDup ks -> Forall (fun k => 2 <= k) ks ->
  foldl Z.max 1 ks = 1 + len ks <-> ks ≡ₚ seqZ 2 (len ks).
Proof.
  intros Hnd H2. split.
  - intros E. apply submseteq_length_Permutation.
    2: { rewrite length_seqZ. unfold len. lia. }
    apply NoDup_submseteq; [done|]. intros k Hk. apply elem_of_seqZ.
    assert (Forall (fun k => k <= 1 + len ks) ks) as Hm by (apply (foldl_max_le 1 ks); lia).
    rewrite Forall_forall in H2, Hm. specialize (H2 k Hk). specialize (Hm k Hk). lia.
  - remember (len ks) as n eqn:Hlen. intros Hp. assert (Forall (fun k => k <= 1 + n) ks) as Hm.
    { apply Forall_forall. intros k Hk. rewrite Hp in Hk. apply elem_of_seqZ in Hk. lia. }
    assert (foldl Z.max 1 ks <= 1 + n) as Hle by (apply foldl_max_le; split; [unfold len in Hlen; lia|done]).
    destruct ks as [|k0 ks0] eqn:E; [by subst|]. rewrite <- E in *.
    assert (1 + n ∈ ks) as Hin by (rewrite Hp; apply elem_of_seqZ; subst; unfold len; cbn; lia).
    assert (Forall (fun k => k <= foldl Z.max 1 ks) ks) as Hge by (by apply (foldl_max_le 1 ks)).
    rewrite Forall_forall in Hge. specialize (Hge _ Hin). lia.
Qed.

Lemma contiguous_files_Ok {D : Directory} base e l acc files :
  contiguous_files base e l acc = Ok files <->
  l.*1 = seqZ e (len l) /\ Forall (fun f => ensure_anchored_real_file f = Ok tt) l.*2 /\ files = acc ++ l.*2.
Proof.
  revert e acc. induction l as [|[k f] l IH]; intros e acc; cbn [contiguous_files fmap list_fmap].
  { rewrite app_nil_r. split; [intros [= <-]; by split_and!|by intros (_ & _ & ->)]. }
  assert (seqZ e (len ((k, f) :: l)) = e :: seqZ (e + 1) (len l)) as ->.
  { rewrite seqZ_cons by (unfold len; cbn; lia). do 2 f_equal; unfold len; cbn; lia. }
  rewrite Forall_cons. destruct (Z.eqb_spec k e) as [->|Hne]; cbn [negb fst snd].
  - destruct (ensure_anchored_real_file f) as [[]| |]; cbn [mbind result_bind]; [|naive_solver..].
    rewrite IH, <- app_assoc. cbn [app]. split.
    + intros (-> & ? & ->). by split_and!.
    + intros ([= ->] & [_ ?] & ->). by split_and!.
  - split; [discriminate|]. intros (E & _). by injection E.
Qed.

Section scans.
Context {D : Directory} (base : AnchoredFile) (stem : string) (limits : SessionStreamLimits).
Context (l : list (option string)).
Context (Hstem : segmented_jsonl_stem base = Ok stem).
Context (Hentries : entries = Ok (Ok <$> l)).

Abbreviation seg := (segment base stem).
Abbreviation found_ordinals := (ordinals base stem l).

Definition within (k : Z) : Prop := 2 <= k <= max_segments limits.

Definition file_visit (k : Z) (s : Found) : Found :=
  if k <? 2 then mkFound (siblings s) (lowest (invalid_ordinal s) k) (exceeds_limit s)
  else if max_segments limits <? k then mkFound (siblings s) (invalid_ordinal s) true
  else mkFound (siblings s ++ [(k, seg k)]) (invalid_ordinal s) (exceeds_limit s).

Lemma fold_file_visit ks s :
  fold_ordinals (fun k => visit_file base limits (MemberCanonical k (seg k))) ks s =
    Ok (foldl (fun s k => file_visit k s) s ks).
Proof. revert s. induction ks as [|k ks IH]; intros s; [done|]. cbn -[file_visit]. by rewrite IH. Qed.

Lemma fold_file_within ks s :
  let s' := foldl (fun s k => file_visit k s) s ks in
  (invalid_ordinal s' = None /\ exceeds_limit s' = false <->
   invalid_ordinal s = None /\ exceeds_limit s = false /\ Forall within ks) /\
  (Forall within ks -> siblings s' = siblings s ++ ((fun k => (k, seg k)) <$> ks)).
Proof.
  revert s. induction ks as [|k ks IH]; intros s; cbn [foldl fmap list_fmap].
  { rewrite app_nil_r. naive_solver. }
  destruct (IH (file_visit k s)) as [IH1 IH2]. cbn zeta. rewrite Forall_cons, IH1.
  unfold within, file_visit in *.
  destruct (Z.ltb_spec k 2); [|destruct (Z.ltb_spec (max_segments limits) k)]; cbn in *.
  - split; [unfold lowest; naive_solver lia|]. intros [? _]. lia.
  - split; [naive_solver lia|]. intros [? _]. lia.
  - split; [naive_solver lia|]. intros [_ Hk]. rewrite (IH2 Hk), <- app_assoc. done.
Qed.

Definition keyed (k : Z) : Z * AnchoredFile := (k, seg k).

Lemma keyed_fst js : (keyed <$> js).*1 = js.
Proof. rewrite <- list_fmap_compose. by rewrite list_fmap_id. Qed.

Lemma sort_contiguous ks :
  ks ≡ₚ seqZ 2 (len ks) -> sort_by ordinal_leb (keyed <$> ks) = keyed <$> seqZ 2 (len ks).
Proof.
  intros Hp. apply (sorted_perm_unique ordinal_leb).
  - intros a b Ha Hb. rewrite sort_by_perm in Ha, Hb. apply list_elem_of_fmap in Ha as (i & -> & _).
    apply list_elem_of_fmap in Hb as (j & -> & _). unfold ordinal_leb. cbn. intros. by replace i with j by lia.
  - apply sort_by_sorted; unfold ordinal_leb; lia.
  - apply (StronglySorted_fmap _ Z.lt); [|apply sorted_seqZ].
    intros i j Hij. unfold before_eq, ordinal_leb. cbn. lia.
  - by rewrite sort_by_perm, <- Hp.
Qed.

Lemma sort_contiguous_inv ks n : (sort_by ordinal_leb (keyed <$> ks)).*1 = seqZ 2 n -> ks ≡ₚ seqZ 2 n.
Proof. intros <-. by rewrite sort_by_perm, keyed_fst. Qed.

Lemma len_sort ks : len (sort_by ordinal_leb (keyed <$> ks)) = len ks.
Proof. rewrite (perm_len _ _ (sort_by_perm _ _)). unfold len. by rewrite length_fmap. Qed.

Lemma fold_count_within inspect ks s s' :
  fold_ordinals (fun k => visit_count base limits inspect (MemberCanonical k (seg k))) ks s = Ok s' ->
  count_invalid_ordinal s' = None -> count_exceeds_limit s' = false ->
  count_invalid_ordinal s = None /\ count_exceeds_limit s = false /\ Forall within ks.
Proof.
  revert s. induction ks as [|k ks IH]; intros s.
  { intros [= ->] ? ?. by split_and!. }
  cbn [fold_ordinals visit_count canonical_segmented_jsonl_sibling mbind result_bind]. rewrite Forall_cons.
  unfold within in *.
  destruct (Z.ltb_spec k 2) as [Hk1|Hk1]; [|destruct (Z.ltb_spec (max_segments limits) k) as [Hk2|Hk2]]; cbn [mbind result_bind].
  - intros H H1 H2. destruct (IH _ H H1 H2) as (E & _). discriminate E.
  - intros H H1 H2. destruct (IH _ H H1 H2) as (_ & E & _). discriminate E.
  - destruct (inspect (seg k)); cbn [mbind result_bind]; [|discriminate..].
    intros H H1 H2. destruct (IH _ H H1 H2) as (E1 & E2 & E3). by split_and!.
Qed.

Lemma fold_count_Ok inspect ks s s' :
  Forall within ks -> 0 <= segment_count s -> segment_count s + len ks <= u64_max ->
  fold_ordinals (fun k => visit_count base limits inspect (MemberCanonical k (seg k))) ks s = Ok s' <->
  Forall (fun k => inspect (seg k) = Ok tt) ks /\
  s' = mkCounted (segment_count s + len ks) (foldl Z.max (max_ordinal s) ks) (count_invalid_ordinal s)
         (count_exceeds_limit s).
Proof.
  intros Hks. revert s. induction Hks as [|k ks Hk Hks IH]; intros s H0 Hs.
  { cbn. rewrite Z.add_0_r. destruct s; cbn. naive_solver. }
  assert (len (k :: ks) = 1 + len ks) as Hl by (unfold len; cbn; lia). unfold within in Hk.
  cbn [fold_ordinals visit_count canonical_segmented_jsonl_sibling mbind result_bind foldl].
  replace (k <? 2) with false by lia. replace (max_segments limits <? k) with false by lia.
  rewrite Forall_cons. destruct (inspect (seg k)) as [[]| |]; cbn [mbind result_bind]; [|naive_solver..].
  assert (0 <= len ks) by (unfold len; lia).
  rewrite sat_u64_id by (unfold in_u64; lia). rewrite IH by (cbn; lia). cbn.
  replace (segment_count s + len (k :: ks)) with (segment_count s + 1 + len ks) by lia. naive_solver.
Qed.

Lemma count_fold_Ok inspect n :
  1 + len found_ordinals <= u64_max ->
  segmented_jsonl_inventory base limits inspect = Ok n <->
  Forall (fine_entry base stem) l /\ Forall within found_ordinals /\
  Forall (fun k => inspect (seg k) = Ok tt) found_ordinals /\
  foldl Z.max 1 found_ordinals = 1 + len found_ordinals /\ n = 1 + len found_ordinals.
Proof.
  intros Hlen. unfold segmented_jsonl_inventory, for_each_segmented_jsonl_member. rewrite Hstem, Hentries.
  cbn [mbind result_bind].
  assert (forall file s, is_ok (visit_count base limits inspect (MemberAlias file) s) = false) as Ha by done.
  split.
  - intros (s' & E & Hs)%bind_Ok_inv. apply visit_entries_fold in E as [Hf E]; [|done].
    destruct (count_invalid_ordinal s') eqn:E1; [discriminate|]. destruct (count_exceeds_limit s') eqn:E2; [discriminate|].
    destruct (fold_count_within _ _ _ _ E E1 E2) as (_ & _ & Hw).
    apply fold_count_Ok in E as [Hi ->]; [|done|cbn; lia..]. cbn in Hs.
    destruct (Z.eqb_spec (1 + len found_ordinals) (foldl Z.max 1 found_ordinals)); [|discriminate].
    injection Hs as <-. by split_and!.
  - intros (Hf & Hw & Hi & Hm & ->). eassert (visit_entries _ _ _ _ _ = Ok _) as ->.
    { apply visit_entries_fold; [done|]. split; [done|]. apply fold_count_Ok; [done|cbn; lia..|by split]. }
    cbn. by replace (_ =? _) with true by lia.
Qed.

Lemma len_ordinals_le : len found_ordinals <= len l.
Proof. unfold len, ordinals. clear. induction l as [|e k IH]; cbn; [done|]. destruct (e ≫= _); cbn; lia. Qed.

Lemma scan_upto :
  Forall (fine_entry base stem) l -> Forall within found_ordinals -> found_ordinals ≡ₚ seqZ 2 (len found_ordinals) ->
  1 <= 1 + len found_ordinals <= Z.max 1 (max_segments limits) /\ segments_upto stem l (1 + len found_ordinals).
Proof.
  intros Hf Hw Hp. assert (0 <= len found_ordinals) by (unfold len; lia). split.
  - split; [lia|]. destruct (decide (len found_ordinals = 0)); [lia|].
    assert (1 + len found_ordinals ∈ seqZ 2 (len found_ordinals)) as Hin by (apply elem_of_seqZ; lia).
    pose proof Hw as Hw'. rewrite Hp in Hw'. rewrite Forall_forall in Hw'.
    specialize (Hw' _ Hin). unfold within in Hw'. lia.
  - apply (ordinals_upto base); [done|]. by replace (1 + len found_ordinals - 1) with (len found_ordinals) by lia.
Qed.

(** A list of the files is right even if the directory lists a name twice. *)
Lemma files_of_listing files :
  segmented_jsonl_files base limits = Ok files ->
  exists n, 1 <= n <= Z.max 1 (max_segments limits) /\ segments_upto stem l n /\
    files = base :: (seg <$> seqZ 2 (n - 1)) /\ Forall (fun f => ensure_anchored_real_file f = Ok tt) files.
Proof.
  unfold segmented_jsonl_files, for_each_segmented_jsonl_member. rewrite Hstem, Hentries. cbn [mbind result_bind].
  intros ([] & Eb & (found & (Hf & E)%visit_entries_fold & E')%bind_Ok_inv)%bind_Ok_inv; [|done].
  rewrite fold_file_visit in E. set (ks := found_ordinals) in *. injection E as <-.
  set (end_state := foldl (fun s k => file_visit k s) (mkFound [] None false) ks) in *.
  destruct (fold_file_within ks (mkFound [] None false)) as [H1 H2]. fold end_state in H1, H2. cbn in H1, H2.
  destruct (invalid_ordinal end_state) eqn:E1; [discriminate|].
  destruct (exceeds_limit end_state) eqn:E2; [discriminate|].
  destruct (proj1 H1) as (_ & _ & Hw); [done|]. rewrite H2 in E' by done.
  assert (keyed <$> ks = (fun k => (k, seg k)) <$> ks) as Hkey by done. rewrite <- Hkey in E'.
  apply contiguous_files_Ok in E' as (E3 & E4 & ->). rewrite len_sort in E3.
  apply sort_contiguous_inv in E3 as Hp. rewrite (sort_contiguous _ Hp) in E4 |- *.
  rewrite <- list_fmap_compose in E4 |- *. destruct (scan_upto Hf Hw Hp) as [Hn Hu]. fold ks in Hn, Hu.
  exists (1 + len ks). replace (1 + len ks - 1) with (len ks) by lia. split_and!; [lia..|done|done|by constructor].
Qed.

Context (Hnodup : NoDup (omap id l)).
Context (Hmax : max_segments limits <= MAX_SEGMENT_ORDINAL).

(** Ordinals that pass the scan, as a statement on names. *)
Lemma scan_segments n :
  (Forall (fine_entry base stem) l /\ Forall within found_ordinals /\
   found_ordinals ≡ₚ seqZ 2 (len found_ordinals) /\ n = 1 + len found_ordinals) <->
  (1 <= n <= Z.max 1 (max_segments limits) /\ segments_upto stem l n).
Proof.
  assert (1 <= MAX_SEGMENT_ORDINAL) by (unfold MAX_SEGMENT_ORDINAL; lia). split.
  - intros (Hf & Hw & Hp & ->). by apply scan_upto.
  - intros [Hn Hs]. apply (segments_upto_ordinals base) in Hs as [Hf Hp]; [|done|lia].
    pose proof (perm_len _ _ Hp) as Hl. rewrite len_seqZ in Hl by lia. rewrite Hl.
    split_and!; [done| |done|lia]. rewrite Hp. apply Forall_forall. intros k Hk%elem_of_seqZ. unfold within. lia.
Qed.

(** The count succeeds exactly when the members are the segments 2 .. n. *)
Lemma inventory_Ok inspect n :
  len l < u64_max ->
  segmented_jsonl_inventory base limits inspect = Ok n <->
  1 <= n <= Z.max 1 (max_segments limits) /\ segments_upto stem l n /\
  Forall (fun k => inspect (seg k) = Ok tt) (seqZ 2 (n - 1)).
Proof.
  intros Hlen. pose proof len_ordinals_le. rewrite count_fold_Ok by lia.
  assert (NoDup found_ordinals) as Hnd by (by apply NoDup_ordinals). pose proof (scan_segments n) as Hs.
  assert (forall ks, Forall within ks -> Forall (fun k => 2 <= k) ks) as Hw2.
  { intros ks H'. eapply Forall_impl; [exact H'|]. unfold within. lia. }
  split.
  - intros (Hf & Hw & Hi & Hm & Hn). apply contiguous_iff_max in Hm; [|done|by apply Hw2].
    destruct (proj1 Hs) as [Hr Hu]; [by split_and!|]. split_and!; [lia..|done|].
    subst n. replace (1 + len found_ordinals - 1) with (len found_ordinals) by lia. by rewrite <- Hm.
  - intros (Hr & Hu & Hi). destruct (proj2 Hs) as (Hf & Hw & Hp & Hn); [by split|].
    split_and!; [done..| |by apply contiguous_iff_max; [|apply Hw2|]|done].
    rewrite Hp. by replace (len found_ordinals) with (n - 1) by lia.
Qed.

Lemma files_Ok files :
  segmented_jsonl_files base limits = Ok files <->
  exists n, 1 <= n <= Z.max 1 (max_segments limits) /\ segments_upto stem l n /\
    files = base :: (seg <$> seqZ 2 (n - 1)) /\ Forall (fun f => ensure_anchored_real_file f = Ok tt) files.
Proof.
  split; [apply files_of_listing|]. intros (n & Hn & Hu & -> & Hr).
  unfold segmented_jsonl_files, for_each_segmented_jsonl_member. rewrite Hstem, Hentries. cbn [mbind result_bind].
  assert (forall file s, is_ok (visit_file base limits (MemberAlias file) s) = false) as Ha by done.
  set (ks := found_ordinals). set (end_state := foldl (fun s k => file_visit k s) (mkFound [] None false) ks).
  assert (forall s', visit_entries base stem (visit_file base limits) (Ok <$> l) (mkFound [] None false) = Ok s' <->
    Forall (fine_entry base stem) l /\ s' = end_state) as Hv.
  { intros s'. rewrite visit_entries_fold by done. rewrite fold_file_visit. fold ks end_state. naive_solver. }
  destruct (fold_file_within ks (mkFound [] None false)) as [H1 H2]. fold end_state in H1, H2. cbn in H1, H2.
  assert (keyed <$> ks = (fun k => (k, seg k)) <$> ks) as Hkey by done.
  apply Forall_cons in Hr as [Eb Hr].
  destruct (proj2 (scan_segments n)) as (Hf & Hw & Hp & Hl); [by split|]. fold ks in Hw, Hp, Hl.
  rewrite Eb. cbn [mbind result_bind]. rewrite (proj2 (Hv end_state)) by done. cbn [mbind result_bind].
  destruct (proj2 H1) as [-> ->]; [done|]. rewrite H2, <- Hkey, (sort_contiguous _ Hp) by done.
  replace (n - 1) with (len ks) in * by lia. apply contiguous_files_Ok.
  rewrite keyed_fst, <- list_fmap_compose. split_and!; [|done..]. unfold len at 2. rewrite length_fmap.
  fold (len (seqZ 2 (len ks))). rewrite len_seqZ by (unfold len; lia). done.
Qed.


Lemma verify_inventory_Ok n :
  len l < u64_max ->
  verify_segmented_jsonl_inventory base limits n = Ok tt <->
  1 <= n <= Z.max 1 (max_segments limits) /\ segments_upto stem l n.
Proof.
  intros Hlen. unfold verify_segmented_jsonl_inventory. pose proof (inventory_Ok (fun _ => Ok tt)) as Hi.
  assert (forall ks, Forall (fun k : Z => Ok (E:=RuntimeError) tt = Ok tt) ks) as Ht by (intros; by apply Forall_true).
  split.
  - intros (c & [Hr [Hu _]]%Hi & E)%bind_Ok_inv; [|done].
    destruct (Z.eqb_spec c n) as [->|]; [by split|discriminate].
  - intros [Hr Hu]. rewrite (proj2 (Hi n Hlen)) by done. cbn. by rewrite Z.eqb_refl.
Qed.

(** The two scans of a directory accept the same streams.  The list of the files is the base and
    the segments 2 .. n, in order, exactly when those are all the members of the stream in the
    directory, whatever the order of its entries; the count, which compares the number of
    members with the largest ordinal and keeps no list, is the number of these files. *)
Theorem segment_scans_exact :
  len l < u64_max ->
  (forall files, segmented_jsonl_files base limits = Ok files <->
     exists n, 1 <= n <= Z.max 1 (max_segments limits) /\ segments_upto stem l n /\
       files = base :: (segment base stem <$> seqZ 2 (n - 1)) /\
       Forall (fun f => ensure_anchored_real_file f = Ok tt) files) /\
  (forall n, segmented_jsonl_segment_count base limits = Ok n <->
     exists files, segmented_jsonl_files base limits = Ok files /\ len files = n).
Proof.
  intros Hlen. split; [apply files_Ok|]. intros n. unfold segmented_jsonl_segment_count. split.
  - intros ([] & Eb & (Hr & Hu & Hi)%inventory_Ok)%bind_Ok_inv; [|done].
    exists (base :: (seg <$> seqZ 2 (n - 1))). split.
    + apply files_Ok. exists n. split_and!; [lia..|done|done|]. constructor; [done|]. by apply Forall_fmap.
    + unfold len. cbn. rewrite length_fmap, length_seqZ. lia.
  - intros (files & (m & Hr & Hu & -> & [Eb Hi]%Forall_cons)%files_Ok & <-). rewrite Eb. cbn [mbind result_bind].
    assert (len (base :: (seg <$> seqZ 2 (m - 1))) = m) as ->.
    { unfold len. cbn. rewrite length_fmap, length_seqZ. lia. }
    apply inventory_Ok; [done|]. split_and!; [lia..|done|]. by apply Forall_fmap in Hi.
Qed.
End scans.

(** The entries of a scan that succeeds hold no error. *)
Lemma visit_entries_fine {S} base stem (visit : SegmentedJsonlMember -> S -> result RuntimeError S) l s s' :
  visit_entries base stem visit l s = Ok s' -> exists names, l = Ok <$> names.
Proof.
  revert s. induction l as [|entry l IH]; intros s; [by exists []|]. cbn [visit_entries].
  intros (name & -> & E)%bind_Ok_inv. destruct name as [name|].
  - apply bind_Ok_inv in E as (m & _ & (s1 & _ & E)%bind_Ok_inv). destruct (IH _ E) as [names ->]. by exists (Some name :: names).
  - destruct (IH _ E) as [names ->]. by exists (None :: names).
Qed.

Lemma files_stem {D : Directory} base limits files :
  segmented_jsonl_files base limits = Ok files -> exists stem, segmented_jsonl_stem base = Ok stem.
Proof.
  unfold segmented_jsonl_files, for_each_segmented_jsonl_member.
  intros (_ & _ & (found & (stem & E & _)%bind_Ok_inv & _)%bind_Ok_inv)%bind_Ok_inv. by exists stem.
Qed.

(** A list of the files is right, whatever the directory answers. *)
Lemma files_sound {D : Directory} base stem limits files :
  segmented_jsonl_stem base = Ok stem -> segmented_jsonl_files base limits = Ok files ->
  exists l n, entries = Ok (Ok <$> l) /\ 1 <= n <= Z.max 1 (max_segments limits) /\ segments_upto stem l n /\
    files = base :: (segment base stem <$> seqZ 2 (n - 1)) /\
    Forall (fun f => ensure_anchored_real_file f = Ok tt) files.
Proof.
  intros Hstem E. pose proof E as E'. unfold segmented_jsonl_files, for_each_segmented_jsonl_member in E.
  apply bind_Ok_inv in E as (_ & _ & (found & E & _)%bind_Ok_inv). rewrite Hstem in E. cbn [mbind result_bind] in E.
  apply bind_Ok_inv in E as (es & He & Ev). apply visit_entries_fine in Ev as [l ->].
  exists l. destruct (files_of_listing base stem limits l Hstem He files E') as (n & Hn). by exists n.
Qed.
