(* ===== verification/Appender.v ===== *)
(** The appender of a segmented stream ([flow-agent-core/src/runtime/segmented_appender.rs]): it
    opens the segments it finds, checks before every change that they are as it left them,
    starts a new segment when a record does not fit, and reports how many records of a batch are
    stored when a write fails.

    The files of the stream are the state of the disk.  Every call to the operating system is a
    numbered request, and the answers are a parameter: theorems hold whatever fails, at which
    request, and however much of a failed write was written.  A failed [sync_all] or [set_len]
    leaves the contents as they were, a file opened for appending is written at its end, and
    other processes do not change the bytes of the stream, which the session lock protects;
    renamed and replaced files are failures of the guards. *)

From Stdlib Require Import ZArith Lia Ascii String.
From stdpp Require Import base strings sorting sets option gmap countable list.
From S2P Require Import Prelude Decimal Sorting Metadata Json FlowValue Event Lifecycle Errors.
From S2P Require Import Validate OwnScript Context Builder Planner Segments.

Open Scope Z_scope.

(** * The disk *)

(** What a file holds, and how many of its first bytes the last [sync_all] made durable. *)
Record SegmentFile : Type := mkSegmentFile {
  contents : string;
  durable_bytes : Z;
}.

(** The segments in the order of their ordinals, how many of their names the last
    synchronization of the directory made durable, and the number of requests so far. *)
Record Disk : Type := mkDisk {
  files : list SegmentFile;
  named : Z;
  requests : nat;
}.

(** The answer to request [n]. *)
Class Storage : Type := {
  (** an error of a check of [fs_guards], or of opening or creating a file *)
  guard_fault : nat -> option RuntimeError;
  (** an error of a call on an open file *)
  io_fault : nat -> option ErrorKind;
  (** how much of its argument a failed [write_all] wrote *)
  written : nat -> nat;
  (** the entries of the directory next to the segments of the stream *)
  other_entries : nat -> list (option string + RuntimeError);
  (** [SegmentInventoryWatch::changed] *)
  watch_changed : nat -> bool + RuntimeError;
  (** the text of an [io::Error] *)
  io_text : ErrorKind -> string;
}.

(** An answer as a [Result]. *)
Definition answered {A} (r : A + RuntimeError) : result RuntimeError A :=
  match r with inl a => Ok a | inr e => Err e end.

Section appender.
Context {K : Storage}.

Definition next (d : Disk) : Disk := mkDisk (files d) (named d) (S (requests d)).

Definition update_file (f : nat) (change : SegmentFile -> SegmentFile) (d : Disk) : Disk :=
  mkDisk (alter change f (files d)) (named d) (requests d).

Definition contents_of (d : Disk) (f : nat) : string := default ""%string (contents <$> files d !! f).

(** A check that changes nothing. *)
Definition guard : eff Disk unit :=
  fun d => (next d, match guard_fault (requests d) with Some e => Err e | None => Ok tt end).

(** A call on an open file that, when it succeeds, changes the disk. *)
Definition file_call (change : Disk -> Disk) : eff Disk (unit + ErrorKind) :=
  fun d =>
    match io_fault (requests d) with
    | Some kind => (next d, Ok (inr kind))
    | None => (change (next d), Ok (inl tt))
    end.

(** [map_err(|source| RuntimeError::Io { path, source })?] *)
Definition or_io {A} (m : eff Disk (A + ErrorKind)) : eff Disk A :=
  r ← m; lift (match (r : A + ErrorKind) with inl a => Ok a | inr kind => Err (Io kind) end).

(** [file.metadata()], for its length. *)
Definition file_len (f : nat) : eff Disk (Z + ErrorKind) :=
  fun d => (next d, Ok (match io_fault (requests d) with
                        | Some kind => inr kind
                        | None => inl (slen (contents_of d f))
                        end)).

Definition seek_end : eff Disk (unit + ErrorKind) := file_call id.

Definition sync_all (f : nat) : eff Disk (unit + ErrorKind) :=
  file_call (update_file f (fun s => mkSegmentFile (contents s) (slen (contents s)))).

Fixpoint nul_bytes (n : nat) : string :=
  match n with O => "" | S n => String (ascii_of_N 0) (nul_bytes n) end.

(** [File::set_len] cuts the file off, or fills it with zero bytes. *)
Definition with_len (n : Z) (s : SegmentFile) : SegmentFile :=
  let n := Z.to_nat n in
  mkSegmentFile (str_take n (contents s) +:+ nul_bytes (n - String.length (contents s)))
    (Z.min (durable_bytes s) (Z.of_nat n)).

Definition set_len (f : nat) (n : Z) : eff Disk (unit + ErrorKind) := file_call (update_file f (with_len n)).

Definition extend (bytes : string) (s : SegmentFile) : SegmentFile :=
  mkSegmentFile (contents s +:+ bytes) (durable_bytes s).

(** [file.write_all(bytes)] *)
Definition write_all (f : nat) (bytes : string) : eff Disk (unit + ErrorKind) :=
  fun d =>
    match io_fault (requests d) with
    | Some kind => (next (update_file f (extend (str_take (written (requests d)) bytes)) d), Ok (inr kind))
    | None => (next (update_file f (extend bytes) d), Ok (inl tt))
    end.

(** [sync_session_stream_parent] *)
Definition sync_session_stream_parent : eff Disk unit :=
  fun d =>
    match guard_fault (requests d) with
    | Some e => (next d, Err e)
    | None => (mkDisk (files d) (len (files d)) (S (requests d)), Ok tt)
    end.

(** * The appender *)

Record SealedSessionStreamSegment : Type := mkSealed {
  sealed_bytes : Z;
  sealed_file : nat;
  sealed_path : AnchoredFile;
}.

(** An open file is its place in [files]. *)
Record SessionLogAppender : Type := mkAppender {
  base_path : AnchoredFile;
  current_bytes : Z;
  current_ordinal : Z;
  file : nat;
  watch_active : bool;
  limits : SessionStreamLimits;
  sealed_segments : list SealedSessionStreamSegment;
  total_bytes : Z;
}.

(** [committed_events] is [None] when the file may end inside a record. *)
Record BatchAppendFailure : Type := mkFailureOf {
  committed_events : option nat;
  failure_error : RuntimeError;
}.

Definition none_committed (error : RuntimeError) : BatchAppendFailure := mkFailureOf (Some O) error.

(** ** Opening *)

(** The names of the segments on the disk, and the other entries of the directory. *)
Definition own_names (base : AnchoredFile) (d : Disk) : list string :=
  match segmented_jsonl_stem base with
  | Ok stem => omap (fun k => segmented_jsonl_leaf stem k) (seqZ 1 (len (files d)))
  | _ => []
  end.

Definition directory_at (base : AnchoredFile) (d : Disk) : Directory := {|
  entries := match guard_fault (requests d) with
             | Some e => Err e
             | None => Ok ((Ok ∘ Some <$> own_names base d) ++ (answered <$> other_entries (requests d)))
             end;
  ensure_anchored_real_file f :=
    if bool_decide (leaf f ∈ own_names base d) then Ok tt else Err (Io NotFound);
|}.

Definition scan_files (base : AnchoredFile) (lim : SessionStreamLimits) : eff Disk (list AnchoredFile) :=
  fun d => (next d, segmented_jsonl_files (D := directory_at base d) base lim).

Record SessionStreamInventory : Type := mkInventory {
  inv_current_bytes : Z;
  inv_current_ordinal : Z;
  inv_current_path : AnchoredFile;
  inv_current_file : nat;
  inv_sealed_segments : list SealedSessionStreamSegment;
  inv_total_bytes : Z;
}.

(** [read_exact] of the byte before the end. *)
Fixpoint last_byte (s : string) : option ascii :=
  match s with
  | EmptyString => None
  | String a EmptyString => Some a
  | String _ s => last_byte s
  end.

(** The loop over the files: [index] of them were opened. *)
Fixpoint open_segments (segment_count : nat) (index : nat) (segments : list AnchoredFile) (total : Z)
    (opened : list SealedSessionStreamSegment) : eff Disk (Z * list SealedSessionStreamSegment) :=
  match segments with
  | [] => mret (total, opened)
  | segment :: segments =>
      _ ← guard;
      bytes ← or_io (file_len index);
      _ ← lift (reject MAX_SESSION_SEGMENT_BYTES <? bytes
                  with Protocol (diagnostic_path segment +:+ " segment size " +:+ Z_to_string bytes
                         +:+ " bytes exceeds max " +:+ Z_to_string MAX_SESSION_SEGMENT_BYTES);;
                Ok tt);
      _ ← (if bytes =? 0 then
             lift (reject negb (Nat.eqb (S index) segment_count)
                     with Protocol (diagnostic_path segment +:+ " non-final segment must end with LF");;
                   Ok tt)
           else
             _ ← or_io (file_call id);
             _ ← or_io (file_call id);
             last ← reads (fun d => Ok (last_byte (contents_of d index)));
             lift (reject bool_decide (last <> Some lf)
                     with Protocol (diagnostic_path segment +:+ " segment must end with LF");;
                   Ok tt));
      open_segments segment_count (S index) segments (sat_u64 (total + bytes))
        (opened ++ [mkSealed bytes index segment])
  end.

Definition session_stream_inventory (path : AnchoredFile) (lim : SessionStreamLimits)
    : eff Disk SessionStreamInventory :=
  segments ← scan_files path lim;
  '(total, opened) ← open_segments (List.length segments) 0 segments 0 [];
  _ ← lift (reject max_total_bytes lim <? total
              with Protocol (diagnostic_path path +:+ " segmented JSONL size " +:+ Z_to_string total
                     +:+ " bytes exceeds max " +:+ Z_to_string (max_total_bytes lim));;
            Ok tt);
  current ← lift (expect (last opened));
  _ ← guard;
  mret (mkInventory (sealed_bytes current) (len segments) (sealed_path current) (sealed_file current)
          (removelast opened) total).

(** ** Checks *)

Definition current_path (a : SessionLogAppender) : result RuntimeError AnchoredFile :=
  segmented_jsonl_path (base_path a) (current_ordinal a).

Definition changed_outside (path : AnchoredFile) (expected found : Z) : RuntimeError :=
  Protocol (diagnostic_path path +:+ " changed outside append semantics: expected " +:+ Z_to_string expected
            +:+ " bytes, found " +:+ Z_to_string found).

Definition check_len (path : AnchoredFile) (f : nat) (expected : Z) : eff Disk unit :=
  actual ← or_io (file_len f);
  lift (reject negb (actual =? expected) with changed_outside path expected actual;; Ok tt).

Fixpoint verify_sealed (segments : list SealedSessionStreamSegment) : eff Disk unit :=
  match segments with
  | [] => mret tt
  | segment :: segments =>
      _ ← guard;
      _ ← check_len (sealed_path segment) (sealed_file segment) (sealed_bytes segment);
      verify_sealed segments
  end.

Definition scan_inventory (a : SessionLogAppender) : eff Disk unit :=
  fun d => (next d, verify_segmented_jsonl_inventory (D := directory_at (base_path a) d) (base_path a) (limits a)
                      (current_ordinal a)).

Definition ask_watch : eff Disk bool := fun d => (next d, answered (watch_changed (requests d))).

(** One turn of the loop: [None] when the inventory changed during it. *)
Definition verify_turn (a : SessionLogAppender) (scan : bool) : eff Disk (option AnchoredFile) :=
  _ ← (if scan then scan_inventory a else mret tt);
  _ ← verify_sealed (sealed_segments a);
  current ← lift (current_path a);
  _ ← guard;
  _ ← guard;
  _ ← check_len current (file a) (current_bytes a);
  changed ← (if watch_active a then ask_watch else mret false);
  mret (if (changed : bool) then None else Some current).

Definition changed_during (a : SessionLogAppender) : RuntimeError :=
  Protocol (diagnostic_path (base_path a) +:+ " segment inventory changed during verification").

(** The loop runs a second time only with the scan it left out. *)
Definition verify_current_segment (a : SessionLogAppender) : eff Disk AnchoredFile :=
  scan ← (if watch_active a then ask_watch else mret true);
  turn ← verify_turn a scan;
  match (turn : option AnchoredFile) with
  | Some current => mret current
  | None =>
      if (scan : bool) then lift (Err (changed_during a))
      else
        turn ← verify_turn a true;
        lift (ok_or (turn : option AnchoredFile) (changed_during a))
  end.

Definition open_inventory (path : AnchoredFile) (lim : SessionStreamLimits) (watch : bool)
    (inventory : SessionStreamInventory) : eff Disk SessionLogAppender :=
  _ ← guard;
  _ ← guard;
  let a := mkAppender path (inv_current_bytes inventory) (inv_current_ordinal inventory)
             (inv_current_file inventory) watch lim (inv_sealed_segments inventory) (inv_total_bytes inventory) in
  _ ← verify_current_segment a;
  mret a.

(** [open_with_limits]; [watch] tells whether the inventory watch could be set up. *)
Definition open_with_limits (path : AnchoredFile) (lim : SessionStreamLimits) (watch : bool)
    : eff Disk SessionLogAppender :=
  inventory ← session_stream_inventory path lim;
  open_inventory path lim watch inventory.

(** ** Appending *)

Definition session_stream_record_requires_rotation (path : AnchoredFile) (lim : SessionStreamLimits)
    (current_bytes current_ordinal total_bytes appended_bytes : Z) : result RuntimeError bool :=
  reject MAX_SESSION_SEGMENT_BYTES <? appended_bytes
    with Protocol (diagnostic_path path +:+ " JSONL record is " +:+ Z_to_string appended_bytes
           +:+ " bytes; max segment size is " +:+ Z_to_string MAX_SESSION_SEGMENT_BYTES);;
  let total := sat_u64 (total_bytes + appended_bytes) in
  reject max_total_bytes lim <? total
    with Protocol (diagnostic_path path +:+ " segmented JSONL size " +:+ Z_to_string total
           +:+ " bytes exceeds max " +:+ Z_to_string (max_total_bytes lim));;
  if (current_bytes =? 0) || (sat_u64 (current_bytes + appended_bytes) <=? MAX_SESSION_SEGMENT_BYTES) then Ok false
  else
    reject max_segments lim <=? current_ordinal
      with Protocol (diagnostic_path path +:+ " segment count exceeds max " +:+ Z_to_string (max_segments lim));;
    Ok true.

(** The appender and the disk. *)
Record Stream : Type := mkStream {
  appender : SessionLogAppender;
  disk : Disk;
}.

Definition on_disk {A} (m : SessionLogAppender -> eff Disk A) : eff Stream A :=
  fun s => let '(d, r) := m (appender s) (disk s) in (mkStream (appender s) d, r).

Definition set_appender (f : SessionLogAppender -> SessionLogAppender) : eff Stream unit :=
  fun s => (mkStream (f (appender s)) (disk s), Ok tt).

(** [reserve_new_anchored_file]: the file is created, then looked at. *)
Definition reserve_new_anchored_file (ordinal : Z) : eff Disk unit :=
  fun d =>
    match guard_fault (requests d) with
    | Some e => (next d, Err e)
    | None =>
        if ordinal <=? len (files d) then (next d, Err (Io AlreadyExists))
        else guard (next (mkDisk (files d ++ [mkSegmentFile "" 0]) (named d) (requests d)))
    end.

(** A new segment: the current one is sealed behind it. *)
Definition rotated (current : AnchoredFile) (next_ordinal : Z) (next_file : nat) (a : SessionLogAppender)
    : SessionLogAppender :=
  mkAppender (base_path a) 0 next_ordinal next_file (watch_active a) (limits a)
    (sealed_segments a ++ [mkSealed (current_bytes a) (file a) current]) (total_bytes a).

Definition rotate_before (appended_bytes : Z) : eff Stream AnchoredFile :=
  current ← on_disk verify_current_segment;
  rotation ← reads (fun s : Stream => let a := appender s in
    session_stream_record_requires_rotation (base_path a) (limits a) (current_bytes a) (current_ordinal a)
      (total_bytes a) appended_bytes);
  if negb (rotation : bool) then mret current
  else
    _ ← on_disk (fun a => or_io (sync_all (file a)));
    _ ← on_disk verify_current_segment;
    next_ordinal ← reads (fun s : Stream => Ok (sat_u64 (current_ordinal (appender s) + 1)));
    _ ← on_disk (fun a => lift (segmented_jsonl_path (base_path a) next_ordinal));
    _ ← on_disk (fun _ => reserve_new_anchored_file next_ordinal);
    _ ← on_disk (fun _ => sync_session_stream_parent);
    _ ← on_disk (fun _ => guard);
    _ ← on_disk (fun _ => guard);
    _ ← set_appender (rotated current next_ordinal (Z.to_nat (next_ordinal - 1)));
    on_disk verify_current_segment.

(** [complete_prefixes]: where each event of the batch ends. *)
Fixpoint complete_prefixes (start : Z) (events : list string) : list Z :=
  match events with
  | [] => []
  | event :: events => (start + slen event) :: complete_prefixes (start + slen event) events
  end.

Definition cleanup_incomplete_suffix (f : nat) (retained_len : Z) : eff Disk (unit + ErrorKind) :=
  r ← set_len f retained_len;
  match (r : unit + ErrorKind) with inr kind => mret (inr kind) | inl _ => sync_all f end.

(** The value of an [Option::or] on the length of the file. *)
Definition len_or (f : nat) (fallback : Z) : eff Disk Z :=
  r ← file_len f; mret (match (r : Z + ErrorKind) with inl n => n | inr _ => fallback end).

Definition len_is (f : nat) (n : Z) : eff Disk bool :=
  r ← file_len f; mret (match (r : Z + ErrorKind) with inl m => m =? n | inr _ => false end).

Definition cleanup_failed (path : AnchoredFile) (source rollback : ErrorKind) : RuntimeError :=
  Protocol (diagnostic_path path +:+ " append failed (" +:+ io_text source
            +:+ ") and incomplete-suffix cleanup failed (" +:+ io_text rollback +:+ ")").

(** After a failed write: the records that are whole stay, the rest is cut off. *)
Definition retain_whole_records (f : nat) (path : AnchoredFile) (original_len : Z) (events : list string)
    (source : ErrorKind) : eff Disk BatchAppendFailure :=
  current_len ← len_or f original_len;
  let written := sat_u64 (current_len - original_len) in
  let ends := complete_prefixes 0 events in
  let committed := partition_point (fun e => e <=? written) ends in
  let retained_bytes := match committed with O => 0 | S index => nth index ends 0 end in
  let retained_len := sat_u64 (original_len + retained_bytes) in
  rollback ← cleanup_incomplete_suffix f retained_len;
  match (rollback : unit + ErrorKind) with
  | inr rollback =>
      whole ← len_is f retained_len;
      mret (mkFailureOf (if (whole : bool) then Some committed else None) (cleanup_failed path source rollback))
  | inl _ => mret (mkFailureOf (Some committed) (Io source))
  end.

Definition append_native_event_batch_with (f : nat) (path : AnchoredFile) (original_len : Z) (events : list string)
    : eff Disk (unit + BatchAppendFailure) :=
  sought ← seek_end;
  match (sought : unit + ErrorKind) with
  | inr kind => mret (inr (none_committed (Io kind)))
  | inl _ =>
      r ← write_all f (concat_bytes events);
      match (r : unit + ErrorKind) with
      | inl _ => mret (inl tt)
      | inr source => failure ← retain_whole_records f path original_len events source; mret (inr failure)
      end
  end.

(** How many of the events fit into the segment and the stream, and their bytes. *)
Fixpoint fitting (available total limit batch_bytes : Z) (events : list string) : nat * Z :=
  match events with
  | [] => (O, batch_bytes)
  | event :: events =>
      let candidate := sat_u64 (batch_bytes + slen event) in
      if (available <? candidate) || (limit <? sat_u64 (total + candidate)) then (O, batch_bytes)
      else let '(n, bytes) := fitting available total limit candidate events in (S n, bytes)
  end.

Definition grown (bytes : Z) (a : SessionLogAppender) : SessionLogAppender :=
  mkAppender (base_path a) (sat_u64 (current_bytes a + bytes)) (current_ordinal a) (file a) (watch_active a)
    (limits a) (sealed_segments a) (sat_u64 (total_bytes a + bytes)).

(** [fold(0u64, u64::saturating_add)] over the lengths. *)
Definition saturating_sum (l : list string) : Z := foldl (fun n s => sat_u64 (n + slen s)) 0 l.

Definition attempt {S A} (m : eff S A) : eff S (A + RuntimeError) :=
  fun s =>
    match m s with
    | (s, Ok a) => (s, Ok (inl a))
    | (s, Err error) => (s, Ok (inr error))
    | (s, Panic) => (s, Panic)
    end.

(** The part of the loop of [append_batch] after the rotation: the batch that fits is written.
    [MAX_SESSION_SEGMENT_BYTES - self.current_bytes] and the [debug_assert!] panic in a debug
    build. *)
Definition append_fitting (current : AnchoredFile) (committed : nat) (events : list string)
    : eff Stream (nat + BatchAppendFailure) :=
  '(count, batch_bytes) ← reads (fun s : Stream => let a := appender s in
    if MAX_SESSION_SEGMENT_BYTES <? current_bytes a then Panic
    else Ok (fitting (MAX_SESSION_SEGMENT_BYTES - current_bytes a) (total_bytes a) (max_total_bytes (limits a)) 0 events));
  _ ← lift (if (count : nat) is O then Panic else Ok tt);
  let batch := take count events in
  r ← on_disk (fun a => append_native_event_batch_with (file a) current (current_bytes a) batch);
  match (r : unit + BatchAppendFailure) with
  | inr failure =>
      match committed_events failure with
      | None => mret (inr failure)
      | Some n =>
          _ ← lift (if Nat.leb n (List.length batch) then Ok tt else Panic);
          _ ← set_appender (grown (saturating_sum (take n batch)));
          mret (inr (mkFailureOf (Some (committed + n)%nat) (failure_error failure)))
      end
  | inl _ => _ ← set_appender (grown batch_bytes); mret (inl count)
  end.

(** The loop of [append_batch] over the events that are left; [committed] are stored. *)
Fixpoint append_loop (fuel : nat) (committed : nat) (events : list string)
    : eff Stream (unit + BatchAppendFailure) :=
  match fuel, events with
  | _, [] => mret (inl tt)
  | O, _ => lift Panic
  | S fuel, event :: _ =>
      r ← attempt (rotate_before (slen event));
      match (r : AnchoredFile + RuntimeError) with
      | inr error => mret (inr (mkFailureOf (Some committed) error))
      | inl current =>
          r ← append_fitting current committed events;
          match (r : nat + BatchAppendFailure) with
          | inr failure => mret (inr failure)
          | inl count => append_loop fuel (committed + count)%nat (drop count events)
          end
      end
  end.

Definition append_batch (events : list string) : eff Stream (unit + BatchAppendFailure) :=
  append_loop (List.length events) 0 events.

Definition append (bytes : string) : eff Stream unit :=
  r ← append_batch [bytes];
  lift (match (r : unit + BatchAppendFailure) with inl _ => Ok tt | inr failure => Err (failure_error failure) end).

Definition sync : eff Stream unit :=
  _ ← on_disk verify_current_segment;
  _ ← on_disk (fun a => or_io (sync_all (file a)));
  _ ← on_disk (fun _ => sync_session_stream_parent);
  _ ← on_disk verify_current_segment;
  mret tt.

(** [SessionLogAppender::len] *)
Definition stream_len : eff Stream Z :=
  _ ← on_disk verify_current_segment;
  reads (fun s : Stream => Ok (total_bytes (appender s))).
End appender.
