(* ===== verification/AppenderTheory.v ===== *)
(** Theorems on the appender of a segmented stream: whatever the operating system answers, the
    stream holds exactly the records that are reported as stored, whole and in order, within the
    limits; nothing panics; a successful [sync] makes all of it durable. *)

From Stdlib Require Import ZArith Lia Ascii String.
From stdpp Require Import base strings sorting sets option gmap countable list.
From S2P Require Import Prelude Decimal Sorting Metadata Json FlowValue Event Lifecycle Errors EffectTheory.
From S2P Require Import Validate OwnScript OwnScriptTheory Context ContextTheory Builder Planner Segments Appender.

Open Scope Z_scope.

(** * Effects with a condition on the state they end in *)

Section runs.
Context {S : Type}.

(** From a state with [P], [m] returns a value with [Q], or an error with [X]; no panic. *)
Definition runs {A} (P : S -> Prop) (m : eff S A) (Q : A -> S -> Prop) (X : S -> Prop) : Prop :=
  forall s, P s ->
    match m s with
    | (s', Ok a) => Q a s'
    | (s', Err _) => X s'
    | (_, Panic) => False
    end.

Lemma runs_bind {A B} P (m : eff S A) (f : A -> eff S B) Q R X :
  runs P m Q X -> (forall a, runs (Q a) (f a) R X) -> runs P (m ≫= f) R X.
Proof.
  intros Hm Hf s Hs. specialize (Hm s Hs). rewrite eff_bind_eq.
  destruct (m s) as [s1 [a|err|]]; [by apply Hf|done|done].
Qed.

Lemma runs_ret {A} (P : S -> Prop) (a : A) (Q : A -> S -> Prop) X : (forall s, P s -> Q a s) -> runs P (mret a) Q X.
Proof. intros H s Hs. by apply H. Qed.

Lemma runs_weaken {A} (P P' : S -> Prop) (m : eff S A) (Q Q' : A -> S -> Prop) (X X' : S -> Prop) :
  (forall s, P' s -> P s) -> (forall a s, Q a s -> Q' a s) -> (forall s, X s -> X' s) ->
  runs P m Q X -> runs P' m Q' X'.
Proof.
  intros H1 H2 H3 Hm s Hs. specialize (Hm s (H1 s Hs)). destruct (m s) as [s1 [a|err|]]; [by apply H2|by apply H3|done].
Qed.

Lemma runs_err {A} P (m : eff S A) Q (X X' : S -> Prop) : (forall s, X s -> X' s) -> runs P m Q X -> runs P m Q X'.
Proof. intros H. by apply runs_weaken. Qed.

Lemma runs_pure {A} (p : Prop) (P : S -> Prop) (m : eff S A) Q X :
  (p -> runs P m Q X) -> runs (fun s => p /\ P s) m Q X.
Proof. intros H s [Hp Hs]. by apply H. Qed.

Lemma runs_lift {A} (P : S -> Prop) (r : result RuntimeError A) (Q : A -> S -> Prop) (X : S -> Prop) :
  r <> Panic -> (forall a s, r = Ok a -> P s -> Q a s) -> (forall s, P s -> X s) -> runs P (lift r) Q X.
Proof. intros H1 H2 H3 s Hs. unfold lift. destruct r; [by apply H2|by apply H3|done]. Qed.

Lemma runs_reads {A} (P : S -> Prop) (f : S -> result RuntimeError A) (Q : A -> S -> Prop) (X : S -> Prop) :
  (forall s, P s -> match f s with Ok a => Q a s | Err _ => X s | Panic => False end) -> runs P (reads f) Q X.
Proof. intros H s Hs. unfold reads. specialize (H s Hs). by destruct (f s). Qed.
End runs.

(** * Checks change nothing *)

(** The directory lists no panics, so neither do the scans. *)
Section quiet.
Context {K : Storage}.

Definition holds (fs : list SegmentFile) (nm : Z) (d : Disk) : Prop := files d = fs /\ named d = nm.

(** A check: it leaves the files as they are and does not panic. *)
Definition quiet {A} (m : eff Disk A) : Prop := forall fs nm, safe (holds fs nm) m.

Lemma quiet_bind {A B} (m : eff Disk A) (f : A -> eff Disk B) :
  quiet m -> (forall a, quiet (f a)) -> quiet (m ≫= f).
Proof. intros Hm Hf fs nm. apply safe_bind; [apply Hm|intros a; apply Hf]. Qed.

Lemma quiet_lift {A} (r : result RuntimeError A) : r <> Panic -> quiet (lift r).
Proof. intros H fs nm. by apply safe_lift. Qed.

Lemma quiet_ret {A} (a : A) : quiet (mret a).
Proof. intros fs nm. apply safe_ret. Qed.

Lemma quiet_next {A} (f : Disk -> result RuntimeError A) :
  (forall d, f d <> Panic) -> quiet (fun d => (next d, f d)).
Proof. intros H fs nm d Hd. cbn. by split_and!. Qed.

Lemma quiet_guard : quiet guard.
Proof. apply quiet_next. intros d. by destruct (guard_fault _). Qed.

Lemma quiet_file_len f : quiet (file_len f).
Proof. by apply quiet_next. Qed.

Lemma quiet_file_call : quiet (file_call id).
Proof. intros fs nm d Hd. unfold file_call. destruct (io_fault _); by split_and!. Qed.

Lemma quiet_or_io {A} (m : eff Disk (A + ErrorKind)) : quiet m -> quiet (or_io m).
Proof. intros Hm. apply quiet_bind; [done|]. intros [a|k]; by apply quiet_lift. Qed.

Lemma quiet_ask_watch : quiet ask_watch.
Proof. apply quiet_next. intros d. by destruct (watch_changed _). Qed.
End quiet.

Create HintDb quiet.
#[export] Hint Resolve quiet_ret quiet_guard quiet_file_len quiet_file_call quiet_or_io quiet_ask_watch : quiet.

Ltac quiet :=
  repeat first
    [ solve [eauto with quiet]
    | match goal with
      | |- quiet (_ ≫= _) => apply quiet_bind; [|intros ?]
      | |- quiet (lift _) => apply quiet_lift
      | |- quiet (match ?x with _ => _ end) => destruct x eqn:?
      | |- (match ?x with _ => _ end) <> Panic => destruct x eqn:?
      | |- _ <> Panic => discriminate
      end ].

Section checks.
Context {K : Storage}.

Lemma visit_entries_safe {S} base stem (visit : SegmentedJsonlMember -> S -> result RuntimeError S) l s :
  (forall m s, visit m s <> Panic) -> Panic ∉ l -> visit_entries base stem visit l s <> Panic.
Proof.
  intros Hv. revert s. induction l as [|e l IH]; intros s Hl; [done|].
  apply not_elem_of_cons in Hl as [He Hl]. cbn [visit_entries]. destruct e as [[name|]| |]; cbn [mbind result_bind]; auto.
  unfold segmented_jsonl_member. repeat case_match; cbn [mbind result_bind]; auto;
    destruct (visit _ s) eqn:E; cbn [mbind result_bind]; auto; by apply Hv in E.
Qed.

Lemma stem_safe base : segmented_jsonl_stem base <> Panic.
Proof. unfold segmented_jsonl_stem. destruct (segmented_jsonl_leaf_stem _); cbn; [by case_match|done]. Qed.

Lemma path_safe base k : segmented_jsonl_path base k <> Panic.
Proof.
  unfold segmented_jsonl_path. case_match; [done|]. pose proof (stem_safe base).
  destruct (segmented_jsonl_stem base); cbn; [|done..]. by destruct (segmented_jsonl_leaf _ _).
Qed.

Lemma directory_safe base d l : entries (Directory := directory_at base d) = Ok l -> Panic ∉ l.
Proof.
  cbn. destruct (guard_fault _); [discriminate|]. intros [= <-]. rewrite elem_of_app, !list_elem_of_fmap.
  intros [(? & ? & _)|([] & ? & _)]; discriminate.
Qed.

Lemma for_each_safe {S} base d (visit : SegmentedJsonlMember -> S -> result RuntimeError S) s :
  (forall m s, visit m s <> Panic) ->
  for_each_segmented_jsonl_member (D := directory_at base d) base visit s <> Panic.
Proof.
  intros Hv. unfold for_each_segmented_jsonl_member. pose proof (stem_safe base).
  destruct (segmented_jsonl_stem base); cbn [mbind result_bind]; [|done..].
  destruct (entries (Directory := directory_at base d)) as [l| |] eqn:E; cbn [mbind result_bind]; [|done|].
  - apply visit_entries_safe; [done|]. by eapply directory_safe.
  - cbn in E. by destruct (guard_fault _).
Qed.

Lemma inventory_safe base lim d n :
  verify_segmented_jsonl_inventory (D := directory_at base d) base lim n <> Panic.
Proof.
  unfold verify_segmented_jsonl_inventory, segmented_jsonl_inventory.
  pose proof (for_each_safe base d (visit_count base lim (fun _ => Ok tt)) (mkCounted 1 1 None false)) as H.
  destruct (for_each_segmented_jsonl_member _ _ _); cbn [mbind result_bind]; [|done|].
  - by repeat (case_match; cbn [mbind result_bind]).
  - intros _. apply H; [|done]. intros [k f|f] s; cbn; by repeat case_match.
Qed.

Lemma quiet_scan_inventory a : quiet (scan_inventory a).
Proof. apply quiet_next. intros d. apply inventory_safe. Qed.

Lemma quiet_check_len path f n : quiet (check_len path f n).
Proof. unfold check_len. quiet. Qed.

#[local] Hint Resolve quiet_scan_inventory quiet_check_len : quiet.

Lemma quiet_verify_sealed l : quiet (verify_sealed l).
Proof. induction l as [|segment l IH]; cbn [verify_sealed]; quiet. Qed.

#[local] Hint Resolve quiet_verify_sealed path_safe : quiet.

Lemma quiet_verify_turn a scan : quiet (verify_turn a scan).
Proof. unfold verify_turn, current_path. quiet. Qed.

#[local] Hint Resolve quiet_verify_turn : quiet.

Lemma quiet_verify a : quiet (verify_current_segment a).
Proof. unfold verify_current_segment, ok_or. quiet. Qed.

Lemma on_disk_quiet {A} (m : SessionLogAppender -> eff Disk A) a fs nm :
  (forall a, quiet (m a)) ->
  runs (fun s => appender s = a /\ holds fs nm (disk s)) (on_disk m) (fun _ s => appender s = a /\ holds fs nm (disk s))
    (fun s => appender s = a /\ holds fs nm (disk s)).
Proof.
  intros Hm s [Ha Hd]. unfold on_disk. destruct (Hm (appender s) fs nm (disk s) Hd) as (H1 & H2 & _).
  destruct (m (appender s) (disk s)) as [d r]. cbn in *. by destruct r.
Qed.
End checks.

(** * Strings *)

Lemma length_str_take n s : String.length (str_take n s) = Nat.min n (String.length s).
Proof. revert s. induction n as [|n IH]; intros [|a s]; cbn; [done..|]. by rewrite IH. Qed.

Lemma str_take_app_ge n s t : (String.length s <= n)%nat -> str_take n (s +:+ t) = s +:+ str_take (n - String.length s) t.
Proof.
  revert n. induction s as [|a s IH]; intros n Hn; cbn [append String.length]; [by rewrite Nat.sub_0_r|].
  destruct n as [|n]; cbn in Hn; [lia|]. cbn. by rewrite IH by lia.
Qed.

Lemma str_take_take n m s : (n <= m)%nat -> str_take n (str_take m s) = str_take n s.
Proof.
  revert m s. induction n as [|n IH]; intros [|m] [|a s] H; cbn; try done; try lia. by rewrite IH by lia.
Qed.

Lemma str_take_all n s : (String.length s <= n)%nat -> str_take n s = s.
Proof. revert s. induction n as [|n IH]; intros [|a s] H; cbn in *; try done; try lia. by rewrite IH by lia. Qed.

Lemma str_take_min n s : str_take (Nat.min n (String.length s)) s = str_take n s.
Proof. revert s. induction n as [|n IH]; intros [|a s]; cbn; [done..|]. by rewrite IH. Qed.

Lemma sum_lengths_nonneg l : 0 <= sum_lengths l.
Proof. rewrite <- slen_concat. apply slen_nonneg. Qed.

Lemma str_take_prefix l n k :
  sum_lengths (take n l) <= Z.of_nat k -> str_take (Z.to_nat (sum_lengths (take n l))) (str_take k (concat_bytes l))
    = concat_bytes (take n l).
Proof.
  intros H. rewrite str_take_take by lia. rewrite <- (take_drop n l) at 2. apply str_take_concat.
Qed.

Lemma alter_middle {A} (g : A -> A) l x r : alter g (List.length l) (l ++ x :: r) = l ++ g x :: r.
Proof. induction l as [|y l IH]; [done|]. change (y :: alter g (List.length l) (l ++ x :: r) = y :: l ++ g x :: r). by rewrite IH. Qed.

Lemma lookup_middle {A} (l : list A) x r : (l ++ x :: r) !! List.length l = Some x.
Proof. by apply list_lookup_middle. Qed.

(** * Whole records *)

(** Up to [v] bytes: how many records are whole, and where the last of them ends. *)
Lemma whole_records v events :
  let ends := complete_prefixes 0 events in
  let n := partition_point (fun e => e <=? v) ends in
  (n <= List.length events)%nat /\
  match n with O => 0 | S index => nth index ends 0 end = sum_lengths (take n events) /\
  (0 <= v -> sum_lengths (take n events) <= v).
Proof.
  assert (forall events start, let ends := complete_prefixes start events in
    let n := partition_point (fun e => e <=? v) ends in
    (n <= List.length events)%nat /\
    match n with O => start | S index => nth index ends 0 end = start + sum_lengths (take n events) /\
    (start <= v -> start + sum_lengths (take n events) <= v)) as H.
  { clear. induction events as [|event events IH]; intros start; cbn -[Z.add Z.leb sum_lengths]; [by split_and!; cbn; lia|].
    destruct (Z.leb_spec (start + slen event) v) as [Hv|Hv]; cbn -[Z.add sum_lengths]; [|split_and!; cbn; lia].
    destruct (IH (start + slen event)) as (H1 & H2 & H3). change (sum_lengths (event :: ?l)) with (slen event + sum_lengths l).
    specialize (H3 Hv). split_and!; [lia| |lia]. destruct (partition_point _ _); cbn in *; lia. }
  destruct (H events 0) as (H1 & H2 & H3). by split_and!; [|rewrite H2; lia|intros Hv; specialize (H3 Hv); lia].
Qed.

(** * One batch *)

Section batch.
Context {K : Storage}.

(** The stream with [cur] as its current file, behind the files [full]; files that were reserved
    and not adopted come after it. *)
Definition at_current (full : list SegmentFile) (cur : SegmentFile) (extra : list SegmentFile) (nm : Z) : Disk -> Prop :=
  holds (full ++ cur :: extra) nm.

Lemma contents_of_current full cur extra nm d :
  at_current full cur extra nm d -> contents_of d (List.length full) = contents cur.
Proof. intros [H _]. unfold contents_of. by rewrite H, lookup_middle. Qed.

(** A call on the current file that changes it to [g cur] when it succeeds. *)
Lemma call_runs full cur extra nm (g : SegmentFile -> SegmentFile) :
  runs (at_current full cur extra nm) (file_call (update_file (List.length full) g))
    (fun r d => at_current full (if r is inl _ then g cur else cur) extra nm d) (fun _ => False).
Proof.
  intros d [H1 H2]. unfold file_call. destruct (io_fault (requests d)) as [kind|]; [by split|].
  split; [|done]. cbn. by rewrite H1, alter_middle.
Qed.

Lemma len_runs full cur extra nm :
  runs (at_current full cur extra nm) (file_len (List.length full))
    (fun r d => (if r is inl n then n = slen (contents cur) else True) /\ at_current full cur extra nm d) (fun _ => False).
Proof.
  intros d Hd. unfold file_len. destruct (io_fault (requests d)) as [kind|]; (split; [|done]); [done|].
  cbn. by rewrite (contents_of_current _ _ _ _ _ Hd).
Qed.

Lemma len_is_runs full cur extra nm n :
  runs (at_current full cur extra nm) (len_is (List.length full) n)
    (fun b d => (b = true -> slen (contents cur) = n) /\ at_current full cur extra nm d) (fun _ => False).
Proof.
  unfold len_is. eapply runs_bind; [apply len_runs|]. intros [m|kind]; apply runs_ret.
  - intros d [-> Hd]. split; [by intros ?%Z.eqb_eq|done].
  - intros d [_ Hd]. by split.
Qed.

Lemma write_runs full cur extra nm bytes :
  runs (at_current full cur extra nm) (write_all (List.length full) bytes)
    (fun r d => match r with
                | inl _ => at_current full (extend bytes cur) extra nm d
                | inr _ => exists k, Z.of_nat k <= slen bytes /\ at_current full (extend (str_take k bytes) cur) extra nm d
                end) (fun _ => False).
Proof.
  intros d [H1 H2]. unfold write_all. destruct (io_fault (requests d)) as [kind|].
  - exists (Nat.min (written (requests d)) (String.length bytes)). split; [unfold slen; lia|].
    rewrite str_take_min. split; [|done]. cbn. by rewrite H1, alter_middle.
  - split; [|done]. cbn. by rewrite H1, alter_middle.
Qed.

(** What the current file holds after a batch that was cut short. *)
Definition stored (cur : SegmentFile) (events : list string) (committed : option nat) (cur' : SegmentFile) : Prop :=
  match committed with
  | Some n => (n <= List.length events)%nat /\ contents cur' = contents cur +:+ concat_bytes (take n events)
  | None => exists k, contents cur' = contents cur +:+ str_take k (concat_bytes events)
  end.

(** Cutting the file off behind whole records. *)
Lemma with_len_whole cur events n k :
  sum_lengths (take n events) <= Z.of_nat k -> Z.of_nat k <= sum_lengths events ->
  contents (with_len (slen (contents cur) + sum_lengths (take n events)) (extend (str_take k (concat_bytes events)) cur))
    = contents cur +:+ concat_bytes (take n events).
Proof.
  intros Hk Hle. pose proof (sum_lengths_nonneg (take n events)). cbn -[Z.add].
  assert (Z.to_nat (slen (contents cur) + sum_lengths (take n events))
    = (String.length (contents cur) + Z.to_nat (sum_lengths (take n events)))%nat) as ->
    by (unfold slen; lia).
  rewrite str_take_app_ge by lia. rewrite length_app_string, length_str_take.
  pose proof (slen_concat events) as Hs. unfold slen in Hs.
  match goal with |- context [nul_bytes ?m] => replace m with O by lia end.
  rewrite app_string_nil_r. f_equal.
  match goal with |- context [str_take ?m _] => replace m with (Z.to_nat (sum_lengths (take n events))) by lia end.
  by apply str_take_prefix.
Qed.

Lemma retain_runs full cur extra nm path events source k :
  slen (contents cur) + sum_lengths events <= u64_max -> Z.of_nat k <= sum_lengths events ->
  runs (at_current full (extend (str_take k (concat_bytes events)) cur) extra nm)
    (retain_whole_records (List.length full) path (slen (contents cur)) events source)
    (fun failure d => exists cur', at_current full cur' extra nm d /\ stored cur events (committed_events failure) cur')
    (fun _ => False).
Proof.
  intros Hmax Hk. set (original := slen (contents cur)) in *. set (partial := extend _ cur).
  assert (slen (contents partial) = original + Z.of_nat k) as Hpartial.
  { unfold partial. cbn [contents extend]. rewrite slen_app. unfold slen at 2. rewrite length_str_take.
    pose proof (slen_concat events) as Hs. unfold slen in Hs. fold original. lia. }
  pose proof (slen_nonneg (contents cur)) as Ho. fold original in Ho.
  unfold retain_whole_records. eapply (runs_bind _ _ _ (fun n d =>
    (n = original \/ n = original + Z.of_nat k) /\ at_current full partial extra nm d)).
  { unfold len_or. eapply runs_bind; [apply len_runs|]. intros [n|kind]; apply runs_ret; cbn.
    - intros d [-> Hd]. split; [right; done|done].
    - intros d [_ Hd]. split; [by left|done]. }
  intros n. apply runs_pure. intros Hn. cbn zeta.
  assert (exists v, sat_u64 (n - original) = v /\ 0 <= v <= Z.of_nat k) as (v & -> & Hv).
  { exists (n - original). split; [apply sat_u64_id; unfold in_u64|]; lia. }
  destruct (whole_records v events) as (H1 & H2 & H3). specialize (H3 ltac:(lia)). cbn zeta in *.
  set (committed := partition_point _ _) in *. rewrite H2. pose proof (sum_lengths_nonneg (take committed events)).
  rewrite sat_u64_id by (unfold in_u64; lia). set (retained := original + sum_lengths (take committed events)).
  assert (contents (with_len retained partial) = contents cur +:+ concat_bytes (take committed events)) as Hwhole
    by (apply with_len_whole; lia).
  unfold cleanup_incomplete_suffix.
  eapply (runs_bind _ _ _ (fun r d => exists cur', at_current full cur' extra nm d /\
    (if r is inl _ then contents cur' = contents (with_len retained partial)
     else cur' = partial \/ contents cur' = contents (with_len retained partial)))).
  { eapply runs_bind; [apply call_runs|]. intros [[]|kind].
    - intros d Hd. pose proof (call_runs full (with_len retained partial) extra nm
        (fun s => mkSegmentFile (contents s) (slen (contents s))) d Hd) as Hc.
      unfold sync_all. destruct (file_call _ d) as [d' [r|e|]]; [|done..]. eexists. split; [exact Hc|].
      destruct r; [done|by right].
    - apply runs_ret. intros d Hd. exists partial. split; [done|by left]. }
  intros [[]|rollback]; [apply runs_ret; intros d (cur' & Hd & E); exists cur'; cbn; rewrite E; by split_and!|].
  assert (contents (with_len retained partial)
    = contents cur +:+ str_take (Z.to_nat (sum_lengths (take committed events))) (concat_bytes events)) as Hprefix.
  { rewrite Hwhole. f_equal. rewrite <- (take_drop committed events) at 3. by rewrite str_take_concat. }
  intros d (cur' & Hd & E). rewrite eff_bind_eq. pose proof (len_is_runs full cur' extra nm retained d Hd) as Hl.
  destruct (len_is _ _ d) as [d' [whole|e|]]; [|done..]. destruct Hl as [Hl Hd']. exists cur'. split; [done|].
  destruct whole; cbn; [|destruct E as [->|E]; [by exists k|by eexists; rewrite E]].
  split; [done|]. destruct E as [->|E]; [|by rewrite E]. specialize (Hl eq_refl).
  rewrite <- (str_take_prefix events committed k) by lia.
  replace (Z.to_nat (sum_lengths (take committed events))) with k by lia. by rewrite str_take_take.
Qed.

(** A batch, on any answers: stored whole, or exactly as far as the failure says. *)
Lemma batch_runs full cur extra nm path events :
  slen (contents cur) + sum_lengths events <= u64_max ->
  runs (at_current full cur extra nm)
    (append_native_event_batch_with (List.length full) path (slen (contents cur)) events)
    (fun r d => exists cur', at_current full cur' extra nm d /\
       match r with
       | inl _ => contents cur' = contents cur +:+ concat_bytes events
       | inr failure => stored cur events (committed_events failure) cur'
       end) (fun _ => False).
Proof.
  intros Hmax. unfold append_native_event_batch_with, seek_end.
  eapply (runs_bind _ _ _ (fun _ => at_current full cur extra nm)).
  { intros d Hd. unfold file_call. by destruct (io_fault _). }
  intros [[]|kind].
  2: { apply runs_ret. intros d Hd. exists cur. split; [done|]. cbn. split; [lia|]. by rewrite app_string_nil_r. }
  eapply runs_bind; [apply write_runs|]. intros [[]|source].
  - apply runs_ret. intros d Hd. by eexists.
  - intros d (k & Hk & Hd). rewrite slen_concat in Hk. rewrite eff_bind_eq.
    pose proof (retain_runs full cur extra nm path events source k Hmax Hk d Hd) as Hr.
    destruct (retain_whole_records _ _ _ _ _ d) as [d' [failure|e|]]; done.
Qed.
End batch.

(** * The stream *)

Section stream.
Context {K : Storage}.

(** The appender's account of the files: sealed segments and the current one, whole records,
    within the limits, the sealed ones durable. *)
Record layout (a : SessionLogAppender) (full : list SegmentFile) (cur : SegmentFile) (extra : list SegmentFile)
    (groups : list (list string)) (current : list string) : Prop := mkLayout {
  layout_file : file a = List.length full;
  layout_ordinal : current_ordinal a = len full + 1;
  layout_sealed_files : sealed_file <$> sealed_segments a = seq 0 (List.length full);
  layout_sealed_bytes : sealed_bytes <$> sealed_segments a = slen ∘ contents <$> full;
  layout_current : current_bytes a = slen (contents cur);
  layout_total : total_bytes a = sum_lengths (contents <$> full) + current_bytes a;
  layout_extra : Forall (fun f => contents f = ""%string) extra;
  layout_groups : contents <$> full = concat_bytes <$> groups;
  layout_records : contents cur = concat_bytes current;
  layout_durable : Forall (fun f => durable_bytes f = slen (contents f)) full;
  layout_nonempty : Forall (fun f => contents f <> ""%string) full;
  layout_segments : Forall (fun f => slen (contents f) <= MAX_SESSION_SEGMENT_BYTES) (full ++ [cur]);
  layout_max_total : total_bytes a <= max_total_bytes (limits a);
  layout_limit : max_total_bytes (limits a) < u64_max;
  layout_max_segments : len full + 1 <= Z.max 1 (max_segments (limits a));
  layout_max_ordinal : max_segments (limits a) <= MAX_SEGMENT_ORDINAL;
}.

Definition stream_at (a : SessionLogAppender) full cur extra nm (s : Stream) : Prop :=
  appender s = a /\ at_current full cur extra nm (disk s).

(** The stream holds these records, grouped by segment. *)
Definition stream_ok (groups : list (list string)) (current : list string) (s : Stream) : Prop :=
  exists a full cur extra nm, stream_at a full cur extra nm s /\ layout a full cur extra groups current.

Definition stream_holds (records : list string) (s : Stream) : Prop :=
  exists groups current, stream_ok groups current s /\ concat groups ++ current = records.

Lemma layout_bounds a full cur extra groups current :
  layout a full cur extra groups current ->
  0 <= current_bytes a <= MAX_SESSION_SEGMENT_BYTES /\ current_bytes a <= total_bytes a.
Proof.
  intros L. pose proof (layout_segments _ _ _ _ _ _ L) as Hs. apply Forall_app in Hs as [_ Hs].
  apply Forall_cons in Hs as [Hs _]. rewrite (layout_total _ _ _ _ _ _ L), (layout_current _ _ _ _ _ _ L).
  pose proof (slen_nonneg (contents cur)). pose proof (sum_lengths_nonneg (contents <$> full)). lia.
Qed.

Lemma requires_rotation_Ok path lim cb co tb n r :
  0 <= n -> 0 <= cb <= tb -> tb <= max_total_bytes lim < u64_max ->
  session_stream_record_requires_rotation path lim cb co tb n = Ok r ->
  n <= MAX_SESSION_SEGMENT_BYTES /\ tb + n <= max_total_bytes lim /\
  if r then cb <> 0 /\ co < max_segments lim else cb = 0 \/ cb + n <= MAX_SESSION_SEGMENT_BYTES.
Proof.
  intros Hn Hcb Htb. unfold session_stream_record_requires_rotation.
  assert (MAX_SESSION_SEGMENT_BYTES < 2 ^ 30) by done. unfold u64_max in Htb.
  destruct (Z.ltb_spec MAX_SESSION_SEGMENT_BYTES n); [discriminate|].
  destruct (Z.ltb_spec (max_total_bytes lim) (sat_u64 (tb + n))) as [|Ht]; [discriminate|].
  assert (tb + n <= max_total_bytes lim) as Ht'.
  { unfold sat_u64, clamp, u64_max in Ht. lia. }
  rewrite sat_u64_id by (unfold in_u64, u64_max; lia).
  destruct (Z.eqb_spec cb 0); cbn [orb]; [intros [= <-]; by split_and!; [..|left]|].
  destruct (Z.leb_spec (cb + n) MAX_SESSION_SEGMENT_BYTES); [intros [= <-]; by split_and!; [..|right]|].
  destruct (Z.leb_spec (max_segments lim) co); [discriminate|]. by intros [= <-].
Qed.

Lemma requires_rotation_safe path lim cb co tb n : session_stream_record_requires_rotation path lim cb co tb n <> Panic.
Proof. unfold session_stream_record_requires_rotation. by repeat case_match. Qed.

(** A step on the disk that the appender does not see. *)
Lemma on_disk_runs {A} (m : SessionLogAppender -> eff Disk A) a P (Q : A -> Disk -> Prop) (X : Disk -> Prop) :
  runs P (m a) Q X ->
  runs (fun s => appender s = a /\ P (disk s)) (on_disk m) (fun r s => appender s = a /\ Q r (disk s))
    (fun s => appender s = a /\ X (disk s)).
Proof.
  intros Hm s [Ha Hd]. unfold on_disk. rewrite Ha. specialize (Hm (disk s) Hd).
  destruct (m a (disk s)) as [d [r|e|]]; by cbn.
Qed.

Lemma quiet_runs {A} (m : eff Disk A) full cur extra nm :
  quiet m -> runs (at_current full cur extra nm) m (fun _ => at_current full cur extra nm) (at_current full cur extra nm).
Proof.
  intros Hm d Hd. destruct (Hm _ _ d Hd) as (H1 & H2 & _). by destruct (m d) as [d' []].
Qed.

(** A check of the appender. *)
Lemma verify_runs a full cur extra nm :
  runs (stream_at a full cur extra nm) (on_disk verify_current_segment) (fun _ => stream_at a full cur extra nm)
    (stream_at a full cur extra nm).
Proof.
  eapply runs_weaken; [..|apply (on_disk_runs _ a (at_current full cur extra nm)
    (fun _ => at_current full cur extra nm) (at_current full cur extra nm)), quiet_runs, quiet_verify]; done.
Qed.

Lemma reserve_runs full cur extra nm ordinal :
  ordinal = len full + 2 ->
  runs (at_current full cur extra nm) (reserve_new_anchored_file ordinal)
    (fun _ d => extra = [] /\ at_current full cur [mkSegmentFile "" 0] nm d)
    (fun d => at_current full cur extra nm d \/ extra = [] /\ at_current full cur [mkSegmentFile "" 0] nm d).
Proof.
  intros -> d [H1 H2]. unfold reserve_new_anchored_file. destruct (guard_fault (requests d)); [by left|].
  destruct (Z.leb_spec (len full + 2) (len (files d))) as [Hl|Hl]; [by left|].
  assert (extra = []) as ->.
  { destruct extra as [|f extra]; [done|]. rewrite H1 in Hl. unfold len in Hl. rewrite length_app in Hl. cbn in Hl. lia. }
  unfold guard. cbn. unfold at_current, holds. cbn. rewrite H1, <- app_assoc. cbn.
  destruct (guard_fault _); [right|]; by split_and!.
Qed.

Lemma stream_at_holds a full cur extra nm groups current records s :
  layout a full cur extra groups current -> concat groups ++ current = records ->
  stream_at a full cur extra nm s -> stream_holds records s.
Proof. intros L E Hs. exists groups, current. split; [|done]. by exists a, full, cur, extra, nm. Qed.

(** A record of [n] bytes fits into the current segment and the stream. *)
Definition ready (n : Z) (records : list string) (s : Stream) : Prop :=
  exists a full cur extra nm groups current,
    stream_at a full cur extra nm s /\ layout a full cur extra groups current /\
    concat groups ++ current = records /\ current_bytes a + n <= MAX_SESSION_SEGMENT_BYTES /\
    total_bytes a + n <= max_total_bytes (limits a).

Definition synced (cur : SegmentFile) : SegmentFile := mkSegmentFile (contents cur) (slen (contents cur)).

Lemma layout_synced a full cur extra groups current :
  layout a full cur extra groups current -> layout a full (synced cur) extra groups current.
Proof.
  intros []. constructor; try done. apply Forall_app. apply Forall_app in layout_segments0 as [? [? _]%Forall_cons].
  split; [done|]. by constructor.
Qed.

Lemma sync_all_runs full cur extra nm :
  runs (at_current full cur extra nm) (or_io (sync_all (List.length full)))
    (fun _ => at_current full (synced cur) extra nm) (at_current full cur extra nm).
Proof.
  unfold or_io. intros d Hd. rewrite eff_bind_eq.
  pose proof (call_runs full cur extra nm (fun s => mkSegmentFile (contents s) (slen (contents s))) d Hd) as Hc.
  unfold sync_all. destruct (file_call _ d) as [d' [[[]|kind]|e|]]; done.
Qed.

Lemma parent_runs full cur extra nm :
  runs (at_current full cur extra nm) sync_session_stream_parent
    (fun _ => at_current full cur extra (len (full ++ cur :: extra))) (at_current full cur extra nm).
Proof.
  intros d [H1 H2]. unfold sync_session_stream_parent. destruct (guard_fault _); [by split|].
  split; cbn; by rewrite H1.
Qed.

Lemma layout_rotated a full cur groups current path k :
  layout a full cur [mkSegmentFile "" 0] groups current -> current_bytes a <> 0 ->
  current_ordinal a < max_segments (limits a) -> k = S (List.length full) -> durable_bytes cur = slen (contents cur) ->
  layout (rotated path (len full + 2) k a) (full ++ [cur]) (mkSegmentFile "" 0) [] (groups ++ [current]) [].
Proof.
  intros [] Hc Ho -> Hd. assert (len (full ++ [cur]) = len full + 1) as Hl by (unfold len; rewrite length_app; cbn; lia).
  constructor; cbn [rotated file current_ordinal sealed_segments current_bytes total_bytes limits contents].
  - rewrite length_app. cbn. lia.
  - lia.
  - rewrite fmap_app, layout_sealed_files0, length_app. cbn. rewrite seq_app. cbn. by rewrite layout_file0.
  - rewrite !fmap_app, layout_sealed_bytes0. cbn. by rewrite layout_current0.
  - done.
  - rewrite fmap_app, sum_lengths_app, layout_total0, layout_current0. cbn. lia.
  - constructor.
  - rewrite !fmap_app, layout_groups0. cbn. by rewrite layout_records0.
  - done.
  - apply Forall_app. split; [done|]. by constructor.
  - apply Forall_app. split; [done|]. constructor; [|done]. intros E. by rewrite layout_current0, E in Hc.
  - apply Forall_app. split; [done|]. by constructor.
  - done.
  - done.
  - lia.
  - done.
Qed.

(** A call on the disk between two arrangements of the files. *)
Lemma disk_runs {A} (m : SessionLogAppender -> eff Disk A) a full cur extra nm cur' extra' nm' (X : Stream -> Prop) :
  runs (at_current full cur extra nm) (m a) (fun _ => at_current full cur' extra' nm') (at_current full cur extra nm) ->
  (forall s, stream_at a full cur extra nm s -> X s) ->
  runs (stream_at a full cur extra nm) (on_disk m) (fun _ => stream_at a full cur' extra' nm') X.
Proof.
  intros Hm HX. eapply runs_err; [exact HX|]. by apply (on_disk_runs _ _ _ (fun _ => at_current full cur' extra' nm')).
Qed.

Lemma quiet_stream {A} (m : SessionLogAppender -> eff Disk A) a full cur extra nm (X : Stream -> Prop) :
  quiet (m a) -> (forall s, stream_at a full cur extra nm s -> X s) ->
  runs (stream_at a full cur extra nm) (on_disk m) (fun _ => stream_at a full cur extra nm) X.
Proof. intros Hm. by apply disk_runs, quiet_runs. Qed.

(** The second half of a rotation: a new file behind the synchronized one. *)
Lemma rotate_step n a full cur extra nm groups current path :
  layout a full (synced cur) extra groups current -> 0 <= n <= MAX_SESSION_SEGMENT_BYTES ->
  total_bytes a + n <= max_total_bytes (limits a) -> current_bytes a <> 0 ->
  current_ordinal a < max_segments (limits a) ->
  runs (stream_at a full (synced cur) extra nm)
    (_ ← on_disk (fun _ => reserve_new_anchored_file (len full + 2));
     _ ← on_disk (fun _ => sync_session_stream_parent);
     _ ← on_disk (fun _ => guard);
     _ ← on_disk (fun _ => guard);
     _ ← set_appender (rotated path (len full + 2) (Z.to_nat (len full + 2 - 1)));
     on_disk verify_current_segment)
    (fun _ => ready n (concat groups ++ current)) (stream_holds (concat groups ++ current)).
Proof.
  intros L Hn Ht Hc Ho. set (records := concat groups ++ current). set (new := mkSegmentFile "" 0).
  assert (layout a full (synced cur) [new] groups current) as L1 by (destruct L; constructor; by repeat constructor).
  assert (forall s nm, stream_at a full (synced cur) [new] nm s -> stream_holds records s) as HX1
    by (intros s nm'; exact (stream_at_holds _ _ _ _ _ _ _ _ _ L1 eq_refl)).
  eapply (runs_bind _ _ _ (fun _ => stream_at a full (synced cur) [new] nm)).
  { eapply runs_weaken; [..|apply (on_disk_runs _ a), (reserve_runs full (synced cur) extra nm); reflexivity]; cbv beta.
    - done.
    - by intros _ s [Ha [_ Hd]].
    - intros s [Ha [Hd|[_ Hd]]]; [exact (stream_at_holds _ _ _ _ _ _ _ _ _ L eq_refl (conj Ha Hd))|].
      exact (HX1 _ _ (conj Ha Hd)). }
  intros ?. eapply runs_bind; [apply disk_runs; [apply parent_runs|intros s; apply HX1]|]. intros ?.
  set (nm' := len (full ++ synced cur :: [new])).
  eapply runs_bind; [apply quiet_stream; [apply quiet_guard|intros s; apply HX1]|]. intros ?.
  eapply runs_bind; [apply quiet_stream; [apply quiet_guard|intros s; apply HX1]|]. intros ?.
  set (a' := rotated path (len full + 2) (Z.to_nat (len full + 2 - 1)) a).
  eapply (runs_bind _ _ _ (fun _ => stream_at a' (full ++ [synced cur]) new [] nm')).
  { intros s [Ha [H1 H2]]. cbn. split; [cbn; by rewrite Ha|]. unfold at_current, holds. by rewrite <- app_assoc. }
  assert (layout a' (full ++ [synced cur]) new [] (groups ++ [current]) []) as L2.
  { apply layout_rotated; try done. unfold len. lia. }
  assert (concat (groups ++ [current]) ++ [] = records) as E by (rewrite concat_app; cbn; by rewrite !app_nil_r).
  intros ?. eapply runs_weaken; [..|apply (quiet_stream verify_current_segment a' (full ++ [synced cur]) new [] nm' (stream_holds records));
    [apply quiet_verify|]]; cbv beta.
  - intros s Hs. exact Hs.
  - intros _ s Hs. exists a', (full ++ [synced cur]), new, [], nm', (groups ++ [current]), [].
    split_and!; try done. cbn. lia.
  - done.
  - intros s Hs. by eapply stream_at_holds.
Qed.

Lemma rotate_runs n records :
  0 <= n -> runs (stream_holds records) (rotate_before n) (fun _ => ready n records) (stream_holds records).
Proof.
  intros Hn s (groups & current & (a & full & cur & extra & nm & Hs & L) & E). revert s Hs. subst records.
  set (records := concat groups ++ current).
  change (runs (stream_at a full cur extra nm) (rotate_before n) (fun _ => ready n records) (stream_holds records)).
  pose proof (layout_bounds _ _ _ _ _ _ L) as [Hb1 Hb2]. pose proof (layout_synced _ _ _ _ _ _ L) as L1.
  pose proof (fun s => stream_at_holds _ _ _ _ nm _ _ records s L eq_refl) as HX.
  pose proof (fun s => stream_at_holds _ _ _ _ nm _ _ records s L1 eq_refl) as HX1.
  unfold rotate_before. eapply runs_bind; [apply quiet_stream; [apply quiet_verify|exact HX]|].
  intros path. cbv beta. eapply (runs_bind _ _ _ (fun (r : bool) s => (n <= MAX_SESSION_SEGMENT_BYTES /\
    total_bytes a + n <= max_total_bytes (limits a) /\
    if r then current_bytes a <> 0 /\ current_ordinal a < max_segments (limits a)
    else current_bytes a = 0 \/ current_bytes a + n <= MAX_SESSION_SEGMENT_BYTES) /\ stream_at a full cur extra nm s)).
  { apply runs_reads. intros s Hs. pose proof Hs as [Ha _]. rewrite Ha.
    destruct (session_stream_record_requires_rotation _ _ _ _ _ _) as [r|e|] eqn:Er; [|by apply HX|].
    - split; [|done]. eapply requires_rotation_Ok; [done|..|exact Er]; [lia|].
      split; [apply (layout_max_total _ _ _ _ _ _ L)|apply (layout_limit _ _ _ _ _ _ L)].
    - by apply requires_rotation_safe in Er. }
  intros r. apply runs_pure. intros (H1 & H2 & H3). destruct r; cbn [negb].
  2: { apply runs_ret. intros s Hs. exists a, full, cur, extra, nm, groups, current. split_and!; [done..|lia|done]. }
  destruct H3 as [H3 H4]. eapply (runs_bind _ _ _ (fun _ => stream_at a full (synced cur) extra nm)).
  { apply (disk_runs (fun a => or_io (sync_all (file a)))); [|exact HX].
    rewrite (layout_file _ _ _ _ _ _ L). apply sync_all_runs. }
  intros ?. eapply runs_bind; [apply quiet_stream; [apply quiet_verify|exact HX1]|].
  intros ?. eapply (runs_bind _ _ _ (fun k s => k = len full + 2 /\ stream_at a full (synced cur) extra nm s)).
  { apply runs_reads. intros s Hs. split; [|done]. pose proof Hs as [-> _].
    rewrite (layout_ordinal _ _ _ _ _ _ L). rewrite sat_u64_id; [lia|].
    pose proof (layout_max_segments _ _ _ _ _ _ L). pose proof (layout_max_ordinal _ _ _ _ _ _ L).
    unfold in_u64, u64_max, MAX_SEGMENT_ORDINAL, len in *. lia. }
  intros k. apply runs_pure. intros ->.
  eapply runs_bind; [apply quiet_stream; [apply quiet_lift, path_safe|exact HX1]|]. intros ?.
  by apply rotate_step.
Qed.

(** ** Records that fit *)

Lemma fitting_spec available total limit events b n b' :
  fitting available total limit b events = (n, b') ->
  0 <= b <= available -> available < u64_max -> 0 <= total -> total + b <= limit < u64_max ->
  (n <= List.length events)%nat /\ b' = b + sum_lengths (take n events) /\ b' <= available /\ total + b' <= limit /\
  (forall event, head events = Some event -> b + slen event <= available -> total + (b + slen event) <= limit -> n <> O).
Proof.
  revert b n b'. induction events as [|event events IH]; intros b n b'; cbn [fitting].
  { intros [= <- <-] Hb Ha Ht Hl. cbn. split_and!; [lia..|done]. }
  pose proof (slen_nonneg event). intros E Hb Ha Ht Hl.
  destruct (Z.ltb_spec available (sat_u64 (b + slen event))) as [H1|H1]; cbn [orb] in E.
  { injection E as <- <-. cbn. split_and!; [lia..|]. intros e [= <-] He _. exfalso.
    unfold sat_u64, clamp in H1. lia. }
  assert (sat_u64 (b + slen event) = b + slen event) as Hs.
  { apply sat_u64_id. unfold in_u64. unfold sat_u64, clamp in H1. lia. }
  rewrite Hs in *. destruct (Z.ltb_spec limit (sat_u64 (total + (b + slen event)))) as [H2|H2].
  { injection E as <- <-. cbn. split_and!; [lia..|]. intros e [= <-] _ He. exfalso.
    unfold sat_u64, clamp in H2. lia. }
  assert (total + (b + slen event) <= limit) as H3 by (unfold sat_u64, clamp in H2; lia).
  destruct (fitting _ _ _ _ events) as [m bytes] eqn:Ef. injection E as <- <-.
  destruct (IH _ _ _ Ef) as (I1 & I2 & I3 & I4 & _); [lia..|].
  change (take (S m) (event :: events)) with (event :: take m events).
  change (sum_lengths (event :: take m events)) with (slen event + sum_lengths (take m events)).
  split_and!; [cbn; lia|lia..|done].
Qed.

Lemma saturating_sum_id l : sum_lengths l <= u64_max -> saturating_sum l = sum_lengths l.
Proof.
  unfold saturating_sum. enough (forall b, 0 <= b -> b + sum_lengths l <= u64_max ->
    foldl (fun n s => sat_u64 (n + slen s)) b l = b + sum_lengths l) as H.
  { intros Hl. rewrite H; lia. }
  induction l as [|s l IH]; intros b Hb Hs; cbn [foldl]; [cbn; lia|].
  change (sum_lengths (s :: l)) with (slen s + sum_lengths l) in *.
  pose proof (slen_nonneg s). pose proof (sum_lengths_nonneg l).
  rewrite sat_u64_id by (unfold in_u64; lia). rewrite IH by lia. lia.
Qed.

Lemma sum_take_le n l : sum_lengths (take n l) <= sum_lengths l.
Proof. rewrite <- (take_drop n l) at 2. rewrite sum_lengths_app. pose proof (sum_lengths_nonneg (drop n l)). lia. Qed.

Lemma layout_grown a full cur cur' extra groups current added :
  layout a full cur extra groups current -> contents cur' = contents cur +:+ concat_bytes added ->
  current_bytes a + sum_lengths added <= MAX_SESSION_SEGMENT_BYTES ->
  total_bytes a + sum_lengths added <= max_total_bytes (limits a) ->
  layout (grown (sum_lengths added) a) full cur' extra groups (current ++ added).
Proof.
  intros L Hc Hs Ht. pose proof (layout_bounds _ _ _ _ _ _ L) as [Hb1 Hb2]. pose proof (sum_lengths_nonneg added).
  destruct L. assert (MAX_SESSION_SEGMENT_BYTES < u64_max) by done.
  assert (slen (contents cur') = current_bytes a + sum_lengths added) as Hlen
    by (rewrite Hc, slen_app, slen_concat; lia).
  constructor; cbn [grown file current_ordinal sealed_segments current_bytes total_bytes limits]; try done.
  - rewrite sat_u64_id by (unfold in_u64; lia). by rewrite Hlen.
  - rewrite !sat_u64_id by (unfold in_u64; lia). lia.
  - by rewrite Hc, concat_bytes_app, layout_records0.
  - apply Forall_app. apply Forall_app in layout_segments0 as [? _]. split; [done|]. constructor; [|done]. lia.
  - rewrite sat_u64_id by (unfold in_u64; lia). lia.
Qed.

(** ** What the stream holds after an append *)

(** All bytes of the stream. *)
Definition stream_bytes (d : Disk) : string := concat_bytes (contents <$> files d).

Lemma concat_bytes_concat groups : concat_bytes (concat_bytes <$> groups) = concat_bytes (concat groups).
Proof.
  induction groups as [|g groups IH]; [done|]. cbn [fmap list_fmap concat].
  rewrite concat_bytes_app, <- IH. done.
Qed.

Lemma concat_bytes_empty {A} (f : A -> string) l : Forall (fun x => f x = ""%string) l -> concat_bytes (f <$> l) = ""%string.
Proof. induction 1 as [|x l Hx _ IH]; [done|]. cbn. by rewrite Hx. Qed.

Lemma at_current_bytes full cur extra nm d :
  at_current full cur extra nm d -> Forall (fun f => contents f = ""%string) extra ->
  stream_bytes d = concat_bytes (contents <$> full) +:+ contents cur.
Proof.
  intros [H _] He. unfold stream_bytes. rewrite H, fmap_app, concat_bytes_app. f_equal. cbn [fmap list_fmap].
  change (concat_bytes (contents cur :: ?l)) with (contents cur +:+ concat_bytes l).
  by rewrite concat_bytes_empty, app_string_nil_r.
Qed.

Lemma layout_prefix_bytes a full cur extra groups current :
  layout a full cur extra groups current ->
  concat_bytes (contents <$> full) +:+ contents cur = concat_bytes (concat groups ++ current).
Proof. intros []. by rewrite layout_groups0, concat_bytes_concat, layout_records0, concat_bytes_app. Qed.

Lemma stream_holds_bytes records s : stream_holds records s -> stream_bytes (disk s) = concat_bytes records.
Proof.
  intros (groups & current & (a & full & cur & extra & nm & [_ Hd] & L) & <-).
  rewrite (at_current_bytes _ _ _ _ _ Hd) by apply L. eapply layout_prefix_bytes, L.
Qed.

(** What a failure says about the stream: the records it counts are stored and no other byte; or
    the bytes stop somewhere in the events. *)
Definition reported (records events : list string) (committed : nat) (failure : BatchAppendFailure) (s : Stream) : Prop :=
  match committed_events failure with
  | Some m => exists n, m = (committed + n)%nat /\ (n <= List.length events)%nat /\
                stream_holds (records ++ take n events) s
  | None => exists k, stream_bytes (disk s) = concat_bytes records +:+ str_take k (concat_bytes events)
  end.

Lemma reported_app records l events committed failure s :
  reported (records ++ l) events (committed + List.length l) failure s ->
  reported records (l ++ events) committed failure s.
Proof.
  unfold reported. destruct (committed_events failure) as [m|].
  - intros (n & -> & Hn & Hs). exists (List.length l + n)%nat. rewrite length_app, take_app_add, app_assoc.
    split_and!; [lia..|done].
  - intros (k & Hk). exists (String.length (concat_bytes l) + k)%nat. rewrite Hk, !concat_bytes_app, app_string_assoc.
    rewrite str_take_app_ge by lia. do 3 f_equal. lia.
Qed.

Lemma str_take_short k n events :
  exists j, str_take k (concat_bytes (take n events)) = str_take j (concat_bytes events).
Proof.
  exists (Nat.min k (String.length (concat_bytes (take n events)))). rewrite <- str_take_min.
  rewrite <- (take_drop n events) at 4. rewrite concat_bytes_app. generalize (concat_bytes (drop n events)) as t.
  generalize (concat_bytes (take n events)) as u. intros u t. revert u.
  induction k as [|k IH]; intros [|c u]; cbn; [done..|]. by rewrite IH.
Qed.

(** The batch that fits is not empty, and what it leaves is what it reports. *)
Lemma fitting_runs current committed event events records :
  runs (ready (slen event) records) (append_fitting current committed (event :: events))
    (fun r s => match r with
                | inl count => (1 <= count <= S (List.length events))%nat /\
                               stream_holds (records ++ take count (event :: events)) s
                | inr failure => reported records (event :: events) committed failure s
                end) (fun _ => False).
Proof.
  intros s (a & full & cur & extra & nm & groups & rest & Hs & L & E & H1 & H2).
  pose proof (layout_bounds _ _ _ _ _ _ L) as [Hb1 Hb2]. pose proof (layout_limit _ _ _ _ _ _ L) as Hlim.
  pose proof (slen_nonneg event). set (all := event :: events). assert (MAX_SESSION_SEGMENT_BYTES < u64_max) by done.
  destruct (fitting (MAX_SESSION_SEGMENT_BYTES - current_bytes a) (total_bytes a) (max_total_bytes (limits a)) 0 all)
    as [count bytes] eqn:Ef.
  destruct (fitting_spec _ _ _ _ _ _ _ Ef) as (F1 & F2 & F3 & F4 & F5); [lia..|].
  specialize (F5 event eq_refl ltac:(lia) ltac:(lia)). rewrite Z.add_0_l in F2.
  set (batch := take count all) in *. revert s Hs.
  change (runs (stream_at a full cur extra nm) (append_fitting current committed all)
    (fun r s => match r with
                | inl count => (1 <= count <= S (List.length events))%nat /\ stream_holds (records ++ take count all) s
                | inr failure => reported records all committed failure s
                end) (fun _ => False)).
  unfold append_fitting.
  eapply (runs_bind _ _ _ (fun r s => r = (count, bytes) /\ stream_at a full cur extra nm s)).
  { apply runs_reads. intros s Hs. pose proof Hs as [-> _].
    destruct (Z.ltb_spec MAX_SESSION_SEGMENT_BYTES (current_bytes a)); [lia|]. by rewrite Ef. }
  intros r. apply runs_pure. intros ->. destruct count as [|count']; [done|]. set (count := S count') in *.
  eapply (runs_bind _ _ _ (fun _ => stream_at a full cur extra nm)); [by apply (runs_ret _ tt)|]. intros ?. fold batch.
  eapply runs_bind.
  { eapply runs_err; [|apply (on_disk_runs (fun a => append_native_event_batch_with (file a) current (current_bytes a) batch) a
      (at_current full cur extra nm))].
    2: { rewrite (layout_file _ _ _ _ _ _ L), (layout_current _ _ _ _ _ _ L). apply batch_runs.
         rewrite <- (layout_current _ _ _ _ _ _ L), <- F2. lia. }
    by intros s [_ []]. }
  intros [[]|failure].
  - intros s (Ha & cur' & Hd & Hc). cbn. split; [unfold count; cbn in F1 |- *; lia|].
    exists groups, (rest ++ batch). split; [|by rewrite <- E, app_assoc].
    exists (grown bytes a), full, cur', extra, nm. split; [split; [cbn; by rewrite Ha|done]|].
    rewrite F2. eapply layout_grown; [done..|lia|lia].
  - intros s (Ha & cur' & Hd & Hc). destruct (committed_events failure) as [n|] eqn:En; cbn [stored] in Hc.
    + destruct Hc as [Hn Hc]. rewrite eff_bind_eq. cbn [lift]. rewrite (proj2 (Nat.leb_le _ _) Hn).
      pose proof (sum_take_le n batch). rewrite saturating_sum_id by lia. cbn -[sum_lengths grown take].
      exists n. assert (take n batch = take n all) as Etake.
      { unfold batch in *. rewrite length_take in Hn. rewrite take_take. f_equal. lia. }
      rewrite <- Etake. split_and!; [done|change (n <= List.length all)%nat; unfold batch in Hn; rewrite length_take in Hn; lia|].
      exists groups, (rest ++ take n batch). split; [|by rewrite <- E, app_assoc].
      exists (grown (sum_lengths (take n batch)) a), full, cur', extra, nm. split; [split; [cbn; by rewrite Ha|done]|].
      eapply layout_grown; [done..|lia|lia].
    + cbn. unfold reported. rewrite En. destruct Hc as (k & Hc).
      destruct (str_take_short k count all) as (j & Hj). exists j.
      rewrite (at_current_bytes _ _ _ _ _ Hd) by apply L. rewrite Hc, <- app_string_assoc.
      rewrite (layout_prefix_bytes _ _ _ _ _ _ L), E. f_equal. exact Hj.
Qed.

Lemma attempt_runs {S A} P (m : eff S A) (Q : A -> S -> Prop) (X : S -> Prop) :
  runs P m Q X -> runs P (attempt m) (fun r s => match r with inl a => Q a s | inr _ => X s end) (fun _ => False).
Proof. intros Hm s Hs. unfold attempt. specialize (Hm s Hs). by destruct (m s) as [s' [a|e|]]. Qed.

Lemma append_loop_runs fuel events committed records :
  (List.length events <= fuel)%nat ->
  runs (stream_holds records) (append_loop fuel committed events)
    (fun r s => match r with
                | inl _ => stream_holds (records ++ events) s
                | inr failure => reported records events committed failure s
                end) (fun _ => False).
Proof.
  revert events committed records. induction fuel as [|fuel IH]; intros [|event events] committed records Hf; try (cbn in Hf; lia).
  1,2: intros s Hs; cbn; by rewrite app_nil_r.
  cbn [append_loop]. eapply runs_bind; [apply attempt_runs, rotate_runs, slen_nonneg|]. intros [path|error].
  2: { apply runs_ret. intros s Hs. exists O. split_and!; [lia|cbn; lia|]. cbn. by rewrite app_nil_r. }
  eapply runs_bind; [apply fitting_runs|]. intros [count|failure]; [|by apply runs_ret].
  apply runs_pure. intros Hc. cbn in Hf. set (all := event :: events) in *.
  assert (List.length (take count all) = count) as Hlen by (rewrite length_take; unfold all; cbn; lia).
  eapply runs_weaken; [..|apply (IH (drop count all) (committed + count)%nat (records ++ take count all))]; cbv beta.
  - done.
  - intros [[]|failure] s Hs; [by rewrite <- app_assoc, take_drop in Hs|].
    rewrite <- (take_drop count all). apply reported_app. by rewrite Hlen.
  - done.
  - rewrite length_drop. unfold all. cbn. lia.
Qed.
End stream.
