(* ===== verification/AppenderProps.v ===== *)
(** What the appender promises to its callers: exact appends on any answers of the operating
    system, durability after [sync], an opened stream that satisfies the invariant and agrees
    with the files on the disk, and appends that succeed when nothing fails: with an operating
    system that reports no error and a directory without foreign members of the stream, the only
    refusals are those of the limits. *)

From Stdlib Require Import ZArith Lia Ascii String.
From stdpp Require Import base strings sorting sets option gmap countable list.
From S2P Require Import Prelude Decimal Sorting Metadata Json FlowValue Event Lifecycle Errors EffectTheory.
From S2P Require Import Validate OwnScript OwnScriptTheory Context ContextTheory Builder Planner Segments SegmentsTheory.
From S2P Require Import Appender AppenderTheory.

Open Scope Z_scope.

Section promises.
Context {K : Storage}.

(** What an append leaves: all records, or the first [n] of them when the failure counts [n], or
    bytes that stop somewhere in them when it counts none. *)
Definition batch_result (records events : list string) (r : unit + BatchAppendFailure) (s : Stream) : Prop :=
  match r with
  | inl _ => stream_holds (records ++ events) s
  | inr failure =>
      match committed_events failure with
      | Some n => (n <= List.length events)%nat /\ stream_holds (records ++ take n events) s
      | None => exists k, stream_bytes (disk s) = concat_bytes records +:+ str_take k (concat_bytes events)
      end
  end.

Lemma append_batch_runs events records :
  runs (stream_holds records) (append_batch events) (batch_result records events) (fun _ => False).
Proof.
  eapply runs_weaken; [..|apply (append_loop_runs _ events 0 records); lia]; cbv beta; [done| |done].
  intros [[]|failure] s; [done|]. unfold reported, batch_result. destruct (committed_events failure); [|done].
  intros (m & -> & Hm & Hs). by split.
Qed.

(** C13: Appending a batch, whatever the operating system answers: the call returns, with no panic,
    and the stream holds the records it held and exactly the events the result says: all of
    them, or the first [n] when it reports [n] as committed, each whole, none across two
    segments, within the limits of the stream; only when the failure counts nothing may the
    bytes stop inside an event. *)
Theorem append_batch_exact events records s :
  stream_holds records s ->
  exists s' r, append_batch events s = (s', Ok r) /\ batch_result records events r s'.
Proof.
  intros Hs. pose proof (append_batch_runs events records s Hs) as H.
  destruct (append_batch events s) as [s' [r|e|]]; [|done..]. by exists s', r.
Qed.

(** What is left of the stream after a crash, at least: the durable bytes of the files whose
    names are durable. *)
Definition durable_log (d : Disk) : string :=
  concat_bytes ((fun f => str_take (Z.to_nat (durable_bytes f)) (contents f)) <$> take (Z.to_nat (named d)) (files d)).

Lemma durable_whole l :
  Forall (fun f => durable_bytes f = slen (contents f)) l ->
  (fun f => str_take (Z.to_nat (durable_bytes f)) (contents f)) <$> l = contents <$> l.
Proof.
  induction 1 as [|f l Hf _ IH]; [done|]. rewrite !fmap_cons, IH. f_equal. rewrite Hf.
  apply str_take_all. unfold slen. lia.
Qed.

Lemma str_take_nil n : str_take n "" = ""%string.
Proof. by destruct n. Qed.

Lemma durable_at_current a full cur extra groups current d :
  layout a full cur extra groups current -> durable_bytes cur = slen (contents cur) ->
  at_current full cur extra (len (full ++ cur :: extra)) d ->
  durable_log d = concat_bytes (concat groups ++ current).
Proof.
  intros L Hc Hd. rewrite <- (layout_prefix_bytes _ _ _ _ _ _ L). destruct Hd as [H1 H2].
  unfold durable_log. rewrite H1, H2. rewrite take_ge by (unfold len; lia).
  rewrite fmap_app, fmap_cons, concat_bytes_app. f_equal; [by rewrite durable_whole by apply L|].
  change (concat_bytes (?x :: ?l)) with (x +:+ concat_bytes l).
  rewrite Hc, str_take_all by (unfold slen; lia). rewrite concat_bytes_empty; [by rewrite app_string_nil_r|].
  eapply Forall_impl; [apply (layout_extra _ _ _ _ _ _ L)|]. intros f ->. apply str_take_nil.
Qed.

Lemma sync_runs records :
  runs (stream_holds records) sync
    (fun _ s => stream_holds records s /\ durable_log (disk s) = concat_bytes records) (stream_holds records).
Proof.
  intros s (groups & current & (a & full & cur & extra & nm & Hs & L) & E). revert s Hs. subst records.
  set (records := concat groups ++ current).
  change (runs (stream_at a full cur extra nm) sync
    (fun _ s => stream_holds records s /\ durable_log (disk s) = concat_bytes records) (stream_holds records)).
  pose proof (layout_synced _ _ _ _ _ _ L) as L1.
  assert (forall s nm, stream_at a full cur extra nm s -> stream_holds records s) as HX
    by (intros s nm'; exact (stream_at_holds _ _ _ _ _ _ _ _ _ L eq_refl)).
  assert (forall s nm, stream_at a full (synced cur) extra nm s -> stream_holds records s) as HX1
    by (intros s nm'; exact (stream_at_holds _ _ _ _ _ _ _ _ _ L1 eq_refl)).
  unfold sync. eapply runs_bind; [apply quiet_stream; [apply quiet_verify|intros s; apply HX]|]. intros ?.
  eapply (runs_bind _ _ _ (fun _ => stream_at a full (synced cur) extra nm)).
  { apply (disk_runs (fun a => or_io (sync_all (file a)))); [|intros s; apply HX].
    rewrite (layout_file _ _ _ _ _ _ L). apply sync_all_runs. }
  intros ?. eapply runs_bind; [apply disk_runs; [apply parent_runs|intros s; apply HX1]|]. intros ?.
  eapply runs_bind; [apply quiet_stream; [apply quiet_verify|intros s; apply HX1]|]. intros ?.
  apply runs_ret. intros s Hs. split; [by eapply HX1|]. destruct Hs as [_ Hd]. by eapply durable_at_current.
Qed.

(** C14: Synchronizing: a successful [sync] leaves all records of the stream durable, those of
    earlier segments included, with the names of their files; a failed one leaves the records. *)
Theorem sync_durable records s :
  stream_holds records s ->
  match sync s with
  | (s', Ok _) => stream_holds records s' /\ durable_log (disk s') = concat_bytes records
  | (s', Err _) => stream_holds records s'
  | (_, Panic) => False
  end.
Proof. apply sync_runs. Qed.
End promises.

Section opening.
Context {K : Storage} (base : AnchoredFile) (stem : string) (lim : SessionStreamLimits).
Context (Hstem : segmented_jsonl_stem base = Ok stem).
Context (Hsegments : max_segments lim < MAX_SEGMENT_ORDINAL).

(** The listing at a request: the segments of the disk, and entries that are neither errors nor
    names listed twice. *)
Definition listing (d : Disk) (others : list (option string)) : Prop :=
  other_entries (requests d) = inl <$> others /\
  NoDup (omap id ((Some <$> own_names base d) ++ others)) /\
  len (own_names base d) + len others < u64_max.

Lemma own_names_eq d :
  (1 <= List.length (files d))%nat -> len (files d) <= MAX_SEGMENT_ORDINAL ->
  own_names base d = (stem +:+ JSONL_SUFFIX) :: (numbered_leaf stem <$> seqZ 2 (len (files d) - 1)).
Proof.
  intros H1 H2. unfold own_names. rewrite Hstem, seqZ_cons by (unfold len; lia). cbn [omap list_omap segmented_jsonl_leaf].
  cbn [Z.eqb Pos.eqb]. f_equal. rewrite <- Z.sub_1_r. change (Z.succ 1) with 2.
  assert (Forall (fun k => 2 <= k <= MAX_SEGMENT_ORDINAL) (seqZ 2 (len (files d) - 1))) as Hk.
  { apply Forall_forall. intros k Hk%elem_of_seqZ. lia. }
  induction Hk as [|k ks Hk _ IH]; [done|]. cbn [omap list_omap]. unfold segmented_jsonl_leaf at 1.
  destruct (Z.eqb_spec k 1); [lia|]. unfold in_range. replace (2 <=? k) with true by lia.
  replace (k <=? MAX_SEGMENT_ORDINAL) with true by lia. cbn. by rewrite <- IH.
Qed.

Lemma base_leaf : leaf base = stem +:+ JSONL_SUFFIX.
Proof.
  unfold segmented_jsonl_stem in Hstem. apply bind_Ok_inv in Hstem as (t & Ht%ok_or_Ok_inv & E).
  destruct (negb (is_ascii t)); [discriminate|]. injection E as ->. by apply strip_suffix_Some.
Qed.

Lemma entries_listing d others :
  guard_fault (requests d) = None -> listing d others ->
  entries (Directory := directory_at base d) = Ok (Ok <$> ((Some <$> own_names base d) ++ others)).
Proof.
  intros Hg (Ho & _ & _). cbn. rewrite Hg, Ho, fmap_app. do 2 f_equal; by rewrite <- list_fmap_compose.
Qed.

Lemma own_name name d :
  name ∈ own_names base d <-> exists k, 1 <= k <= len (files d) /\ segmented_jsonl_leaf stem k = Some name.
Proof.
  unfold own_names. rewrite Hstem, list_elem_of_omap. split.
  - intros (k & Hk%elem_of_seqZ & E). exists k. split; [lia|done].
  - intros (k & Hk & E). exists k. split; [apply elem_of_seqZ; lia|done].
Qed.

Lemma leaf_numbered k name :
  segmented_jsonl_leaf stem k = Some name -> k <> 1 -> 2 <= k <= MAX_SEGMENT_ORDINAL /\ name = numbered_leaf stem k.
Proof.
  unfold segmented_jsonl_leaf, in_range. destruct (Z.eqb_spec k 1); [done|]. intros H _.
  destruct ((2 <=? k) && (k <=? MAX_SEGMENT_ORDINAL)) eqn:E; [|discriminate]. injection H as <-. split; [lia|done].
Qed.

Lemma numbered_own k d :
  2 <= k -> k <= MAX_SEGMENT_ORDINAL -> numbered_leaf stem k ∈ own_names base d <-> k <= len (files d).
Proof.
  intros H2 Hk. rewrite own_name. split.
  - intros (j & Hj & E). destruct (decide (j = 1)) as [->|Hj'].
    { injection E as E. symmetry in E. by apply numbered_not_base in E; [|lia]. }
    apply leaf_numbered in E as [Hr E]; [|done]. apply numbered_leaf_inj in E; lia.
  - intros Hle. exists k. split; [lia|]. unfold segmented_jsonl_leaf, in_range.
    destruct (Z.eqb_spec k 1); [lia|]. replace (2 <=? k) with true by lia. by replace (k <=? MAX_SEGMENT_ORDINAL) with true by lia.
Qed.

(** A scan that succeeds finds the files of the disk, no more and no less, whatever else the
    directory lists and however often. *)
Lemma scan_finds_files d segments :
  segmented_jsonl_files (D := directory_at base d) base lim = Ok segments ->
  segments = base :: (segment base stem <$> seqZ 2 (len (files d) - 1)) /\
  1 <= len (files d) <= Z.max 1 (max_segments lim).
Proof.
  intros E. eapply files_sound in E as (l & n & He & Hn & Hu & -> & Hr); [|exact Hstem].
  apply Forall_cons in Hr as [Hb Hr]. cbn in Hb, He. case_bool_decide as Hb'; [|discriminate].
  apply own_name in Hb' as (k0 & Hk0 & _).
  assert (forall name, name ∈ own_names base d -> Some name ∈ l) as Hown.
  { intros name Hin. destruct (guard_fault (requests d)); [discriminate|]. injection He as He.
    assert (Ok (Some name) ∈ (Ok <$> l : list (result RuntimeError (option string)))) as H'.
    { rewrite <- He. apply elem_of_app. left. apply list_elem_of_fmap. by exists name. }
    apply list_elem_of_fmap in H' as (x & [= <-] & H'). done. }
  assert (n = len (files d)) as ->; [|split; [done|lia]]. assert (1 <= MAX_SEGMENT_ORDINAL) by (unfold MAX_SEGMENT_ORDINAL; lia).
  apply Z.le_antisymm.
  - destruct (decide (n = 1)); [lia|].
    apply Forall_fmap in Hr. rewrite Forall_forall in Hr. specialize (Hr n ltac:(apply elem_of_seqZ; lia)).
    cbn in Hr. case_bool_decide as Hin; [|discriminate]. apply numbered_own in Hin; lia.
  - destruct (decide (n < len (files d))) as [Hlt|]; [|lia]. exfalso.
    assert (n + 1 <= MAX_SEGMENT_ORDINAL) as Hk by (unfold MAX_SEGMENT_ORDINAL in *; lia).
    destruct (proj1 (Hu (numbered_leaf stem (n + 1)))) as (j & Hj & Ej).
    + split; [|by apply numbered_belongs; lia]. apply Hown, numbered_own; lia.
    + apply numbered_leaf_inj in Ej; lia.
Qed.

(** * The loop over the segments *)

Definition opened_from (index : nat) (segments : list AnchoredFile) (fs : list SegmentFile)
    : list SealedSessionStreamSegment :=
  imap (fun i '(segment, f) => mkSealed (slen (contents f)) (index + i) segment) (zip segments fs).

Lemma sat_sum_exact l total :
  0 <= total -> foldl (fun n s => sat_u64 (n + slen s)) total l < u64_max ->
  foldl (fun n s => sat_u64 (n + slen s)) total l = total + sum_lengths l.
Proof.
  revert total. induction l as [|s l IH]; intros total Ht; cbn [foldl]; [cbn; lia|].
  pose proof (slen_nonneg s). change (sum_lengths (s :: l)) with (slen s + sum_lengths l).
  assert (0 <= sat_u64 (total + slen s)) as H0 by (unfold sat_u64, clamp, u64_max; lia).
  intros Hlt. rewrite IH in Hlt |- * by done. pose proof (sum_lengths_nonneg l).
  unfold sat_u64, clamp, u64_max in *. lia.
Qed.

Lemma open_segments_runs fs nm count segments index total opened :
  List.length segments = List.length (drop index fs) ->
  runs (holds fs nm) (open_segments count index segments total opened)
    (fun r d => holds fs nm d /\
       r.1 = foldl (fun n s => sat_u64 (n + slen s)) total (contents <$> drop index fs) /\
       r.2 = opened ++ opened_from index segments (drop index fs) /\
       Forall (fun f => slen (contents f) <= MAX_SESSION_SEGMENT_BYTES /\
                 (contents f = ""%string \/ last_byte (contents f) = Some lf)) (drop index fs) /\
       (forall i f, drop index fs !! i = Some f -> S (index + i) <> count -> contents f <> ""%string))
    (holds fs nm).
Proof.
  revert index total opened. induction segments as [|segment segments IH]; intros index total opened Hlen.
  { destruct (drop index fs); [|discriminate]. apply runs_ret. intros d Hd. cbn. by rewrite app_nil_r. }
  destruct (drop index fs) as [|f rest] eqn:Ed; [discriminate|].
  assert (fs !! index = Some f) as Hf by (rewrite <- (Nat.add_0_r index), <- lookup_drop, Ed; done).
  assert (drop (S index) fs = rest) as Hrest by (pose proof (drop_S _ _ _ Hf); congruence).
  assert (forall A (m : eff Disk A), quiet m -> runs (holds fs nm) m (fun _ => holds fs nm) (holds fs nm)) as Hq.
  { intros A m Hm d Hd. destruct (Hm _ _ d Hd) as (H1 & H2 & _). by destruct (m d) as [d' []]. }
  cbn [open_segments]. eapply runs_bind; [apply Hq, quiet_guard|]. intros ?.
  eapply (runs_bind _ _ _ (fun n d => n = slen (contents f) /\ holds fs nm d)).
  { intros d Hd. unfold or_io, file_len. rewrite eff_bind_eq. destruct (io_fault _); [done|].
    split; [|done]. unfold contents_of. by rewrite (proj1 Hd), Hf. }
  intros n. apply runs_pure. intros ->.
  eapply (runs_bind _ _ _ (fun _ d => slen (contents f) <= MAX_SESSION_SEGMENT_BYTES /\ holds fs nm d)).
  { apply runs_lift; [by case_match| |done]. intros [] d H Hd. split; [|done].
    destruct (Z.ltb_spec MAX_SESSION_SEGMENT_BYTES (slen (contents f))); [discriminate|done]. }
  intros ?. apply runs_pure. intros Hmax.
  eapply (runs_bind _ _ _ (fun _ d => ((contents f = ""%string \/ last_byte (contents f) = Some lf) /\
    (S index <> count -> contents f <> ""%string)) /\ holds fs nm d)).
  { destruct (Z.eqb_spec (slen (contents f)) 0) as [H0|H0].
    - assert (contents f = ""%string) by (by destruct (contents f)).
      apply runs_lift; [by case_match| |done]. intros ? d Hb Hd. split; [|done]. split; [by left|]. intros Hi _.
      rewrite (proj2 (Nat.eqb_neq (S index) count)) in Hb by done. discriminate Hb.
    - eapply runs_bind; [apply Hq, quiet_or_io, quiet_file_call|]. intros ?.
      eapply runs_bind; [apply Hq, quiet_or_io, quiet_file_call|]. intros ?.
      eapply (runs_bind _ _ _ (fun b d => b = last_byte (contents f) /\ holds fs nm d)).
      { apply runs_reads. intros d Hd. split; [|done]. unfold contents_of. by rewrite (proj1 Hd), Hf. }
      intros b. apply runs_pure. intros ->. apply runs_lift; [by case_match| |done].
      intros ? d Hb Hd. split; [|done]. split; [|by intros _ E; rewrite E in H0]. right. destruct (decide (last_byte (contents f) = Some lf)) as [?|Hn]; [done|].
      rewrite bool_decide_eq_true_2 in Hb by done. discriminate Hb. }
  intros ?. apply runs_pure. intros [Hend Hne].
  eapply runs_weaken; [..|apply (IH (S index))]; cbv beta.
  - done.
  - intros [total' opened'] d (Hd & H1 & H2 & H3 & H4). rewrite Hrest in *. cbn in H1, H2.
    split_and!; [done|done| |by constructor|].
    2: { intros [|i] g Hg Hi; [injection Hg as <-; apply Hne; lia|]. apply (H4 i g Hg). lia. }
    cbn [snd]. rewrite H2, <- app_assoc. f_equal. unfold opened_from.
    cbn [zip zip_with imap app]. cbn. rewrite Nat.add_0_r. f_equal. apply imap_ext. intros i [p g] _. cbn. f_equal. lia.
  - done.
  - rewrite Hrest. cbn in Hlen. lia.
Qed.

Lemma opened_snoc segments path full cur :
  List.length segments = List.length full ->
  opened_from 0 (segments ++ [path]) (full ++ [cur]) =
    opened_from 0 segments full ++ [mkSealed (slen (contents cur)) (List.length full) path].
Proof.
  intros Hl. unfold opened_from. rewrite zip_with_app by done. rewrite imap_app. cbn. do 2 f_equal.
  rewrite length_zip_with, Hl. by rewrite Nat.min_id, Nat.add_0_r.
Qed.

Lemma opened_accounts index segments full :
  List.length segments = List.length full ->
  sealed_file <$> opened_from index segments full = seq index (List.length full) /\
  sealed_bytes <$> opened_from index segments full = slen ∘ contents <$> full.
Proof.
  revert index segments. induction full as [|f full IH]; intros index [|p segments]; try done. intros [= Hl].
  destruct (IH (S index) segments Hl) as [IH1 IH2]. unfold opened_from in *. cbn.
  rewrite Nat.add_0_r. rewrite <- IH1, <- IH2.
  assert (imap ((fun i '(segment, f) => mkSealed (slen (contents f)) (index + i) segment) ∘ S) (zip segments full)
    = imap (fun i '(segment, f) => mkSealed (slen (contents f)) (S index + i) segment) (zip segments full)) as ->.
  { apply imap_ext. intros i [q g] _. cbn. f_equal. lia. }
  done.
Qed.

Lemma inventory_sound d d' inventory :
  session_stream_inventory base lim d = (d', Ok inventory) ->
  exists full cur, files d = full ++ [cur] /\ holds (files d) (named d) d' /\
  inv_current_bytes inventory = slen (contents cur) /\ inv_current_ordinal inventory = len full + 1 /\
  inv_current_file inventory = List.length full /\
  sealed_file <$> inv_sealed_segments inventory = seq 0 (List.length full) /\
  sealed_bytes <$> inv_sealed_segments inventory = slen ∘ contents <$> full /\
  len full + 1 <= Z.max 1 (max_segments lim) /\ inv_total_bytes inventory <= max_total_bytes lim /\
  inv_total_bytes inventory = foldl (fun n s => sat_u64 (n + slen s)) 0 (contents <$> files d) /\
  Forall (fun f => slen (contents f) <= MAX_SESSION_SEGMENT_BYTES /\
            (contents f = ""%string \/ last_byte (contents f) = Some lf)) (files d) /\
  Forall (fun f => contents f <> ""%string) full.
Proof.
  intros E. unfold session_stream_inventory in E.
  apply eff_bind_Ok in E as (d1 & segments & Escan & E). unfold scan_files in Escan. injection Escan as <- Escan.
  apply scan_finds_files in Escan as [-> Hcount].
  destruct (exists_last (l := files d)) as (full & cur & Hfiles); [by intros E0; rewrite E0 in Hcount; destruct Hcount as [Hc _]; apply Hc|].
  assert (len (files d) = len full + 1) as Hlen by (rewrite Hfiles; unfold len; rewrite length_app; cbn; lia).
  exists full, cur. split; [done|].
  set (k := len (files d) - 1) in *. set (segments := base :: (segment base stem <$> seqZ 2 k)) in *.
  assert (List.length segments = List.length (files d)) as Hls.
  { unfold segments. cbn. rewrite length_fmap, length_seqZ. unfold k, len in *. lia. }
  apply eff_bind_Ok in E as (d2 & [total opened] & Eopen & E).
  pose proof (open_segments_runs (files d) (named d) (List.length segments) segments 0 0 [] Hls (next d)) as Ho.
  rewrite Eopen in Ho. destruct Ho as (Hd2 & H1 & H2 & H3 & H4); [done|]. rewrite drop_0 in *. cbn [fst snd app] in H1, H2.
  apply eff_bind_Ok in E as (d3 & [] & Elim & E). unfold lift in Elim.
  destruct (Z.ltb_spec (max_total_bytes lim) total); [discriminate|]. injection Elim as <-.
  destruct (exists_last (l := segments)) as (before & path & Esegs); [done|].
  rewrite Esegs, Hfiles in H2. rewrite opened_snoc in H2.
  2: { rewrite Esegs, Hfiles, !length_app in Hls. cbn in Hls. lia. }
  assert (List.length before = List.length full) as Hbefore.
  { rewrite Esegs, Hfiles, !length_app in Hls. cbn in Hls. lia. }
  rewrite H2, last_snoc, removelast_last in E. apply eff_bind_Ok in E as (d4 & current & Ecur & E).
  injection Ecur as <- <-. apply eff_bind_Ok in E as (d5 & [] & Eg & E). injection E as <- <-.
  assert (holds (files d) (named d) d5) as Hd5.
  { unfold guard in Eg. injection Eg as <- _. exact Hd2. }
  destruct (opened_accounts 0 before full Hbefore) as [A1 A2]. cbn.
  split_and!; [apply Hd5..|done| |done|done|done|lia|lia|done|done|]; [rewrite <- Hlen; unfold len; by rewrite Hls|].
  apply Forall_forall. intros f (i & Hi)%list_elem_of_lookup. pose proof (lookup_lt_Some _ _ _ Hi).
  apply (H4 i); [by rewrite Hfiles; apply lookup_app_l_Some|]. rewrite Hls, Hfiles, length_app. cbn. lia.
Qed.

(** What an appender that was opened knows of the files it found. *)
Record opened_on (a : SessionLogAppender) (full : list SegmentFile) (cur : SegmentFile) : Prop := mkOpenedOn {
  on_base : base_path a = base;
  on_limits : limits a = lim;
  on_file : file a = List.length full;
  on_ordinal : current_ordinal a = len full + 1;
  on_current : current_bytes a = slen (contents cur);
  on_sealed_files : sealed_file <$> sealed_segments a = seq 0 (List.length full);
  on_sealed_bytes : sealed_bytes <$> sealed_segments a = slen ∘ contents <$> full;
  on_total : total_bytes a = sum_lengths (contents <$> (full ++ [cur]));
  on_max_total : total_bytes a <= max_total_bytes lim;
  on_max_segments : len full + 1 <= Z.max 1 (max_segments lim);
  on_max_segment : Forall (fun f => slen (contents f) <= MAX_SESSION_SEGMENT_BYTES) (full ++ [cur]);
  on_nonempty : Forall (fun f => contents f <> ""%string) full;
  on_lines : Forall (fun f => contents f = ""%string \/ last_byte (contents f) = Some lf) (full ++ [cur]);
}.

Lemma opened_holds a full cur d :
  opened_on a full cur -> max_total_bytes lim < u64_max -> files d = full ++ [cur] ->
  Forall (fun f => durable_bytes f = slen (contents f)) full -> stream_holds (contents <$> files d) (mkStream a d).
Proof.
  intros [] Htotal Hfiles Hdurable. exists ((fun f => [contents f]) <$> full), [contents cur]. split.
  - exists a, full, cur, [], (named d). split; [by split|].
    rewrite fmap_app, sum_lengths_app in on_total0. cbn in on_total0. constructor; rewrite ?on_limits0; try done.
    + lia.
    + rewrite <- list_fmap_compose. apply list_fmap_ext. intros i f _. cbn. by rewrite app_string_nil_r.
    + cbn. by rewrite app_string_nil_r.
    + lia.
  - rewrite Hfiles, fmap_app. cbn. f_equal. clear. induction full as [|f full IH]; [done|]. cbn. by rewrite IH.
Qed.

Lemma open_with_stem d d' watch a :
  max_total_bytes lim < u64_max ->
  open_with_limits base lim watch d = (d', Ok a) ->
  exists full cur, files d = full ++ [cur] /\ files d' = files d /\ named d' = named d /\ opened_on a full cur /\
    (Forall (fun f => durable_bytes f = slen (contents f)) full ->
     stream_holds (contents <$> files d) (mkStream a d')).
Proof.
  intros Htotal E. unfold open_with_limits in E.
  apply eff_bind_Ok in E as (d1 & inventory & Einv & E).
  destruct (inventory_sound _ _ _ Einv) as (full & cur & Hfiles & Hd & I1 & I2 & I3 & I4 & I5 & I6 & I7 & I8 & I9 & I10).
  assert (a = mkAppender base (inv_current_bytes inventory) (inv_current_ordinal inventory)
             (inv_current_file inventory) watch lim (inv_sealed_segments inventory) (inv_total_bytes inventory)
    /\ holds (files d) (named d) d') as [Ha [Hd' Hn']].
  { unfold open_inventory in E. set (b := mkAppender _ _ _ _ _ _ _ _) in *.
    assert (triple (holds (files d) (named d)) (_ ← guard; _ ← guard; _ ← verify_current_segment b; mret b)
      (fun a => a = b)) as Ht.
    { eapply triple_bind; [apply quiet_guard|]. intros ? _. eapply triple_bind; [apply quiet_guard|]. intros ? _.
      eapply triple_bind; [apply quiet_verify|]. intros ? _. by apply triple_ret. }
    destruct (Ht d1 Hd) as (T1 & _ & T2). rewrite E in T1, T2. split; [by apply T2|done]. }
  rewrite sat_sum_exact in I8 by lia. rewrite Hfiles in *.
  assert (opened_on a full cur) as Hacc.
  { rewrite Ha. constructor; try done; (eapply Forall_impl; [exact I9|]); by intros f []. }
  exists full, cur. split_and!; [done..|]. intros Hdur. rewrite <- Hd'. by apply (opened_holds a full cur).
Qed.
End opening.

Lemma inventory_stem {K : Storage} base lim d d' inventory :
  session_stream_inventory base lim d = (d', Ok inventory) -> exists stem, segmented_jsonl_stem base = Ok stem.
Proof. intros (d1 & segments & [= _ E] & _)%eff_bind_Ok. by eapply files_stem. Qed.

(** C24: Opening: an appender that opens, under limits below the largest ordinal of a segment and
    the largest number of 64 bits, whatever the directory listed besides and however often, found every file of the stream and changed none; its account of them is exact, with
    their sizes and number within the limits, no earlier file empty, and each file empty or
    ended by a line feed.  If the earlier files are durable (to open does not sync them, the
    rotation that sealed them did), the stream satisfies the invariant of the appender, with the
    contents of the files as its records. *)
Theorem open_sound {K : Storage} base lim d d' watch a :
  max_segments lim < MAX_SEGMENT_ORDINAL -> max_total_bytes lim < u64_max ->
  open_with_limits base lim watch d = (d', Ok a) ->
  exists full cur, files d = full ++ [cur] /\ files d' = files d /\ named d' = named d /\ opened_on base lim a full cur /\
    (Forall (fun f => durable_bytes f = slen (contents f)) full ->
     stream_holds (contents <$> files d) (mkStream a d')).
Proof.
  intros Hs Ht E. assert (exists stem, segmented_jsonl_stem base = Ok stem) as [stem Hstem].
  { pose proof E as E'. unfold open_with_limits in E'. apply eff_bind_Ok in E' as (d1 & inventory & Einv & _).
    by eapply inventory_stem. }
  by eapply (open_with_stem base stem lim Hstem).
Qed.

Section calm.
Context {K : Storage} (base : AnchoredFile) (stem : string).
Context (Hstem : segmented_jsonl_stem base = Ok stem).

(** No errors, and no other entry that the scan of the stream would look at. *)
Record calm : Prop := mkCalm {
  calm_guard : forall n, guard_fault n = None;
  calm_io : forall n, io_fault n = None;
  calm_watch : forall n, watch_changed n = inl false;
  calm_entries : forall n, exists others, other_entries n = inl <$> others /\ NoDup (omap id others) /\
    len others < u64_max - MAX_SEGMENT_ORDINAL /\
    forall name, Some name ∈ others -> name <> stem +:+ JSONL_SUFFIX /\ ~ belongs stem name;
}.

Context (Hcalm : calm).

(** Runs that end without an error. *)
Abbreviation clean P m Q := (runs P m Q (fun _ => False)).

Lemma clean_guard fs nm : clean (holds fs nm) guard (fun _ => holds fs nm).
Proof. intros d Hd. unfold guard. by rewrite (calm_guard Hcalm). Qed.

Lemma clean_check_len fs nm path f sf :
  fs !! f = Some sf -> clean (holds fs nm) (check_len path f (slen (contents sf))) (fun _ => holds fs nm).
Proof.
  intros Hf d Hd. unfold check_len, or_io, file_len. rewrite !eff_bind_eq, (calm_io Hcalm). cbn.
  unfold contents_of. rewrite (proj1 Hd), Hf. cbn. by rewrite Z.eqb_refl.
Qed.

Lemma clean_verify_sealed fs nm full sealed index :
  sealed_file <$> sealed = seq index (List.length full) -> sealed_bytes <$> sealed = slen ∘ contents <$> full ->
  (exists before rest, fs = before ++ full ++ rest /\ List.length before = index) ->
  clean (holds fs nm) (verify_sealed sealed) (fun _ => holds fs nm).
Proof.
  revert index full. induction sealed as [|segment sealed IH]; intros index [|f full] H1 H2 (before & rest & Efs & Hi);
    try discriminate; cbn [verify_sealed]; [by apply runs_ret|].
  cbn in H1, H2. injection H1 as H1 H1'. injection H2 as H2 H2'.
  eapply runs_bind; [apply clean_guard|]. intros ?. eapply runs_bind.
  { rewrite H1, H2. apply clean_check_len. rewrite Efs, lookup_app_r by lia. rewrite Hi, Nat.sub_diag. done. }
  intros ?. apply (IH (S index) full); [done..|]. exists (before ++ [f]), rest.
  rewrite length_app. cbn. split; [by rewrite <- app_assoc|lia].
Qed.

Lemma omap_id_some (l : list string) k : omap id ((Some <$> l) ++ k) = l ++ omap id k.
Proof. induction l as [|x l IH]; [done|]. cbn. by rewrite <- IH. Qed.

Lemma numbered_NoDup n : n <= MAX_SEGMENT_ORDINAL -> NoDup (numbered_leaf stem <$> seqZ 2 (n - 1)).
Proof.
  intros Hn. assert (Forall (fun k => 0 <= k <= MAX_SEGMENT_ORDINAL) (seqZ 2 (n - 1))) as Hk.
  { apply Forall_forall. intros k Hk%elem_of_seqZ. lia. }
  pose proof (NoDup_seqZ 2 (n - 1)) as Hnd. induction Hnd as [|k ks Hin Hnd IH]; [constructor|].
  apply Forall_cons in Hk as [Hk Hks]. cbn. constructor; [|by apply IH].
  intros (j & E & Hj)%list_elem_of_fmap. rewrite Forall_forall in Hks. specialize (Hks j Hj).
  apply numbered_leaf_inj in E; [congruence|lia..].
Qed.

Lemma calm_listing d :
  (1 <= List.length (files d))%nat -> len (files d) <= MAX_SEGMENT_ORDINAL ->
  exists others, listing base d others /\ segments_upto stem ((Some <$> own_names base d) ++ others) (len (files d)).
Proof.
  intros H1 H2. destruct (calm_entries Hcalm (requests d)) as (others & Ho & Hnd & Hlen & Hother). exists others.
  pose proof (own_names_eq base stem Hstem d H1 H2) as Hown. split.
  - split_and!; [done| |].
    + rewrite omap_id_some, Hown. apply NoDup_app. split_and!; [| |done].
      * constructor; [|by apply numbered_NoDup]. intros (k & E & Hk%elem_of_seqZ)%list_elem_of_fmap.
        symmetry in E. apply numbered_not_base in E; [done|lia].
      * intros name Hin Hin'. apply list_elem_of_omap in Hin' as ([?|] & Hin' & [= ->]).
        destruct (Hother name Hin') as [Hb Hn]. apply elem_of_cons in Hin as [->|Hin]; [done|].
        apply list_elem_of_fmap in Hin as (k & -> & Hk%elem_of_seqZ). apply Hn, numbered_belongs. lia.
    + rewrite Hown. unfold len at 1. cbn [List.length]. rewrite length_fmap, length_seqZ.
      unfold u64_max, MAX_SEGMENT_ORDINAL, len in *. lia.
  - intros name. rewrite elem_of_app. split.
    + intros [[Hin|Hin] Hb]; [|by destruct (Hother name Hin)].
      apply list_elem_of_fmap in Hin as (x & [= ->] & Hin). rewrite Hown in Hin.
      apply elem_of_cons in Hin as [->|Hin]; [by destruct Hb|].
      apply list_elem_of_fmap in Hin as (k & -> & Hk%elem_of_seqZ). exists k. split; [lia|done].
    + intros (k & Hk & ->). split; [|by apply numbered_belongs; lia]. left. apply list_elem_of_fmap.
      eexists. split; [done|]. rewrite Hown. apply elem_of_cons. right. apply list_elem_of_fmap. exists k.
      split; [done|]. apply elem_of_seqZ. lia.
Qed.

Lemma clean_scan a fs nm :
  base_path a = base -> current_ordinal a = len fs -> (1 <= List.length fs)%nat ->
  len fs <= Z.max 1 (max_segments (limits a)) -> max_segments (limits a) <= MAX_SEGMENT_ORDINAL ->
  clean (holds fs nm) (scan_inventory a) (fun _ => holds fs nm).
Proof.
  intros Hb Ho H1 H2 H3 d Hd. unfold scan_inventory. rewrite Hb, Ho. pose proof Hd as [Hfiles _].
  assert (len (files d) <= MAX_SEGMENT_ORDINAL) as Hmax by (rewrite Hfiles; unfold MAX_SEGMENT_ORDINAL in *; lia).
  destruct (calm_listing d) as (others & Hl & Hu); [by rewrite Hfiles|done|]. rewrite Hfiles in Hu.
  pose proof Hl as (_ & Hnd & Hlen).
  rewrite (proj2 (verify_inventory_Ok (D := directory_at base d) base stem (limits a) _ Hstem
    (entries_listing base d others (calm_guard Hcalm _) Hl) Hnd H3 (len fs)
    ltac:(unfold len in *; rewrite length_app, length_fmap; lia))); [done|]. split; [|done]. unfold len in *. lia.
Qed.

Lemma path_Ok k : 1 <= k <= MAX_SEGMENT_ORDINAL -> exists path, segmented_jsonl_path base k = Ok path.
Proof.
  intros Hk. unfold segmented_jsonl_path. destruct (Z.eqb_spec k 1); [by eexists|]. rewrite Hstem.
  cbn [mbind result_bind]. unfold segmented_jsonl_leaf, in_range. replace (k =? 1) with false by lia.
  replace (2 <=? k) with true by lia. replace (k <=? MAX_SEGMENT_ORDINAL) with true by lia. by eexists.
Qed.

Section laid_out.
Context (a : SessionLogAppender) (full : list SegmentFile) (cur : SegmentFile).
Context (groups : list (list string)) (current : list string).
Context (L : layout a full cur [] groups current) (Hbase : base_path a = base).

Lemma clean_turn nm scan :
  clean (at_current full cur [] nm) (verify_turn a scan) (fun r d => is_Some r /\ at_current full cur [] nm d).
Proof using All.
  pose proof (layout_max_segments _ _ _ _ _ _ L) as Hm. pose proof (layout_max_ordinal _ _ _ _ _ _ L) as Hm'.
  assert (len (full ++ [cur]) = len full + 1) as Hlen by (unfold len; rewrite length_app; cbn; lia).
  assert (0 <= len full) by (unfold len; lia).
  unfold verify_turn, at_current. eapply (runs_bind _ _ _ (fun _ => holds (full ++ [cur]) nm)).
  { destruct scan; [|by apply runs_ret]. apply clean_scan; [done| |rewrite length_app; cbn; lia|lia|done].
    rewrite (layout_ordinal _ _ _ _ _ _ L). lia. }
  intros ?. eapply runs_bind.
  { apply (clean_verify_sealed _ _ full _ 0); [apply L..|]. by exists [], [cur]. }
  intros ?. unfold current_path. rewrite Hbase, (layout_ordinal _ _ _ _ _ _ L).
  destruct (path_Ok (len full + 1)) as (path & ->); [unfold MAX_SEGMENT_ORDINAL in *; lia|].
  eapply (runs_bind _ _ _ (fun _ => holds (full ++ [cur]) nm)); [by apply (runs_ret _ path)|].
  intros path'. do 2 (eapply runs_bind; [apply clean_guard|]; intros ?).
  rewrite (layout_file _ _ _ _ _ _ L), (layout_current _ _ _ _ _ _ L).
  eapply runs_bind; [apply clean_check_len, lookup_middle|]. intros ?.
  eapply (runs_bind _ _ _ (fun b d => b = false /\ holds (full ++ [cur]) nm d)).
  { destruct (watch_active a); [|by apply runs_ret]. intros d Hd. unfold ask_watch. by rewrite (calm_watch Hcalm). }
  intros b. apply runs_pure. intros ->. apply runs_ret. intros d Hd. split; [by eexists|done].
Qed.

Lemma clean_verify nm : clean (at_current full cur [] nm) (verify_current_segment a) (fun _ => at_current full cur [] nm).
Proof using All.
  unfold verify_current_segment. eapply (runs_bind _ _ _ (fun _ => at_current full cur [] nm)).
  { destruct (watch_active a); [|by apply runs_ret]. intros d Hd. unfold ask_watch. by rewrite (calm_watch Hcalm). }
  intros scan. eapply runs_bind; [apply clean_turn|]. intros r. apply runs_pure. intros [path ->]. by apply runs_ret.
Qed.

Lemma clean_verify_stream nm :
  clean (stream_at a full cur [] nm) (on_disk verify_current_segment) (fun _ => stream_at a full cur [] nm).
Proof using All.
  eapply runs_err; [|apply (on_disk_runs _ a _ (fun _ => at_current full cur [] nm)), clean_verify]. by intros s [_ []].
Qed.
End laid_out.

Lemma clean_disk {A} (m : SessionLogAppender -> eff Disk A) a full cur extra nm cur' extra' nm' :
  clean (at_current full cur extra nm) (m a) (fun _ => at_current full cur' extra' nm') ->
  clean (stream_at a full cur extra nm) (on_disk m) (fun _ => stream_at a full cur' extra' nm').
Proof.
  intros Hm. eapply runs_err; [|by apply (on_disk_runs _ a _ (fun _ => at_current full cur' extra' nm'))]. by intros s [_ []].
Qed.

(** The appender and the files after a rotation that found nothing wrong. *)
Definition settled (records : list string) (n : Z) (s : Stream) : Prop :=
  exists a full cur nm groups current,
    stream_at a full cur [] nm s /\ layout a full cur [] groups current /\ base_path a = base /\
    concat groups ++ current = records /\ current_bytes a + n <= MAX_SESSION_SEGMENT_BYTES /\
    total_bytes a + n <= max_total_bytes (limits a).

Lemma clean_rotate a full cur nm groups current n b :
  layout a full cur [] groups current -> base_path a = base -> 0 <= n ->
  session_stream_record_requires_rotation base (limits a) (current_bytes a) (current_ordinal a) (total_bytes a) n = Ok b ->
  clean (stream_at a full cur [] nm) (rotate_before n) (fun _ => settled (concat groups ++ current) n).
Proof.
  intros L Hb Hn Er. pose proof (layout_bounds _ _ _ _ _ _ L) as [Hb1 Hb2].
  destruct (requires_rotation_Ok _ _ _ _ _ _ _ Hn (conj (proj1 Hb1) Hb2)
    (conj (layout_max_total _ _ _ _ _ _ L) (layout_limit _ _ _ _ _ _ L)) Er) as (R1 & R2 & R3).
  unfold rotate_before. eapply runs_bind; [by eapply clean_verify_stream|]. intros path.
  eapply (runs_bind _ _ _ (fun r s => r = b /\ stream_at a full cur [] nm s)).
  { apply runs_reads. intros s Hs. pose proof Hs as [-> _]. by rewrite Hb, Er. }
  intros r. apply runs_pure. intros ->. destruct b; cbn [negb].
  2: { apply runs_ret. intros s Hs. exists a, full, cur, nm, groups, current. split_and!; try done. lia. }
  destruct R3 as [R3 R4]. pose proof (layout_synced _ _ _ _ _ _ L) as L1.
  pose proof (layout_max_ordinal _ _ _ _ _ _ L) as Hm'.
  assert (0 <= len full) by (unfold len; lia). pose proof (layout_ordinal _ _ _ _ _ _ L) as Hord.
  eapply (runs_bind _ _ _ (fun _ => stream_at a full (synced cur) [] nm)).
  { apply (clean_disk (fun a => or_io (sync_all (file a)))). rewrite (layout_file _ _ _ _ _ _ L).
    intros d Hd. pose proof (sync_all_runs full cur [] nm d Hd) as H'. unfold or_io, sync_all, file_call in *.
    rewrite eff_bind_eq in *. by rewrite (calm_io Hcalm) in *. }
  intros ?. eapply runs_bind; [by eapply clean_verify_stream|]. intros ?.
  eapply (runs_bind _ _ _ (fun k s => k = len full + 2 /\ stream_at a full (synced cur) [] nm s)).
  { apply runs_reads. intros s Hs. split; [|done]. pose proof Hs as [-> _].
    rewrite Hord, sat_u64_id; [lia|]. unfold in_u64, u64_max, MAX_SEGMENT_ORDINAL in *. lia. }
  intros k. apply runs_pure. intros ->. destruct (path_Ok (len full + 2)) as (next_path & Hp); [lia|].
  eapply runs_bind; [apply (clean_disk (fun a => lift (segmented_jsonl_path (base_path a) (len full + 2))) _ _ _ _ _
    (synced cur) [] nm); rewrite Hb, Hp; by apply (runs_ret _ next_path)|]. intros ?.
  set (new := mkSegmentFile "" 0).
  eapply runs_bind; [apply (clean_disk _ _ _ _ _ _ (synced cur) [new] nm)|].
  { intros d [H1 H2]. unfold reserve_new_anchored_file, guard. rewrite (calm_guard Hcalm), H1.
    destruct (Z.leb_spec (len full + 2) (len (full ++ [synced cur]))) as [Hle|_].
    { exfalso. unfold len in Hle. rewrite length_app in Hle. cbn in Hle. lia. }
    rewrite (calm_guard Hcalm). split; [|done]. cbn. by rewrite <- app_assoc. }
  intros ?. set (nm' := len (full ++ synced cur :: [new])).
  eapply runs_bind; [apply (clean_disk _ _ _ _ _ _ (synced cur) [new] nm')|].
  { intros d [H1 H2]. unfold sync_session_stream_parent. rewrite (calm_guard Hcalm). split; cbn; [done|by rewrite H1]. }
  intros ?. eapply runs_bind; [apply (clean_disk _ _ _ _ _ _ (synced cur) [new] nm'), clean_guard|]. intros ?.
  eapply runs_bind; [apply (clean_disk _ _ _ _ _ _ (synced cur) [new] nm'), clean_guard|]. intros ?.
  set (a' := rotated path (len full + 2) (Z.to_nat (len full + 2 - 1)) a).
  assert (layout a' (full ++ [synced cur]) new [] (groups ++ [current]) []) as L2.
  { apply layout_rotated; try done; [|unfold len; lia]. destruct L1; constructor; try done. by repeat constructor. }
  eapply (runs_bind _ _ _ (fun _ => stream_at a' (full ++ [synced cur]) new [] nm')).
  { intros s [Ha [H1 H2]]. cbn. split; [cbn; by rewrite Ha|]. unfold at_current, holds. by rewrite <- app_assoc. }
  intros ?. eapply runs_weaken; [..|apply (clean_verify_stream a' (full ++ [synced cur]) new (groups ++ [current]) [] L2 Hb nm')];
    cbv beta; [done| |done].
  intros ? s Hs. exists a', (full ++ [synced cur]), new, nm', (groups ++ [current]), [].
  split_and!; try done. rewrite concat_app. cbn. by rewrite !app_nil_r.
Qed.

Lemma clean_append_fitting path bytes records :
  clean (settled records (slen bytes)) (append_fitting path 0 [bytes]) (fun r _ => r = inl 1%nat).
Proof.
  intros s (a & full & cur & nm & groups & current & [Ha [H1 H2]] & L & Hb & E & R1 & R2).
  pose proof (layout_bounds _ _ _ _ _ _ L) as [Hb1 Hb2]. pose proof (layout_limit _ _ _ _ _ _ L) as Hlim.
  pose proof (slen_nonneg bytes). assert (MAX_SESSION_SEGMENT_BYTES < u64_max) by done.
  unfold append_fitting. rewrite eff_bind_eq. unfold reads. rewrite Ha.
  destruct (Z.ltb_spec MAX_SESSION_SEGMENT_BYTES (current_bytes a)); [lia|].
  assert (fitting (MAX_SESSION_SEGMENT_BYTES - current_bytes a) (total_bytes a) (max_total_bytes (limits a)) 0 [bytes]
    = (1%nat, slen bytes)) as ->.
  { cbn [fitting]. rewrite Z.add_0_l, !sat_u64_id by (unfold in_u64; lia).
    destruct (Z.ltb_spec (MAX_SESSION_SEGMENT_BYTES - current_bytes a) (slen bytes)); [lia|].
    destruct (Z.ltb_spec (max_total_bytes (limits a)) (total_bytes a + slen bytes)); [lia|]. done. }
  rewrite eff_bind_eq. cbn [lift]. rewrite eff_bind_eq. unfold on_disk, append_native_event_batch_with, seek_end, write_all.
  rewrite eff_bind_eq. unfold file_call. rewrite (calm_io Hcalm). rewrite eff_bind_eq, (calm_io Hcalm). done.
Qed.

Lemma clean_append_step event records s s1 path :
  attempt (rotate_before (slen event)) s = (s1, Ok (inl path)) -> settled records (slen event) s1 ->
  exists s', append event s = (s', Ok tt).
Proof.
  intros Er Hset. unfold append, append_batch. rewrite eff_bind_eq. cbn [List.length append_loop]. rewrite eff_bind_eq, Er.
  cbn beta iota. rewrite eff_bind_eq. pose proof (clean_append_fitting path event records s1 Hset) as Hf.
  destruct (append_fitting path 0 [event] s1) as [s2 [r|e|]]; [|done..]. cbv beta in Hf. subst r. cbn. by eexists.
Qed.

(** Progress: when the operating system reports no error and no other process adds members of
    the stream, a record is refused for the limits only.  A record that the limits admit is
    stored, in a new segment when the current one is full. *)
Theorem append_progress a full cur nm groups current s event b :
  stream_at a full cur [] nm s -> layout a full cur [] groups current -> base_path a = base ->
  session_stream_record_requires_rotation base (limits a) (current_bytes a) (current_ordinal a) (total_bytes a)
    (slen event) = Ok b ->
  exists s', append event s = (s', Ok tt) /\ stream_holds (concat groups ++ current ++ [event]) s'.
Proof.
  intros Hs L Hb Er.
  pose proof (clean_rotate a full cur nm groups current (slen event) b L Hb (slen_nonneg event) Er s Hs) as Hrot.
  destruct (rotate_before (slen event) s) as [s1 [path|e|]] eqn:E1; [|done..].
  destruct (clean_append_step event (concat groups ++ current) s s1 path) as (s' & E'); [unfold attempt; by rewrite E1|exact Hrot|].
  exists s'. split; [done|]. unfold append in E'. apply eff_bind_Ok in E' as (s2 & r & E2 & E3). injection E3 as <- E3.
  pose proof (append_batch_runs [event] (concat groups ++ current) s) as Ha. rewrite E2 in Ha.
  destruct r as [[]|failure]; [|discriminate]. rewrite app_assoc. apply Ha.
  exact (stream_at_holds _ _ _ _ _ _ _ _ _ L eq_refl Hs).
Qed.
End calm.
