(* ===== verification/Writer.v ===== *)
(** The event writer of a session ([flow-agent-core/src/runtime/serial_event_writer.rs],
    [event_writer.rs], the pairing of [context_persistence.rs]).  A worker thread takes commands
    from a bounded channel, collects small events into batches, validates, appends and
    synchronizes them and acknowledges each on a channel of its own; the client sends events,
    defers the acknowledgements of small ones, and reports every failure.

    The appender is used through its trait; the store of context manifests, the clock and the
    answers of the channels are parameters. *)

From Stdlib Require Import ZArith Lia Ascii String.
From stdpp Require Import base strings sorting sets option gmap countable list.
From S2P Require Import Prelude Decimal Sorting Metadata Json FlowValue Event Lifecycle Errors.
From S2P Require Import Validate OwnScript Context Appender.

Open Scope Z_scope.

(** * Interfaces *)

(** The trait [EventLogAppender]; [append_batch] is overridden by the appender of sessions. *)
Class EventLogAppender (A : Type) : Type := {
  log_append : string -> eff A unit;
  log_append_batch : list string -> eff A (unit + BatchAppendFailure);
  log_sync : eff A unit;
}.

#[export] Instance session_log_appender {K : Storage} : EventLogAppender Stream := {|
  log_append := append;
  log_append_batch := append_batch;
  log_sync := sync;
|}.

(** [ContextManifestWriter::persist] *)
Class ManifestStore (M : Type) : Type := {
  persist : ContextManifestCheckpoint -> eff M unit;
}.

(** * Constants, times in nanoseconds *)

Definition EVENT_WRITER_QUEUE_CAPACITY : Z := 64.
Definition EVENT_WRITER_BATCH_CAPACITY : Z := EVENT_WRITER_QUEUE_CAPACITY.
Definition EVENT_WRITER_BATCH_WINDOW : Z := 25 * 1000000.
Definition EVENT_WRITER_DIRTY_SYNC_INTERVAL : Z := 1000000000.

(** [now.checked_duration_since(started_at)] *)
Definition checked_duration_since (now started_at : Z) : option Z :=
  if started_at <=? now then Some (now - started_at) else None.

(** * Outcomes and queued events *)

Record WriterOutcome : Type := mkOutcome {
  appended : bool;
  outcome_error : option RuntimeError;
}.

Definition not_appended (error : option RuntimeError) : WriterOutcome := mkOutcome false error.
Definition failed_outcome (error : RuntimeError) : WriterOutcome := not_appended (Some error).

(** The acknowledgement channel is its number. *)
Record QueuedEvent : Type := mkQueued {
  acknowledgement : nat;
  queued_jsonl : string;
  queued_manifest : option ContextManifestCheckpoint;
  queued_event : EventEnvelope;
}.

Record FailedBatchPartition : Type := mkPartition {
  part_committed : list QueuedEvent;
  part_pending_error : option RuntimeError;
  part_rejected : list QueuedEvent;
  part_rejection_error : option RuntimeError;
}.

Definition partition_failed_batch (pending : list QueuedEvent) (committed : nat) (error : RuntimeError)
    : FailedBatchPartition + (list QueuedEvent * RuntimeError) :=
  if Nat.ltb (List.length pending) committed then inr (pending, error)
  else
    let rejected := drop committed pending in
    inl (if bool_decide (rejected = []) then mkPartition (take committed pending) (Some error) rejected None
         else mkPartition (take committed pending) None rejected (Some error)).

Definition event_writer_failure (source : RuntimeError) : RuntimeError := EventWriter source.

Definition writer_failures_result (failures : list RuntimeError) : result RuntimeError unit :=
  match failures with
  | [] => Ok tt
  | [failure] => Err failure
  | failures => Err (EventWriterFailures failures)
  end.

Definition discarded_after_writer_failure : RuntimeError :=
  Protocol "event discarded after a prior session writer failure".

Definition is_micro_batch_event (t : EventType) : bool :=
  match t with MessageDelta | ToolProgress => true | _ => false end.

Definition is_event_sync_checkpoint (t : EventType) : bool :=
  match t with
  | MessageCompleted | ToolCompleted | ToolFailed | ToolTimedOut | SessionPaused | SessionCompleted
  | SessionFailed => true
  | _ => false
  end.

(** ** Manifests go with completed messages ([context_persistence.rs]) *)

Inductive ContextManifestPairingError : Type := PairingMissing | PairingUnexpected.

Definition pairing_message (error : ContextManifestPairingError) : string :=
  match error with
  | PairingMissing => "message.completed requires its context manifest"
  | PairingUnexpected => "context manifests are only valid for message.completed"
  end.

Definition validate_context_manifest_pairing (t : EventType) (has_manifest : bool)
    : result ContextManifestPairingError unit :=
  match t, has_manifest with
  | MessageCompleted, true => Ok tt
  | MessageCompleted, false => Err PairingMissing
  | _, true => Err PairingUnexpected
  | _, false => Ok tt
  end.

(** * Dirty state and the pending batch *)

(** [DirtySyncState]: since when appended bytes wait for a [sync]. *)
Definition get_or_insert {A} (o : option A) (a : A) : option A := Some (default a o).

Definition dirty_is_due (dirty_since : option Z) (now : Z) : bool :=
  match dirty_since ≫= checked_duration_since now with
  | Some elapsed => EVENT_WRITER_DIRTY_SYNC_INTERVAL <=? elapsed
  | None => false
  end.

(** [Duration::saturating_sub] *)
Definition time_left (interval now started_at : Z) : Z :=
  Z.max 0 (interval - default 0 (checked_duration_since now started_at)).

Definition dirty_wait_timeout (dirty_since : option Z) (now : Z) : Z :=
  match dirty_since with
  | Some started_at => time_left EVENT_WRITER_DIRTY_SYNC_INTERVAL now started_at
  | None => EVENT_WRITER_DIRTY_SYNC_INTERVAL
  end.

Record PendingEventBatch : Type := mkBatch {
  batch_events : list QueuedEvent;
  started_at : option Z;
}.

Definition empty_batch : PendingEventBatch := mkBatch [] None.

Definition batch_push (b : PendingEventBatch) (now : Z) (event : QueuedEvent) : PendingEventBatch :=
  mkBatch (batch_events b ++ [event]) (get_or_insert (started_at b) now).

Definition batch_is_due (b : PendingEventBatch) (now : Z) : bool :=
  match started_at b ≫= checked_duration_since now with
  | Some elapsed => EVENT_WRITER_BATCH_WINDOW <=? elapsed
  | None => false
  end.

Definition batch_is_full (b : PendingEventBatch) : bool := len (batch_events b) =? EVENT_WRITER_BATCH_CAPACITY.

Definition batch_wait_timeout (b : PendingEventBatch) (now : Z) : option Z :=
  time_left EVENT_WRITER_BATCH_WINDOW now <$> started_at b.

(** * The worker's loop *)

Inductive SessionWriterCommand : Type := Commit (event : QueuedEvent) | Shutdown.

(** What [recv_timeout] returns. *)
Inductive Received : Type := Got (command : SessionWriterCommand) | Timeout | Disconnected.

(** The trait [SerialEventBackend].  The methods that read the clock take the reading. *)
Class SerialEventBackend (B : Type) : Type := {
  can_batch : B -> bool;
  commit_batch : Z -> list QueuedEvent -> eff B unit;
  backend_commit : Z -> QueuedEvent -> eff B unit;
  backend_tick : Z -> eff B unit;
  backend_wait_timeout : B -> Z -> Z;
  shutdown : eff B WriterOutcome;
  disconnected : eff B unit;
}.

Section loop.
Context {B : Type} {SB : SerialEventBackend B}.
(** The readings of [Instant::now()]. *)
Context (clock : nat -> Z).

(** The worker's variables, the number of readings, and the answer to [Shutdown]. *)
Record Worker : Type := mkWorkerState {
  backend : B;
  batch : PendingEventBatch;
  readings : nat;
  shutdown_reply : option WriterOutcome;
}.

Definition read_clock : eff Worker Z :=
  fun w => (mkWorkerState (backend w) (batch w) (S (readings w)) (shutdown_reply w), Ok (clock (readings w))).

Definition on_backend {A} (m : eff B A) : eff Worker A :=
  fun w => let '(b, r) := m (backend w) in (mkWorkerState b (batch w) (readings w) (shutdown_reply w), r).

Definition set_batch (b : PendingEventBatch) : eff Worker unit :=
  fun w => (mkWorkerState (backend w) b (readings w) (shutdown_reply w), Ok tt).

(** [backend.commit_batch(batch.take())] *)
Definition commit_pending : eff Worker unit :=
  events ← reads (fun w : Worker => Ok (batch_events (batch w)));
  _ ← set_batch empty_batch;
  now ← read_clock;
  on_backend (commit_batch now events).

(** [acknowledgement.send(backend.shutdown())] *)
Definition reply_shutdown (outcome : WriterOutcome) : eff Worker unit :=
  fun w => (mkWorkerState (backend w) (batch w) (readings w) (Some outcome), Ok tt).

(** How long [recv_timeout] waits. *)
Definition next_wait (w : Worker) (now : Z) : Z :=
  match batch_wait_timeout (batch w) now with
  | None => backend_wait_timeout (backend w) now
  | Some batch_timeout => Z.min batch_timeout (backend_wait_timeout (backend w) now)
  end.

(** One turn of the loop; [true] when it ends. *)
Definition turn (received : Received) : eff Worker bool :=
  now ← read_clock;
  due ← reads (fun w : Worker => Ok (batch_is_due (batch w) now));
  _ ← (if (due : bool) then commit_pending else mret tt);
  _ ← on_backend (backend_tick now);
  _ ← read_clock;
  match received with
  | Got (Commit event) =>
      batches ← reads (fun w : Worker =>
        Ok (is_micro_batch_event (event_type (queued_event event)) && can_batch (backend w)));
      _ ← (if (batches : bool) then
             now ← read_clock;
             b ← reads (fun w : Worker => Ok (batch_push (batch w) now event));
             _ ← set_batch b;
             if batch_is_full b then commit_pending else mret tt
           else
             _ ← commit_pending;
             now ← read_clock;
             on_backend (backend_commit now event));
      mret false
  | Got Shutdown =>
      _ ← commit_pending;
      outcome ← on_backend shutdown;
      _ ← reply_shutdown outcome;
      mret true
  | Timeout => mret false
  | Disconnected => _ ← commit_pending; _ ← on_backend disconnected; mret true
  end.

(** The loop on what the channel delivers; [false] when it still waits at the end of the list. *)
Fixpoint serial_event_writer_worker (inputs : list Received) : eff Worker bool :=
  match inputs with
  | [] => mret false
  | received :: inputs =>
      ended ← turn received;
      if (ended : bool) then mret true else serial_event_writer_worker inputs
  end.
End loop.

Arguments Worker B : clear implicits.

(** * The worker of a session *)

Section session.
Context {J : JsonEnv} {A M : Type} {EA : EventLogAppender A} {MS : ManifestStore M}.

(** [notified] are the sequences the notifier was told, when there is one; [sent] is what went
    out on the acknowledgement channels, in this order. *)
Record WriterWorker : Type := mkWriter {
  log : A;
  context_writer : M;
  dirty_since : option Z;
  notified : option (list (string * Z));
  pending_error : option RuntimeError;
  stopped : bool;
  sync_required : bool;
  validation : SessionAppendValidationState;
  sent : list (nat * WriterOutcome);
}.

Definition with_log (l : A) (w : WriterWorker) : WriterWorker :=
  mkWriter l (context_writer w) (dirty_since w) (notified w) (pending_error w) (stopped w) (sync_required w)
    (validation w) (sent w).
Definition with_context_writer (m : M) (w : WriterWorker) : WriterWorker :=
  mkWriter (log w) m (dirty_since w) (notified w) (pending_error w) (stopped w) (sync_required w)
    (validation w) (sent w).
Definition with_dirty (d : option Z) (w : WriterWorker) : WriterWorker :=
  mkWriter (log w) (context_writer w) d (notified w) (pending_error w) (stopped w) (sync_required w)
    (validation w) (sent w).
Definition with_pending_error (e : option RuntimeError) (w : WriterWorker) : WriterWorker :=
  mkWriter (log w) (context_writer w) (dirty_since w) (notified w) e (stopped w) (sync_required w)
    (validation w) (sent w).
Definition with_stopped (b : bool) (w : WriterWorker) : WriterWorker :=
  mkWriter (log w) (context_writer w) (dirty_since w) (notified w) (pending_error w) b (sync_required w)
    (validation w) (sent w).
Definition with_sync_required (b : bool) (w : WriterWorker) : WriterWorker :=
  mkWriter (log w) (context_writer w) (dirty_since w) (notified w) (pending_error w) (stopped w) b
    (validation w) (sent w).
Definition with_validation (v : SessionAppendValidationState) (w : WriterWorker) : WriterWorker :=
  mkWriter (log w) (context_writer w) (dirty_since w) (notified w) (pending_error w) (stopped w) (sync_required w)
    v (sent w).

Definition modify (f : WriterWorker -> WriterWorker) : eff WriterWorker unit := fun w => (f w, Ok tt).

Definition mark_dirty (now : Z) (w : WriterWorker) : WriterWorker :=
  with_dirty (get_or_insert (dirty_since w) now) w.

(** [acknowledgement.send(outcome)] *)
Definition acknowledge (event : QueuedEvent) (outcome : WriterOutcome) (w : WriterWorker) : WriterWorker :=
  mkWriter (log w) (context_writer w) (dirty_since w) (notified w) (pending_error w) (stopped w) (sync_required w)
    (validation w) (sent w ++ [(acknowledgement event, outcome)]).

Definition notify_committed (event : EventEnvelope) (w : WriterWorker) : WriterWorker :=
  mkWriter (log w) (context_writer w) (dirty_since w)
    ((fun l => l ++ [(session_id event, sequence event)]) <$> notified w)
    (pending_error w) (stopped w) (sync_required w) (validation w) (sent w).

(** A call on the log or on the store of manifests; the caller sees its error. *)
Definition on_log {X} (m : eff A X) : eff WriterWorker (X + RuntimeError) :=
  fun w =>
    match m (log w) with
    | (l, Ok x) => (with_log l w, Ok (inl x))
    | (l, Err e) => (with_log l w, Ok (inr e))
    | (l, Panic) => (with_log l w, Panic)
    end.

Definition on_context_writer (m : eff M unit) : eff WriterWorker (unit + RuntimeError) :=
  fun w =>
    match m (context_writer w) with
    | (c, Ok x) => (with_context_writer c w, Ok (inl x))
    | (c, Err e) => (with_context_writer c w, Ok (inr e))
    | (c, Panic) => (with_context_writer c w, Panic)
    end.

(** ** Batches *)

(** The first event of a rejected batch gets the error. *)
Definition reject_batch (events : list QueuedEvent) (error : RuntimeError) (w : WriterWorker) : WriterWorker :=
  match events with
  | [] => w
  | event :: events =>
      foldl (fun w e => acknowledge e (failed_outcome discarded_after_writer_failure) w)
        (acknowledge event (failed_outcome error) w) events
  end.

Definition acknowledge_batch (events : list QueuedEvent) (w : WriterWorker) : WriterWorker :=
  foldl (fun w e => acknowledge e (mkOutcome true None) (notify_committed (queued_event e) w)) w events.

(** [validate_batch]: the state keeps the events before the one that is refused. *)
Fixpoint validate_batch (v : SessionAppendValidationState) (events : list QueuedEvent)
    : SessionAppendValidationState * result RuntimeError unit :=
  match events with
  | [] => (v, Ok tt)
  | event :: events =>
      if is_some (queued_manifest event) then
        (v, Err (Protocol "micro-batched events cannot carry context manifests"))
      else
        match validate_constructed_event v (queued_event event) (slen (queued_jsonl event)) with
        | Ok v => validate_batch v events
        | Err e => (v, Err (Invalid e))
        | Panic => (v, Panic)
        end
  end.

Definition validate_pending (events : list QueuedEvent) : eff WriterWorker (unit + RuntimeError) :=
  fun w =>
    let '(v, r) := validate_batch (validation w) events in
    (with_validation v w,
     match r with Ok _ => Ok (inl tt) | Err e => Ok (inr e) | Panic => Panic end).

Definition reported_too_many (committed : nat) (batch_len : Z) (error_text : string) : RuntimeError :=
  Protocol ("session event appender reported " +:+ Z_to_string (Z.of_nat committed)
            +:+ " committed events for a batch of " +:+ Z_to_string batch_len +:+ ": " +:+ error_text).

(** [RuntimeError::to_string] *)
Context (error_text : RuntimeError -> string).

Definition reject_and_stop (events : list QueuedEvent) (error : RuntimeError) : eff WriterWorker unit :=
  modify (fun w => with_stopped true (reject_batch events error w)).

(** After a failed append: the committed events are acknowledged, the others rejected. *)
Definition settle_failed_batch (now : Z) (pending : list QueuedEvent) (failure : BatchAppendFailure)
    : eff WriterWorker unit :=
  match committed_events failure with
  | None => reject_and_stop pending (failure_error failure)
  | Some committed =>
      match partition_failed_batch pending committed (failure_error failure) with
      | inr (pending, error) =>
          reject_and_stop pending (reported_too_many committed (len pending) (error_text error))
      | inl partition =>
          modify (fun w =>
            let w := if bool_decide (part_committed partition = []) then w
                     else with_sync_required true (mark_dirty now w) in
            let w := with_pending_error (part_pending_error partition) (acknowledge_batch (part_committed partition) w) in
            let w := match part_rejection_error partition with
                     | Some error => reject_batch (part_rejected partition) error w
                     | None => w
                     end in
            with_stopped true w)
      end
  end.

Definition writer_commit_batch (now : Z) (pending : list QueuedEvent) : eff WriterWorker unit :=
  match pending with
  | [] => mret tt
  | _ =>
      error ← reads (fun w : WriterWorker => Ok (pending_error w));
      match (error : option RuntimeError) with
      | Some error => _ ← modify (with_pending_error None); reject_and_stop pending error
      | None =>
          valid ← validate_pending pending;
          match (valid : unit + RuntimeError) with
          | inr error => reject_and_stop pending error
          | inl _ =>
              r ← on_log (log_append_batch (queued_jsonl <$> pending));
              match (r : (unit + BatchAppendFailure) + RuntimeError) with
              | inl (inl _) =>
                  modify (fun w => acknowledge_batch pending (with_sync_required true (mark_dirty now w)))
              | inl (inr failure) => settle_failed_batch now pending failure
              | inr error => lift (Err error)
              end
          end
      end
  end.

(** ** Single events *)

Definition validate_single (event : QueuedEvent) : eff WriterWorker (unit + RuntimeError) :=
  fun w =>
    match validate_constructed_event (validation w) (queued_event event) (slen (queued_jsonl event)) with
    | Ok v => (with_validation v w, Ok (inl tt))
    | Err e => (w, Ok (inr (Invalid e)))
    | Panic => (w, Panic)
    end.

Definition commit_session_event (now : Z) (event : QueuedEvent) : eff WriterWorker WriterOutcome :=
  valid ← validate_single event;
  match (valid : unit + RuntimeError) with
  | inr error => mret (failed_outcome error)
  | inl _ =>
      match validate_context_manifest_pairing (event_type (queued_event event)) (is_some (queued_manifest event)) with
      | Err error => mret (failed_outcome (Protocol (pairing_message error)))
      | Panic => lift Panic
      | Ok _ =>
          persisted ← match queued_manifest event with
                      | Some manifest => on_context_writer (persist manifest)
                      | None => mret (inl tt)
                      end;
          match (persisted : unit + RuntimeError) with
          | inr error => mret (failed_outcome error)
          | inl _ =>
              r ← on_log (log_append (queued_jsonl event));
              match (r : unit + RuntimeError) with
              | inr error => mret (failed_outcome error)
              | inl _ =>
                  _ ← modify (mark_dirty now);
                  if is_event_sync_checkpoint (event_type (queued_event event)) then
                    r ← on_log log_sync;
                    match (r : unit + RuntimeError) with
                    | inr error => mret (mkOutcome true (Some error))
                    | inl _ => _ ← modify (with_dirty None); mret (mkOutcome true None)
                    end
                  else mret (mkOutcome true None)
              end
          end
      end
  end.

Definition writer_commit (now : Z) (event : QueuedEvent) : eff WriterWorker unit :=
  w ← reads (fun w : WriterWorker => Ok (stopped w, pending_error w));
  outcome ←
    (if (w : bool * option RuntimeError).1 then mret (failed_outcome discarded_after_writer_failure)
     else match w.2 with
          | Some error => _ ← modify (with_pending_error None); mret (failed_outcome error)
          | None => commit_session_event now event
          end);
  modify (fun w =>
    let w := if appended outcome
             then notify_committed (queued_event event) (with_sync_required (is_some (dirty_since w)) w) else w in
    let w := with_stopped (stopped w || is_some (outcome_error outcome)) w in
    acknowledge event outcome w).

(** ** Synchronization *)

Definition writer_tick (now : Z) : eff WriterWorker unit :=
  due ← reads (fun w : WriterWorker =>
    Ok (dirty_is_due (dirty_since w) now && negb (stopped w) && negb (is_some (pending_error w))));
  if (due : bool) then
    r ← on_log log_sync;
    _ ← modify (match (r : unit + RuntimeError) with
                | inl _ => with_sync_required false
                | inr error => with_pending_error (Some error)
                end);
    modify (with_dirty None)
  else mret tt.

Definition writer_shutdown : eff WriterWorker WriterOutcome :=
  w ← reads (fun w : WriterWorker => Ok (pending_error w, sync_required w));
  _ ← modify (with_pending_error None);
  let failures := option_list (w : option RuntimeError * bool).1 in
  failures ←
    (if w.2 then
       r ← on_log log_sync;
       match (r : unit + RuntimeError) with
       | inl _ => _ ← modify (fun w => with_sync_required false (with_dirty None w)); mret failures
       | inr error => mret (failures ++ [error])
       end
     else mret failures);
  mret (not_appended (match writer_failures_result failures with Err error => Some error | _ => None end)).

Definition writer_disconnected : eff WriterWorker unit :=
  required ← reads (fun w : WriterWorker => Ok (sync_required w));
  if (required : bool) then
    r ← on_log log_sync;
    match (r : unit + RuntimeError) with
    | inl _ => modify (fun w => with_sync_required false (with_dirty None w))
    | inr _ => mret tt
    end
  else mret tt.

#[export] Instance session_backend : SerialEventBackend WriterWorker := {|
  can_batch w := negb (stopped w);
  commit_batch := writer_commit_batch;
  backend_commit := writer_commit;
  backend_tick := writer_tick;
  backend_wait_timeout w now := dirty_wait_timeout (dirty_since w) now;
  shutdown := writer_shutdown;
  disconnected := writer_disconnected;
|}.

(** [session_writer_worker]: the worker before its first turn. *)
Definition session_writer_worker (v : SessionAppendValidationState) (l : A) (m : M) (notifier : bool)
    : Worker WriterWorker :=
  mkWorkerState (mkWriter l m None (if notifier then Some [] else None) None false false v []) empty_batch 0 None.
End session.

Arguments WriterWorker A M : clear implicits.
