(* ===== verification/WriterClient.v ===== *)
(** The client of the event writer ([SerialWriterClient] of
    [flow-agent-core/src/runtime/serial_event_writer.rs], [SerialSessionWriter] of
    [event_writer.rs]): events go out in order, the acknowledgements of small events are waited
    for later, every failure is reported once. *)

From Stdlib Require Import ZArith Lia Ascii String.
From stdpp Require Import base strings sorting sets option gmap countable list.
From S2P Require Import Prelude Decimal Sorting Metadata Json FlowValue Event Lifecycle Errors.
From S2P Require Import Validate OwnScript Context Appender Writer.

Open Scope Z_scope.

(** What the channels and the reservation answer. *)
Class Channels : Type := {
  (** whether the [n]-th [send] reaches the worker *)
  send_ok : nat -> bool;
  (** [recv] on the acknowledgement channel [n]; [None] when it was closed without a message *)
  recv : nat -> option WriterOutcome;
  (** [recv] on the channel of the shutdown *)
  recv_shutdown : option WriterOutcome;
  (** whether the worker ended without a panic *)
  join_ok : bool;
  (** an error of the [n]-th [SessionReservation::activate] *)
  activate_fault : nat -> option RuntimeError;
}.

Section client.
Context {H : Channels}.

(** [SerialWriterClient] and [SerialSessionWriter]: [deferred] are the channels to be waited
    for, [has_sender] and [has_worker] the two options.  [commands] is what was sent, [channels]
    and [activations] count. *)
Record Client : Type := mkClient {
  deferred : list nat;
  client_failed : bool;
  has_sender : bool;
  has_worker : bool;
  captured_jsonl : option string;
  has_reservation : bool;
  commands : list SessionWriterCommand;
  channels : nat;
  activations : nat;
}.

(** [start_with_appender]: a client with its worker running. *)
Definition new_client (reservation : bool) : Client := mkClient [] false true true None reservation [] 0 0.

Definition with_deferred (d : list nat) (c : Client) : Client :=
  mkClient d (client_failed c) (has_sender c) (has_worker c) (captured_jsonl c) (has_reservation c) (commands c)
    (channels c) (activations c).
Definition with_failed (b : bool) (c : Client) : Client :=
  mkClient (deferred c) b (has_sender c) (has_worker c) (captured_jsonl c) (has_reservation c) (commands c)
    (channels c) (activations c).
Definition with_captured (j : option string) (c : Client) : Client :=
  mkClient (deferred c) (client_failed c) (has_sender c) (has_worker c) j (has_reservation c) (commands c)
    (channels c) (activations c).

Definition change (f : Client -> Client) : eff Client unit := fun c => (f c, Ok tt).

Definition enable_jsonl_capture : eff Client unit := change (with_captured (Some ""%string)).

(** [sender.send(command)] *)
Definition send (command : SessionWriterCommand) : eff Client bool :=
  fun c =>
    if send_ok (List.length (commands c)) then
      (mkClient (deferred c) (client_failed c) (has_sender c) (has_worker c) (captured_jsonl c) (has_reservation c)
         (commands c ++ [command]) (channels c) (activations c), Ok true)
    else (c, Ok false).

Definition channel_closed_error : RuntimeError :=
  event_writer_failure (Protocol "session event writer channel closed unexpectedly").

(** [SessionReservation::activate], when there is a reservation. *)
Definition activate_reservation : eff Client (option RuntimeError) :=
  fun c =>
    if has_reservation c then
      (mkClient (deferred c) (client_failed c) (has_sender c) (has_worker c) (captured_jsonl c) (has_reservation c)
         (commands c) (channels c) (S (activations c)), Ok (activate_fault (activations c)))
    else (c, Ok None).

(** [apply_outcome]: its error, if any. *)
Definition apply_outcome (outcome : WriterOutcome) : eff Client (option RuntimeError) :=
  activated ← (if appended outcome then activate_reservation else mret None);
  let failures := option_list (activated : option RuntimeError)
                    ++ option_list (event_writer_failure <$> outcome_error outcome) in
  mret (match writer_failures_result failures with Err e => Some e | _ => None end).

(** [apply]: an error closes the client; the list of failures with it. *)
Definition apply (outcome : WriterOutcome) (failures : list RuntimeError) : eff Client (list RuntimeError) :=
  error ← apply_outcome outcome;
  match (error : option RuntimeError) with
  | Some error => _ ← change (with_failed true); mret (failures ++ [error])
  | None => mret failures
  end.

(** What [recv] returned is applied, or the channel was closed. *)
Definition settle (response : option WriterOutcome) (failures : list RuntimeError) : eff Client (list RuntimeError) :=
  match response with
  | Some outcome => apply outcome failures
  | None => mret (failures ++ [channel_closed_error])
  end.

Fixpoint settle_all (responses : list nat) (failures : list RuntimeError) : eff Client (list RuntimeError) :=
  match responses with
  | [] => mret failures
  | response :: responses =>
      failures ← settle (recv response) failures;
      settle_all responses failures
  end.

Definition take_deferred_failures : eff Client (list RuntimeError) :=
  responses ← reads (fun c : Client => Ok (deferred c));
  _ ← change (with_deferred []);
  settle_all responses [].

Definition drain_deferred : eff Client unit :=
  failures ← take_deferred_failures;
  lift (writer_failures_result failures).

(** [captured_jsonl.push_str(canonical_jsonl)] *)
Definition capture (jsonl : string) (c : Client) : Client :=
  with_captured ((fun captured => captured +:+ jsonl) <$> captured_jsonl c) c.

Definition closed_after_failure : RuntimeError :=
  event_writer_failure (Protocol "session event writer is closed after a prior failure").

(** [SerialWriterClient::commit] *)
Definition client_commit (event : QueuedEvent) (is_batchable : bool) : eff Client unit :=
  failed ← reads (fun c : Client => Ok (client_failed c));
  if (failed : bool) then lift (Err closed_after_failure)
  else
    full ← reads (fun c : Client => Ok (len (deferred c) =? EVENT_WRITER_BATCH_CAPACITY));
    _ ← (if is_batchable && (full : bool) then drain_deferred else mret tt);
    open ← reads (fun c : Client => Ok (has_sender c));
    if negb (open : bool) then lift (Err (Protocol "session event writer is already closed"))
    else
      reached ← send (Commit event);
      if negb (reached : bool) then
        failures ← take_deferred_failures;
        lift (writer_failures_result (failures ++ [channel_closed_error]))
      else
        _ ← change (capture (queued_jsonl event));
        if is_batchable then change (fun c => with_deferred (deferred c ++ [acknowledgement event]) c)
        else
          failures ← take_deferred_failures;
          failures ← settle (recv (acknowledgement event)) failures;
          lift (writer_failures_result failures).

(** [sync_channel(1)]: a new acknowledgement channel. *)
Definition new_channel : eff Client nat :=
  fun c => (mkClient (deferred c) (client_failed c) (has_sender c) (has_worker c) (captured_jsonl c) (has_reservation c)
              (commands c) (S (channels c)) (activations c), Ok (channels c)).

(** [RuntimeEventSink::commit] of the session writer. *)
Definition writer_commit_event (event : EventEnvelope) (canonical_jsonl : string)
    (context_manifest : option ContextManifestCheckpoint) : eff Client unit :=
  channel ← new_channel;
  client_commit (mkQueued channel canonical_jsonl context_manifest event) (is_micro_batch_event (event_type event)).

Definition take_sender : eff Client bool :=
  fun c => (mkClient (deferred c) (client_failed c) false (has_worker c) (captured_jsonl c) (has_reservation c) (commands c)
              (channels c) (activations c), Ok (has_sender c)).

(** [self.worker.take().expect(..)] *)
Definition take_worker : eff Client unit :=
  fun c => (mkClient (deferred c) (client_failed c) (has_sender c) false (captured_jsonl c) (has_reservation c) (commands c)
              (channels c) (activations c), if has_worker c then Ok tt else Panic).

Definition panicked_error : RuntimeError := event_writer_failure (Protocol "session event writer panicked").

(** [SerialWriterClient::finish], also run when the writer is dropped. *)
Definition finish : eff Client unit :=
  open ← take_sender;
  if negb (open : bool) then mret tt
  else
    reached ← send Shutdown;
    failures ← take_deferred_failures;
    let outcome := if (reached : bool) then recv_shutdown else None in
    let failures := if is_some outcome then failures else failures ++ [channel_closed_error] in
    _ ← take_worker;
    let failures := if join_ok then failures else failures ++ [panicked_error] in
    failures ← match outcome with Some outcome => apply outcome failures | None => mret failures end;
    lift (writer_failures_result failures).

(** A run of the sink: events in order, then [finish].  It stops at the first error, like its
    callers, which propagate it with [?]. *)
Fixpoint commit_all (events : list (EventEnvelope * string * option ContextManifestCheckpoint)) : eff Client unit :=
  match events with
  | [] => mret tt
  | (event, jsonl, manifest) :: events => _ ← writer_commit_event event jsonl manifest; commit_all events
  end.
End client.
