(* ===== verification/WriterTheory.v ===== *)
(** Theorems on the event writer: acknowledgements go out once and in order, the log holds
    exactly the acknowledged events, a refused event stops the writer, and a writer that ends
    without an error leaves all events durable.  They are proved against what the appender
    promises ([AppenderLaws]), which the session's appender keeps. *)

From Stdlib Require Import ZArith Lia Ascii String.
From stdpp Require Import base strings sorting sets option gmap countable list.
From S2P Require Import Prelude Decimal Sorting Metadata Json FlowValue Event Lifecycle Errors EffectTheory.
From S2P Require Import Validate ValidateTheory StreamProps OwnScript OwnScriptTheory Context ContextTheory Builder Planner.
From S2P Require Import Segments Appender AppenderTheory AppenderProps Writer.

Open Scope Z_scope.

(** * What an appender promises *)

Class AppenderLaws (A : Type) {EA : EventLogAppender A} : Type := {
  (** the log holds exactly these records, whole and in order *)
  log_holds : list string -> A -> Prop;
  (** these records survive a crash *)
  log_durable : list string -> A -> Prop;
  log_bytes : A -> string;
  holds_bytes : forall records a, log_holds records a -> log_bytes a = concat_bytes records;
  append_law : forall records bytes,
    runs (log_holds records) (log_append bytes) (fun _ => log_holds (records ++ [bytes]))
      (fun a => exists k, log_bytes a = concat_bytes records +:+ str_take k bytes);
  batch_law : forall records events,
    runs (log_holds records) (log_append_batch events)
      (fun r a => match r with
                  | inl _ => log_holds (records ++ events) a
                  | inr failure =>
                      match committed_events failure with
                      | Some n => (n <= List.length events)%nat /\ log_holds (records ++ take n events) a
                      | None => exists k, log_bytes a = concat_bytes records +:+ str_take k (concat_bytes events)
                      end
                  end) (fun _ => False);
  sync_law : forall records,
    runs (log_holds records) log_sync (fun _ a => log_holds records a /\ log_durable records a) (log_holds records);
  sync_bytes_law : forall b, runs (fun a => log_bytes a = b) log_sync (fun _ a => log_bytes a = b) (fun a => log_bytes a = b);
}.

(** ** The session's appender keeps them *)

Section session_appender.
Context {K : Storage}.

Lemma append_runs records bytes :
  runs (stream_holds records) (append bytes) (fun _ => stream_holds (records ++ [bytes]))
    (fun s => exists k, stream_bytes (disk s) = concat_bytes records +:+ str_take k bytes).
Proof.
  unfold append. eapply runs_bind; [eapply runs_err; [|apply append_batch_runs]; done|]. intros [[]|failure].
  - intros s Hs. exact Hs.
  - intros s Hs. cbn. unfold batch_result in Hs. assert (concat_bytes [bytes] = bytes) as E by apply app_string_nil_r.
    destruct (committed_events failure) as [n|].
    + destruct Hs as [Hn Hs]. rewrite (stream_holds_bytes _ _ Hs), concat_bytes_app.
      destruct n as [|[|n]]; cbn in Hn; [exists O; done| |lia].
      exists (String.length bytes). cbn. by rewrite app_string_nil_r, str_take_all.
    + destruct Hs as (k & Hs). exists k. by rewrite Hs, E.
Qed.

(** Contents stay when only what is durable, or the number of requests, changes. *)
Definition same_bytes (b : string) (d : Disk) : Prop := stream_bytes d = b.

Lemma quiet_same_bytes {A} (m : eff Disk A) b : quiet m -> runs (same_bytes b) m (fun _ => same_bytes b) (same_bytes b).
Proof.
  intros Hm d Hd. destruct (Hm _ _ d (conj eq_refl eq_refl)) as ([H1 _] & H2 & _).
  unfold same_bytes, stream_bytes in *. destruct (m d) as [d' []]; cbn in *; congruence.
Qed.

Lemma alter_contents (f : nat) (fs : list SegmentFile) :
  contents <$> alter (fun s => mkSegmentFile (contents s) (slen (contents s))) f fs = contents <$> fs.
Proof. revert f. induction fs as [|s fs IH]; intros [|f]; [done..|]. cbn. f_equal. apply IH. Qed.

Lemma sync_all_same_bytes f b : runs (same_bytes b) (or_io (sync_all f)) (fun _ => same_bytes b) (same_bytes b).
Proof.
  intros d Hd. unfold or_io, sync_all, file_call. rewrite eff_bind_eq. destruct (io_fault _); [done|].
  unfold same_bytes, stream_bytes in *. cbn. by rewrite alter_contents.
Qed.

Lemma on_disk_same_bytes {A} (m : SessionLogAppender -> eff Disk A) b :
  (forall a, runs (same_bytes b) (m a) (fun _ => same_bytes b) (same_bytes b)) ->
  runs (fun s => stream_bytes (disk s) = b) (on_disk m) (fun _ s => stream_bytes (disk s) = b)
    (fun s => stream_bytes (disk s) = b).
Proof.
  intros Hm s Hs. unfold on_disk. specialize (Hm (appender s) (disk s) Hs). by destruct (m _ _) as [d []].
Qed.

Lemma sync_same_bytes b :
  runs (fun s => stream_bytes (disk s) = b) sync (fun _ s => stream_bytes (disk s) = b) (fun s => stream_bytes (disk s) = b).
Proof.
  assert (runs (fun s => stream_bytes (disk s) = b) (on_disk verify_current_segment)
    (fun _ s => stream_bytes (disk s) = b) (fun s => stream_bytes (disk s) = b)) as Hv
    by (apply on_disk_same_bytes; intros a; apply quiet_same_bytes, quiet_verify).
  unfold sync. eapply runs_bind; [exact Hv|]. intros ?.
  eapply runs_bind; [apply (on_disk_same_bytes (fun a => or_io (sync_all (file a)))); intros a'; apply sync_all_same_bytes|].
  intros ?. eapply runs_bind; [apply on_disk_same_bytes|].
  { intros _ d Hd. unfold sync_session_stream_parent. by destruct (guard_fault _). }
  intros ?. eapply runs_bind; [exact Hv|]. intros ?. by apply runs_ret.
Qed.

#[export] Instance session_appender_laws : AppenderLaws Stream := {|
  log_holds := stream_holds;
  log_durable records s := durable_log (disk s) = concat_bytes records;
  log_bytes s := stream_bytes (disk s);
  holds_bytes := stream_holds_bytes;
  append_law := append_runs;
  batch_law records events := append_batch_runs events records;
  sync_law := sync_runs;
  sync_bytes_law := sync_same_bytes;
|}.
End session_appender.

(** * The worker of a session *)

Section worker.
Context {J : JsonEnv} {A M : Type} {EA : EventLogAppender A} {AL : AppenderLaws A} {MS : ManifestStore M}.
Context (error_text : RuntimeError -> string).
(** The store of manifests does not panic. *)
Context (Hpersist : forall cp m, (persist (M := M) cp m).2 <> Panic).
(** What the log holds at the start, and the state of the validator. *)
Context (records0 : list string) (v0 : SessionAppendValidationState).

Abbreviation W := (WriterWorker A M).
(** An event with the outcome it was acknowledged with. *)
Abbreviation Settled := (QueuedEvent * WriterOutcome)%type.

Definition acks (l : list Settled) : list (nat * WriterOutcome) := (fun x => (acknowledgement x.1, x.2)) <$> l.
Definition lines_of (l : list QueuedEvent) : list string := queued_jsonl <$> l.

(** The validator accepts the events one after the other. *)
Fixpoint validated (v : SessionAppendValidationState) (l : list QueuedEvent) (v' : SessionAppendValidationState) : Prop :=
  match l with
  | [] => v' = v
  | q :: l => exists v1, validate_constructed_event v (queued_event q) (slen (queued_jsonl q)) = Ok v1 /\ validated v1 l v'
  end.

Lemma validated_app v l k v' : validated v (l ++ k) v' <-> exists v1, validated v l v1 /\ validated v1 k v'.
Proof.
  revert v. induction l as [|q l IH]; intros v; cbn; [naive_solver|]. setoid_rewrite IH. naive_solver.
Qed.

Lemma validated_take v l v' n : validated v l v' -> exists v1, validated v (take n l) v1.
Proof. rewrite <- (take_drop n l) at 1. intros (v1 & H & _)%validated_app. by exists v1. Qed.

Lemma validate_batch_spec v l :
  match validate_batch v l with
  | (v', Ok _) => validated v l v'
  | (_, Err _) => True
  | (_, Panic) => False
  end.
Proof.
  revert v. induction l as [|q l IH]; intros v; cbn [validate_batch]; [done|].
  destruct (is_some (queued_manifest q)); [done|].
  destruct (validate_constructed_event v _ _) as [v1|e|] eqn:E; [|done|by apply constructed_event_no_panic in E].
  specialize (IH v1). destruct (validate_batch v1 l) as [v' [[]|e|]]; [|done..]. by exists v1.
Qed.

(** The notifier was told of exactly these events. *)
Definition told (good : list QueuedEvent) (w : W) : Prop :=
  match notified w with
  | None => True
  | Some l => l = (fun q => (session_id (queued_event q), sequence (queued_event q))) <$> good
  end.

(** A writer that runs: all events so far are stored, acknowledged without an error, and durable
    unless a [sync] is due. *)
Record running (good : list Settled) (w : W) : Prop := mkRunning {
  run_stopped : stopped w = false;
  run_sent : sent w = acks good;
  run_good : Forall (fun x => x.2 = mkOutcome true None) good;
  run_valid : validated v0 good.*1 (validation w);
  run_log : log_holds (records0 ++ lines_of good.*1) (log w);
  run_durable : sync_required w = false -> log_durable (records0 ++ lines_of good.*1) (log w);
  run_dirty : is_Some (dirty_since w) -> sync_required w = true;
  run_told : told good.*1 w;
}.

Definition refused (x : Settled) : Prop := appended x.2 = false /\ is_Some (outcome_error x.2).

(** A writer that stopped: the events are stored up to the first refused one, none after it;
    bytes of the refused ones may follow. *)
Record halted (good bad : list Settled) (w : W) : Prop := mkHalted {
  halt_stopped : stopped w = true;
  halt_sent : sent w = acks (good ++ bad);
  halt_good : Forall (fun x => appended x.2 = true) good;
  halt_bad : Forall refused bad;
  halt_valid : exists v, validated v0 good.*1 v;
  halt_bytes : exists k, Z.of_nat k <= slen (concat_bytes (lines_of bad.*1)) /\
    log_bytes (log w) = concat_bytes (records0 ++ lines_of good.*1) +:+ str_take k (concat_bytes (lines_of bad.*1));
  halt_told : told good.*1 w;
  halt_blamed : is_Some (pending_error w) \/ Exists (fun x => is_Some (outcome_error x.2)) (good ++ bad);
}.

(** The writer answered these events. *)
Definition serves (l : list QueuedEvent) (w : W) : Prop :=
  (exists good, running good w /\ good.*1 = l) \/ (exists good bad, halted good bad w /\ (good ++ bad).*1 = l).

(** ** Acknowledging *)

Definition with_sent (l : list (nat * WriterOutcome)) (n : option (list (string * Z))) (w : W) : W :=
  mkWriter (log w) (context_writer w) (dirty_since w) n (pending_error w) (stopped w) (sync_required w)
    (validation w) l.

Definition rejections (events : list QueuedEvent) (error : RuntimeError) : list Settled :=
  match events with
  | [] => []
  | event :: events =>
      (event, failed_outcome error) :: ((fun e => (e, failed_outcome discarded_after_writer_failure)) <$> events)
  end.

Lemma rejections_fst events error : (rejections events error).*1 = events.
Proof. destruct events as [|e events]; [done|]. cbn. f_equal. rewrite <- list_fmap_compose. by rewrite list_fmap_id. Qed.

Lemma rejections_refused events error : Forall refused (rejections events error).
Proof.
  destruct events as [|e events]; cbn; [constructor|]. constructor; [split; [done|by eexists]|].
  apply Forall_fmap, Forall_true. intros x. split; [done|by eexists].
Qed.

Lemma reject_batch_eq events error w :
  reject_batch events error w = with_sent (sent w ++ acks (rejections events error)) (notified w) w.
Proof.
  destruct events as [|e events]; cbn [reject_batch rejections]; [by rewrite app_nil_r; destruct w|].
  rewrite <- (app_nil_r (acks _)). change (acks (?x :: ?l)) with ((acknowledgement x.1, x.2) :: acks l). cbn [fst snd].
  assert (forall w l, foldl (fun w e => acknowledge e (failed_outcome discarded_after_writer_failure) w) w l =
    with_sent (sent w ++ acks ((fun e => (e, failed_outcome discarded_after_writer_failure)) <$> l)) (notified w) w) as H.
  { clear. intros w l. revert w. induction l as [|e l IH]; intros w; cbn [foldl].
    - cbn. rewrite app_nil_r. by destruct w.
    - rewrite IH. cbn. by rewrite <- app_assoc. }
  rewrite H. cbn. by rewrite <- app_assoc, app_nil_r.
Qed.

Definition accepted (events : list QueuedEvent) : list Settled := (fun e => (e, mkOutcome true None)) <$> events.

Lemma accepted_fst events : (accepted events).*1 = events.
Proof. unfold accepted. rewrite <- list_fmap_compose. by rewrite list_fmap_id. Qed.

Lemma acknowledge_batch_eq events (w : W) :
  acknowledge_batch events w =
    with_sent (sent w ++ acks (accepted events))
      ((fun l => l ++ ((fun q => (session_id (queued_event q), sequence (queued_event q))) <$> events)) <$> notified w) w.
Proof.
  revert w. unfold acknowledge_batch. induction events as [|e events IH]; intros w; cbn [foldl].
  - cbn. rewrite app_nil_r. destruct w as [? ? ? []]; cbn; unfold with_sent; cbn; by rewrite ?app_nil_r.
  - rewrite IH. unfold with_sent. cbn. rewrite <- app_assoc. f_equal. destruct (notified w); [|done]. cbn.
    by rewrite <- app_assoc.
Qed.

Lemma told_app good events (w : W) l :
  told good w -> told (good ++ events) (with_sent l
    ((fun l => l ++ ((fun q => (session_id (queued_event q), sequence (queued_event q))) <$> events)) <$> notified w) w).
Proof. unfold told. cbn. destruct (notified w); [|done]. intros ->. cbn. by rewrite fmap_app. Qed.

Lemma acks_app l k : acks (l ++ k) = acks l ++ acks k.
Proof. apply fmap_app. Qed.

Lemma lines_of_app l k : lines_of (l ++ k) = lines_of l ++ lines_of k.
Proof. apply fmap_app. Qed.

(** ** Batches *)

(** What a running writer keeps whatever becomes of its log. *)
Record kept (good : list Settled) (w : W) : Prop := mkKept {
  kept_sent : sent w = acks good;
  kept_good : Forall (fun x => x.2 = mkOutcome true None) good;
  kept_valid : exists v, validated v0 good.*1 v;
  kept_told : told good.*1 w;
}.

Lemma running_kept good w : running good w -> kept good w.
Proof. intros []. constructor; [done..| |done]. by eexists. Qed.

Lemma good_appended good : Forall (fun x : Settled => x.2 = mkOutcome true None) good -> Forall (fun x => appended x.2 = true) good.
Proof. intros Hg. eapply Forall_impl; [exact Hg|]. by intros x ->. Qed.

Lemma str_take_bounded k s : exists j, Z.of_nat j <= slen s /\ str_take k s = str_take j s.
Proof. exists (Nat.min k (String.length s)). rewrite str_take_min. split; [unfold slen; lia|done]. Qed.

(** Refusing a batch: its events stop the writer, and its bytes may be in the log in part. *)
Lemma reject_halts good w pending error k :
  kept good w -> pending <> [] ->
  log_bytes (log w) = concat_bytes (records0 ++ lines_of good.*1) +:+ str_take k (concat_bytes (lines_of pending)) ->
  halted good (rejections pending error) (with_stopped true (reject_batch pending error w)).
Proof.
  intros [] Hne Hb. rewrite reject_batch_eq. constructor; cbn; try done.
  - by rewrite acks_app, kept_sent0.
  - by apply good_appended.
  - apply rejections_refused.
  - rewrite rejections_fst, Hb. destruct (str_take_bounded k (concat_bytes (lines_of pending))) as (j & Hj & ->). by exists j.
  - right. apply Exists_app. right. destruct pending as [|q pending]; [done|]. cbn. left. by eexists.
Qed.

Lemma bytes_whole records (a : A) s :
  log_holds records a -> log_bytes a = concat_bytes records +:+ str_take 0 s.
Proof. intros Hh. rewrite (holds_bytes _ _ Hh). cbn. by rewrite app_string_nil_r. Qed.

(** A step that ends in a known state. *)
Lemma runs_modify P (f : W -> W) (Q : unit -> W -> Prop) X : (forall w, P w -> Q tt (f w)) -> runs P (modify f) Q X.
Proof. intros H w Hw. by apply H. Qed.

Lemma on_log_only {X} (m : eff A X) P Q E (w : W) :
  runs P m Q E -> P (log w) ->
  exists r l, on_log m w = (with_log l w, Ok r) /\ match r with inl x => Q x l | inr _ => E l end.
Proof.
  intros Hm Hw. unfold on_log. specialize (Hm (log w) Hw). destruct (m (log w)) as [l [x|e|]]; [|..|done].
  - by exists (inl x), l.
  - by exists (inr e), l.
Qed.

Lemma kept_log good l w : kept good w -> kept good (with_log l w).
Proof. by intros []. Qed.

Lemma settle_runs now good pending failure w :
  kept good w -> pending <> [] -> validated v0 (good.*1 ++ pending) (validation w) ->
  match committed_events failure with
  | Some n => (n <= List.length (lines_of pending))%nat /\
              log_holds ((records0 ++ lines_of good.*1) ++ take n (lines_of pending)) (log w)
  | None => exists k, log_bytes (log w) = concat_bytes (records0 ++ lines_of good.*1)
                        +:+ str_take k (concat_bytes (lines_of pending))
  end ->
  exists w', settle_failed_batch error_text now pending failure w = (w', Ok tt) /\ serves (good.*1 ++ pending) w'.
Proof.
  intros Hk Hne Hv Hc. unfold settle_failed_batch. destruct (committed_events failure) as [n|].
  2: { destruct Hc as (k & Hc). eexists. split; [done|]. right. exists good, (rejections pending (failure_error failure)).
       rewrite fmap_app, rejections_fst. split; [by eapply reject_halts|done]. }
  destruct Hc as [Hn Hc]. unfold lines_of in Hn. rewrite length_fmap in Hn. unfold partition_failed_batch.
  replace (Nat.ltb (List.length pending) n) with false by (symmetry; apply Nat.ltb_ge; lia).
  unfold lines_of in Hc at 2. rewrite <- fmap_take in Hc. fold (lines_of (take n pending)) in Hc.
  rewrite <- app_assoc, <- lines_of_app in Hc.
  assert (exists v, validated v0 (good.*1 ++ take n pending) v) as Hv'.
  { apply (validated_take _ _ _ (List.length good.*1 + n)) in Hv. by rewrite take_app_add in Hv. }
  destruct Hk as [Hsent Hgood _ Htold]. eexists. split; [reflexivity|]. right.
  exists (good ++ accepted (take n pending)), (rejections (drop n pending) (failure_error failure)).
  rewrite !fmap_app, accepted_fst, rejections_fst, <- app_assoc, take_drop. split; [|done].
  set (w1 := if bool_decide (take n pending = []) then w else with_sync_required true (mark_dirty now w)).
  assert (sent w1 = sent w /\ log w1 = log w /\ notified w1 = notified w) as (E1 & E2 & E3)
    by (unfold w1; by case_bool_decide).
  assert (told (good.*1 ++ take n pending) (with_sent (sent w1 ++ acks (accepted (take n pending)))
    ((fun l => l ++ ((fun q => (session_id (queued_event q), sequence (queued_event q))) <$> take n pending)) <$> notified w1) w1))
    as Htold' by (apply told_app; unfold told; by rewrite E3).
  assert (Forall (fun x => appended x.2 = true) (good ++ accepted (take n pending))) as Hgood'.
  { apply Forall_app. split; [by apply good_appended|]. by apply Forall_fmap, Forall_true. }
  case_bool_decide as Hd; cbn [part_committed part_pending_error part_rejection_error part_rejected].
  - rewrite Hd. cbn [rejections]. fold w1. rewrite acknowledge_batch_eq.
    constructor; cbn [with_stopped with_pending_error with_sent stopped sent log notified pending_error];
      rewrite ?fmap_app, ?accepted_fst; try done.
    + by rewrite app_nil_r, acks_app, E1, Hsent.
    + exists O. split; [done|]. rewrite E2. by apply bytes_whole.
    + left. by eexists.
  - fold w1. rewrite acknowledge_batch_eq, reject_batch_eq.
    constructor; cbn [with_stopped with_pending_error with_sent stopped sent log notified pending_error];
      rewrite ?fmap_app, ?accepted_fst; try done.
    + by rewrite !acks_app, E1, Hsent.
    + apply rejections_refused.
    + exists O. split; [apply slen_nonneg|]. rewrite E2. by apply bytes_whole.
    + right. apply Exists_app. right. destruct (drop n pending); [done|]. cbn. left. by eexists.
Qed.

Lemma commit_batch_serves now pending l w :
  serves l w -> stopped w = false \/ pending = [] ->
  exists w', writer_commit_batch error_text now pending w = (w', Ok tt) /\ serves (l ++ pending) w'.
Proof.
  intros Hw Hor. destruct (decide (pending = [])) as [->|Hne]; [rewrite app_nil_r; by exists w|].
  destruct Hor as [Hs|]; [|done]. destruct Hw as [(good & Hr & <-)|(good & bad & Hh & _)].
  2: { by rewrite (halt_stopped _ _ _ Hh) in Hs. }
  pose proof (running_kept _ _ Hr) as Hk. pose proof (run_log _ _ Hr) as Hlog.
  destruct pending as [|q rest] eqn:Ep; [done|]. cbn [writer_commit_batch]. rewrite <- Ep in *. clear Ep q rest.
  rewrite eff_bind_eq. unfold reads. destruct (pending_error w) as [e|].
  { eexists. split; [done|]. right. exists good, (rejections pending e).
    rewrite fmap_app, rejections_fst. split; [|done]. apply (reject_halts _ _ _ _ O); [by destruct Hk|done|].
    by apply bytes_whole. }
  rewrite eff_bind_eq. unfold validate_pending. pose proof (validate_batch_spec (validation w) pending) as Hv.
  destruct (validate_batch (validation w) pending) as [v [[]|e|]]; [| |done].
  2: { eexists. split; [done|]. right. exists good, (rejections pending e).
       rewrite fmap_app, rejections_fst. split; [|done]. apply (reject_halts _ _ _ _ O); [by destruct Hk|done|].
       by apply bytes_whole. }
  rewrite eff_bind_eq. change (queued_jsonl <$> pending) with (lines_of pending).
  destruct (on_log_only _ _ _ _ (with_validation v w) (batch_law _ (lines_of pending)) Hlog)
    as (r & a & -> & Hr').
  assert (validated v0 (good.*1 ++ pending) v) as Hvv by (apply validated_app; eexists; split; [apply Hr|done]).
  destruct r as [[[]|failure]|e]; [| |done].
  - eexists. split; [done|]. left. exists (good ++ accepted pending). rewrite fmap_app, accepted_fst. split; [|done].
    rewrite acknowledge_batch_eq. destruct Hr. rewrite <- app_assoc, <- lines_of_app in Hr'.
    constructor; cbn; rewrite ?fmap_app, ?accepted_fst; try done.
    + by rewrite acks_app, run_sent0.
    + apply Forall_app. split; [done|]. by apply Forall_fmap, Forall_true.
    + exact (told_app _ pending w [] run_told0).
  - destruct (settle_runs now good pending failure (with_log a (with_validation v w))) as (w' & E & Hw');
      [by destruct Hk|done|done|exact Hr'|]. by exists w'.
Qed.

(** ** Single events *)

Lemma persist_safe (o : option ContextManifestCheckpoint) (w : W) :
  exists r m, match o with Some manifest => on_context_writer (persist manifest) | None => mret (inl tt) end w
    = (with_context_writer m w, Ok r).
Proof.
  destruct o as [cp|]; [|exists (inl tt), (context_writer w); by destruct w]. unfold on_context_writer.
  pose proof (Hpersist cp (context_writer w)). destruct (persist cp (context_writer w)) as [m [[]|e|]]; cbn in *;
    [by exists (inl tt), m|by exists (inr e), m|done].
Qed.

(** The two ways a commit ends: refused, with part of its bytes in the log at most; or stored,
    and durable if nothing is left dirty. *)
Definition commit_ends (good : list Settled) (q : QueuedEvent) (o : WriterOutcome) (w : W) : Prop :=
  stopped w = false /\
  ((exists e k, o = failed_outcome e /\ kept good w /\
      log_bytes (log w) = concat_bytes (records0 ++ lines_of good.*1) +:+ str_take k (queued_jsonl q)) \/
   (appended o = true /\ kept good w /\ validated v0 (good.*1 ++ [q]) (validation w) /\
    log_holds (records0 ++ lines_of (good.*1 ++ [q])) (log w) /\
    (dirty_since w = None -> log_durable (records0 ++ lines_of (good.*1 ++ [q])) (log w)))).

Lemma commit_event_ends now q good w :
  running good w -> exists w' o, commit_session_event now q w = (w', Ok o) /\ commit_ends good q o w'.
Proof.
  intros Hr. pose proof (running_kept _ _ Hr) as Hk. pose proof (run_log _ _ Hr) as Hlog.
  pose proof (run_stopped _ _ Hr) as Hs. pose proof (bytes_whole _ _ (queued_jsonl q) Hlog) as Hbytes.
  unfold commit_session_event. rewrite eff_bind_eq. unfold validate_single.
  destruct (validate_constructed_event _ _ _) as [v|e|] eqn:Ev; [| |by apply constructed_event_no_panic in Ev].
  2: { eexists _, _. split; [done|]. split; [done|]. left. by exists (Invalid e), O. }
  set (w1 := with_validation v w). assert (kept good w1) as Hk1 by (by destruct Hk).
  assert (validated v0 (good.*1 ++ [q]) v) as Hvv.
  { apply validated_app. exists (validation w). split; [apply Hr|]. by exists v. }
  destruct (validate_context_manifest_pairing _ _) as [[]|e|] eqn:Ep; [|..].
  2: { eexists _, _. split; [done|]. split; [done|]. left. by eexists _, O. }
  2: { by destruct (event_type (queued_event q)), (is_some (queued_manifest q)). }
  rewrite eff_bind_eq. destruct (persist_safe (queued_manifest q) w1) as (r & m & ->).
  set (w2 := with_context_writer m w1). assert (kept good w2) as Hk2 by (by destruct Hk1).
  destruct r as [[]|e]; [|eexists _, _; split; [done|]; split; [done|]; left; by exists e, O].
  rewrite eff_bind_eq. destruct (on_log_only _ _ _ _ w2 (append_law _ (queued_jsonl q)) Hlog) as (r & a & -> & Hr').
  assert (kept good (with_log a w2)) as Hk3 by (by apply kept_log).
  destruct r as [[]|e].
  2: { destruct Hr' as (k & Hb). eexists _, _. split; [done|]. split; [done|]. left. by exists e, k. }
  rewrite <- app_assoc in Hr'. change [queued_jsonl q] with (lines_of [q]) in Hr'. rewrite <- lines_of_app in Hr'.
  rewrite eff_bind_eq. unfold modify. set (w3 := mark_dirty now (with_log a w2)).
  assert (kept good w3) as Hk4 by (by destruct Hk3).
  destruct (is_event_sync_checkpoint _).
  2: { eexists _, _. split; [done|]. split; [done|]. right. by split_and!. }
  rewrite eff_bind_eq. destruct (on_log_only _ _ _ _ w3 (sync_law _) Hr') as (r & a' & -> & Hr'').
  assert (kept good (with_log a' w3)) as Hk5 by (by apply kept_log).
  destruct r as [[]|e]; eexists _, _; (split; [done|]); (split; [done|]); right.
  - destruct Hr'' as [Hh Hd]. split_and!; [done|by destruct Hk5|done..].
  - by split_and!.
Qed.

Lemma str_take_app_le n s t : (n <= String.length s)%nat -> str_take n (s +:+ t) = str_take n s.
Proof.
  revert s. induction n as [|n IH]; intros [|c s] Hn; cbn in *; try done; [lia|]. by rewrite IH by lia.
Qed.

Lemma halted_more good bad q e w :
  halted good bad w -> halted good (bad ++ [(q, failed_outcome e)]) (with_sent (sent w ++ acks [(q, failed_outcome e)]) (notified w) w).
Proof.
  intros []. constructor; cbn; try done.
  - by rewrite app_assoc, acks_app, halt_sent0.
  - apply Forall_app. split; [done|]. constructor; [split; [done|by eexists]|constructor].
  - destruct halt_bytes0 as (k & Hk & Hb). exists k. rewrite fmap_app, lines_of_app, concat_bytes_app, slen_app.
    pose proof (slen_nonneg (concat_bytes (lines_of [(q, failed_outcome e)].*1))). split; [lia|].
    rewrite Hb, str_take_app_le by (unfold slen in Hk; lia). done.
  - destruct halt_blamed0 as [?|Hx]; [by left|right]. rewrite app_assoc. apply Exists_app. by left.
Qed.

Lemma commit_serves now q l w :
  serves l w -> exists w', writer_commit now q w = (w', Ok tt) /\ serves (l ++ [q]) w'.
Proof.
  intros [(good & Hr & <-)|(good & bad & Hh & <-)]; unfold writer_commit; rewrite eff_bind_eq; unfold reads.
  2: { rewrite (halt_stopped _ _ _ Hh). eexists. split; [done|]. right.
       exists good, (bad ++ [(q, failed_outcome discarded_after_writer_failure)]).
       split; [|by rewrite app_assoc, fmap_app].
       eapply (halted_more _ _ q discarded_after_writer_failure) in Hh as Hm. revert Hm.
       match goal with |- halted _ _ ?w1 -> halted _ _ ?w2 => replace w2 with w1; [done|] end.
       unfold with_sent, acknowledge, with_stopped. cbn. by rewrite (halt_stopped _ _ _ Hh). }
  rewrite (run_stopped _ _ Hr). cbn [fst snd]. pose proof (running_kept _ _ Hr) as Hk.
  pose proof (run_log _ _ Hr) as Hlog. destruct (pending_error w) as [e|].
  { eexists. split; [done|]. right. exists good, [(q, failed_outcome e)]. split; [|by rewrite fmap_app].
    destruct Hk. constructor; cbn; try done.
    - by rewrite orb_true_r.
    - by rewrite acks_app, kept_sent0.
    - by apply good_appended.
    - constructor; [split; [done|by eexists]|constructor].
    - exists O. split; [apply slen_nonneg|]. by apply bytes_whole.
    - right. apply Exists_app. right. left. by eexists. }
  rewrite eff_bind_eq. destruct (commit_event_ends now q good w Hr) as (w1 & o & -> & Hs & Hcase).
  eexists. split; [done|]. destruct Hcase as [(e & k & -> & Hk1 & Hb)|(Ho & Hk1 & Hv & Hh & Hd)].
  - right. exists good, [(q, failed_outcome e)]. split; [|by rewrite fmap_app].
    destruct Hk1. constructor; cbn; try done.
    + by rewrite orb_true_r.
    + by rewrite acks_app, kept_sent0.
    + by apply good_appended.
    + constructor; [split; [done|by eexists]|constructor].
    + rewrite app_string_nil_r, Hb. destruct (str_take_bounded k (queued_jsonl q)) as (j & Hj & ->). by exists j.
    + right. apply Exists_app. right. left. by eexists.
  - rewrite Ho. destruct Hk1 as [K1 K2 K3 K4].
    assert (told (good.*1 ++ [q]) (with_sent (acks (good ++ [(q, o)]))
      ((fun l => l ++ ((fun q => (session_id (queued_event q), sequence (queued_event q))) <$> [q])) <$> notified w1) w1))
      as Ht by (by apply told_app).
    destruct (outcome_error o) as [e|] eqn:Ee.
    + right. exists (good ++ [(q, o)]), []. rewrite app_nil_r, fmap_app. split; [|done].
      constructor; cbn; rewrite ?app_nil_r, ?fmap_app; try done.
      * by rewrite orb_true_r.
      * by rewrite acks_app, K1.
      * apply Forall_app. split; [by apply good_appended|]. by repeat constructor.
      * by eexists.
      * exists O. split; [done|]. by apply bytes_whole.
      * right. apply Exists_app. right. left. cbn. rewrite Ee. by eexists.
    + left. exists (good ++ [(q, o)]). rewrite fmap_app. split; [|done].
      assert (o = mkOutcome true None) as -> by (destruct o; cbn in *; congruence).
      constructor; cbn; rewrite ?fmap_app; try done.
      * by rewrite Hs.
      * by rewrite acks_app, K1.
      * apply Forall_app. split; [done|]. by repeat constructor.
      * intros Hn. apply Hd. by destruct (dirty_since w1).
      * by intros [z ->].
Qed.

(** ** Synchronization *)

Lemma tick_serves now l w : serves l w -> exists w', writer_tick now w = (w', Ok tt) /\ serves l w'.
Proof.
  intros [(good & Hr & <-)|(good & bad & Hh & <-)]; unfold writer_tick; rewrite eff_bind_eq; unfold reads.
  2: { rewrite (halt_stopped _ _ _ Hh), andb_false_r. exists w. split; [done|]. right. by exists good, bad. }
  rewrite (run_stopped _ _ Hr), andb_true_r.
  destruct (dirty_is_due (dirty_since w) now) eqn:Ed; cbn [andb]; [|exists w; split; [done|]; left; by exists good].
  destruct (is_some (pending_error w)) eqn:Ep; cbn [negb]; [exists w; split; [done|]; left; by exists good|].
  assert (sync_required w = true) as Hs.
  { apply (run_dirty _ _ Hr). unfold dirty_is_due in Ed. destruct (dirty_since w); [by eexists|done]. }
  rewrite eff_bind_eq. destruct (on_log_only _ _ _ _ w (sync_law _) (run_log _ _ Hr)) as (r & a & -> & Hr').
  destruct Hr. destruct r as [[]|e]; eexists; (split; [done|]); left; exists good; (split; [|done]).
  - destruct Hr' as [Hh Hd]. constructor; cbn; done.
  - constructor; cbn; try done. congruence.
Qed.

Lemma disconnected_serves l w : serves l w -> exists w', writer_disconnected w = (w', Ok tt) /\ serves l w'.
Proof.
  intros Hw. unfold writer_disconnected. rewrite eff_bind_eq. unfold reads.
  destruct (sync_required w) eqn:Es; [|by exists w]. rewrite eff_bind_eq.
  destruct Hw as [(good & Hr & <-)|(good & bad & Hh & <-)].
  - destruct (on_log_only _ _ _ _ w (sync_law _) (run_log _ _ Hr)) as (r & a & -> & Hr').
    destruct Hr. destruct r as [[]|e]; eexists; (split; [done|]); left; exists good; (split; [|done]).
    + destruct Hr' as [Hh Hd]. constructor; cbn; done.
    + constructor; cbn; try done. congruence.
  - destruct (on_log_only _ _ _ _ w (sync_bytes_law _) eq_refl) as (r & a & -> & Hr'). destruct Hh.
    destruct r as [[]|e]; eexists; (split; [done|]); right; exists good, bad; (split; [|done]);
      constructor; cbn; try done; by rewrite Hr'.
Qed.

(** A writer that answered [Shutdown] with [o]. *)
Record closed (l : list QueuedEvent) (o : WriterOutcome) (good bad : list Settled) (w : W) : Prop := mkClosed {
  closed_outcome : appended o = false;
  closed_events : (good ++ bad).*1 = l;
  closed_sent : sent w = acks (good ++ bad);
  closed_good : Forall (fun x => appended x.2 = true) good;
  closed_bad : Forall refused bad;
  closed_valid : exists v, validated v0 good.*1 v;
  closed_bytes : exists k, log_bytes (log w) = concat_bytes (records0 ++ lines_of good.*1)
    +:+ str_take k (concat_bytes (lines_of bad.*1));
  closed_told : told good.*1 w;
  closed_durable : outcome_error o = None -> Forall (fun x => outcome_error x.2 = None) (good ++ bad) ->
    log_holds (records0 ++ lines_of l) (log w) /\ log_durable (records0 ++ lines_of l) (log w);
}.

Lemma shutdown_closes l w :
  serves l w -> exists w' o good bad, writer_shutdown w = (w', Ok o) /\ closed l o good bad w'.
Proof.
  intros Hw. unfold writer_shutdown. rewrite eff_bind_eq. unfold reads. rewrite eff_bind_eq. unfold modify. cbn [fst snd].
  destruct Hw as [(good & Hr & <-)|(good & bad & Hh & <-)].
  - assert (forall w' o, appended o = false -> sent w' = sent w -> notified w' = notified w ->
      log_holds (records0 ++ lines_of good.*1) (log w') ->
      (outcome_error o = None -> log_durable (records0 ++ lines_of good.*1) (log w')) -> closed good.*1 o good [] w') as Hfin.
    { intros w' o H0 H1 H2 H3 H4. destruct Hr. constructor; rewrite ?app_nil_r; try done.
      - congruence.
      - by apply good_appended.
      - by eexists.
      - exists O. by apply bytes_whole.
      - unfold told in *. by rewrite H2.
      - intros Ho _. split; [done|by apply H4]. }
    rewrite eff_bind_eq. destruct (sync_required w) eqn:Es.
    + rewrite eff_bind_eq.
      destruct (on_log_only _ _ _ _ (with_pending_error None w) (sync_law _) (run_log _ _ Hr)) as (r & a & -> & Hr').
      destruct r as [[]|e]; eexists _, _, good, []; (split; [done|]); apply Hfin; try done.
      * by destruct Hr'.
      * intros _. by destruct Hr'.
      * cbn. by destruct (pending_error w).
    + eexists _, _, good, []. split; [done|]. apply Hfin; try done; [apply Hr|]. intros _. by apply Hr.
  - assert (forall w' o, appended o = false -> sent w' = sent w -> notified w' = notified w ->
      log_bytes (log w') = log_bytes (log w) -> (is_Some (pending_error w) -> outcome_error o <> None) ->
      closed (good ++ bad).*1 o good bad w') as Hfin.
    { intros w' o H0 H1 H2 H3 H4. destruct Hh. constructor; try done.
      - congruence.
      - destruct halt_bytes0 as (k & _ & Hk). exists k. congruence.
      - unfold told in *. by rewrite H2.
      - intros Ho Hall. exfalso. destruct halt_blamed0 as [Hp|Hx]; [by apply H4 in Hp|].
        apply Exists_exists in Hx as (x & Hx & [e He]). rewrite Forall_forall in Hall.
        specialize (Hall x Hx). cbn in *. congruence. }
    rewrite eff_bind_eq. destruct (sync_required w) eqn:Es.
    + rewrite eff_bind_eq.
      destruct (on_log_only _ _ _ _ (with_pending_error None w) (sync_bytes_law _) eq_refl) as (r & a & -> & Hr').
      destruct r as [[]|e]; eexists _, _, good, bad; (split; [done|]); apply Hfin; try done; intros [e' ->]; done.
    + eexists _, _, good, bad. split; [done|]. apply Hfin; try done. by intros [e' ->].
Qed.
End worker.
