(* ===== verification/WriterProps.v ===== *)
(** The writer as its clients see it: the worker's loop answers every command in order, and a
    client whose calls all succeed has its events in the log, durable. *)

From Stdlib Require Import ZArith Lia Ascii String.
From stdpp Require Import base strings sorting sets option gmap countable list.
From S2P Require Import Prelude Decimal Sorting Metadata Json FlowValue Event Lifecycle Errors EffectTheory.
From S2P Require Import Validate ValidateTheory StreamProps OwnScript OwnScriptTheory Context ContextTheory Builder Planner.
From S2P Require Import Segments Appender AppenderTheory AppenderProps Writer WriterClient WriterTheory.

Open Scope Z_scope.

Section loop.
Context {J : JsonEnv} {A M : Type} {EA : EventLogAppender A} {AL : AppenderLaws A} {MS : ManifestStore M}.
Context (error_text : RuntimeError -> string) (clock : nat -> Z).
Context (Hpersist : forall cp m, (persist (M := M) cp m).2 <> Panic).
Context (records0 : list string) (v0 : SessionAppendValidationState).

#[local] Instance the_backend : SerialEventBackend (WriterWorker A M) := session_backend error_text.

Abbreviation serves := (serves records0 v0).
Abbreviation closed := (closed records0 v0).

(** The worker answered these events but for those of its batch, which is empty once it stopped. *)
Definition attends (l : list QueuedEvent) (w : Worker (WriterWorker A M)) : Prop :=
  exists answered, serves answered (backend w) /\ answered ++ batch_events (batch w) = l /\
    (stopped (backend w) = true -> batch_events (batch w) = []).

Lemma commit_pending_attends l w :
  attends l w ->
  exists w', commit_pending clock w = (w', Ok tt) /\ serves l (backend w') /\ batch w' = empty_batch /\
    shutdown_reply w' = shutdown_reply w.
Proof.
  intros (done & Hs & <- & Hb). unfold commit_pending. rewrite eff_bind_eq. unfold reads. rewrite eff_bind_eq.
  unfold set_batch. rewrite eff_bind_eq. unfold read_clock, on_backend. cbn.
  destruct (commit_batch_serves error_text records0 v0 (clock (readings w)) (batch_events (batch w)) done (backend w) Hs)
    as (b & E & Hb').
  { destruct (stopped (backend w)); [right; by apply Hb|by left]. }
  rewrite E. by eexists.
Qed.

Lemma serves_attends l w : serves l (backend w) -> batch w = empty_batch -> attends l w.
Proof. intros Hs Hb. exists l. rewrite Hb. cbn. by rewrite app_nil_r. Qed.

Lemma tick_stopped now (w w' : WriterWorker A M) : writer_tick now w = (w', Ok tt) -> stopped w' = stopped w.
Proof.
  unfold writer_tick. rewrite eff_bind_eq. unfold reads. destruct (_ && _); [|by intros [= <-]].
  rewrite eff_bind_eq. unfold on_log. destruct (log_sync (log w)) as [a [[]|e|]]; [..|discriminate]; by intros [= <-].
Qed.

(** The part of a turn before it waits. *)
Lemma turn_prelude received l w :
  attends l w ->
  exists w1, attends l w1 /\ shutdown_reply w1 = shutdown_reply w /\
    turn clock received w =
      (match received with
       | Got (Commit event) =>
           batches ← reads (fun w : Worker (WriterWorker A M) =>
             Ok (is_micro_batch_event (event_type (queued_event event)) && can_batch (backend w)));
           _ ← (if (batches : bool) then
                  now ← read_clock clock;
                  b ← reads (fun w : Worker (WriterWorker A M) => Ok (batch_push (batch w) now event));
                  _ ← set_batch b;
                  if batch_is_full b then commit_pending clock else mret tt
                else
                  _ ← commit_pending clock;
                  now ← read_clock clock;
                  on_backend (backend_commit now event));
           mret false
       | Got Shutdown =>
           _ ← commit_pending clock;
           outcome ← on_backend shutdown;
           _ ← reply_shutdown outcome;
           mret true
       | Timeout => mret false
       | Disconnected => _ ← commit_pending clock; _ ← on_backend disconnected; mret true
       end) w1.
Proof.
  intros Hw. unfold turn. rewrite eff_bind_eq. unfold read_clock at 1. rewrite eff_bind_eq. unfold reads at 1.
  set (w0 := mkWorkerState _ _ _ _). assert (attends l w0) as H0 by exact Hw. cbv beta iota.
  assert (exists w1, (if batch_is_due (batch w0) (clock (readings w)) then commit_pending clock else mret tt) w0 = (w1, Ok tt)
    /\ attends l w1 /\ shutdown_reply w1 = shutdown_reply w) as (w1 & E1 & H1 & R1).
  { destruct (batch_is_due _ _); [|by exists w0].
    destruct (commit_pending_attends l w0 H0) as (w1 & E & Hs & Hb & Hr). exists w1.
    split_and!; [done|by apply serves_attends|done]. }
  rewrite eff_bind_eq, E1, eff_bind_eq. destruct H1 as (done & Hs & Hl & Hb).
  destruct (tick_serves records0 v0 (clock (readings w)) done (backend w1) Hs) as (b & Et & Hb').
  unfold on_backend at 1. cbn [backend_tick the_backend session_backend]. rewrite Et, eff_bind_eq. unfold read_clock at 1.
  set (w2 := mkWorkerState _ _ _ _). exists w2. split_and!; [|done|by destruct received as [[]| |]].
  exists done. split_and!; [done..|]. cbn. rewrite (tick_stopped _ _ _ Et). exact Hb.
Qed.

Lemma turn_commit q l w :
  attends l w -> exists w', turn clock (Got (Commit q)) w = (w', Ok false) /\ attends (l ++ [q]) w' /\
    shutdown_reply w' = shutdown_reply w.
Proof.
  intros Hw. destruct (turn_prelude (Got (Commit q)) l w Hw) as (w1 & H1 & R1 & ->).
  rewrite eff_bind_eq. unfold reads at 1. rewrite eff_bind_eq.
  destruct (_ && can_batch (backend w1)) eqn:Eb.
  - apply andb_true_iff in Eb as [_ Eb]. cbn in Eb. apply negb_true_iff in Eb.
    rewrite eff_bind_eq. unfold read_clock at 1. rewrite eff_bind_eq. unfold reads at 1. rewrite eff_bind_eq.
    unfold set_batch. cbv beta iota. cbn [backend batch readings shutdown_reply].
    set (b := batch_push _ _ q). set (w2 := mkWorkerState _ _ _ _).
    assert (attends (l ++ [q]) w2) as H2.
    { destruct H1 as (done & Hs & <- & _). exists done. split_and!; [done|cbn; by rewrite app_assoc|].
      cbn. congruence. }
    destruct (batch_is_full b); [|by exists w2].
    destruct (commit_pending_attends _ w2 H2) as (w3 & -> & Hs & Hb & Hr). exists w3.
    split_and!; [done|by apply serves_attends|by rewrite Hr].
  - rewrite eff_bind_eq. destruct (commit_pending_attends _ w1 H1) as (w2 & -> & Hs & Hb & Hr).
    rewrite eff_bind_eq. unfold read_clock, on_backend. cbn [backend backend_commit the_backend session_backend].
    destruct (commit_serves Hpersist records0 v0 (clock (readings w2)) q l (backend w2) Hs) as (b & -> & Hb').
    eexists. split_and!; [done| |by rewrite <- R1, <- Hr]. by apply serves_attends.
Qed.

Lemma turn_timeout l w :
  attends l w -> exists w', turn clock Timeout w = (w', Ok false) /\ attends l w' /\ shutdown_reply w' = shutdown_reply w.
Proof. intros Hw. destruct (turn_prelude Timeout l w Hw) as (w1 & H1 & R1 & ->). by exists w1. Qed.

Lemma turn_shutdown l w :
  attends l w ->
  exists w' o good bad, turn clock (Got Shutdown) w = (w', Ok true) /\ shutdown_reply w' = Some o /\
    closed l o good bad (backend w').
Proof.
  intros Hw. destruct (turn_prelude (Got Shutdown) l w Hw) as (w1 & H1 & R1 & ->).
  rewrite eff_bind_eq. destruct (commit_pending_attends _ w1 H1) as (w2 & -> & Hs & Hb & Hr).
  rewrite eff_bind_eq. unfold on_backend. cbn [shutdown the_backend session_backend].
  destruct (shutdown_closes records0 v0 l (backend w2) Hs) as (b & o & good & bad & -> & Hc).
  by eexists _, o, good, bad.
Qed.

Lemma turn_disconnected l w :
  attends l w -> exists w', turn clock Disconnected w = (w', Ok true) /\ serves l (backend w').
Proof.
  intros Hw. destruct (turn_prelude Disconnected l w Hw) as (w1 & H1 & R1 & ->).
  rewrite eff_bind_eq. destruct (commit_pending_attends _ w1 H1) as (w2 & -> & Hs & Hb & Hr).
  rewrite eff_bind_eq. unfold on_backend. cbn [disconnected the_backend session_backend].
  destruct (disconnected_serves records0 v0 l (backend w2) Hs) as (b & -> & Hb'). by eexists.
Qed.

(** * The loop *)

(** Turns after which the loop goes on. *)
Definition waiting (received : Received) : bool :=
  match received with Got Shutdown | Disconnected => false | _ => true end.

Definition delivered (inputs : list Received) : list SessionWriterCommand :=
  omap (fun received => match received with Got command => Some command | _ => None end) inputs.

Definition commits (inputs : list Received) : list QueuedEvent :=
  omap (fun received => match received with Got (Commit event) => Some event | _ => None end) inputs.

Lemma loop_attends inputs l w :
  Forall (fun r => waiting r = true) inputs -> attends l w ->
  exists w', serial_event_writer_worker clock inputs w = (w', Ok false) /\ attends (l ++ commits inputs) w' /\
    shutdown_reply w' = shutdown_reply w.
Proof.
  intros Hi. revert l w. induction Hi as [|r inputs Hr Hi IH]; intros l w Hw.
  { exists w. cbn. by rewrite app_nil_r. }
  cbn [serial_event_writer_worker]. rewrite eff_bind_eq. destruct r as [[q|]| |]; [|done| |done].
  - destruct (turn_commit q l w Hw) as (w1 & -> & H1 & R1). destruct (IH _ _ H1) as (w2 & E2 & H2 & R2).
    exists w2. change (commits (Got (Commit q) :: inputs)) with (q :: commits inputs). rewrite <- app_assoc in H2.
    split_and!; [done|done|congruence].
  - destruct (turn_timeout l w Hw) as (w1 & -> & H1 & R1). destruct (IH _ _ H1) as (w2 & E2 & H2 & R2).
    exists w2. split_and!; [done|done|congruence].
Qed.

Lemma loop_app inputs more w w1 :
  serial_event_writer_worker clock inputs w = (w1, Ok false) ->
  serial_event_writer_worker clock (inputs ++ more) w = serial_event_writer_worker clock more w1.
Proof.
  revert w. induction inputs as [|r inputs IH]; intros w; [by intros [= ->]|].
  cbn [app serial_event_writer_worker]. rewrite !eff_bind_eq. destruct (turn clock r w) as [w' [[]|e|]]; [discriminate|apply IH|discriminate..].
Qed.

Lemma start_attends (a : A) (m : M) notifier :
  log_holds records0 a -> log_durable records0 a -> attends [] (session_writer_worker v0 a m notifier).
Proof.
  intros Hh Hd. exists []. split; [|by split]. left. exists []. split; [|done].
  constructor; cbn; rewrite ?app_nil_r; try done. by destruct notifier.
Qed.

Lemma loop_closes inputs (a : A) (m : M) notifier :
  log_holds records0 a -> log_durable records0 a -> Forall (fun r => waiting r = true) inputs ->
  exists w o good bad,
    serial_event_writer_worker clock (inputs ++ [Got Shutdown]) (session_writer_worker v0 a m notifier) = (w, Ok true) /\
    shutdown_reply w = Some o /\ closed (commits inputs) o good bad (backend w).
Proof.
  intros Hh Hd Hi. destruct (loop_attends inputs [] (session_writer_worker v0 a m notifier) Hi) as (w1 & E1 & H1 & _);
    [by apply start_attends|].
  rewrite (loop_app _ _ _ _ E1). cbn [serial_event_writer_worker]. rewrite eff_bind_eq.
  destruct (turn_shutdown _ _ H1) as (w2 & o & good & bad & -> & Hr & Hc). by exists w2, o, good, bad.
Qed.

(** C12: The worker, on any sequence of commands, timeouts and answers of the log: it ends at
    [Shutdown] without a panic; every event is acknowledged once, in the order of the commands;
    those acknowledged as appended come first, are accepted by the validator one after the
    other, and are exactly what the log holds, up to bytes of the events refused after them; the
    notifier is told of them and no others; and if no outcome is an error, the log holds all
    events, durable. *)
Theorem worker_answers inputs (a : A) (m : M) notifier :
  log_holds records0 a -> log_durable records0 a -> Forall (fun r => waiting r = true) inputs ->
  exists w o good bad,
    serial_event_writer_worker clock (inputs ++ [Got Shutdown]) (session_writer_worker v0 a m notifier) = (w, Ok true) /\
    shutdown_reply w = Some o /\ closed (commits inputs) o good bad (backend w).
Proof. apply loop_closes. Qed.
End loop.

(** * The client *)

Section client.
Context {H : Channels}.

(** What the settling of responses leaves of a client. *)
Definition same_client (c c' : Client) : Prop :=
  commands c' = commands c /\ has_sender c' = has_sender c /\ has_worker c' = has_worker c /\ deferred c' = deferred c.

(** A response that is no failure. *)
Definition fine (response : option WriterOutcome) : Prop := exists o, response = Some o /\ outcome_error o = None.

Lemma apply_fine outcome fs c c' :
  apply outcome fs c = (c', Ok []) -> fs = [] /\ outcome_error outcome = None /\ same_client c c'.
Proof.
  unfold apply, apply_outcome, activate_reservation. rewrite !eff_bind_eq.
  destruct (appended outcome); [destruct (has_reservation c)|]; cbn [fst].
  - destruct (activate_fault (activations c)), (outcome_error outcome), fs; cbn; intros [= <-]; try done.
  - destruct (outcome_error outcome), fs; cbn; intros [= <-]; done.
  - destruct (outcome_error outcome), fs; cbn; intros [= <-]; done.
Qed.

Lemma settle_fine response fs c c' :
  settle response fs c = (c', Ok []) -> fs = [] /\ fine response /\ same_client c c'.
Proof.
  destruct response as [o|]; cbn [settle]; [|by destruct fs].
  intros (-> & Ho & Hs)%apply_fine. split_and!; [done|by exists o|done..].
Qed.

Lemma settle_total response fs c : exists c' fs', settle response fs c = (c', Ok fs').
Proof.
  destruct response as [o|]; cbn [settle]; [|by do 2 eexists]. unfold apply, apply_outcome, activate_reservation.
  rewrite !eff_bind_eq. destruct (appended o); [destruct (has_reservation c)|]; cbn;
    repeat case_match; simplify_eq; by do 2 eexists.
Qed.

Lemma same_client_trans c1 c2 c3 : same_client c1 c2 -> same_client c2 c3 -> same_client c1 c3.
Proof. unfold same_client. intuition congruence. Qed.

Lemma settle_all_fine responses fs c c' :
  settle_all responses fs c = (c', Ok []) -> fs = [] /\ Forall (fun r => fine (recv r)) responses /\ same_client c c'.
Proof.
  revert fs c. induction responses as [|r responses IH]; intros fs c; cbn [settle_all].
  { intros [= <- ->]. by split_and!. }
  rewrite eff_bind_eq. destruct (settle_total (recv r) fs c) as (c1 & fs1 & E1). rewrite E1.
  intros (-> & Hr & Hs)%IH. apply settle_fine in E1 as (-> & H1 & S1). split_and!; [done|by constructor|..];
    by eapply same_client_trans.
Qed.

Lemma failures_nil fs : writer_failures_result fs = Ok tt -> fs = [].
Proof. by destruct fs as [|? []]. Qed.

Lemma take_deferred_fine c c' :
  take_deferred_failures c = (c', Ok []) ->
  Forall (fun r => fine (recv r)) (deferred c) /\ same_client (with_deferred [] c) c'.
Proof. unfold take_deferred_failures. rewrite !eff_bind_eq. by intros (_ & ? & ?)%settle_all_fine. Qed.

(** The client so far: what it sent, and that each response is fine or still awaited. *)
Definition sent_fine (qs : list QueuedEvent) (c : Client) : Prop :=
  commands c = Commit <$> qs /\ has_sender c = true /\
  Forall (fun q => fine (recv (acknowledgement q)) \/ acknowledgement q ∈ deferred c) qs.

Lemma awaited_fine qs (l : list nat) :
  Forall (fun r => fine (recv r)) l -> Forall (fun q => fine (recv (acknowledgement q)) \/ acknowledgement q ∈ l) qs ->
  Forall (fun q => fine (recv (acknowledgement q))) qs.
Proof.
  intros Hl Hq. eapply Forall_impl; [exact Hq|]. intros q [?|Hin]; [done|]. rewrite Forall_forall in Hl. by apply Hl.
Qed.

Lemma drain_fine qs c c' :
  drain_deferred c = (c', Ok tt) -> sent_fine qs c -> sent_fine qs c'.
Proof.
  unfold drain_deferred. intros (c1 & fs & E1 & E2)%eff_bind_Ok (H1 & H2 & H3). injection E2 as <- E2.
  apply failures_nil in E2 as ->. apply take_deferred_fine in E1 as [Hd (S1 & S2 & S3 & S4)]. cbn in *.
  split_and!; [congruence..|]. eapply Forall_impl; [by eapply awaited_fine|]. intros q ?. by left.
Qed.

Lemma client_commit_fine q b qs c c' :
  client_commit q b c = (c', Ok tt) -> sent_fine qs c -> sent_fine (qs ++ [q]) c'.
Proof.
  unfold client_commit. rewrite eff_bind_eq. unfold reads at 1. destruct (client_failed c); [discriminate|].
  intros (c0 & full & [= <- <-] & E)%eff_bind_Ok Hc. apply eff_bind_Ok in E as (c1 & [] & E1 & E).
  assert (sent_fine qs c1) as (H1 & H2 & H3).
  { destruct (b && _); [by eapply drain_fine|]. by injection E1 as <-. }
  rewrite eff_bind_eq in E. unfold reads at 1 in E. rewrite H2 in E. cbn [negb] in E.
  rewrite eff_bind_eq in E. unfold send in E. destruct (send_ok _); cbn [negb] in E.
  2: { apply eff_bind_Ok in E as (c2 & fs & E2 & E). injection E as <- E. by apply failures_nil, app_nil in E as []. }
  rewrite eff_bind_eq in E. unfold change at 1 in E. set (c2 := capture _ _) in E.
  assert (commands c2 = Commit <$> (qs ++ [q]) /\ has_sender c2 = true /\ deferred c2 = deferred c1) as (C1 & C2 & C3).
  { cbn. by rewrite H1, fmap_app. }
  clearbody c2. destruct b.
  - injection E as <-. unfold sent_fine. cbn [with_deferred commands has_sender deferred]. rewrite C3. split_and!; [done..|].
    apply Forall_app. split; [|constructor; [right; set_solver|constructor]].
    eapply Forall_impl; [exact H3|]. intros x [?|?]; [by left|right; set_solver].
  - apply eff_bind_Ok in E as (c3 & fs & E3 & E). apply eff_bind_Ok in E as (c4 & fs' & E4 & E). injection E as <- E.
    apply failures_nil in E as ->. apply settle_fine in E4 as (-> & Hq & S4).
    apply take_deferred_fine in E3 as [Hd S3]. rewrite C3 in Hd.
    destruct S3 as (A1 & A2 & _), S4 as (B1 & B2 & _). cbn in A1, A2. split_and!; [congruence..|].
    apply Forall_app. split; [|constructor; [by left|constructor]].
    eapply Forall_impl; [by eapply awaited_fine|]. intros x ?. by left.
Qed.

Lemma commit_all_fine events qs c c' :
  commit_all events c = (c', Ok tt) -> sent_fine qs c ->
  exists qs', queued_jsonl <$> qs' = (fun x => x.1.2) <$> events /\ sent_fine (qs ++ qs') c'.
Proof.
  revert qs c. induction events as [|[[event jsonl] manifest] events IH]; intros qs c; cbn [commit_all].
  { intros [= <-] Hc. exists []. by rewrite app_nil_r. }
  intros (c1 & [] & E1 & E2)%eff_bind_Ok Hc. unfold writer_commit_event in E1. rewrite eff_bind_eq in E1.
  unfold new_channel in E1. eapply client_commit_fine in E1; [|exact Hc].
  destruct (IH _ _ E2 E1) as (qs' & Hq & Hc'). rewrite <- app_assoc in Hc'. eexists. split; [|exact Hc']. cbn. by rewrite Hq.
Qed.

Lemma finish_fine qs c c' :
  finish c = (c', Ok tt) -> sent_fine qs c ->
  commands c' = (Commit <$> qs) ++ [Shutdown] /\ Forall (fun q => fine (recv (acknowledgement q))) qs /\ fine recv_shutdown.
Proof.
  unfold finish. rewrite eff_bind_eq. unfold take_sender. intros E (H1 & H2 & H3). rewrite H2 in E. cbn [negb] in E.
  rewrite eff_bind_eq in E. unfold send in E. cbn [commands] in E.
  assert (forall (c0 : Client) (outcome : option WriterOutcome) fs c1,
    (failures ← (match outcome with Some outcome => apply outcome fs | None => mret fs end);
     lift (writer_failures_result failures)) c0 = (c1, Ok tt) ->
    fs = [] /\ (outcome = None \/ fine outcome) /\ commands c1 = commands c0) as Hend.
  { clear. intros c0 outcome fs c1 (c2 & fs' & E1 & E2)%eff_bind_Ok. injection E2 as <- E2.
    apply failures_nil in E2 as ->. destruct outcome as [o|]; [|injection E1 as <- ->; by split_and!; [|left|]].
    apply apply_fine in E1 as (-> & Ho & Hs & _). split_and!; [done|right; by exists o|done]. }
  destruct (send_ok _); apply eff_bind_Ok in E as (c1 & fs & E1 & E); apply eff_bind_Ok in E as (c2 & [] & E2 & E);
    unfold take_worker in E2; injection E2 as <- _.
  2: { apply (Hend _ None) in E as (Hfs & _ & _). cbn in Hfs. by destruct join_ok, fs. }
  apply (Hend _ recv_shutdown) in E as (Hfs & Ho & Hc).
  cbn [commands] in Hc. destruct recv_shutdown as [o|]; [|by destruct join_ok, fs]. cbn [is_some] in Hfs.
  assert (fs = []) as -> by (by destruct join_ok, fs).
  apply take_deferred_fine in E1 as [Hd (S1 & _)]. cbn in S1, Hd.
  split_and!; [by rewrite Hc, S1, H1|by eapply awaited_fine|]. by destruct Ho as [|?].
Qed.
End client.

(** * Client and worker together *)

Section together.
Context {J : JsonEnv} {A M : Type} {EA : EventLogAppender A} {AL : AppenderLaws A} {MS : ManifestStore M} {H : Channels}.
Context (error_text : RuntimeError -> string) (clock : nat -> Z).
Context (Hpersist : forall cp m, (persist (M := M) cp m).2 <> Panic).

Lemma delivered_commits inputs qs :
  Forall (fun r => waiting r = true) inputs -> delivered inputs = Commit <$> qs -> commits inputs = qs.
Proof.
  intros Hi. revert qs. induction Hi as [|r inputs Hr Hi IH]; intros qs; [by destruct qs|].
  destruct r as [[q|]| |]; [|done| |done]; [|by apply IH].
  change (delivered (Got (Commit q) :: inputs)) with (Commit q :: delivered inputs).
  change (commits (Got (Commit q) :: inputs)) with (q :: commits inputs).
  destruct qs as [|q' qs]; [discriminate|]. cbn. intros [= -> E]. f_equal. by apply IH.
Qed.

Lemma delivered_app inputs more : delivered (inputs ++ more) = delivered inputs ++ delivered more.
Proof. apply omap_app. Qed.

(** C8: The writer, end to end.  The channels deliver the commands in the order they were sent and
    return what the worker put in.  If every [commit] of a run and its [finish] return without an
    error, then whatever the timing, the batching and the retries were, the log holds what it
    held and all events of the run, in order, and all of it is durable. *)
Theorem writer_end_to_end records0 v0 (a : A) (m : M) notifier reservation events c1 c2 inputs w r :
  log_holds records0 a -> log_durable records0 a ->
  commit_all events (new_client reservation) = (c1, Ok tt) -> finish c1 = (c2, Ok tt) ->
  Forall (fun r => waiting r = true) inputs -> delivered (inputs ++ [Got Shutdown]) = commands c2 ->
  serial_event_writer_worker (SB := session_backend error_text) clock (inputs ++ [Got Shutdown])
    (session_writer_worker v0 a m notifier) = (w, r) ->
  (forall i o, (i, o) ∈ sent (backend w) -> recv i = Some o) -> recv_shutdown = shutdown_reply w ->
  r = Ok true /\
  log_holds (records0 ++ ((fun x => x.1.2) <$> events)) (log (backend w)) /\
  log_durable (records0 ++ ((fun x => x.1.2) <$> events)) (log (backend w)).
Proof using Hpersist.
  intros Hh Hd Ec Ef Hi Hdel Er Hrecv Hshut.
  destruct (commit_all_fine events [] _ _ Ec) as (qs & Hq & Hc); [by split_and!|].
  destruct (finish_fine _ _ _ Ef Hc) as (Hcmd & Hfine & Hfs). rewrite app_nil_l in *.
  assert (commits inputs = qs) as Hcommits.
  { apply delivered_commits; [done|]. rewrite Hcmd, delivered_app in Hdel. by apply app_inj_2 in Hdel as [? _]. }
  destruct (loop_closes error_text clock Hpersist records0 v0 inputs a m notifier Hh Hd Hi)
    as (w' & o & good & bad & E & Ho & Hclosed).
  unfold the_backend in E. rewrite E in Er. injection Er as <- <-. rewrite Hcommits in Hclosed. split; [done|].
  rewrite Hshut, Ho in Hfs. destruct Hfs as (o' & [= <-] & Hno).
  destruct Hclosed as [_ Hl Hsent _ _ _ _ _ Hdur]. rewrite <- Hq. apply Hdur; [done|].
  apply Forall_forall. intros [q x] Hx. rewrite Forall_forall in Hfine.
  destruct (Hfine q) as (o' & Hr & Hno').
  { rewrite <- Hl. apply list_elem_of_fmap. by exists (q, x). }
  rewrite (Hrecv (acknowledgement q) x) in Hr; [by injection Hr as ->|].
  rewrite Hsent. unfold acks. apply list_elem_of_fmap. by exists (q, x).
Qed.
End together.

(** * The log of a new session *)

Section new_session.
Context {J : JsonEnv}.

Lemma validated_run v l v' :
  validated v l v' -> stream_run v ((fun q => (queued_event q, slen (queued_jsonl q))) <$> l) v'.
Proof.
  revert v. induction l as [|q l IH]; intros v; cbn [validated fmap list_fmap]; [intros ->; constructor|].
  intros (v1 & E & Hl). eapply (stream_run_app _ [_]); [|by apply IH].
  apply stream_run_one. eapply constructed_event_step; [apply slen_nonneg|done].
Qed.

Lemma queued_events l : map fst ((fun q => (queued_event q, slen (queued_jsonl q))) <$> l) = queued_event <$> l.
Proof. induction l as [|q l IH]; [done|]. cbn. by f_equal. Qed.

Lemma validated_stream_wf expected l v :
  validated (new_state expected) l v ->
  stream_wf expected (queued_event <$> l) /\
  (forall pre e post, queued_event <$> l = pre ++ e :: post -> in_order pre e).
Proof.
  intros Hl%validated_run. pose proof (run_stream_wf _ _ _ Hl) as Hw. pose proof (run_in_order _ _ _ Hl) as Ho.
  by rewrite queued_events in Hw, Ho.
Qed.
End new_session.

Section new_log.
Context {J : JsonEnv} {A M : Type} {EA : EventLogAppender A} {AL : AppenderLaws A} {MS : ManifestStore M}.
Context (error_text : RuntimeError -> string) (clock : nat -> Z).
Context (Hpersist : forall cp m, (persist (M := M) cp m).2 <> Panic).

(** C9: The log of a new session is a stream the validator accepts: whatever commands come and
    whatever fails, the commands split into those acknowledged as appended, which come first, and
    those acknowledged as refused, with an error.  The session's validator, from the state of an
    empty session, accepted the events of the first one after the other, so they are a well-formed
    stream in which each event finds open what it names; the log holds their lines, in order, and
    after them at most a part of the lines of the refused ones. *)
Theorem written_log_wf sid inputs (a : A) (m : M) notifier :
  log_holds [] a -> log_durable [] a -> Forall (fun r => waiting r = true) inputs ->
  exists w good bad k,
    serial_event_writer_worker (SB := session_backend error_text) clock (inputs ++ [Got Shutdown])
      (session_writer_worker (empty_state sid) a m notifier) = (w, Ok true) /\
    (good ++ bad).*1 = commits inputs /\ sent (backend w) = acks (good ++ bad) /\
    Forall (fun x => appended x.2 = true) good /\ Forall refused bad /\
    log_bytes (log (backend w)) = concat_bytes (lines_of good.*1) +:+ str_take k (concat_bytes (lines_of bad.*1)) /\
    (exists v, validated (empty_state sid) good.*1 v) /\
    stream_wf (Some sid) (queued_event <$> good.*1) /\
    (forall pre e post, queued_event <$> good.*1 = pre ++ e :: post -> in_order pre e).
Proof using Hpersist.
  intros Hh Hd Hi.
  destruct (loop_closes error_text clock Hpersist [] (empty_state sid) inputs a m notifier Hh Hd Hi)
    as (w & o & good & bad & E & _ & Hc).
  destruct (closed_valid _ _ _ _ _ _ _ Hc) as (v & Hv). destruct (closed_bytes _ _ _ _ _ _ _ Hc) as (k & Hk).
  exists w, good, bad, k. destruct (validated_stream_wf _ _ _ Hv) as [Hw Ho].
  split_and!; [exact E|apply Hc..|done|by exists v|done|done].
Qed.
End new_log.
