(* ===== verification/WriterExamples.v ===== *)
(** A session on a small disk: opened, written by the worker and its client, with and without
    failures; the properties of segments, appender and writer apply to it. *)

From Stdlib Require Import ZArith Lia Ascii String.
From stdpp Require Import base strings sorting sets option gmap countable list.
From S2P Require Import Prelude Decimal Sorting Metadata Json FlowValue Event Lifecycle Errors EffectTheory.
From S2P Require Import LifecycleTheory Validate ValidateTheory StreamProps StreamExamples OwnScript Context ContextTheory.
From S2P Require Import Builder Planner Segments SegmentsTheory Appender AppenderTheory AppenderProps.
From S2P Require Import Writer WriterClient WriterTheory WriterProps.

Open Scope Z_scope.

#[local] Existing Instance plain_json.

(** * Segments *)

Definition demo_base : AnchoredFile := mkAnchored "sessions" "run1.jsonl".

Definition demo_entries : list (option string) :=
  [Some "run1.000003.jsonl"; Some "notes.txt"; None; Some "run1.jsonl"; Some "run1.000002.jsonl"]%string.

Definition demo_directory (l : list (option string)) : Directory := {|
  entries := Ok (Ok <$> l);
  ensure_anchored_real_file _ := Ok tt;
|}.

Example scan_three : segmented_jsonl_segment_count (D := demo_directory demo_entries) demo_base EVENT_STREAM_LIMITS = Ok 3.
Proof. vm_compute. reflexivity. Qed.

Example scan_gap :
  is_ok (segmented_jsonl_segment_count (D := demo_directory [Some "run1.000003.jsonl"%string]) demo_base EVENT_STREAM_LIMITS)
    = false.
Proof. vm_compute. reflexivity. Qed.

Example scan_alias :
  is_ok (segmented_jsonl_files (D := demo_directory [Some "RUN1.000002.jsonl"%string]) demo_base EVENT_STREAM_LIMITS) = false.
Proof. vm_compute. reflexivity. Qed.

Lemma segment_leaf_round_trip_witness :
  parse_segmented_jsonl_leaf "run1.000007.jsonl" "run1" = LeafOrdinal 7.
Proof. apply (proj1 (segment_leaf_round_trip "run1" 7 "run1.000007.jsonl" ltac:(lia))). vm_compute. reflexivity. Defined.

Lemma segment_scans_exact_witness :
  exists files, segmented_jsonl_files (D := demo_directory demo_entries) demo_base EVENT_STREAM_LIMITS = Ok files /\
    len files = 3.
Proof.
  apply (proj2 (segment_scans_exact (D := demo_directory demo_entries) demo_base "run1" EVENT_STREAM_LIMITS demo_entries
    eq_refl eq_refl ltac:(cbn; apply (bool_decide_unpack _); vm_compute; exact I) ltac:(vm_compute; discriminate)
    ltac:(vm_compute; reflexivity)) 3).
  vm_compute. reflexivity.
Defined.

(** * Disks *)

(** No failures but those listed: requests on open files, with what a failed write leaves. *)
Definition demo_storage (io : list (nat * (ErrorKind * nat))) : Storage := {|
  guard_fault _ := None;
  io_fault n := fst <$> (snd <$> List.find (fun x => Nat.eqb x.1 n) io);
  written n := default O (snd <$> (snd <$> List.find (fun x => Nat.eqb x.1 n) io));
  other_entries _ := [inl (Some "notes.txt"%string)];
  watch_changed _ := inl false;
  io_text _ := "failed"%string;
|}.

Definition demo_disk : Disk := mkDisk [mkSegmentFile "" 0] 1 0.

(** The stream after opening it. *)
Definition demo_appender : SessionLogAppender := mkAppender demo_base 0 1 0 true EVENT_STREAM_LIMITS [] 0.

Example demo_opens :
  (open_with_limits (K := demo_storage []) demo_base EVENT_STREAM_LIMITS true demo_disk).2 = Ok demo_appender.
Proof. vm_compute. reflexivity. Qed.

Definition demo_stream : Stream := mkStream demo_appender demo_disk.

Lemma demo_layout : layout demo_appender [] (mkSegmentFile "" 0) [] [] [].
Proof.
  constructor.
  1-6, 8, 9: reflexivity.
  1-3: constructor.
  - constructor; [vm_compute; discriminate|constructor].
  - vm_compute. discriminate.
  - vm_compute. reflexivity.
  - vm_compute. discriminate.
  - vm_compute. discriminate.
Qed.

Lemma demo_stream_at : stream_at demo_appender [] (mkSegmentFile "" 0) [] 1 demo_stream.
Proof. done. Qed.

Lemma demo_holds : stream_holds [] demo_stream.
Proof. exists [], []. split; [|done]. exists demo_appender, [], (mkSegmentFile "" 0), [], 1. split; [done|apply demo_layout]. Qed.

Definition lf_line (s : string) : string := s +:+ newline.
Definition demo_lines : list string := lf_line <$> ["first"; "second"; "third"]%string.

(** The write of a batch fails after nine bytes: the first record stays, the rest is cut off. *)
Example write_fails :
  let K := demo_storage [(6, (StorageFull, 9))%nat] in
  let '(s, r) := append_batch demo_lines demo_stream in
  (stream_bytes (disk s),
   match r with Ok (inr failure) => committed_events failure | _ => None end) = (lf_line "first", Some 1%nat).
Proof. vm_compute. reflexivity. Qed.

(** When the file cannot be cut off either, the number of records is not reported. *)
Example cleanup_fails :
  let K := demo_storage [(6, (StorageFull, 9)); (8, (StorageFull, 0))]%nat in
  let '(s, r) := append_batch demo_lines demo_stream in
  (stream_bytes (disk s),
   match r with Ok (inr failure) => committed_events failure | _ => Some O end) = ((lf_line "first" +:+ "sec")%string, None).
Proof. vm_compute. reflexivity. Qed.

#[local] Instance calm_storage : Storage := demo_storage [].

Lemma append_batch_exact_witness :
  exists s' r, append_batch demo_lines demo_stream = (s', Ok r) /\ batch_result [] demo_lines r s'.
Proof. apply (append_batch_exact demo_lines [] demo_stream). apply demo_holds. Defined.

(** Two files: the first was sealed, the second is not synced. *)
Definition two_files : Disk :=
  mkDisk [mkSegmentFile (lf_line "first") 6; mkSegmentFile (lf_line "second") 0] 2 0.
Definition two_files_appender : SessionLogAppender :=
  mkAppender demo_base 7 2 1 true EVENT_STREAM_LIMITS [mkSealed 6 0 demo_base] 13.

Lemma two_files_holds : stream_holds [lf_line "first"; lf_line "second"] (mkStream two_files_appender two_files).
Proof.
  exists [[lf_line "first"]], [lf_line "second"]. split; [|reflexivity].
  exists two_files_appender, [mkSegmentFile (lf_line "first") 6], (mkSegmentFile (lf_line "second") 0), [], 2.
  split; [done|]. constructor; try reflexivity; repeat constructor; vm_compute; discriminate.
Qed.

Lemma sync_durable_witness :
  match sync (mkStream two_files_appender two_files) with
  | (s', Ok _) => stream_holds [lf_line "first"; lf_line "second"] s' /\
                  durable_log (disk s') = (lf_line "first" +:+ lf_line "second")%string
  | (s', Err _) => stream_holds [lf_line "first"; lf_line "second"] s'
  | (_, Panic) => False
  end.
Proof. apply (sync_durable [lf_line "first"; lf_line "second"]). apply two_files_holds. Defined.

(** The sync makes the second file durable. *)
Example two_files_synced :
  let '(s, r) := sync (mkStream two_files_appender two_files) in
  (is_ok r, durable_log two_files, durable_log (disk s)) =
    (true, lf_line "first", (lf_line "first" +:+ lf_line "second")%string).
Proof. vm_compute. reflexivity. Qed.

Lemma calm_demo : calm "run1".
Proof.
  constructor; [done..|]. intros n. exists [Some "notes.txt"%string]. split_and!; [done| | |].
  - cbn. constructor; [set_solver|constructor].
  - vm_compute. reflexivity.
  - intros name [= ->]%list_elem_of_singleton. split; [done|]. intros [_ [Hb|(text & Hb)]]; discriminate Hb.
Qed.

Lemma append_progress_witness :
  exists s', append (lf_line "first") demo_stream = (s', Ok tt) /\ stream_holds [lf_line "first"] s'.
Proof.
  apply (append_progress demo_base "run1" eq_refl calm_demo demo_appender [] (mkSegmentFile "" 0) 1 [] [] demo_stream
    (lf_line "first") false demo_stream_at demo_layout eq_refl). vm_compute. reflexivity.
Defined.

Lemma open_sound_witness :
  stream_holds [lf_line "first"; lf_line "second"]
    (mkStream two_files_appender (open_with_limits demo_base EVENT_STREAM_LIMITS true two_files).1).
Proof.
  destruct (open_sound demo_base EVENT_STREAM_LIMITS two_files
    (open_with_limits demo_base EVENT_STREAM_LIMITS true two_files).1 true two_files_appender)
    as (full & cur & Hfiles & _ & _ & _ & Hholds).
  - vm_compute. reflexivity.
  - vm_compute. reflexivity.
  - vm_compute. reflexivity.
  - apply Hholds. change (files two_files) with ([mkSegmentFile (lf_line "first") 6] ++ [mkSegmentFile (lf_line "second") 0]) in Hfiles.
    apply app_inj_tail in Hfiles as [<- _]. constructor; [vm_compute; reflexivity|constructor].
Defined.

(** * A session *)

#[local] Instance no_manifests : ManifestStore unit := {| persist _ := mret tt |}.

Definition no_error_text (_ : RuntimeError) : string := "".
Definition demo_clock (n : nat) : Z := Z.of_nat n * 1000000.

(** The first four events of the sample session, the last of which is a small one. *)
Definition demo_events : list EventEnvelope := take 4 sample_events.
Definition demo_queued : list QueuedEvent :=
  imap (fun i e => mkQueued i (lf_line (sample_line e)) None e) demo_events.
Definition demo_inputs : list Received := (fun q => Got (Commit q)) <$> demo_queued.

Definition demo_run (K : Storage) (inputs : list Received) : Worker (WriterWorker Stream unit) * result RuntimeError bool :=
  serial_event_writer_worker (SB := session_backend no_error_text) demo_clock (inputs ++ [Got Shutdown])
    (session_writer_worker (empty_state "s1") demo_stream tt true).

Definition demo_worker : Worker (WriterWorker Stream unit) := (demo_run calm_storage demo_inputs).1.

Definition demo_log : string := concat_bytes (queued_jsonl <$> demo_queued).

(** All events are acknowledged in order, stored and durable. *)
Example session_written :
  (demo_run calm_storage demo_inputs).2 = Ok true /\
  sent (backend demo_worker) = (fun i => (i, mkOutcome true None)) <$> [0; 1; 2; 3]%nat /\
  stream_bytes (disk (log (backend demo_worker))) = demo_log /\ durable_log (disk (log (backend demo_worker))) = demo_log.
Proof. vm_compute. split_and!; reflexivity. Qed.

(** An event that is out of sequence stops the writer; the events before it stay. *)
Example out_of_sequence :
  let w := (demo_run calm_storage ((fun q => Got (Commit q)) <$> (take 1 demo_queued ++ drop 2 demo_queued))).1 in
  (fun x => (x.1, appended x.2)) <$> sent (backend w) = [(0, true); (2, false); (3, false)]%nat /\
  stream_bytes (disk (log (backend w))) = concat_bytes (queued_jsonl <$> take 1 demo_queued).
Proof. vm_compute. split; reflexivity. Qed.

Lemma demo_durable : log_durable [] demo_stream.
Proof. reflexivity. Qed.

Lemma demo_waiting : Forall (fun r => waiting r = true) demo_inputs.
Proof. repeat constructor. Qed.

Lemma persist_never_panics cp (m : unit) : (persist cp m).2 <> Panic.
Proof. done. Qed.

Lemma worker_answers_witness :
  exists w o good bad,
    serial_event_writer_worker (SB := session_backend no_error_text) demo_clock (demo_inputs ++ [Got Shutdown])
      (session_writer_worker (empty_state "s1") demo_stream tt true) = (w, Ok true) /\
    shutdown_reply w = Some o /\ closed [] (empty_state "s1") (commits demo_inputs) o good bad (backend w).
Proof.
  apply (worker_answers no_error_text demo_clock persist_never_panics [] (empty_state "s1") demo_inputs demo_stream tt true).
  - apply demo_holds.
  - apply demo_durable.
  - apply demo_waiting.
Defined.

Lemma written_log_wf_witness :
  exists w good bad k,
    serial_event_writer_worker (SB := session_backend no_error_text) demo_clock (demo_inputs ++ [Got Shutdown])
      (session_writer_worker (empty_state "s1") demo_stream tt true) = (w, Ok true) /\
    (good ++ bad).*1 = commits demo_inputs /\ sent (backend w) = acks (good ++ bad) /\
    Forall (fun x => appended x.2 = true) good /\ Forall refused bad /\
    log_bytes (log (backend w)) = concat_bytes (lines_of good.*1) +:+ str_take k (concat_bytes (lines_of bad.*1)) /\
    (exists v, validated (empty_state "s1") good.*1 v) /\
    stream_wf (Some "s1"%string) (queued_event <$> good.*1) /\
    (forall pre e post, queued_event <$> good.*1 = pre ++ e :: post -> in_order pre e).
Proof.
  apply (written_log_wf no_error_text demo_clock persist_never_panics "s1" demo_inputs demo_stream tt true).
  - apply demo_holds.
  - apply demo_durable.
  - apply demo_waiting.
Defined.

(** The channels of this run. *)
#[local] Instance demo_channels : Channels := {|
  send_ok _ := true;
  recv i := snd <$> List.find (fun x => Nat.eqb x.1 i) (sent (backend demo_worker));
  recv_shutdown := shutdown_reply demo_worker;
  join_ok := true;
  activate_fault _ := None;
|}.

Definition demo_commits : list (EventEnvelope * string * option ContextManifestCheckpoint) :=
  (fun e => (e, lf_line (sample_line e), None)) <$> demo_events.

Definition demo_client : Client := (commit_all demo_commits (new_client true)).1.

Lemma writer_end_to_end_witness :
  log_holds (lf_line <$> (sample_line <$> demo_events)) (log (backend demo_worker)) /\
  log_durable (lf_line <$> (sample_line <$> demo_events)) (log (backend demo_worker)).
Proof.
  apply (writer_end_to_end no_error_text demo_clock persist_never_panics [] (empty_state "s1") demo_stream tt true true
    demo_commits demo_client (finish demo_client).1 demo_inputs demo_worker (Ok true)).
  - apply demo_holds.
  - apply demo_durable.
  - vm_compute. reflexivity.
  - vm_compute. reflexivity.
  - apply demo_waiting.
  - vm_compute. reflexivity.
  - vm_compute. reflexivity.
  - intros i o Hin. cbn [recv demo_channels]. revert Hin. vm_compute (sent (backend demo_worker)). intros Hin.
    repeat (apply elem_of_cons in Hin as [[= -> ->]|Hin]; [reflexivity|]). by apply elem_of_nil in Hin.
  - reflexivity.
Defined.
