(* ===== verification/Lines.v ===== *)
(** Reading a stream line by line ([flow-agent-core/src/runtime/fs_guards/bounded_read.rs],
    [for_each_anchored_file_line_with_limit] of [anchored_file.rs] and
    [for_each_segmented_jsonl_line] of [segmented_jsonl.rs]): the segments are read one after the
    other within the limits of the stream, and each line is handed to a visitor.

    The disk is that of the appender; a visitor changes a state of its own. *)

From Stdlib Require Import ZArith Lia Ascii String.
From stdpp Require Import base strings sorting sets option gmap countable list.
From S2P Require Import Prelude Decimal Sorting Metadata Json FlowValue Event Lifecycle Errors.
From S2P Require Import Validate OwnScript Context Builder Planner Segments Appender.

Open Scope Z_scope.

(** * The standard library *)

(** A byte in a range, and a continuation byte of UTF-8. *)
Definition byte_in (lo hi : Z) (a : ascii) : bool := (lo <=? byte a) && (byte a <=? hi).
Definition continuation (a : ascii) : bool := byte_in 128 191 a.

(** [std::str::from_utf8]: one to four bytes per character, no overlong forms, no surrogates,
    nothing beyond U+10FFFF. *)
Fixpoint from_utf8 (s : string) : bool :=
  match s with
  | EmptyString => true
  | String a s =>
      if byte a <? 128 then from_utf8 s
      else match s with
      | EmptyString => false
      | String b s =>
          if byte_in 194 223 a then continuation b && from_utf8 s
          else match s with
          | EmptyString => false
          | String c s =>
              if byte_in 224 239 a then
                byte_in (if byte a =? 224 then 160 else 128) (if byte a =? 237 then 159 else 191) b
                && continuation c && from_utf8 s
              else match s with
              | EmptyString => false
              | String d s =>
                  byte_in 240 244 a
                  && byte_in (if byte a =? 240 then 144 else 128) (if byte a =? 244 then 143 else 191) b
                  && continuation c && continuation d && from_utf8 s
              end
          end
      end
  end.

(** [Read::take]: no more than [n] bytes. *)
Definition take_bytes (n : Z) (s : string) : string := str_take (Z.to_nat (Z.min n (slen s))) s.

(** [BufRead::read_until]: up to and with the first delimiter, and what is left. *)
Fixpoint read_until (c : ascii) (s : string) : string * string :=
  match s with
  | EmptyString => (EmptyString, EmptyString)
  | String a s =>
      if Ascii.eqb a c then (String a EmptyString, s)
      else let '(line, rest) := read_until c s in (String a line, rest)
  end.

(** * Lines *)

Section lines.
Context {K : Storage} {V : Type} (visit : string -> V -> result RuntimeError V).

(** The text of a [Utf8Error]. *)
Context (utf8_text : string -> string).

Definition read_size_error (path : AnchoredFile) (bytes max_bytes : Z) : RuntimeError :=
  Protocol (diagnostic_path path +:+ " read size " +:+ Z_to_string bytes +:+ " bytes exceeds max "
            +:+ Z_to_string max_bytes).

Definition must_end_with_lf (path : AnchoredFile) : RuntimeError :=
  Protocol (diagnostic_path path +:+ " non-final segment must end with LF").

Definition invalid_utf8 (path : AnchoredFile) (line : string) : RuntimeError :=
  Protocol (diagnostic_path path +:+ " is not valid UTF-8: " +:+ utf8_text line).

(** The checks of one line, and its visit. *)
Definition visit_line (path : AnchoredFile) (max_bytes : Z) (require_trailing_lf : bool) (line : string) (total : Z)
    (v : V) : result RuntimeError V :=
  reject max_bytes <? total with read_size_error path total max_bytes ;;
  reject require_trailing_lf && negb (ends_with_char lf line) with must_end_with_lf path ;;
  reject negb (from_utf8 line) with invalid_utf8 path line ;;
  visit line v.

(** The loop; a turn consumes a byte at least, so that the length of the text bounds the turns. *)
Fixpoint reader_loop (fuel : nat) (path : AnchoredFile) (max_bytes : Z) (require_trailing_lf : bool) (rest : string)
    (total : Z) (v : V) : eff Disk (V * Z) :=
  match fuel with
  | O => lift Panic
  | S fuel =>
      _ ← or_io (file_call id);
      let '(line, rest) := read_until lf rest in
      if slen line =? 0 then
        lift (reject require_trailing_lf && (total =? 0) with must_end_with_lf path ;; Ok (v, total))
      else
        let total := sat_u64 (total + slen line) in
        v ← lift (visit_line path max_bytes require_trailing_lf line total v);
        reader_loop fuel path max_bytes require_trailing_lf rest total v
  end.

Definition for_each_reader_line_with_limit_inner (text : string) (path : AnchoredFile) (max_bytes : Z)
    (require_trailing_lf : bool) (v : V) : eff Disk (V * Z) :=
  let text := take_bytes (sat_u64 (max_bytes + 1)) text in
  reader_loop (S (String.length text)) path max_bytes require_trailing_lf text 0 v.

(** [f] is the place of the file on the disk. *)
Definition for_each_anchored_file_line_with_limit (f : nat) (path : AnchoredFile) (max_bytes : Z)
    (require_trailing_lf : bool) (v : V) : eff Disk (V * Z) :=
  _ ← guard;
  bytes ← or_io (file_len f);
  _ ← lift (reject max_bytes <? bytes with read_size_error path bytes max_bytes ;; Ok tt);
  text ← reads (fun d => Ok (contents_of d f));
  for_each_reader_line_with_limit_inner text path max_bytes require_trailing_lf v.

(** The loop over the segments: [index] of them were read. *)
Fixpoint read_segments (lim : SessionStreamLimits) (segment_count index : nat) (segments : list AnchoredFile)
    (total : Z) (v : V) : eff Disk (V * Z) :=
  match segments with
  | [] => mret (v, total)
  | segment :: segments =>
      let remaining := sat_u64 (max_total_bytes lim - total) in
      let non_final := negb (Nat.eqb (S index) segment_count) in
      '(v, segment_bytes) ← for_each_anchored_file_line_with_limit index segment
        (Z.min MAX_SESSION_SEGMENT_BYTES remaining) non_final v;
      read_segments lim segment_count (S index) segments (sat_u64 (total + segment_bytes)) v
  end.

Definition for_each_segmented_jsonl_line (base : AnchoredFile) (lim : SessionStreamLimits) (v : V)
    : eff Disk (V * Z) :=
  segments ← scan_files base lim;
  read_segments lim (List.length segments) 0 segments 0 v.
End lines.
