(* ===== verification/LinesTheory.v ===== *)
(** Theorems on reading a stream: the lines that are visited are exactly the lines of the
    segments, in order, and what an appender stored record by record is read back record by
    record. *)

From Stdlib Require Import ZArith Lia Ascii String.
From stdpp Require Import base strings sorting sets option gmap countable list.
From S2P Require Import Prelude Decimal Sorting Metadata Json FlowValue Event Lifecycle Errors EffectTheory.
From S2P Require Import Validate StreamProps OwnScript OwnScriptTheory Context ContextTheory Builder Planner.
From S2P Require Import Segments SegmentsTheory Appender AppenderTheory AppenderProps Lines.

Open Scope Z_scope.

(** * Lines of a text *)

(** The lines with their line feeds; the last one may lack it. *)
Fixpoint lines_with_lf (s : string) : list string :=
  match s with
  | EmptyString => []
  | String a s =>
      if Ascii.eqb a lf then String a EmptyString :: lines_with_lf s
      else match lines_with_lf s with
           | [] => [String a EmptyString]
           | line :: lines => String a line :: lines
           end
  end.

Lemma read_until_app c s line rest : read_until c s = (line, rest) -> s = line +:+ rest.
Proof.
  revert line rest. induction s as [|a s IH]; intros line rest; cbn [read_until]; [by intros [= <- <-]|].
  destruct (Ascii.eqb a c); [by intros [= <- <-]|]. destruct (read_until c s) as [l r]. intros [= <- <-].
  cbn. by rewrite (IH l r).
Qed.

Lemma read_until_lines s line rest :
  read_until lf s = (line, rest) -> s <> ""%string -> lines_with_lf s = line :: lines_with_lf rest.
Proof.
  revert line rest. induction s as [|a s IH]; intros line rest; cbn [read_until lines_with_lf]; [done|].
  destruct (Ascii.eqb a lf) eqn:Ea; [by intros [= <- <-]|]. destruct (read_until lf s) as [l r] eqn:E. intros [= <- <-] _.
  destruct (decide (s = ""%string)) as [->|Hs]; [by injection E as <- <-|]. by rewrite (IH l r).
Qed.

Lemma read_until_empty s line rest : read_until lf s = (line, rest) -> slen line = 0 <-> s = ""%string.
Proof.
  destruct s as [|a s]; cbn [read_until]; [by intros [= <- <-]|].
  destruct (Ascii.eqb a lf); [|destruct (read_until lf s)]; intros [= <- <-]; split; try done; unfold slen; cbn; lia.
Qed.

(** A record that is one line: its only line feed is its last byte. *)
Definition is_line (s : string) : Prop := lines_with_lf s = [s].

Lemma lines_app s t : is_line s -> ends_with_char lf s = true -> lines_with_lf (s +:+ t) = s :: lines_with_lf t.
Proof.
  unfold is_line. induction s as [|a s IH]; [done|]. cbn [lines_with_lf]. change (String a s +:+ t) with (String a (s +:+ t)).
  cbn [lines_with_lf]. destruct (Ascii.eqb a lf) eqn:Ea.
  - intros [= E] _. destruct s as [|b s]; [done|]. exfalso. cbn [lines_with_lf] in E.
    destruct (Ascii.eqb b lf); [done|]. by destruct (lines_with_lf s).
  - intros E He. destruct s as [|b s]; [by cbn [ends_with_char] in He; rewrite Ea in He|].
    rewrite IH; [done| |exact He]. destruct (lines_with_lf (String b s)) as [|l ls]; [discriminate|].
    by injection E as -> ->.
Qed.

Lemma lines_concat records :
  Forall (fun r => is_line r /\ ends_with_char lf r = true) records -> lines_with_lf (concat_bytes records) = records.
Proof.
  induction 1 as [|r records [Hr He] _ IH]; [done|].
  change (concat_bytes (r :: records)) with (r +:+ concat_bytes records). by rewrite lines_app, IH.
Qed.

Lemma lines_ending s : Forall (fun l => ends_with_char lf l = true) (lines_with_lf s) <-> s = ""%string \/ ends_with_char lf s = true.
Proof.
  induction s as [|a s IH]; [split; [by left|constructor]|]. cbn [lines_with_lf].
  assert (forall l, l <> ""%string -> ends_with_char lf (String a l) = ends_with_char lf l) as Hl by (by intros []).
  destruct (Ascii.eqb a lf) eqn:Ea.
  - rewrite Forall_cons, IH. cbn [ends_with_char]. rewrite Ea. split; [|by destruct s; naive_solver].
    intros [_ [->|Hs]]; right; [done|]. by destruct s.
  - destruct (decide (s = ""%string)) as [->|Hs].
    { cbn [lines_with_lf]. rewrite Forall_singleton. cbn [ends_with_char]. rewrite Ea. naive_solver. }
    rewrite (Hl s Hs). destruct (read_until lf s) as [line rest] eqn:E.
    rewrite (read_until_lines s line rest E Hs) in *. rewrite Forall_cons in IH |- *.
    assert (line <> ""%string) as Hline.
    { intros ->. by apply Hs, (read_until_empty s ""%string rest E). }
    rewrite Hl by done. rewrite IH. naive_solver.
Qed.

(** * Effects on the disk that change nothing *)

Section exact.
Context {K : Storage} (fs : list SegmentFile) (nm : Z).

(** No call on the operating system fails. *)
Definition faultless : Prop := (forall n, guard_fault n = None) /\ (forall n, io_fault n = None).

(** [m] changes no file, returns only values with [good], and any such value when nothing fails. *)
Definition yields {A} (m : eff Disk A) (good : A -> Prop) : Prop :=
  forall d, holds fs nm d ->
    holds fs nm (m d).1 /\ (forall a, (m d).2 = Ok a -> good a) /\ (faultless -> forall a, good a -> (m d).2 = Ok a).

Lemma yields_bind {A B} (m : eff Disk A) (f : A -> eff Disk B) g h :
  yields m g -> (forall a, g a -> yields (f a) (h a)) -> yields (m ≫= f) (fun b => exists a, g a /\ h a b).
Proof.
  intros Hm Hf d Hd. destruct (Hm d Hd) as (H1 & H2 & H3). rewrite eff_bind_eq.
  destruct (m d) as [d1 [a|e|]]; cbn [fst snd] in *.
  - destruct (Hf a (H2 a eq_refl) d1 H1) as (H4 & H5 & H6). split_and!; [done| |].
    + intros b Hb. exists a. split; [by apply H2|by apply H5].
    + intros Hn b (a' & Ha & Hb). apply H3 in Ha; [|done]. injection Ha as <-. by apply H6.
  - split_and!; [done|done|]. intros Hn b (a & Ha & _). by apply H3 in Ha.
  - split_and!; [done|done|]. intros Hn b (a & Ha & _). by apply H3 in Ha.
Qed.

Lemma yields_weaken {A} (m : eff Disk A) (g h : A -> Prop) : (forall a, g a <-> h a) -> yields m g -> yields m h.
Proof.
  intros Hgh Hm d Hd. destruct (Hm d Hd) as (H1 & H2 & H3). split_and!; [done| |].
  - intros a Ha. by apply Hgh, H2.
  - intros Hn a Ha. by apply H3, Hgh.
Qed.

(** The same when the result says what is to be known of the first part. *)
Lemma yields_then {A B} (m : eff Disk A) (f : A -> eff Disk B) g (h : B -> Prop) :
  yields m g -> (forall a, g a -> yields (f a) h) -> (forall b, h b -> exists a, g a) -> yields (m ≫= f) h.
Proof.
  intros Hm Hf Hg. eapply yields_weaken; [|by apply (yields_bind m f g (fun _ => h))]. intros b. cbn. split; [by intros (a & _ & ?)|].
  intros Hb. destruct (Hg b Hb) as [a Ha]. by exists a.
Qed.

Lemma yields_lift {A} (r : result RuntimeError A) : yields (lift r) (fun a => r = Ok a).
Proof. by intros d Hd. Qed.

Lemma yields_ret {A} (a : A) : yields (mret a) (eq a).
Proof. intros d Hd. split_and!; [done|by intros b [= <-]|by intros _ b ->]. Qed.

Lemma yields_guard : yields guard (fun _ => True).
Proof. intros d Hd. unfold guard. split_and!; [done|done|]. intros [-> _] [] _. done. Qed.

Lemma yields_call : yields (or_io (file_call id)) (fun _ => True).
Proof.
  intros d Hd. unfold or_io, file_call. rewrite eff_bind_eq. split_and!; [by destruct (io_fault _)|done|].
  intros [_ ->] [] _. done.
Qed.

Lemma yields_len f sf : fs !! f = Some sf -> yields (or_io (file_len f)) (fun n => n = slen (contents sf)).
Proof.
  intros Hf d [Hd1 Hd2]. unfold or_io, file_len. rewrite eff_bind_eq.
  assert (contents_of d f = contents sf) as -> by (unfold contents_of; by rewrite Hd1, Hf).
  split_and!; [done| |]; destruct (io_fault _) eqn:E; cbn; [done|by intros n [= <-]| |by intros _ n ->].
  intros [_ Hn]. by rewrite Hn in E.
Qed.

Lemma yields_contents f sf : fs !! f = Some sf -> yields (reads (fun d => Ok (contents_of d f))) (fun s => s = contents sf).
Proof.
  intros Hf d [Hd1 Hd2]. unfold reads, contents_of. rewrite Hd1, Hf.
  split_and!; [done|by intros n [= <-]|by intros _ n ->].
Qed.
End exact.

(** * Reading *)

Section reading.
Context {K : Storage} {V : Type} (visit : string -> V -> result RuntimeError V) (utf8_text : string -> string).

(** The visitor on a list of lines. *)
Fixpoint visit_all (lines : list string) (v : V) : result RuntimeError V :=
  match lines with
  | [] => Ok v
  | line :: lines => v ← visit line v; visit_all lines v
  end.

Lemma visit_all_concat l k v : visit_all (l ++ k) v = (v ← visit_all l v; visit_all k v).
Proof.
  revert v. induction l as [|line l IH]; intros v; [done|]. cbn [visit_all app]. destruct (visit line v); cbn; [apply IH|done..].
Qed.

Lemma visit_line_Ok path max_bytes required line total v v' :
  visit_line visit utf8_text path max_bytes required line total v = Ok v' <->
  total <= max_bytes /\ (required = true -> ends_with_char lf line = true) /\ from_utf8 line = true /\ visit line v = Ok v'.
Proof.
  unfold visit_line. destruct (Z.ltb_spec max_bytes total); [split; [done|lia]|].
  destruct required, (ends_with_char lf line), (from_utf8 line); cbn; naive_solver.
Qed.

Lemma text_nonempty s : s <> ""%string -> 0 < slen s.
Proof. destruct s; [done|]. unfold slen. cbn. lia. Qed.

(** What a completed loop over [rest] tells of it. *)
Definition read_through (max_bytes : Z) (required : bool) (rest : string) (total : Z) (v : V) (x : V * Z) : Prop :=
  x.2 = total + slen rest /\ (rest = ""%string \/ x.2 <= max_bytes) /\
  (required = true -> (rest <> ""%string \/ total <> 0) /\ Forall (fun l => ends_with_char lf l = true) (lines_with_lf rest)) /\
  Forall (fun l => from_utf8 l = true) (lines_with_lf rest) /\ visit_all (lines_with_lf rest) v = Ok x.1.

Lemma loop_yields fs nm fuel path max_bytes required rest total v :
  (String.length rest < fuel)%nat -> 0 <= total -> total + slen rest <= u64_max ->
  yields fs nm (reader_loop visit utf8_text fuel path max_bytes required rest total v)
    (read_through max_bytes required rest total v).
Proof.
  revert rest total v. induction fuel as [|fuel IH]; intros rest total v Hfuel H0 Hmax; [lia|].
  cbn [reader_loop]. eapply yields_weaken; [|apply yields_bind; [apply yields_call|]]; cycle 1.
  { intros ? _. instantiate (1 := fun _ => read_through max_bytes required rest total v). cbv beta.
    destruct (read_until lf rest) as [line rest'] eqn:E. pose proof (read_until_empty _ _ _ E) as Hempty.
    pose proof (read_until_app _ _ _ _ E) as Happ. unfold read_through.
    destruct (Z.eqb_spec (slen line) 0) as [Hl|Hl].
    - apply Hempty in Hl. subst rest. rewrite Hl. eapply yields_weaken; [|apply yields_lift]. intros [v' t]. cbn.
      rewrite Z.add_0_r. destruct required, (Z.eqb_spec total 0); cbn; naive_solver.
    - assert (rest <> ""%string) as Hne by (by intros H%Hempty). rewrite (read_until_lines _ _ _ E Hne).
      assert (slen rest = slen line + slen rest') as Hlen by (by rewrite Happ, slen_app).
      pose proof (slen_nonneg line). pose proof (slen_nonneg rest').
      rewrite sat_u64_id by (unfold in_u64; lia).
      eapply yields_weaken; [|apply yields_bind; [apply yields_lift|]]; cycle 1.
      { intros v1 _. apply IH; [unfold slen in *; lia|lia|lia]. }
      intros [v' t]. unfold read_through. cbn [fst snd visit_all]. rewrite !Forall_cons. split.
      + intros (v1 & (Ha & Hb & Hc & Hd)%visit_line_Ok & -> & Hm & Hr & Hu & Hv). rewrite Hd.
        split_and!; [lia| |intros Hq; split_and!; [by left|by apply Hb|by apply Hr]|done|done|done].
        right. destruct Hm as [->|?]; [|done]. change (slen "") with 0. lia.
      + intros (-> & Hm & Hr & [Hu1 Hu2] & Hv). destruct Hm as [?|Hm]; [done|].
        destruct (visit line v) as [v1| |] eqn:Ev; [|discriminate..]. exists v1. cbn in Hv. split.
        * apply visit_line_Ok. split_and!; [lia| |done|done]. intros Hq. by apply Hr.
        * split_and!; [lia|by right; lia| |done|done]. intros Hq. split; [right; pose proof (text_nonempty line); destruct line; [done|]; unfold slen in *; cbn in *; lia|].
          by apply Hr. }
  naive_solver.
Qed.

(** One segment. *)
Definition segment_read (max_bytes : Z) (required : bool) (text : string) (v : V) (x : V * Z) : Prop :=
  x.2 = slen text /\ slen text <= max_bytes /\
  (required = true -> ends_with_char lf text = true) /\
  Forall (fun l => from_utf8 l = true) (lines_with_lf text) /\ visit_all (lines_with_lf text) v = Ok x.1.

Lemma segment_yields fs nm f sf path max_bytes required v :
  fs !! f = Some sf -> 0 <= max_bytes < u64_max ->
  yields fs nm (for_each_anchored_file_line_with_limit visit utf8_text f path max_bytes required v)
    (segment_read max_bytes required (contents sf) v).
Proof.
  intros Hf Hmax. unfold for_each_anchored_file_line_with_limit. pose proof (slen_nonneg (contents sf)).
  apply (yields_then _ _ _ _ (fun _ => True)); [apply yields_guard|intros ? _|by exists tt].
  eapply yields_then; [by apply yields_len|intros n ->|by eexists].
  apply (yields_then _ _ _ _ (fun _ => slen (contents sf) <= max_bytes)); [|intros ? Hfit|by intros x (_ & ? & _); exists tt].
  { eapply yields_weaken; [|apply yields_lift]. intros []. cbv beta.
    destruct (Z.ltb_spec max_bytes (slen (contents sf))); [split; [done|lia]|split; [lia|done]]. }
  eapply yields_then; [by apply yields_contents|intros text ->|by eexists].
  unfold for_each_reader_line_with_limit_inner. rewrite sat_u64_id by (unfold in_u64; lia).
  assert (take_bytes (max_bytes + 1) (contents sf) = contents sf) as ->.
  { unfold take_bytes. apply str_take_all. unfold slen in *. lia. }
  eapply yields_weaken; [|apply loop_yields; [lia|lia|unfold u64_max in *; lia]].
  intros [v' t]. unfold read_through, segment_read. cbn [fst snd]. rewrite lines_ending.
  destruct (decide (contents sf = ""%string)) as [->|Hne]; cbn; naive_solver.
Qed.

(** A list of segments, of which [total] bytes were read before. *)
Definition segments_read (lim : SessionStreamLimits) (texts : list string) (total : Z) (v : V) (x : V * Z) : Prop :=
  x.2 = total + sum_lengths texts /\ x.2 <= max_total_bytes lim /\
  Forall (fun s => slen s <= MAX_SESSION_SEGMENT_BYTES) texts /\
  Forall (fun s => ends_with_char lf s = true) (removelast texts) /\
  Forall (fun l => from_utf8 l = true) (mjoin (lines_with_lf <$> texts)) /\
  visit_all (mjoin (lines_with_lf <$> texts)) v = Ok x.1.

Lemma segments_yields nm lim before rest segments total v :
  List.length segments = List.length rest -> 0 <= total <= max_total_bytes lim -> max_total_bytes lim < u64_max ->
  yields (before ++ rest) nm
    (read_segments visit utf8_text lim (List.length (before ++ rest)) (List.length before) segments total v)
    (segments_read lim (contents <$> rest) total v).
Proof.
  revert before rest total v. induction segments as [|segment segments IH]; intros before [|sf rest] total v Hlen Ht Hmax;
    try discriminate; cbn [read_segments].
  { eapply yields_weaken; [|apply yields_ret]. intros [v' t]. unfold segments_read. cbn. split.
    - intros [= <- <-]. split_and!; [lia|lia|constructor..|done].
    - intros (-> & _ & _ & _ & _ & [= ->]). f_equal. lia. }
  assert ((before ++ sf :: rest) !! List.length before = Some sf) as Hf by (by rewrite lookup_app_r, Nat.sub_diag).
  rewrite sat_u64_id by (unfold in_u64; lia). set (limit := Z.min _ _). set (non_final := negb _).
  pose proof (slen_nonneg (contents sf)). assert (0 < MAX_SESSION_SEGMENT_BYTES < u64_max) by done.
  eapply yields_weaken; [|eapply (yields_bind _ _ _ _ _ (fun x => segments_read lim (contents <$> rest) (total + x.2) x.1));
    [apply (segment_yields _ _ _ _ _ limit non_final v Hf); unfold limit; lia|]]; cycle 1.
  { intros [v1 n] (Hn' & Hn & _). cbn [fst snd] in Hn'. subst n. unfold limit in Hn. rewrite sat_u64_id by (unfold in_u64; lia).
    assert (before ++ sf :: rest = (before ++ [sf]) ++ rest) as -> by (by rewrite <- app_assoc).
    assert (S (List.length before) = List.length (before ++ [sf])) as -> by (rewrite length_app; cbn; lia).
    cbn [fst snd]. apply IH; [by injection Hlen|lia|done]. }
  assert (non_final = true <-> rest <> []) as Hnf.
  { unfold non_final. rewrite length_app, negb_true_iff, Nat.eqb_neq. cbn [List.length]. destruct rest; cbn [List.length]; split; intros; try done; lia. }
  intros [v' t]. unfold segments_read, segment_read. rewrite fmap_cons. cbn [fst snd].
  change (sum_lengths (contents sf :: ?l)) with (slen (contents sf) + sum_lengths l).
  change (mjoin (lines_with_lf <$> contents sf :: ?l)) with (lines_with_lf (contents sf) ++ mjoin (lines_with_lf <$> l)).
  pose proof (sum_lengths_nonneg (contents <$> rest)).
  rewrite Forall_app, Forall_cons, visit_all_concat.
  assert (Forall (fun s => ends_with_char lf s = true) (removelast (contents sf :: (contents <$> rest))) <->
    (non_final = true -> ends_with_char lf (contents sf) = true) /\
    Forall (fun s => ends_with_char lf s = true) (removelast (contents <$> rest))) as ->.
  { rewrite Hnf. destruct rest as [|sf' rest]; [cbn; split; [by intros _|by intros _; constructor]|].
    rewrite fmap_cons. cbn [removelast]. rewrite Forall_cons. naive_solver. }
  split.
  - intros ([v1 n] & (Hn & P1 & P2 & P3 & P4) & Ht' & P5 & P6 & P7 & P8 & P9). cbn [fst snd] in *. subst n t. unfold limit in P1. rewrite P4.
    split_and!; [lia|lia|lia|done|done|done|done|done|done].
  - intros (-> & P1 & [P2 P3] & [P4 P5] & [P6 P7] & P8).
    destruct (visit_all (lines_with_lf (contents sf)) v) as [v1| |] eqn:Ev; [|discriminate..]. cbn in P8.
    exists (v1, slen (contents sf)). cbn [fst snd]. unfold limit. split_and!; [done|lia|done|done|done|lia|lia|done|done|done|done].
Qed.
End reading.

(** * What a reading says of the files *)

Lemma lines_le s : len (lines_with_lf s) <= slen s.
Proof.
  unfold len, slen. induction s as [|a s IH]; [done|]. cbn [lines_with_lf String.length].
  destruct (Ascii.eqb a lf); [cbn; lia|]. destruct (lines_with_lf s) as [|l ls]; cbn in *; lia.
Qed.

Lemma all_lines_le texts : len (mjoin (lines_with_lf <$> texts)) <= sum_lengths texts.
Proof.
  induction texts as [|s texts IH]; [done|].
  change (mjoin (lines_with_lf <$> s :: texts)) with (lines_with_lf s ++ mjoin (lines_with_lf <$> texts)).
  change (sum_lengths (s :: texts)) with (slen s + sum_lengths texts).
  pose proof (lines_le s). unfold len in *. rewrite length_app. lia.
Qed.

(** A reading that succeeds visited all lines of all files, whatever failed before or besides. *)
Lemma read_sound {K : Storage} {V} (visit : string -> V -> result RuntimeError V) utf8_text base lim v x d d' :
  max_segments lim < MAX_SEGMENT_ORDINAL -> 0 <= max_total_bytes lim < u64_max ->
  for_each_segmented_jsonl_line visit utf8_text base lim v d = (d', Ok x) ->
  files d' = files d /\ segments_read visit lim (contents <$> files d) 0 v x.
Proof.
  intros H1 H2 E. unfold for_each_segmented_jsonl_line in E. apply eff_bind_Ok in E as (d1 & segments & Es & E).
  injection Es as <- Es. destruct (files_stem (D := directory_at base d) base lim segments Es) as [stem Hstem].
  apply (scan_finds_files base stem lim Hstem H1) in Es as [-> Hn].
  set (segments := base :: (segment base stem <$> seqZ 2 (len (files d) - 1))) in *.
  assert (List.length segments = List.length (files d)) as Hs.
  { unfold segments. cbn. rewrite length_fmap, length_seqZ. unfold len in *. lia. }
  rewrite Hs in E.
  destruct (segments_yields visit utf8_text (named d) lim [] (files d) segments 0 v Hs ltac:(lia) (proj2 H2) (next d))
    as ([Hd _] & Hgood & _); [done|].
  change ([] ++ files d) with (files d) in *. change (List.length []) with O in *. rewrite E in Hd, Hgood. split; [done|by apply Hgood].
Qed.

(** * A stream that nothing else touches *)

Section calm_reading.
Context {K : Storage} (base : AnchoredFile) (stem : string).
Context (Hstem : segmented_jsonl_stem base = Ok stem) (Hcalm : calm stem).
Context {V : Type} (visit : string -> V -> result RuntimeError V) (utf8_text : string -> string).

Lemma calm_faultless : faultless.
Proof using Hcalm. split; apply Hcalm. Qed.

(** The scan of the directory finds one file per segment. *)
Lemma calm_files d lim :
  (1 <= List.length (files d))%nat -> len (files d) <= Z.max 1 (max_segments lim) -> max_segments lim <= MAX_SEGMENT_ORDINAL ->
  exists segments, scan_files base lim d = (next d, Ok segments) /\ List.length segments = List.length (files d).
Proof using Hstem Hcalm.
  intros H1 H2 H3. assert (len (files d) <= MAX_SEGMENT_ORDINAL) as H4 by (unfold MAX_SEGMENT_ORDINAL in *; lia).
  destruct (calm_listing base stem Hstem Hcalm d H1 H4) as (others & Hl & Hu). pose proof Hl as (_ & Hnd & Hlen).
  set (segments := base :: (segment base stem <$> seqZ 2 (len (files d) - 1))). exists segments. split.
  - unfold scan_files. f_equal.
    apply (files_Ok (D := directory_at base d) base stem lim _ Hstem
      (entries_listing base d others (calm_guard _ Hcalm _) Hl) Hnd H3).
    exists (len (files d)). split_and!; [unfold len; lia|lia|done|done|].
    pose proof (own_names_eq base stem Hstem d H1 H4) as Hown. cbn. unfold segments.
    constructor; [rewrite (base_leaf base stem Hstem)|apply Forall_fmap, Forall_forall; intros k Hk; cbn];
      rewrite bool_decide_eq_true_2; try done; rewrite Hown; apply elem_of_cons; [by left|right].
    apply list_elem_of_fmap. by exists k.
  - unfold segments. cbn. rewrite length_fmap, length_seqZ. unfold len. lia.
Qed.

Lemma calm_read d lim v x :
  (1 <= List.length (files d))%nat -> len (files d) <= Z.max 1 (max_segments lim) -> max_segments lim <= MAX_SEGMENT_ORDINAL ->
  0 <= max_total_bytes lim < u64_max ->
  let '(d', r) := for_each_segmented_jsonl_line visit utf8_text base lim v d in
  files d' = files d /\ (r = Ok x <-> segments_read visit lim (contents <$> files d) 0 v x).
Proof using Hstem Hcalm.
  intros H1 H2 H3 H4. destruct (calm_files d lim H1 H2 H3) as (segments & Es & Hs).
  unfold for_each_segmented_jsonl_line. rewrite eff_bind_eq, Es, Hs.
  destruct (segments_yields visit utf8_text (named d) lim [] (files d) segments 0 v Hs ltac:(lia) (proj2 H4) (next d))
    as ([Hd _] & Hgood & Hcomplete); [done|].
  change ([] ++ files d) with (files d) in *. change (List.length []) with O in *.
  destruct (read_segments _ _ _ _ _ _ _ _ (next d)) as [d' r]. cbn [fst snd] in *. split; [done|]. split; [apply Hgood|].
  apply Hcomplete, calm_faultless.
Qed.

(** A record that was written as one line of text. *)
Definition line_record (r : string) : Prop := is_line r /\ ends_with_char lf r = true /\ from_utf8 r = true.

Lemma concat_ends records : Forall line_record records -> records <> [] -> ends_with_char lf (concat_bytes records) = true.
Proof.
  intros Hr Hne. destruct (proj1 (lines_ending (concat_bytes records))) as [He|He]; [| |done].
  - rewrite lines_concat by (eapply Forall_impl; [exact Hr|]; by intros r (? & ? & _)).
    eapply Forall_impl; [exact Hr|]. by intros r (_ & ? & _).
  - destruct Hr as [|r records (Hl & _) _]; [done|]. exfalso. change (concat_bytes (r :: records)) with (r +:+ concat_bytes records) in He.
    by destruct r.
Qed.

(** Reading back: a stream that holds records which are lines, in whatever segments the appender
    put them, is read as exactly these records, in order, and their bytes are counted. *)
Lemma stored_records_read a full cur nm groups current s v v' :
  stream_at a full cur [] nm s -> layout a full cur [] groups current -> base_path a = base ->
  Forall line_record (concat groups ++ current) ->
  visit_all visit (concat groups ++ current) v = Ok v' ->
  exists d', for_each_segmented_jsonl_line visit utf8_text base (limits a) v (disk s) = (d', Ok (v', total_bytes a)) /\
    files d' = files (disk s).
Proof using Hstem Hcalm.
  intros [_ [Hfiles _]] L Hb Hlines Hv. set (d := disk s) in *.
  assert (len (files d) = len full + 1) as Hlen by (rewrite Hfiles; unfold len; rewrite length_app; cbn; lia).
  pose proof (layout_bounds _ _ _ _ _ _ L) as [Hb1 Hb2]. pose proof L as [].
  assert (contents <$> files d = concat_bytes <$> (groups ++ [current])) as Htexts.
  { rewrite Hfiles, !fmap_app, layout_groups. cbn. by rewrite layout_records. }
  assert (Forall (Forall line_record) (groups ++ [current])) as Hg.
  { apply Forall_app in Hlines as [Hg Hc]. apply Forall_app. split; [|by constructor].
    clear -Hg. induction groups as [|g groups IH]; [done|]. cbn in Hg. apply Forall_app in Hg as [? ?]. constructor; auto. }
  assert (mjoin (lines_with_lf <$> (concat_bytes <$> (groups ++ [current]))) = concat groups ++ current) as Hjoin.
  { rewrite <- list_fmap_compose. rewrite (list_fmap_ext _ id).
    - rewrite list_fmap_id. clear. induction groups as [|g groups IH]; [cbn; by rewrite app_nil_r|].
      change (mjoin ((g :: groups) ++ [current])) with (g ++ mjoin (groups ++ [current])). rewrite IH. cbn. by rewrite app_assoc.
    - intros i g Hi. cbn. apply lines_concat. eapply Forall_lookup_1 in Hg; [|exact Hi].
      eapply Forall_impl; [exact Hg|]. by intros r (? & ? & _). }
  pose proof (calm_read d (limits a) v (v', total_bytes a)) as Hread.
  destruct (for_each_segmented_jsonl_line visit utf8_text base (limits a) v d) as [d' r].
  destruct Hread as [Hd Hr]; [unfold len in *; lia|lia|done|lia|]. exists d'. split; [|done]. f_equal. apply Hr.
  unfold segments_read. cbn [fst snd]. rewrite Htexts, Hjoin. split_and!.
  - rewrite <- Htexts, Hfiles, fmap_app, sum_lengths_app, layout_total, layout_current. cbn. lia.
  - done.
  - rewrite <- Htexts, Hfiles. by apply Forall_fmap.
  - rewrite fmap_app. cbn. rewrite removelast_last. rewrite <- layout_groups. apply Forall_fmap, Forall_forall.
    intros f Hf. pose proof Hf as (i & Hi)%list_elem_of_lookup. rewrite Forall_forall in layout_nonempty.
    assert ((concat_bytes <$> groups) !! i = Some (contents f)) as Hgi by (by rewrite <- layout_groups, list_lookup_fmap, Hi).
    apply list_lookup_fmap_Some in Hgi as (g & Hc & Hgi). cbn. rewrite Hc. apply concat_ends.
    + eapply Forall_lookup_1 in Hg; [exact Hg|]. by apply lookup_app_l_Some.
    + intros ->. by apply (layout_nonempty f Hf); rewrite Hc.
  - eapply Forall_impl; [exact Hlines|]. by intros r' (_ & _ & ?).
  - done.
Qed.
End calm_reading.
