(* ===== verification/Resume.v ===== *)
(** Resuming a session ([flow-agent-core/src/runtime/resume_inspection.rs],
    [event_writer/resume.rs], the replay of [resume.rs], the clock of [types.rs] and
    [config_io.rs]).

    A session that stopped is resumed from its log alone: the log is inspected and compared with
    the plan, which is compiled anew; then a marker and the events that are missing follow, with
    their sequence numbers, ids and timestamps moved past the markers.  A dry run checks before
    that they fit. *)

From Stdlib Require Import ZArith Lia Ascii String.
From stdpp Require Import base strings sorting sets option gmap countable list.
From S2P Require Import Prelude Decimal Sorting Metadata Json FlowValue Event Lifecycle Validate.
From S2P Require Import Paths Values Blocks Registry Errors PhaseControl Policy OwnScript Context Builder Planner.
From S2P Require Import Segments Appender Writer WriterClient Lines.

Open Scope Z_scope.

#[export] Instance EventClock_eq_dec : EqDecision EventClock.
Proof. solve_decision. Defined.
#[export] Instance RuntimeStreamSignature_eq_dec : EqDecision RuntimeStreamSignature.
Proof. solve_decision. Defined.

(** * The clock *)

Definition FIXTURE_CLOCK_UNIX_SECONDS : Z := 1767225600.

Definition fixed_fixture : EventClock := mkClock FIXTURE_CLOCK_UNIX_SECONDS.

Definition from_first_event (e : EventEnvelope) : option EventClock :=
  (fun base => mkClock (sat_i64 (base - clock_offset (sequence e)))) <$> parse_rfc3339_utc_timestamp (timestamp e).

(** [configured] is the clock of the configuration. *)
Definition resume_event_clock (configured recorded_clock : EventClock) : result RuntimeError EventClock :=
  if bool_decide (configured = fixed_fixture) then Ok configured else Ok recorded_clock.

(** * Events at another position *)

Definition with_position (e : EventEnvelope) (seq : Z) (id ts : string) : EventEnvelope :=
  {| additional_fields := additional_fields e; correlation_id := correlation_id e;
     event_id := id; event_type := event_type e; flow_id := flow_id e; parent_flow_id := parent_flow_id e;
     payload := payload e; protocol_version := protocol_version e; sequence := seq;
     session_id := session_id e; source := source e; timestamp := ts |}.

(** [+=] on a [u64] panics when it overflows. *)
Definition shift_resumed_event (e : EventEnvelope) (sequence_offset : Z) (clock : EventClock)
    : result RuntimeError EventEnvelope :=
  let shifted := sequence e + sequence_offset in
  if u64_max <? shifted then Panic
  else
    ts ← clock_timestamp clock shifted;
    Ok (with_position e shifted (runtime_event_id shifted) ts).

Section resume.
Context {J : JsonEnv} {R : RuntimeEnv}.

Definition resumed_event (e : EventEnvelope) (resume_marker_count : Z) (clock : EventClock)
    : result RuntimeError (EventEnvelope * string) :=
  shifted ← shift_resumed_event e (resume_marker_count + 1) clock;
  canonical ← map_err (Unserializable "resumed runtime event") (canonical_jsonl shifted);
  Ok (shifted, canonical).

(** [failures.rs] *)
Fixpoint canonical_event_stream (events : list EventEnvelope) : result RuntimeError string :=
  match events with
  | [] => Ok ""%string
  | e :: events =>
      line ← map_err (Unserializable "runtime event") (canonical_jsonl e);
      stream ← canonical_event_stream events;
      Ok (line +:+ stream)
  end.

(** * Inspection of the log *)

Record ResumeReplayPrefix : Type := mkReplayPrefix {
  planned_event_count : Z;
  replay_marker_count : Z;
}.

Record ResumeAppendPlan : Type := mkAppendPlan {
  marker_event : EventEnvelope;
  marker_stream : string;
}.

Record ResumeInspectionBuilder : Type := mkInspecting {
  found_clock : option EventClock;
  completed_turns : Z;
  event_prefix : RuntimeStreamSignatureBuilder;
  last_event_type : option EventType;
  prefix_metadata_valid : bool;
  resume_marker_count : Z;
  root_flow_definition_id : option string;
}.

Record ResumeSessionInspection : Type := mkInspection {
  insp_clock : EventClock;
  insp_completed_turns : Z;
  insp_event_prefix : RuntimeStreamSignature;
  insp_last_event_type : EventType;
  insp_prefix_metadata_valid : bool;
  insp_resume_marker_count : Z;
  insp_root_flow_definition_id : option string;
  insp_validation : SessionAppendValidationState;
}.

Definition inspection_new : ResumeInspectionBuilder :=
  mkInspecting None 0 (signature_new EVENT_PLAN_DOMAIN) None true 0 None.

(** The clock, taken from the first event. *)
Definition observed_clock (b : ResumeInspectionBuilder) (e : EventEnvelope) : result RuntimeError EventClock :=
  match found_clock b with
  | Some clock => Ok clock
  | None => ok_or (from_first_event e) (Protocol "session first event timestamp cannot anchor resume")
  end.

(** [lifecycle_payload_string], which expects the field. *)
Definition observed_root_flow (b : ResumeInspectionBuilder) (e : EventEnvelope) : result RuntimeError (option string) :=
  if is_none (root_flow_definition_id b) && bool_decide (event_type e = FlowStarted) && is_none (parent_flow_id e) then
    id ← expect (payload_str e "flow_definition_id"); Ok (Some id)
  else Ok (root_flow_definition_id b).

(** The event as it was planned: the markers before it do not count. *)
Definition normalized_event (e : EventEnvelope) (markers : Z) (clock : EventClock) : result RuntimeError EventEnvelope :=
  seq ← ok_or (if markers <=? sequence e then (if 0 <? sequence e - markers then Some (sequence e - markers) else None) else None)
    (Protocol "resume marker count exceeds event sequence");
  ts ← clock_timestamp clock seq;
  Ok (with_position e seq (runtime_event_id seq) ts).

Definition inspection_observe (e : EventEnvelope) (b : ResumeInspectionBuilder) : result RuntimeError ResumeInspectionBuilder :=
  clock ← observed_clock b e;
  root ← observed_root_flow b e;
  expected ← (if String.eqb (event_id e) (runtime_event_id (sequence e)) then
                ts ← clock_timestamp clock (sequence e); Ok (String.eqb (timestamp e) ts)
              else Ok false);
  let turns := completed_turns b + (if bool_decide (event_type e = MessageCompleted) then 1 else 0) in
  let valid := prefix_metadata_valid b && expected in
  if bool_decide (event_type e = SessionResumed) then
    Ok (mkInspecting (Some clock) turns (event_prefix b) (Some (event_type e)) valid
          (sat_u64 (resume_marker_count b + 1)) root)
  else
    normalized ← normalized_event e (resume_marker_count b) clock;
    canonical ← map_err (Unserializable "normalized resume event") (canonical_jsonl normalized);
    Ok (mkInspecting (Some clock) turns (signature_push (event_prefix b) canonical) (Some (event_type e)) valid
          (resume_marker_count b) root).

Section inspect.
Context {P : JsonParser} {K : Storage} (utf8_text : string -> string) (error_text : RuntimeError -> string).

(** The visitor of the validator; its errors are messages. *)
Definition observe_visitor (e : EventEnvelope) (b : ResumeInspectionBuilder) : result ProtocolError ResumeInspectionBuilder :=
  map_err (fun error => VisitorFailed (error_text error)) (inspection_observe e b).

Definition inspect_line (line : string) (v : SessionAppendValidationState * ResumeInspectionBuilder)
    : result RuntimeError (SessionAppendValidationState * ResumeInspectionBuilder) :=
  match validate_appended_with observe_visitor v.1 v.2 line with
  | (v, Ok _) => Ok v
  | (_, Err error) => Err (Invalid error)
  | (_, Panic) => Panic
  end.

(** What was gathered, once the log was read. *)
Definition finish_inspection (path : AnchoredFile) (validation : SessionAppendValidationState)
    (b : ResumeInspectionBuilder) : result RuntimeError ResumeSessionInspection :=
  match found_clock b with
  | None => Err (Protocol (diagnostic_path path +:+ " must contain at least one event"))
  | Some clock =>
      last_event_type ← expect (last_event_type b);
      Ok (mkInspection clock (completed_turns b) (signature (event_prefix b)) last_event_type
            (prefix_metadata_valid b) (resume_marker_count b) (root_flow_definition_id b) validation)
  end.

Definition inspect_resume_session (path : AnchoredFile) (session_id : string) : eff Disk ResumeSessionInspection :=
  '((validation, b), _) ← for_each_segmented_jsonl_line inspect_line utf8_text path EVENT_STREAM_LIMITS
    (empty_state session_id, inspection_new);
  lift (finish_inspection path validation b).
End inspect.

(** * Comparison with the plan *)

Definition invalid_resume_prefix_error (path : AnchoredFile) (flow : FlowBlock) : RuntimeError :=
  Protocol (diagnostic_path path +:+ " is not a valid prefix of flow " +:+ id (flow_identity flow)).

Definition validate_resume_replay_prefix (path : AnchoredFile) (inspection : ResumeSessionInspection)
    (event_prefix_matches : bool) (planned : RuntimeExecution) (flow : FlowBlock) : result RuntimeError ResumeReplayPrefix :=
  if negb (insp_prefix_metadata_valid inspection)
     || (sig_record_count (exec_events planned) <? sig_record_count (insp_event_prefix inspection))
     || negb event_prefix_matches
  then Err (invalid_resume_prefix_error path flow)
  else Ok (mkReplayPrefix (sig_record_count (insp_event_prefix inspection)) (insp_resume_marker_count inspection)).

Definition checked_resume_event_count (planned_event_count resume_marker_count : Z) : result RuntimeError Z :=
  let total := planned_event_count + resume_marker_count + 1 in
  if MAX_FLOW_EVENTS <? total then
    Err (Protocol ("runtime event budget exceeded: resume requires " +:+ Z_to_string total +:+ " events; max "
                   +:+ Z_to_string MAX_FLOW_EVENTS))
  else Ok total.

(** The first id from [candidate] on that the log does not use; it has no more ids than [fuel]. *)
Fixpoint free_event_id (fuel : nat) (ids : gset string) (candidate : Z) : result RuntimeError string :=
  if bool_decide (runtime_event_id candidate ∈ ids) then
    match fuel with
    | O => Panic
    | S fuel => free_event_id fuel ids (sat_u64 (candidate + 1))
    end
  else Ok (runtime_event_id candidate).

Definition resume_append_plan (session_id : string) (validation : SessionAppendValidationState) (clock : EventClock)
    : result RuntimeError ResumeAppendPlan :=
  let seq := sat_u64 (previous_sequence validation + 1) in
  id ← free_event_id (size (event_ids validation)) (event_ids validation) seq;
  ts ← clock_timestamp clock seq;
  let marker := Event.new id SessionResumed session_id seq ts FLOW_AGENT_EVENT_SOURCE
                  (JObject [("reason", JString "resume")]) in
  stream ← canonical_event_stream [marker];
  Ok (mkAppendPlan marker stream).

(** ** The sink that compares *)

Record RuntimePrefixSink : Type := mkPrefixSink {
  sink_context_manifests : RuntimeStreamSignatureBuilder;
  sink_events : RuntimeStreamSignatureBuilder;
  expected_context_manifests : RuntimeStreamSignature;
  expected_events : RuntimeStreamSignature;
}.

Definition prefix_sink_new (expected_events expected_context_manifests : RuntimeStreamSignature) : RuntimePrefixSink :=
  mkPrefixSink (signature_new CONTEXT_PLAN_DOMAIN) (signature_new EVENT_PLAN_DOMAIN) expected_context_manifests
    expected_events.

Definition event_prefix_matches (s : RuntimePrefixSink) : bool := bool_decide (signature (sink_events s) = expected_events s).
Definition context_prefix_matches (s : RuntimePrefixSink) : bool :=
  bool_decide (signature (sink_context_manifests s) = expected_context_manifests s).

Definition prefix_sink_commit (canonical : string) (context_manifest : option ContextManifestCheckpoint)
    (s : RuntimePrefixSink) : RuntimePrefixSink :=
  let events :=
    if record_count (sink_events s) <? sig_record_count (expected_events s)
    then signature_push (sink_events s) canonical else sink_events s in
  let contexts :=
    match context_manifest with
    | Some checkpoint =>
        if record_count (sink_context_manifests s) <? sig_record_count (expected_context_manifests s)
        then signature_push (sink_context_manifests s) (manifest_line (checkpoint_manifest checkpoint))
        else sink_context_manifests s
    | None => sink_context_manifests s
    end in
  mkPrefixSink contexts events (expected_context_manifests s) (expected_events s).

Definition replay_action (s : RuntimePrefixSink) (action : FlowExecutionAction) : RuntimePrefixSink :=
  match action with
  | ActionEvent action => prefix_sink_commit (constructed_jsonl (action_event action)) (context_checkpoint action) s
  | ActionFixture _ => s
  end.

(** ** The replay of [resume_fixture_session_internal]

    From the inspection of the log, the contexts that were recorded and the plan to the position
    to resume at and the marker. *)
Definition in_flight_error (session_id tool_id : string) : RuntimeError :=
  Protocol ("cannot resume session " +:+ session_id +:+ " with in-flight tool " +:+ debug_str tool_id
            +:+ " before progress or terminal event").

Definition resume_replay (path context_path : AnchoredFile) (session_id : string) (clock : EventClock)
    (inspection : ResumeSessionInspection) (recorded_context : RuntimeStreamSignature) (plan : RuntimeExecution)
    (flow : FlowBlock) : result RuntimeError (ResumeReplayPrefix * ResumeAppendPlan) :=
  let sink := foldl replay_action (prefix_sink_new (insp_event_prefix inspection) recorded_context) (exec_actions plan) in
  reject (sig_record_count (exec_context_manifests plan) <? insp_completed_turns inspection)
         || (sig_record_count (exec_context_manifests plan) <? sig_record_count recorded_context)
         || negb (context_prefix_matches sink)
    with Protocol (diagnostic_path context_path +:+ " context manifests do not match deterministic replay") ;;
  resume_prefix ← validate_resume_replay_prefix path inspection (event_prefix_matches sink) plan flow;
  _ ← checked_resume_event_count (sig_record_count (exec_events plan)) (replay_marker_count resume_prefix);
  _ ← match tool_without_progress (lifecycle (insp_validation inspection)) with
      | Some tool_id => Err (in_flight_error session_id tool_id)
      | None => Ok tt
      end;
  append_plan ← resume_append_plan session_id (insp_validation inspection) clock;
  Ok (resume_prefix, append_plan).
End resume.

(** * The dry run *)

(** The account of a stream that records are added to. *)
Record SessionStreamPreflight : Type := mkStreamPreflight {
  pre_current_bytes : Z;
  pre_current_ordinal : Z;
  pre_limits : SessionStreamLimits;
  pre_path : AnchoredFile;
  pre_total_bytes : Z;
}.

Definition stream_preflight_open {K : Storage} (path : AnchoredFile) (lim : SessionStreamLimits)
    : eff Disk SessionStreamPreflight :=
  inventory ← session_stream_inventory path lim;
  mret (mkStreamPreflight (inv_current_bytes inventory) (inv_current_ordinal inventory) lim path (inv_total_bytes inventory)).

Definition stream_preflight_record (appended_bytes : Z) (s : SessionStreamPreflight)
    : result RuntimeError SessionStreamPreflight :=
  rotate ← session_stream_record_requires_rotation (pre_path s) (pre_limits s) (pre_current_bytes s)
    (pre_current_ordinal s) (pre_total_bytes s) appended_bytes;
  let ordinal := if (rotate : bool) then sat_u64 (pre_current_ordinal s + 1) else pre_current_ordinal s in
  let current := if rotate then 0 else pre_current_bytes s in
  Ok (mkStreamPreflight (sat_u64 (current + appended_bytes)) ordinal (pre_limits s) (pre_path s)
        (sat_u64 (pre_total_bytes s + appended_bytes))).

(** [SessionObjectWriter::preflight_all]. *)
Class ObjectPreflight (W : Type) : Type := { preflight_all : list ContextObject -> W -> result RuntimeError W }.

Section preflight.
Context {J : JsonEnv} {R : RuntimeEnv} {W : Type} {O : ObjectPreflight W}.

(** [context_persistence/manifest.rs]; [true] when the manifest is already stored. *)
Definition validate_context_manifest_checkpoint (path : AnchoredFile) (manifest_count : Z) (last_manifest : option string)
    (checkpoint : ContextManifestCheckpoint) : result RuntimeError bool :=
  let line := manifest_line (checkpoint_manifest checkpoint) in
  let replay := checkpoint_ordinal checkpoint =? manifest_count in
  reject replay && negb (bool_decide (last_manifest = Some line))
    with Protocol (diagnostic_path path +:+ " in-flight context manifest does not match deterministic replay") ;;
  reject negb replay && negb (checkpoint_ordinal checkpoint =? sat_u64 (manifest_count + 1))
    with Protocol (diagnostic_path path +:+ " context manifest ordinal " +:+ Z_to_string (checkpoint_ordinal checkpoint)
           +:+ " does not follow persisted ordinal " +:+ Z_to_string manifest_count) ;;
  reject String.eqb line "" || negb (ends_with_char lf line)
    with Protocol "context manifest must be one LF-terminated JSONL record" ;;
  Ok replay.

Record ContextManifestPreflight : Type := mkContextPreflight {
  pre_last_manifest : option string;
  pre_manifest_count : Z;
  pre_objects : W;
  pre_stream : SessionStreamPreflight;
}.

Definition context_preflight_record (checkpoint : ContextManifestCheckpoint) (s : ContextManifestPreflight)
    : result RuntimeError ContextManifestPreflight :=
  replay ← validate_context_manifest_checkpoint (pre_path (pre_stream s)) (pre_manifest_count s) (pre_last_manifest s) checkpoint;
  if (replay : bool) then Ok s
  else
    objects ← preflight_all (checkpoint_objects checkpoint) (pre_objects s);
    let line := manifest_line (checkpoint_manifest checkpoint) in
    stream ← stream_preflight_record (slen line) (pre_stream s);
    Ok (mkContextPreflight (Some line) (checkpoint_ordinal checkpoint) objects stream).

Record ResumePreflightSink : Type := mkPreflightSink {
  preflight_clock : EventClock;
  preflight_contexts : ContextManifestPreflight;
  preflight_events : SessionStreamPreflight;
  preflight_planned_count : Z;
  preflight_marker_count : Z;
}.

(** [contexts] is the account of the context manifests that [ContextManifestPreflight::open] reads. *)
Definition preflight_open {K : Storage} (path : AnchoredFile) (contexts : eff Disk ContextManifestPreflight)
    (marker_bytes : Z) (clock : EventClock) (planned_event_count resume_marker_count : Z) : eff Disk ResumePreflightSink :=
  events ← stream_preflight_open path EVENT_STREAM_LIMITS;
  events ← lift (stream_preflight_record marker_bytes events);
  contexts ← contexts;
  mret (mkPreflightSink clock contexts events planned_event_count resume_marker_count).

Definition preflight_event_budget (label : string) (seq : Z) : RuntimeError :=
  Protocol (label +:+ "event budget exceeded: prospective event count " +:+ Z_to_string seq +:+ " exceeds max "
            +:+ Z_to_string MAX_FLOW_EVENTS).

(** The event moved past the markers, within the budget of events and of bytes of one event. *)
Definition preflight_shifted (s : ResumePreflightSink) (label : string) (e : EventEnvelope) : result RuntimeError Z :=
  '(shifted, canonical) ← resumed_event e (preflight_marker_count s) (preflight_clock s);
  reject MAX_FLOW_EVENTS <? sequence shifted with preflight_event_budget label (sequence shifted) ;;
  _ ← map_err Invalid (validate_event_size (sequence shifted) (slen canonical));
  Ok (slen canonical).

Definition with_preflight (s : ResumePreflightSink) (contexts : ContextManifestPreflight) (events : SessionStreamPreflight)
    : ResumePreflightSink :=
  mkPreflightSink (preflight_clock s) contexts events (preflight_planned_count s) (preflight_marker_count s).

Definition preflight_commit (e : EventEnvelope) (context_manifest : option ContextManifestCheckpoint)
    (s : ResumePreflightSink) : result RuntimeError ResumePreflightSink :=
  if sequence e <=? preflight_planned_count s then Ok s
  else
    bytes ← preflight_shifted s "" e;
    contexts ← match context_manifest with
               | Some checkpoint => context_preflight_record checkpoint (preflight_contexts s)
               | None => Ok (preflight_contexts s)
               end;
    events ← stream_preflight_record bytes (preflight_events s);
    Ok (with_preflight s contexts events).

(** A refusal of the stream names the alternative. *)
Definition data_budget_error (label : string) (error : RuntimeError) : RuntimeError :=
  match error with
  | Protocol message => Protocol (label +:+ " data budget exceeded: " +:+ message)
  | error => error
  end.

Fixpoint preflight_alternative (s : ResumePreflightSink) (label : string) (alternative : list ConstructedRuntimeEvent)
    (events : SessionStreamPreflight) : result RuntimeError unit :=
  match alternative with
  | [] => Ok tt
  | event :: alternative =>
      bytes ← preflight_shifted s (label +:+ " ") (constructed_event event);
      events ← map_err (data_budget_error label) (stream_preflight_record bytes events);
      preflight_alternative s label alternative events
  end.

Fixpoint preflight_alternatives (s : ResumePreflightSink) (alternatives : list (string * list ConstructedRuntimeEvent))
    : result RuntimeError unit :=
  match alternatives with
  | [] => Ok tt
  | (label, alternative) :: alternatives =>
      _ ← preflight_alternative s label alternative (preflight_events s);
      preflight_alternatives s alternatives
  end.
End preflight.

Arguments ContextManifestPreflight : clear implicits.
Arguments ResumePreflightSink : clear implicits.

(** * The sink of a resumed session *)

Record ResumeEventSink : Type := mkResumeSink {
  sink_clock : EventClock;
  marker_committed : bool;
  sink_marker : ResumeAppendPlan;
  sink_planned_count : Z;
  sink_marker_count : Z;
  writer : Client;
}.

Section sink.
Context {J : JsonEnv} {H : Channels}.

Definition on_writer {A} (m : eff Client A) : eff ResumeEventSink A :=
  fun s =>
    let '(c, r) := m (writer s) in
    (mkResumeSink (sink_clock s) (marker_committed s) (sink_marker s) (sink_planned_count s) (sink_marker_count s) c, r).

Definition set_marker_committed : eff ResumeEventSink unit :=
  fun s => (mkResumeSink (sink_clock s) true (sink_marker s) (sink_planned_count s) (sink_marker_count s) (writer s), Ok tt).

Definition resume_sink_commit (e : EventEnvelope) (context_manifest : option ContextManifestCheckpoint)
    : eff ResumeEventSink unit :=
  fun s =>
    if sequence e <=? sink_planned_count s then (s, Ok tt)
    else
      (_ ← (if marker_committed s then mret tt
            else
              _ ← on_writer (writer_commit_event (marker_event (sink_marker s)) (marker_stream (sink_marker s)) None);
              set_marker_committed);
       '(shifted, canonical) ← lift (resumed_event e (sink_marker_count s) (sink_clock s));
       on_writer (writer_commit_event shifted canonical context_manifest)) s.
End sink.
