(* ===== verification/ResumeTheory.v ===== *)
(** Theorems on the inspection of a log: it accepts exactly the logs that the runtime writes,
    a planned stream whose events were moved past the markers of earlier resumptions, and finds
    what was planned.  The stream of a resumed session is valid: the validator does not depend on
    where an event stands, so what it accepts in the plan it accepts after the markers too. *)

From Stdlib Require Import ZArith Lia Ascii String.
From stdpp Require Import base strings sorting sets option gmap countable list.
From S2P Require Import Prelude Decimal Sorting Metadata Json FlowValue Event Lifecycle LifecycleTheory.
From S2P Require Import Validate ValidateTheory StreamProps.
From S2P Require Import Paths Values Blocks Registry Errors PhaseControl Policy OwnScript Context Builder BuilderTheory Planner.
From S2P Require Import Segments Appender Writer WriterClient Lines Resume.
From S2P Require Import Lifecycle Validate ValidateTheory.

Open Scope Z_scope.

(** * Positions *)

(** [e'] is [e] moved to position [i]. *)
Definition placed (clock : EventClock) (i : Z) (e e' : EventEnvelope) : Prop :=
  exists ts, clock_timestamp clock i = Ok ts /\ e' = with_position e i (runtime_event_id i) ts.

Lemma with_position_twice e i id ts j id' ts' :
  with_position (with_position e i id ts) j id' ts' = with_position e j id' ts'.
Proof. done. Qed.

Lemma placed_sequence clock i e e' : placed clock i e e' -> sequence e' = i.
Proof. by intros (ts & _ & ->). Qed.

Lemma placed_id clock i e e' : placed clock i e e' -> event_id e' = runtime_event_id i.
Proof. by intros (ts & _ & ->). Qed.

Lemma placed_again clock i j e e1 e2 : placed clock i e e1 -> placed clock j e e2 -> placed clock j e1 e2.
Proof. intros (ts & _ & ->) (ts' & H & ->). by exists ts'. Qed.

Lemma placed_unique clock i e e1 e2 : placed clock i e e1 -> placed clock i e e2 -> e1 = e2.
Proof. intros (ts & H1 & ->) (ts' & H2 & ->). rewrite H1 in H2. by injection H2 as ->. Qed.

Lemma placed_self clock i e :
  placed clock i e e <-> sequence e = i /\ event_id e = runtime_event_id i /\ clock_timestamp clock i = Ok (timestamp e).
Proof.
  split.
  - intros (ts & Hts & E). split_and!; [by rewrite E..|]. rewrite E. exact Hts.
  - intros (H1 & H2 & H3). exists (timestamp e). split; [done|]. destruct e. cbn in *. by subst.
Qed.

(** * Logs *)

(** [log] is what a log holds of the planned events [pre] after [k] resumptions. *)
Inductive log_of (clock : EventClock) : nat -> list EventEnvelope -> list EventEnvelope -> Prop :=
| log_nil : log_of clock 0 [] []
| log_event k pre log e e' :
    log_of clock k pre log -> event_type e <> SessionResumed ->
    placed clock (len pre + 1) e e -> placed clock (len log + 1) e e' ->
    log_of clock k (pre ++ [e]) (log ++ [e'])
| log_marker k pre log m :
    log_of clock k pre log -> event_type m = SessionResumed -> placed clock (len log + 1) m m ->
    log_of clock (S k) pre (log ++ [m]).

Lemma log_of_len clock k pre log : log_of clock k pre log -> len log = len pre + Z.of_nat k.
Proof. unfold len. induction 1; rewrite ?length_app; cbn [List.length]; lia. Qed.

Lemma log_of_placed clock k pre log i e : log_of clock k pre log -> log !! i = Some e -> placed clock (Z.of_nat i + 1) e e.
Proof.
  assert (forall (l : list EventEnvelope) (m : EventEnvelope), placed clock (len l + 1) m m ->
    (forall i e, l !! i = Some e -> placed clock (Z.of_nat i + 1) e e) ->
    forall i e, (l ++ [m]) !! i = Some e -> placed clock (Z.of_nat i + 1) e e) as Hsnoc.
  { intros l m Hm Hl j x Hj. apply lookup_app_Some in Hj as [Hj|[Hj Hx]]; [by apply Hl|].
    apply list_lookup_singleton_Some in Hx as [Hx <-]. unfold len in Hm. by replace (Z.of_nat j) with (Z.of_nat (List.length l)) by lia. }
  intros H. revert i e. induction H as [|k pre log e e' _ IH _ _ He'|k pre log m _ IH _ Hm]; [done|..].
  - apply Hsnoc; [|done]. by eapply placed_again.
  - by apply Hsnoc.
Qed.

(** ** What the inspection gathers *)

Section observe.
Context {J : JsonEnv} {R : RuntimeEnv}.

Fixpoint observe_all (log : list EventEnvelope) (b : ResumeInspectionBuilder) : result RuntimeError ResumeInspectionBuilder :=
  match log with
  | [] => Ok b
  | e :: log => b ← inspection_observe e b; observe_all log b
  end.

Lemma observe_all_app l k b : observe_all (l ++ k) b = (b ← observe_all l b; observe_all k b).
Proof. revert b. induction l as [|e l IH]; intros b; [done|]. cbn [observe_all app]. destruct (inspection_observe e b); cbn; [apply IH|done..]. Qed.

Lemma observe_all_snoc l e b b' :
  observe_all (l ++ [e]) b = Ok b' <-> exists b1, observe_all l b = Ok b1 /\ inspection_observe e b1 = Ok b'.
Proof.
  rewrite observe_all_app. destruct (observe_all l b) as [b1| |]; cbn [mbind result_bind]; [|split; [done|by intros (? & ? & _)]..].
  cbn [observe_all]. split.
  - intros H. exists b1. split; [done|]. by destruct (inspection_observe e b1).
  - intros (b2 & [= <-] & H). by rewrite H.
Qed.

Definition signed_events (lines : list string) : RuntimeStreamSignatureBuilder :=
  foldl signature_push (signature_new EVENT_PLAN_DOMAIN) lines.

Definition written (e : EventEnvelope) (line : string) : Prop := canonical_jsonl e = Ok line.

(** The builder after [log], when the positions of all events are as expected. *)
Record gathered (clock : EventClock) (k : nat) (pre log : list EventEnvelope) (lines : list string)
    (b : ResumeInspectionBuilder) : Prop := {
  ga_log : log_of clock k pre log;
  ga_lines : Forall2 written pre lines;
  ga_clock : found_clock b = if decide (log = []) then None else Some clock;
  ga_prefix : event_prefix b = signed_events lines;
  ga_valid : prefix_metadata_valid b = true;
  ga_markers : resume_marker_count b = Z.of_nat k;
  ga_last : last_event_type b = event_type <$> last log;
  ga_turns : completed_turns b = len (filter (fun e => event_type e = MessageCompleted) log);
}.

Lemma sat_in_i64 z : in_i64 (sat_i64 z).
Proof. unfold in_i64, sat_i64, clamp, i64_min, i64_max. lia. Qed.

Lemma parse_in_i64 text n : parse_rfc3339_utc_timestamp text = Some n -> in_i64 n.
Proof.
  unfold parse_rfc3339_utc_timestamp. intros H.
  apply bind_Some in H as (v & _ & H). apply bind_Some in H as ([] & _ & H). apply bind_Some in H as ([[]] & _ & H).
  apply bind_Some in H as ([[]] & _ & [= <-]).
  apply sat_in_i64.
Qed.

Lemma first_event_clock clock e : in_i64 (base_unix_seconds clock) -> placed clock 1 e e -> from_first_event e = Some clock.
Proof.
  intros Hc (Hs & _ & Ht)%placed_self. unfold from_first_event, clock_timestamp in *. rewrite Hs.
  change (clock_offset 1) with 0 in *. rewrite Z.add_0_r, sat_i64_id in Ht by done.
  destruct (format_rfc3339_utc_timestamp (base_unix_seconds clock)) as [text|] eqn:E; [|done]. injection Ht as <-.
  rewrite (timestamp_format_parse _ _ E). cbn. rewrite Z.sub_0_r, sat_i64_id by done. by destruct clock.
Qed.

Lemma first_event_in_i64 clock e : from_first_event e = Some clock -> in_i64 (base_unix_seconds clock).
Proof.
  unfold from_first_event. destruct (parse_rfc3339_utc_timestamp (timestamp e)); [|done]. intros [= <-]. apply sat_in_i64.
Qed.

(** ** One event *)

(** The Flows that start without a parent name their definition. *)
Definition names_root (e : EventEnvelope) : Prop :=
  event_type e = FlowStarted -> is_Some (payload_str e "flow_definition_id").

Lemma observed_root_Ok b e : names_root e -> exists root, observed_root_flow b e = Ok root.
Proof.
  intros H. unfold observed_root_flow. destruct (is_none (root_flow_definition_id b)); [|by eexists].
  case_bool_decide as Ht; [|by eexists]. destruct (is_none (parent_flow_id e)); [|by eexists]. cbn.
  destruct (H Ht) as [x ->]. by eexists.
Qed.

(** The position check of an event. *)
Definition position_check (clock : EventClock) (e : EventEnvelope) : result RuntimeError bool :=
  if String.eqb (event_id e) (runtime_event_id (sequence e)) then
    ts ← clock_timestamp clock (sequence e); Ok (String.eqb (timestamp e) ts)
  else Ok false.

Lemma position_check_true clock e : position_check clock e = Ok true <-> placed clock (sequence e) e e.
Proof.
  unfold position_check. rewrite placed_self. destruct (String.eqb_spec (event_id e) (runtime_event_id (sequence e))) as [Hid|Hid].
  - destruct (clock_timestamp clock (sequence e)) as [ts| |]; cbn; [|by split; [|intros (_ & _ & ?)]..].
    destruct (String.eqb_spec (timestamp e) ts) as [->|Hne]; [by split|]. split; [done|]. by intros (_ & _ & [= ?]).
  - split; [done|]. by intros (_ & ? & _).
Qed.

Lemma normalized_placed clock e e' n m ts :
  placed clock n e e -> placed clock m e e' -> 0 < n -> clock_timestamp clock n = Ok ts ->
  normalized_event e' (m - n) clock = (if m - n <=? m then Ok e else Err (Protocol "resume marker count exceeds event sequence")).
Proof.
  intros Hn Hm H0 Hts. unfold normalized_event. rewrite (placed_sequence _ _ _ _ Hm).
  destruct (Z.leb_spec (m - n) m); [|done]. replace (m - (m - n)) with n by lia.
  destruct (Z.ltb_spec 0 n); [|lia]. cbn [ok_or mbind result_bind]. rewrite Hts. cbn.
  destruct Hm as (ts' & _ & ->). destruct Hn as (ts'' & Hts'' & ->). rewrite Hts in Hts''. injection Hts'' as <-. done.
Qed.

Lemma observe_eq e b :
  inspection_observe e b =
    (clock ← observed_clock b e; root ← observed_root_flow b e; expected ← position_check clock e;
     let turns := completed_turns b + (if bool_decide (event_type e = MessageCompleted) then 1 else 0) in
     let valid := prefix_metadata_valid b && expected in
     if bool_decide (event_type e = SessionResumed) then
       Ok (mkInspecting (Some clock) turns (event_prefix b) (Some (event_type e)) valid
             (sat_u64 (resume_marker_count b + 1)) root)
     else
       normalized ← normalized_event e (resume_marker_count b) clock;
       canonical ← map_err (Unserializable "normalized resume event") (canonical_jsonl normalized);
       Ok (mkInspecting (Some clock) turns (signature_push (event_prefix b) canonical) (Some (event_type e)) valid
             (resume_marker_count b) root)).
Proof. done. Qed.

Lemma turns_snoc (log : list EventEnvelope) e :
  len (filter (fun e => event_type e = MessageCompleted) (log ++ [e])) =
  len (filter (fun e => event_type e = MessageCompleted) log) + (if bool_decide (event_type e = MessageCompleted) then 1 else 0).
Proof.
  unfold len. rewrite filter_app, length_app. case_bool_decide as Ht.
  - rewrite filter_cons_True by done. cbn. lia.
  - rewrite filter_cons_False by done. cbn. lia.
Qed.

Section step.
Context (clock : EventClock) (k : nat) (pre log : list EventEnvelope) (lines : list string) (b : ResumeInspectionBuilder).
Context (Hg : gathered clock k pre log lines b).

Lemma known_clock e : in_i64 (base_unix_seconds clock) -> placed clock (len log + 1) e e -> observed_clock b e = Ok clock.
Proof.
  intros Hc He. unfold observed_clock. rewrite (ga_clock _ _ _ _ _ _ Hg). destruct (decide (log = [])) as [->|_]; [|done].
  by rewrite (first_event_clock clock e).
Qed.

Lemma gathered_extended e root pre' k' lines' :
  log_of clock k' pre' (log ++ [e]) -> Forall2 written pre' lines' ->
  gathered clock k' pre' (log ++ [e]) lines'
    (mkInspecting (Some clock) (completed_turns b + (if bool_decide (event_type e = MessageCompleted) then 1 else 0))
       (signed_events lines') (Some (event_type e)) true (Z.of_nat k') root).
Proof.
  intros Hl Hw. constructor; cbn; try done.
  - destruct (decide (log ++ [e] = [])) as [E|]; [by destruct log|done].
  - by rewrite last_snoc.
  - rewrite turns_snoc. by rewrite (ga_turns _ _ _ _ _ _ Hg).
Qed.

Context (Hfit : len log + 1 <= u64_max).

Lemma observe_marker m :
  in_i64 (base_unix_seconds clock) -> event_type m = SessionResumed -> placed clock (len log + 1) m m ->
  exists b', inspection_observe m b = Ok b' /\ gathered clock (S k) pre (log ++ [m]) lines b'.
Proof.
  intros Hc Ht Hm. pose proof (placed_sequence _ _ _ _ Hm) as Hseq. destruct (observed_root_Ok b m) as [root Hroot]; [by intros ?; congruence|].
  rewrite observe_eq, (known_clock m Hc Hm), Hroot. cbn [mbind result_bind].
  rewrite (proj2 (position_check_true clock m)) by (by rewrite Hseq). cbn [mbind result_bind].
  rewrite (bool_decide_eq_true_2 (event_type m = SessionResumed)) by done. eexists. split; [reflexivity|].
  rewrite (ga_valid _ _ _ _ _ _ Hg), (ga_markers _ _ _ _ _ _ Hg), (ga_prefix _ _ _ _ _ _ Hg).
  pose proof (log_of_len _ _ _ _ (ga_log _ _ _ _ _ _ Hg)). rewrite sat_u64_id by (unfold in_u64, len in *; lia).
  replace (Z.of_nat k + 1) with (Z.of_nat (S k)) by lia. cbn [andb]. apply gathered_extended; [|apply Hg].
  apply log_marker; [apply Hg|done..].
Qed.

Lemma observe_planned e e' line :
  in_i64 (base_unix_seconds clock) -> event_type e <> SessionResumed -> placed clock (len pre + 1) e e ->
  placed clock (len log + 1) e e' -> written e line -> names_root e ->
  exists b', inspection_observe e' b = Ok b' /\ gathered clock k (pre ++ [e]) (log ++ [e']) (lines ++ [line]) b'.
Proof.
  intros Hc Ht He He' Hline Hroot. assert (placed clock (len log + 1) e' e') as Hself by (by eapply placed_again).
  pose proof (placed_sequence _ _ _ _ Hself) as Hseq.
  assert (event_type e' = event_type e) as Htype by (by destruct He' as (? & _ & ->)).
  destruct (observed_root_Ok b e') as [root Hr].
  { intros Hs. rewrite Htype in Hs. destruct He' as (? & _ & ->). by apply Hroot. }
  rewrite observe_eq, (known_clock e' Hc Hself), Hr. cbn [mbind result_bind].
  rewrite (proj2 (position_check_true clock e')) by (by rewrite Hseq). cbn [mbind result_bind].
  rewrite (bool_decide_eq_false_2 (event_type e' = SessionResumed)) by (by rewrite Htype).
  pose proof (log_of_len _ _ _ _ (ga_log _ _ _ _ _ _ Hg)) as Hlen. destruct He as (ts & Hts & Ee).
  rewrite (ga_markers _ _ _ _ _ _ Hg). replace (Z.of_nat k) with (len log + 1 - (len pre + 1)) by lia.
  rewrite (normalized_placed clock e e' (len pre + 1) (len log + 1) ts); [|by exists ts|done|unfold len; lia|done].
  destruct (Z.leb_spec (len log + 1 - (len pre + 1)) (len log + 1)); [|unfold len in *; lia]. cbn [mbind result_bind].
  rewrite Hline. cbn [map_err mbind result_bind]. eexists. split; [reflexivity|].
  rewrite (ga_valid _ _ _ _ _ _ Hg), (ga_prefix _ _ _ _ _ _ Hg). cbn [andb].
  replace (len log + 1 - (len pre + 1)) with (Z.of_nat k) by lia.
  assert (signature_push (signed_events lines) line = signed_events (lines ++ [line])) as ->
    by (unfold signed_events; by rewrite foldl_app).
  apply gathered_extended; [|apply Forall2_app; [apply Hg|by constructor]].
  apply log_event; [apply Hg|done|by exists ts|done].
Qed.

End step.

Lemma gathered_nil clock clock' k pre lines b : gathered clock k pre [] lines b -> gathered clock' k pre [] lines b.
Proof.
  intros []. assert (k = O /\ pre = []) as [-> ->].
  { inversion ga_log0; subst; try done; match goal with H : ?l ++ [_] = [] |- _ => by apply app_eq_nil in H as [_ ?] end. }
  constructor; try done. constructor.
Qed.

Lemma Ok_inj {E A} (a a' : A) : Ok (E := E) a = Ok a' -> a = a'.
Proof. by intros [= ->]. Qed.

(** An observed event that keeps the positions valid is a marker or a planned event in its place. *)
Lemma observe_inv clock k pre log lines b e b' :
  gathered clock k pre log lines b -> len log + 1 <= u64_max -> (log <> [] -> in_i64 (base_unix_seconds clock)) ->
  inspection_observe e b = Ok b' -> prefix_metadata_valid b' = true -> sequence e = len log + 1 ->
  exists clock' k' pre' lines', gathered clock' k' pre' (log ++ [e]) lines' b' /\ in_i64 (base_unix_seconds clock').
Proof.
  intros Hg Hfit Hi He Hvalid Hseq. rewrite observe_eq in He.
  apply bind_Ok_inv in He as (clock' & Hc & He). apply bind_Ok_inv in He as (root & Hr & He).
  apply bind_Ok_inv in He as (expected & Hp & He).
  assert (gathered clock' k pre log lines b /\ in_i64 (base_unix_seconds clock')) as [Hg' Hi'].
  { unfold observed_clock in Hc. rewrite (ga_clock _ _ _ _ _ _ Hg) in Hc. destruct (decide (log = [])) as [->|Hne].
    - split; [by eapply gathered_nil|]. destruct (from_first_event e) eqn:Ef; [|done]. injection Hc as <-.
      by eapply first_event_in_i64.
    - injection Hc as <-. split; [done|]. by apply Hi. }
  clear Hg Hi Hc. pose proof (log_of_len _ _ _ _ (ga_log _ _ _ _ _ _ Hg')) as Hlen.
  assert (expected = true) as ->.
  { destruct (bool_decide (event_type e = SessionResumed)); [apply Ok_inj in He; subst b'; cbn in Hvalid; by apply andb_true_iff in Hvalid as [_ ?]|].
    apply bind_Ok_inv in He as (n & _ & He). apply bind_Ok_inv in He as (c & _ & He). apply Ok_inj in He. subst b'.
    cbn in Hvalid. by apply andb_true_iff in Hvalid as [_ ?]. }
  apply position_check_true in Hp. rewrite Hseq in Hp. exists clock'.
  rewrite (ga_valid _ _ _ _ _ _ Hg'), (ga_markers _ _ _ _ _ _ Hg'), (ga_prefix _ _ _ _ _ _ Hg') in He. cbn [andb] in He.
  case_bool_decide as Ht.
  - apply Ok_inj in He. exists (S k), pre, lines. split; [|done]. rewrite sat_u64_id in He by (unfold in_u64, len in *; lia).
    replace (Z.of_nat k + 1) with (Z.of_nat (S k)) in He by lia. subst b'.
    apply (gathered_extended clock' k pre log lines b Hg'); [|apply Hg']. apply log_marker; [apply Hg'|done..].
  - apply bind_Ok_inv in He as (normalized & Hn & He). apply bind_Ok_inv in He as (line & Hline & He). apply Ok_inj in He.
    exists k, (pre ++ [normalized]), (lines ++ [line]). split; [|done]. subst b'.
    assert (signature_push (signed_events lines) line = signed_events (lines ++ [line])) as ->
      by (unfold signed_events; by rewrite foldl_app).
    assert (placed clock' (len pre + 1) e normalized) as Hplace.
    { unfold normalized_event in Hn. rewrite Hseq in Hn. apply bind_Ok_inv in Hn as (n & Hn & H).
      apply bind_Ok_inv in H as (ts & Hts & H). apply Ok_inj in H. subst normalized.
      destruct (Z.leb_spec (Z.of_nat k) (len log + 1)); [|done]. destruct (Z.ltb_spec 0 (len log + 1 - Z.of_nat k)); [|done].
      injection Hn as <-. replace (len log + 1 - Z.of_nat k) with (len pre + 1) in * by lia. by exists ts. }
    apply (gathered_extended clock' k pre log lines b Hg').
    + assert (event_type normalized = event_type e) as Htype by (by destruct Hplace as (? & _ & ->)).
      apply log_event; [apply Hg'|by rewrite Htype|by eapply placed_again|by eapply placed_again].
    + apply Forall2_app; [apply Hg'|]. constructor; [|constructor]. unfold written.
      revert Hline. destruct (canonical_jsonl normalized); cbn; congruence.
Qed.

(** * Exactness *)

Lemma gathered_new clock : gathered clock 0 [] [] [] inspection_new.
Proof. constructor; try done. constructor. Qed.

Lemma observe_valid_before e b b' : inspection_observe e b = Ok b' -> prefix_metadata_valid b' = true -> prefix_metadata_valid b = true.
Proof.
  rewrite observe_eq. intros He Hv. apply bind_Ok_inv in He as (clock & _ & He). apply bind_Ok_inv in He as (root & _ & He).
  apply bind_Ok_inv in He as (expected & _ & He). destruct (bool_decide (event_type e = SessionResumed)).
  - apply Ok_inj in He. subst b'. cbn in Hv. by apply andb_true_iff in Hv as [? _].
  - apply bind_Ok_inv in He as (n & _ & He). apply bind_Ok_inv in He as (c & _ & He). apply Ok_inj in He. subst b'.
    cbn in Hv. by apply andb_true_iff in Hv as [? _].
Qed.

Lemma observe_sound log b :
  (forall i e, log !! i = Some e -> sequence e = Z.of_nat i + 1) -> len log <= u64_max ->
  observe_all log inspection_new = Ok b -> prefix_metadata_valid b = true ->
  exists clock k pre lines, gathered clock k pre log lines b /\ (log <> [] -> in_i64 (base_unix_seconds clock)).
Proof.
  revert b. induction log as [|e log IH] using rev_ind; intros b Hseq Hlen Ho Hv.
  - injection Ho as <-. exists (mkClock 0), O, [], []. split; [apply gathered_new|done].
  - apply observe_all_snoc in Ho as (b1 & Ho & He).
    assert (len (log ++ [e]) = len log + 1) as Hl by (unfold len; rewrite length_app; cbn; lia).
    destruct (IH b1) as (clock & k & pre & lines & Hg & Hi); [|lia|done|by eapply observe_valid_before|].
    { intros i x Hi. apply Hseq. by apply lookup_app_l_Some. }
    destruct (observe_inv clock k pre log lines b1 e b) as (clock' & k' & pre' & lines' & Hg' & Hi'); try done; [lia| |].
    { unfold len. apply Hseq. by rewrite lookup_app_r, Nat.sub_diag. }
    by exists clock', k', pre', lines'.
Qed.

Lemma observe_complete clock k pre log lines :
  log_of clock k pre log -> in_i64 (base_unix_seconds clock) -> len log <= u64_max -> Forall2 written pre lines ->
  Forall names_root pre -> exists b, observe_all log inspection_new = Ok b /\ gathered clock k pre log lines b.
Proof.
  intros Hlog Hi. revert lines. induction Hlog as [|k pre log e e' Hlog IH Ht He He'|k pre log m Hlog IH Ht Hm];
    intros lines Hlen Hw Hn.
  - apply Forall2_nil_inv_l in Hw as ->. exists inspection_new. split; [done|apply gathered_new].
  - assert (len (log ++ [e']) = len log + 1) as Hl by (unfold len; rewrite length_app; cbn; lia).
    apply Forall2_app_inv_l in Hw as (l1 & l2 & Hw1 & Hw2 & ->). apply Forall2_cons_inv_l in Hw2 as (line & ? & Hline & Hnil & ->).
    apply Forall2_nil_inv_l in Hnil as ->. apply Forall_app in Hn as [Hn1 Hn2].
    destruct (IH l1) as (b & Hb & Hg); [lia|done|done|].
    destruct (observe_planned clock k pre log l1 b Hg e e' line) as (b' & Hb' & Hg'); try done; [by apply Forall_cons in Hn2 as [? _]|].
    exists b'. split; [|done]. apply observe_all_snoc. by exists b.
  - assert (len (log ++ [m]) = len log + 1) as Hl by (unfold len; rewrite length_app; cbn; lia).
    destruct (IH lines) as (b & Hb & Hg); [lia|done|done|].
    destruct (observe_marker clock k pre log lines b Hg ltac:(lia) m) as (b' & Hb' & Hg'); try done.
    exists b'. split; [|done]. apply observe_all_snoc. by exists b.
Qed.
End observe.

(** * Lifecycles up to line numbers *)

Definition unlined_tracker {K} `{Countable K} (t : LifecycleTracker K) : LifecycleTracker K :=
  {| active := active t; terminal := (fun _ => 0) <$> terminal t |}.

Definition unlined (s : SessionLifecycleState) : SessionLifecycleState :=
  {| flows := unlined_tracker (flows s); flow_definition_ids := flow_definition_ids s;
     flow_parents := flow_parents s; terminal_phases := (fun _ => 0) <$> terminal_phases s;
     tools := unlined_tracker (tools s); terminal_messages := (fun _ => 0) <$> terminal_messages s;
     active_message_roles := active_message_roles s; active_phases := active_phases s;
     tools_without_progress := tools_without_progress s |}.

(** Two checks agree when both pass with the same value or none passes. *)
Definition agree {E A} (r r' : result E A) : Prop :=
  match r, r' with
  | Ok a, Ok b => a = b
  | Ok _, _ | _, Ok _ => False
  | _, _ => True
  end.

Create HintDb agree.

Lemma agree_refl {E A} (r : result E A) : agree r r.
Proof. by destruct r. Qed.

Lemma agree_err {E A} (e e' : E) : agree (A := A) (Err e) (Err e').
Proof. done. Qed.

Lemma agree_Ok {E A} (r r' : result E A) a : agree r r' -> r = Ok a -> r' = Ok a.
Proof. intros H ->. by destruct r'; cbn in H; subst. Qed.

Lemma agree_bind {E A B} (m m' : result E A) (f f' : A -> result E B) :
  agree m m' -> (forall a, agree (f a) (f' a)) -> agree (m ≫= f) (m' ≫= f').
Proof. destruct m, m'; cbn; try done. intros -> H. apply H. Qed.

Lemma agree_if {E A} (b : bool) (r r' k k' : result E A) :
  agree r r' -> agree k k' -> agree (if b then r else k) (if b then r' else k').
Proof. by destruct b. Qed.

Lemma agree_option {E A B} (o : option B) (r r' : B -> result E A) k k' :
  (forall b, agree (r b) (r' b)) -> agree k k' ->
  agree (match o with Some b => r b | None => k end) (match o with Some b => r' b | None => k' end).
Proof. by destruct o. Qed.

Lemma agree_ok_or {E A} (o : option A) (e e' : E) : agree (ok_or o e) (ok_or o e').
Proof. by destruct o. Qed.

#[export] Hint Resolve agree_refl agree_err agree_ok_or : agree.

Lemma agree_terminal l l' e kind key (o : option Z) :
  agree (reject_terminal l e kind key o) (reject_terminal l' e kind key ((fun _ => 0) <$> o)).
Proof. by destruct o. Qed.
#[export] Hint Resolve agree_terminal : agree.

Ltac agree :=
  cbn zeta;
  repeat first
    [ solve [auto with agree]
    | apply agree_bind; [|intros ?]
    | apply agree_if
    | apply agree_option; [intros ?|] ].

Section unlined.
Context (s : SessionLifecycleState) (l l' : Z) (e : EventEnvelope).

Lemma unlined_started {K} `{Countable K} (t : LifecycleTracker K) key : is_started (unlined_tracker t) key = is_started t key.
Proof. unfold is_started. cbn. rewrite lookup_fmap. by destruct (terminal t !! key). Qed.

Lemma unlined_line {K} `{Countable K} (t : LifecycleTracker K) key :
  terminal_line_of (unlined_tracker t) key = (fun _ => 0) <$> terminal_line_of t key.
Proof. unfold terminal_line_of. cbn [terminal unlined_tracker]. by rewrite lookup_fmap. Qed.

Lemma flow_id_agrees : agree (require_lifecycle_flow_id l e) (require_lifecycle_flow_id l' e).
Proof. apply agree_ok_or. Qed.
Hint Resolve flow_id_agrees : agree.

Lemma leaf_agrees phases : agree (require_active_leaf_phase l e phases) (require_active_leaf_phase l' e phases).
Proof. unfold require_active_leaf_phase. agree. Qed.
Hint Resolve leaf_agrees : agree.

Lemma message_key_agrees : agree (lifecycle_message_key l e) (lifecycle_message_key l' e).
Proof. unfold lifecycle_message_key. agree. Qed.
Hint Resolve message_key_agrees : agree.

Lemma terminal_tool_agrees tool : agree (reject_terminal_tool_event s l e tool) (reject_terminal_tool_event (unlined s) l' e tool).
Proof. unfold reject_terminal_tool_event. cbn [tools unlined]. rewrite unlined_line. agree. Qed.
Hint Resolve terminal_tool_agrees : agree.

Lemma flow_open_agrees : agree (validate_flow_open s l e) (validate_flow_open (unlined s) l' e).
Proof. unfold validate_flow_open. cbn [flows unlined]. agree. rewrite unlined_started, unlined_line. agree. Qed.

Lemma parent_agrees : agree (validate_lifecycle_parent l e (flows s) (flow_parents s))
  (validate_lifecycle_parent l' e (flows (unlined s)) (flow_parents (unlined s))).
Proof.
  unfold validate_lifecycle_parent. cbn [flows flow_parents unlined]. agree. rewrite unlined_started, unlined_line. agree.
  by destruct (terminal_line_of (flows s) b0).
Qed.

Lemma flow_end_agrees : agree (validate_flow_end s l e) (validate_flow_end (unlined s) l' e).
Proof. unfold validate_flow_end. cbn [flows flow_definition_ids active_phases flow_parents unlined]. agree. Qed.

Lemma phase_entered_agrees : agree (validate_phase_entered s l e) (validate_phase_entered (unlined s) l' e).
Proof. unfold validate_phase_entered. cbn [terminal_phases active_phases unlined]. agree. rewrite lookup_fmap. agree. Qed.

Lemma phase_end_agrees : agree (validate_phase_end s l e) (validate_phase_end (unlined s) l' e).
Proof.
  unfold validate_phase_end. cbn [terminal_phases active_phases tools active_message_roles unlined]. agree.
  rewrite lookup_fmap. agree.
Qed.

Lemma tool_started_agrees : agree (validate_tool_started s l e) (validate_tool_started (unlined s) l' e).
Proof. unfold validate_tool_started. cbn [active_phases tools unlined]. agree. rewrite unlined_started. agree. Qed.

Lemma tool_running_agrees : agree (validate_tool_running s l e) (validate_tool_running (unlined s) l' e).
Proof. unfold validate_tool_running. cbn [active_phases tools unlined]. agree. rewrite unlined_started. agree. Qed.

Lemma tool_failed_agrees : agree (validate_tool_failed s l e) (validate_tool_failed (unlined s) l' e).
Proof. unfold validate_tool_failed. cbn [active_phases tools unlined]. agree. rewrite unlined_started. agree. Qed.

Lemma active_work_agrees : agree (require_active_work s l e) (require_active_work (unlined s) l' e).
Proof. unfold require_active_work. cbn [active_phases unlined]. agree. Qed.

Lemma message_delta_agrees : agree (validate_message_delta s l e) (validate_message_delta (unlined s) l' e).
Proof. unfold validate_message_delta. cbn [terminal_messages active_message_roles unlined]. agree. rewrite lookup_fmap. agree. Qed.

Lemma message_completed_agrees : agree (validate_message_completed s l e) (validate_message_completed (unlined s) l' e).
Proof. unfold validate_message_completed. cbn [terminal_messages active_message_roles unlined]. agree. rewrite lookup_fmap. agree. Qed.
End unlined.

#[export] Hint Resolve flow_id_agrees flow_open_agrees parent_agrees flow_end_agrees phase_entered_agrees phase_end_agrees
  tool_started_agrees tool_running_agrees tool_failed_agrees active_work_agrees message_delta_agrees message_completed_agrees : agree.

Lemma validate_unlined s l e : event_type e <> SessionStarted ->
  agree (lifecycle_validate_event s l e) (lifecycle_validate_event (unlined s) 1 e).
Proof.
  intros Hl. unfold lifecycle_validate_event. rewrite (bool_decide_eq_false_2 _ Hl), !andb_false_r. agree.
  destruct (event_type e); agree.
Qed.

Lemma record_unlined s l e s' :
  lifecycle_record_event s l e = Ok s' -> lifecycle_record_event (unlined s) 0 e = Ok (unlined s').
Proof.
  unfold lifecycle_record_event. cbn [active_message_roles active_phases unlined].
  destruct (event_type e); intros H; inv_ok; try done;
    repeat match goal with
    | H : expect ?o = Ok _ |- _ => rewrite H
    | H : ?o = Some _ |- context [expect ?o] => rewrite H
    | H : lifecycle_payload_string ?a ?b = Ok _ |- _ => rewrite H
    | H : lifecycle_phase_key ?a = Ok _ |- _ => rewrite H
    | H : lifecycle_tool_key ?a ?b = Ok _ |- _ => rewrite H
    end; cbn [expect mbind result_bind];
    try (destruct (active_message_roles s !! _); inv_ok; [done|];
         match goal with H : lifecycle_payload_string ?a ?b = Ok _ |- _ => rewrite H end; done);
    unfold unlined, with_flows_state, with_phases, with_tools, with_messages, finish, unlined_tracker;
    cbn; rewrite ?fmap_insert; done.
Qed.

Lemma terminal_unlined s e : validate_terminal_session (unlined s) (Some e) = validate_terminal_session s (Some e).
Proof. done. Qed.

(** * Validation states *)

(** [L] is [P] up to the position in the stream. *)
Record moved (P L : SessionAppendValidationState) : Prop := {
  mv_expected : expected_session_id L = expected_session_id P;
  mv_session : stream_session_id L = stream_session_id P;
  mv_flows : flow_started_ids L = flow_started_ids P;
  mv_terminal : terminal_line L = None <-> terminal_line P = None;
  mv_lifecycle : unlined (lifecycle L) = unlined (lifecycle P);
}.

Lemma lifecycle_of_placed clock i e e' s l :
  placed clock i e e' -> lifecycle_validate_event s l e' = lifecycle_validate_event s l e /\
    lifecycle_record_event s l e' = lifecycle_record_event s l e /\
    validate_terminal_session s (Some e') = validate_terminal_session s (Some e).
Proof. by intros (ts & _ & ->). Qed.

Lemma record_same_life P L l l' e P' L' :
  unlined (lifecycle L) = unlined (lifecycle P) ->
  lifecycle_record_event (lifecycle P) l e = Ok (lifecycle P') -> lifecycle_record_event (lifecycle L) l' e = Ok (lifecycle L') ->
  unlined (lifecycle L') = unlined (lifecycle P').
Proof.
  intros Hu HP%record_unlined HL%record_unlined. rewrite Hu in HL. rewrite HL in HP. by apply Ok_inj in HP.
Qed.

Lemma moved_record clock i e e' P L l l' b b' P' L' :
  moved P L -> placed clock i e e' -> record_event P l e b = Ok P' -> record_event L l' e' b' = Ok L' -> moved P' L'.
Proof.
  intros [M1 M2 M3 M4 M5] He (P1 & P2 & _ & _ & P3 & P4 & _ & _ & P5)%record_event_Ok
    (L1 & L2 & _ & _ & L3 & L4 & _ & _ & L5)%record_event_Ok.
  rewrite (proj1 (proj2 (lifecycle_of_placed _ _ _ _ _ _ He))) in L5. destruct He as (ts & _ & ->).
  constructor; [congruence|by rewrite L2, P2, M2| | |by eapply record_same_life].
  - rewrite L3, P3, M3. done.
  - rewrite L4, P4. cbn. by destruct (is_session_end (event_type e)).
Qed.

Lemma moved_marker P L m l b L' :
  moved P L -> event_type m = SessionResumed -> record_event L l m b = Ok L' -> is_Some (stream_session_id L) -> moved P L'.
Proof.
  intros [M1 M2 M3 M4 M5] Ht (L1 & L2 & _ & _ & L3 & L4 & _ & _ & L5)%record_event_Ok [x Hx].
  rewrite Ht in L4. unfold lifecycle_record_event in L5. rewrite Ht in L5. apply Ok_inj in L5.
  unfold started_flow in L3. rewrite bool_decide_eq_false_2 in L3 by (by rewrite Ht).
  constructor; [congruence|rewrite L2, <- M2, Hx; done|congruence|rewrite L4; done|by rewrite <- L5].
Qed.

Section stream.
Context {J : JsonEnv}.

Lemma run_last_step st evs e st'' :
  stream_run st evs st'' -> forall es, map fst evs = es ++ [e] ->
  exists evs' b st', evs = evs' ++ [(e, b)] /\ map fst evs' = es /\ stream_run st evs' st' /\ stream_step st' e b st''.
Proof.
  destruct 1 as [|evs st' x b st'' Hrun Hstep]; intros es E; [by destruct es|].
  rewrite map_app in E. cbn in E. apply app_inj_tail in E as [<- <-]. by exists evs, b, st'.
Qed.

(** The states after a log and after what it holds of the plan. *)
Lemma log_moved clock k pre log : log_of clock k pre log -> forall x planb P logb L,
  stream_run (new_state x) planb P -> map fst planb = pre -> stream_run (new_state x) logb L -> map fst logb = log -> moved P L.
Proof.
  induction 1 as [|k pre log e e' Hlog IH Ht He He'|k pre log m Hlog IH Ht Hm]; intros x planb P logb L HP EP HL EL.
  - destruct HP; [|by apply map_eq_nil, app_eq_nil in EP as [_ ?]]. destruct HL; [|by apply map_eq_nil, app_eq_nil in EL as [_ ?]].
    by constructor.
  - destruct (run_last_step _ _ _ _ HP _ EP) as (p1 & b & P1 & _ & Ep & HP1 & [? _ _ _ _ HPr]).
    destruct (run_last_step _ _ _ _ HL _ EL) as (l1 & b' & L1 & _ & El & HL1 & [? _ _ _ _ HLr]).
    exact (moved_record _ _ _ _ _ _ _ _ _ _ _ _ (IH _ _ _ _ _ HP1 Ep HL1 El) He' HPr HLr).
  - destruct (run_last_step _ _ _ _ HL _ EL) as (l1 & b' & L1 & _ & El & HL1 & [? _ _ _ Hv HLr]).
    apply (moved_marker _ L1 m _ _ _ (IH _ _ _ _ _ HP EP HL1 El) Ht HLr).
    pose proof (run_history _ [] _ _ (history_new x) HL1) as Hh. cbn in Hh. rewrite El in Hh.
    destruct log as [|y log]; [|rewrite (h_session _ _ Hh y) by (left); done].
    apply validate_event_accepted in Hv. apply (ac_first) in Hv; [congruence|]. by rewrite (h_line _ _ Hh).
Qed.

(** * Acceptance *)

Lemma accepted_validate st e :
  accepted st e -> previous_sequence st < u64_max -> (line_count st = 0 -> sequence e = 1) ->
  validate_event st (line_count st + 1) e = Ok tt.
Proof.
  intros [A1 A2 A3 A4 A5 A6 A7 A8 A9] Hb Hfirst. unfold validate_event.
  assert (match expected_session_id st with
          | Some expected => if negb (String.eqb expected (session_id e)) then Err (WrongSession (session_id e) expected) else Ok tt
          | None => Ok tt
          end = Ok tt) as ->.
  { destruct (expected_session_id st) as [x|]; [|done]. by rewrite (A1 x eq_refl), String.eqb_refl. }
  assert ((line_count st + 1 =? 1) && negb (sequence e =? 1) = false) as ->.
  { destruct (Z.eqb_spec (line_count st + 1) 1) as [Hl|]; [|done]. rewrite Hfirst by lia. done. }
  assert (checked_succ (previous_sequence st) = Some (sequence e)) as Hsucc.
  { unfold checked_succ. destruct (Z.ltb_spec (previous_sequence st) u64_max); [by rewrite A2|lia]. }
  rewrite (bool_decide_eq_true_2 _ Hsucc), (bool_decide_eq_false_2 _ A3), A4. cbn [negb mbind result_bind].
  assert ((if bool_decide (event_type e = FlowStarted) then validate_flow_started st (line_count st + 1) e else Ok tt) = Ok tt) as ->.
  { case_bool_decide as Ht; [|done]. destruct (A5 Ht) as (f & Hf & Hn & Hs). unfold validate_flow_started. rewrite Hf. cbn.
    rewrite (bool_decide_eq_false_2 _ Hn). destruct (Z.leb_spec MAX_FLOW_INVOCATIONS (Z.of_nat (size (flow_started_ids st)))); [lia|done]. }
  assert (match stream_session_id st with
          | Some existing => if negb (String.eqb existing (session_id e)) then Err MustUseOneSession else Ok tt
          | None => Ok tt
          end = Ok tt) as ->.
  { destruct (stream_session_id st) as [x|]; [|done]. by rewrite (A6 x eq_refl), String.eqb_refl. }
  cbn [mbind result_bind].
  assert ((line_count st + 1 =? 1) && negb (bool_decide (event_type e = SessionStarted)) = false) as ->.
  { destruct (Z.eqb_spec (line_count st + 1) 1) as [Hl|]; [|done]. rewrite bool_decide_eq_true_2; [done|]. apply A7. lia. }
  rewrite A8. cbn [mbind result_bind]. destruct (is_session_end (event_type e)); [by apply A9|done].
Qed.

(** An accepted event within the budgets makes a step. *)
Lemma accepted_step st e b :
  valid_event e -> accepted st e -> (line_count st = 0 -> sequence e = 1) -> line_count st = previous_sequence st ->
  0 <= stream_bytes st -> 0 <= b <= MAX_CANONICAL_EVENT_BYTES -> line_count st + 1 <= MAX_FLOW_EVENTS ->
  stream_bytes st + b <= MAX_SESSION_EVENT_BYTES -> exists st', stream_step st e b st'.
Proof.
  intros Hv Ha Hf Hlp Hs Hb Hl Ht.
  assert (exists st', record_event st (line_count st + 1) e b = Ok st') as [st' Hr].
  { pose proof (record_event_no_panic st e b Hv Ha) as Hnp. destruct (record_event st (line_count st + 1) e b) as [st'|err|] eqn:Hr; [by exists st'| |done].
    exfalso. clear -Hr Hv Ha. revert Hr. unfold record_event. rewrite (bool_decide_eq_false_2 _ (ac_id _ _ Ha)).
    destruct (lifecycle_record_total e Hv (lifecycle st) (line_count st + 1)) as [s' ->].
    destruct (bool_decide_reflect (event_type e = FlowStarted)) as [Ht|]; [|done].
    destruct (ac_flow _ _ Ha Ht) as (f & -> & Hn & _). cbn. by rewrite bool_decide_eq_false_2. }
  exists st'. constructor; try done.
  - unfold validate_budget. destruct (Z.ltb_spec MAX_FLOW_EVENTS (line_count st + 1)); [lia|].
    rewrite sat_u64_id by (unfold in_u64, u64_max, MAX_SESSION_EVENT_BYTES in *; lia).
    destruct (Z.ltb_spec MAX_SESSION_EVENT_BYTES (stream_bytes st + b)); [lia|done].
  - apply accepted_validate; [done| |done]. unfold u64_max, MAX_FLOW_EVENTS in *. lia.
Qed.

Lemma dec_pad_value w n : 0 <= n -> digits_value 0 (dec_pad w n) = n.
Proof. intros Hn. unfold dec_pad. by rewrite digits_value_app, zeros_value, dec_value. Qed.

Lemma runtime_event_id_inj i j : 0 <= i -> 0 <= j -> runtime_event_id i = runtime_event_id j -> i = j.
Proof.
  intros Hi Hj. unfold runtime_event_id. intros H. injection H as H.
  rewrite <- (dec_pad_value 3 i), <- (dec_pad_value 3 j) by done. by rewrite H.
Qed.

Lemma placed_valid clock i e e' : 0 < i -> placed clock i e e' -> valid_event e -> valid_event e'.
Proof.
  intros Hi (ts & Hts & ->) []. constructor; try done; cbn.
  - lia.
  - change (is_Some (parse_rfc3339_utc_timestamp ts)). unfold clock_timestamp in Hts. apply ok_or_Ok_inv in Hts. rewrite (timestamp_format_parse _ _ Hts). done.
Qed.

Section extend.
Context (clock : EventClock) (k : nat) (pre log : list EventEnvelope) (L : SessionAppendValidationState).
Context (Hlog : log_of clock k pre log) (HL : history L log) (Hne : log <> []).

Lemma fresh_position i : len log < i -> runtime_event_id i ∉ event_ids L.
Proof.
  intros Hi. rewrite (h_ids _ _ HL). intros (e & He & (j & Hj)%list_elem_of_lookup)%list_elem_of_fmap.
  pose proof (log_of_placed _ _ _ _ _ _ Hlog Hj) as Hp. rewrite (placed_id _ _ _ _ Hp) in He.
  apply lookup_lt_Some in Hj. unfold len in Hi. apply runtime_event_id_inj in He; lia.
Qed.

Lemma log_session : is_Some (stream_session_id L).
Proof. destruct log as [|e l]; [done|]. rewrite (h_session _ _ HL e) by left. done. Qed.

Lemma line_count_pos : 0 < line_count L.
Proof. rewrite (h_line _ _ HL). destruct log; [done|]. unfold len. cbn. lia. Qed.

(** An event of the plan is accepted in its new place. *)
Lemma planned_accepted P e e' :
  moved P L -> accepted P e -> 0 < line_count P -> placed clock (len log + 1) e e' -> accepted L e'.
Proof.
  intros [M1 M2 M3 M4 M5] [A1 A2 A3 A4 A5 A6 A7 A8 A9] HP He'.
  assert (event_type e <> SessionStarted) as Hs.
  { intros Ht. unfold lifecycle_validate_event in A8. rewrite (bool_decide_eq_true_2 _ Ht) in A8.
    destruct (Z.ltb_spec 1 (line_count P + 1)); [done|lia]. }
  destruct (lifecycle_of_placed _ _ _ _ (lifecycle L) (line_count L + 1) He') as (V1 & _ & V2).
  pose proof (fresh_position (len log + 1) ltac:(lia)) as Hfresh. pose proof line_count_pos.
  constructor; rewrite ?V1, ?V2.
  - intros x Hx. rewrite M1 in Hx. destruct He' as (ts & _ & ->). by apply A1.
  - by rewrite (placed_sequence _ _ _ _ He'), (h_sequence _ _ HL).
  - by rewrite (placed_id _ _ _ _ He').
  - by apply M4.
  - rewrite M3. destruct He' as (ts & _ & ->). apply A5.
  - intros x Hx. rewrite M2 in Hx. destruct He' as (ts & _ & ->). by apply A6.
  - lia.
  - pose proof (validate_unlined (lifecycle P) (line_count P + 1) e Hs) as HPu. rewrite A8, <- M5 in HPu.
    pose proof (validate_unlined (lifecycle L) (line_count L + 1) e Hs) as HLu.
    destruct (lifecycle_validate_event (unlined (lifecycle L)) 1 e) as [[]| |]; [|done..].
    by destruct (lifecycle_validate_event (lifecycle L) (line_count L + 1) e) as [[]| |].
  - destruct He' as (ts & _ & ->). cbn. intros Hend. rewrite <- terminal_unlined, M5, terminal_unlined. by apply A9.
Qed.

(** So is a marker. *)
Lemma marker_accepted m :
  terminal_line L = None -> event_type m = SessionResumed -> flow_id m = None -> parent_flow_id m = None ->
  expected_session_id L = Some (session_id m) -> placed clock (len log + 1) m m -> accepted L m.
Proof.
  intros Hterm Ht Hf Hp Hx Hm. pose proof (fresh_position (len log + 1) ltac:(lia)) as Hfresh. pose proof line_count_pos.
  constructor.
  - intros x E. congruence.
  - by rewrite (placed_sequence _ _ _ _ Hm), (h_sequence _ _ HL).
  - by rewrite (placed_id _ _ _ _ Hm).
  - done.
  - by rewrite Ht.
  - intros x E. destruct log as [|e l]; [done|]. pose proof (h_session _ _ HL e ltac:(left)) as E1.
    pose proof (h_expected _ _ HL e _ ltac:(left) Hx). congruence.
  - lia.
  - unfold lifecycle_validate_event, validate_flow_open, validate_lifecycle_parent. rewrite Ht, Hf, Hp.
    rewrite bool_decide_eq_false_2 by done. by rewrite andb_false_r.
  - by rewrite Ht.
Qed.
End extend.
End stream.
