(* ===== verification/ResumeProps.v ===== *)
(** Resuming a session: what the inspection and the replay accept, that the events of a plan
    stand where a resumed stream expects them, and that a dry run that accepts makes a valid
    stream. *)

From Stdlib Require Import ZArith Lia Ascii String.
From stdpp Require Import base strings sorting sets option gmap countable list.
From S2P Require Import Prelude Decimal Sorting Metadata Json FlowValue Event Lifecycle LifecycleTheory.
From S2P Require Import Paths Values Blocks Registry Errors EffectTheory PhaseControl Policy OwnScript Context Builder.
From S2P Require Import Planner PlannerTheory PlanProps Segments Appender AppenderTheory Writer WriterClient.
From S2P Require Import Lines Resume ResumeTheory Lifecycle Validate ValidateTheory StreamProps BuilderTheory.

Open Scope Z_scope.

(** * ASCII *)

Definition ascii_text (s : string) : bool := bytes_all (fun a => byte a <? 128) s.

Lemma digits_ascii s : all_digits s = true -> ascii_text s = true.
Proof.
  unfold all_digits, ascii_text. induction s as [|a s IH]; [done|]. cbn. intros [Ha Hs]%andb_true_iff.
  rewrite IH by done. unfold is_ascii_digit in Ha. apply andb_true_iff. split; [lia|done].
Qed.

Lemma dec_pad_ascii w n : 0 <= n -> ascii_text (dec_pad w n) = true.
Proof.
  intros Hn. apply digits_ascii. unfold dec_pad, all_digits. rewrite bytes_all_app.
  pose proof (zeros_digits (w - String.length (dec n))) as Hz. pose proof (dec_digits n Hn) as Hd.
  unfold all_digits in *. by rewrite Hz, Hd.
Qed.

Lemma event_id_ascii i : 0 <= i -> ascii_text (runtime_event_id i) = true.
Proof.
  intros Hi. unfold runtime_event_id, ascii_text. rewrite bytes_all_app.
  pose proof (dec_pad_ascii 3 i Hi) as Hd. unfold ascii_text in Hd. by rewrite Hd.
Qed.

Lemma ascii_cons a s : ascii_text (String a s) = (byte a <? 128) && ascii_text s.
Proof. done. Qed.

Lemma ascii_app s t : ascii_text (s +:+ t) = ascii_text s && ascii_text t.
Proof. apply bytes_all_app. Qed.

Lemma timestamp_ascii seconds text : format_rfc3339_utc_timestamp seconds = Some text -> ascii_text text = true.
Proof.
  intros Hf. destruct (civil_from_days (seconds / 86400)) as [[year month] day] eqn:Hc.
  assert (0 <= year <= 9999) as Hy.
  { unfold format_rfc3339_utc_timestamp in Hf. rewrite Hc in Hf. cbv zeta in Hf. destruct (negb _) eqn:Hn in Hf; [done|]. lia. }
  destruct (format_rfc3339_text _ _ _ _ Hc Hy) as (Ht & Hv & _). rewrite Ht in Hf. injection Hf as <-.
  apply civil_from_days_valid in Hc as [Hc _]. apply valid_civil_bounds in Hc. unfold valid_time in Hv.
  unfold date_text, time_text. rewrite !ascii_app, !ascii_cons, !ascii_app, !ascii_cons, !ascii_app, !ascii_cons.
  rewrite !dec_pad_ascii by lia. done.
Qed.

(** * The plan *)

Section plan.
Context {J : JsonEnv} {JL : JsonLaws} {R : RuntimeEnv}.

(** An event of a plan stands at its position and is no marker. *)
Definition planned_at (clock : EventClock) (e : EventEnvelope) : Prop :=
  placed clock (sequence e) e e /\ event_type e <> SessionResumed.

Lemma new_placed clock i t session ts source p :
  0 <= i -> clock_timestamp clock i = Ok ts ->
  placed clock i (Event.new (runtime_event_id i) t session i ts source p)
    (Event.new (runtime_event_id i) t session i ts source p).
Proof.
  intros Hi Hts. apply placed_self. cbn [sequence event_id timestamp Event.new]. rewrite !nfc_string_nfc.
  rewrite (nfc_ascii (runtime_event_id i)) by (by apply event_id_ascii).
  rewrite (nfc_ascii ts); [by split_and!|]. unfold clock_timestamp in Hts. apply ok_or_Ok_inv in Hts. by eapply timestamp_ascii.
Qed.

Lemma runtime_event_placed clock session i ts inv t p :
  0 <= i -> clock_timestamp clock i = Ok ts ->
  placed clock i (runtime_event session i ts inv t p) (runtime_event session i ts inv t p).
Proof.
  intros Hi Hts. pose proof (new_placed clock i t session ts FLOW_AGENT_EVENT_SOURCE p Hi Hts) as H.
  apply placed_self in H as (H1 & H2 & H3). apply placed_self. unfold runtime_event. by destruct inv.
Qed.

Lemma runtime_event_sequence session i ts inv t p : sequence (runtime_event session i ts inv t p) = i.
Proof. unfold runtime_event. by destruct inv. Qed.

(** A builder whose events stand at their positions. *)
Definition on_time (clock : EventClock) (b : RuntimeEventBuilder) : Prop :=
  Builder.clock b = clock /\ 0 <= builder_sequence b /\ Forall (planned_at clock) (emitted_events b).

Lemma emit_on_time clock inv t p : t <> SessionResumed -> keeps (on_time clock) (emit inv t p).
Proof.
  intros Ht b (Hc & Hs & Hb). destruct (emit inv t p b) as [b' res] eqn:E. cbn.
  destruct (emit_cases _ _ _ _ _ _ E) as [(c & cp & b0 & v & _ & Hcons & Htk & _ & -> & _)|[[->| ->] _]]; [|by split_and!..].
  destruct (takes_fields _ _ _ _ Htk) as (Es & _ & Ea & Ec & _). destruct Hcons as [ts line Hts e Hline].
  split_and!; [by cbn; rewrite Ec|cbn; lia|].
  unfold emitted_events, emitted, emitted_actions. cbn [actions with_event]. rewrite Ea, emitted_snoc, !map_app.
  apply Forall_app. split; [done|]. constructor; [|constructor]. cbn. rewrite Hc in Hts. unfold planned_at, e.
  rewrite runtime_event_sequence, runtime_event_type. split; [|done]. apply runtime_event_placed; [lia|done].
Qed.

Lemma on_time_same clock {A} (m : eff RuntimeEventBuilder A) :
  (forall b, actions (m b).1 = actions b /\ Builder.clock (m b).1 = Builder.clock b /\
    builder_sequence (m b).1 = builder_sequence b) -> keeps (on_time clock) m.
Proof.
  intros Hm b (Hc & Hs & Hb). destruct (Hm b) as (E1 & E2 & E3). unfold on_time, emitted_events, emitted, emitted_actions.
  rewrite E1, E2, E3. by split_and!.
Qed.

Lemma plan_placed registry policy root session options ex :
  compile_flow_plan registry policy root session options = Ok ex ->
  Forall (planned_at (option_clock options)) (plan_events ex).
Proof.
  unfold compile_flow_plan. destruct (plan_session _ _ _ _ _) as [b' res] eqn:E. cbn. intros ->.
  pose (context := mkEmitContext registry policy (option_stub_model_fixture_profile options)).
  destruct (plan_session_kept (on_time (option_clock options)) (fun _ _ _ => True) (emit_on_time _)) with
    (context := context) (root := root) (options := options) (b := with_clock session (option_clock options) true) (b' := b') (ex := ex)
    as (b1 & payload & err & Hb1 & Hex & He); try done.
  - intros parent. apply on_time_same. intros b. unfold next_flow_invocation. by case_match.
  - apply on_time_same. intros b. unfold next_phase_execution_id. by case_match.
  - by apply on_time_same.
  - intros inv tool pol. apply on_time_same. intros b. unfold record_tool_intent. by case_match.
  - intros m o. apply on_time_same. intros b. unfold record_context_manifest. by case_match.
  - intros tr pol eff b _ (Hc & Hs & Hb). split_and!; [done..|]. unfold emitted_events, emitted, emitted_actions in *.
    cbn [record_fixture_action fst actions with_plan]. rewrite omap_app. cbn. by rewrite app_nil_r.
  - rewrite Hex. eapply keeps_result in He; [|by apply emit_on_time; destruct (exec_failed ex)|exact Hb1]. apply He.
Qed.
End plan.

(** * The run of a resumed stream *)

Section run.
Context {J : JsonEnv} {R : RuntimeEnv}.

Definition sized_line (x : EventEnvelope * string) : EventEnvelope * Z := (x.1, slen x.2).

Definition line_sizes (out : list (EventEnvelope * string)) : Z := total_bytes (map sized_line out).

Lemma line_sizes_snoc out x : line_sizes (out ++ [x]) = line_sizes out + slen x.2.
Proof. unfold line_sizes. rewrite map_app. apply total_bytes_snoc. Qed.

Lemma line_sizes_nonneg out : 0 <= line_sizes out.
Proof.
  induction out as [|x out IH] using rev_ind; [done|]. rewrite line_sizes_snoc. pose proof (slen_nonneg x.2). lia.
Qed.

(** A line that the budget of one event allows, of an event that stands [k] positions after its own. *)
Record moved_line (clock : EventClock) (k : nat) (e : EventEnvelope) (x : EventEnvelope * string) : Prop := {
  ml_placed : placed clock (sequence e + Z.of_nat k) e x.1;
  ml_size : slen x.2 <= MAX_CANONICAL_EVENT_BYTES;
}.

Lemma run_bytes st evs st' : stream_run st evs st' -> 0 <= stream_bytes st <= MAX_SESSION_EVENT_BYTES ->
  stream_bytes st' = stream_bytes st + total_bytes evs /\ stream_bytes st' <= MAX_SESSION_EVENT_BYTES /\ 0 <= total_bytes evs.
Proof.
  induction 1 as [|evs st1 e b st2 Hrun IH Hstep]; intros Hs; [cbn; lia|]. destruct (IH Hs) as (IH1 & IH2 & IH3).
  pose proof (step_record _ _ _ _ Hstep) as (_ & _ & _ & _ & _ & _ & Hb & _)%record_event_Ok.
  destruct Hstep as [st2 _ Hbytes Hbud _ _]. unfold validate_budget in Hbud. inv_ok. rewrite total_bytes_snoc.
  assert (sat_u64 (stream_bytes st1 + b) = stream_bytes st1 + b) as E.
  { apply sat_u64_id. unfold in_u64, u64_max, MAX_SESSION_EVENT_BYTES, MAX_CANONICAL_EVENT_BYTES in *. lia. }
  rewrite E in *. lia.
Qed.

Section rest.
Context (clock : EventClock) (expected : option string) (k : nat) (pre log : list EventEnvelope).
Context (preb logb : list (EventEnvelope * Z)) (L : SessionAppendValidationState).
Context (Hlog : log_of clock k pre log) (Hpre : pre <> []) (Epre : map fst preb = pre) (Elog : map fst logb = log).
Context (HL : stream_run (new_state expected) logb L).

(** The events that follow in the plan follow in the log. *)
Lemma rest_run restb out P :
  stream_run (new_state expected) (preb ++ restb) P -> Forall (planned_at clock) (map fst restb) ->
  Forall2 (moved_line clock k) (map fst restb) out -> len log + len out <= MAX_FLOW_EVENTS ->
  stream_bytes L + line_sizes out <= MAX_SESSION_EVENT_BYTES ->
  exists L', stream_run L (map sized_line out) L' /\ log_of clock k (pre ++ map fst restb) (log ++ map fst out).
Proof.
  revert out P. induction restb as [|[e b] restb IH] using rev_ind; intros out P HP Hat Hout Hn Hbytes.
  { apply Forall2_nil_inv_l in Hout as ->. exists L. cbn. rewrite !app_nil_r. split; [constructor|done]. }
  rewrite map_app in Hat, Hout |- *. cbn in Hat, Hout |- *. rewrite app_assoc in HP |- *.
  apply Forall2_app_inv_l in Hout as (out1 & out2 & Hout1 & Hout2 & ->).
  apply Forall2_cons_inv_l in Hout2 as (x & ? & Hx & Hnil & ->). apply Forall2_nil_inv_l in Hnil as ->.
  apply Forall_app in Hat as [Hat1 Hat2]. apply Forall_cons in Hat2 as [[Hself Htype] _].
  destruct (run_last_step _ _ e _ HP (pre ++ map fst restb)) as (pb & b1 & P1 & Epb & _ & HP1 & Hstep).
  { by rewrite !map_app, Epre. }
  apply app_inj_tail in Epb as [<- _]. rewrite line_sizes_snoc in Hbytes. pose proof (slen_nonneg x.2) as Hx0.
  assert (len (out1 ++ [x]) = len out1 + 1) as El by (unfold len; rewrite length_app; cbn; lia).
  destruct (IH out1 P1) as (L1 & HL1 & Hlog1); [done|done|done|lia|lia|].
  pose proof (stream_run_app _ _ _ _ _ HL HL1) as HL2.
  pose proof (run_history _ [] _ _ (history_new expected) HL2) as Hh. cbn [app] in Hh.
  assert (map fst (logb ++ map sized_line out1) = log ++ map fst out1) as Efst by (rewrite map_app, Elog, map_map; done).
  rewrite Efst in Hh.
  assert (map fst (preb ++ restb) = pre ++ map fst restb) as Epr by (by rewrite map_app, Epre).
  pose proof (log_moved _ _ _ _ Hlog1 expected _ _ _ _ HP1 Epr HL2 Efst) as Hmoved.
  pose proof (run_history _ [] _ _ (history_new expected) HP1) as HPh. cbn [app] in HPh. rewrite Epr in HPh.
  pose proof (step_accepted _ _ _ _ Hstep) as Hacc. pose proof (ac_sequence _ _ Hacc) as Hseq. rewrite (h_sequence _ _ HPh) in Hseq.
  pose proof (log_of_len _ _ _ _ Hlog1) as Hlen. destruct Hx as [Hx Hsize].
  replace (sequence e + Z.of_nat k) with (len (log ++ map fst out1) + 1) in Hx by lia.
  assert (log ++ map fst out1 <> []) as Hne.
  { intros E. rewrite E in Hlen. change (len []) with 0 in Hlen. unfold len in Hlen. rewrite length_app in Hlen. destruct pre; cbn in *; [done|lia]. }
  pose proof (planned_accepted clock k _ _ L1 Hlog1 Hh Hne P1 e x.1 Hmoved Hacc) as Hacc'.
  destruct (run_budget _ _ _ HL) as (B1 & _ & B2 & _). destruct (run_bytes _ _ _ HL1) as (B3 & _ & _); [lia|].
  destruct (accepted_step L1 x.1 (slen x.2)) as [L2 HL'].
  - destruct Hstep as [? Hv _ _ _ _]. eapply placed_valid; [|exact Hx|done]. unfold len. lia.
  - apply Hacc'; [|done]. rewrite (h_line _ _ HPh). unfold len. rewrite length_app. destruct pre; [done|]. cbn. lia.
  - rewrite (h_line _ _ Hh). intros E. unfold len in E. destruct (log ++ map fst out1); [done|cbn in E; lia].
  - by rewrite (h_line _ _ Hh), (h_sequence _ _ Hh).
  - pose proof (line_sizes_nonneg out1). unfold line_sizes in *. lia.
  - lia.
  - rewrite (h_line _ _ Hh). unfold len in *. rewrite length_app, length_map in *. lia.
  - unfold line_sizes in *. lia.
  - exists L2. rewrite !map_app, app_assoc. split.
    + cbn. by eapply run_snoc.
    + cbn. apply log_event; [done|done| |done]. by replace (len (pre ++ map fst restb) + 1) with (sequence e) by lia.
Qed.
End rest.
End run.

(** * The marker *)

Section marker.
Context {J : JsonEnv} {JL : JsonLaws} {R : RuntimeEnv}.

Lemma resumed_event_placed e k clock x :
  0 <= k -> resumed_event e k clock = Ok x ->
  placed clock (sequence e + (k + 1)) e x.1 /\ canonical_jsonl x.1 = Ok x.2 /\ sequence x.1 <= u64_max.
Proof.
  intros Hk H. unfold resumed_event, shift_resumed_event in H. cbv zeta in H.
  destruct (Z.ltb_spec u64_max (sequence e + (k + 1))); [discriminate H|].
  apply bind_Ok_inv in H as (e' & He & H). apply bind_Ok_inv in He as (ts & Hts & He). apply Ok_inj in He. subst e'.
  apply bind_Ok_inv in H as (line & Hline & H). apply Ok_inj in H. subst x. cbn [fst snd].
  split_and!; [by exists ts| |done]. by destruct (canonical_jsonl _); cbn in Hline; [injection Hline as ->| |].
Qed.

Context (clock : EventClock) (k : nat) (pre log : list EventEnvelope) (L : SessionAppendValidationState).
Context (Hlog : log_of clock k pre log) (HL : ValidateTheory.history L log) (Hfit : len log < u64_max).

(** The marker stands after the log. *)
Lemma marker_placed session ap :
  resume_append_plan session L clock = Ok ap ->
  let m := marker_event ap in
  placed clock (len log + 1) m m /\ event_type m = SessionResumed /\ flow_id m = None /\ parent_flow_id m = None /\
  session_id m = nfc session /\ canonical_jsonl m = Ok (marker_stream ap).
Proof using JL Hlog HL Hfit.
  unfold resume_append_plan. cbv zeta. intros H. assert (0 <= len log) as H0 by (unfold len; lia).
  rewrite (h_sequence _ _ HL) in H. rewrite sat_u64_id in H by (unfold in_u64; lia).
  apply bind_Ok_inv in H as (id & Hid & H). apply bind_Ok_inv in H as (ts & Hts & H).
  apply bind_Ok_inv in H as (stream & Hst & H). apply Ok_inj in H. subst ap. cbn [marker_event marker_stream].
  assert (id = runtime_event_id (len log + 1)) as ->.
  { pose proof (fresh_position clock k pre log L Hlog HL (len log + 1) ltac:(lia)) as Hf.
    destruct (size (event_ids L)); cbn in Hid; rewrite (bool_decide_eq_false_2 _ Hf) in Hid; by apply Ok_inj in Hid. }
  split_and!; try done.
  - apply new_placed; [lia|done].
  - cbn. by rewrite nfc_string_nfc.
  - cbn [canonical_event_stream] in Hst. apply bind_Ok_inv in Hst as (line & Hline & Hst). cbn in Hst. apply Ok_inj in Hst.
    rewrite app_string_nil_r in Hst. subst stream.
    match goal with |- ?r = _ => destruct r; cbn in Hline; [injection Hline as ->|..]; done end.
Qed.
End marker.

(** * The dry run *)

Section preflight.
Context {J : JsonEnv} {JL : JsonLaws} {R : RuntimeEnv} {W : Type} {O : ObjectPreflight W}.

(** The events of a plan go through the sink of the dry run. *)
Fixpoint preflight_plan (acts : list PlannedEventAction) (s : ResumePreflightSink W) : result RuntimeError (ResumePreflightSink W) :=
  match acts with
  | [] => Ok s
  | a :: acts => s ← preflight_commit (constructed_event (action_event a)) (context_checkpoint a) s; preflight_plan acts s
  end.

Definition action_envelope (a : PlannedEventAction) : EventEnvelope := constructed_event (action_event a).

(** An account of the stream that is within the limits. *)
Record within (lim : SessionStreamLimits) (s : SessionStreamPreflight) : Prop := {
  wi_limits : pre_limits s = lim;
  wi_bytes : 0 <= pre_current_bytes s <= pre_total_bytes s;
  wi_total : pre_total_bytes s <= max_total_bytes lim;
}.

Lemma preflight_record_within lim n s s' :
  max_total_bytes lim < u64_max -> within lim s -> 0 <= n -> stream_preflight_record n s = Ok s' ->
  within lim s' /\ pre_total_bytes s' = pre_total_bytes s + n.
Proof.
  intros Hlim [E1 E2 E3] Hn H. unfold stream_preflight_record in H. apply bind_Ok_inv in H as (r & Hr & H). rewrite E1 in Hr.
  apply requires_rotation_Ok in Hr as (H1 & H2 & H3); [|done|done|lia]. cbv zeta in H. apply Ok_inj in H. subst s'.
  assert (sat_u64 (pre_total_bytes s + n) = pre_total_bytes s + n) as Et by (apply sat_u64_id; unfold in_u64; lia).
  assert (sat_u64 ((if r then 0 else pre_current_bytes s) + n) = (if r then 0 else pre_current_bytes s) + n) as Ec
    by (apply sat_u64_id; unfold in_u64; destruct r; lia).
  split; [|exact Et]. constructor; cbn; rewrite ?Et, ?Ec; destruct r; (done || lia).
Qed.

Lemma preflight_commit_skips e cp s : sequence e <= preflight_planned_count s -> preflight_commit (W := W) e cp s = Ok s.
Proof. intros H. unfold preflight_commit. by rewrite (proj2 (Z.leb_le _ _) H). Qed.

(** What an event that is accepted costs. *)
Lemma preflight_commit_Ok e cp s s' :
  preflight_commit (W := W) e cp s = Ok s' -> preflight_planned_count s < sequence e -> within EVENT_STREAM_LIMITS (preflight_events s) ->
  exists x, resumed_event e (preflight_marker_count s) (preflight_clock s) = Ok x /\ sequence x.1 <= MAX_FLOW_EVENTS /\
    slen x.2 <= MAX_CANONICAL_EVENT_BYTES /\ within EVENT_STREAM_LIMITS (preflight_events s') /\
    pre_total_bytes (preflight_events s') = pre_total_bytes (preflight_events s) + slen x.2 /\
    preflight_planned_count s' = preflight_planned_count s /\ preflight_marker_count s' = preflight_marker_count s /\
    preflight_clock s' = preflight_clock s.
Proof.
  intros H Hseq Hw. unfold preflight_commit in H. destruct (Z.leb_spec (sequence e) (preflight_planned_count s)); [lia|].
  apply bind_Ok_inv in H as (n & Hn & H). apply bind_Ok_inv in H as (contexts & _ & H). apply bind_Ok_inv in H as (ev & Hev & H).
  apply Ok_inj in H. subst s'. unfold preflight_shifted in Hn. apply bind_Ok_inv in Hn as ([e' line] & Hx & Hn).
  destruct (Z.ltb_spec MAX_FLOW_EVENTS (sequence e')); [discriminate Hn|].
  apply bind_Ok_inv in Hn as ([] & Hsz & Hn). apply Ok_inj in Hn. subst n.
  exists (e', line). split; [done|]. cbn [fst snd preflight_events preflight_planned_count preflight_marker_count preflight_clock with_preflight].
  destruct (preflight_record_within EVENT_STREAM_LIMITS (slen line) (preflight_events s) ev) as [Hw' Ht]; [done|done|apply slen_nonneg|done|].
  split_and!; try done. unfold validate_event_size in Hsz. destruct (Z.leb_spec (slen line) MAX_CANONICAL_EVENT_BYTES); done.
Qed.

Lemma preflight_plan_Ok acts s s' :
  preflight_plan acts s = Ok s' -> Forall (fun a => preflight_planned_count s < sequence (action_envelope a)) acts ->
  within EVENT_STREAM_LIMITS (preflight_events s) ->
  exists out, Forall2 (fun a x => resumed_event (action_envelope a) (preflight_marker_count s) (preflight_clock s) = Ok x) acts out /\
    Forall (fun x => sequence x.1 <= MAX_FLOW_EVENTS /\ slen x.2 <= MAX_CANONICAL_EVENT_BYTES) out /\
    pre_total_bytes (preflight_events s) + line_sizes out <= MAX_SESSION_EVENT_BYTES.
Proof.
  revert s. induction acts as [|a acts IH]; intros s H Hseq Hw.
  { exists []. split_and!; [constructor..|]. change (line_sizes []) with 0. destruct Hw as [_ _ Ht]. cbn in Ht. lia. }
  cbn [preflight_plan] in H. apply bind_Ok_inv in H as (s1 & H1 & H). apply Forall_cons in Hseq as [Ha Hacts].
  destruct (preflight_commit_Ok _ _ _ _ H1 Ha Hw) as (x & Hx & Hn & Hl & Hw1 & Ht & Ep & Em & Ec).
  destruct (IH s1 H) as (out & Hout & Hall & Hsum); [by rewrite Ep|done|]. rewrite Em, Ec in Hout.
  exists (x :: out). split_and!; [by constructor|by constructor|].
  change (line_sizes (x :: out)) with (slen x.2 + line_sizes out). lia.
Qed.

Lemma preflight_plan_skips acts rest s :
  Forall (fun a => sequence (action_envelope a) <= preflight_planned_count s) acts ->
  preflight_plan (acts ++ rest) s = preflight_plan rest s.
Proof.
  induction 1 as [|a acts Ha _ IH]; [done|]. cbn [preflight_plan app]. by rewrite preflight_commit_skips.
Qed.
End preflight.

(** * A resumption that the dry run accepts *)

Lemma run_split {J : JsonEnv} st l r st' :
  stream_run st (l ++ r) st' -> exists mid, stream_run st l mid /\ stream_run mid r st'.
Proof.
  remember (l ++ r) as evs eqn:E. intros H. revert r E. induction H as [|evs st1 e b st2 Hrun IH Hstep]; intros r E.
  { symmetry in E. apply app_eq_nil in E as [-> ->]. exists st. split; constructor. }
  destruct r as [|x r _] using rev_ind.
  - rewrite app_nil_r in E. subst l. exists st2. split; [by eapply run_snoc|constructor].
  - rewrite app_assoc in E. apply app_inj_tail in E as [-> <-]. destruct (IH _ eq_refl) as (mid & H1 & H2).
    exists mid. split; [done|]. by eapply run_snoc.
Qed.

Lemma session_id_ascii s : is_valid_session_id s = true -> ascii_text s = true.
Proof.
  unfold is_valid_session_id. rewrite !andb_true_iff. intros [[_ H] _]. revert H. unfold ascii_text.
  induction s as [|a s IH]; [done|]. cbn. rewrite !andb_true_iff. intros [Ha Hs]. split; [|by apply IH].
  destruct a as [[] [] [] [] [] [] [] []]; (reflexivity || (vm_compute in Ha; discriminate Ha)).
Qed.

Lemma canonical_valid {J : JsonEnv} e line : canonical_jsonl e = Ok line -> valid_event e.
Proof.
  unfold canonical_jsonl. intros H. destruct (negb _); [done|]. destruct (negb _); [done|].
  apply bind_Ok_inv in H as ([] & Hv & _). apply validate_v0_valid. by destruct (validate_v0 e) as [[]| |].
Qed.

Section resumption.
Context {J : JsonEnv} {JL : JsonLaws} {R : RuntimeEnv}.

Definition plan_actions (ex : RuntimeExecution) : list PlannedEventAction := omap emitted_action (exec_actions ex).

Lemma plan_events_actions ex : plan_events ex = map action_envelope (plan_actions ex).
Proof. unfold plan_events, plan_constructed. by rewrite map_map. Qed.

Context (clock : EventClock) (session : string) (cs : list ConstructedRuntimeEvent) (P : SessionAppendValidationState).
Context (HP : stream_run (empty_state session) (map sized cs) P).
Context (n k : nat) (log : list EventEnvelope) (logb : list (EventEnvelope * Z)) (L : SessionAppendValidationState).
Context (Hn : (0 < n < List.length cs)%nat).
Context (Hlog : log_of clock k (take n (map constructed_event cs)) log).
Context (HL : stream_run (empty_state session) logb L) (Elog : map fst logb = log).

Lemma sized_take : map fst (take n (map sized cs)) = take n (map constructed_event cs).
Proof. rewrite <- firstn_map, map_map. done. Qed.

Lemma log_history : ValidateTheory.history L log.
Proof. pose proof (run_history _ [] _ _ (history_new (Some session)) HL) as Hh. by rewrite Elog in Hh. Qed.

Lemma log_length : len log = Z.of_nat n + Z.of_nat k.
Proof.
  pose proof (log_of_len _ _ _ _ Hlog) as E. unfold len in *. rewrite length_take, length_map in E. lia.
Qed.

Lemma log_nonempty : log <> [].
Proof. pose proof log_length as E. intros E0. rewrite E0 in E. change (len []) with 0 in E. lia. Qed.

(** The log has not ended the session: the plan has more events. *)
Lemma log_open : terminal_line L = None.
Proof.
  pose proof HP as HP'. rewrite <- (take_drop n (map sized cs)) in HP'. apply run_split in HP' as (P0 & HP0 & HP1).
  pose proof (log_moved _ _ _ _ Hlog (Some session) _ _ _ _ HP0 sized_take HL Elog) as Hm. apply (mv_terminal _ _ Hm).
  destruct (drop n (map sized cs)) as [|[e b] r] eqn:Ed.
  { apply (f_equal (@List.length _)) in Ed. rewrite length_drop, length_map in Ed. cbn in Ed. lia. }
  change ((e, b) :: r) with ([(e, b)] ++ r) in HP1. apply run_split in HP1 as (P1 & HP1 & _).
  destruct (run_last_step _ _ e _ HP1 []) as (l & b' & st & El & _ & Hrun & Hstep); [done|].
  assert (l = []) as -> by (by destruct l as [|? [|]]). inversion Hrun as [|? ? ? ? ? ? ? E]; subst.
  - by apply (ac_not_terminal _ _ (step_accepted _ _ _ _ Hstep)).
  - by apply app_eq_nil in E as [_ ?].
Qed.

Lemma log_expected : expected_session_id L = Some session /\ nfc session = session.
Proof.
  pose proof (run_expected _ _ _ HL) as He. split; [exact He|]. pose proof log_history as Hh. pose proof log_nonempty as Hne.
  destruct logb as [|[e b] r] using rev_ind; [by rewrite <- Elog in Hne|]. clear IHr.
  destruct (run_last_step _ _ e _ HL (map fst r)) as (? & ? & ? & _ & _ & _ & [? Hv _ _ _ _]); [by rewrite map_app|].
  assert (session_id e = session) as <-.
  { apply (h_expected _ _ Hh e session); [|done]. rewrite <- Elog, map_app. apply elem_of_app. right. by left. }
  apply nfc_ascii, session_id_ascii, (ve_session _ Hv).
Qed.

(** The marker is accepted after the log. *)
Lemma marker_step ap :
  resume_append_plan session L clock = Ok ap -> slen (marker_stream ap) <= MAX_CANONICAL_EVENT_BYTES ->
  len log + 1 <= MAX_FLOW_EVENTS -> stream_bytes L + slen (marker_stream ap) <= MAX_SESSION_EVENT_BYTES ->
  exists L', stream_step L (marker_event ap) (slen (marker_stream ap)) L' /\
    log_of clock (S k) (take n (map constructed_event cs)) (log ++ [marker_event ap]).
Proof.
  intros Hap Hsize Hcount Hbytes. pose proof log_history as Hh. destruct log_expected as [Hexp Hnfc].
  destruct (marker_placed clock k _ log L Hlog Hh) with (session := session) (ap := ap)
    as (Hm & Ht & Hf & Hpa & Hs & Hline); [unfold u64_max, MAX_FLOW_EVENTS in *; lia|done|].
  destruct (run_budget _ _ _ HL) as (B1 & _ & B2 & _). pose proof log_length as Hlen.
  destruct (accepted_step L (marker_event ap) (slen (marker_stream ap))) as [L' HL'].
  - by eapply canonical_valid.
  - eapply marker_accepted; [exact Hlog|done|apply log_nonempty|apply log_open|done..| |done]. by rewrite Hexp, Hs, Hnfc.
  - rewrite (h_line _ _ Hh). lia.
  - by rewrite (h_line _ _ Hh), (h_sequence _ _ Hh).
  - lia.
  - split; [apply slen_nonneg|done].
  - by rewrite (h_line _ _ Hh).
  - done.
  - exists L'. split; [done|]. by apply log_marker.
Qed.

Context (Hat : Forall (planned_at clock) (map constructed_event cs)).

Lemma planned_sequence i e : map constructed_event cs !! i = Some e -> sequence e = Z.of_nat i + 1.
Proof.
  intros H. apply (sw_sequence _ _ (run_stream_wf _ _ _ HP)). by rewrite map_map.
Qed.

(** The rest of the plan, moved past one more marker. *)
Lemma resumed_lines out :
  Forall2 (fun e x => resumed_event e (Z.of_nat k) clock = Ok x) (drop n (map constructed_event cs)) out ->
  Forall (fun x => sequence x.1 <= MAX_FLOW_EVENTS /\ slen x.2 <= MAX_CANONICAL_EVENT_BYTES) out ->
  Forall2 (moved_line clock (S k)) (drop n (map constructed_event cs)) out /\
  len log + 1 + len out <= MAX_FLOW_EVENTS.
Proof.
  intros Hout Hall.
  assert (Forall2 (moved_line clock (S k)) (drop n (map constructed_event cs)) out) as Hlines.
  { apply Forall2_same_length_lookup. split; [by eapply Forall2_length|]. intros i e x He Hx.
    pose proof (Forall2_lookup_lr _ _ _ _ _ _ Hout He Hx) as H. apply (Forall_lookup_1 _ _ _ _ Hall) in Hx as [_ Hs].
    apply resumed_event_placed in H as (Hp & _); [|lia]. constructor; [|done].
    by replace (sequence e + Z.of_nat (S k)) with (sequence e + (Z.of_nat k + 1)) by lia. }
  split; [done|]. pose proof log_length as Hlen. pose proof (Forall2_length _ _ _ Hout) as El.
  rewrite length_drop, length_map in El. destruct out as [|x out _] using rev_ind; [cbn in El; lia|].
  rewrite length_app in El. cbn in El. unfold len in *. rewrite length_app. cbn [List.length].
  destruct (Forall2_lookup_r _ _ _ (List.length out) x Hlines) as (e & He & [Hp _]); [by rewrite lookup_app_r, Nat.sub_diag|].
  apply Forall_app in Hall as [_ [[Hm _] _]%Forall_cons]. rewrite (placed_sequence _ _ _ _ Hp) in Hm.
  rewrite lookup_drop in He. apply planned_sequence in He. lia.
Qed.

Lemma resumed_run ap out :
  resume_append_plan session L clock = Ok ap -> slen (marker_stream ap) <= MAX_CANONICAL_EVENT_BYTES ->
  Forall2 (fun e x => resumed_event e (Z.of_nat k) clock = Ok x) (drop n (map constructed_event cs)) out ->
  Forall (fun x => sequence x.1 <= MAX_FLOW_EVENTS /\ slen x.2 <= MAX_CANONICAL_EVENT_BYTES) out ->
  stream_bytes L + slen (marker_stream ap) + line_sizes out <= MAX_SESSION_EVENT_BYTES ->
  exists L', stream_run L (sized_line (marker_event ap, marker_stream ap) :: map sized_line out) L' /\
    log_of clock (S k) (map constructed_event cs) (log ++ marker_event ap :: map fst out) /\ moved P L'.
Proof.
  intros Hap Hsize Hout Hall Hbytes. destruct (resumed_lines out Hout Hall) as [Hlines Hcount].
  pose proof (line_sizes_nonneg out) as H0.
  destruct (marker_step ap Hap Hsize) as (L1 & HL1 & Hlog1); [unfold len in *; lia|lia|].
  pose proof (run_snoc _ _ _ _ _ _ HL HL1) as HL2.
  assert (map fst (logb ++ [(marker_event ap, slen (marker_stream ap))]) = log ++ [marker_event ap]) as E1 by (by rewrite map_app, Elog).
  destruct (run_budget _ _ _ HL) as (B1 & _ & B2 & _). pose proof (stream_run_one _ _ _ _ HL1) as HL1'.
  destruct (run_bytes _ _ _ HL1') as (B3 & _); [lia|]. change (total_bytes _) with (slen (marker_stream ap) + 0) in B3.
  assert (map fst (drop n (map sized cs)) = drop n (map constructed_event cs)) as Ed by (rewrite <- skipn_map, map_map; done).
  destruct (rest_run clock (Some session) (S k) _ _ (take n (map sized cs)) (logb ++ [(marker_event ap, slen (marker_stream ap))])
    L1 Hlog1) with (restb := drop n (map sized cs)) (out := out) (P := P)
    as (L' & HL' & Hlog'); try done.
  - intros E. apply (f_equal (@List.length _)) in E. rewrite length_take, length_map in E. cbn in E. lia.
  - apply sized_take.
  - by rewrite take_drop.
  - rewrite Ed. by apply Forall_drop.
  - by rewrite Ed.
  - unfold len in *. rewrite length_app. cbn. lia.
  - lia.
  - rewrite Ed, take_drop, <- app_assoc in Hlog'. exists L'. split_and!; [|done|].
    + exact (stream_run_app _ _ _ _ _ HL1' HL').
    + eapply log_moved; [exact Hlog'|exact HP|by rewrite map_map|exact (stream_run_app _ _ _ _ _ HL2 HL')|].
      rewrite map_app, E1, map_map, <- app_assoc. done.
Qed.
End resumption.

Section dry_run.
Context {J : JsonEnv} {JL : JsonLaws} {R : RuntimeEnv} {W : Type} {O : ObjectPreflight W}.

(** The account of the dry run, opened on a log that holds [n] planned events and [k] markers. *)
Record opened (clock : EventClock) (n k : nat) (L : SessionAppendValidationState) (ap : ResumeAppendPlan)
    (s : ResumePreflightSink W) : Prop := {
  od_clock : preflight_clock s = clock;
  od_planned : preflight_planned_count s = Z.of_nat n;
  od_markers : preflight_marker_count s = Z.of_nat k;
  od_within : within EVENT_STREAM_LIMITS (preflight_events s);
  od_total : pre_total_bytes (preflight_events s) = stream_bytes L + slen (marker_stream ap);
}.

(** What an accepted dry run shows of the stream. *)
Lemma dry_run_valid registry policy root session options ex n k log logb L ap s s' :
  compile_flow_plan registry policy root session options = Ok ex -> (0 < n < List.length (plan_events ex))%nat ->
  log_of (option_clock options) k (take n (plan_events ex)) log ->
  stream_run (empty_state session) logb L -> map fst logb = log ->
  resume_append_plan session L (option_clock options) = Ok ap -> slen (marker_stream ap) <= MAX_CANONICAL_EVENT_BYTES ->
  opened (option_clock options) n k L ap s -> preflight_plan (plan_actions ex) s = Ok s' ->
  exists out L',
    Forall2 (fun a x => resumed_event (action_envelope a) (Z.of_nat k) (option_clock options) = Ok x) (drop n (plan_actions ex)) out /\
    stream_run L (sized_line (marker_event ap, marker_stream ap) :: map sized_line out) L' /\
    log_of (option_clock options) (S k) (plan_events ex) (log ++ marker_event ap :: map fst out) /\
    closed (lifecycle L').
Proof.
  intros Hplan Hn Hlog HL Elog Hap Hsize [O1 O2 O3 O4 O5] Hpre. pose proof (compiled_closed _ _ _ _ _ _ Hplan) as Hclosed.
  destruct (pc_tools _ _ _ _ Hclosed) as (P & HP & _). unfold plan_events in Hn. rewrite length_map in Hn.
  pose proof (plan_placed _ _ _ _ _ _ Hplan) as Hat.
  assert (forall i a, plan_actions ex !! i = Some a -> sequence (action_envelope a) = Z.of_nat i + 1) as Hseq.
  { intros i a Hi. eapply (planned_sequence session (plan_constructed ex)); [exact HP|]. change (map constructed_event (plan_constructed ex)) with (plan_events ex).
    by rewrite plan_events_actions, list_lookup_fmap, Hi. }
  rewrite <- (take_drop n (plan_actions ex)), preflight_plan_skips in Hpre.
  2: { apply Forall_lookup. intros i a [Hi Hlt]%lookup_take_Some. apply Hseq in Hi. lia. }
  apply preflight_plan_Ok in Hpre as (out & Hout & Hall & Hsum); [|apply Forall_lookup; intros i a Hi; rewrite lookup_drop in Hi; apply Hseq in Hi; lia|done].
  rewrite O1, O3 in Hout. rewrite O5 in Hsum.
  destruct (resumed_run (option_clock options) session (plan_constructed ex) P HP n k log logb L Hn Hlog HL Elog Hat ap out)
    as (L' & HL' & Hlog' & Hm); try done.
  { change (map constructed_event (plan_constructed ex)) with (plan_events ex). rewrite plan_events_actions, skipn_map.
    by apply Forall2_fmap_l. }
  exists out, L'. split_and!; try done. pose proof (stream_run_app _ _ _ _ _ HL HL') as Hfull.
  destruct (terminal_line L') as [t|] eqn:Et; [by eapply run_terminal_closed|].
  apply (mv_terminal _ _ Hm) in Et. destruct (pc_end _ _ _ _ Hclosed) as (e & He & Ht).
  pose proof (run_history _ [] _ _ (history_new (Some session)) HP) as Hh. cbn [app] in Hh. rewrite map_map in Hh.
  rewrite last_lookup in He. apply (h_terminal _ _ Hh) in He as [He _]. rewrite Et in He.
  destruct He as [E _]; [rewrite Ht; by destruct (exec_failed ex)|done].
Qed.
End dry_run.
