(* ===== verification/ResumeReplay.v ===== *)
(** The replay of a plan against a log and the writing of a resumed session: the replay accepts
    exactly the logs whose lines are a prefix of the plan, and the sink hands the marker and the
    missing events to the writer.  A log on the disk is read back line by line, accepted by the
    validator, and summarized as the log it is. *)

From Stdlib Require Import ZArith Lia Ascii String.
From stdpp Require Import base strings sorting sets option gmap countable list.
From S2P Require Import Prelude Decimal Sorting Metadata Json FlowValue Event Lifecycle LifecycleTheory.
From S2P Require Import Paths Values Blocks Registry Errors EffectTheory PhaseControl Policy OwnScript Context ContextTheory Builder Planner PlanProps.
From S2P Require Import Segments Appender AppenderTheory AppenderProps Writer WriterClient.
From S2P Require Import BuilderTheory PlannerTheory.
From S2P Require Import Lines LinesTheory Resume ResumeTheory Lifecycle Validate ValidateTheory StreamProps ResumeProps.

Open Scope Z_scope.

(** * The sink *)

Section sink.
Context {J : JsonEnv} {R : RuntimeEnv} {H : Channels}.

(** The events of a plan go through the sink of a resumed session. *)
Fixpoint resume_commit_all (acts : list PlannedEventAction) : eff ResumeEventSink unit :=
  match acts with
  | [] => mret tt
  | a :: acts => _ ← resume_sink_commit (action_envelope a) (context_checkpoint a); resume_commit_all acts
  end.

(** What the writer is given for an event that was moved. *)
Definition handed (a : PlannedEventAction) (x : EventEnvelope * string) : EventEnvelope * string * option ContextManifestCheckpoint :=
  (x.1, x.2, context_checkpoint a).

Lemma on_writer_bind {A B} (m : eff Client A) (f : A -> eff Client B) s :
  on_writer (a ← m; f a) s = (a ← on_writer m; on_writer (f a)) s.
Proof.
  unfold on_writer at 1. rewrite !eff_bind_eq. unfold on_writer at 1. destruct (m (writer s)) as [c [a| |]]; [|done..].
  unfold on_writer. cbn. by destruct (f a c).
Qed.

Definition with_writer (s : ResumeEventSink) (c : Client) : ResumeEventSink :=
  mkResumeSink (sink_clock s) (marker_committed s) (sink_marker s) (sink_planned_count s) (sink_marker_count s) c.

Lemma on_writer_eq {A} (m : eff Client A) s s' r :
  on_writer m s = (s', r) -> exists c, m (writer s) = (c, r) /\ s' = with_writer s c.
Proof. unfold on_writer. destruct (m (writer s)) as [c r']. intros [= <- <-]. by exists c. Qed.

(** After the marker, the sink moves events and hands them over. *)
Lemma sink_commits acts out s :
  marker_committed s = true -> Forall (fun a => sink_planned_count s < sequence (action_envelope a)) acts ->
  Forall2 (fun a x => resumed_event (action_envelope a) (sink_marker_count s) (sink_clock s) = Ok x) acts out ->
  resume_commit_all acts s = on_writer (commit_all (zip_with handed acts out)) s.
Proof.
  intros Hc Hseq Hout. revert s Hc Hseq Hout. revert out. induction acts as [|a acts IH]; intros out s Hc Hseq Hout.
  { apply Forall2_nil_inv_l in Hout as ->. unfold on_writer. cbn. by destruct s. }
  apply Forall2_cons_inv_l in Hout as (x & out' & Hx & Hout & ->). apply Forall_cons in Hseq as [Ha Hseq].
  cbn [resume_commit_all zip_with handed commit_all]. rewrite on_writer_bind, !eff_bind_eq.
  assert (resume_sink_commit (action_envelope a) (context_checkpoint a) s = on_writer (writer_commit_event x.1 x.2 (context_checkpoint a)) s) as E.
  { unfold resume_sink_commit. destruct (Z.leb_spec (sequence (action_envelope a)) (sink_planned_count s)); [lia|].
    rewrite Hc, eff_bind_eq. cbn [mret]. unfold mret, eff_ret. rewrite eff_bind_eq. unfold lift. rewrite Hx. by destruct x. }
  rewrite E. destruct (on_writer _ s) as [s1 [[]| |]] eqn:E1; [|done..]. apply on_writer_eq in E1 as (c & _ & ->). by apply IH.
Qed.

Lemma sink_skips acts rest s :
  Forall (fun a => sequence (action_envelope a) <= sink_planned_count s) acts ->
  resume_commit_all (acts ++ rest) s = resume_commit_all rest s.
Proof.
  induction 1 as [|a acts Ha _ IH]; [done|]. cbn [resume_commit_all app]. rewrite eff_bind_eq. unfold resume_sink_commit at 1.
  by rewrite (proj2 (Z.leb_le _ _) Ha).
Qed.

(** The result of the sink and the client it leaves. *)
Definition seen (x : ResumeEventSink * result RuntimeError unit) : Client * result RuntimeError unit := (writer x.1, x.2).

(** C21: A resumed session writes each missing event once.  Of a plan whose first [n] events the log
    holds, the sink hands the writer nothing but the marker and then the missing events,
    moved, in order and with their contexts; it stops where the writer refuses one. *)
Theorem resume_sink_commits acts n out s :
  marker_committed s = false -> sink_planned_count s = Z.of_nat n ->
  (forall i a, acts !! i = Some a -> sequence (action_envelope a) = Z.of_nat i + 1) -> (n < List.length acts)%nat ->
  Forall2 (fun a x => resumed_event (action_envelope a) (sink_marker_count s) (sink_clock s) = Ok x) (drop n acts) out ->
  seen (resume_commit_all acts s) =
    commit_all ((marker_event (sink_marker s), marker_stream (sink_marker s), None) :: zip_with handed (drop n acts) out) (writer s).
Proof.
  intros Hc Hn Hseq Hlt Hout. rewrite <- (take_drop n acts) at 1.
  rewrite sink_skips by (apply Forall_lookup; intros i a [Hi Hl]%lookup_take_Some; apply Hseq in Hi; lia).
  assert (Forall (fun a => sink_planned_count s < sequence (action_envelope a)) (drop n acts)) as Hrest.
  { apply Forall_lookup. intros i a Hi. rewrite lookup_drop in Hi. apply Hseq in Hi. lia. }
  destruct (drop n acts) as [|a rest] eqn:Ed.
  { apply (f_equal (@List.length _)) in Ed. rewrite length_drop in Ed. cbn in Ed. lia. }
  cbn [resume_commit_all commit_all]. rewrite !eff_bind_eq. unfold resume_sink_commit at 1.
  destruct (Z.leb_spec (sequence (action_envelope a)) (sink_planned_count s)); [apply Forall_cons in Hrest as [? _]; lia|].
  rewrite Hc, !eff_bind_eq. destruct (on_writer _ s) as [s1 r] eqn:E1. apply on_writer_eq in E1 as (c & -> & ->).
  destruct r as [[]| |]; [|done..].
  pose proof (sink_commits (a :: rest) out (mkResumeSink (sink_clock s) true (sink_marker s) (sink_planned_count s) (sink_marker_count s) c)
    eq_refl Hrest Hout) as E. cbn [resume_commit_all] in E. rewrite eff_bind_eq in E. unfold resume_sink_commit at 1 in E.
  cbn [sink_planned_count marker_committed sink_clock sink_marker_count] in E.
  destruct (Z.leb_spec (sequence (action_envelope a)) (sink_planned_count s)); [lia|]. rewrite eff_bind_eq in E.
  cbn [set_marker_committed with_writer sink_clock sink_marker sink_planned_count sink_marker_count writer].
  unfold set_marker_committed, with_writer. cbn [sink_clock sink_marker sink_planned_count sink_marker_count writer].
  cbn [mret eff_ret] in E. unfold mret, eff_ret in E. rewrite E. unfold on_writer, seen. cbn [writer].
  by destruct (commit_all _ c).
Qed.
End sink.

(** * The replay *)

Section replay.
Context {J : JsonEnv} {R : RuntimeEnv}.

Definition signed (domain : string) (lines : list string) : RuntimeStreamSignatureBuilder :=
  foldl signature_push (signature_new domain) lines.

Lemma signed_count domain lines : len lines <= u64_max -> record_count (signed domain lines) = len lines.
Proof. intros H. unfold signed. by rewrite signature_record_count; cbn [record_count signature_new]. Qed.

Lemma signed_push domain lines line : signed domain (lines ++ [line]) = signature_push (signed domain lines) line.
Proof. unfold signed. by rewrite foldl_app. Qed.

(** What the sink has compared after some actions. *)
Record compared (events contexts : RuntimeStreamSignature) (acts : list FlowExecutionAction) (s : RuntimePrefixSink) : Prop := {
  cm_expected : expected_events s = events /\ expected_context_manifests s = contexts;
  cm_events : sink_events s = signed EVENT_PLAN_DOMAIN
    (take (Z.to_nat (sig_record_count events)) (map constructed_jsonl (map action_event (omap emitted_action acts))));
  cm_contexts : sink_context_manifests s = signed CONTEXT_PLAN_DOMAIN
    (take (Z.to_nat (sig_record_count contexts)) (manifest_lines (omap emitted_action acts)));
}.

(** One more line counts while the expected number is not reached. *)
Lemma take_push domain (c : Z) lines line :
  0 <= c <= u64_max ->
  (if record_count (signed domain (take (Z.to_nat c) lines)) <? c
   then signature_push (signed domain (take (Z.to_nat c) lines)) line else signed domain (take (Z.to_nat c) lines)) =
  signed domain (take (Z.to_nat c) (lines ++ [line])).
Proof.
  intros Hc. rewrite signed_count by (unfold len; rewrite length_take; lia). unfold len. rewrite length_take.
  destruct (Z.ltb_spec (Z.of_nat (Z.to_nat c `min` List.length lines)) c) as [Hlt|Hge].
  - rewrite take_app_ge by lia. rewrite (take_ge lines) by lia. rewrite (take_ge [line]) by (cbn; lia). by rewrite signed_push.
  - by rewrite take_app_le by lia.
Qed.

Lemma replay_compared events contexts acts :
  0 <= sig_record_count events <= u64_max -> 0 <= sig_record_count contexts <= u64_max ->
  compared events contexts acts (foldl replay_action (prefix_sink_new events contexts) acts).
Proof.
  intros He Hc. induction acts as [|act acts IH] using rev_ind.
  { constructor; [done|..]; cbn; by rewrite take_nil. }
  rewrite foldl_app. cbn [foldl]. generalize dependent (foldl replay_action (prefix_sink_new events contexts) acts).
  intros s [[E1 E2] E3 E4]. destruct act as [a|f].
  2: { constructor; rewrite ?omap_app; cbn; rewrite ?app_nil_r; by rewrite ?E1, ?E2. }
  unfold replay_action, prefix_sink_commit. constructor; [done|..]; cbn [sink_events sink_context_manifests];
    rewrite omap_app; cbn [omap list_omap emitted_action].
  - rewrite !map_app, E1, E3. by apply take_push.
  - unfold manifest_lines. rewrite omap_app, map_app. cbn [omap list_omap]. rewrite E2, E4.
    destruct (context_checkpoint a) as [cp|]; cbn [map]; [by apply take_push|by rewrite app_nil_r].
Qed.

(** ** Turns *)

Abbreviation completes := (fun e : EventEnvelope => event_type e = MessageCompleted).

Lemma log_turns clock k pre log : log_of clock k pre log -> len (filter completes log) = len (filter completes pre).
Proof.
  unfold len. induction 1 as [|k pre log e e' _ IH _ _ He'|k pre log m _ IH Ht _]; [done|..]; rewrite !filter_app, !length_app.
  - assert (event_type e' = event_type e) as Hty by (by destruct He' as (? & _ & ->)).
    destruct (decide (event_type e = MessageCompleted)) as [Hc|Hc].
    + rewrite !filter_cons_True by (by rewrite ?Hty). cbn. lia.
    + rewrite !filter_cons_False by (by rewrite ?Hty). cbn. lia.
  - rewrite filter_cons_False by (by rewrite Ht). cbn. lia.
Qed.

Lemma take_turns n (l : list EventEnvelope) : len (filter completes (take n l)) <= len (filter completes l).
Proof. rewrite <- (take_drop n l) at 2. unfold len. rewrite filter_app, length_app. lia. Qed.

(** A plan has a context for every completed message. *)
Lemma checkpoint_turns l : checkpoints_ok l -> len (omap context_checkpoint l) = len (filter completes (map action_envelope l)).
Proof.
  intros [Hm _]. unfold len. induction l as [|a l IH]; [done|].
  assert (is_Some (context_checkpoint a) <-> event_type (action_envelope a) = MessageCompleted) as Ha by (apply Hm; left).
  cbn [omap list_omap map]. specialize (IH (fun x Hx => Hm x ltac:(by right))).
  destruct (context_checkpoint a) eqn:E.
  - rewrite filter_cons_True by (apply Ha; by eexists). cbn. lia.
  - rewrite filter_cons_False by (intros Hc; by apply Ha in Hc as [? ?]). lia.
Qed.

(** ** The plan *)

Definition plan_lines (ex : RuntimeExecution) : list string := map constructed_jsonl (plan_constructed ex).

Record planned (session : string) (ex : RuntimeExecution) : Prop := {
  pl_events : exec_events ex = signature (signed EVENT_PLAN_DOMAIN (plan_lines ex));
  pl_contexts : exec_context_manifests ex = signature (signed CONTEXT_PLAN_DOMAIN (manifest_lines (plan_actions ex)));
  pl_checkpoints : checkpoints_ok (plan_actions ex);
  pl_lines : Forall2 written (plan_events ex) (plan_lines ex);
  pl_count : len (plan_lines ex) <= MAX_FLOW_EVENTS;
  pl_valid : Forall valid_event (plan_events ex);
}.

Lemma compiled_planned registry policy root session options ex :
  compile_flow_plan registry policy root session options = Ok ex -> planned session ex.
Proof.
  intros H. destruct (compiled_sound _ _ _ _ _ _ H) as (b & st & Hok & Ea & Ee & Ec).
  assert (plan_constructed ex = emitted b) as E by (unfold plan_constructed, emitted, emitted_actions; by rewrite Ea).
  assert (plan_actions ex = emitted_actions b) as E' by (unfold plan_actions, emitted_actions; by rewrite Ea).
  constructor; unfold plan_lines, plan_events; rewrite ?E, ?E'.
  - by rewrite Ee, (bo_events _ _ _ Hok).
  - by rewrite Ec, (bo_manifests _ _ _ Hok).
  - apply (bo_checkpoints _ _ _ Hok).
  - apply Forall2_fmap, Forall_Forall2_diag. apply (bo_lines _ _ _ Hok).
  - pose proof (builder_budget _ _ _ Hok) as (_ & _ & _ & Hn). unfold len in *. by rewrite length_map.
  - apply Forall_map. eapply Forall_impl; [apply (bo_lines _ _ _ Hok)|]. intros c Hc. exact (canonical_valid _ _ Hc).
Qed.

Lemma manifest_count_le session ex : planned session ex -> len (manifest_lines (plan_actions ex)) <= MAX_FLOW_EVENTS.
Proof.
  intros [_ _ Hc _ Hn _]. unfold manifest_lines. unfold len. rewrite length_map. pose proof (checkpoint_turns _ Hc) as E.
  unfold len in E. rewrite E. pose proof (length_filter completes (map action_envelope (plan_actions ex))) as Hl.
  rewrite length_map in Hl. unfold plan_lines, plan_constructed, len in Hn. rewrite !length_map in Hn. unfold plan_actions in *. lia.
Qed.

Lemma started_names e : valid_event e -> names_root e.
Proof.
  intros Hv Ht. destruct (ve_payload _ Hv) as (pay & Hp & Hm). rewrite Ht in Hm. apply Forall_cons in Hm as [Hm _].
  destruct Hm as (v & Hg & t & -> & _). unfold payload_str, value_get. rewrite Hp, Hg. by eexists.
Qed.

(** ** Complete *)

(** What the replay answers for a log with the first [n] events of the plan, after [k] markers, and
    the validator's state [L]. *)
Definition resumption (session : string) (ex : RuntimeExecution) (clock : EventClock) (n k : nat) (L : SessionAppendValidationState)
    : result RuntimeError (ResumeReplayPrefix * ResumeAppendPlan) :=
  _ ← checked_resume_event_count (len (plan_lines ex)) (Z.of_nat k);
  match tool_without_progress (lifecycle L) with
  | Some tool => Err (in_flight_error session tool)
  | None => ap ← resume_append_plan session L clock; Ok (mkReplayPrefix (Z.of_nat n) (Z.of_nat k), ap)
  end.

Section log.
Context (clock : EventClock) (session : string) (ex : RuntimeExecution) (n k : nat) (log : list EventEnvelope).
Context (logb : list (EventEnvelope * Z)) (L : SessionAppendValidationState).
Context (Hplan : planned session ex) (Hclock : in_i64 (base_unix_seconds clock)).
Context (Hlog : log_of clock k (take n (plan_events ex)) log) (Hne : log <> []) (Hn : (n <= List.length (plan_events ex))%nat).
Context (HL : stream_run (empty_state session) logb L) (Elog : map fst logb = log).

Lemma prefix_gathered :
  exists b, observe_all log inspection_new = Ok b /\ gathered clock k (take n (plan_events ex)) log (take n (plan_lines ex)) b.
Proof.
  apply observe_complete; [done|done| | |].
  - destruct (run_budget _ _ _ HL) as (_ & _ & _ & Hb). rewrite <- Elog. unfold len in *. rewrite length_map.
    unfold u64_max, MAX_FLOW_EVENTS in *. lia.
  - by apply Forall2_take, Hplan.
  - apply Forall_take. eapply Forall_impl; [apply Hplan|]. apply started_names.
Qed.

Lemma signature_take domain m lines :
  (m <= List.length lines)%nat -> len lines <= MAX_FLOW_EVENTS ->
  sig_record_count (signature (signed domain (take m lines))) = Z.of_nat m.
Proof.
  intros Hm Hl. cbn. unfold len in Hl. rewrite signed_count; unfold len; rewrite length_take; unfold u64_max, MAX_FLOW_EVENTS in *; lia.
Qed.

(** What the inspection found and the replay compares. *)
Lemma replay_answers path context_path b insp flow c :
  gathered clock k (take n (plan_events ex)) log (take n (plan_lines ex)) b -> finish_inspection path L b = Ok insp ->
  (c <= List.length (manifest_lines (plan_actions ex)))%nat ->
  resume_replay path context_path session clock insp (signature (signed CONTEXT_PLAN_DOMAIN (take c (manifest_lines (plan_actions ex))))) ex flow
    = resumption session ex clock n k L.
Proof.
  intros Hg Hf Hc. pose proof (manifest_count_le _ _ Hplan) as Hm. pose proof (pl_count _ _ Hplan) as Hcount.
  assert (n <= List.length (plan_lines ex))%nat as Hn' by (unfold plan_lines, plan_events in *; rewrite !length_map in *; lia).
  unfold finish_inspection in Hf. rewrite (ga_clock _ _ _ _ _ _ Hg), decide_False in Hf by done.
  apply bind_Ok_inv in Hf as (t & _ & Hf). apply Ok_inj in Hf.
  rewrite (ga_valid _ _ _ _ _ _ Hg), (ga_markers _ _ _ _ _ _ Hg), (ga_prefix _ _ _ _ _ _ Hg), (ga_turns _ _ _ _ _ _ Hg) in Hf.
  change (signed_events (take n (plan_lines ex))) with (signed EVENT_PLAN_DOMAIN (take n (plan_lines ex))) in Hf.
  set (recorded := signature (signed CONTEXT_PLAN_DOMAIN (take c _))).
  assert (sig_record_count recorded = Z.of_nat c) as Erec by (by apply signature_take).
  assert (sig_record_count (exec_events ex) = len (plan_lines ex)) as Eev.
  { rewrite (pl_events _ _ Hplan). cbn. apply signed_count. unfold u64_max, MAX_FLOW_EVENTS in *. lia. }
  assert (sig_record_count (exec_context_manifests ex) = len (manifest_lines (plan_actions ex))) as Ecm.
  { rewrite (pl_contexts _ _ Hplan). cbn. apply signed_count. unfold u64_max, MAX_FLOW_EVENTS in *. lia. }
  assert (sig_record_count (signature (signed EVENT_PLAN_DOMAIN (take n (plan_lines ex)))) = Z.of_nat n) as En by (by apply signature_take).
  assert (len (filter completes log) <= len (manifest_lines (plan_actions ex))) as Hturns.
  { rewrite (log_turns _ _ _ _ Hlog). etransitivity; [apply take_turns|]. rewrite plan_events_actions, <- (checkpoint_turns _ (pl_checkpoints _ _ Hplan)).
    unfold manifest_lines, len. rewrite length_map. lia. }
  unfold resume_replay. cbv zeta. subst insp. cbn [insp_event_prefix insp_completed_turns insp_validation].
  pose proof (replay_compared (signature (signed EVENT_PLAN_DOMAIN (take n (plan_lines ex)))) recorded (exec_actions ex)
    ltac:(unfold u64_max, MAX_FLOW_EVENTS, len in *; lia) ltac:(unfold u64_max, MAX_FLOW_EVENTS, len in *; lia)) as Hcmp.
  generalize dependent (foldl replay_action (prefix_sink_new (signature (signed EVENT_PLAN_DOMAIN (take n (plan_lines ex)))) recorded) (exec_actions ex)).
  intros sink [[S1 S2] S3 S4]. rewrite En, Nat2Z.id in S3. rewrite Erec, Nat2Z.id in S4.
  assert (context_prefix_matches sink = true) as -> by (unfold context_prefix_matches; rewrite S2, S4; by apply bool_decide_eq_true_2).
  assert (event_prefix_matches sink = true) as -> by (unfold event_prefix_matches; rewrite S1, S3; by apply bool_decide_eq_true_2).
  rewrite Ecm, Erec.
  destruct (Z.ltb_spec (len (manifest_lines (plan_actions ex))) (len (filter completes log))); [lia|].
  destruct (Z.ltb_spec (len (manifest_lines (plan_actions ex))) (Z.of_nat c)); [unfold len in *; lia|]. cbn [orb negb].
  unfold validate_resume_replay_prefix. cbn [insp_prefix_metadata_valid insp_event_prefix insp_resume_marker_count negb orb].
  rewrite En, Eev. destruct (Z.ltb_spec (len (plan_lines ex)) (Z.of_nat n)); [unfold len in *; lia|]. cbn [orb mbind result_bind replay_marker_count].
  unfold resumption. destruct (checked_resume_event_count _ _); [|done..]. cbn [mbind result_bind].
  by destruct (tool_without_progress (lifecycle L)).
Qed.
End log.

(** C17: A log that the runtime wrote can be resumed.  It is not empty, the validator accepts it and
    ends in [L], it holds the first [n] events of the plan after [k] resumptions, and the
    first [c] contexts of the plan were recorded.  Then the inspection succeeds, and the
    replay never finds that log or contexts differ from the plan: it refuses only if the whole plan,
    the markers and one more do not fit the budget of events, or a Tool of the log was started
    and has no further event, or no marker can be built; otherwise it returns just the
    position [n], the [k] markers and the marker to append. *)
Theorem replay_complete registry policy root session options ex n k log logb L path context_path flow c :
  compile_flow_plan registry policy root session options = Ok ex -> in_i64 (base_unix_seconds (option_clock options)) ->
  log_of (option_clock options) k (take n (plan_events ex)) log -> log <> [] -> (n <= List.length (plan_events ex))%nat ->
  stream_run (empty_state session) logb L -> map fst logb = log ->
  (c <= List.length (manifest_lines (plan_actions ex)))%nat ->
  exists b insp, observe_all log inspection_new = Ok b /\ finish_inspection path L b = Ok insp /\
    resume_replay path context_path session (option_clock options) insp
      (signature (signed CONTEXT_PLAN_DOMAIN (take c (manifest_lines (plan_actions ex))))) ex flow
      = (_ ← checked_resume_event_count (len (plan_lines ex)) (Z.of_nat k);
         match tool_without_progress (lifecycle L) with
         | Some tool => Err (in_flight_error session tool)
         | None =>
             ap ← resume_append_plan session L (option_clock options);
             Ok (mkReplayPrefix (Z.of_nat n) (Z.of_nat k), ap)
         end).
Proof.
  intros Hplan%compiled_planned Hi Hlog Hne Hn HL Elog Hc.
  destruct (prefix_gathered _ session ex n k log logb L Hplan Hi Hlog Hn HL Elog) as (b & Ho & Hg).
  destruct (last log) as [e|] eqn:El; [|by apply last_None in El].
  assert (finish_inspection path L b = Ok (mkInspection (option_clock options) (completed_turns b) (signature (event_prefix b)) (event_type e)
    (prefix_metadata_valid b) (resume_marker_count b) (root_flow_definition_id b) L)) as Hf.
  { unfold finish_inspection. rewrite (ga_clock _ _ _ _ _ _ Hg), decide_False, (ga_last _ _ _ _ _ _ Hg), El by done. done. }
  eexists b, _. split_and!; [done|exact Hf|]. by eapply replay_answers.
Qed.

(** ** Sound *)

Lemma validate_prefix_Ok path insp ok ex flow pfx :
  validate_resume_replay_prefix path insp ok ex flow = Ok pfx ->
  insp_prefix_metadata_valid insp = true /\ sig_record_count (insp_event_prefix insp) <= sig_record_count (exec_events ex) /\ ok = true /\
  pfx = mkReplayPrefix (sig_record_count (insp_event_prefix insp)) (insp_resume_marker_count insp).
Proof.
  unfold validate_resume_replay_prefix. destruct (insp_prefix_metadata_valid insp); [|done]. cbn [negb orb].
  destruct (Z.ltb_spec (sig_record_count (exec_events ex)) (sig_record_count (insp_event_prefix insp))); [done|]. cbn [orb].
  destruct ok; [|done]. cbn [negb]. intros [= <-]. by split_and!.
Qed.

Lemma replay_inv path context_path session clock insp recorded ex flow pfx ap :
  resume_replay path context_path session clock insp recorded ex flow = Ok (pfx, ap) ->
  event_prefix_matches (foldl replay_action (prefix_sink_new (insp_event_prefix insp) recorded) (exec_actions ex)) = true /\
  context_prefix_matches (foldl replay_action (prefix_sink_new (insp_event_prefix insp) recorded) (exec_actions ex)) = true /\
  insp_prefix_metadata_valid insp = true /\ sig_record_count (insp_event_prefix insp) <= sig_record_count (exec_events ex) /\
  pfx = mkReplayPrefix (sig_record_count (insp_event_prefix insp)) (insp_resume_marker_count insp) /\
  sig_record_count (exec_events ex) + insp_resume_marker_count insp + 1 <= MAX_FLOW_EVENTS /\
  tool_without_progress (lifecycle (insp_validation insp)) = None /\
  resume_append_plan session (insp_validation insp) clock = Ok ap.
Proof.
  unfold resume_replay. cbv zeta. destruct (context_prefix_matches _); [|by rewrite orb_true_r].
  destruct (_ || _ || _); [done|]. intros H. apply bind_Ok_inv in H as (p & Hp & H). apply validate_prefix_Ok in Hp as (H1 & H2 & H3 & ->).
  apply bind_Ok_inv in H as (total & Htot & H). apply bind_Ok_inv in H as ([] & Htool & H). apply bind_Ok_inv in H as (ap' & Hap & H).
  injection H as <- <-. unfold checked_resume_event_count in Htot. cbv zeta in Htot. cbn [replay_marker_count] in Htot.
  destruct (Z.ltb_spec MAX_FLOW_EVENTS (sig_record_count (exec_events ex) + insp_resume_marker_count insp + 1)); [done|].
  split_and!; try done. by destruct (tool_without_progress _).
Qed.

(** C11: Nothing else is resumed: when inspection and replay accept a log, it holds planned events moved past
    the markers it contains, as many of them as the replay says and no more than the plan has, and
    their lines have the signature (digest, number of lines and of bytes) of the first lines of the
    plan; no Tool is in flight, and the rest of the plan is within the budget of events. *)
Theorem replay_sound registry policy root session options ex log L path context_path flow recorded b insp pfx ap clock :
  compile_flow_plan registry policy root session options = Ok ex ->
  (forall i e, log !! i = Some e -> sequence e = Z.of_nat i + 1) -> len log <= u64_max ->
  0 <= sig_record_count recorded <= u64_max ->
  observe_all log inspection_new = Ok b -> finish_inspection path L b = Ok insp ->
  resume_replay path context_path session clock insp recorded ex flow = Ok (pfx, ap) ->
  exists clock' k n pre lines,
    log_of clock' k pre log /\ Forall2 written pre lines /\ List.length lines = n /\ (n <= List.length (plan_lines ex))%nat /\
    signature (signed_events lines) = signature (signed_events (take n (plan_lines ex))) /\
    pfx = mkReplayPrefix (Z.of_nat n) (Z.of_nat k) /\ len (plan_lines ex) + Z.of_nat k + 1 <= MAX_FLOW_EVENTS /\
    tool_without_progress (lifecycle L) = None /\ resume_append_plan session L clock = Ok ap.
Proof.
  intros Hplan%compiled_planned Hseq Hlen Hrec Ho Hf (R1 & _ & R3 & R4 & -> & R6 & R7 & R8)%replay_inv.
  unfold finish_inspection in Hf. destruct (found_clock b) as [clock'|]; [|done].
  apply bind_Ok_inv in Hf as (t & _ & Hf). apply Ok_inj in Hf.
  assert (prefix_metadata_valid b = true) as Hv by (by rewrite <- Hf in R3).
  destruct (observe_sound log b Hseq Hlen Ho Hv) as (clock1 & k & pre & lines & Hg & _).
  pose proof (log_of_len _ _ _ _ (ga_log _ _ _ _ _ _ Hg)) as El. pose proof (Forall2_length _ _ _ (ga_lines _ _ _ _ _ _ Hg)) as Ew.
  assert (insp_event_prefix insp = signature (signed_events lines)) as Ep by (rewrite <- Hf; cbn; by rewrite (ga_prefix _ _ _ _ _ _ Hg)).
  assert (sig_record_count (insp_event_prefix insp) = len lines) as Ec.
  { rewrite Ep. apply (signed_count EVENT_PLAN_DOMAIN). unfold len in *. lia. }
  assert (insp_resume_marker_count insp = Z.of_nat k) as Ek by (rewrite <- Hf; cbn; apply (ga_markers _ _ _ _ _ _ Hg)).
  assert (insp_validation insp = L) as EL by (by rewrite <- Hf). rewrite EL in R7, R8.
  assert (sig_record_count (exec_events ex) = len (plan_lines ex)) as Eev.
  { rewrite (pl_events _ _ Hplan). cbn. apply signed_count. pose proof (pl_count _ _ Hplan). unfold u64_max, MAX_FLOW_EVENTS in *. lia. }
  pose proof (replay_compared (insp_event_prefix insp) recorded (exec_actions ex) ltac:(unfold len in *; lia) Hrec) as [[S1 _] S3 _].
  unfold event_prefix_matches in R1. apply bool_decide_eq_true in R1. rewrite S1, S3, Ec in R1. unfold len in R1 at 1. rewrite Nat2Z.id in R1.
  change (map constructed_jsonl (map action_event (omap emitted_action (exec_actions ex)))) with (plan_lines ex) in R1.
  rewrite Eev, Ec in R4. rewrite Ep in R1. rewrite Eev, Ek in R6.
  exists clock1, k, (List.length lines), pre, lines. rewrite Ec, Ek.
  split_and!; try done; [apply Hg|apply Hg|unfold len in R4; lia].
Qed.
End replay.

Section inspect.
Context {J : JsonEnv} {JL : JsonLaws} {R : RuntimeEnv} {P : JsonParser} (error_text : RuntimeError -> string).

(** The line of an event in a log: text that the parser reads back as the event, and a line feed. *)
Record log_line (e : EventEnvelope) (line : string) : Prop := {
  ll_text : exists text, line = text +:+ newline /\ free_of lf text = true /\ ends_with_char cr text = false /\
    forall n, parse_canonical_event n text = Ok e;
  ll_utf8 : from_utf8 line = true;
}.

Lemma newline_lf : newline = String lf "".
Proof. done. Qed.

Lemma free_line text : free_of lf text = true -> is_line (text +:+ newline).
Proof.
  unfold is_line, free_of. induction text as [|a text IH]; [done|]. cbn [bytes_all].
  intros [Ha Ht]%andb_true_iff. change (String a text +:+ newline) with (String a (text +:+ newline)). cbn [lines_with_lf].
  apply negb_true_iff in Ha. rewrite Ha, IH by done. done.
Qed.

Lemma log_line_record e line : log_line e line -> line_record line.
Proof.
  intros [(text & -> & Hf & _ & _) Hu]. split_and!; [by apply free_line|apply ends_with_char_snoc|done].
Qed.

(** A line of the log that the validator and the inspection accept. *)
Lemma inspect_line_step e line L L' b b' :
  log_line e line -> stream_step L e (slen line) L' -> inspection_observe e b = Ok b' ->
  inspect_line error_text line (L, b) = Ok (L', b').
Proof.
  intros [(text & -> & Hf & Hcr & Hp) _] [? _ Hb Hbudget Hvalid Hrecord] Ho. unfold inspect_line, validate_appended_with. cbn [fst snd].
  assert (String.eqb (text +:+ newline) "" = false) as -> by (apply String.eqb_neq; by destruct text).
  rewrite newline_lf, ends_with_char_snoc. cbn [negb]. rewrite split_terminator_snoc, split_free by done. cbn [accept_lines].
  assert (sat_u64 (slen text + 1) = slen (text +:+ newline)) as Es.
  { rewrite slen_app. change (slen newline) with 1. apply sat_u64_id. rewrite slen_app in Hb. change (slen newline) with 1 in Hb.
    pose proof (slen_nonneg text). unfold in_u64, u64_max, MAX_CANONICAL_EVENT_BYTES in *. lia. }
  unfold accept_line. rewrite Hcr, Es. unfold validate_event_size. rewrite (proj2 (Z.leb_le _ _)) by lia. cbn [mbind result_bind].
  rewrite Hp. cbn [mbind result_bind]. rewrite Hbudget. cbn [mbind result_bind]. rewrite Hvalid. cbn [mbind result_bind].
  unfold observe_visitor. rewrite Ho. cbn [map_err mbind result_bind]. by rewrite Hrecord.
Qed.

Definition log_sizes (log : list EventEnvelope) (lines : list string) : list (EventEnvelope * Z) :=
  zip_with (fun e line => (e, slen line)) log lines.

Lemma inspect_lines log lines L0 b0 L b :
  Forall2 log_line log lines -> stream_run L0 (log_sizes log lines) L -> observe_all log b0 = Ok b ->
  visit_all (inspect_line error_text) lines (L0, b0) = Ok (L, b).
Proof.
  intros Hl. revert L0 b0. induction Hl as [|e line log lines He _ IH]; intros L0 b0 Hrun Ho.
  { cbn in *. inversion Hrun as [|? ? ? ? ? ? ? E]; [|by apply app_eq_nil in E as [_ ?]]. by injection Ho as <-. }
  cbn [log_sizes zip_with] in Hrun. change (?x :: ?l) with ([x] ++ l) in Hrun. apply run_split in Hrun as (L1 & Hone & Hrun).
  destruct (run_last_step _ _ e _ Hone []) as (l & n & st & El & Enil & Hn & Hstep); [done|].
  assert (l = []) as -> by (by destruct l). cbn in El. injection El as <-.
  assert (st = L0) as -> by (inversion Hn as [|? ? ? ? ? ? ? E]; [done|by apply app_eq_nil in E as [_ ?]]).
  cbn [observe_all] in Ho. apply bind_Ok_inv in Ho as (b1 & Ho1 & Ho). cbn [visit_all].
  rewrite (inspect_line_step e line L0 L1 b0 b1 He Hstep Ho1). cbn [mbind result_bind]. by apply IH.
Qed.
End inspect.

Section stored.
Context {J : JsonEnv} {JL : JsonLaws} {R : RuntimeEnv} {P : JsonParser} {K : Storage}.
Context (base : AnchoredFile) (stem : string) (utf8_text : string -> string) (error_text : RuntimeError -> string).
Context (Hstem : segmented_jsonl_stem base = Ok stem) (Hcalm : calm stem).

(** C18: A stored log is inspected as what it is.  On a disk without faults, when the segments of the stream
    hold the lines of a log that the validator accepts, planned events moved past [k] markers,
    the inspection reads all segments, changes none, and returns the clock, the signature of
    the planned lines, the number of markers and of turns, and the state of the validator. *)
Theorem stored_log_inspected a full cur nm groups current s session clock k pre log lines L :
  stream_at a full cur [] nm s -> layout a full cur [] groups current -> base_path a = base -> limits a = EVENT_STREAM_LIMITS ->
  Forall2 log_line log (concat groups ++ current) ->
  stream_run (empty_state session) (log_sizes log (concat groups ++ current)) L ->
  log_of clock k pre log -> log <> [] -> in_i64 (base_unix_seconds clock) -> Forall2 written pre lines ->
  exists d' insp, inspect_resume_session utf8_text error_text base session (disk s) = (d', Ok insp) /\ files d' = files (disk s) /\
    insp_clock insp = clock /\ insp_event_prefix insp = signature (signed_events lines) /\
    insp_prefix_metadata_valid insp = true /\ insp_resume_marker_count insp = Z.of_nat k /\
    insp_completed_turns insp = len (filter (fun e => event_type e = MessageCompleted) pre) /\ insp_validation insp = L.
Proof.
  intros Hs Hlay Hb Hlim Hl Hrun Hlog Hne Hi Hw.
  assert (Forall names_root pre) as Hroot.
  { apply Forall_forall. intros e (i & Hi')%list_elem_of_lookup. apply (Forall2_lookup_l _ _ _ _ _ Hw) in Hi' as (line & _ & Hline).
    apply started_names. by eapply canonical_valid. }
  assert (len log <= u64_max) as Hlen.
  { destruct (run_budget _ _ _ Hrun) as (_ & _ & _ & Hn). unfold len in *. unfold log_sizes in Hn.
    rewrite length_zip_with_l_eq in Hn by (by eapply Forall2_length). unfold u64_max, MAX_FLOW_EVENTS in *. lia. }
  destruct (observe_complete clock k pre log lines Hlog Hi Hlen Hw Hroot) as (b & Ho & Hg).
  pose proof (inspect_lines error_text log _ _ _ _ _ Hl Hrun Ho) as Hvisit.
  assert (Forall line_record (concat groups ++ current)) as Hrec.
  { apply Forall_forall. intros line (i & Hi')%list_elem_of_lookup. apply (Forall2_lookup_r _ _ _ _ _ Hl) in Hi' as (e & _ & He).
    by eapply log_line_record. }
  destruct (stored_records_read base stem Hstem Hcalm (inspect_line error_text) utf8_text a full cur nm groups current s
    (empty_state session, inspection_new) (L, b) Hs Hlay Hb Hrec Hvisit) as (d' & Hread & Hfiles).
  rewrite Hlim in Hread. destruct (last log) as [e|] eqn:El; [|by apply last_None in El].
  eexists d', _. unfold inspect_resume_session. rewrite eff_bind_eq, Hread. unfold lift, finish_inspection.
  rewrite (ga_clock _ _ _ _ _ _ Hg), decide_False, (ga_last _ _ _ _ _ _ Hg), El by done. cbn [fmap option_fmap option_map expect mbind result_bind].
  split_and!; [reflexivity|done..| | | | |]; cbn.
  - by rewrite (ga_prefix _ _ _ _ _ _ Hg).
  - apply (ga_valid _ _ _ _ _ _ Hg).
  - apply (ga_markers _ _ _ _ _ _ Hg).
  - rewrite (ga_turns _ _ _ _ _ _ Hg). by eapply log_turns.
  - done.
Qed.

End stored.

(** ** The dry run on the disk *)

Section dry_run.
Context {J : JsonEnv} {JL : JsonLaws} {R : RuntimeEnv} {P : JsonParser} {K : Storage} (base : AnchoredFile).
Context {W : Type} {O : ObjectPreflight W}.

Lemma log_sizes_total log lines : List.length log = List.length lines -> StreamProps.total_bytes (log_sizes log lines) = sum_lengths lines.
Proof.
  revert lines. induction log as [|e log IH]; intros [|line lines]; try done. intros [= El].
  change (StreamProps.total_bytes (log_sizes (e :: log) (line :: lines))) with (slen line + StreamProps.total_bytes (log_sizes log lines)).
  rewrite (IH _ El). done.
Qed.

Lemma sum_concat groups : sum_lengths (concat groups) = sum_lengths (concat_bytes <$> groups).
Proof.
  induction groups as [|g groups IH]; [done|]. cbn [concat]. rewrite sum_lengths_app, IH. cbn. by rewrite slen_concat.
Qed.

(** The dry run opens with the bytes of the log and the marker. *)
Lemma preflight_opened contexts a full cur nm groups current s log logb L ap clock n k session d' sink :
  stream_at a full cur [] nm s -> layout a full cur [] groups current -> base_path a = base -> limits a = EVENT_STREAM_LIMITS ->
  logb = log_sizes log (concat groups ++ current) -> List.length log = List.length (concat groups ++ current) ->
  stream_run (empty_state session) logb L ->
  preflight_open (W := W) base contexts (slen (marker_stream ap)) clock (Z.of_nat n) (Z.of_nat k) (disk s) = (d', Ok sink) ->
  opened clock n k L ap sink.
Proof.
  intros [_ [Hfiles _]] Hlay Hb Hlim -> Elen Hrun E.
  assert (len (files (disk s)) = len full + 1) as Hlen by (rewrite Hfiles; unfold len; rewrite length_app; cbn; lia).
  pose proof Hlay as []. rewrite Hlim in *. unfold EVENT_STREAM_LIMITS in layout_max_segments. cbn [max_segments] in layout_max_segments.
  unfold preflight_open, stream_preflight_open in E. apply eff_bind_Ok in E as (d1 & ev0 & E1 & E).
  apply eff_bind_Ok in E1 as (d0 & inventory & E0 & E1). injection E1 as <- <-.
  destruct (inventory_stem _ _ _ _ _ E0) as [stem Hstem].
  destruct (inventory_sound base stem EVENT_STREAM_LIMITS Hstem ltac:(done) (disk s) d0 inventory E0)
    as (full' & cur' & Hfiles' & _ & I1 & _ & _ & _ & _ & _ & I7 & I8 & _).
  rewrite Hfiles in Hfiles'. apply app_inj_tail in Hfiles' as [<- <-].
  rewrite sat_sum_exact in I8; [|done|rewrite <- I8; unfold EVENT_STREAM_LIMITS in I7; cbn in I7; unfold MAX_SESSION_EVENT_BYTES, u64_max in *; lia].
  apply eff_bind_Ok in E as (d2 & ev & E2 & E). unfold lift in E2. injection E2 as <- E2.
  apply eff_bind_Ok in E as (d3 & cx & _ & E). injection E as <- <-.
  assert (inv_total_bytes inventory = stream_bytes L) as Etot.
  { destruct (run_budget _ _ _ Hrun) as (-> & _). rewrite log_sizes_total by done. rewrite I8, Hfiles, fmap_app, !sum_lengths_app, sum_concat, layout_groups.
    cbn. rewrite layout_records, slen_concat. lia. }
  apply (preflight_record_within EVENT_STREAM_LIMITS) in E2 as [Hw Ht]; [|done| |apply slen_nonneg].
  2: { constructor; cbn; [done| |done]. rewrite I1, I8, Hfiles, fmap_app, sum_lengths_app. cbn.
    pose proof (slen_nonneg (contents cur)). pose proof (sum_lengths_nonneg (contents <$> full)). lia. }
  constructor; cbn; try done. rewrite Ht. cbn. by rewrite Etot.
Qed.

Lemma log_sizes_events log lines : List.length log = List.length lines -> map fst (log_sizes log lines) = log.
Proof.
  revert lines. induction log as [|e log IH]; intros [|line lines]; try done. intros [= El]. cbn. f_equal. by apply IH.
Qed.

(** C10: A session can be resumed when the dry run says so, whatever the storage answers while it
    runs.  The log on the disk, in the layout the appender leaves, is accepted by the validator
    and holds the first [n] events of the plan, some but not all, after [k] resumptions; the marker is
    the one planned for the validator's state, and its line is no longer than an event may be.
    If the dry run opens on this log and accepts the marker and the plan, then every missing event can be moved past the
    marker, the validator accepts the marker and these events after the log within all budgets,
    and the log that results is the whole plan after [k + 1] resumptions, with every Flow, Phase,
    Tool and message closed. *)
Theorem dry_run_sound contexts a full cur nm groups current s registry policy root session options ex n k log L ap d' sink sink' :
  stream_at a full cur [] nm s -> layout a full cur [] groups current -> base_path a = base -> limits a = EVENT_STREAM_LIMITS ->
  List.length log = List.length (concat groups ++ current) ->
  stream_run (empty_state session) (log_sizes log (concat groups ++ current)) L ->
  compile_flow_plan registry policy root session options = Ok ex -> (0 < n < List.length (plan_events ex))%nat ->
  log_of (option_clock options) k (take n (plan_events ex)) log ->
  resume_append_plan session L (option_clock options) = Ok ap -> slen (marker_stream ap) <= MAX_CANONICAL_EVENT_BYTES ->
  preflight_open (W := W) base contexts (slen (marker_stream ap)) (option_clock options) (Z.of_nat n) (Z.of_nat k) (disk s)
    = (d', Ok sink) ->
  preflight_plan (plan_actions ex) sink = Ok sink' ->
  exists out L',
    Forall2 (fun a x => resumed_event (action_envelope a) (Z.of_nat k) (option_clock options) = Ok x) (drop n (plan_actions ex)) out /\
    stream_run L (sized_line (marker_event ap, marker_stream ap) :: map sized_line out) L' /\
    log_of (option_clock options) (S k) (plan_events ex) (log ++ marker_event ap :: map fst out) /\
    closed (lifecycle L').
Proof.
  intros Hs Hlay Hb Hlim El Hrun Hplan Hn Hlog Hap Hsize Hopen Hpre.
  eapply dry_run_valid; [exact Hplan|exact Hn|exact Hlog|exact Hrun|by apply log_sizes_events|exact Hap|exact Hsize| |exact Hpre].
  by eapply preflight_opened.
Qed.
End dry_run.
