(* ===== verification/ResumeExamples.v ===== *)
(** A session that stops, is resumed and stops again, and is resumed once more: the properties of the
    resumption apply to its log. *)

From Stdlib Require Import ZArith Lia Ascii String.
From stdpp Require Import base strings sorting sets option gmap countable list.
From S2P Require Import Prelude Decimal Sorting Metadata Json FlowValue Event Lifecycle LifecycleTheory.
From S2P Require Import Paths Values Blocks Registry ScriptExamples Errors EffectTheory PhaseControl Policy OwnScript.
From S2P Require Import Context Builder Planner PlanProps PlanExamples Segments Appender AppenderTheory Writer WriterClient.
From S2P Require Import WriterExamples Lines LinesTheory Resume ResumeTheory Lifecycle Validate ValidateTheory StreamProps.
From S2P Require Import BuilderTheory ResumeProps ResumeReplay.

Open Scope Z_scope.

#[local] Existing Instance plain_json.
#[local] Existing Instance plain_json_laws.
#[local] Existing Instance demo_env.
#[local] Existing Instance calm_storage.

Definition value_or {E A} (r : result E A) (a : A) : A := match r with Ok x => x | _ => a end.

(** * The log *)

Definition talk_clock : EventClock := option_clock demo_options.

Definition talk_event (i : nat) : EventEnvelope :=
  default (runtime_event "" 0 "" None SessionStarted JNull) (plan_events talk_execution !! i).

Definition talk_pre : list EventEnvelope := [talk_event 0; talk_event 1; talk_event 2].

(** What the validator accepts, event by event. *)
Fixpoint validated_all (l : list (EventEnvelope * Z)) (st : SessionAppendValidationState) : option SessionAppendValidationState :=
  match l with
  | [] => Some st
  | (e, b) :: l => match validate_constructed_event st e b with Ok st => validated_all l st | _ => None end
  end.

Lemma validated_all_run l st st' : Forall (fun x => 0 <= x.2) l -> validated_all l st = Some st' -> stream_run st l st'.
Proof.
  intros Hl. revert st. induction Hl as [|[e b] l Hb _ IH]; intros st; cbn [validated_all]; [intros [= <-]; constructor|].
  destruct (validate_constructed_event st e b) as [st1| |] eqn:E; [|done..]. intros H.
  change ((e, b) :: l) with ([(e, b)] ++ l). eapply stream_run_app; [|by apply IH].
  by apply stream_run_one, constructed_event_step.
Qed.

Definition event_line (e : EventEnvelope) : string := match canonical_jsonl e with Ok line => line | _ => "" end.

Definition run_state (log : list EventEnvelope) : SessionAppendValidationState :=
  default (empty_state "") (validated_all (log_sizes log (event_line <$> log)) (empty_state "session-1")).

(** The marker of a resumption after a log, and the event that follows it. *)
Definition marker_after (log : list EventEnvelope) : ResumeAppendPlan :=
  match resume_append_plan "session-1" (run_state log) talk_clock with
  | Ok ap => ap
  | _ => mkAppendPlan (talk_event 0) ""
  end.

Definition moved_event (e : EventEnvelope) (k : Z) : EventEnvelope :=
  match resumed_event e k talk_clock with Ok x => x.1 | _ => e end.

(** Two events, the marker of a resumption, and the third event of the plan. *)
Definition talk_marker : EventEnvelope := marker_event (marker_after [talk_event 0; talk_event 1]).
Definition talk_log : list EventEnvelope := [talk_event 0; talk_event 1; talk_marker; moved_event (talk_event 2) 0].
Definition talk_records : list string := event_line <$> talk_log.
Definition talk_state : SessionAppendValidationState := run_state talk_log.

Example talk_log_ids :
  map event_id talk_log = ["evt-001"; "evt-002"; "evt-003"; "evt-004"]%string /\
  map event_type talk_log = [SessionStarted; FlowStarted; SessionResumed; PhaseEntered].
Proof. vm_compute. split; reflexivity. Qed.

Lemma placed_by i e e' : clock_timestamp talk_clock i = Ok (timestamp e') ->
  e' = with_position e i (runtime_event_id i) (timestamp e') -> placed talk_clock i e e'.
Proof. intros H1 H2. by exists (timestamp e'). Qed.

Ltac place := apply placed_by; vm_compute; reflexivity.

Lemma talk_log_of : log_of talk_clock 1 talk_pre talk_log.
Proof.
  apply (log_event talk_clock 1 [talk_event 0; talk_event 1] [talk_event 0; talk_event 1; talk_marker] (talk_event 2));
    [|vm_compute; discriminate|place|place].
  apply (log_marker talk_clock 0 [talk_event 0; talk_event 1] [talk_event 0; talk_event 1]); [|vm_compute; reflexivity|place].
  apply (log_event talk_clock 0 [talk_event 0] [talk_event 0] (talk_event 1)); [|vm_compute; discriminate|place|place].
  apply (log_event talk_clock 0 [] [] (talk_event 0)); [constructor|vm_compute; discriminate|place|place].
Qed.

Lemma talk_pre_taken : take 3 (plan_events talk_execution) = talk_pre.
Proof. vm_compute. reflexivity. Qed.

Lemma talk_run : stream_run (empty_state "session-1") (log_sizes talk_log talk_records) talk_state.
Proof. apply validated_all_run; [apply (bool_decide_unpack _); vm_compute; exact I|]. vm_compute. reflexivity. Qed.

(** * The disk *)

Definition talk_file : SegmentFile := mkSegmentFile (concat_bytes talk_records) (slen (concat_bytes talk_records)).
Definition talk_appender : SessionLogAppender :=
  mkAppender demo_base (slen (concat_bytes talk_records)) 1 0 true EVENT_STREAM_LIMITS [] (slen (concat_bytes talk_records)).
Definition talk_stream : Stream := mkStream talk_appender (mkDisk [talk_file] 1 0).

Lemma talk_layout : layout talk_appender [] talk_file [] [] talk_records.
Proof.
  constructor.
  1-6, 8, 9: reflexivity.
  1-3: constructor.
  - constructor; [vm_compute; discriminate|constructor].
  - vm_compute. discriminate.
  - vm_compute. reflexivity.
  - vm_compute. discriminate.
  - vm_compute. discriminate.
Qed.

Lemma talk_stream_at : stream_at talk_appender [] talk_file [] 1 talk_stream.
Proof. done. Qed.

(** A parser that reads the lines of this log. *)
#[local] Instance talk_parser : JsonParser :=
  {| from_str text := serialize_fields <$> List.find (fun e => String.eqb (event_line e) (text +:+ newline)) talk_log |}.

Definition line_text (e : EventEnvelope) : string :=
  match canonical_json (serialize_fields e) with Ok text => text | _ => "" end.

(** What every event of the log has, from one evaluation over the list. *)
Lemma on_list {A} (f g : EventEnvelope -> A) l e : map f l = map g l -> e ∈ l -> f e = g e.
Proof.
  intros H (i & Hi)%list_elem_of_lookup. apply (f_equal (fun l => l !! i)) in H.
  rewrite !list_lookup_fmap, Hi in H. by injection H.
Qed.

Lemma talk_texts : map event_line talk_log = map (fun e => line_text e +:+ newline) talk_log.
Proof. vm_compute. reflexivity. Qed.
Lemma talk_free : map (fun e => free_of lf (line_text e)) talk_log = map (fun _ => true) talk_log.
Proof. vm_compute. reflexivity. Qed.
Lemma talk_no_cr : map (fun e => ends_with_char cr (line_text e)) talk_log = map (fun _ => false) talk_log.
Proof. vm_compute. reflexivity. Qed.
Lemma talk_utf8 : map (fun e => from_utf8 (event_line e)) talk_log = map (fun _ => true) talk_log.
Proof. vm_compute. reflexivity. Qed.
Lemma talk_parsed : map (fun e => from_str (line_text e)) talk_log = map (fun e => Some (serialize_fields e)) talk_log.
Proof. vm_compute. reflexivity. Qed.
Lemma talk_canonical : map (fun e => canonical_json (serialize_fields e)) talk_log = map (fun e => Ok (line_text e)) talk_log.
Proof. vm_compute. reflexivity. Qed.
Lemma talk_read : map (fun e => event_from_value (serialize_fields e)) talk_log = map Ok talk_log.
Proof. vm_compute. reflexivity. Qed.

Lemma talk_lines : Forall2 log_line talk_log talk_records.
Proof.
  apply Forall2_fmap_r, Forall_Forall2_diag, Forall_forall. intros e He.
  constructor; [|exact (on_list _ _ _ e talk_utf8 He)]. exists (line_text e).
  split_and!; [exact (on_list _ _ _ e talk_texts He)|exact (on_list _ _ _ e talk_free He)|exact (on_list _ _ _ e talk_no_cr He)|].
  intros n. unfold parse_canonical_event. pose proof (on_list _ _ _ e talk_parsed He) as H1. cbv beta in H1. rewrite H1.
  cbn [ok_or mbind result_bind]. pose proof (on_list _ _ _ e talk_canonical He) as H2. cbv beta in H2. rewrite H2.
  cbn [map_err mbind result_bind]. rewrite String.eqb_refl. cbn [negb].
  pose proof (on_list _ _ _ e talk_read He) as H3. cbv beta in H3. rewrite H3. reflexivity.
Qed.

Lemma talk_pre_written : Forall2 written talk_pre (event_line <$> talk_pre).
Proof.
  assert (map canonical_jsonl talk_pre = map (fun e => Ok (event_line e)) talk_pre) as H by (vm_compute; reflexivity).
  apply Forall2_fmap_r, Forall_Forall2_diag, Forall_forall. intros e He. exact (on_list _ _ _ e H He).
Qed.

Lemma stored_log_inspected_witness :
  exists d' insp, inspect_resume_session (fun s => s) no_error_text demo_base "session-1" (disk talk_stream) = (d', Ok insp) /\
    files d' = [talk_file] /\ insp_clock insp = talk_clock /\
    insp_event_prefix insp = signature (signed_events (event_line <$> talk_pre)) /\ insp_prefix_metadata_valid insp = true /\
    insp_resume_marker_count insp = 1 /\ insp_completed_turns insp = 0 /\ insp_validation insp = talk_state.
Proof.
  apply (stored_log_inspected demo_base "run1" (fun s => s) no_error_text eq_refl calm_demo talk_appender [] talk_file 1 [] talk_records
    talk_stream "session-1" talk_clock 1 talk_pre talk_log (event_line <$> talk_pre) talk_state).
  - apply talk_stream_at.
  - apply talk_layout.
  - reflexivity.
  - reflexivity.
  - apply talk_lines.
  - apply talk_run.
  - apply talk_log_of.
  - discriminate.
  - split; vm_compute; discriminate.
  - apply talk_pre_written.
Defined.

(** * The replay *)

Definition talk_gathered : ResumeInspectionBuilder :=
  value_or (observe_all talk_log inspection_new) inspection_new.
Definition talk_inspection : ResumeSessionInspection :=
  value_or (finish_inspection demo_base talk_state talk_gathered)
    (mkInspection talk_clock 0 (signature (signed_events [])) SessionStarted false 0 None talk_state).
Definition no_contexts : RuntimeStreamSignature := signature (signed CONTEXT_PLAN_DOMAIN []).

Lemma talk_marker_planned : resume_append_plan "session-1" talk_state talk_clock = Ok (marker_after talk_log).
Proof. vm_compute. reflexivity. Qed.

Lemma replay_complete_witness :
  exists b insp, observe_all talk_log inspection_new = Ok b /\ finish_inspection demo_base talk_state b = Ok insp /\
    resume_replay demo_base demo_base "session-1" talk_clock insp no_contexts talk_execution talk_root
      = Ok (mkReplayPrefix 3 1, marker_after talk_log).
Proof.
  destruct (replay_complete policy_registry policy_artifact talk_root "session-1" demo_options talk_execution 3 1 talk_log
    (log_sizes talk_log talk_records) talk_state demo_base demo_base talk_root 0) as (b & insp & Ho & Hf & Hr).
  - exact talk_planned.
  - split; vm_compute; discriminate.
  - rewrite talk_pre_taken. apply talk_log_of.
  - discriminate.
  - apply Nat.leb_le. vm_compute. reflexivity.
  - apply talk_run.
  - by apply log_sizes_events.
  - apply Nat.le_0_l.
  - exists b, insp. split; [exact Ho|]. split; [exact Hf|]. etransitivity; [exact Hr|]. vm_compute. reflexivity.
Defined.

Lemma replay_sound_witness :
  exists clock' k n pre lines,
    log_of clock' k pre talk_log /\ Forall2 written pre lines /\ List.length lines = n /\ (n <= List.length (plan_lines talk_execution))%nat /\
    signature (signed_events lines) = signature (signed_events (take n (plan_lines talk_execution))) /\
    mkReplayPrefix 3 1 = mkReplayPrefix (Z.of_nat n) (Z.of_nat k) /\ len (plan_lines talk_execution) + Z.of_nat k + 1 <= MAX_FLOW_EVENTS /\
    tool_without_progress (lifecycle talk_state) = None /\ resume_append_plan "session-1" talk_state talk_clock = Ok (marker_after talk_log).
Proof.
  apply (replay_sound policy_registry policy_artifact talk_root "session-1" demo_options talk_execution talk_log talk_state
    demo_base demo_base talk_root no_contexts talk_gathered talk_inspection (mkReplayPrefix 3 1) (marker_after talk_log) talk_clock).
  - exact talk_planned.
  - intros i e Hi. pose proof (h_sequences _ _ (run_history _ [] _ _ (history_new (Some "session-1"%string)) talk_run) i e) as H.
    apply H. cbn [app]. rewrite log_sizes_events by reflexivity. exact Hi.
  - vm_compute. discriminate.
  - split; vm_compute; discriminate.
  - vm_compute. reflexivity.
  - vm_compute. reflexivity.
  - vm_compute. reflexivity.
Defined.

(** * The dry run and the sink *)

#[local] Instance any_objects : ObjectPreflight unit := {| preflight_all _ w := Ok w |}.

Definition talk_contexts : eff Disk (ContextManifestPreflight unit) :=
  mret (mkContextPreflight None 0 tt (mkStreamPreflight 0 1 CONTEXT_MANIFEST_STREAM_LIMITS demo_base 0)).

Definition talk_preflight : Disk * result RuntimeError (ResumePreflightSink unit) :=
  preflight_open demo_base talk_contexts (slen (marker_stream (marker_after talk_log))) talk_clock 3 1 (disk talk_stream).

Definition talk_dry_sink : ResumePreflightSink unit :=
  value_or talk_preflight.2
    (mkPreflightSink talk_clock (mkContextPreflight None 0 tt (mkStreamPreflight 0 1 EVENT_STREAM_LIMITS demo_base 0))
       (mkStreamPreflight 0 1 EVENT_STREAM_LIMITS demo_base 0) 0 0).

Definition talk_dry_end : ResumePreflightSink unit :=
  value_or (preflight_plan (plan_actions talk_execution) talk_dry_sink) talk_dry_sink.

Lemma dry_run_sound_witness :
  exists out L',
    Forall2 (fun a x => resumed_event (action_envelope a) 1 talk_clock = Ok x) (drop 3 (plan_actions talk_execution)) out /\
    stream_run talk_state (sized_line (marker_event (marker_after talk_log), marker_stream (marker_after talk_log)) :: map sized_line out) L' /\
    log_of talk_clock 2 (plan_events talk_execution) (talk_log ++ marker_event (marker_after talk_log) :: map fst out) /\
    closed (lifecycle L').
Proof.
  apply (dry_run_sound demo_base talk_contexts talk_appender [] talk_file 1 [] talk_records talk_stream
    policy_registry policy_artifact talk_root "session-1" demo_options talk_execution 3 1 talk_log talk_state
    (marker_after talk_log) talk_preflight.1 talk_dry_sink talk_dry_end).
  - apply talk_stream_at.
  - apply talk_layout.
  - reflexivity.
  - reflexivity.
  - reflexivity.
  - apply talk_run.
  - exact talk_planned.
  - split; apply Nat.ltb_lt; vm_compute; reflexivity.
  - rewrite talk_pre_taken. apply talk_log_of.
  - exact talk_marker_planned.
  - vm_compute. discriminate.
  - vm_compute. reflexivity.
  - vm_compute. reflexivity.
Defined.

#[local] Existing Instance demo_channels.

Definition talk_out : list (EventEnvelope * string) :=
  omap (fun a => match resumed_event (action_envelope a) 1 talk_clock with Ok x => Some x | _ => None end) (drop 3 (plan_actions talk_execution)).

Definition talk_sink : ResumeEventSink := mkResumeSink talk_clock false (marker_after talk_log) 3 1 (new_client true).

Lemma resume_sink_commits_witness :
  seen (resume_commit_all (plan_actions talk_execution) talk_sink) =
    commit_all ((marker_event (marker_after talk_log), marker_stream (marker_after talk_log), None)
      :: zip_with handed (drop 3 (plan_actions talk_execution)) talk_out) (new_client true).
Proof.
  apply (resume_sink_commits (plan_actions talk_execution) 3 talk_out talk_sink).
  - reflexivity.
  - reflexivity.
  - assert (imap (fun i a => Z.of_nat i + 1) (plan_actions talk_execution) =
      map (fun a => sequence (action_envelope a)) (plan_actions talk_execution)) as H by (vm_compute; reflexivity).
    intros i a Hi. apply (f_equal (fun l => l !! i)) in H. rewrite list_lookup_imap, list_lookup_fmap, Hi in H. by injection H.
  - apply Nat.ltb_lt. vm_compute. reflexivity.
  - assert (map (fun a => resumed_event (action_envelope a) 1 talk_clock) (drop 3 (plan_actions talk_execution)) = map Ok talk_out) as H
      by (vm_compute; reflexivity).
    apply Forall2_same_length_lookup. split; [apply (f_equal (@List.length _)) in H; by rewrite !length_map in H|].
    intros i a x Ha Hx. apply (f_equal (fun l => l !! i)) in H. rewrite !list_lookup_fmap, Ha, Hx in H. by injection H.
Defined.

(** The events that the resumed session adds. *)
Example talk_resumed :
  map (fun x => (event_id x.1, event_type x.1)) talk_out =
    [("evt-006", MessageDelta); ("evt-007", MessageCompleted); ("evt-008", ToolStarted); ("evt-009", ToolCompleted);
     ("evt-010", MessageDelta); ("evt-011", MessageCompleted); ("evt-012", PhaseCompleted); ("evt-013", FlowCompleted);
     ("evt-014", SessionCompleted)]%string.
Proof. vm_compute. reflexivity. Qed.
