(* ===== verification/Objects.v ===== *)
(** The objects of a session ([flow-agent-core/src/runtime/context_persistence/objects.rs], the
    names, limits and the scan of objects of [session_bundle.rs], the replacement of files of
    [fs_guards/anchored_file.rs]).

    An object is a file of the sessions directory named by the digest of its bytes.  The writer
    keeps an account of the objects it knows, validates a batch against the account, the limits
    and what is stored, writes each new object to a temporary file and renames it.

    The directory is the state of the disk.  Every call to the operating system is a numbered
    request, and the answers are a parameter.  A failed call but [write_all] leaves the directory
    as it was, and other processes do not change what the session lock protects. *)

From Stdlib Require Import ZArith Lia Ascii String.
From stdpp Require Import base strings sorting sets option gmap countable list.
From S2P Require Import Prelude Decimal Sorting Metadata Json FlowValue Event Lifecycle Errors.
From S2P Require Import Validate OwnScript Context Builder Planner Segments Appender Lines.

Open Scope Z_scope.

(** * Limits ([types.rs]) *)

Definition MAX_SESSION_OBJECT_BYTES : Z := 16 * 1024 * 1024.
Definition MAX_SESSION_OBJECTS : Z := 131072.
Definition MAX_SESSION_BUNDLE_BYTES : Z := 11 * 512 * 1024 * 1024.
Definition MAX_SESSION_METADATA_BYTES : Z := 16 * 1024 * 1024.
Definition MAX_SESSION_OBJECT_TOTAL_BYTES : Z :=
  MAX_SESSION_BUNDLE_BYTES - MAX_SESSION_EVENT_BYTES - MAX_SESSION_CONTEXT_MANIFEST_BYTES
  - MAX_SESSION_METADATA_BYTES.

Definition ensure_session_object_count (sessions : string) (count : Z) : result RuntimeError unit :=
  reject MAX_SESSION_OBJECTS <? count
    with Protocol (sessions +:+ " session object count exceeds max " +:+ Z_to_string MAX_SESSION_OBJECTS) ;;
  Ok tt.

Definition ensure_session_object_total (bytes : Z) : result RuntimeError unit :=
  reject MAX_SESSION_OBJECT_TOTAL_BYTES <? bytes
    with Protocol ("Run bundle object data size " +:+ Z_to_string bytes +:+ " bytes exceeds max "
           +:+ Z_to_string MAX_SESSION_OBJECT_TOTAL_BYTES) ;;
  Ok tt.

Definition ensure_session_object_size (label : string) (bytes : Z) : result RuntimeError unit :=
  reject MAX_SESSION_OBJECT_BYTES <? bytes
    with Protocol (label +:+ " session object is " +:+ Z_to_string bytes +:+ " bytes; max "
           +:+ Z_to_string MAX_SESSION_OBJECT_BYTES) ;;
  Ok tt.

(** * Names ([SessionBundlePaths]) *)

Definition OBJECT_DIGEST_SEPARATOR : string := ".object.sha256-".

Definition object_prefix (session_id : string) : string := session_id +:+ OBJECT_DIGEST_SEPARATOR.

Definition object_leaf (session_id digest : string) : string := object_prefix session_id +:+ digest.

Definition object_in (sessions session_id digest : string) : AnchoredFile :=
  mkAnchored sessions (object_leaf session_id digest).

(** [str::split_once(&str)], the first place where the separator stands. *)
Fixpoint split_once_str (sep s : string) : option (string * string) :=
  match strip_prefix sep s with
  | Some rest => Some (""%string, rest)
  | None =>
      match s with
      | EmptyString => None
      | String a s => '(before, rest) ← split_once_str sep s; Some (String a before, rest)
      end
  end.

Definition split_object_leaf (name : string) : option (string * string) :=
  split_once_str OBJECT_DIGEST_SEPARATOR name.

(** The position of the separator, whatever the case of its letters: folding the case of the whole
    name changes neither the length nor where it stands. *)
Definition object_namespace_owner (name : string) : option string :=
  '(before, _) ← split_once_str OBJECT_DIGEST_SEPARATOR (to_ascii_lowercase name);
  let owner := str_take (String.length before) name in
  if from_utf8 owner then
    let owner := to_ascii_lowercase owner in
    if is_valid_session_id owner then Some owner else None
  else None.

Definition is_lowercase_sha256_hex (value : string) : bool := bool_decide (is_Some (decode_lowercase_sha256_hex value)).

Definition parse_session_object_digest (value : string) : result RuntimeError (list Z) :=
  ok_or (decode_lowercase_sha256_hex value)
    (Protocol ("session object digest " +:+ value +:+ " is not lowercase SHA-256 hex")).

(** [Ord] of byte arrays. *)
Fixpoint digest_cmp (a b : list Z) : comparison :=
  match a, b with
  | [], [] => Eq
  | [], _ :: _ => Lt
  | _ :: _, [] => Gt
  | x :: a, y :: b => match Z.compare x y with Eq => digest_cmp a b | c => c end
  end.

(** * The directory *)

(** What a file holds, whether [sync_all] made its bytes durable since they were written, and
    whether the directory was synchronized since it got its name. *)
Record StoredFile : Type := mkStored {
  stored_bytes : string;
  bytes_durable : bool;
  name_durable : bool;
}.

Inductive DirEntry : Type :=
| FileEntry (file : StoredFile)
| LinkEntry
| OtherEntry.

(** The entries by their names, as bytes; the number of requests so far. *)
Record ObjectDir : Type := mkObjectDir {
  dir_entries : gmap string DirEntry;
  dir_requests : nat;
}.

(** The answer to request [n]. *)
Class ObjectStorage : Type := {
  (** an error of a check of an opened file *)
  check_fault : nat -> option RuntimeError;
  (** an error of a call *)
  call_fault : nat -> option ErrorKind;
  (** an error of [symlink_metadata] on a name that exists *)
  metadata_fault : nat -> option ErrorKind;
  (** the error of opening an entry that is no regular file *)
  irregular : nat -> RuntimeError;
  (** how much of its argument a failed [write_all] wrote *)
  partially : nat -> nat;
  (** the order in which the directory lists its entries *)
  listed : nat -> list string -> list string;
  (** [std::process::id()] *)
  process_id : Z;
}.

(** What the code relies on: the listing is complete, and only a name that does not exist is
    reported as not found. *)
Class ObjectStorageLaws {K : ObjectStorage} : Prop := {
  listed_all : forall n l, listed n l ≡ₚ l;
  metadata_found : forall n, metadata_fault n <> Some NotFound;
}.

Section calls.
Context {K : ObjectStorage} {R : RuntimeEnv}.

Definition asked (d : ObjectDir) : ObjectDir := mkObjectDir (dir_entries d) (S (dir_requests d)).

Definition with_entries (change : gmap string DirEntry -> gmap string DirEntry) (d : ObjectDir) : ObjectDir :=
  mkObjectDir (change (dir_entries d)) (S (dir_requests d)).

(** A call that, when it succeeds, changes the entries. *)
Definition dir_call (change : gmap string DirEntry -> gmap string DirEntry) : eff ObjectDir unit :=
  fun d =>
    match call_fault (dir_requests d) with
    | Some kind => (asked d, Err (Io kind))
    | None => (with_entries change d, Ok tt)
    end.

Definition check : eff ObjectDir unit :=
  fun d => (asked d, match check_fault (dir_requests d) with Some e => Err e | None => Ok tt end).

(** [AnchoredFile::metadata] *)
Definition metadata (name : string) : eff ObjectDir DirEntry :=
  fun d => (asked d,
    match dir_entries d !! name with
    | None => Err (Io NotFound)
    | Some entry => match metadata_fault (dir_requests d) with Some kind => Err (Io kind) | None => Ok entry end
    end).

Definition must_not_be_symlink (path : AnchoredFile) : RuntimeError :=
  Protocol (diagnostic_path path +:+ " must not be a symlink or reparse point").

(** [ensure_anchored_real_file] *)
Definition ensure_real_file (path : AnchoredFile) : eff ObjectDir unit :=
  entry ← metadata (leaf path);
  lift (match (entry : DirEntry) with
        | LinkEntry => Err (must_not_be_symlink path)
        | OtherEntry => Err (Protocol (diagnostic_path path +:+ " must be a file"))
        | FileEntry _ => Ok tt
        end).

(** [AnchoredFile::open] of a file that must exist. *)
Definition open_entry (name : string) : eff ObjectDir StoredFile :=
  fun d => (asked d,
    match call_fault (dir_requests d), dir_entries d !! name with
    | Some kind, _ => Err (Io kind)
    | None, None => Err (Io NotFound)
    | None, Some (FileEntry file) => Ok file
    | None, Some _ => Err (irregular (dir_requests d))
    end).

(** [open_anchored_file_for_read] and [open_anchored_file_for_update]: the checks of the opened
    file are those of its metadata, of its type and of its links. *)
Definition open_anchored_file_for_read (path : AnchoredFile) : eff ObjectDir StoredFile :=
  _ ← ensure_real_file path;
  file ← open_entry (leaf path);
  _ ← check;
  mret file.

Definition open_anchored_file_for_update (path : AnchoredFile) : eff ObjectDir StoredFile :=
  open_anchored_file_for_read path.

(** [read_opened_file_with_limit]; the requests of its loop are one. *)
Definition read_opened_file_with_limit (text : string) (total_len : Z) (path : AnchoredFile) (max_bytes : Z)
    : eff ObjectDir string :=
  _ ← lift (reject max_bytes <? total_len with read_size_error path total_len max_bytes ;; Ok tt);
  _ ← dir_call id;
  let bytes := take_bytes (sat_u64 (max_bytes + 1)) text in
  lift (reject max_bytes <? slen bytes with read_size_error path (slen bytes) max_bytes ;; Ok bytes).

Definition read_anchored_file_with_limit (path : AnchoredFile) (max_bytes : Z) : eff ObjectDir string :=
  file ← open_anchored_file_for_read path;
  read_opened_file_with_limit (stored_bytes file) (slen (stored_bytes file)) path max_bytes.

(** [anchored_file_bytes] of [session_bundle.rs]. *)
Definition anchored_file_bytes (path : AnchoredFile) (maximum : Z) : eff ObjectDir Z :=
  file ← open_anchored_file_for_read path;
  let bytes := slen (stored_bytes file) in
  lift (reject maximum <? bytes
          with Protocol (diagnostic_path path +:+ " size " +:+ Z_to_string bytes +:+ " bytes exceeds max "
                 +:+ Z_to_string maximum) ;;
        Ok bytes).

(** * Writing *)

Definition on_file (change : StoredFile -> StoredFile) (entry : DirEntry) : DirEntry :=
  match entry with FileEntry file => FileEntry (change file) | entry => entry end.

Definition appended_bytes (bytes : string) (file : StoredFile) : StoredFile :=
  mkStored (stored_bytes file +:+ bytes) (bytes_durable file && String.eqb bytes "") (name_durable file).

Definition file_synced (file : StoredFile) : StoredFile := mkStored (stored_bytes file) true (name_durable file).
Definition named_durably (file : StoredFile) : StoredFile := mkStored (stored_bytes file) (bytes_durable file) true.
Definition renamed (file : StoredFile) : StoredFile := mkStored (stored_bytes file) (bytes_durable file) false.

(** [file.write_all(bytes)] on a file opened for appending, and [file.sync_all()]. *)
Definition write_all_to (name bytes : string) : eff ObjectDir unit :=
  fun d =>
    match call_fault (dir_requests d) with
    | Some kind =>
        (with_entries (alter (on_file (appended_bytes (str_take (partially (dir_requests d)) bytes))) name) d, Err (Io kind))
    | None => (with_entries (alter (on_file (appended_bytes bytes)) name) d, Ok tt)
    end.

Definition sync_file (name : string) : eff ObjectDir unit := dir_call (alter (on_file file_synced) name).

(** [sync_directory] *)
Definition sync_entries : eff ObjectDir unit :=
  _ ← check;
  dir_call (fmap (on_file named_durably)).

(** [AnchoredFile::remove]: [publication_guard] is a part of the request. *)
Definition remove_entry (name : string) : eff ObjectDir unit :=
  fun d =>
    match call_fault (dir_requests d), dir_entries d !! name with
    | Some kind, _ => (asked d, Err (Io kind))
    | None, None => (asked d, Err (Io NotFound))
    | None, Some _ => (with_entries (delete name) d, Ok tt)
    end.

(** [AnchoredFile::rename_to], which replaces the target. *)
Definition rename_to (name target : string) : eff ObjectDir unit :=
  fun d =>
    match call_fault (dir_requests d), dir_entries d !! name with
    | Some kind, _ => (asked d, Err (Io kind))
    | None, None => (asked d, Err (Io NotFound))
    | None, Some entry => (with_entries (fun m => <[target := on_file renamed entry]> (delete name m)) d, Ok tt)
    end.

(** [open_creating] with [create_new]. *)
Definition create_new (name : string) : eff ObjectDir unit :=
  fun d =>
    match call_fault (dir_requests d), dir_entries d !! name with
    | Some kind, _ => (asked d, Err (Io kind))
    | None, Some _ => (asked d, Err (Io AlreadyExists))
    | None, None => (with_entries (insert name (FileEntry (mkStored "" false false))) d, Ok tt)
    end.

(** [ensure_anchored_new_leaf_available] *)
Definition ensure_anchored_new_leaf_available (path : AnchoredFile) : eff ObjectDir unit :=
  fun d =>
    let '(d, found) := metadata (leaf path) d in
    (d, match found with
        | Ok LinkEntry => Err (must_not_be_symlink path)
        | Ok _ => Err (Io AlreadyExists)
        | Err (Io NotFound) => Ok tt
        | Err error => Err error
        | Panic => Panic
        end).

(** [open_anchored_session_log_append_file] *)
Definition open_anchored_session_log_append_file (name : string) : eff ObjectDir unit :=
  _ ← open_entry name;
  check.

Definition write_session_object (name bytes : string) : eff ObjectDir unit :=
  _ ← open_anchored_session_log_append_file name;
  _ ← write_all_to name bytes;
  sync_file name.

(** * Replacement through a temporary file *)

Definition replacement_temp_leaf (name : string) (attempt : Z) : string :=
  ".watershed-" +:+ sha256_hex name +:+ "-" +:+ Z_to_string process_id +:+ "-" +:+ Z_to_string attempt +:+ ".tmp".

(** The attempts that are left, out of a hundred. *)
Fixpoint create_temp_from (left : nat) (path : AnchoredFile) : eff ObjectDir string :=
  match left with
  | O => lift (Err (Protocol ("could not allocate temporary replacement path for " +:+ diagnostic_path path)))
  | S left' =>
      fun d =>
        let temp := replacement_temp_leaf (leaf path) (100 - Z.of_nat left) in
        match create_new temp d with
        | (d, Ok _) => (d, Ok temp)
        | (d, Err (Io AlreadyExists)) => create_temp_from left' path d
        | (d, Err error) => (d, Err error)
        | (d, Panic) => (d, Panic)
        end
  end.

Definition create_anchored_replacement_temp (path : AnchoredFile) : eff ObjectDir string := create_temp_from 100 path.

(** The errors after which the output stays published. *)
Definition published_failure (error : RuntimeError) : bool :=
  match error with
  | OtherVariant name =>
      String.eqb name "PublishedOutputCleanupFailure" || String.eqb name "PublishedOutputFinalizationFailure"
  | _ => false
  end.

(** The operation on the temporary file, which is removed when it fails. *)
Definition or_removed (temp : string) (operation : eff ObjectDir unit) : eff ObjectDir unit :=
  fun d =>
    match operation d with
    | (d, Err error) =>
        if published_failure error then (d, Err error)
        else match remove_entry temp d with
             | (d, Ok _) => (d, Err error)
             | (d, Err _) => (d, Err (OtherVariant "TemporaryReplacementFailures"))
             | (d, Panic) => (d, Panic)
             end
    | outcome => outcome
    end.

Definition with_anchored_replacement_temp (path : AnchoredFile) (operation : string -> eff ObjectDir unit)
    : eff ObjectDir unit :=
  temp ← create_anchored_replacement_temp path;
  or_removed temp (operation temp).
End calls.

(** * The writer *)

Record SessionObjectState : Type := mkObjectState {
  preflight : bool;
  published : bool;
}.

Definition PUBLISHED : SessionObjectState := mkObjectState true true.
Definition object_state_default : SessionObjectState := mkObjectState false false.

Inductive InventoryView : Type := ViewPreflight | ViewPublished.

Inductive ObjectDisposition : Type := Absent | ExistingPublished | ExistingUnpublished.

#[export] Instance ObjectDisposition_eq_dec : EqDecision ObjectDisposition.
Proof. solve_decision. Defined.

Record ValidatedObject : Type := mkValidated {
  validated_digest : list Z;
  disposition : ObjectDisposition;
  validated_object : ContextObject;
  validated_bytes : Z;
}.

Record ValidatedObjectBatch : Type := mkBatch {
  batch_accounted_bytes : Z;
  batch_object_count : Z;
  batch_objects : list ValidatedObject;
}.

(** [object_parent] is the path of the sessions directory. *)
Record SessionObjectWriter : Type := mkObjectWriter {
  accounted_bytes : Z;
  object_count : Z;
  object_parent : string;
  preflight_accounted_bytes : Z;
  preflight_object_count : Z;
  object_session_id : string;
  objects : gmap (list Z) SessionObjectState;
}.

(** The writer and the directory it writes to. *)
Record ObjectStore : Type := mkObjectStore {
  object_writer : SessionObjectWriter;
  object_dir : ObjectDir;
}.

Definition on_dir {A} (m : SessionObjectWriter -> eff ObjectDir A) : eff ObjectStore A :=
  fun s => let '(d, r) := m (object_writer s) (object_dir s) in (mkObjectStore (object_writer s) d, r).

Definition on_object_writer (change : SessionObjectWriter -> SessionObjectWriter) : eff ObjectStore unit :=
  fun s => (mkObjectStore (change (object_writer s)) (object_dir s), Ok tt).

Definition known_in (view : InventoryView) (state : SessionObjectState) : bool :=
  match view with ViewPreflight => preflight state | ViewPublished => published state end.

Section writer.
Context {K : ObjectStorage} {R : RuntimeEnv}.

(** ** Opening *)

(** One entry of the listing; the objects found so far and their size. *)
Definition collect_name (sessions session_id name : string) (found : gset string * Z)
    : eff ObjectDir (gset string * Z) :=
  _ ← dir_call id;
  if from_utf8 name then
    let candidate := to_ascii_lowercase name in
    match split_object_leaf candidate with
    | None => mret found
    | Some (candidate_session_id, digest) =>
        if negb (String.eqb candidate_session_id session_id) then mret found
        else
          _ ← lift (reject negb (String.eqb candidate name) || negb (is_lowercase_sha256_hex digest)
                      with Protocol (sessions +:+ " contains non-canonical session object name " +:+ name) ;;
                    Ok tt);
          let '(digests, total) := found in
          _ ← lift (ensure_session_object_count sessions (sat_u64 (Z.of_nat (size digests) + 1)));
          bytes ← anchored_file_bytes (object_in sessions session_id digest) MAX_SESSION_OBJECT_BYTES;
          let total := sat_u64 (total + bytes) in
          _ ← lift (ensure_session_object_total total);
          mret ({[digest]} ∪ digests, total)
    end
  else if bool_decide (object_namespace_owner name = Some session_id)
       then lift (Err (Protocol (sessions +:+ " contains non-canonical session object name")))
       else mret found.

Fixpoint collect_session_objects (sessions session_id : string) (names : list string) (found : gset string * Z)
    : eff ObjectDir (gset string * Z) :=
  match names with
  | [] => mret found
  | name :: names =>
      found ← collect_name sessions session_id name found;
      collect_session_objects sessions session_id names found
  end.

Definition session_objects (sessions session_id : string) : eff ObjectDir (gset string * Z) :=
  _ ← dir_call id;
  names ← reads (fun d => Ok (listed (dir_requests d) (elements (dom (dir_entries d)))));
  collect_session_objects sessions session_id names (∅, 0).

(** The digests in the order of their keys, each parsed. *)
Definition parsed_inventory (digests : list string) : result RuntimeError (gmap (list Z) SessionObjectState) :=
  keys ← try_collect parse_session_object_digest digests;
  Ok (list_to_map (map (fun key => (key, PUBLISHED)) keys)).

Definition object_writer_open (sessions session_id : string) : eff ObjectDir SessionObjectWriter :=
  '(digests, bytes) ← session_objects sessions session_id;
  known ← lift (parsed_inventory (set_iter str_cmp digests));
  let count := Z.of_nat (size known) in
  _ ← lift (ensure_session_object_count sessions count);
  mret (mkObjectWriter bytes count sessions bytes count session_id known).

(** ** Validation *)

Definition validate_object (object : ContextObject) : result RuntimeError Z :=
  let bytes := slen (object_bytes object) in
  _ ← ensure_session_object_size (object_digest object) bytes;
  reject negb (String.eqb (sha256_hex (object_bytes object)) (object_digest object))
    with Protocol ("session object " +:+ object_digest object +:+ " does not match its content hash") ;;
  Ok bytes.

(** [unique.entry(digest).or_insert(..)] *)
Fixpoint unique_objects (batch : list ContextObject) (unique : gmap (list Z) (ContextObject * Z))
    : result RuntimeError (gmap (list Z) (ContextObject * Z)) :=
  match batch with
  | [] => Ok unique
  | object :: batch =>
      bytes ← validate_object object;
      digest ← parse_session_object_digest (object_digest object);
      unique_objects batch
        (match unique !! digest with Some _ => unique | None => <[digest := (object, bytes)]> unique end)
  end.

Definition is_known (w : SessionObjectWriter) (view : InventoryView) (digest : list Z) : bool :=
  match objects w !! digest with Some state => known_in view state | None => false end.

(** The account with the objects that are new to this view. *)
Fixpoint account (w : SessionObjectWriter) (view : InventoryView) (unique : list (list Z * (ContextObject * Z)))
    (bytes count : Z) : result RuntimeError (Z * Z) :=
  match unique with
  | [] => Ok (bytes, count)
  | (digest, (_, object_bytes)) :: unique =>
      if is_known w view digest then account w view unique bytes count
      else
        let count := sat_u64 (count + 1) in
        _ ← ensure_session_object_count (object_parent w) count;
        let bytes := sat_u64 (bytes + object_bytes) in
        _ ← ensure_session_object_total bytes;
        account w view unique bytes count
  end.

Definition object_path (w : SessionObjectWriter) (object : ContextObject) : AnchoredFile :=
  object_in (object_parent w) (object_session_id w) (object_digest object).

Definition mismatch (path : AnchoredFile) : RuntimeError :=
  Protocol (diagnostic_path path +:+ " does not match referenced session object bytes").

Definition verify_existing (path : AnchoredFile) (object : ContextObject) : eff ObjectDir unit :=
  existing ← read_anchored_file_with_limit path MAX_SESSION_OBJECT_BYTES;
  lift (reject negb (String.eqb existing (object_bytes object)) with mismatch path ;; Ok tt).

Definition disposition_of (w : SessionObjectWriter) (digest : list Z) (object : ContextObject)
    : eff ObjectDir ObjectDisposition :=
  let state := default object_state_default (objects w !! digest) in
  let path := object_path w object in
  fun d =>
    match metadata (leaf path) d with
    | (d, Ok _) =>
        (_ ← verify_existing path object;
         mret (if published state then ExistingPublished else ExistingUnpublished)) d
    | (d, Err (Io NotFound)) =>
        if published state
        then (d, Err (Protocol (diagnostic_path path +:+ " known session object is unavailable")))
        else (d, Ok Absent)
    | (d, Err error) => (d, Err error)
    | (d, Panic) => (d, Panic)
    end.

Fixpoint dispositions (w : SessionObjectWriter) (unique : list (list Z * (ContextObject * Z)))
    : eff ObjectDir (list ValidatedObject) :=
  match unique with
  | [] => mret []
  | (digest, (object, bytes)) :: unique =>
      found ← disposition_of w digest object;
      validated ← dispositions w unique;
      mret (mkValidated digest found object bytes :: validated)
  end.

Definition validate_all_from (batch : list ContextObject) (bytes count : Z) (view : InventoryView)
    (w : SessionObjectWriter) : eff ObjectDir ValidatedObjectBatch :=
  unique ← lift (unique_objects batch ∅);
  let unique := map_iter digest_cmp (unique : gmap (list Z) (ContextObject * Z)) in
  '(bytes, count) ← lift (account w view unique bytes count);
  validated ← dispositions w unique;
  mret (mkBatch bytes count validated).

Definition validate_all (batch : list ContextObject) (w : SessionObjectWriter) : eff ObjectDir ValidatedObjectBatch :=
  validate_all_from batch (accounted_bytes w) (object_count w) ViewPublished w.

(** ** Publication *)

Definition with_preflight_account (w : SessionObjectWriter) (bytes count : Z) (known : gmap (list Z) SessionObjectState)
    : SessionObjectWriter :=
  mkObjectWriter (accounted_bytes w) (object_count w) (object_parent w) bytes count (object_session_id w) known.

Definition with_published_account (w : SessionObjectWriter) (bytes count : Z) (known : gmap (list Z) SessionObjectState)
    : SessionObjectWriter :=
  mkObjectWriter bytes count (object_parent w) (preflight_accounted_bytes w) (preflight_object_count w)
    (object_session_id w) known.

Definition record_publication (digest : list Z) (bytes : Z) (w : SessionObjectWriter) : SessionObjectWriter :=
  let state := default object_state_default (objects w !! digest) in
  let w :=
    if published state then w
    else with_published_account w (sat_u64 (accounted_bytes w + bytes)) (sat_u64 (object_count w + 1))
           (<[digest := mkObjectState (preflight state) true]> (objects w)) in
  if preflight state then w
  else with_preflight_account w (sat_u64 (preflight_accounted_bytes w + bytes)) (sat_u64 (preflight_object_count w + 1))
         (<[digest := PUBLISHED]> (objects w)).

Definition verify_and_sync_existing (path : AnchoredFile) (object : ContextObject) : eff ObjectDir unit :=
  file ← open_anchored_file_for_update path;
  _ ← dir_call id;
  let existing := take_bytes (sat_u64 (slen (object_bytes object) + 1)) (stored_bytes file) in
  _ ← lift (reject negb (String.eqb existing (object_bytes object)) with mismatch path ;; Ok tt);
  sync_file (leaf path).

(** The first pass, over the objects that were there. *)
Definition persist_existing (object : ValidatedObject) : eff ObjectStore unit :=
  match disposition object with
  | Absent => mret tt
  | found =>
      _ ← on_dir (fun w => verify_and_sync_existing (object_path w (validated_object object)) (validated_object object));
      if bool_decide (found = ExistingUnpublished)
      then on_object_writer (record_publication (validated_digest object) (validated_bytes object))
      else mret tt
  end.

(** The write of a new object and its publication. *)
Definition publish_object (path : AnchoredFile) (bytes : string) : eff ObjectDir unit :=
  with_anchored_replacement_temp path (fun temp =>
    _ ← write_session_object temp bytes;
    _ ← ensure_anchored_new_leaf_available path;
    rename_to temp (leaf path)).

Definition persist_path (path : AnchoredFile) (object : ContextObject) : eff ObjectDir unit :=
  fun d =>
    match metadata (leaf path) d with
    | (d, Ok _) => verify_and_sync_existing path object d
    | (d, Err (Io NotFound)) => publish_object path (object_bytes object) d
    | (d, Err error) => (d, Err error)
    | (d, Panic) => (d, Panic)
    end.

(** The second pass, over the others. *)
Definition persist_absent (object : ValidatedObject) : eff ObjectStore unit :=
  match disposition object with
  | Absent =>
      _ ← on_dir (fun w => persist_path (object_path w (validated_object object)) (validated_object object));
      on_object_writer (record_publication (validated_digest object) (validated_bytes object))
  | _ => mret tt
  end.

Fixpoint each_object (step : ValidatedObject -> eff ObjectStore unit) (validated : list ValidatedObject) : eff ObjectStore unit :=
  match validated with
  | [] => mret tt
  | object :: validated => _ ← step object; each_object step validated
  end.

(** [sync_parent] is set by every object. *)
Definition persist_validated_batch (validated : list ValidatedObject) : eff ObjectStore unit :=
  _ ← each_object persist_existing validated;
  _ ← each_object persist_absent validated;
  match validated with
  | [] => mret tt
  | _ => on_dir (fun _ => sync_entries)
  end.

Definition supplied_digests (validated : list ValidatedObject) : gset string :=
  list_to_set (map (fun object => object_digest (validated_object object)) validated).

Definition persist_manifest_objects (referenced : gset string) (batch : list ContextObject) : eff ObjectStore unit :=
  validated ← on_dir (validate_all batch);
  let supplied := supplied_digests (batch_objects validated) in
  _ ← lift (reject negb (Nat.eqb (size supplied) (size referenced)) || negb (bool_decide (supplied ⊆ referenced))
              with Protocol "context manifest object references do not match supplied objects" ;;
            Ok tt);
  persist_validated_batch (batch_objects validated).

(** ** The dry run *)

Definition mark_preflight (validated : list ValidatedObject) (known : gmap (list Z) SessionObjectState)
    : gmap (list Z) SessionObjectState :=
  fold_left (fun known object =>
    let state := default object_state_default (known !! validated_digest object) in
    <[validated_digest object := mkObjectState true (published state)]> known) validated known.

Definition preflight_objects (batch : list ContextObject) : eff ObjectStore unit :=
  validated ← on_dir (fun w =>
    validate_all_from batch (Z.max (preflight_accounted_bytes w) (accounted_bytes w))
      (Z.max (preflight_object_count w) (object_count w)) ViewPreflight w);
  on_object_writer (fun w =>
    with_preflight_account w (batch_accounted_bytes validated) (batch_object_count validated)
      (mark_preflight (batch_objects validated) (objects w))).
End writer.
