(* ===== verification/ObjectsTheory.v ===== *)
(** What the calls of the object writer do to the directory, whatever fails: an object is under its
    name whole or not at all, and only temporary files come and go. *)

From Stdlib Require Import ZArith Lia Ascii String.
From stdpp Require Import base strings sorting sets option gmap countable list.
From S2P Require Import Prelude Decimal Sorting Metadata Json FlowValue Event Lifecycle Errors EffectTheory.
From S2P Require Import Validate OwnScript Context ContextTheory Builder Planner Segments Appender AppenderTheory Lines Objects.

Open Scope Z_scope.

(** * Names *)

Definition temp_name (name : string) : Prop := exists rest, name = ".watershed-" +:+ rest.

Lemma session_id_head sid : is_valid_session_id sid = true -> exists a s, sid = String a s /\ a <> "."%char.
Proof.
  unfold is_valid_session_id. destruct sid as [|a s]; [done|]. rewrite !andb_true_iff. cbn [bytes_all].
  intros [[_ Hb] _]. apply andb_true_iff in Hb as [Hb _]. exists a, s. split; [done|]. by intros ->.
Qed.

Lemma object_not_temp sid digest : is_valid_session_id sid = true -> ~ temp_name (object_leaf sid digest).
Proof. intros H [rest E]. destruct (session_id_head sid H) as (a & s & -> & Ha). cbn in E. by injection E as -> _. Qed.

Lemma append_inj_l (p s t : string) : p +:+ s = p +:+ t -> s = t.
Proof. induction p as [|a p IH]; cbn; [done|]. intros [= E]. auto. Qed.

Lemma object_leaf_inj sid d d' : object_leaf sid d = object_leaf sid d' -> d = d'.
Proof. apply append_inj_l. Qed.

(** * Digests and their bytes *)

Lemma nibble_inj a b x : nibble a = Some x -> nibble b = Some x -> a = b.
Proof.
  unfold nibble. intros Ha Hb. apply byte_inj.
  repeat case_match; simplify_eq; repeat match goal with H : _ && _ = true |- _ => apply andb_true_iff in H as [? ?] end; lia.
Qed.

Lemma nibble_range a x : nibble a = Some x -> 0 <= x < 16.
Proof.
  unfold nibble. intros H.
  repeat case_match; simplify_eq; repeat match goal with H : _ && _ = true |- _ => apply andb_true_iff in H as [? ?] end; lia.
Qed.

Lemma nibbles_inj h l h' l' :
  0 <= h < 16 -> 0 <= l < 16 -> 0 <= h' < 16 -> 0 <= l' < 16 ->
  Z.lor (Z.shiftl h 4) l = Z.lor (Z.shiftl h' 4) l' -> h = h' /\ l = l'.
Proof.
  intros H1 H2 H3 H4 E.
  assert (forall x y, 0 <= x < 16 -> 0 <= y < 16 -> Z.lor (Z.shiftl x 4) y = 16 * x + y) as Hs.
  { intros x y Hx Hy. apply Z.eqb_eq.
    assert (Zall 16 0 (fun x => Zall 16 0 (fun y => Z.lor (Z.shiftl x 4) y =? 16 * x + y)) = true) as Ha by (by vm_compute).
    pose proof (Zall_spec _ _ _ Ha x) as Hx'. cbv beta in Hx'. apply (Zall_spec _ _ _ (Hx' ltac:(lia)) y). lia. }
  rewrite !Hs in E by done. lia.
Qed.

Lemma decode_pairs_inj n s t k :
  String.length s = (2 * n)%nat -> String.length t = (2 * n)%nat ->
  decode_pairs s = Some k -> decode_pairs t = Some k -> s = t.
Proof.
  revert s t k. induction n as [|n IH]; intros [|a [|b s]] [|c [|d t]] k Hs Ht; cbn [String.length] in Hs, Ht; try lia; [done|].
  cbn [decode_pairs]. destruct (nibble a) eqn:Ea; [|done]. destruct (nibble b) eqn:Eb; [|done].
  destruct (nibble c) eqn:Ec; [|done]. destruct (nibble d) eqn:Ed; [|done]. cbn [mbind option_bind].
  destruct (decode_pairs s) as [l|] eqn:El; [|done]. destruct (decode_pairs t) as [l'|] eqn:El'; [|done].
  cbn [mbind option_bind]. intros [= <-] [= E E'].
  destruct (nibbles_inj _ _ _ _ (nibble_range _ _ Ec) (nibble_range _ _ Ed) (nibble_range _ _ Ea) (nibble_range _ _ Eb) E)
    as [-> ->]. subst l'.
  f_equal; [by eapply nibble_inj|]. f_equal; [by eapply nibble_inj|]. apply (IH s t l); [lia|lia|done..].
Qed.

(** The bytes of a digest determine its text. *)
Lemma digest_key_inj d d' k :
  decode_lowercase_sha256_hex d = Some k -> decode_lowercase_sha256_hex d' = Some k -> d = d'.
Proof.
  unfold decode_lowercase_sha256_hex, slen. intros H1 H2.
  destruct (Z.eqb_spec (Z.of_nat (String.length d)) 64); [|done].
  destruct (Z.eqb_spec (Z.of_nat (String.length d')) 64); [|done].
  apply (decode_pairs_inj 32 d d' k); [lia|lia|done..].
Qed.

(** * Directories *)

(** The same entries, and at most one file more: a temporary file for [target]. *)
Definition off_temp {K : ObjectStorage} {R : RuntimeEnv} (target : string) (es es' : gmap string DirEntry) : Prop :=
  es' = es \/
  exists attempt file, es !! replacement_temp_leaf target attempt = None /\
    es' = <[replacement_temp_leaf target attempt := FileEntry file]> es.

(** From [es] to [es'] the file [name] came to hold [bytes], all durable, unless it held them
    before; nothing else changed. *)
Definition settles (es : gmap string DirEntry) (name bytes : string) (es' : gmap string DirEntry) : Prop :=
  exists file, es' = <[name := FileEntry file]> es /\ stored_bytes file = bytes /\ bytes_durable file = true /\
    (es !! name = None \/
     exists file0, es !! name = Some (FileEntry file0) /\ stored_bytes file0 = bytes /\ name_durable file = name_durable file0).

Section calls.
Context {K : ObjectStorage} {KL : ObjectStorageLaws} {R : RuntimeEnv}.

Definition at_entries (es : gmap string DirEntry) (d : ObjectDir) : Prop := dir_entries d = es.

(** [m] changes no entry, and returns a value with [Q]. *)
Definition looks {A} (es : gmap string DirEntry) (m : eff ObjectDir A) (Q : A -> Prop) : Prop :=
  runs (at_entries es) m (fun a d => at_entries es d /\ Q a) (at_entries es).

Lemma looks_bind {A B} es (m : eff ObjectDir A) (f : A -> eff ObjectDir B) Q Q' :
  looks es m Q -> (forall a, Q a -> looks es (f a) Q') -> looks es (m ≫= f) Q'.
Proof. intros Hm Hf. eapply runs_bind; [done|]. intros a d [Hd Ha]. by apply Hf. Qed.

Lemma looks_then {A B} es (m : eff ObjectDir A) (f : A -> eff ObjectDir B) Q R' X :
  looks es m Q -> (forall a, Q a -> runs (at_entries es) (f a) R' X) -> (forall d, at_entries es d -> X d) ->
  runs (at_entries es) (m ≫= f) R' X.
Proof.
  intros Hm Hf HX. eapply runs_bind; [eapply runs_err, Hm; exact HX|]. intros a d [Hd Ha]. by apply Hf.
Qed.

Lemma looks_ret {A} es (a : A) : looks es (mret a) (eq a).
Proof. apply runs_ret. by intros. Qed.

Lemma looks_lift {A} es (r : result RuntimeError A) : r <> Panic -> looks es (lift r) (fun a => r = Ok a).
Proof. intros H. apply runs_lift; [done|by intros|done]. Qed.

Lemma looks_weaken {A} es (m : eff ObjectDir A) (Q Q' : A -> Prop) : (forall a, Q a -> Q' a) -> looks es m Q -> looks es m Q'.
Proof. intros H. apply runs_weaken; [done| |done]. intros a d [? ?]. auto. Qed.

Lemma dir_call_runs es change :
  runs (at_entries es) (dir_call change) (fun _ => at_entries (change es)) (at_entries es).
Proof. intros d <-. unfold dir_call. by destruct (call_fault _). Qed.

Lemma looks_call es : looks es (dir_call id) (fun _ => True).
Proof. intros d <-. unfold dir_call. by destruct (call_fault _). Qed.

Lemma looks_check es : looks es check (fun _ => True).
Proof. intros d <-. unfold check. by destruct (check_fault _). Qed.

Lemma looks_metadata es name : looks es (metadata name) (fun e => es !! name = Some e).
Proof.
  intros d <-. unfold metadata. destruct (_ !! name) eqn:E; [|done]. by destruct (metadata_fault _).
Qed.

Lemma looks_ensure es path : looks es (ensure_real_file path) (fun _ => exists file, es !! leaf path = Some (FileEntry file)).
Proof.
  eapply looks_bind; [apply looks_metadata|]. intros e He.
  eapply looks_weaken, looks_lift; [|by destruct e]. destruct e; naive_solver.
Qed.

Lemma looks_open_entry es name : looks es (open_entry name) (fun file => es !! name = Some (FileEntry file)).
Proof.
  intros d <-. unfold open_entry. destruct (call_fault _); [done|].
  destruct (_ !! name) as [[]|] eqn:E; done.
Qed.

Lemma looks_open es path :
  looks es (open_anchored_file_for_read path) (fun file => es !! leaf path = Some (FileEntry file)).
Proof.
  eapply looks_bind; [apply looks_ensure|]. intros _ _.
  eapply looks_bind; [apply looks_open_entry|]. intros file Hf.
  eapply looks_bind; [apply looks_check|]. intros _ _. eapply looks_weaken, looks_ret. by intros ? <-.
Qed.

Lemma looks_reject es (b : bool) (e : RuntimeError) :
  looks es (lift (reject b with e ;; Ok tt)) (fun _ => b = false).
Proof. eapply looks_weaken, looks_lift; by destruct b. Qed.

Lemma take_whole n s : slen s < n -> take_bytes n s = s.
Proof. intros H. unfold take_bytes. apply str_take_all. unfold slen in *. lia. Qed.

Lemma looks_read es path max_bytes :
  0 <= max_bytes < u64_max ->
  looks es (read_anchored_file_with_limit path max_bytes) (fun text =>
    exists file, es !! leaf path = Some (FileEntry file) /\ stored_bytes file = text /\ slen text <= max_bytes).
Proof.
  intros Hm. eapply looks_bind; [apply looks_open|]. intros file Hf.
  eapply looks_bind; [apply looks_reject|]. intros [] Hl.
  eapply looks_bind; [apply looks_call|]. intros _ _.
  rewrite sat_u64_id by (unfold in_u64; lia). rewrite take_whole by lia.
  eapply looks_weaken, looks_lift; [|by destruct (max_bytes <? _)]. rewrite Hl. intros t [= Ht]. exists file. subst t. split_and!; [done..|lia].
Qed.

Lemma looks_verify es path object :
  looks es (verify_existing path object) (fun _ =>
    exists file, es !! leaf path = Some (FileEntry file) /\ stored_bytes file = object_bytes object).
Proof.
  eapply looks_bind; [apply looks_read; vm_compute; split; [by intros|done]|]. intros text (file & Hf & <- & _).
  eapply looks_weaken, looks_reject. intros [] H. apply negb_false_iff, String.eqb_eq in H. eauto.
Qed.

Lemma file_bytes_runs es path maximum :
  looks es (anchored_file_bytes path maximum) (fun n =>
    exists file, es !! leaf path = Some (FileEntry file) /\ n = slen (stored_bytes file) /\ n <= maximum).
Proof.
  eapply looks_bind; [apply looks_open|]. intros file Hf.
  eapply looks_weaken, looks_lift; [|by case_match].
  cbn. intros n H. case_match; [done|]. injection H as <-. exists file. split_and!; [done..|lia].
Qed.

Lemma alter_insert_file (es : gmap string DirEntry) name file change :
  es !! name = Some (FileEntry file) -> alter (on_file change) name es = <[name := FileEntry (change file)]> es.
Proof.
  intros H. apply map_eq. intros i. destruct (decide (i = name)) as [->|?].
  - by rewrite lookup_alter_eq, lookup_insert_eq, H.
  - by rewrite lookup_alter_ne, lookup_insert_ne.
Qed.

Lemma update_runs es path object :
  slen (object_bytes object) <= MAX_SESSION_OBJECT_BYTES ->
  runs (at_entries es) (verify_and_sync_existing path object)
    (fun _ d => settles es (leaf path) (object_bytes object) (dir_entries d) /\ is_Some (es !! leaf path)) (at_entries es).
Proof.
  intros Hs. unfold MAX_SESSION_OBJECT_BYTES in Hs. pose proof (slen_nonneg (object_bytes object)) as H0.
  eapply looks_then; [apply looks_open| |done]. intros file Hf.
  eapply looks_then; [apply looks_call| |done]. intros _ _.
  rewrite sat_u64_id by (unfold in_u64, u64_max; lia).
  eapply looks_then; [apply looks_reject| |done]. intros [] H. apply negb_false_iff, String.eqb_eq in H.
  assert (stored_bytes file = object_bytes object) as Hb.
  { destruct (Z.lt_ge_cases (slen (stored_bytes file)) (slen (object_bytes object) + 1)) as [Hl|Hl].
    - by rewrite take_whole in H by lia.
    - apply (f_equal slen) in H. unfold take_bytes, slen in *. rewrite length_str_take in H. lia. }
  eapply runs_weaken; [| | |apply dir_call_runs]; [done| |done].
  intros [] d Hd. cbv beta in Hd. unfold at_entries in Hd. rewrite Hd.
  split; [|by rewrite Hf]. exists (file_synced file). split_and!; [by apply alter_insert_file|done..|]. right. by exists file.
Qed.

(** ** The temporary file *)

Lemma temp_leaf_name name attempt : temp_name (replacement_temp_leaf name attempt).
Proof. by eexists. Qed.

Definition empty_temp : DirEntry := FileEntry (mkStored "" false false).

Definition created (path : AnchoredFile) (es : gmap string DirEntry) (temp : string) (d : ObjectDir) : Prop :=
  (exists attempt, temp = replacement_temp_leaf (leaf path) attempt) /\ es !! temp = None /\ dir_entries d = <[temp := empty_temp]> es.

Lemma create_runs left path es :
  runs (at_entries es) (create_temp_from left path) (created path es) (at_entries es).
Proof.
  induction left as [|left IH]; [by intros d Hd|]. intros d Hd. cbn [create_temp_from]. unfold create_new.
  destruct (call_fault _) as [[]|]; try exact Hd; [by apply IH|].
  destruct (_ !! _) eqn:E; [by apply IH|]. rewrite <- Hd. split_and!; [by eexists|done..].
Qed.

(** Some file under the temporary name. *)
Definition scribbled (es : gmap string DirEntry) (temp : string) (d : ObjectDir) : Prop :=
  exists file, dir_entries d = <[temp := FileEntry file]> es.

Lemma temp_write_runs es temp bytes :
  runs (at_entries (<[temp := empty_temp]> es)) (write_session_object temp bytes)
    (fun _ => at_entries (<[temp := FileEntry (mkStored bytes true false)]> es)) (scribbled es temp).
Proof.
  assert (forall d, at_entries (<[temp := empty_temp]> es) d -> scribbled es temp d) as Hx by (intros d Hd; by exists (mkStored "" false false)).
  unfold write_session_object, open_anchored_session_log_append_file.
  eapply runs_bind.
  { eapply looks_then; [apply looks_open_entry| |exact Hx]. intros file Hf. eapply runs_err, looks_check. exact Hx. }
  intros []. eapply runs_bind with (Q := fun _ => at_entries (<[temp := FileEntry (mkStored bytes false false)]> es)).
  - intros d [Hd _]. unfold write_all_to. destruct (call_fault _).
    + unfold scribbled. cbn. rewrite Hd. eexists. rewrite (alter_insert_file _ _ (mkStored "" false false)).
      * by rewrite insert_insert_eq.
      * by rewrite lookup_insert_eq.
    + unfold at_entries. cbn. rewrite Hd, (alter_insert_file _ _ (mkStored "" false false)) by (by rewrite lookup_insert_eq).
      by rewrite insert_insert_eq.
  - intros _. eapply runs_weaken; [| | |apply dir_call_runs]; [done| |].
    + intros [] d Hd. cbv beta in Hd. unfold at_entries in *. rewrite Hd.
      rewrite (alter_insert_file _ _ (mkStored bytes false false)) by (by rewrite lookup_insert_eq).
      by rewrite insert_insert_eq.
    + intros d Hd. by eexists.
Qed.

Lemma available_looks es path :
  looks es (ensure_anchored_new_leaf_available path) (fun _ => es !! leaf path = None).
Proof.
  intros d <-. unfold ensure_anchored_new_leaf_available, metadata.
  destruct (_ !! _) eqn:E; [|done]. pose proof (metadata_found (dir_requests d)) as Hm.
  destruct (metadata_fault _) as [[]|]; try done. by destruct d0.
Qed.

Lemma rename_runs es temp file target :
  es !! temp = None ->
  runs (at_entries (<[temp := FileEntry file]> es)) (rename_to temp target)
    (fun _ => at_entries (<[target := FileEntry (renamed file)]> es)) (at_entries (<[temp := FileEntry file]> es)).
Proof.
  intros Ht d Hd. unfold rename_to, at_entries in *. destruct (call_fault _); [done|].
  rewrite Hd, lookup_insert_eq. cbn. by rewrite Hd, delete_insert_id.
Qed.

Lemma scribbled_off_temp es target attempt d :
  es !! replacement_temp_leaf target attempt = None -> scribbled es (replacement_temp_leaf target attempt) d ->
  off_temp target es (dir_entries d).
Proof. intros Hn [file ->]. right. by exists attempt, file. Qed.

Lemma removed_off_temp es target attempt (operation : eff ObjectDir unit) P Q :
  let temp := replacement_temp_leaf target attempt in
  es !! temp = None -> runs P operation Q (scribbled es temp) ->
  runs P (or_removed temp operation) Q (fun d => off_temp target es (dir_entries d)).
Proof.
  intros temp Ht Hop d Hd. specialize (Hop d Hd). unfold or_removed. destruct (operation d) as [d' [a|e|]]; [done| |done].
  destruct (published_failure e); [by eapply scribbled_off_temp|]. unfold remove_entry.
  destruct (call_fault _); [by eapply (scribbled_off_temp _ _ _ d')|].
  destruct (dir_entries d' !! temp); [|by eapply (scribbled_off_temp _ _ _ d')].
  destruct Hop as [file Hf]. left. cbn. by rewrite Hf, delete_insert_id.
Qed.

Lemma off_temp_at target es d : at_entries es d -> off_temp target es (dir_entries d).
Proof. intros ->. by left. Qed.

(** A new object is written under a temporary name and renamed: it appears whole or not at all. *)
Lemma publish_runs es path bytes :
  ~ temp_name (leaf path) ->
  runs (at_entries es) (publish_object path bytes)
    (fun _ d => es !! leaf path = None /\ dir_entries d = <[leaf path := FileEntry (mkStored bytes true false)]> es)
    (fun d => off_temp (leaf path) es (dir_entries d)).
Proof.
  intros Hp. unfold publish_object, with_anchored_replacement_temp.
  eapply runs_bind; [eapply runs_err, create_runs; apply off_temp_at|].
  intros temp d ([attempt ->] & Hn & Hd). set (temp := replacement_temp_leaf (leaf path) attempt) in *.
  assert (temp <> leaf path) as Hne by (intros E; apply Hp; rewrite <- E; apply temp_leaf_name).
  revert d Hd. change (runs (at_entries (<[temp := empty_temp]> es))
    (or_removed temp (_ ← write_session_object temp bytes; _ ← ensure_anchored_new_leaf_available path; rename_to temp (leaf path)))
    (fun _ d => es !! leaf path = None /\ dir_entries d = <[leaf path := FileEntry (mkStored bytes true false)]> es)
    (fun d => off_temp (leaf path) es (dir_entries d))).
  apply (removed_off_temp es); [done|]. eapply runs_bind; [apply temp_write_runs|]. intros [].
  eapply looks_then; [apply available_looks| |intros d Hd; by eexists].
  intros [] Hl. rewrite lookup_insert_ne in Hl by done.
  eapply runs_weaken; [| | |apply rename_runs, Hn]; [done| |].
  - intros [] d H. by split.
  - intros d H. by eexists.
Qed.

Lemma persist_path_runs es path object :
  ~ temp_name (leaf path) -> slen (object_bytes object) <= MAX_SESSION_OBJECT_BYTES ->
  runs (at_entries es) (persist_path path object)
    (fun _ d => settles es (leaf path) (object_bytes object) (dir_entries d))
    (fun d => off_temp (leaf path) es (dir_entries d)).
Proof.
  intros Hp Hs d Hd. unfold persist_path. pose proof (looks_metadata es (leaf path) d Hd) as Hm.
  destruct (metadata (leaf path) d) as [d1 [e|error|]]; [| |done].
  - destruct Hm as [Hd1 He].
    pose proof (update_runs es path object Hs d1 Hd1) as Hu. destruct (verify_and_sync_existing path object d1) as [d2 [?|?|]];
      [apply Hu|by apply off_temp_at|done].
  - assert (match publish_object path (object_bytes object) d1 with
            | (s', Ok _) => settles es (leaf path) (object_bytes object) (dir_entries s')
            | (s', Err _) => off_temp (leaf path) es (dir_entries s')
            | (_, Panic) => False
            end) as Hnew.
    { pose proof (publish_runs es path (object_bytes object) Hp d1 Hm) as Hu.
      destruct (publish_object path (object_bytes object) d1) as [d2 [?|?|]]; [|done..].
      destruct Hu as [Hn ->]. eexists. split_and!; [done..|by left]. }
    destruct error as [| | | |[]| | | | |]; try (by apply off_temp_at). exact Hnew.
Qed.
End calls.
