(* ===== verification/ObjectsProps.v ===== *)
(** Theorems on the object writer: objects that are reported as stored are stored, whole and
    durable; no object that was stored is changed; the account of the writer is that of the
    directory, within the limits. *)

From Stdlib Require Import ZArith Lia Ascii String.
From stdpp Require Import base strings sorting sets option gmap countable list.
From S2P Require Import Prelude Decimal Sorting Metadata Json FlowValue Event Lifecycle Errors EffectTheory.
From S2P Require Import Validate OwnScript Context ContextTheory Builder Planner Segments Appender AppenderTheory Lines.
From S2P Require Import Objects ObjectsTheory.

Open Scope Z_scope.

(** * How the directory grows *)

(** The same file with the same bytes; what was durable is. *)
Definition entry_kept (e e' : DirEntry) : Prop :=
  match e, e' with
  | FileEntry file, FileEntry file' =>
      stored_bytes file' = stored_bytes file /\
      (bytes_durable file = true -> bytes_durable file' = true) /\ (name_durable file = true -> name_durable file' = true)
  | e, e' => e = e'
  end.

Section growth.
Context {R : RuntimeEnv} (sid : string).

(** A whole object of the session under the name of its bytes. *)
Definition whole_object (name : string) (e : DirEntry) : Prop :=
  exists file, e = FileEntry file /\ name = object_leaf sid (sha256_hex (stored_bytes file)) /\
    slen (stored_bytes file) <= MAX_SESSION_OBJECT_BYTES /\ bytes_durable file = true.

(** Every entry is kept, and what is new are whole objects. *)
Definition grows (es es' : gmap string DirEntry) : Prop :=
  forall name,
    match es !! name, es' !! name with
    | None, None => True
    | None, Some e => whole_object name e
    | Some e, Some e' => entry_kept e e'
    | Some _, None => False
    end.

Lemma entry_kept_refl e : entry_kept e e.
Proof. by destruct e. Qed.

Lemma entry_kept_trans a b c : entry_kept a b -> entry_kept b c -> entry_kept a c.
Proof. destruct a, b, c; cbn; try done. naive_solver congruence. Qed.

Lemma whole_kept name e e' : whole_object name e -> entry_kept e e' -> whole_object name e'.
Proof.
  intros (file & -> & Hn & Hs & Hd). destruct e' as [file'| |]; cbn; [|done..]. intros (Hb & Hb' & _).
  exists file'. rewrite Hb. auto.
Qed.

Lemma grows_refl es : grows es es.
Proof. intros name. destruct (es !! name); [apply entry_kept_refl|done]. Qed.

Lemma grows_trans a b c : grows a b -> grows b c -> grows a c.
Proof.
  intros H1 H2 name. specialize (H1 name). specialize (H2 name).
  destruct (a !! name), (b !! name), (c !! name); try done; eauto using entry_kept_trans, whole_kept.
Qed.

Lemma settled_grows es name bytes es' :
  name = object_leaf sid (sha256_hex bytes) -> slen bytes <= MAX_SESSION_OBJECT_BYTES -> settles es name bytes es' -> grows es es'.
Proof.
  intros -> Hs (file & -> & <- & Hd & Hold) other.
  destruct (decide (other = object_leaf sid (sha256_hex (stored_bytes file)))) as [->|?].
  - rewrite lookup_insert_eq. destruct Hold as [->|(file0 & -> & Hb & Hm)].
    + by exists file.
    + cbn. by rewrite Hm.
  - rewrite lookup_insert_ne by done. by apply grows_refl.
Qed.

Lemma named_grows es : grows es (on_file named_durably <$> es).
Proof. intros name. rewrite lookup_fmap. by destruct (es !! name) as [[]|]. Qed.

(** * Objects that are stored *)

Definition stored_object (es : gmap string DirEntry) (o : ContextObject) : Prop :=
  exists file, es !! object_leaf sid (object_digest o) = Some (FileEntry file) /\
    stored_bytes file = object_bytes o /\ bytes_durable file = true.

Lemma stored_grows es es' o :
  grows es es' -> stored_object es o -> stored_object es' o.
Proof.
  intros Hg (file & Hf & Hb & Hd). specialize (Hg (object_leaf sid (object_digest o))). rewrite Hf in Hg.
  unfold stored_object. destruct (es' !! _) as [[file'| |]|]; cbn in Hg; [|done..]. exists file'. destruct Hg as (-> & ? & _). auto.
Qed.

Lemma settled_stored es o es' :
  settles es (object_leaf sid (object_digest o)) (object_bytes o) es' -> stored_object es' o.
Proof. intros (file & -> & Hb & Hd & _). exists file. by rewrite lookup_insert_eq. Qed.

(** An object of a batch that was validated. *)
Record good_object (v : ValidatedObject) : Prop := {
  good_size : slen (object_bytes (validated_object v)) <= MAX_SESSION_OBJECT_BYTES;
  good_hash : object_digest (validated_object v) = sha256_hex (object_bytes (validated_object v));
  good_key : decode_lowercase_sha256_hex (object_digest (validated_object v)) = Some (validated_digest v);
  good_bytes : validated_bytes v = slen (object_bytes (validated_object v));
}.
End growth.

(** * Validation *)

Section validation.
Context {K : ObjectStorage} {KL : ObjectStorageLaws} {R : RuntimeEnv}.

Definition fits_key (key : list Z) (o : ContextObject * Z) : Prop :=
  validate_object o.1 = Ok o.2 /\ parse_session_object_digest (object_digest o.1) = Ok key.

Lemma parse_digest_Ok digest key :
  parse_session_object_digest digest = Ok key <-> decode_lowercase_sha256_hex digest = Some key.
Proof. unfold parse_session_object_digest. destruct (decode_lowercase_sha256_hex digest); cbn; naive_solver. Qed.

Lemma validate_object_Ok o n :
  validate_object o = Ok n ->
  n = slen (object_bytes o) /\ n <= MAX_SESSION_OBJECT_BYTES /\ object_digest o = sha256_hex (object_bytes o).
Proof.
  unfold validate_object, ensure_session_object_size. destruct (Z.ltb_spec MAX_SESSION_OBJECT_BYTES (slen (object_bytes o))); [done|].
  cbn [mbind result_bind]. destruct (String.eqb_spec (sha256_hex (object_bytes o)) (object_digest o)); [|done].
  cbn [negb]. intros H'. assert (n = slen (object_bytes o)) as -> by congruence. by split_and!.
Qed.

Lemma fits_good key o b found :
  fits_key key (o, b) -> good_object (mkValidated key found o b).
Proof.
  intros [Hv Hp]. apply validate_object_Ok in Hv as (Hb & Hs & Hh). apply parse_digest_Ok in Hp. cbn [fst snd] in *.
  split; cbn; [lia|exact Hh|exact Hp|exact Hb].
Qed.

(** The objects of a batch, each digest once. *)
Lemma unique_spec batch u u' :
  unique_objects batch u = Ok u' -> map_Forall fits_key u ->
  map_Forall fits_key u' /\ u ⊆ u' /\
  (forall o, o ∈ batch -> exists key o', u' !! key = Some o' /\ object_digest o'.1 = object_digest o) /\
  (forall key o', u' !! key = Some o' -> u !! key = Some o' \/ o'.1 ∈ batch).
Proof.
  revert u. induction batch as [|o batch IH]; intros u; cbn [unique_objects].
  { intros [= <-] Hu. split_and!; [done..|by intros ? ?%elem_of_nil|by left]. }
  intros (n & Hn & H)%bind_Ok_inv Hu. apply bind_Ok_inv in H as (key & Hk & H).
  assert (exists u1, unique_objects batch u1 = Ok u' /\ map_Forall fits_key u1 /\ u ⊆ u1 /\
            (exists o', u1 !! key = Some o' /\ object_digest o'.1 = object_digest o) /\
            (forall k o', u1 !! k = Some o' -> u !! k = Some o' \/ o'.1 = o)) as (u1 & H1 & Hf & Hs & Ho & Hb).
  { destruct (u !! key) as [o'|] eqn:Eu.
    - exists u. split_and!; [done..| |by left]. exists o'. split; [done|].
      pose proof (Hu _ _ Eu) as [_ Hp]. apply parse_digest_Ok in Hp, Hk. by eapply digest_key_inj.
    - exists (<[key := (o, n)]> u). split_and!; [done|by apply map_Forall_insert_2|by apply insert_subseteq| |].
      + exists (o, n). by rewrite lookup_insert_eq.
      + intros k o'. rewrite lookup_insert_Some. intros [[_ <-]|[_ Hk']]; auto. }
  destruct (IH u1 H1 Hf) as (Hf' & Hs' & Hin & Hfrom). split_and!; [done|by transitivity u1| |].
  - intros o0 [->|Ho0]%elem_of_cons; [|auto]. destruct Ho as (o' & Ho' & Hd). exists key, o'. split; [|done].
    by eapply lookup_weaken.
  - intros k o' Hk'. destruct (Hfrom k o' Hk') as [H0|H0].
    + destruct (Hb k o' H0) as [?| ->]; [by left|right; by left].
    + right. by right.
Qed.

Definition entry_of (v : ValidatedObject) : list Z * (ContextObject * Z) :=
  (validated_digest v, (validated_object v, validated_bytes v)).

(** What a disposition says. *)
Definition disposed (w : SessionObjectWriter) (es : gmap string DirEntry) (v : ValidatedObject) : Prop :=
  let name := leaf (object_path w (validated_object v)) in
  match disposition v with
  | Absent => es !! name = None /\ is_known w ViewPublished (validated_digest v) = false
  | found =>
      (found = ExistingPublished <-> is_known w ViewPublished (validated_digest v) = true) /\
      exists file, es !! name = Some (FileEntry file) /\ stored_bytes file = object_bytes (validated_object v)
  end.

Lemma is_known_published w key : is_known w ViewPublished key = published (default object_state_default (objects w !! key)).
Proof. unfold is_known. by destruct (objects w !! key). Qed.

Lemma looks_disposition es w key o n :
  looks es (disposition_of w key o) (fun found => disposed w es (mkValidated key found o n)).
Proof.
  intros d Hd. unfold disposition_of. pose proof (looks_metadata es (leaf (object_path w o)) d Hd) as Hm.
  pose proof (metadata_found (dir_requests d)) as Hn. unfold metadata in *. rewrite <- Hd in *.
  destruct (dir_entries d !! leaf (object_path w o)) as [e|] eqn:E.
  - destruct (metadata_fault _) as [[]|]; try done.
    assert (looks (dir_entries d) (_ ← verify_existing (object_path w o) o;
      mret (if published (default object_state_default (objects w !! key)) then ExistingPublished else ExistingUnpublished))
      (fun found => disposed w (dir_entries d) (mkValidated key found o n))) as H; [|by apply H].
    eapply looks_bind; [apply looks_verify|]. intros [] (file & Hf & Hb). eapply looks_weaken, looks_ret.
    intros found <-. unfold disposed. rewrite is_known_published. cbn -[is_known].
    destruct (published _); cbn -[is_known]; (split; [done|eauto]).
  - destruct (published _) eqn:Ep; [done|]. split; [done|]. unfold disposed. rewrite is_known_published. by cbn.
Qed.

Lemma looks_dispositions es w unique :
  looks es (dispositions w unique) (fun l => map entry_of l = unique /\ Forall (disposed w es) l).
Proof.
  induction unique as [|[key [o n]] unique IH]; cbn [dispositions].
  { eapply looks_weaken, looks_ret. intros l <-. by split. }
  eapply looks_bind; [apply (looks_disposition es w key o n)|]. intros found Hf.
  eapply looks_bind; [apply IH|]. intros l [Hl Hd]. eapply looks_weaken, looks_ret. intros l' <-. cbn.
  rewrite Hl. split; [done|]. by constructor.
Qed.

(** A validated batch. *)
Record validated_batch (batch : list ContextObject) (bytes count : Z) (view : InventoryView) (w : SessionObjectWriter)
    (es : gmap string DirEntry) (b : ValidatedObjectBatch) : Prop := {
  vb_good : Forall good_object (batch_objects b);
  vb_keys : NoDup (map validated_digest (batch_objects b));
  vb_disposed : Forall (disposed w es) (batch_objects b);
  vb_account : account w view (map entry_of (batch_objects b)) bytes count = Ok (batch_accounted_bytes b, batch_object_count b);
  vb_digests : supplied_digests (batch_objects b) = list_to_set (map object_digest batch);
  vb_from : forall v, v ∈ batch_objects b -> validated_object v ∈ batch;
  vb_unique : exists u, unique_objects batch ∅ = Ok u /\ map entry_of (batch_objects b) = map_iter digest_cmp u;
}.

Lemma account_safe w view unique bytes count : account w view unique bytes count <> Panic.
Proof.
  revert bytes count. induction unique as [|[key [o n]] unique IH]; intros bytes count; cbn [account]; [done|].
  case_match; [apply IH|]. unfold ensure_session_object_count, ensure_session_object_total.
  repeat (case_match; cbn [mbind result_bind]; try done); apply IH.
Qed.

Lemma unique_safe batch u : unique_objects batch u <> Panic.
Proof.
  revert u. induction batch as [|o batch IH]; intros u; cbn [unique_objects]; [done|].
  unfold validate_object, ensure_session_object_size, parse_session_object_digest.
  destruct (_ <? _); [done|]. cbn. destruct (negb _); [done|]. cbn.
  destruct (decode_lowercase_sha256_hex _); [|done]. apply IH.
Qed.

Lemma looks_validate es batch bytes count view w :
  looks es (validate_all_from batch bytes count view w) (validated_batch batch bytes count view w es).
Proof.
  eapply looks_bind; [apply looks_lift, unique_safe|]. intros u Hu. cbv beta in Hu.
  destruct (unique_spec batch ∅ u Hu (map_Forall_empty _)) as (Hf & _ & Hin & Hfrom).
  eapply looks_bind; [apply looks_lift, account_safe|]. intros [bytes' count'] Ha. cbv beta in Ha.
  eapply looks_bind; [apply looks_dispositions|]. intros l [Hl Hd]. eapply looks_weaken, looks_ret. intros b <-.
  assert (forall v, v ∈ l -> u !! validated_digest v = Some (validated_object v, validated_bytes v)) as Hlu.
  { intros v Hv. apply (elem_of_map_iter digest_cmp). rewrite <- Hl. by apply (list_elem_of_fmap_2 entry_of). }
  split; cbn.
  - apply Forall_forall. intros [key found o n] Hv. apply fits_good, (Hf key (o, n)), (Hlu _ Hv).
  - replace (map validated_digest l) with ((map_iter digest_cmp u).*1); [apply NoDup_map_iter|].
    rewrite <- Hl. symmetry. etrans; [|symmetry; apply map_map]. done.
  - done.
  - by rewrite Hl.
  - apply set_eq. intros digest. unfold supplied_digests. rewrite !elem_of_list_to_set, !list_elem_of_fmap. split.
    + intros (v & -> & Hv). exists (validated_object v). split; [done|].
      destruct (Hfrom _ _ (Hlu v Hv)) as [He|?]; [by rewrite lookup_empty in He|done].
    + intros (o & -> & Ho). destruct (Hin o Ho) as (key & o' & Hk & Hd').
      apply (elem_of_map_iter digest_cmp) in Hk. rewrite <- Hl in Hk.
      apply list_elem_of_fmap in Hk as (v & Hv & Hvl). exists v. split; [|done]. destruct o' as [o' n]. cbn in *. by injection Hv as -> <- ->.
  - intros v Hv. destruct (Hfrom _ _ (Hlu v Hv)) as [He|?]; [by rewrite lookup_empty in He|done].
  - by exists u.
Qed.
End validation.

(** * Persisting *)

Section persisting.
Context {K : ObjectStorage} {KL : ObjectStorageLaws} {R : RuntimeEnv} (sid : string) (Hsid : is_valid_session_id sid = true).

Abbreviation entries_of s := (dir_entries (object_dir s)).

(** Since [es0] the directory grew, and the objects [l] are stored. *)
Definition progress (es0 : gmap string DirEntry) (l : list ValidatedObject) (s : ObjectStore) : Prop :=
  object_session_id (object_writer s) = sid /\ grows sid es0 (entries_of s) /\
  Forall (fun v => stored_object sid (entries_of s) (validated_object v)) l.

Lemma progress_grows es0 l w d es' :
  progress es0 l (mkObjectStore w d) -> grows sid (dir_entries d) (dir_entries es') -> progress es0 l (mkObjectStore w es').
Proof.
  intros (Hw & Hg & Hl) H. split_and!; [done|by eapply grows_trans|]. eapply Forall_impl; [done|]. intros v. by eapply stored_grows.
Qed.

(** What a failure leaves: the directory grew, and at most one temporary file of an object is left. *)
Definition leaves (es es' : gmap string DirEntry) : Prop :=
  exists es1 digest, grows sid es es1 /\ off_temp (object_leaf sid digest) es1 es'.

Definition abandoned (es0 : gmap string DirEntry) (s : ObjectStore) : Prop :=
  object_session_id (object_writer s) = sid /\ leaves es0 (entries_of s).

Lemma progress_abandoned es0 l s : progress es0 l s -> abandoned es0 s.
Proof. intros (Hw & Hg & _). split; [done|]. exists (entries_of s), ""%string. split; [done|by left]. Qed.

(** From a call on the directory to the store. *)
Lemma on_dir_runs {A} (P X : ObjectStore -> Prop) (Q : A -> ObjectStore -> Prop) (m : SessionObjectWriter -> eff ObjectDir A) :
  (forall w, runs (fun d => P (mkObjectStore w d)) (m w) (fun a d => Q a (mkObjectStore w d)) (fun d => X (mkObjectStore w d))) ->
  runs P (on_dir m) Q X.
Proof.
  intros H [w d] Hs. specialize (H w d Hs). unfold on_dir. cbn. destruct (m w d) as [d' [a|e|]]; done.
Qed.

Lemma on_dir_looks {A} (P : ObjectStore -> Prop) (Q : A -> SessionObjectWriter -> gmap string DirEntry -> Prop)
    (m : SessionObjectWriter -> eff ObjectDir A) :
  (forall w es, looks es (m w) (fun a => Q a w es)) ->
  (forall w d d', P (mkObjectStore w d) -> dir_entries d' = dir_entries d -> P (mkObjectStore w d')) ->
  runs P (on_dir m) (fun a s => P s /\ Q a (object_writer s) (entries_of s)) P.
Proof.
  intros Hm HP. apply on_dir_runs. intros w d Hd. specialize (Hm w (dir_entries d) d eq_refl).
  destruct (m w d) as [d' [a|e|]]; [|by eapply HP|done]. destruct Hm as [He Ha]. split; [by eapply HP|]. cbn. by rewrite He.
Qed.

Lemma on_writer_runs (P Q : ObjectStore -> Prop) X change :
  (forall w d, P (mkObjectStore w d) -> Q (mkObjectStore (change w) d)) -> runs P (on_object_writer change) (fun _ => Q) X.
Proof. intros H [w d] Hs. by apply H. Qed.

Lemma record_same w key n :
  object_session_id (record_publication key n w) = object_session_id w /\
  object_parent (record_publication key n w) = object_parent w.
Proof. unfold record_publication. by repeat case_match. Qed.

Lemma record_progress es0 l key n :
  runs (progress es0 l) (on_object_writer (record_publication key n)) (fun _ => progress es0 l) (abandoned es0).
Proof. apply on_writer_runs. intros w d (Hw & H). split; [|done]. cbn. by rewrite (proj1 (record_same w key n)). Qed.

Lemma settle_progress es0 l v (m : SessionObjectWriter -> eff ObjectDir unit) :
  good_object v ->
  (forall w es, object_session_id w = sid ->
     runs (at_entries es) (m w)
       (fun _ d => settles es (object_leaf sid (object_digest (validated_object v))) (object_bytes (validated_object v)) (dir_entries d))
       (fun d => off_temp (object_leaf sid (object_digest (validated_object v))) es (dir_entries d))) ->
  runs (progress es0 l) (on_dir m) (fun _ => progress es0 (v :: l)) (abandoned es0).
Proof.
  intros [Hs Hh _ _] Hm. apply on_dir_runs. intros w d Hp. specialize (Hm w (dir_entries d) (proj1 Hp) d eq_refl).
  destruct (m w d) as [d' [[]|e|]]; [| |done].
  - assert (progress es0 l (mkObjectStore w d')) as (Hw & Hg & Hl).
    { eapply progress_grows; [done|]. eapply settled_grows; [|exact Hs|exact Hm]. by rewrite Hh. }
    split_and!; [done..|]. constructor; [by eapply settled_stored|done].
  - destruct Hp as (Hw & Hg & _). split; [done|]. by exists (dir_entries d), (object_digest (validated_object v)).
Qed.

Lemma existing_runs es0 l v :
  good_object v ->
  runs (progress es0 l) (persist_existing v)
    (fun _ => progress es0 (match disposition v with Absent => l | _ => v :: l end)) (abandoned es0).
Proof.
  intros Hv. unfold persist_existing.
  assert (runs (progress es0 l) (on_dir (fun w => verify_and_sync_existing (object_path w (validated_object v)) (validated_object v)))
            (fun _ => progress es0 (v :: l)) (abandoned es0)) as H.
  { apply settle_progress; [done|]. intros w es <-.
    eapply runs_weaken; [| | |apply update_runs, Hv]; [done|by intros [] d [? _]|apply off_temp_at]. }
  destruct (disposition v); [by apply runs_ret|..]; (eapply runs_bind; [exact H|]); intros []; case_bool_decide;
    [done|by apply runs_ret|apply record_progress|done].
Qed.

Lemma absent_runs es0 l v :
  good_object v ->
  runs (progress es0 l) (persist_absent v)
    (fun _ => progress es0 (match disposition v with Absent => v :: l | _ => l end)) (abandoned es0).
Proof.
  intros Hv. unfold persist_absent. destruct (disposition v); [|by apply runs_ret..].
  eapply runs_bind.
  - apply (settle_progress es0 l v); [done|]. intros w es <-. apply persist_path_runs; [by apply object_not_temp|apply Hv].
  - intros []. apply record_progress.
Qed.

(** A pass over the batch, which stores the objects it is about. *)
Lemma each_runs es0 step (about : ValidatedObject -> bool) validated l :
  (forall l v, good_object v -> runs (progress es0 l) (step v) (fun _ => progress es0 (if about v then v :: l else l)) (abandoned es0)) ->
  Forall good_object validated ->
  runs (progress es0 l) (each_object step validated)
    (fun _ => progress es0 (rev (List.filter about validated) ++ l)) (abandoned es0).
Proof.
  intros Hstep Hg. revert l. induction Hg as [|v validated Hv Hg IH]; intros l; cbn [each_object List.filter rev].
  { apply runs_ret. done. }
  eapply runs_bind; [by apply Hstep|]. intros [].
  eapply runs_weaken; [| | |apply IH]; [done| |done]. intros []. destruct (about v); cbn [rev]; [by rewrite <- app_assoc|done].
Qed.

Definition is_absent (v : ValidatedObject) : bool := bool_decide (disposition v = Absent).

Definition names_durable (es : gmap string DirEntry) : Prop := map_Forall (fun _ e => e = on_file named_durably e) es.

Lemma dir_sync_runs es0 l :
  runs (progress es0 l) (on_dir (fun _ => sync_entries))
    (fun _ s => progress es0 l s /\ names_durable (entries_of s)) (abandoned es0).
Proof.
  apply on_dir_runs. intros w d Hp.
  assert (looks (dir_entries d) check (fun _ => True)) as Hc by apply looks_check.
  assert (runs (at_entries (dir_entries d)) sync_entries (fun _ => at_entries (on_file named_durably <$> dir_entries d))
            (at_entries (dir_entries d))) as H.
  { eapply looks_then; [exact Hc| |done]. intros _ _. apply dir_call_runs. }
  specialize (H d eq_refl). destruct (sync_entries d) as [d' [[]|e|]]; [| |done].
  - split; [eapply progress_grows; [done|]; rewrite H; apply named_grows|]. cbn. rewrite H.
    apply map_Forall_fmap. intros name e _. by destruct e.
  - eapply (progress_abandoned _ l), progress_grows; [done|]. rewrite H. apply grows_refl.
Qed.

Lemma persist_batch_runs es0 validated :
  Forall good_object validated ->
  runs (progress es0 []) (persist_validated_batch validated)
    (fun _ s => progress es0 validated s /\ (validated <> [] -> names_durable (entries_of s))) (abandoned es0).
Proof.
  intros Hg. unfold persist_validated_batch.
  eapply runs_bind; [apply (each_runs es0 persist_existing (fun v => negb (is_absent v))); [|done]|].
  { intros l v Hv. eapply runs_weaken; [| | |by apply existing_runs]; [done| |done]. intros []. unfold is_absent.
    by destruct (disposition v); case_bool_decide. }
  intros []. eapply runs_bind; [apply (each_runs es0 persist_absent is_absent); [|done]|].
  { intros l v Hv. eapply runs_weaken; [| | |by apply absent_runs]; [done| |done]. intros []. unfold is_absent.
    by destruct (disposition v); case_bool_decide. }
  intros [].
  assert (forall s, progress es0 (rev (List.filter is_absent validated) ++ rev (List.filter (fun v => negb (is_absent v)) validated) ++ []) s ->
            progress es0 validated s) as Hall.
  { intros s (Hw & Hgr & Hl). split_and!; [done..|]. rewrite Forall_forall in Hl |- *.
    intros v Hv. apply Hl. rewrite !elem_of_app, !list_elem_of_In, <- !in_rev, !filter_In, <- !list_elem_of_In.
    destruct (is_absent v); cbn; auto. }
  destruct validated as [|v validated]; [by apply runs_ret|].
  eapply runs_weaken; [| | |apply (dir_sync_runs es0 (v :: validated))]; [exact Hall| |done].
  intros [] s [? ?]. by split.
Qed.
(** The object with this digest is in the directory, whole, and survives a crash. *)
Definition durable_object (es : gmap string DirEntry) (digest : string) : Prop :=
  exists file, es !! object_leaf sid digest = Some (FileEntry file) /\
    sha256_hex (stored_bytes file) = digest /\ slen (stored_bytes file) <= MAX_SESSION_OBJECT_BYTES /\
    bytes_durable file = true /\ name_durable file = true.

Lemma stored_durable es v :
  good_object v -> stored_object sid es (validated_object v) -> names_durable es ->
  durable_object es (object_digest (validated_object v)).
Proof.
  intros Hv (file & Hf & Hb & Hd) Hn. specialize (Hn _ _ Hf). cbn in Hn. injection Hn as Hn.
  exists file. split_and!; [done|by rewrite Hb, (good_hash v Hv)|rewrite Hb; apply Hv|done|by rewrite Hn].
Qed.

Lemma durable_grows es es' digest : grows sid es es' -> durable_object es digest -> durable_object es' digest.
Proof.
  intros Hg (file & Hf & Hh & Hs & Hd & Hn). specialize (Hg (object_leaf sid digest)). rewrite Hf in Hg.
  unfold durable_object. destruct (es' !! _) as [[file'| |]|]; cbn in Hg; [|done..].
  destruct Hg as (Hb & ? & ?). exists file'. rewrite Hb. split_and!; auto.
Qed.

Lemma durable_leaves es es' digest : leaves es es' -> durable_object es digest -> durable_object es' digest.
Proof.
  intros (es1 & target & Hg & Ht) Hd. pose proof (durable_grows _ _ _ Hg Hd) as (file & Hf & H).
  destruct Ht as [->|(attempt & other & _ & ->)]; [by exists file|]. exists file. split; [|done].
  rewrite lookup_insert_ne; [done|]. intros E. apply (object_not_temp sid digest Hsid). rewrite <- E. apply temp_leaf_name.
Qed.

Definition batch_digests (batch : list ContextObject) : gset string := list_to_set (map object_digest batch).

Lemma persist_runs es0 referenced batch :
  runs (progress es0 []) (persist_manifest_objects referenced batch)
    (fun _ s => progress es0 [] s /\ referenced = batch_digests batch /\
       forall digest, digest ∈ referenced -> durable_object (entries_of s) digest)
    (abandoned es0).
Proof.
  unfold persist_manifest_objects. eapply runs_bind.
  { eapply runs_err; [apply (progress_abandoned es0 [])|]. apply (on_dir_looks (progress es0 []) (fun b w es => validated_batch batch (accounted_bytes w) (object_count w) ViewPublished w es b)).
    - intros w es. apply looks_validate.
    - intros w d d' (? & Hg & _) He. split_and!; cbn; [done|by rewrite He|done]. }
  intros b. eapply runs_bind with (Q := fun _ s => (Forall good_object (batch_objects b) /\
    supplied_digests (batch_objects b) = batch_digests batch /\ referenced = batch_digests batch) /\ progress es0 [] s).
  { intros s [Hs Hb]. unfold lift. destruct (negb _ || negb _) eqn:E; [by eapply progress_abandoned|]. split; [|done].
    apply orb_false_iff in E as [E1 E2]. apply negb_false_iff in E1, E2. apply Nat.eqb_eq in E1. apply bool_decide_eq_true in E2.
    split_and!; [apply Hb|apply Hb|]. rewrite (vb_digests _ _ _ _ _ _ _ Hb) in E1, E2. symmetry.
    apply set_subseteq_size_eq; [exact E2|]. unfold batch_digests. rewrite E1. done. }
  intros []. apply runs_pure. intros (Hg & Hsup & ->). eapply runs_weaken; [| | |apply persist_batch_runs, Hg]; [done| |done].
  intros [] s [(Hw & Hgr & Hl) Hn]. split_and!; [by split_and!|done|]. rewrite <- Hsup. unfold supplied_digests.
  intros digest. rewrite elem_of_list_to_set, list_elem_of_fmap. intros (v & -> & Hv). rewrite Forall_forall in Hl, Hg.
  apply stored_durable; [by apply Hg|by apply Hl|]. apply Hn. intros E. rewrite E in Hv. by apply elem_of_nil in Hv.
Qed.
End persisting.

(** * The claims *)

Section claims.
Context {K : ObjectStorage} {KL : ObjectStorageLaws} {R : RuntimeEnv}.

(** C16: Persisting the objects a manifest refers to, whatever the file system answers, never
    panics and never harms what the session's directory holds: every entry is still there
    with its bytes, and what was durable of it is.  When it succeeds, all that is new are whole
    objects of the session, each under the SHA-256 of its bytes and within the size limit; the
    digests the manifest refers to are exactly those of the batch, and each of them is durable
    both in bytes and in name.  When it fails, what is new are such whole objects, their
    bytes durable but perhaps not yet their names, and at most one temporary file, for
    an object of the session, with whatever bytes were written. *)
Theorem objects_persisted referenced batch s s' r :
  let sid := object_session_id (object_writer s) in
  let es' := dir_entries (object_dir s') in
  is_valid_session_id sid = true ->
  persist_manifest_objects referenced batch s = (s', r) ->
  match r with
  | Ok _ => grows sid (dir_entries (object_dir s)) es' /\
      referenced = batch_digests batch /\ forall digest, digest ∈ referenced -> durable_object sid es' digest
  | Err _ => leaves sid (dir_entries (object_dir s)) es'
  | Panic => False
  end.
Proof.
  intros sid es' Hsid E. assert (progress sid (dir_entries (object_dir s)) [] s) as Hp by (split_and!; [done|apply grows_refl|done]).
  pose proof (persist_runs sid Hsid _ referenced batch s Hp) as H. rewrite E in H.
  destruct r; [|by destruct H as (_ & ?)|done]. destruct H as [(_ & ? & _) ?]. by split.
Qed.
End claims.
