(* ===== verification/ObjectsInventory.v ===== *)
(** The account of the object writer is that of the directory: opening counts the objects of the
    session, every operation keeps the count exact and within the limits, whatever fails. *)

From Stdlib Require Import ZArith Lia Ascii String.
From stdpp Require Import base strings sorting sets option gmap countable list.
From S2P Require Import Prelude Decimal Sorting Metadata Json FlowValue Event Lifecycle Errors EffectTheory.
From S2P Require Import Validate OwnScript Context ContextTheory Builder Planner Segments Appender AppenderTheory Lines.
From S2P Require Import Paths OwnScriptTheory Objects ObjectsTheory ObjectsProps.

Open Scope Z_scope.

(** * Sums over sets *)

Definition total_size (f : string -> Z) (X : gset string) : Z := foldr Z.add 0 (map f (elements X)).

Lemma sum_perm l k : l ≡ₚ k -> foldr Z.add 0 l = foldr Z.add 0 k.
Proof. induction 1; cbn; lia. Qed.

Lemma total_size_empty f : total_size f ∅ = 0.
Proof. done. Qed.

Lemma total_size_add f d X : d ∉ X -> total_size f ({[d]} ∪ X) = f d + total_size f X.
Proof.
  intros H. unfold total_size.
  rewrite (sum_perm _ (map f (d :: elements X))); [done|]. by apply Permutation_map, elements_union_singleton.
Qed.

Lemma total_size_ext f g X : (forall d, d ∈ X -> f d = g d) -> total_size f X = total_size g X.
Proof.
  intros H. unfold total_size. f_equal. apply map_ext_in. intros d Hd. apply H. by rewrite <- elem_of_elements, list_elem_of_In.
Qed.

Lemma total_size_nonneg f X : (forall d, 0 <= f d) -> 0 <= total_size f X.
Proof. intros H. unfold total_size. induction (elements X) as [|d l IH]; cbn; [lia|]. specialize (H d). lia. Qed.

(** * The objects of a session in a directory *)

Section digests.
Context (sid : string).

Definition session_digests (es : gmap string DirEntry) : gset string :=
  list_to_set (List.filter is_sha256_hex (omap (strip_prefix (object_prefix sid)) (elements (dom es)))).

Lemma elem_of_session_digests es d :
  d ∈ session_digests es <-> is_sha256_hex d = true /\ is_Some (es !! object_leaf sid d).
Proof.
  unfold session_digests. rewrite elem_of_list_to_set, list_elem_of_In, filter_In, <- list_elem_of_In, list_elem_of_omap.
  setoid_rewrite elem_of_elements. setoid_rewrite elem_of_dom. setoid_rewrite strip_prefix_Some. split.
  - intros [(name & Hn & ->) Hd]. done.
  - intros [Hd Hn]. split; [|done]. by exists (object_leaf sid d).
Qed.

Definition entry_size (e : DirEntry) : option Z :=
  match e with FileEntry file => Some (slen (stored_bytes file)) | _ => None end.

Definition object_size (es : gmap string DirEntry) (d : string) : Z :=
  default 0 (es !! object_leaf sid d ≫= entry_size).

(** The same objects with the same sizes. *)
Definition same_objects (es es' : gmap string DirEntry) : Prop :=
  forall d, entry_size <$> es' !! object_leaf sid d = entry_size <$> es !! object_leaf sid d.

Lemma same_digests es es' : same_objects es es' -> session_digests es' = session_digests es.
Proof.
  intros H. apply set_eq. intros d. rewrite !elem_of_session_digests.
  rewrite <- (fmap_is_Some entry_size (es' !! _)), <- (fmap_is_Some entry_size (es !! _)), H. done.
Qed.

Lemma same_sizes es es' d : same_objects es es' -> object_size es' d = object_size es d.
Proof. intros H. unfold object_size. specialize (H d). destruct (es !! _), (es' !! _); cbn in *; congruence. Qed.

Lemma off_temp_same {K : ObjectStorage} {R : RuntimeEnv} target es es' : is_valid_session_id sid = true -> off_temp target es es' -> same_objects es es'.
Proof.
  intros Hv [->|(attempt & file & _ & ->)] d; [done|]. rewrite lookup_insert_ne; [done|].
  intros E. apply (object_not_temp sid d Hv). rewrite <- E. apply temp_leaf_name.
Qed.

Lemma named_same es : same_objects es (on_file named_durably <$> es).
Proof. intros d. rewrite lookup_fmap. by destruct (es !! _) as [[]|]. Qed.

Lemma object_size_nonneg es d : 0 <= object_size es d.
Proof. unfold object_size. destruct (es !! _ ≫= _) eqn:E; cbn; [|lia]. apply bind_Some in E as ([] & _ & [= <-]). apply slen_nonneg. Qed.
End digests.

(** * The account *)

Section inventory.
Context {K : ObjectStorage} {KL : ObjectStorageLaws} {R : RuntimeEnv} (sid : string) (Hsid : is_valid_session_id sid = true).

(** The writer knows exactly the objects of the directory, their number and their size. *)
Record accounts (w : SessionObjectWriter) (es : gmap string DirEntry) : Prop := {
  acc_session : object_session_id w = sid;
  acc_known : forall d key, decode_lowercase_sha256_hex d = Some key ->
    is_known w ViewPublished key = true <-> d ∈ session_digests sid es;
  acc_keys : forall key, is_known w ViewPublished key = true -> exists d, decode_lowercase_sha256_hex d = Some key;
  acc_count : object_count w = Z.of_nat (size (session_digests sid es));
  acc_bytes : accounted_bytes w = total_size (object_size sid es) (session_digests sid es);
}.

Definition within_limits (w : SessionObjectWriter) : Prop :=
  object_count w <= MAX_SESSION_OBJECTS /\ accounted_bytes w <= MAX_SESSION_OBJECT_TOTAL_BYTES.

Definition inventoried (s : ObjectStore) : Prop :=
  accounts (object_writer s) (dir_entries (object_dir s)) /\ within_limits (object_writer s).

Lemma accounts_same w es es' : same_objects sid es es' -> accounts w es -> accounts w es'.
Proof.
  intros Hs [H1 H2 Hks H3 H4]. pose proof (same_digests sid es es' Hs) as Hd.
  split; [done|by rewrite Hd|done|by rewrite Hd|]. rewrite Hd, H4. apply total_size_ext. intros d _. symmetry. by apply same_sizes.
Qed.

Lemma session_key d key : decode_lowercase_sha256_hex d = Some key -> is_sha256_hex d = true.
Proof. intros H. apply decode_sha256. by rewrite H. Qed.

(** ** A publication *)

Lemma settled_same es es' d bytes :
  settles es (object_leaf sid d) bytes es' -> is_Some (es !! object_leaf sid d) -> same_objects sid es es'.
Proof.
  intros (file & -> & Hb & _ & Hold) [e He] d'. destruct (decide (d' = d)) as [->|Hne].
  - rewrite lookup_insert_eq. destruct Hold as [?|(file0 & -> & Hb0 & _)]; [congruence|]. cbn. congruence.
  - rewrite lookup_insert_ne; [done|]. intros E. apply object_leaf_inj in E. done.
Qed.

Lemma settled_new w es es' d key bytes :
  accounts w es -> decode_lowercase_sha256_hex d = Some key -> settles es (object_leaf sid d) bytes es' ->
  is_known w ViewPublished key = false ->
  (d ∉ session_digests sid es) /\ session_digests sid es' = {[d]} ∪ session_digests sid es /\
  total_size (object_size sid es') (session_digests sid es') =
    slen bytes + total_size (object_size sid es) (session_digests sid es).
Proof.
  intros Ha Hk (file & -> & <- & _ & Hold) Hp.
  assert (d ∉ session_digests sid es) as Hn by (intros H; apply (acc_known w es Ha d key Hk) in H; congruence).
  assert (session_digests sid (<[object_leaf sid d := FileEntry file]> es) = {[d]} ∪ session_digests sid es) as Hd.
  { apply set_eq. intros d'. rewrite elem_of_union, elem_of_singleton, !elem_of_session_digests.
    destruct (decide (d' = d)) as [->|Hne].
    - rewrite lookup_insert_eq. pose proof (session_key _ _ Hk). naive_solver.
    - rewrite lookup_insert_ne by (intros E; by apply object_leaf_inj in E). naive_solver. }
  split_and!; [done..|]. rewrite Hd, total_size_add by done. unfold object_size at 1. rewrite lookup_insert_eq. cbn. f_equal.
  apply total_size_ext. intros d' Hd'. unfold object_size. rewrite lookup_insert_ne; [done|].
  intros E. apply object_leaf_inj in E as ->. done.
Qed.

Lemma record_known key n w : is_known w ViewPublished key = true ->
  object_count (record_publication key n w) = object_count w /\
  accounted_bytes (record_publication key n w) = accounted_bytes w /\
  forall k, is_known (record_publication key n w) ViewPublished k = is_known w ViewPublished k.
Proof.
  rewrite is_known_published. unfold record_publication. intros Hp. rewrite Hp. case_match; split_and!; try done.
  intros k. rewrite !is_known_published. cbn. destruct (decide (k = key)) as [->|?].
  - by rewrite lookup_insert_eq.
  - by rewrite lookup_insert_ne.
Qed.

Lemma record_new key n w : is_known w ViewPublished key = false ->
  object_count (record_publication key n w) = sat_u64 (object_count w + 1) /\
  accounted_bytes (record_publication key n w) = sat_u64 (accounted_bytes w + n) /\
  forall k, is_known (record_publication key n w) ViewPublished k = bool_decide (k = key) || is_known w ViewPublished k.
Proof.
  rewrite is_known_published. unfold record_publication. intros Hp. rewrite Hp. split_and!; try by case_match.
  intros k. rewrite !is_known_published.
  destruct (decide (k = key)) as [->|?].
  - rewrite bool_decide_true by done. case_match; cbn; by rewrite lookup_insert_eq.
  - rewrite bool_decide_false by done. case_match; cbn; by rewrite ?lookup_insert_ne.
Qed.

Lemma record_accounts w es es' v :
  accounts w es -> within_limits w -> good_object v ->
  settles es (object_leaf sid (object_digest (validated_object v))) (object_bytes (validated_object v)) es' ->
  let w' := record_publication (validated_digest v) (validated_bytes v) w in
  accounts w' es' /\
  object_count w' = object_count w + (if is_known w ViewPublished (validated_digest v) then 0 else 1) /\
  accounted_bytes w' = accounted_bytes w + (if is_known w ViewPublished (validated_digest v) then 0 else validated_bytes v).
Proof.
  intros Ha [Hl1 Hl2] [Hs _ Hk Hb] Hset w'. pose proof Ha as [H1 H2 Hks H3 H4]. pose proof (slen_nonneg (object_bytes (validated_object v))).
  assert (object_session_id w' = sid) as Hw by (etrans; [apply record_same|done]).
  destruct (is_known w ViewPublished (validated_digest v)) eqn:E.
  - destruct (record_known _ (validated_bytes v) _ E) as (Hc & Hby & Hkn). fold w' in Hc, Hby, Hkn.
    split_and!; [|lia|lia]. apply (H2 _ _ Hk), elem_of_session_digests in E as [_ E].
    eapply accounts_same; [by eapply settled_same|].
    split; [done| |intros key; rewrite Hkn; apply Hks|lia|lia]. intros d key Hd. rewrite Hkn. by apply H2.
  - destruct (record_new _ (validated_bytes v) _ E) as (Hc & Hby & Hkn). fold w' in Hc, Hby, Hkn.
    destruct (settled_new _ _ _ _ _ _ Ha Hk Hset E) as (Hn & Hdig & Htot).
    assert (0 <= accounted_bytes w) by (rewrite H4; apply total_size_nonneg, object_size_nonneg).
    unfold MAX_SESSION_OBJECTS, MAX_SESSION_OBJECT_BYTES in *.
    assert (accounted_bytes w <= u64_max - 16777217) by (etrans; [exact Hl2|by vm_compute]).
    rewrite sat_u64_id in Hc by (unfold in_u64, u64_max; lia). rewrite sat_u64_id in Hby by (unfold in_u64; lia).
    split_and!; [|done..]. split; [done| | | |lia].
    + intros d key Hd. rewrite Hkn, Hdig, elem_of_union, elem_of_singleton, orb_true_iff, bool_decide_eq_true, (H2 _ _ Hd).
      split; (intros [->|?]; [left|by right]); [by eapply digest_key_inj|congruence].
    + intros key. rewrite Hkn. case_bool_decide; [subst; eauto|apply Hks].
    + rewrite Hc, Hdig, H3, size_union, size_singleton by set_solver. lia.
Qed.

(** ** What a batch adds *)

Definition owed (w : SessionObjectWriter) (cost : ValidatedObject -> Z) (l : list ValidatedObject) : Z :=
  foldr (fun v n => (if is_known w ViewPublished (validated_digest v) then 0 else cost v) + n) 0 l.

(** With the objects [l] the account comes to [bytes] and [count]. *)
Definition comes_to (bytes count : Z) (w : SessionObjectWriter) (l : list ValidatedObject) : Prop :=
  object_count w + owed w (fun _ => 1) l = count /\ accounted_bytes w + owed w validated_bytes l = bytes.

Lemma account_budget w l bytes count bytes' count' :
  account w ViewPublished (map entry_of l) bytes count = Ok (bytes', count') -> Forall good_object l ->
  0 <= bytes <= MAX_SESSION_OBJECT_TOTAL_BYTES -> 0 <= count <= MAX_SESSION_OBJECTS ->
  count' = count + owed w (fun _ => 1) l /\ bytes' = bytes + owed w validated_bytes l /\
  count' <= MAX_SESSION_OBJECTS /\ bytes' <= MAX_SESSION_OBJECT_TOTAL_BYTES.
Proof.
  revert bytes count. induction l as [|v l IH]; intros bytes count; cbn [map account entry_of owed foldr].
  { intros [= <- <-]. lia. }
  intros H Hg Hb Hc. apply Forall_cons in Hg as [[Hs _ _ Hn] Hg]. pose proof (slen_nonneg (object_bytes (validated_object v))).
  unfold owed in *. destruct (is_known w ViewPublished (validated_digest v)).
  { destruct (IH bytes count H Hg Hb Hc). lia. }
  apply bind_Ok_inv in H as ([] & H1 & H). apply bind_Ok_inv in H as ([] & H2 & H).
  unfold ensure_session_object_count, ensure_session_object_total in H1, H2.
  assert (MAX_SESSION_OBJECT_TOTAL_BYTES < u64_max - MAX_SESSION_OBJECT_BYTES) by (by vm_compute).
  assert (MAX_SESSION_OBJECT_BYTES < u64_max) by (by vm_compute). assert (MAX_SESSION_OBJECTS < u64_max) by (by vm_compute).
  rewrite sat_u64_id in H1, H by (unfold in_u64; lia). rewrite sat_u64_id in H2, H by (unfold in_u64; lia).
  repeat case_match; try done. destruct (IH (bytes + validated_bytes v) (count + 1) H Hg ltac:(lia) ltac:(lia)). lia.
Qed.

Lemma owed_nonneg w l : Forall good_object l -> 0 <= owed w (fun _ => 1) l /\ 0 <= owed w validated_bytes l.
Proof.
  unfold owed. induction 1 as [|v l [_ _ _ Hn] _ IH]; cbn [foldr]; [done|]. pose proof (slen_nonneg (object_bytes (validated_object v))).
  case_match; lia.
Qed.

Lemma owed_record w key n cost l :
  key ∉ map validated_digest l -> owed (record_publication key n w) cost l = owed w cost l.
Proof.
  unfold owed. induction l as [|v l IH]; cbn [foldr map]; [done|]. rewrite not_elem_of_cons. intros [Hv Hl]. rewrite IH by done. f_equal.
  destruct (is_known w ViewPublished key) eqn:E.
  - destruct (record_known key n w E) as (_ & _ & ->). done.
  - destruct (record_new key n w E) as (_ & _ & ->). by rewrite bool_decide_false.
Qed.

(** ** The passes *)

Section passes.
Context (bytes count : Z) (Hbytes : bytes <= MAX_SESSION_OBJECT_TOTAL_BYTES) (Hcount : count <= MAX_SESSION_OBJECTS).

(** The account is exact, and there is room for the objects that are left. *)
Definition exact (l : list ValidatedObject) (s : ObjectStore) : Prop :=
  accounts (object_writer s) (dir_entries (object_dir s)) /\ comes_to bytes count (object_writer s) l /\
  Forall (fun v => disposition v <> Absent -> is_known (object_writer s) ViewPublished (validated_digest v) = true) l.

Lemma exact_inventoried l s : Forall good_object l -> exact l s -> inventoried s.
Proof. intros Hg (Ha & [H1 H2] & _). split; [done|]. destruct (owed_nonneg (object_writer s) l Hg). split; lia. Qed.

Lemma exact_same l w d d' : same_objects sid (dir_entries d) (dir_entries d') -> exact l (mkObjectStore w d) -> exact l (mkObjectStore w d').
Proof. intros Hs [Ha Hb]. split; [by eapply accounts_same|done]. Qed.

Lemma existing_exact v all :
  good_object v -> disposition v <> ExistingUnpublished ->
  runs (exact all) (persist_existing v) (fun _ => exact all) (exact all).
Proof.
  intros Hv Hd. unfold persist_existing. destruct (disposition v); [by apply runs_ret| |done].
  eapply runs_bind with (Q := fun _ => exact all); [|intros []; rewrite bool_decide_false by done; by apply runs_ret].
  apply on_dir_runs. intros w d He. pose proof (acc_session _ _ (proj1 He)) as Hw. cbn in Hw.
  pose proof (update_runs (dir_entries d) (object_path w (validated_object v)) (validated_object v) (good_size v Hv) d eq_refl) as H.
  unfold object_path in *. rewrite Hw in *.
  destruct (verify_and_sync_existing _ _ d) as [d' [[]|e|]]; [| |done].
  - destruct H as [H1 H2]. eapply exact_same; [eapply settled_same; [exact H1|exact H2]|exact He].
  - eapply exact_same; [|exact He]. by rewrite H.
Qed.

Lemma record_monotone key n w k : is_known w ViewPublished k = true -> is_known (record_publication key n w) ViewPublished k = true.
Proof.
  intros H. destruct (is_known w ViewPublished key) eqn:E.
  - by destruct (record_known key n w E) as (_ & _ & ->).
  - destruct (record_new key n w E) as (_ & _ & ->). by rewrite H, orb_true_r.
Qed.

(** Publishing one object uses up what it owes. *)
Lemma publication_exact v all w d es :
  Forall good_object (v :: all) -> NoDup (map validated_digest (v :: all)) -> exact (v :: all) (mkObjectStore w (mkObjectDir es 0)) ->
  settles es (object_leaf sid (object_digest (validated_object v))) (object_bytes (validated_object v)) (dir_entries d) ->
  exact all (mkObjectStore (record_publication (validated_digest v) (validated_bytes v) w) d).
Proof.
  intros Hg Hn (Ha & [Hb1 Hb2] & Hf) Hs. cbn in Ha, Hf. cbn in Hn. apply NoDup_cons in Hn as [Hn _].
  destruct (owed_nonneg w (v :: all) Hg) as [H1 H2]. apply Forall_cons in Hg as [Hv Hg]. apply Forall_cons in Hf as [_ Hf].
  destruct (record_accounts w es (dir_entries d) v Ha ltac:(split; cbn in *; lia) Hv Hs) as (Ha' & Hc & Hby).
  split_and!; [done| |].
  - unfold comes_to. cbn [object_writer]. rewrite !owed_record by done. rewrite Hc, Hby.
    unfold owed in *. cbn [foldr object_writer] in *. lia.
  - eapply Forall_impl; [exact Hf|]. intros v' Hv' Hd'. by apply record_monotone, Hv'.
Qed.

Lemma absent_exact v all :
  Forall good_object (v :: all) -> NoDup (map validated_digest (v :: all)) ->
  runs (exact (v :: all)) (persist_absent v) (fun _ => exact all) inventoried.
Proof.
  intros Hg Hn. pose proof Hg as [Hv Hall]%Forall_cons.
  assert (disposition v <> Absent -> forall s, exact (v :: all) s -> exact all s) as Hskip.
  { intros Hd s (Ha & [H1 H2] & [Hk Hf]%Forall_cons). split_and!; [done| |done]. unfold comes_to, owed in *. cbn [foldr] in *.
    rewrite (Hk Hd) in H1, H2. lia. }
  unfold persist_absent. destruct (disposition v) eqn:Hd; [|apply runs_ret, Hskip; done..].
  eapply runs_bind with (Q := fun _ s => exists es, exact (v :: all) (mkObjectStore (object_writer s) (mkObjectDir es 0)) /\
    settles es (object_leaf sid (object_digest (validated_object v))) (object_bytes (validated_object v)) (dir_entries (object_dir s))).
  - apply on_dir_runs. intros w d He. pose proof (acc_session _ _ (proj1 He)) as Hw. cbn in Hw. unfold object_path. rewrite Hw.
    pose proof (persist_path_runs (dir_entries d) (object_in (object_parent w) sid (object_digest (validated_object v)))
      (validated_object v) (object_not_temp sid _ Hsid) (good_size v Hv) d eq_refl) as H.
    destruct (persist_path _ _ d) as [d' [[]|e|]]; [| |done].
    + exists (dir_entries d). by split.
    + apply (exact_inventoried (v :: all)); [done|]. eapply exact_same; [by eapply off_temp_same|exact He].
  - intros []. apply on_writer_runs. intros w d (es & He & Hs). by eapply publication_exact.
Qed.

Lemma pass_exact all l :
  Forall good_object l -> Forall (fun v => disposition v <> ExistingUnpublished) l ->
  runs (exact all) (each_object persist_existing l) (fun _ => exact all) (exact all).
Proof.
  intros Hg. induction Hg as [|v l Hv Hg IH]; cbn [each_object]; [by intros; apply runs_ret|].
  intros [Hd Hl]%Forall_cons. eapply runs_bind; [by apply existing_exact|]. intros []. by apply IH.
Qed.

Lemma publish_exact l :
  Forall good_object l -> NoDup (map validated_digest l) ->
  runs (exact l) (each_object persist_absent l) (fun _ => exact []) inventoried.
Proof.
  intros Hg. induction l as [|v l IH]; cbn [each_object]; [intros _; by apply runs_ret|]. intros Hn.
  eapply runs_bind; [by apply absent_exact|]. intros []. apply IH; [by apply Forall_cons in Hg as [_ ?]|].
  cbn in Hn. by apply NoDup_cons in Hn as [_ ?].
Qed.

Lemma sync_exact : runs (exact []) (on_dir (fun _ => sync_entries)) (fun _ => exact []) inventoried.
Proof.
  apply on_dir_runs. intros w d He. unfold sync_entries.
  pose proof (looks_then (dir_entries d) check (fun _ => dir_call (fmap (on_file named_durably))) _ _ _ (looks_check _)
    (fun _ _ => dir_call_runs (dir_entries d) _) (fun _ H => H) d eq_refl) as H.
  destruct ((_ ← check; _) d) as [d' [[]|e|]]; [|apply (exact_inventoried []); [done|]|done]; (eapply exact_same, He);
    rewrite H; [apply named_same|done].
Qed.

Lemma persist_exact l :
  Forall good_object l -> NoDup (map validated_digest l) -> Forall (fun v => disposition v <> ExistingUnpublished) l ->
  runs (exact l) (persist_validated_batch l) (fun _ => exact []) inventoried.
Proof.
  intros Hg Hn Hd. unfold persist_validated_batch.
  eapply runs_bind; [eapply runs_err, (pass_exact l); [intros s; by apply exact_inventoried|done..]|].
  intros []. eapply runs_bind; [by apply publish_exact|]. intros []. destruct l; [|apply sync_exact]. by apply runs_ret.
Qed.
End passes.

(** Nothing is in the directory that the writer does not know. *)
Lemma no_unpublished w es l :
  accounts w es -> Forall good_object l -> Forall (disposed w es) l -> Forall (fun v => disposition v <> ExistingUnpublished) l.
Proof.
  intros Ha Hg Hd. rewrite Forall_forall in *. intros v Hv E. specialize (Hd v Hv). specialize (Hg v Hv).
  unfold disposed in Hd. rewrite E in Hd. destruct Hd as [Hk (file & Hf & _)].
  assert (is_known w ViewPublished (validated_digest v) = true) as Hp.
  { apply (acc_known _ _ Ha _ _ (good_key v Hg)), elem_of_session_digests. split; [eapply session_key, good_key, Hg|].
    unfold object_path in Hf. cbn in Hf. rewrite (acc_session _ _ Ha) in Hf. by rewrite Hf. }
  by apply Hk in Hp.
Qed.

(** A validated batch starts with an exact account. *)
Lemma validated_exact batch s b :
  inventoried s ->
  validated_batch batch (accounted_bytes (object_writer s)) (object_count (object_writer s)) ViewPublished (object_writer s)
    (dir_entries (object_dir s)) b ->
  exact (batch_accounted_bytes b) (batch_object_count b) (batch_objects b) s /\
  batch_object_count b <= MAX_SESSION_OBJECTS /\ batch_accounted_bytes b <= MAX_SESSION_OBJECT_TOTAL_BYTES /\
  object_count (object_writer s) <= batch_object_count b /\ accounted_bytes (object_writer s) <= batch_accounted_bytes b.
Proof.
  intros [Ha [Hl1 Hl2]] Hb. destruct (owed_nonneg (object_writer s) (batch_objects b) (vb_good _ _ _ _ _ _ _ Hb)).
  destruct (account_budget _ _ _ _ _ _ (vb_account _ _ _ _ _ _ _ Hb) (vb_good _ _ _ _ _ _ _ Hb)) as (H1 & H2 & H3 & H4).
  - split; [|done]. rewrite (acc_bytes _ _ Ha). apply total_size_nonneg, object_size_nonneg.
  - split; [|done]. rewrite (acc_count _ _ Ha). lia.
  - split_and!; [|lia..]. split_and!; [done|by split|].
    pose proof (no_unpublished _ _ _ Ha (vb_good _ _ _ _ _ _ _ Hb) (vb_disposed _ _ _ _ _ _ _ Hb)) as Hno.
    pose proof (vb_disposed _ _ _ _ _ _ _ Hb) as Hdis. rewrite Forall_forall in *. intros v Hv Hd.
    specialize (Hno v Hv). specialize (Hdis v Hv). unfold disposed in Hdis. destruct (disposition v); [done| |done]. by apply Hdis.
Qed.

Lemma persist_inventoried referenced batch :
  runs inventoried (persist_manifest_objects referenced batch) (fun _ => inventoried) inventoried.
Proof.
  unfold persist_manifest_objects. eapply runs_bind.
  { apply (on_dir_looks inventoried (fun b w es => validated_batch batch (accounted_bytes w) (object_count w) ViewPublished w es b)).
    - intros w es. apply looks_validate.
    - intros w d d' [Ha Hl] He. split; [|done]. cbn in *. by rewrite He. }
  intros b s [Hi Hb]. rewrite eff_bind_eq. unfold lift at 1. destruct (negb _ || negb _); [exact Hi|].
  destruct (validated_exact batch s b Hi Hb) as (He & Hc & Hby & _).
  pose proof (persist_exact _ _ Hby Hc (batch_objects b) (vb_good _ _ _ _ _ _ _ Hb) (vb_keys _ _ _ _ _ _ _ Hb)
    (no_unpublished _ _ _ (proj1 Hi) (vb_good _ _ _ _ _ _ _ Hb) (vb_disposed _ _ _ _ _ _ _ Hb)) s He) as H.
  destruct (persist_validated_batch _ s) as [s' [[]|e|]]; [|done..]. by eapply (exact_inventoried _ _ Hby Hc []).
Qed.

Lemma mark_published l known key :
  published (default object_state_default (mark_preflight l known !! key)) =
  published (default object_state_default (known !! key)).
Proof.
  unfold mark_preflight. revert known. induction l as [|v l IH]; intros known; cbn [fold_left]; [done|]. rewrite IH.
  destruct (decide (key = validated_digest v)) as [->|?].
  - by rewrite lookup_insert_eq.
  - by rewrite lookup_insert_ne.
Qed.

Lemma preflight_inventoried batch : runs inventoried (preflight_objects batch) (fun _ => inventoried) inventoried.
Proof.
  unfold preflight_objects. eapply runs_bind.
  { apply (on_dir_looks inventoried (fun _ _ _ => True)).
    - intros w es. eapply looks_weaken, looks_validate. done.
    - intros w d d' [Ha Hl] He. split; [|done]. cbn in *. by rewrite He. }
  intros b. apply on_writer_runs. intros w d [[[H1 H2 Hks H3 H4] Hl] _]. split; [|done].
  split; [done| |intros key; rewrite is_known_published; cbn; rewrite mark_published, <- is_known_published; apply Hks|done|done].
  intros d0 key Hd. rewrite <- (H2 d0 key Hd), !is_known_published. cbn. by rewrite mark_published.
Qed.

(** ** Opening *)

Definition leaf_byte (a : ascii) : bool := (byte a <? 128) && negb (is_ascii_uppercase a).

Lemma plain_utf8 s : bytes_all leaf_byte s = true -> from_utf8 s = true.
Proof.
  induction s as [|a s IH]; [done|]. cbn [bytes_all from_utf8]. rewrite andb_true_iff. intros [Ha Hs].
  unfold leaf_byte in Ha. apply andb_true_iff in Ha as [-> _]. auto.
Qed.

Lemma plain_lower s : bytes_all leaf_byte s = true -> to_ascii_lowercase s = s.
Proof.
  induction s as [|a s IH]; [done|]. cbn [bytes_all to_ascii_lowercase]. rewrite andb_true_iff. intros [Ha Hs].
  unfold leaf_byte in Ha. apply andb_true_iff in Ha as [_ Ha%negb_true_iff]. rewrite Ha. by rewrite IH.
Qed.

Lemma session_id_bytes : bytes_all is_session_id_byte sid = true.
Proof. unfold is_valid_session_id in Hsid. rewrite !andb_true_iff in Hsid. naive_solver. Qed.

Lemma session_byte_plain a : is_session_id_byte a = true -> leaf_byte a = true /\ a <> "."%char.
Proof. destruct a as [[] [] [] [] [] [] [] []]; vm_compute; done. Qed.

Lemma hex_byte_plain a : is_lower_hex a = true -> leaf_byte a = true.
Proof. destruct a as [[] [] [] [] [] [] [] []]; vm_compute; done. Qed.

Lemma leaf_plain d : is_sha256_hex d = true -> bytes_all leaf_byte (object_leaf sid d) = true.
Proof.
  intros Hd. unfold object_leaf, object_prefix. rewrite !bytes_all_app, !andb_true_iff. split_and!; [|by vm_compute|].
  - eapply bytes_all_impl, session_id_bytes. intros a Ha. by apply session_byte_plain.
  - apply andb_true_iff in Hd as [_ Hd]. eapply bytes_all_impl, Hd. apply hex_byte_plain.
Qed.

Lemma split_once_str_Some sep s b r : split_once_str sep s = Some (b, r) -> s = b +:+ sep +:+ r.
Proof.
  revert b. induction s as [|a s IH]; intros b; cbn [split_once_str].
  - destruct (strip_prefix sep "") eqn:E; [|done]. intros [= <- <-]. by apply strip_prefix_Some in E.
  - destruct (strip_prefix sep (String a s)) eqn:E; [intros [= <- <-]; by apply strip_prefix_Some in E|].
    destruct (split_once_str sep s) as [[b' r']|]; [|done]. cbn. intros [= <- <-]. cbn. f_equal. by apply IH.
Qed.

Lemma split_once_str_next sep a s :
  strip_prefix sep (String a s) = None ->
  split_once_str sep (String a s) = ('(b, r) ← split_once_str sep s; Some (String a b, r)).
Proof. intros H. cbn [split_once_str]. by rewrite H. Qed.

Lemma split_once_str_here sep s : split_once_str sep (sep +:+ s) = Some (""%string, s).
Proof.
  assert (strip_prefix sep (sep +:+ s) = Some s) as H by (by apply strip_prefix_Some).
  unfold split_once_str. destruct (sep +:+ s); by rewrite H.
Qed.

Lemma split_separator p d :
  bytes_all is_session_id_byte p = true ->
  split_once_str OBJECT_DIGEST_SEPARATOR (p +:+ OBJECT_DIGEST_SEPARATOR +:+ d) = Some (p, d).
Proof.
  induction p as [|a p IH]; [intros _; exact (split_once_str_here OBJECT_DIGEST_SEPARATOR d)|]. cbn [bytes_all]. rewrite andb_true_iff. intros [Ha Hp].
  change (String a p +:+ ?t) with (String a (p +:+ t)). rewrite split_once_str_next; [by rewrite IH|].
  apply session_byte_plain in Ha as [_ Ha]. unfold OBJECT_DIGEST_SEPARATOR. cbn [strip_prefix]. by destruct (Ascii.eqb_spec "." a).
Qed.

Lemma split_leaf d : split_object_leaf (object_leaf sid d) = Some (sid, d).
Proof.
  unfold split_object_leaf, object_leaf, object_prefix. rewrite app_string_assoc. apply split_separator, session_id_bytes.
Qed.

Lemma hex_digest d : is_lowercase_sha256_hex d = is_sha256_hex d.
Proof.
  unfold is_lowercase_sha256_hex. apply eq_true_iff_eq. by rewrite bool_decide_eq_true, decode_sha256.
Qed.

Definition inventory_of (es : gmap string DirEntry) (names : list string) (found : gset string * Z) : Prop :=
  (forall d, d ∈ found.1 <-> is_sha256_hex d = true /\ object_leaf sid d ∈ names) /\
  found.2 = total_size (object_size sid es) found.1 /\
  found.2 <= MAX_SESSION_OBJECT_TOTAL_BYTES /\ Z.of_nat (size found.1) <= MAX_SESSION_OBJECTS.

Lemma collected_skip es names name found :
  (forall d, is_sha256_hex d = true -> name <> object_leaf sid d) -> inventory_of es names found -> inventory_of es (name :: names) found.
Proof.
  intros Hn [H1 H2]. split; [|done]. intros d. rewrite H1, elem_of_cons. split; [naive_solver|].
  intros [Hd [E|?]]; [by destruct (Hn d Hd)|done].
Qed.

Lemma looks_collect es sessions names name found :
  inventory_of es names found -> name ∉ names ->
  looks es (collect_name sessions sid name found) (inventory_of es (name :: names)).
Proof.
  intros Hc Hn. unfold collect_name. eapply looks_bind; [apply looks_call|]. intros [] _.
  assert (forall found', found = found' -> (forall d, is_sha256_hex d = true -> name <> object_leaf sid d) ->
            inventory_of es (name :: names) found') as Hskip by (intros ? <- ?; by apply collected_skip).
  destruct (from_utf8 name) eqn:Eu.
  2: { case_bool_decide; [by eapply looks_weaken, looks_lift|]. eapply looks_weaken, looks_ret. intros found' E. apply Hskip; [done|].
       intros d Hd ->. by rewrite plain_utf8 in Eu by (by apply leaf_plain). }
  destruct (split_object_leaf (to_ascii_lowercase name)) as [[owner d]|] eqn:Es.
  2: { eapply looks_weaken, looks_ret. intros found' E. apply Hskip; [done|]. intros d Hd ->.
       by rewrite plain_lower, split_leaf in Es by (by apply leaf_plain). }
  destruct (String.eqb_spec owner sid) as [->|Ho]; cbn [negb].
  2: { eapply looks_weaken, looks_ret. intros found' E. apply Hskip; [done|]. intros d' Hd ->.
       rewrite plain_lower, split_leaf in Es by (by apply leaf_plain). congruence. }
  eapply looks_bind; [apply looks_reject|]. intros [] Hrej. apply orb_false_iff in Hrej as [Hr1%negb_false_iff Hr2%negb_false_iff].
  apply String.eqb_eq in Hr1. rewrite Hr1 in Es. apply split_once_str_Some in Es. rewrite hex_digest in Hr2.
  assert (name = object_leaf sid d) as -> by (rewrite Es; unfold object_leaf, object_prefix; by rewrite app_string_assoc).
  clear Es Hskip. destruct found as [ds t]. destruct Hc as (H1 & H2 & H3 & H4). cbn [fst snd] in *.
  assert (d ∉ ds) as Hd by (rewrite H1; naive_solver).
  eapply looks_bind; [apply looks_reject|]. intros [] Hcount.
  eapply looks_bind; [apply file_bytes_runs|]. intros n (file & Hf & -> & Hs).
  eapply looks_bind; [apply looks_reject|]. intros [] Htotal.
  eapply looks_weaken, looks_ret. intros found' <-. unfold inventory_of. cbn [fst snd].
  assert (0 <= t) by (rewrite H2; apply total_size_nonneg, object_size_nonneg). pose proof (slen_nonneg (stored_bytes file)).
  assert (MAX_SESSION_OBJECT_TOTAL_BYTES < u64_max - MAX_SESSION_OBJECT_BYTES) by (by vm_compute).
  assert (MAX_SESSION_OBJECTS < u64_max) by (by vm_compute).
  rewrite sat_u64_id in Hcount, Htotal |- * by (unfold in_u64; lia).
  rewrite total_size_add, size_union, size_singleton by set_solver. cbn [leaf object_in] in Hf. unfold object_size at 1. rewrite Hf. cbn [mbind option_bind entry_size default].
  unfold id. split_and!; [|lia..]. intros d'. rewrite elem_of_union, elem_of_singleton, elem_of_cons, H1. split.
  - intros [->|?]; naive_solver.
  - intros [Hd' [E|?]]; [apply object_leaf_inj in E; by left|by right].
Qed.

Lemma looks_collect_all es sessions names done_ found :
  inventory_of es done_ found -> NoDup (rev names ++ done_) ->
  looks es (collect_session_objects sessions sid names found) (inventory_of es (rev names ++ done_)).
Proof.
  revert done_ found. induction names as [|name names IH]; intros before found Hc Hn; cbn [collect_session_objects rev app].
  { eapply looks_weaken, looks_ret. by intros ? <-. }
  cbn [rev] in Hn. rewrite <- app_assoc in Hn |- *. cbn [app] in Hn |- *.
  eapply looks_bind; [apply looks_collect; [exact Hc|]|].
  - apply NoDup_app in Hn as (_ & _ & Hn). by apply NoDup_cons in Hn as [? _].
  - intros found' Hf. by apply IH.
Qed.

Lemma looks_session_objects es sessions :
  looks es (session_objects sessions sid) (fun found =>
    found.1 = session_digests sid es /\ found.2 = total_size (object_size sid es) found.1 /\
    found.2 <= MAX_SESSION_OBJECT_TOTAL_BYTES /\ Z.of_nat (size found.1) <= MAX_SESSION_OBJECTS).
Proof.
  unfold session_objects. eapply looks_bind; [apply looks_call|]. intros [] _.
  eapply looks_bind with (Q := fun names => exists n, names = listed n (elements (dom es))).
  { intros d <-. split; [done|]. eauto. }
  intros names [n ->]. assert (listed n (elements (dom es)) ≡ₚ elements (dom es)) as Hp by apply listed_all.
  eapply looks_weaken, (looks_collect_all es _ _ []).
  - intros found (H1 & H2 & H3 & H4). split_and!; [|done..]. apply set_eq. intros d.
    rewrite H1, elem_of_session_digests, app_nil_r, list_elem_of_In, <- in_rev, <- list_elem_of_In, Hp, elem_of_elements, elem_of_dom. done.
  - split_and!; [|done|by vm_compute|by vm_compute]. intros d. cbn. rewrite elem_of_empty, elem_of_nil. naive_solver.
  - rewrite app_nil_r. rewrite <- Permutation_rev, Hp. apply NoDup_elements.
Qed.

Lemma parsed_spec digests known :
  parsed_inventory digests = Ok known -> NoDup digests ->
  (forall d key, decode_lowercase_sha256_hex d = Some key -> is_Some (known !! key) <-> d ∈ digests) /\
  (forall key, is_Some (known !! key) -> exists d, decode_lowercase_sha256_hex d = Some key) /\
  size known = List.length digests /\ map_Forall (fun _ st => st = PUBLISHED) known.
Proof.
  intros (keys & Hk & H)%bind_Ok_inv Hn. injection H as <-. apply try_collect_Forall2 in Hk.
  assert (Forall2 (fun d key => decode_lowercase_sha256_hex d = Some key) digests keys) as Hf.
  { eapply Forall2_impl; [exact Hk|]. intros d key. apply parse_digest_Ok. }
  assert (NoDup keys) as Hnk.
  { clear Hk. induction Hf as [|d key digests keys Hd Hf IH]; [constructor|]. apply NoDup_cons in Hn as [Hn Hn'].
    constructor; [|by apply IH]. intros Hin. apply list_elem_of_lookup in Hin as [i Hi].
    destruct (Forall2_lookup_r _ _ _ _ _ Hf Hi) as (d' & Hd' & He). apply Hn.
    rewrite (digest_key_inj _ _ _ Hd He). by eapply list_elem_of_lookup_2. }
  assert ((map (fun key : list Z => (key, PUBLISHED)) keys).*1 = keys) as Hfst by (rewrite map_map; apply map_id).
  split_and!.
  - intros d key Hd. transitivity (key ∈ keys).
    + split.
      * intros [st Hst]. apply elem_of_list_to_map_2, list_elem_of_fmap in Hst as (? & [= <- _] & ?). done.
      * intros Hin. exists PUBLISHED. apply elem_of_list_to_map_1; [by rewrite Hfst|]. apply list_elem_of_fmap. by exists key.
    + split; intros [i Hi]%list_elem_of_lookup.
      * destruct (Forall2_lookup_r _ _ _ _ _ Hf Hi) as (d' & Hd' & He). rewrite (digest_key_inj _ _ _ Hd He).
        by eapply list_elem_of_lookup_2.
      * destruct (Forall2_lookup_l _ _ _ _ _ Hf Hi) as (key' & Hk' & He). rewrite Hd in He. injection He as <-.
        by eapply list_elem_of_lookup_2.
  - intros key [st Hst]. apply elem_of_list_to_map_2, list_elem_of_fmap in Hst as (key' & [= <- _] & Hin).
    apply list_elem_of_lookup in Hin as [i Hi]. destruct (Forall2_lookup_r _ _ _ _ _ Hf Hi) as (d & _ & He). eauto.
  - rewrite (Forall2_length _ _ _ Hf). clear -Hnk. induction Hnk as [|key keys Hin Hn IH]; [done|]. cbn [map list_to_map foldr].
    rewrite map_size_insert_None; [by rewrite IH|]. apply not_elem_of_list_to_map_1. rewrite map_map. by rewrite map_id.
  - intros key st Hst. apply elem_of_list_to_map_2, list_elem_of_fmap in Hst as (? & [= _ ->] & _). done.
Qed.

(** The preflight account of a writer that was just opened. *)
Definition fresh (w : SessionObjectWriter) : Prop :=
  preflight_accounted_bytes w = accounted_bytes w /\ preflight_object_count w = object_count w /\
  forall key, is_known w ViewPreflight key = is_known w ViewPublished key.

Lemma looks_open_writer es sessions :
  looks es (object_writer_open sessions sid) (fun w => accounts w es /\ within_limits w /\ fresh w).
Proof.
  unfold object_writer_open. eapply looks_bind; [apply looks_session_objects|]. intros [ds t] (H1 & H2 & H3 & H4).
  cbn [fst snd] in *. subst ds.
  eapply looks_bind; [apply looks_lift|].
  { unfold parsed_inventory. apply bind_no_panic; [|done]. apply try_collect_no_panic. intros d. unfold parse_session_object_digest.
    apply ok_or_no_panic. }
  intros known Hk. cbv beta in Hk.
  destruct (parsed_spec _ _ Hk (NoDup_set_iter _ _)) as (Hin & Hks & Hsize & Hall).
  eapply looks_bind; [apply looks_reject|]. intros [] Hcount. eapply looks_weaken, looks_ret. intros w <-.
  assert (Z.of_nat (size known) = Z.of_nat (size (session_digests sid es))) as Hsz.
  { rewrite Hsize. unfold set_iter. by rewrite (Permutation_length (sort_by_perm _ _)). }
  assert (forall key (m : gmap (list Z) SessionObjectState), map_Forall (fun _ st => st = PUBLISHED) m ->
    published (default object_state_default (m !! key)) = bool_decide (is_Some (m !! key))) as Hpub.
  { intros key m Hm. destruct (m !! key) as [st|] eqn:E; [|done]. rewrite (Hm _ _ E). by rewrite bool_decide_true. }
  split_and!.
  - split; cbn; [done| | |done|done].
    2: { intros key. rewrite is_known_published. cbn. rewrite Hpub, bool_decide_eq_true by done. apply Hks. }
    intros d key Hd. rewrite is_known_published. cbn. rewrite Hpub by done.
    rewrite bool_decide_eq_true, (Hin d key Hd). apply elem_of_set_iter.
  - split; cbn; lia.
  - split_and!; [done..|]. intros key. unfold is_known. cbn. destruct (known !! key) as [st|] eqn:E; [|done]. by rewrite (Hall _ _ E).
Qed.
End inventory.

(** * The life of a writer *)

Inductive ObjectOp : Type :=
| OpPersist (referenced : gset string) (batch : list ContextObject)
| OpPreflight (batch : list ContextObject).

Section claims.
Context {K : ObjectStorage} {KL : ObjectStorageLaws} {R : RuntimeEnv}.

(** A client that goes on after errors. *)
Definition object_op (op : ObjectOp) (s : ObjectStore) : ObjectStore :=
  match op with
  | OpPersist referenced batch => (persist_manifest_objects referenced batch s).1
  | OpPreflight batch => (preflight_objects batch s).1
  end.

(** C22: From the opening of the writer, through any sequence of persisted and dry-run
    batches, each of which may succeed, be refused or be cut short by a storage failure,
    the number of objects and the total of bytes that the writer accounts are exactly
    those of the session's objects in the directory, and both stay within the limits of a
    session. *)
Theorem inventory_exact sessions sid d d' w ops :
  is_valid_session_id sid = true ->
  object_writer_open sessions sid d = (d', Ok w) ->
  let s := fold_left (fun s op => object_op op s) ops (mkObjectStore w d') in
  let es := dir_entries (object_dir s) in
  object_count (object_writer s) = Z.of_nat (size (session_digests sid es)) /\
  accounted_bytes (object_writer s) = total_size (object_size sid es) (session_digests sid es) /\
  object_count (object_writer s) <= MAX_SESSION_OBJECTS /\
  accounted_bytes (object_writer s) <= MAX_SESSION_OBJECT_TOTAL_BYTES.
Proof.
  intros Hsid E.
  assert (inventoried sid (mkObjectStore w d')) as Hi.
  { pose proof (looks_open_writer sid Hsid (dir_entries d) sessions d eq_refl) as H. rewrite E in H.
    destruct H as (He & Ha & Hl & _). split; [|done]. cbn. by rewrite He. }
  cbv zeta. enough (inventoried sid (fold_left (fun s op => object_op op s) ops (mkObjectStore w d'))) as [Ha [Hl1 Hl2]].
  { split_and!; [apply Ha|apply Ha|done..]. }
  clear E d. revert Hi. generalize (mkObjectStore w d') as s. induction ops as [|op ops IH]; intros s Hi; [done|]. apply IH.
  destruct op as [referenced batch|batch]; cbn [object_op].
  - pose proof (persist_inventoried sid Hsid referenced batch s Hi) as H. by destruct (persist_manifest_objects _ _ s) as [s' []].
  - pose proof (preflight_inventoried sid batch s Hi) as H. by destruct (preflight_objects _ s) as [s' []].
Qed.
End claims.
