(* ===== verification/ObjectsPreflight.v ===== *)
(** What the dry run of the object writer promises: batches that pass it one after the other are
    stored, one after the other, when nothing fails.  The dry run and the run keep the same
    account. *)

From Stdlib Require Import ZArith Lia Ascii String.
From stdpp Require Import base strings sorting sets option gmap countable list.
From S2P Require Import Prelude Decimal Sorting Metadata Json FlowValue Event Lifecycle Errors EffectTheory.
From S2P Require Import Validate OwnScript Context ContextTheory Builder Planner Segments Appender AppenderTheory Lines.
From S2P Require Import Objects ObjectsTheory ObjectsProps ObjectsInventory.

Open Scope Z_scope.

(** Nothing fails. *)
Definition no_faults (K : ObjectStorage) : Prop :=
  forall n, check_fault n = None /\ call_fault n = None /\ metadata_fault n = None.

(** No temporary file is left over. *)
Definition tidy (es : gmap string DirEntry) : Prop := forall name, temp_name name -> es !! name = None.

(** Objects with the same digest have the same bytes. *)
Definition collision_free (batch : list ContextObject) : Prop :=
  forall o o', o ∈ batch -> o' ∈ batch -> object_digest o = object_digest o' -> object_bytes o = object_bytes o'.

Section returns.
Context {K : ObjectStorage} {KL : ObjectStorageLaws} {R : RuntimeEnv} (Hcalm : no_faults K).

(** From these entries, [m] returns a value. *)
Definition returns {A} (es : gmap string DirEntry) (m : eff ObjectDir A) : Prop :=
  forall d, at_entries es d -> exists a, (m d).2 = Ok a.

Lemma calm_check n : check_fault n = None.
Proof. apply Hcalm. Qed.

Lemma calm_call n : call_fault n = None.
Proof. apply Hcalm. Qed.

Lemma calm_metadata n : metadata_fault n = None.
Proof. apply Hcalm. Qed.

(** What [m] leaves comes from what is known of it. *)
Lemma returns_bind {A B} es (m : eff ObjectDir A) (f : A -> eff ObjectDir B) Q X :
  returns es m -> runs (at_entries es) m Q X -> (forall a d, Q a d -> exists b, (f a d).2 = Ok b) -> returns es (m ≫= f).
Proof.
  intros Hm Hq Hf d Hd. destruct (Hm d Hd) as [a Ha]. specialize (Hq d Hd). rewrite eff_bind_eq.
  destruct (m d) as [d' r]. cbn in Ha. subst r. by apply Hf.
Qed.

Lemma returns_look {A B} es (m : eff ObjectDir A) (f : A -> eff ObjectDir B) Q :
  returns es m -> looks es m Q -> (forall a, Q a -> returns es (f a)) -> returns es (m ≫= f).
Proof. intros Hm Hq Hf. eapply returns_bind; [done|exact Hq|]. intros a d [Hd Ha]. by apply Hf. Qed.

Lemma returns_ret {A} es (a : A) : returns es (mret a).
Proof. intros d _. by exists a. Qed.

Lemma returns_lift {A} es (r : result RuntimeError A) a : r = Ok a -> returns es (lift r).
Proof. intros -> d _. by exists a. Qed.

Lemma returns_call es change : returns es (dir_call change).
Proof. intros d _. unfold dir_call. rewrite calm_call. by exists tt. Qed.

Lemma returns_check es : returns es check.
Proof. intros d _. unfold check. rewrite calm_check. by exists tt. Qed.

Lemma returns_open es path file : es !! leaf path = Some (FileEntry file) -> returns es (open_anchored_file_for_read path).
Proof.
  intros Hf. eapply returns_look; [|apply looks_ensure|].
  { eapply returns_look; [|apply looks_metadata|].
    - intros d <-. unfold metadata. rewrite Hf, calm_metadata. by eexists.
    - intros e He. rewrite Hf in He. injection He as <-. by eapply returns_lift. }
  intros _ _. eapply returns_look; [|apply looks_open_entry|].
  { intros d <-. unfold open_entry. rewrite calm_call, Hf. by eexists. }
  intros file' _. eapply returns_look; [apply returns_check|apply looks_check|]. intros _ _. apply returns_ret.
Qed.

Lemma returns_read es path file max_bytes :
  es !! leaf path = Some (FileEntry file) -> slen (stored_bytes file) <= max_bytes -> max_bytes < u64_max ->
  returns es (read_anchored_file_with_limit path max_bytes).
Proof.
  intros Hf Hs Hm. pose proof (slen_nonneg (stored_bytes file)) as H0.
  eapply returns_look; [by eapply returns_open|apply looks_open|]. intros file' Hf'. rewrite Hf in Hf'. injection Hf' as <-.
  assert ((max_bytes <? slen (stored_bytes file)) = false) as Hl by lia.
  eapply returns_look; [|apply looks_reject|]; [by eapply returns_lift; rewrite Hl|]. intros _ _.
  eapply returns_look; [apply returns_call|apply looks_call|]. intros _ _.
  rewrite sat_u64_id by (unfold in_u64; lia). rewrite take_whole by lia. eapply returns_lift. by rewrite Hl.
Qed.

(** The object is not in the directory, or it is, with its bytes. *)
Definition faithful_to (sid : string) (es : gmap string DirEntry) (o : ContextObject) : Prop :=
  match es !! object_leaf sid (object_digest o) with
  | None => True
  | Some e => exists file, e = FileEntry file /\ stored_bytes file = object_bytes o
  end.

Lemma faithful_found sid es o e :
  faithful_to sid es o -> es !! object_leaf sid (object_digest o) = Some e ->
  exists file, es !! object_leaf sid (object_digest o) = Some (FileEntry file) /\ stored_bytes file = object_bytes o.
Proof. unfold faithful_to. intros H E. rewrite E in *. destruct H as (file & -> & Hb). eauto. Qed.

Lemma returns_verify es path o file :
  es !! leaf path = Some (FileEntry file) -> stored_bytes file = object_bytes o -> slen (object_bytes o) <= MAX_SESSION_OBJECT_BYTES ->
  returns es (verify_existing path o).
Proof.
  intros Hf Hb Hs. eapply returns_look; [eapply returns_read; [done|by rewrite Hb|by vm_compute]|apply looks_read; by vm_compute|].
  intros text (file' & Hf' & <- & _). rewrite Hf in Hf'. injection Hf' as <-. eapply returns_lift.
  by rewrite Hb, String.eqb_refl.
Qed.

Lemma returns_update es path o file :
  es !! leaf path = Some (FileEntry file) -> stored_bytes file = object_bytes o -> slen (object_bytes o) <= MAX_SESSION_OBJECT_BYTES ->
  returns es (verify_and_sync_existing path o).
Proof.
  intros Hf Hb Hs. pose proof (slen_nonneg (object_bytes o)) as H0. unfold MAX_SESSION_OBJECT_BYTES in Hs.
  eapply returns_look; [by eapply returns_open|apply looks_open|]. intros file' Hf'. rewrite Hf in Hf'. injection Hf' as <-.
  eapply returns_look; [apply returns_call|apply looks_call|]. intros _ _.
  rewrite sat_u64_id by (unfold in_u64, u64_max; lia). rewrite Hb, take_whole by lia.
  eapply returns_look; [|apply looks_reject|]; [by eapply returns_lift; rewrite String.eqb_refl|]. intros _ _. apply returns_call.
Qed.

Lemma returns_write es temp bytes : returns (<[temp := empty_temp]> es) (write_session_object temp bytes).
Proof.
  intros d Hd. unfold write_session_object, open_anchored_session_log_append_file, write_all_to, sync_file, dir_call.
  rewrite !eff_bind_eq. unfold open_entry. rewrite calm_call, Hd, lookup_insert_eq. cbn. unfold check. rewrite calm_check.
  rewrite eff_bind_eq, calm_call, calm_call. by exists tt.
Qed.

Lemma returns_create es path :
  tidy es -> returns es (create_anchored_replacement_temp path).
Proof.
  intros Ht d Hd. unfold create_anchored_replacement_temp. cbn [create_temp_from]. unfold create_new.
  rewrite calm_call, Hd, (Ht _ (temp_leaf_name _ _)). by eexists.
Qed.

Lemma returns_publish es path bytes :
  ~ temp_name (leaf path) -> tidy es -> es !! leaf path = None -> returns es (publish_object path bytes).
Proof.
  intros Hp Ht Hn. unfold publish_object, with_anchored_replacement_temp.
  eapply returns_bind; [by apply returns_create|apply create_runs|]. intros temp d ((attempt & Etemp) & Hfree & Hd).
  assert (temp_name temp) as Htemp by (rewrite Etemp; apply temp_leaf_name).
  enough (returns (<[temp := empty_temp]> es)
    (_ ← write_session_object temp bytes; _ ← ensure_anchored_new_leaf_available path; rename_to temp (leaf path))) as H.
  { destruct (H d Hd) as [a Ha]. unfold or_removed. destruct ((_ ← write_session_object _ _; _) d) as [d' r]. cbn in Ha. subst r. by exists a. }
  eapply returns_bind; [apply returns_write|apply temp_write_runs|]. intros [] d1 Hd1. unfold at_entries in Hd1.
  rewrite eff_bind_eq. unfold ensure_anchored_new_leaf_available, metadata. rewrite Hd1, lookup_insert_ne, Hn by (intros ->; done).
  cbn. unfold rename_to. rewrite calm_call. cbn. rewrite Hd1, lookup_insert_eq. by exists tt.
Qed.

Lemma returns_persist_path sid es path o :
  leaf path = object_leaf sid (object_digest o) -> ~ temp_name (leaf path) -> tidy es -> faithful_to sid es o ->
  slen (object_bytes o) <= MAX_SESSION_OBJECT_BYTES -> returns es (persist_path path o).
Proof.
  intros Hl Hp Ht Hf Hs d Hd. unfold persist_path, metadata. rewrite Hd.
  destruct (es !! leaf path) as [e|] eqn:E.
  - rewrite calm_metadata. rewrite Hl in E. destruct (faithful_found _ _ _ _ Hf E) as (file & Hfile & Hb).
    apply (returns_update es _ _ file); [by rewrite Hl|done..].
  - by apply (returns_publish es).
Qed.

Lemma returns_disposition sid es w key o :
  object_session_id w = sid -> faithful_to sid es o -> slen (object_bytes o) <= MAX_SESSION_OBJECT_BYTES ->
  (is_known w ViewPublished key = true -> is_Some (es !! object_leaf sid (object_digest o))) ->
  returns es (disposition_of w key o).
Proof.
  intros Hw Hf Hs Hk d Hd. unfold disposition_of, metadata, object_path. rewrite Hw. cbn [leaf object_in]. rewrite Hd.
  destruct (es !! object_leaf sid (object_digest o)) as [e|] eqn:E.
  - rewrite calm_metadata. destruct (faithful_found _ _ _ _ Hf E) as (file & Hfile & Hb).
    assert (returns es (_ ← verify_existing (object_in (object_parent w) sid (object_digest o)) o;
      mret (if published (default object_state_default (objects w !! key)) then ExistingPublished else ExistingUnpublished))) as H.
    { eapply returns_look; [by eapply returns_verify|apply looks_verify|]. intros _ _. apply returns_ret. }
    by apply H.
  - rewrite is_known_published in Hk. destruct (published _); [by destruct (Hk eq_refl)|]. by exists Absent.
Qed.
End returns.

(** * The passes of a run without faults *)

Section achieves.
Context {S : Type}.

(** From a state with [P], [m] returns and leaves [Q]. *)
Definition achieves {A} (P : S -> Prop) (m : eff S A) (Q : A -> S -> Prop) : Prop :=
  forall s, P s -> exists s' a, m s = (s', Ok a) /\ Q a s'.

Lemma achieves_bind {A B} P (m : eff S A) (f : A -> eff S B) Q Q' :
  achieves P m Q -> (forall a, achieves (Q a) (f a) Q') -> achieves P (m ≫= f) Q'.
Proof. intros Hm Hf s Hs. destruct (Hm s Hs) as (s1 & a & E & Ha). rewrite eff_bind_eq, E. by apply Hf. Qed.

Lemma achieves_ret {A} (P : S -> Prop) (a : A) (Q : A -> S -> Prop) : (forall s, P s -> Q a s) -> achieves P (mret a) Q.
Proof. intros H s Hs. exists s, a. auto. Qed.

Lemma achieves_weaken {A} (P P' : S -> Prop) (m : eff S A) (Q Q' : A -> S -> Prop) :
  (forall s, P' s -> P s) -> (forall a s, Q a s -> Q' a s) -> achieves P m Q -> achieves P' m Q'.
Proof. intros H1 H2 Hm s Hs. destruct (Hm s (H1 s Hs)) as (s' & a & E & Ha). eauto 10. Qed.
End achieves.

Section passes.
Context {K : ObjectStorage} {KL : ObjectStorageLaws} {R : RuntimeEnv} (Hcalm : no_faults K).
Context (sid : string) (Hsid : is_valid_session_id sid = true) (all : list ContextObject) (Hfree : collision_free all).

Abbreviation entries_of s := (dir_entries (object_dir s)).

(** The directory is as the batches need it. *)
Definition prepared (es : gmap string DirEntry) : Prop := tidy es /\ forall o, o ∈ all -> faithful_to sid es o.

Lemma settled_prepared es o es' :
  o ∈ all -> settles es (object_leaf sid (object_digest o)) (object_bytes o) es' -> prepared es -> prepared es'.
Proof.
  intros Ho (file & -> & Hb & _) [Ht Hf]. split.
  - intros name Hn. rewrite lookup_insert_ne; [by apply Ht|]. intros <-. by eapply object_not_temp.
  - intros o' Ho'. unfold faithful_to. destruct (decide (object_digest o' = object_digest o)) as [E|E].
    + rewrite E, lookup_insert_eq. exists file. split; [done|]. rewrite Hb. by apply Hfree.
    + rewrite lookup_insert_ne; [by apply Hf|]. intros E'. apply object_leaf_inj in E'. congruence.
Qed.

Context (bytes count : Z) (Hbytes : bytes <= MAX_SESSION_OBJECT_TOTAL_BYTES) (Hcount : count <= MAX_SESSION_OBJECTS).

(** The account is exact, the directory prepared, and the writer knows the objects [known]. *)
Definition on_course (l : list ValidatedObject) (known : list Z -> bool) (s : ObjectStore) : Prop :=
  exact sid bytes count l s /\ prepared (entries_of s) /\ forall key, is_known (object_writer s) ViewPublished key = known key.

Lemma on_dir_achieves {A} (P : ObjectStore -> Prop) (Q : A -> ObjectStore -> Prop) (m : SessionObjectWriter -> eff ObjectDir A) :
  (forall w, achieves (fun d => P (mkObjectStore w d)) (m w) (fun a d => Q a (mkObjectStore w d))) ->
  achieves P (on_dir m) Q.
Proof. intros H [w d] Hs. destruct (H w d Hs) as (d' & a & E & Ha). unfold on_dir. cbn. rewrite E. eauto. Qed.

Lemma existing_achieves l known v :
  good_object v -> validated_object v ∈ all -> disposition v <> ExistingUnpublished ->
  (disposition v <> Absent -> known (validated_digest v) = true) ->
  achieves (on_course l known) (persist_existing v) (fun _ => on_course l known).
Proof.
  intros Hv Hin Hd Hk. unfold persist_existing. destruct (disposition v); [by apply achieves_ret| |done].
  eapply achieves_bind with (Q := fun _ => on_course l known);
    [|intros []; rewrite bool_decide_false by done; by apply achieves_ret].
  apply on_dir_achieves. intros w d (He & Hr & Hkn). pose proof (acc_session _ _ _ (proj1 He)) as Hw. cbn in Hw, Hkn, Hr.
  assert (is_Some (dir_entries d !! object_leaf sid (object_digest (validated_object v)))) as [e Hfound].
  { apply (elem_of_session_digests sid (dir_entries d)), (acc_known _ _ _ (proj1 He) _ _ (good_key v Hv)). cbn. rewrite Hkn. by apply Hk. }
  destruct (faithful_found _ _ _ _ (proj2 Hr _ Hin) Hfound) as (file & Hfile & Hb). unfold object_path. rewrite Hw.
  destruct (returns_update Hcalm (dir_entries d) (object_in (object_parent w) sid (object_digest (validated_object v)))
    (validated_object v) file Hfile Hb (good_size v Hv) d eq_refl) as [[] Hok].
  pose proof (update_runs (dir_entries d) (object_in (object_parent w) sid (object_digest (validated_object v)))
    (validated_object v) (good_size v Hv) d eq_refl) as Hrun.
  destruct (verify_and_sync_existing _ _ d) as [d' r]. cbn in Hok. subst r. destruct Hrun as [Hset Hsome].
  exists d', tt. split; [done|]. split_and!; [|by eapply settled_prepared|done].
  eapply exact_same; [|exact He]. eapply settled_same; [exact Hset|exact Hsome].
Qed.

Lemma absent_achieves v l known :
  Forall good_object (v :: l) -> NoDup (map validated_digest (v :: l)) -> validated_object v ∈ all ->
  (disposition v <> Absent -> known (validated_digest v) = true) ->
  achieves (on_course (v :: l) known) (persist_absent v)
    (fun _ => on_course l (fun key => bool_decide (key = validated_digest v) || known key)).
Proof.
  intros Hg Hn Hin Hk. pose proof Hg as [Hv Hl]%Forall_cons. destruct (decide (disposition v = Absent)) as [Hd|Hd].
  - unfold persist_absent. rewrite Hd.
    eapply achieves_bind with (Q := fun _ s => exists es, exact sid bytes count (v :: l) (mkObjectStore (object_writer s) (mkObjectDir es 0)) /\
      settles es (object_leaf sid (object_digest (validated_object v))) (object_bytes (validated_object v)) (entries_of s) /\
      prepared (entries_of s) /\ forall key, is_known (object_writer s) ViewPublished key = known key).
    + apply on_dir_achieves. intros w d (He & Hr & Hkn). pose proof (acc_session _ _ _ (proj1 He)) as Hw. cbn in Hw, Hr.
      unfold object_path. rewrite Hw. set (path := object_in (object_parent w) sid (object_digest (validated_object v))).
      assert (~ temp_name (leaf path)) as Hp by (by apply object_not_temp).
      destruct (returns_persist_path Hcalm sid (dir_entries d) path (validated_object v) eq_refl Hp (proj1 Hr) (proj2 Hr _ Hin)
        (good_size v Hv) d eq_refl) as [[] Hok].
      pose proof (persist_path_runs (dir_entries d) path (validated_object v) Hp (good_size v Hv) d eq_refl) as Hrun.
      destruct (persist_path path _ d) as [d' r]. cbn in Hok. subst r. exists d', tt. split; [done|].
      exists (dir_entries d). split_and!; [done..|by eapply settled_prepared|done].
    + intros [] [w d] (es & He & Hs & Hr & Hkn). cbn in *. eexists _, tt. split; [done|]. split_and!; [by eapply publication_exact|done|].
      intros key. cbn. destruct (is_known w ViewPublished (validated_digest v)) eqn:E.
      * destruct (record_known _ (validated_bytes v) _ E) as (_ & _ & ->). rewrite Hkn. case_bool_decide; [|done]. subst key.
        by rewrite <- Hkn, E.
      * destruct (record_new _ (validated_bytes v) _ E) as (_ & _ & ->). by rewrite Hkn.
  - unfold persist_absent. specialize (Hk Hd).
    assert (forall s, on_course (v :: l) known s -> on_course l (fun key => bool_decide (key = validated_digest v) || known key) s) as Hskip.
    { intros s ((Ha & [H1 H2] & [_ Hf]%Forall_cons) & Hr & Hkn). split_and!; [|done|].
      - split_and!; [done| |done]. unfold comes_to, owed in *. cbn [foldr] in *. rewrite Hkn, Hk in H1, H2. lia.
      - intros key. rewrite Hkn. case_bool_decide; [|done]. by subst key. }
    destruct (disposition v); [done|by apply achieves_ret..].
Qed.

Lemma pass_achieves l known before :
  Forall good_object before -> Forall (fun v => validated_object v ∈ all) before ->
  Forall (fun v => disposition v <> ExistingUnpublished) before ->
  Forall (fun v => disposition v <> Absent -> known (validated_digest v) = true) before ->
  achieves (on_course l known) (each_object persist_existing before) (fun _ => on_course l known).
Proof.
  intros Hg. induction Hg as [|v before Hv Hg IH]; cbn [each_object]; [by intros; apply achieves_ret|].
  intros [? ?]%Forall_cons [? ?]%Forall_cons [? ?]%Forall_cons. eapply achieves_bind; [by apply existing_achieves|]. intros []. by apply IH.
Qed.

Lemma publish_achieves l known :
  Forall good_object l -> NoDup (map validated_digest l) -> Forall (fun v => validated_object v ∈ all) l ->
  Forall (fun v => disposition v <> Absent -> known (validated_digest v) = true) l ->
  achieves (on_course l known) (each_object persist_absent l)
    (fun _ => on_course [] (fun key => bool_decide (key ∈ map validated_digest l) || known key)).
Proof.
  intros Hg. revert known. induction l as [|v l IH]; intros known Hn Hin Hk; cbn [each_object].
  { apply achieves_ret. intros s (He & Hr & Hkn). split_and!; [done..|]. intros key. rewrite Hkn. by rewrite bool_decide_false by apply not_elem_of_nil. }
  pose proof Hin as [Hv Hin']%Forall_cons. pose proof Hk as [Hkv Hk']%Forall_cons. pose proof Hg as [_ Hg']%Forall_cons.
  eapply achieves_bind; [by apply absent_achieves|]. intros [].
  eapply achieves_weaken; [done| |apply IH].
  - intros [] s (He & Hr & Hkn). split_and!; [done..|]. intros key. rewrite Hkn. cbn [map].
    rewrite orb_assoc. f_equal. apply eq_true_iff_eq. rewrite orb_true_iff, !bool_decide_eq_true, elem_of_cons. tauto.
  - done.
  - cbn in Hn. by apply NoDup_cons in Hn as [_ ?].
  - done.
  - eapply Forall_impl; [exact Hk'|]. intros v' H Hd. by rewrite (H Hd), orb_true_r.
Qed.

Lemma named_prepared es : prepared es -> prepared (on_file named_durably <$> es).
Proof.
  intros [Ht Hf]. split.
  - intros name Hn. by rewrite lookup_fmap, Ht.
  - intros o Ho. specialize (Hf o Ho). unfold faithful_to in *. rewrite lookup_fmap. destruct (es !! _) as [e|]; cbn; [|done].
    destruct Hf as (file & -> & Hb). by exists (named_durably file).
Qed.

Lemma sync_achieves known : achieves (on_course [] known) (on_dir (fun _ => sync_entries)) (fun _ => on_course [] known).
Proof.
  apply on_dir_achieves. intros w d (He & Hr & Hkn). unfold sync_entries, check, dir_call.
  rewrite eff_bind_eq, (calm_check Hcalm), (calm_call Hcalm). eexists _, tt. split; [done|]. split_and!; [|by apply named_prepared|done].
  eapply exact_same; [|exact He]. apply named_same.
Qed.

Lemma batch_achieves l known :
  Forall good_object l -> NoDup (map validated_digest l) -> Forall (fun v => validated_object v ∈ all) l ->
  Forall (fun v => disposition v <> ExistingUnpublished) l ->
  Forall (fun v => disposition v <> Absent -> known (validated_digest v) = true) l ->
  achieves (on_course l known) (persist_validated_batch l)
    (fun _ => on_course [] (fun key => bool_decide (key ∈ map validated_digest l) || known key)).
Proof.
  intros Hg Hn Hin Hd Hk. unfold persist_validated_batch. eapply achieves_bind; [by apply pass_achieves|]. intros [].
  eapply achieves_bind; [by apply publish_achieves|]. intros []. destruct l; [by apply achieves_ret|apply sync_achieves].
Qed.
End passes.

(** * The dry run and the run *)

(** Batches one after the other, in a dry run and in a run. *)
Fixpoint preflight_batches {K : ObjectStorage} {R : RuntimeEnv} (batches : list (list ContextObject)) : eff ObjectStore unit :=
  match batches with
  | [] => mret tt
  | batch :: batches => _ ← preflight_objects batch; preflight_batches batches
  end.

Fixpoint persist_batches {K : ObjectStorage} {R : RuntimeEnv} (batches : list (list ContextObject)) : eff ObjectStore unit :=
  match batches with
  | [] => mret tt
  | batch :: batches => _ ← persist_manifest_objects (batch_digests batch) batch; persist_batches batches
  end.

Section dry_run.
Context {K : ObjectStorage} {KL : ObjectStorageLaws} {R : RuntimeEnv}.

Lemma preflight_inv batch s s' :
  preflight_objects batch s = (s', Ok tt) ->
  let w := object_writer s in
  dir_entries (object_dir s') = dir_entries (object_dir s) /\
  exists b, validated_batch batch (Z.max (preflight_accounted_bytes w) (accounted_bytes w))
              (Z.max (preflight_object_count w) (object_count w)) ViewPreflight w (dir_entries (object_dir s)) b /\
    object_writer s' = with_preflight_account w (batch_accounted_bytes b) (batch_object_count b)
                         (mark_preflight (batch_objects b) (objects w)).
Proof.
  intros (s1 & b & E1 & E2)%eff_bind_Ok w. destruct s as [w0 d]. unfold on_dir in E1. cbn in *.
  pose proof (looks_validate (dir_entries d) batch (Z.max (preflight_accounted_bytes w) (accounted_bytes w))
    (Z.max (preflight_object_count w) (object_count w)) ViewPreflight w d eq_refl) as H. subst w.
  destruct (validate_all_from _ _ _ _ _ d) as [d' r]. injection E1 as <- ->. destruct H as [Hd Hb].
  unfold on_object_writer in E2. injection E2 as <-. cbn. split; [done|]. by exists b.
Qed.

(** The account depends on what is known alone. *)
Lemma account_ext w view w' view' unique bytes count r :
  (forall key, is_known w view key = is_known w' view' key) ->
  account w view unique bytes count = Ok r -> account w' view' unique bytes count = Ok r.
Proof.
  intros Hk. revert bytes count. induction unique as [|[key [o n]] unique IH]; intros bytes count; cbn [account]; [done|].
  rewrite Hk. case_match; [apply IH|]. unfold ensure_session_object_count, ensure_session_object_total.
  repeat (case_match; cbn [mbind result_bind]; try done). apply IH.
Qed.

Lemma mark_known l known key :
  preflight (default object_state_default (mark_preflight l known !! key)) =
  bool_decide (key ∈ map validated_digest l) || preflight (default object_state_default (known !! key)).
Proof.
  unfold mark_preflight. revert known. induction l as [|v l IH]; intros known; cbn [fold_left map].
  { by rewrite bool_decide_false by apply not_elem_of_nil. }
  rewrite IH. destruct (decide (key = validated_digest v)) as [->|Hne].
  - rewrite lookup_insert_eq. cbn. rewrite orb_true_r, bool_decide_true by (by left). done.
  - rewrite lookup_insert_ne by done. f_equal. apply bool_decide_ext. rewrite elem_of_cons. naive_solver.
Qed.

Lemma is_known_preflight w key : is_known w ViewPreflight key = preflight (default object_state_default (objects w !! key)).
Proof. unfold is_known. by destruct (objects w !! key). Qed.

(** What a dry run saw in the directory. *)
Lemma batch_faithful batch bytes count view w es b o :
  validated_batch batch bytes count view w es b -> collision_free batch -> o ∈ batch -> faithful_to (object_session_id w) es o.
Proof.
  intros Hb Hf Ho. assert (object_digest o ∈ supplied_digests (batch_objects b)) as Hd.
  { rewrite (vb_digests _ _ _ _ _ _ _ Hb), elem_of_list_to_set, list_elem_of_fmap. by exists o. }
  unfold supplied_digests in Hd. rewrite elem_of_list_to_set, list_elem_of_fmap in Hd. destruct Hd as (v & Hd & Hv).
  pose proof (vb_disposed _ _ _ _ _ _ _ Hb) as Hdis. rewrite Forall_forall in Hdis. specialize (Hdis v Hv).
  assert (object_bytes (validated_object v) = object_bytes o) as Hbytes by (apply Hf; [by eapply vb_from|done..]).
  unfold disposed, object_path, faithful_to in *. cbn in Hdis. rewrite Hd, <- Hbytes.
  destruct (disposition v); [by destruct Hdis as [-> _]|..]; (destruct Hdis as [_ (file & -> & Hb')]; eauto).
Qed.

Lemma preflight_session batch s s' :
  preflight_objects batch s = (s', Ok tt) -> object_session_id (object_writer s') = object_session_id (object_writer s).
Proof. intros H. destruct (preflight_inv batch s s' H) as (_ & b & _ & ->). done. Qed.

Lemma batches_faithful batches s s' :
  preflight_batches batches s = (s', Ok tt) -> collision_free (concat batches) ->
  forall o, o ∈ concat batches -> faithful_to (object_session_id (object_writer s)) (dir_entries (object_dir s)) o.
Proof.
  revert s. induction batches as [|batch batches IH]; intros s E Hf o Ho; [by apply elem_of_nil in Ho|].
  apply eff_bind_Ok in E as (s1 & [] & E1 & E2). cbn [concat] in *. apply elem_of_app in Ho as [Ho|Ho].
  - destruct (preflight_inv batch s s1 E1) as (_ & b & Hb & _). eapply batch_faithful; [exact Hb| |done].
    intros a c Ha Hc. apply Hf; apply elem_of_app; by left.
  - pose proof (preflight_session _ _ _ E1) as Hs. destruct (preflight_inv batch s s1 E1) as (He & _). rewrite <- Hs, <- He.
    apply IH; [done| |done]. intros a c Ha Hc. apply Hf; apply elem_of_app; by right.
Qed.
End dry_run.

Section lockstep.
Context {K : ObjectStorage} {KL : ObjectStorageLaws} {R : RuntimeEnv} (Hcalm : no_faults K).
Context (sid : string) (Hsid : is_valid_session_id sid = true) (all : list ContextObject) (Hfree : collision_free all).

(** What the dry run [p] counts is what the run [q] has stored. *)
Record lockstep (p q : ObjectStore) : Prop := {
  ls_known : forall key, is_known (object_writer p) ViewPreflight key = is_known (object_writer q) ViewPublished key;
  ls_bytes : Z.max (preflight_accounted_bytes (object_writer p)) (accounted_bytes (object_writer p)) = accounted_bytes (object_writer q);
  ls_count : Z.max (preflight_object_count (object_writer p)) (object_count (object_writer p)) = object_count (object_writer q);
  ls_inventoried : inventoried sid q;
  ls_prepared : prepared sid all (dir_entries (object_dir q));
}.

Lemma returns_dispositions es w unique :
  Forall (fun e => returns es (disposition_of w e.1 e.2.1)) unique -> returns es (dispositions w unique).
Proof.
  induction 1 as [|[key [o n]] unique H _ IH]; cbn [dispositions]; [apply returns_ret|]. cbn in H.
  eapply returns_look; [done|apply (looks_disposition es w key o n)|]. intros found _.
  eapply returns_look; [done|apply looks_dispositions|]. intros l _. apply returns_ret.
Qed.

Lemma returns_validate es w u batch bytes count r :
  unique_objects batch ∅ = Ok u -> account w ViewPublished (map_iter digest_cmp u) bytes count = Ok r ->
  accounts sid w es -> prepared sid all es -> (forall o, o ∈ batch -> o ∈ all) ->
  returns es (validate_all_from batch bytes count ViewPublished w).
Proof.
  intros Hu Ha Hacc [_ Hf] Hin. destruct (unique_spec batch ∅ u Hu (map_Forall_empty _)) as (Hfits & _ & _ & Hfrom).
  eapply returns_look; [by eapply returns_lift|apply looks_lift, unique_safe|]. intros u' Hu'. rewrite Hu in Hu'. injection Hu' as <-.
  eapply returns_look; [by eapply returns_lift|apply looks_lift, account_safe|]. intros [b c] _.
  eapply returns_look; [|apply looks_dispositions|intros l _; apply returns_ret].
  apply returns_dispositions. rewrite Forall_forall. intros [key [o n]] He. apply elem_of_map_iter in He.
  destruct (Hfits _ _ He) as [Hv Hp]. cbn [fst snd] in Hv, Hp. apply validate_object_Ok in Hv as (Hn & Hs & _). apply parse_digest_Ok in Hp.
  assert (o ∈ all) as Ho.
  { destruct (Hfrom _ _ He) as [H0|H0]; [by rewrite lookup_empty in H0|by apply Hin]. }
  apply (returns_disposition Hcalm sid); [apply Hacc|by apply Hf|cbn; lia|].
  intros Hk. by apply (acc_known _ _ _ Hacc _ _ Hp), elem_of_session_digests in Hk as [_ ?].
Qed.

(** Validation in the run comes to the account of the dry run. *)
Lemma validate_lockstep p q batch bp :
  lockstep p q -> (forall o, o ∈ batch -> o ∈ all) ->
  validated_batch batch (Z.max (preflight_accounted_bytes (object_writer p)) (accounted_bytes (object_writer p)))
    (Z.max (preflight_object_count (object_writer p)) (object_count (object_writer p))) ViewPreflight (object_writer p)
    (dir_entries (object_dir p)) bp ->
  achieves (fun s => s = q) (on_dir (validate_all batch)) (fun b s =>
    object_writer s = object_writer q /\ dir_entries (object_dir s) = dir_entries (object_dir q) /\
    validated_batch batch (accounted_bytes (object_writer q)) (object_count (object_writer q)) ViewPublished (object_writer q)
      (dir_entries (object_dir q)) b /\
    batch_accounted_bytes b = batch_accounted_bytes bp /\ batch_object_count b = batch_object_count bp /\
    map validated_digest (batch_objects b) = map validated_digest (batch_objects bp)).
Proof.
  intros [Hk Hby Hc Hi Hr] Hin Hbp s ->. destruct (vb_unique _ _ _ _ _ _ _ Hbp) as (u & Hu & Hup).
  pose proof (vb_account _ _ _ _ _ _ _ Hbp) as Ha. rewrite Hby, Hc, Hup in Ha. eapply account_ext in Ha; [|exact Hk].
  destruct q as [w d]. cbn in *. unfold on_dir, validate_all. cbn.
  destruct (returns_validate (dir_entries d) w u batch _ _ _ Hu Ha (proj1 Hi) Hr Hin d eq_refl) as [b Hok].
  pose proof (looks_validate (dir_entries d) batch (accounted_bytes w) (object_count w) ViewPublished w d eq_refl) as Hl.
  destruct (validate_all_from _ _ _ _ _ d) as [d' r]. cbn in Hok. subst r. destruct Hl as [Hd Hb].
  eexists _, b. split; [done|]. cbn. destruct (vb_unique _ _ _ _ _ _ _ Hb) as (u' & Hu' & Hub). rewrite Hu in Hu'. injection Hu' as <-.
  pose proof (vb_account _ _ _ _ _ _ _ Hb) as Hb'. rewrite Hub, Ha in Hb'. injection Hb' as -> ->.
  assert (forall l, map validated_digest l = map fst (map entry_of l)) as Hkeys by (intros l; by rewrite map_map).
  split_and!; [done|exact Hd|done..|]. by rewrite !Hkeys, Hub, Hup.
Qed.

Lemma persist_lockstep p q batch bp :
  lockstep p q -> (forall o, o ∈ batch -> o ∈ all) ->
  validated_batch batch (Z.max (preflight_accounted_bytes (object_writer p)) (accounted_bytes (object_writer p)))
    (Z.max (preflight_object_count (object_writer p)) (object_count (object_writer p))) ViewPreflight (object_writer p)
    (dir_entries (object_dir p)) bp ->
  exists q', persist_manifest_objects (batch_digests batch) batch q = (q', Ok tt) /\
    on_course sid all (batch_accounted_bytes bp) (batch_object_count bp) []
      (fun key => bool_decide (key ∈ map validated_digest (batch_objects bp)) || is_known (object_writer q) ViewPublished key) q' /\
    batch_object_count bp <= MAX_SESSION_OBJECTS /\ batch_accounted_bytes bp <= MAX_SESSION_OBJECT_TOTAL_BYTES /\
    object_count (object_writer q) <= batch_object_count bp /\ accounted_bytes (object_writer q) <= batch_accounted_bytes bp.
Proof.
  intros Hls Hin Hbp. destruct (validate_lockstep p q batch bp Hls Hin Hbp q eq_refl) as (s & b & E & Hw & He & Hb & Hby & Hc & Hkeys).
  unfold persist_manifest_objects. rewrite eff_bind_eq, E. rewrite (vb_digests _ _ _ _ _ _ _ Hb). fold (batch_digests batch).
  rewrite Nat.eqb_refl, bool_decide_true by done. cbn [negb orb]. rewrite eff_bind_eq. unfold lift at 1.
  rewrite <- Hw, <- He in Hb. assert (inventoried sid s) as Hi by (unfold inventoried; rewrite Hw, He; apply Hls).
  destruct (validated_exact sid batch s b Hi Hb) as (Hex & H1 & H2 & H3 & H4).
  pose proof (no_unpublished sid _ _ _ (proj1 Hi) (vb_good _ _ _ _ _ _ _ Hb) (vb_disposed _ _ _ _ _ _ _ Hb)) as Hno.
  destruct (batch_achieves Hcalm sid Hsid all Hfree _ _ H2 H1 (batch_objects b) (is_known (object_writer s) ViewPublished)
    (vb_good _ _ _ _ _ _ _ Hb) (vb_keys _ _ _ _ _ _ _ Hb)) with (s := s) as (q' & [] & E' & Hoc).
  - rewrite Forall_forall. intros v Hv. by apply Hin, (vb_from _ _ _ _ _ _ _ Hb).
  - done.
  - apply Hex.
  - split_and!; [done| |done]. rewrite He. apply Hls.
  - exists q'. rewrite <- Hw, <- Hby, <- Hc, <- Hkeys. by split_and!.
Qed.
End lockstep.

Section claims.
Context {K : ObjectStorage} {KL : ObjectStorageLaws} {R : RuntimeEnv}.

Lemma batches_lockstep {K' : ObjectStorage} {KL' : ObjectStorageLaws (K := K')} sid all batches p p' q :
  no_faults K -> is_valid_session_id sid = true -> collision_free all -> (forall o, o ∈ concat batches -> o ∈ all) ->
  lockstep sid all p q -> preflight_batches (K := K') batches p = (p', Ok tt) ->
  exists q', persist_batches (K := K) batches q = (q', Ok tt).
Proof.
  intros Hcalm Hsid Hfree. revert p q. induction batches as [|batch batches IH]; intros p q Hin Hls E; [by eexists|].
  apply eff_bind_Ok in E as (p1 & [] & E1 & E2). destruct (preflight_inv batch p p1 E1) as (He & bp & Hbp & Hw).
  cbn [concat] in Hin.
  destruct (persist_lockstep (K := K) Hcalm sid Hsid all Hfree p q batch bp Hls) as (q1 & Eq & (Hex & Hr & Hkn) & H1 & H2 & H3 & H4);
    [intros o Ho; apply Hin, elem_of_app; by left|done|].
  cbn [persist_batches]. rewrite eff_bind_eq, Eq. apply (IH p1 q1); [intros o Ho; apply Hin, elem_of_app; by right| |done].
  pose proof (ls_bytes _ _ _ _ Hls). pose proof (ls_count _ _ _ _ Hls).
  pose proof (exact_inventoried sid _ _ H2 H1 [] q1 (Forall_nil_2 _) Hex) as Hi. destruct Hex as (_ & [Hc Hb] & _).
  unfold owed in Hc, Hb. cbn [foldr] in Hc, Hb. split; [|rewrite Hw; cbn; lia..|done|done].
  intros key. rewrite Hkn, Hw, is_known_preflight. cbn. rewrite mark_known. f_equal.
  rewrite <- is_known_preflight. apply (ls_known _ _ _ _ Hls).
Qed.

(** Two writers of the same objects know the same. *)
Lemma accounts_agree sid w w' es key :
  accounts sid w es -> accounts sid w' es -> is_known w ViewPublished key = is_known w' ViewPublished key.
Proof.
  intros H H'. apply eq_true_iff_eq. split; intros Hk.
  - destruct (acc_keys _ _ _ H key Hk) as [d Hd]. by apply (acc_known _ _ _ H' d key Hd), (acc_known _ _ _ H d key Hd).
  - destruct (acc_keys _ _ _ H' key Hk) as [d Hd]. by apply (acc_known _ _ _ H d key Hd), (acc_known _ _ _ H' d key Hd).
Qed.

(** C23: The dry run of the object writer is decisive: when a sequence of batches passes
    it, then a run over the same directory in which no request fails persists every one
    of these batches, provided no temporary file of an earlier run is in the way and the
    digests of the batches do not collide. *)
Theorem preflight_persists (K' : ObjectStorage) (KL' : ObjectStorageLaws (K := K')) sessions sid d dry_dir run_dir dry run batches s :
  no_faults K -> is_valid_session_id sid = true ->
  tidy (dir_entries d) -> collision_free (concat batches) ->
  object_writer_open (K := K') sessions sid d = (dry_dir, Ok dry) ->
  preflight_batches (K := K') batches (mkObjectStore dry dry_dir) = (s, Ok tt) ->
  object_writer_open (K := K) sessions sid d = (run_dir, Ok run) ->
  exists s', persist_batches (K := K) batches (mkObjectStore run run_dir) = (s', Ok tt).
Proof.
  intros Hcalm Hsid Ht Hfree Ed Ep Er.
  pose proof (looks_open_writer (K := K') sid Hsid (dir_entries d) sessions d eq_refl) as H. rewrite Ed in H.
  pose proof (looks_open_writer (K := K) sid Hsid (dir_entries d) sessions d eq_refl) as H'. rewrite Er in H'.
  destruct H as (He & Ha & _ & Hf1 & Hf2 & Hf3), H' as (He' & Ha' & Hl' & _). unfold at_entries in He, He'.
  eapply (batches_lockstep (K' := K') sid (concat batches)); [done..| |exact Ep]. split; cbn.
  - intros key. rewrite Hf3. by eapply accounts_agree.
  - rewrite Hf1, Z.max_id, (acc_bytes _ _ _ Ha), (acc_bytes _ _ _ Ha'). done.
  - rewrite Hf2, Z.max_id, (acc_count _ _ _ Ha), (acc_count _ _ _ Ha'). done.
  - split; [|done]. cbn. by rewrite He'.
  - split; [by rewrite He'|]. rewrite He', <- He, <- (acc_session _ _ _ Ha). apply (batches_faithful (K := K') batches _ _ Ep Hfree).
Qed.
End claims.
