(* ===== verification/Manifests.v ===== *)
(** The context manifests of a session ([flow-agent-core/src/runtime/context_persistence/manifest.rs],
    [context_persistence/inspection.rs], [ContextManifestPreflight::open] of
    [event_writer/resume.rs]).

    A manifest is one line of a segmented stream and names, by their digests, the objects the turn
    was compiled from.  The writer validates the line, checks that the stream is as it left it,
    stores the objects, and only then appends the line.  The inspection reads the stream back and
    verifies every object it names.

    The stream is in the logs directory and the objects in the sessions directory: each has a disk
    and a storage of its own. *)

From Stdlib Require Import ZArith Lia Ascii String.
From stdpp Require Import base strings sorting sets option gmap countable list.
From S2P Require Import Prelude Decimal Sorting Metadata Json FlowValue Event Lifecycle Errors.
From S2P Require Import Validate OwnScript Context Builder Planner Segments Appender Lines Writer Resume Objects.

Open Scope Z_scope.

(** * Records ([context.rs]) *)

Record ContextManifestCacheBoundary : Type := mkBoundary {
  after_source_id : string;
  byte_offset : Z;
}.

Record ContextManifestOmissionCounts : Type := mkOmissionRecord {
  omitted_checkpoint : Z;
  omitted_current_incomplete_turn : Z;
  omitted_recent_complete_interaction : Z;
  omitted_referenced_projection : Z;
  omitted_tier_2 : Z;
  omitted_tier_3 : Z;
}.

Record ContextManifestRecord : Type := mkManifestRecord {
  cache_boundaries : list ContextManifestCacheBoundary;
  record_context_hash : string;
  context_profile_id : string;
  context_profile_version : string;
  estimated_input_tokens : Z;
  estimator_id : string;
  estimator_version : string;
  model_context_limit : Z;
  model_profile_id : string;
  omitted_source_counts : ContextManifestOmissionCounts;
  ordered_sources : list ContextManifestSourceRecord;
  record_output_reserve : Z;
  runtime_version : string;
  record_safety_margin : Z;
}.

Definition OPERATOR_MODEL_PROFILE_ID : string := "operator-model-v0".

(** [serde_json] and [std]: parsing a value, the derived form of a manifest, and the texts of
    their errors and of a [Utf8Error]. *)
Class ManifestEnv : Type := {
  value_from_str : string -> result string Value;
  manifest_from_value : Value -> result string ContextManifestRecord;
  utf8_error_text : string -> string;
}.

(** What the code relies on: parsing returns. *)
Class ManifestLaws {E : ManifestEnv} : Prop := {
  value_parsed : forall s, value_from_str s <> Panic;
  manifest_parsed : forall v, manifest_from_value v <> Panic;
}.

(** * Lines *)

Section lines.
Context {J : JsonEnv} {R : RuntimeEnv} {E : ManifestEnv}.

Definition not_one_record : RuntimeError := Protocol "context manifest must be one LF-terminated JSONL record".

Fixpoint validate_manifest_sources (path : AnchoredFile) (sources : list ContextManifestSourceRecord)
    : result RuntimeError unit :=
  match sources with
  | [] => Ok tt
  | source :: sources =>
      digest ← map_err (fun _ => Protocol (diagnostic_path path +:+ " context manifest object_uri is invalid"))
        (parse_session_object_uri (object_uri source));
      reject negb (String.eqb (projection_hash source) digest)
        with Protocol "context manifest projection_hash does not match object_uri" ;;
      validate_manifest_sources path sources
  end.

Definition validate_context_manifest_line (path : AnchoredFile) (line : string) : result RuntimeError ContextManifestRecord :=
  body ← ok_or (strip_suffix_char lf line) not_one_record;
  value ← map_err (fun error => Protocol (diagnostic_path path +:+ " invalid context manifest JSON: " +:+ error))
    (value_from_str body);
  manifest ← map_err (fun error => Protocol (diagnostic_path path +:+ " invalid context manifest record: " +:+ error))
    (manifest_from_value value);
  reject negb (String.eqb (context_profile_id manifest) CONTEXT_PROFILE_ID)
      || negb (String.eqb (context_profile_version manifest) CONTEXT_PROFILE_VERSION)
      || negb (String.eqb (model_profile_id manifest) STUB_MODEL_PROFILE_ID
               || String.eqb (model_profile_id manifest) OPERATOR_MODEL_PROFILE_ID)
    with Protocol (diagnostic_path path +:+ " context profile does not match the recorded M1 compiler") ;;
  canonical ← map_err (fun error => Protocol (diagnostic_path path +:+ " context manifest is not canonicalizable: "
                                     +:+ canonical_error_text error)) (canonical_json value);
  reject negb (String.eqb (canonical +:+ String lf "") line)
    with Protocol (diagnostic_path path +:+ " context manifest is not canonical JSONL") ;;
  _ ← validate_manifest_sources path (ordered_sources manifest);
  Ok manifest.

Definition context_manifest_object_digests (manifest : ContextManifestRecord) : gset string :=
  list_to_set (map projection_hash (ordered_sources manifest)).

(** What the inventory keeps of the lines: the last one, their number and their signature. *)
Definition visit_manifest (path : AnchoredFile) (line : string) (seen : option string * Z * RuntimeStreamSignatureBuilder)
    : result RuntimeError (option string * Z * RuntimeStreamSignatureBuilder) :=
  let '(_, count, signature) := seen in
  _ ← validate_context_manifest_line path line;
  Ok (Some line, sat_u64 (count + 1), signature_push signature line).

Definition context_manifest_inventory {K : Storage} (path : AnchoredFile)
    : eff Disk (option string * Z * Z * RuntimeStreamSignatureBuilder) :=
  '(seen, bytes) ← for_each_segmented_jsonl_line (visit_manifest path) utf8_error_text path CONTEXT_MANIFEST_STREAM_LIMITS
    (None, 0, signature_new CONTEXT_PLAN_DOMAIN);
  let '(last, count, signature) := seen in
  mret (last, count, bytes, signature).
End lines.

(** * The writer *)

(** The writer and its two disks; without an object writer the objects are another's concern. *)
Record ContextManifestWriter {R : RuntimeEnv} : Type := mkManifestWriter {
  manifest_stream : Stream;
  manifest_byte_count : Z;
  last_manifest : option string;
  manifest_count : Z;
  manifest_signature : RuntimeStreamSignatureBuilder;
  manifest_objects : option ObjectStore;
}.

Arguments mkManifestWriter {_} _ _ _ _ _ _.

Section writer.
Context {J : JsonEnv} {R : RuntimeEnv} {E : ManifestEnv} {K : Storage} {KO : ObjectStorage}.

Definition on_stream {A} (m : eff Stream A) : eff ContextManifestWriter A :=
  fun w => let '(s, r) := m (manifest_stream w) in
    (mkManifestWriter s (manifest_byte_count w) (last_manifest w) (manifest_count w) (manifest_signature w) (manifest_objects w), r).

(** [if let Some(object_writer) = self.object_writer.as_mut()] *)
Definition on_objects (m : eff ObjectStore unit) : eff ContextManifestWriter unit :=
  fun w =>
    match manifest_objects w with
    | None => (w, Ok tt)
    | Some objects =>
        let '(objects, r) := m objects in
        (mkManifestWriter (manifest_stream w) (manifest_byte_count w) (last_manifest w) (manifest_count w)
           (manifest_signature w) (Some objects), r)
    end.

Definition record_manifest (line : string) (total ordinal : Z) : eff ContextManifestWriter unit :=
  fun w => (mkManifestWriter (manifest_stream w) total (Some line) ordinal (signature_push (manifest_signature w) line)
              (manifest_objects w), Ok tt).

Definition changed_outside_manifest (path : AnchoredFile) : RuntimeError :=
  Protocol (diagnostic_path path +:+ " changed outside context manifest append semantics").

(** The stream is as the writer left it. *)
Definition verify_manifest_stream (path : AnchoredFile) : eff ContextManifestWriter unit :=
  actual ← on_stream stream_len;
  _ ← reads (fun w => reject negb (actual =? manifest_byte_count w) with changed_outside_manifest path ;; Ok tt);
  '(_, _, observed_bytes, observed_signature) ← on_stream (on_disk (fun _ => context_manifest_inventory path));
  reads (fun w =>
    reject negb (observed_bytes =? manifest_byte_count w)
        || negb (bool_decide (signature observed_signature = signature (manifest_signature w)))
      with changed_outside_manifest path ;;
    Ok tt).

(** [ContextManifestWriter::open_with_object_writer], [open] and [open_for_session]; [watch] tells
    whether the inventory watch could be set up. *)
Definition open_with_object_writer (path : AnchoredFile) (watch : bool) (objects : option ObjectStore) (d : Disk)
    : result RuntimeError ContextManifestWriter :=
  let '(d, r) := context_manifest_inventory path d in
  '(last, count, bytes, signature) ← r;
  let '(d, r) := open_with_limits path CONTEXT_MANIFEST_STREAM_LIMITS watch d in
  a ← r;
  Ok (mkManifestWriter (mkStream a d) bytes last count signature objects).

Definition open_for_session (path : AnchoredFile) (watch : bool) (sessions session_id : string) (d : Disk) (od : ObjectDir)
    : result RuntimeError ContextManifestWriter :=
  let '(od, r) := object_writer_open sessions session_id od in
  w ← r;
  open_with_object_writer path watch (Some (mkObjectStore w od)) d.

(** [ContextManifestWriter::persist] *)
Definition persist_manifest (path : AnchoredFile) (checkpoint : ContextManifestCheckpoint) : eff ContextManifestWriter unit :=
  let line := manifest_line (checkpoint_manifest checkpoint) in
  replay ← reads (fun w => validate_context_manifest_checkpoint path (manifest_count w) (last_manifest w) checkpoint);
  manifest ← lift (validate_context_manifest_line path line);
  total ← reads (fun w =>
    if (replay : bool) then Ok (manifest_byte_count w)
    else ensure_context_manifest_growth_within_limit (manifest_byte_count w) (slen line));
  _ ← verify_manifest_stream path;
  _ ← on_objects (persist_manifest_objects (context_manifest_object_digests manifest) (checkpoint_objects checkpoint));
  if (replay : bool) then on_stream sync
  else
    _ ← on_stream (append line);
    _ ← on_stream sync;
    record_manifest line total (checkpoint_ordinal checkpoint).

(** What the event writer asks for, on the stream [path]. *)
Definition session_manifest_store (path : AnchoredFile) : ManifestStore ContextManifestWriter := {|
  persist := persist_manifest path;
|}.
End writer.

(** * The dry run ([event_writer/resume.rs]) *)

(** [SessionObjectWriter::preflight_all] as the dry run uses it. *)
#[export] Instance session_object_preflight {K : ObjectStorage} {R : RuntimeEnv} : ObjectPreflight ObjectStore := {|
  preflight_all batch s :=
    match preflight_objects batch s with
    | (s, Ok _) => Ok s
    | (_, Err error) => Err error
    | (_, Panic) => Panic
    end;
|}.

Definition context_preflight_open {J : JsonEnv} {R : RuntimeEnv} {E : ManifestEnv} {K : Storage} {KO : ObjectStorage}
    (path : AnchoredFile) (sessions session_id : string) (od : ObjectDir) : eff Disk (ContextManifestPreflight ObjectStore) :=
  '(last, count, _, _) ← context_manifest_inventory path;
  let '(od, opened) := object_writer_open sessions session_id od in
  w ← lift opened;
  stream ← stream_preflight_open path CONTEXT_MANIFEST_STREAM_LIMITS;
  mret (mkContextPreflight last count (mkObjectStore w od) stream).

(** * Inspection *)

Section inspection.
Context {J : JsonEnv} {R : RuntimeEnv} {E : ManifestEnv} {K : Storage} {KO : ObjectStorage}.

(** The objects verified so far and their bytes. *)
Record Verified : Type := mkVerified {
  verified_digests : gset string;
  verified_bytes : Z;
}.

Definition unavailable (path : AnchoredFile) (text : string) : RuntimeError :=
  Protocol (diagnostic_path path +:+ " referenced context object is unavailable: " +:+ text).

(** [map_err] of a read; the text is that of the error. *)
Definition or_unavailable {A} (error_text : RuntimeError -> string) (path : AnchoredFile) (m : eff ObjectDir A) : eff ObjectDir A :=
  fun d => let '(d, r) := m d in (d, map_err (fun error => unavailable path (error_text error)) r).

Context (error_text : RuntimeError -> string).

Fixpoint verify_context_manifest_sources (sessions session_id : string) (sources : list ContextManifestSourceRecord)
    (verified : Verified) : eff ObjectDir Verified :=
  match sources with
  | [] => mret verified
  | source :: sources =>
      let digest := projection_hash source in
      if bool_decide (digest ∈ verified_digests verified)
      then verify_context_manifest_sources sessions session_id sources verified
      else
        _ ← lift (ensure_session_object_count sessions (sat_u64 (Z.of_nat (size (verified_digests verified)) + 1)));
        let path := object_in sessions session_id digest in
        bytes ← or_unavailable error_text path (read_anchored_file_with_limit path MAX_SESSION_OBJECT_BYTES);
        let total := sat_u64 (verified_bytes verified + slen bytes) in
        _ ← lift (ensure_session_object_total total);
        _ ← lift (reject negb (String.eqb (sha256_hex bytes) digest)
                    with Protocol (diagnostic_path path +:+ " referenced context object hash does not match") ;;
                  Ok tt);
        verify_context_manifest_sources sessions session_id sources (mkVerified ({[digest]} ∪ verified_digests verified) total)
  end.

(** The error of a line, with its number in place of the path. *)
Definition line_error (path : AnchoredFile) (line_number : Z) (error : RuntimeError) : RuntimeError :=
  let detail :=
    match error with
    | Protocol message => default message (strip_prefix (diagnostic_path path +:+ " ") message)
    | other => error_text other
    end in
  Protocol (diagnostic_path path +:+ " line " +:+ Z_to_string line_number +:+ ": " +:+ detail).

(** The state of the inspection: the signature, the number of lines, the verified objects, and the
    sessions directory, which the visitor reads. *)
Record Inspection : Type := mkInspection {
  recorded : RuntimeStreamSignatureBuilder;
  line_number : Z;
  inspected : Verified;
  inspected_dir : ObjectDir;
}.

Definition inspect_manifest_line (path : AnchoredFile) (sessions session_id line : string) (s : Inspection) : result RuntimeError Inspection :=
  let number := sat_u64 (line_number s + 1) in
  reject negb (ends_with_char lf line)
    with Protocol (diagnostic_path path +:+ " context manifest stream must end with LF") ;;
  manifest ← map_err (line_error path number) (validate_context_manifest_line path line);
  let '(od, r) := verify_context_manifest_sources sessions session_id (ordered_sources manifest) (inspected s) (inspected_dir s) in
  verified ← r;
  Ok (mkInspection (signature_push (recorded s) line) number verified od).

(** [ensure_anchored_real_file] on the stream. *)
Definition ensure_stream (path : AnchoredFile) : eff Disk unit :=
  fun d =>
    match guard d with
    | (d, Err (Io NotFound)) => (d, Err (Protocol (diagnostic_path path +:+ " context manifest stream is missing")))
    | outcome => outcome
    end.

(** [path] is [contexts_in(logs, session_id)]. *)
Definition read_anchored_context_manifest_signature (path : AnchoredFile) (sessions session_id : string) (completed_turns : Z)
    (od : ObjectDir) : eff Disk RuntimeStreamSignature :=
  _ ← ensure_stream path;
  '(s, _) ← for_each_segmented_jsonl_line (inspect_manifest_line path sessions session_id) utf8_error_text path
    CONTEXT_MANIFEST_STREAM_LIMITS (mkInspection (signature_new CONTEXT_PLAN_DOMAIN) 0 (mkVerified ∅ 0) od);
  let found := signature (recorded s) in
  lift (reject (sig_record_count found <? completed_turns) || (sat_u64 (completed_turns + 1) <? sig_record_count found)
          with Protocol (diagnostic_path path +:+ " context manifests do not match deterministic replay") ;;
        Ok found).
End inspection.
