(* ===== verification/ManifestsTheory.v ===== *)
(** Theorems on the context manifests: no byte of a manifest is written before every object it
    names is stored and durable, whatever fails and wherever; a stream that passes inspection
    names only objects that are stored with the right bytes, and what the writer stored passes
    it. *)

From Stdlib Require Import ZArith Lia Ascii String.
From stdpp Require Import base strings sorting sets option gmap countable list.
From S2P Require Import Prelude Decimal Sorting Metadata Json FlowValue Event Lifecycle Errors EffectTheory NoPanic.
From S2P Require Import Validate OwnScript Context ContextTheory Builder Planner Segments SegmentsTheory.
From S2P Require Import Appender AppenderTheory AppenderProps Lines LinesTheory Writer WriterTheory Resume.
From S2P Require Import Objects ObjectsTheory ObjectsProps ObjectsInventory ObjectsPreflight Manifests.

Open Scope Z_scope.

(** * Reading changes nothing *)

Section reading.
Context {K : Storage} {V : Type} (visit : string -> V -> result RuntimeError V) (utf8_text : string -> string).
Context (Hvisit : forall line v, visit line v <> Panic).

Lemma files_safe base lim d : segmented_jsonl_files (D := directory_at base d) base lim <> Panic.
Proof.
  assert (forall f, ensure_anchored_real_file (Directory := directory_at base d) f <> Panic) as Hreal by (intros f; cbn; by case_bool_decide).
  assert (forall k l files, contiguous_files (D := directory_at base d) base k l files <> Panic) as Hcont.
  { intros k l. revert k. induction l as [|[o f] l IH]; intros k files; cbn [contiguous_files]; [done|]. case_match; [done|].
    apply bind_no_panic; [apply Hreal|]. intros _ _. apply IH. }
  apply bind_no_panic; [apply Hreal|]. intros _ _. apply bind_no_panic; [|intros found _; by repeat case_match].
  apply for_each_safe. intros [k f|f] s; cbn; by repeat case_match.
Qed.

Lemma quiet_scan_files base lim : quiet (scan_files base lim).
Proof. apply quiet_next. intros d. apply files_safe. Qed.

Lemma quiet_contents f : quiet (reads (fun d => Ok (contents_of d f))).
Proof. by intros fs nm d Hd. Qed.

Lemma visit_line_safe path max_bytes required line total v : visit_line visit utf8_text path max_bytes required line total v <> Panic.
Proof. unfold visit_line. by repeat (case_match; [done|]). Qed.

Lemma quiet_reader_loop fuel path max_bytes required rest total v :
  (String.length rest < fuel)%nat -> quiet (reader_loop visit utf8_text fuel path max_bytes required rest total v).
Proof.
  revert rest total v. induction fuel as [|fuel IH]; intros rest total v Hl; [lia|]. cbn [reader_loop].
  apply quiet_bind; [apply quiet_or_io, quiet_file_call|]. intros _. destruct (read_until lf rest) as [line rest'] eqn:E.
  destruct (Z.eqb_spec (slen line) 0) as [|Hne]; [apply quiet_lift; by case_match|].
  apply quiet_bind; [apply quiet_lift, visit_line_safe|]. intros v'. apply IH.
  apply read_until_app in E as ->. rewrite length_app_string in Hl. unfold slen in Hne. lia.
Qed.

Lemma quiet_for_each base lim v : quiet (for_each_segmented_jsonl_line visit utf8_text base lim v).
Proof.
  unfold for_each_segmented_jsonl_line. apply quiet_bind; [apply quiet_scan_files|]. intros segments.
  generalize (List.length segments) as n. generalize 0 as total. generalize O as index. revert v.
  induction segments as [|segment segments IH]; intros v index total n; cbn [read_segments]; [apply quiet_ret|].
  apply quiet_bind; [|intros [v' bytes]; apply IH]. unfold for_each_anchored_file_line_with_limit.
  apply quiet_bind; [apply quiet_guard|]. intros _. apply quiet_bind; [apply quiet_or_io, quiet_file_len|]. intros bytes.
  apply quiet_bind; [apply quiet_lift; by case_match|]. intros _. apply quiet_bind; [apply quiet_contents|]. intros text.
  apply quiet_reader_loop. lia.
Qed.
End reading.

(** * Lines *)

Section lines.
Context {J : JsonEnv} {R : RuntimeEnv} {E : ManifestEnv} {EL : ManifestLaws}.

Lemma sources_safe path sources : validate_manifest_sources path sources <> Panic.
Proof.
  induction sources as [|source sources IH]; cbn [validate_manifest_sources]; [done|].
  apply bind_no_panic; [apply map_err_no_panic|intros digest _; by case_match].
  unfold parse_session_object_uri, validate_digest. apply bind_no_panic; [apply ok_or_no_panic|]. intros digest _.
  by destruct (decode_lowercase_sha256_hex digest).
Qed.

Lemma manifest_line_safe path line : validate_context_manifest_line path line <> Panic.
Proof.
  unfold validate_context_manifest_line. apply bind_no_panic; [apply ok_or_no_panic|]. intros body _.
  apply bind_no_panic; [apply map_err_no_panic, value_parsed|]. intros value _.
  apply bind_no_panic; [apply map_err_no_panic, manifest_parsed|]. intros manifest _. case_match; [done|].
  apply bind_no_panic; [apply map_err_no_panic, canonical_json_no_panic|]. intros canonical _. case_match; [done|].
  apply bind_no_panic; [apply sources_safe|done].
Qed.

Lemma quiet_inventory {K : Storage} path : quiet (context_manifest_inventory path).
Proof.
  unfold context_manifest_inventory. apply quiet_bind.
  - apply quiet_for_each. intros line [[last count] sig]. cbn. apply bind_no_panic; [apply manifest_line_safe|done].
  - intros [[[last count] sig] bytes]. apply quiet_ret.
Qed.
End lines.

(** * The writer *)

Section writer.
Context {J : JsonEnv} {R : RuntimeEnv} {E : ManifestEnv} {EL : ManifestLaws} {K : Storage}.
Context {KO : ObjectStorage} {KL : ObjectStorageLaws} (path : AnchoredFile) (sid : string) (Hsid : is_valid_session_id sid = true).

(** The line is a manifest, and the objects it names are stored and survive a crash. *)
Definition refers (es : gmap string DirEntry) (line : string) : Prop :=
  exists manifest, validate_context_manifest_line path line = Ok manifest /\
    forall digest, digest ∈ context_manifest_object_digests manifest -> durable_object sid es digest.

Lemma refers_leaves es es' line : leaves sid es es' -> refers es line -> refers es' line.
Proof. intros Hg (manifest & Hm & Hd). exists manifest. split; [done|]. intros digest Hin. eapply durable_leaves; eauto. Qed.

Lemma grows_leaves es es' : grows sid es es' -> leaves sid es es'.
Proof. intros Hg. exists es', ""%string. split; [done|by left]. Qed.

(** The objects of the session since [es0]; with [line], those it names are there. *)
Definition kept_since (es0 : gmap string DirEntry) (objects : option ObjectStore) : Prop :=
  exists s, objects = Some s /\ object_session_id (object_writer s) = sid /\ grows sid es0 (dir_entries (object_dir s)).

(** The same after an error, with a temporary file left at most. *)
Definition left_since (es0 : gmap string DirEntry) (objects : option ObjectStore) : Prop :=
  exists s, objects = Some s /\ object_session_id (object_writer s) = sid /\ leaves sid es0 (dir_entries (object_dir s)).

Definition kept_for (es0 : gmap string DirEntry) (line : string) (objects : option ObjectStore) : Prop :=
  exists s, objects = Some s /\ object_session_id (object_writer s) = sid /\ grows sid es0 (dir_entries (object_dir s)) /\
    refers (dir_entries (object_dir s)) line.

Lemma kept_left es0 objects : kept_since es0 objects -> left_since es0 objects.
Proof. intros (s & ? & ? & ?). exists s. split_and!; [done..|by apply grows_leaves]. Qed.

Lemma kept_for_left es0 line objects : kept_for es0 line objects -> left_since es0 objects.
Proof. intros (s & ? & ? & ? & _). apply kept_left. by exists s. Qed.

(** The stream, the objects and the number of manifests of a writer. *)
Definition writer_with (P : Stream -> Prop) (F : option ObjectStore -> Prop) (count : Z) (w : ContextManifestWriter) : Prop :=
  P (manifest_stream w) /\ F (manifest_objects w) /\ manifest_count w = count.

(** What is left when storing [line] fails: the records, and bytes of the line only behind its
    objects. *)
Definition interrupted (es0 : gmap string DirEntry) (records : list string) (line : string) (w : ContextManifestWriter) : Prop :=
  stream_bytes (disk (manifest_stream w)) = concat_bytes records /\ left_since es0 (manifest_objects w) \/
  (exists k, stream_bytes (disk (manifest_stream w)) = concat_bytes records +:+ str_take k line) /\
  kept_for es0 line (manifest_objects w).

Lemma unwritten es0 records line count w : writer_with (stream_holds records) (kept_since es0) count w -> interrupted es0 records line w.
Proof. intros (H1 & H2 & _). left. split; [by apply stream_holds_bytes|by apply kept_left]. Qed.

Lemma on_stream_runs {A} (m : eff Stream A) P Q X F count :
  runs P m Q X -> runs (writer_with P F count) (on_stream m) (fun a => writer_with (Q a) F count) (writer_with X F count).
Proof.
  intros Hm w (Hp & Hf & Hc). specialize (Hm _ Hp). unfold on_stream. destruct (m (manifest_stream w)) as [s [a|e|]]; by try split.
Qed.

Lemma quiet_holds {A} (m : SessionLogAppender -> eff Disk A) records :
  (forall a, quiet (m a)) -> runs (stream_holds records) (on_disk m) (fun _ => stream_holds records) (stream_holds records).
Proof.
  intros Hm s (groups & current & (a & full & cur & extra & nm & [Ha Hd] & L) & Hr).
  pose proof (on_disk_quiet m a _ _ Hm s (conj Ha Hd)) as H.
  destruct (on_disk m s) as [s' [v|e|]]; [| |done]; (exists groups, current; split; [|done]; by exists a, full, cur, extra, nm).
Qed.

Lemma stream_len_runs records : runs (stream_holds records) stream_len (fun _ => stream_holds records) (stream_holds records).
Proof. unfold stream_len. eapply runs_bind; [apply quiet_holds, quiet_verify|]. intros ?. by apply runs_reads. Qed.

Section one_manifest.
Context (es0 : gmap string DirEntry) (records : list string) (count : Z).

Abbreviation before := (writer_with (stream_holds records) (kept_since es0) count).

Lemma verify_stream_runs : runs before (verify_manifest_stream path) (fun _ => before) before.
Proof.
  unfold verify_manifest_stream. eapply runs_bind; [apply on_stream_runs, stream_len_runs|]. intros actual.
  eapply runs_bind with (Q := fun _ => before); [apply runs_reads; intros w Hw; by destruct (negb _)|].
  intros _. eapply runs_bind; [apply on_stream_runs, quiet_holds; intros a; apply quiet_inventory|].
  intros [[[last counted] bytes] sig]. apply runs_reads. intros w Hw. by destruct (_ || _).
Qed.

Lemma objects_runs line manifest batch :
  validate_context_manifest_line path line = Ok manifest ->
  runs before (on_objects (persist_manifest_objects (context_manifest_object_digests manifest) batch))
    (fun _ => writer_with (stream_holds records) (kept_for es0 line) count) (interrupted es0 records line).
Proof.
  intros Hm w (Hs & (s & Ho & Hw & Hg) & Hc). unfold on_objects. rewrite Ho.
  pose proof (persist_runs sid Hsid es0 (context_manifest_object_digests manifest) batch s) as H.
  destruct (persist_manifest_objects _ _ s) as [s' [[]|e|]]; [| |by apply H; split_and!].
  - destruct H as ((Hw' & Hg' & _) & _ & Hd); [by split_and!|]. split_and!; [done| |done]. exists s'. split_and!; [done..|]. by exists manifest.
  - destruct H as (Hw' & Hg'); [by split_and!|]. left. split; [by apply stream_holds_bytes|]. by exists s'.
Qed.

Lemma append_manifest_runs line total ordinal :
  runs (writer_with (stream_holds records) (kept_for es0 line) count)
    (_ ← on_stream (append line); _ ← on_stream sync; record_manifest line total ordinal)
    (fun _ => writer_with (fun s => stream_holds (records ++ [line]) s /\ durable_log (disk s) = concat_bytes (records ++ [line]))
       (kept_for es0 line) ordinal) (interrupted es0 records line).
Proof.
  eapply runs_bind; [eapply runs_err, on_stream_runs, append_runs; intros w (? & ? & _); by right|]. intros [].
  eapply runs_bind; [eapply runs_err, on_stream_runs, sync_runs|].
  - intros w (Hs & Hf & _). right. split; [|done]. exists (String.length line). rewrite str_take_all by lia.
    rewrite (stream_holds_bytes _ _ Hs), concat_bytes_app. cbn. by rewrite app_string_nil_r.
  - intros [] w (Hs & Hf & _). split; [exact Hs|by split].
Qed.
End one_manifest.

(** The records after a checkpoint and the number of manifests; a replay appends nothing. *)
Definition records_after (records : list string) (count : Z) (checkpoint : ContextManifestCheckpoint) : list string :=
  if checkpoint_ordinal checkpoint =? count then records else records ++ [manifest_line (checkpoint_manifest checkpoint)].

Lemma checkpoint_replay count last checkpoint replay :
  validate_context_manifest_checkpoint path count last checkpoint = Ok replay -> replay = (checkpoint_ordinal checkpoint =? count).
Proof. unfold validate_context_manifest_checkpoint. repeat (destruct (_ || _) || destruct (_ && _)); try done. by intros [= <-]. Qed.

Lemma checkpoint_safe count last checkpoint : validate_context_manifest_checkpoint path count last checkpoint <> Panic.
Proof. unfold validate_context_manifest_checkpoint. by repeat (destruct (_ || _) || destruct (_ && _)). Qed.

Lemma persist_manifest_runs es0 records count checkpoint :
  let line := manifest_line (checkpoint_manifest checkpoint) in
  let records' := records_after records count checkpoint in
  runs (writer_with (stream_holds records) (kept_since es0) count) (persist_manifest path checkpoint)
    (fun _ => writer_with (fun s => stream_holds records' s /\ durable_log (disk s) = concat_bytes records')
       (kept_for es0 line) (checkpoint_ordinal checkpoint)) (interrupted es0 records line).
Proof.
  intros line records'. set (P := writer_with (stream_holds records) (kept_since es0) count).
  assert (forall w, P w -> interrupted es0 records line w) as Hx by (intros w; apply unwritten).
  unfold persist_manifest. fold line. eapply runs_bind with (Q := fun replay w => replay = (checkpoint_ordinal checkpoint =? count) /\ P w).
  { apply runs_reads. intros w Hw. destruct (validate_context_manifest_checkpoint _ _ _ _) as [replay|e|] eqn:Ev; [|by apply Hx|by apply checkpoint_safe in Ev].
    apply checkpoint_replay in Ev. destruct Hw as (? & ? & Hc). rewrite Hc in Ev. by split_and!. }
  intros replay. apply runs_pure. intros Hreplay.
  eapply runs_bind with (Q := fun manifest w => validate_context_manifest_line path line = Ok manifest /\ P w).
  { apply runs_lift; [apply manifest_line_safe|by intros|done]. }
  intros manifest. apply runs_pure. intros Hm. eapply runs_bind with (Q := fun _ => P).
  { apply runs_reads. intros w Hw. destruct replay; [done|]. unfold ensure_context_manifest_growth_within_limit.
    destruct (_ <? _); [by apply Hx|exact Hw]. }
  intros total. eapply runs_bind; [eapply runs_err, verify_stream_runs; exact Hx|]. intros [].
  eapply runs_bind; [by apply objects_runs|]. intros [].
  unfold records', records_after. rewrite <- Hreplay. destruct replay; [|apply append_manifest_runs].
  symmetry in Hreplay. apply Z.eqb_eq in Hreplay as ->.
  eapply runs_weaken; [| | |apply on_stream_runs, sync_runs]; [done|done|].
  intros w (Hs & Hf & _). left. split; [by apply stream_holds_bytes|by eapply kept_for_left].
Qed.

(** ** A session of manifests, up to the first error *)

Fixpoint persist_manifests (checkpoints : list ContextManifestCheckpoint) : eff ContextManifestWriter unit :=
  match checkpoints with
  | [] => mret tt
  | checkpoint :: checkpoints => _ ← persist_manifest path checkpoint; persist_manifests checkpoints
  end.

(** The records after the checkpoints. *)
Fixpoint records_after_all (records : list string) (count : Z) (checkpoints : list ContextManifestCheckpoint) : list string :=
  match checkpoints with
  | [] => records
  | checkpoint :: checkpoints =>
      records_after_all (records_after records count checkpoint) (checkpoint_ordinal checkpoint) checkpoints
  end.

(** The stream holds lines that refer to durable objects. *)
Definition referring (lines : list string) (w : ContextManifestWriter) : Prop :=
  stream_holds lines (manifest_stream w) /\
  exists s, manifest_objects w = Some s /\ object_session_id (object_writer s) = sid /\
    Forall (refers (dir_entries (object_dir s))) lines.

(** After an error: such lines and, if [k] is not 0, a part of one more. *)
Definition stopped_short (w : ContextManifestWriter) : Prop :=
  exists lines line k s, stream_bytes (disk (manifest_stream w)) = concat_bytes lines +:+ str_take k line /\
    manifest_objects w = Some s /\ object_session_id (object_writer s) = sid /\
    Forall (refers (dir_entries (object_dir s))) lines /\ (k = O \/ refers (dir_entries (object_dir s)) line).

Lemma refers_all es es' lines : leaves sid es es' -> Forall (refers es) lines -> Forall (refers es') lines.
Proof. intros Hg H. eapply Forall_impl; [exact H|]. intros line. by apply refers_leaves. Qed.

Lemma interrupted_stopped es0 lines line w : Forall (refers es0) lines -> interrupted es0 lines line w -> stopped_short w.
Proof.
  intros Hl [[Hs (s & Ho & Hw & Hg)]|[[k Hs] (s & Ho & Hw & Hg & Hr)]].
  - exists lines, line, O, s. split_and!; [by rewrite app_string_nil_r|done|done|by eapply refers_all|by left].
  - exists lines, line, k, s. split_and!; [done..|by eapply refers_all, Hl; apply grows_leaves|by right].
Qed.

Lemma persist_referring lines count checkpoint :
  runs (fun w => referring lines w /\ manifest_count w = count) (persist_manifest path checkpoint)
    (fun _ w => referring (records_after lines count checkpoint) w /\ manifest_count w = checkpoint_ordinal checkpoint) stopped_short.
Proof.
  intros w [[Hs (s & Ho & Hw & Hl)] Hc].
  pose proof (persist_manifest_runs (dir_entries (object_dir s)) lines count checkpoint w) as H.
  assert (writer_with (stream_holds lines) (kept_since (dir_entries (object_dir s))) count w) as Hpre.
  { split_and!; [done| |done]. exists s. split_and!; [done..|apply grows_refl]. }
  specialize (H Hpre). destruct (persist_manifest path checkpoint w) as [w' [[]|e|]]; [|by eapply interrupted_stopped|done].
  destruct H as ([Hs' _] & (s' & Ho' & Hw' & Hg & Hr) & Hc'). split; [|done]. split; [done|]. exists s'. split_and!; [done..|].
  apply grows_leaves in Hg. unfold records_after. destruct (_ =? _); [by eapply refers_all|]. apply Forall_app. split; [by eapply refers_all|by constructor].
Qed.

(** C15: A context manifest is never stored before the objects it refers to.  Starting
    from a stream whose lines all refer to durable objects, storing a sequence of
    checkpoints either succeeds, and the stream then holds exactly the expected lines,
    all of whose objects are durable, or it stops with an error, and the stream holds
    lines whose objects are all durable, followed by at most a part of one more such
    line.  It never panics. *)
Theorem manifests_after_objects checkpoints lines w w' r :
  referring lines w -> persist_manifests checkpoints w = (w', r) ->
  match r with
  | Ok _ => referring (records_after_all lines (manifest_count w) checkpoints) w'
  | Err _ => stopped_short w'
  | Panic => False
  end.
Proof.
  intros Hw H. assert (forall count lines,
    runs (fun w => referring lines w /\ manifest_count w = count) (persist_manifests checkpoints)
      (fun _ => referring (records_after_all lines count checkpoints)) stopped_short) as Hruns.
  { clear H Hw lines. induction checkpoints as [|checkpoint checkpoints IH]; intros count lines; cbn [persist_manifests records_after_all].
    - apply runs_ret. by intros s [? _].
    - eapply runs_bind; [apply persist_referring|]. intros []. apply IH. }
  specialize (Hruns (manifest_count w) lines w (conj Hw eq_refl)). by rewrite H in Hruns.
Qed.
End writer.

Section sources.
Context {K : ObjectStorage} {KL : ObjectStorageLaws} {R : RuntimeEnv} (error_text : RuntimeError -> string).
Context (sessions sid : string).

(** The object with this digest can be read back. *)
Definition available (es : gmap string DirEntry) (digest : string) : Prop :=
  exists file, es !! object_leaf sid digest = Some (FileEntry file) /\
    sha256_hex (stored_bytes file) = digest /\ slen (stored_bytes file) <= MAX_SESSION_OBJECT_BYTES.

(** What the inspection has verified, and its account. *)
Definition verified_ok (es : gmap string DirEntry) (v : Verified) : Prop :=
  (forall digest, digest ∈ verified_digests v -> available es digest) /\
  verified_bytes v = total_size (object_size sid es) (verified_digests v) /\
  verified_bytes v <= MAX_SESSION_OBJECT_TOTAL_BYTES.

Lemma looks_or_unavailable {A} es path (m : eff ObjectDir A) Q : looks es m Q -> looks es (or_unavailable error_text path m) Q.
Proof. intros Hm d Hd. specialize (Hm d Hd). unfold or_unavailable. by destruct (m d) as [d' []]. Qed.

Lemma available_size es digest file :
  es !! object_leaf sid digest = Some (FileEntry file) -> object_size sid es digest = slen (stored_bytes file).
Proof. intros H. unfold object_size. by rewrite H. Qed.

Lemma looks_sources es sources v :
  verified_ok es v ->
  looks es (verify_context_manifest_sources error_text sessions sid sources v) (fun v' =>
    verified_ok es v' /\ verified_digests v ⊆ verified_digests v' /\
    forall source, source ∈ sources -> projection_hash source ∈ verified_digests v').
Proof.
  revert v. induction sources as [|source sources IH]; intros v Hv; cbn [verify_context_manifest_sources].
  { eapply looks_weaken, looks_ret. intros v' <-. split_and!; [done..|by intros ? ?%elem_of_nil]. }
  case_bool_decide as Hin.
  { eapply looks_weaken; [|by apply IH]. intros v' (H1 & H2 & H3). split_and!; [done..|].
    intros s [->|Hs]%elem_of_cons; [by apply H2|by apply H3]. }
  eapply looks_bind; [apply looks_reject|]. intros [] Hcount.
  eapply looks_bind; [apply looks_or_unavailable, looks_read; by vm_compute|]. intros bytes (file & Hf & <- & Hs).
  eapply looks_bind; [apply looks_reject|]. intros [] Htotal.
  eapply looks_bind; [apply looks_reject|]. intros [] Hhash. apply negb_false_iff, String.eqb_eq in Hhash.
  cbn [leaf object_in] in Hf. destruct Hv as (Hav & Hb & Hmax). pose proof (slen_nonneg (stored_bytes file)).
  assert (0 <= verified_bytes v) by (rewrite Hb; apply total_size_nonneg, object_size_nonneg).
  assert (MAX_SESSION_OBJECT_TOTAL_BYTES < u64_max - MAX_SESSION_OBJECT_BYTES) by (by vm_compute).
  rewrite sat_u64_id in Htotal |- * by (unfold in_u64; lia).
  eapply looks_weaken; [|apply IH].
  - intros v' (H3 & H4 & H5). cbn in H4. split_and!; [done|set_solver|].
    intros s [->|Hs']%elem_of_cons; [apply H4; set_solver|by apply H5].
  - split_and!; cbn; [|by rewrite total_size_add, (available_size _ _ _ Hf), Hb by done; lia|lia].
    intros digest [->%elem_of_singleton|Hd]%elem_of_union; [|by apply Hav]. by exists file.
Qed.

(** ** Completeness *)

Lemma total_size_split f X Y : X ⊆ Y -> total_size f Y = total_size f X + total_size f (Y ∖ X).
Proof.
  intros H. unfold total_size. assert (elements Y ≡ₚ elements X ++ elements (Y ∖ X)) as Hp.
  { rewrite <- elements_disj_union by set_solver. by rewrite <- union_difference_L. }
  rewrite (sum_perm _ (map f (elements X ++ elements (Y ∖ X)))) by (by apply Permutation_map). rewrite map_app. clear.
  induction (map f (elements X)) as [|n l IH]; cbn; [done|]. lia.
Qed.

Lemma total_size_subset f X Y : (forall d, 0 <= f d) -> X ⊆ Y -> total_size f X <= total_size f Y.
Proof. intros Hf H. rewrite (total_size_split f X Y H). pose proof (total_size_nonneg f (Y ∖ X) Hf). lia. Qed.

Lemma returns_sources es sources v w :
  no_faults K -> accounts sid w es -> within_limits w -> verified_ok es v -> verified_digests v ⊆ session_digests sid es ->
  Forall (fun source => is_sha256_hex (projection_hash source) = true /\ available es (projection_hash source)) sources ->
  returns es (verify_context_manifest_sources error_text sessions sid sources v).
Proof.
  intros Hcalm Ha Hl. revert v. induction sources as [|source sources IH]; intros v Hv Hsub Hs; cbn [verify_context_manifest_sources].
  { apply returns_ret. }
  apply Forall_cons in Hs as [[Hhex (file & Hf & Hh & Hsize)] Hs]. case_bool_decide as Hin; [by apply IH|].
  assert (projection_hash source ∈ session_digests sid es) as Hd by (apply elem_of_session_digests; by rewrite Hf).
  set (V := {[projection_hash source]} ∪ verified_digests v).
  assert (V ⊆ session_digests sid es) as HV by set_solver.
  assert (Z.of_nat (size (verified_digests v)) + 1 <= MAX_SESSION_OBJECTS) as Hcount.
  { pose proof (subseteq_size _ _ HV) as Hsz. unfold V in Hsz. rewrite size_union, size_singleton in Hsz by set_solver.
    destruct Hl as [Hl _]. rewrite (acc_count _ _ _ Ha) in Hl. lia. }
  assert (total_size (object_size sid es) V <= MAX_SESSION_OBJECT_TOTAL_BYTES) as Htot.
  { destruct Hl as [_ Hl]. rewrite (acc_bytes _ _ _ Ha) in Hl. etrans; [apply total_size_subset; [apply object_size_nonneg|exact HV]|done]. }
  unfold V in Htot. rewrite total_size_add, (available_size _ _ _ Hf) in Htot by done. destruct Hv as (Hav & Hb & Hmax).
  rewrite <- Hb in Htot. pose proof (slen_nonneg (stored_bytes file)).
  assert (0 <= verified_bytes v) by (rewrite Hb; apply total_size_nonneg, object_size_nonneg).
  assert (MAX_SESSION_OBJECT_TOTAL_BYTES < u64_max) by (by vm_compute). assert (MAX_SESSION_OBJECTS < u64_max) by (by vm_compute).
  rewrite (sat_u64_id (Z.of_nat _ + 1)) by (unfold in_u64; lia).
  eapply returns_look; [|apply looks_reject|].
  { eapply returns_lift. unfold ensure_session_object_count. destruct (Z.ltb_spec MAX_SESSION_OBJECTS (Z.of_nat (size (verified_digests v)) + 1)); [lia|done]. }
  intros _ _. eapply returns_look; [|apply looks_or_unavailable, looks_read; by vm_compute|].
  { intros d Hd'. destruct (returns_read Hcalm es (object_in sessions sid (projection_hash source)) file MAX_SESSION_OBJECT_BYTES Hf Hsize
      ltac:(by vm_compute) d Hd') as [text Ht]. unfold or_unavailable.
    destruct (read_anchored_file_with_limit _ _ d) as [d' r]. cbn in Ht. subst r. by exists text. }
  intros text (file' & Hf' & <- & _). cbn [leaf object_in] in Hf'. rewrite Hf in Hf'. injection Hf' as <-.
  rewrite (sat_u64_id (_ + slen _)) by (unfold in_u64; lia).
  eapply returns_look; [|apply looks_reject|].
  { eapply returns_lift. unfold ensure_session_object_total. destruct (Z.ltb_spec MAX_SESSION_OBJECT_TOTAL_BYTES (verified_bytes v + slen (stored_bytes file))); [lia|done]. }
  intros _ _. eapply returns_look; [|apply looks_reject|]; [eapply returns_lift; by rewrite Hh, String.eqb_refl|].
  intros _ _. subst V. apply IH; [|done|done]. split_and!; cbn; [| |lia].
  - intros digest [->%elem_of_singleton|Hd']%elem_of_union; [|by apply Hav]. by exists file.
  - rewrite total_size_add, (available_size _ _ _ Hf), Hb by done. lia.
Qed.
End sources.

(** * Lines *)

Section inspection.
Context {J : JsonEnv} {R : RuntimeEnv} {RL : RuntimeLaws} {E : ManifestEnv} {EL : ManifestLaws}.
Context {KO : ObjectStorage} {KL : ObjectStorageLaws}.
Context (error_text : RuntimeError -> string) (path : AnchoredFile) (sessions sid : string).

Definition sign (lines : list string) : RuntimeStreamSignatureBuilder :=
  fold_left signature_push lines (signature_new CONTEXT_PLAN_DOMAIN).

(** The line is a manifest, and the objects it names can be read back. *)
Definition backed (es : gmap string DirEntry) (line : string) : Prop :=
  exists manifest, validate_context_manifest_line path line = Ok manifest /\
    forall digest, digest ∈ context_manifest_object_digests manifest -> available sid es digest.

Lemma elem_of_digests manifest digest :
  digest ∈ context_manifest_object_digests manifest <-> exists source, digest = projection_hash source /\ source ∈ ordered_sources manifest.
Proof. unfold context_manifest_object_digests. by rewrite elem_of_list_to_set, list_elem_of_fmap. Qed.

(** The state of the inspection after [lines]. *)
Record inspected_lines (es : gmap string DirEntry) (lines : list string) (s : Inspection) : Prop := {
  il_recorded : recorded s = sign lines;
  il_dir : dir_entries (inspected_dir s) = es;
  il_verified : verified_ok sid es (inspected s);
}.

Lemma inspect_line_sound es lines line s s' :
  inspected_lines es lines s -> inspect_manifest_line error_text path sessions sid line s = Ok s' ->
  inspected_lines es (lines ++ [line]) s' /\ backed es line /\ verified_digests (inspected s) ⊆ verified_digests (inspected s').
Proof.
  intros [Hr Hd Hv]. unfold inspect_manifest_line. destruct (negb _); [done|]. intros (manifest & Hm & H)%bind_Ok_inv.
  destruct (validate_context_manifest_line path line) as [m|e|] eqn:Ev; try done. injection Hm as ->.
  pose proof (looks_sources error_text sessions sid es (ordered_sources manifest) (inspected s) Hv (inspected_dir s) Hd) as Hl.
  destruct (verify_context_manifest_sources _ _ _ _ _ _) as [od r]. apply bind_Ok_inv in H as (v & -> & H). injection H as <-.
  destruct Hl as [Hod (Hv' & Hsub & Hall)]. split_and!; [|exists manifest; split; [done|]|done].
  - split; [|done..]. cbn. rewrite Hr. unfold sign. by rewrite fold_left_app.
  - intros digest (source & -> & Hs)%elem_of_digests. by apply Hv', Hall.
Qed.

Lemma inspect_all_sound es lines line_list s s' :
  inspected_lines es lines s -> visit_all (inspect_manifest_line error_text path sessions sid) line_list s = Ok s' ->
  inspected_lines es (lines ++ line_list) s' /\ Forall (backed es) line_list.
Proof.
  revert lines s. induction line_list as [|line l IH]; intros lines s Hs; cbn [visit_all].
  { intros [= <-]. rewrite app_nil_r. by split. }
  intros (s1 & H1 & H2)%bind_Ok_inv. destruct (inspect_line_sound _ _ _ _ _ Hs H1) as (Hs1 & Hb & _).
  destruct (IH _ _ Hs1 H2) as [Hs' Hl]. rewrite <- app_assoc in Hs'. split; [done|]. by constructor.
Qed.

Lemma fresh_inspection od : inspected_lines (dir_entries od) [] (mkInspection (signature_new CONTEXT_PLAN_DOMAIN) 0 (mkVerified ∅ 0) od).
Proof. split; [done..|]. split_and!; [by intros ? ?%elem_of_empty|done|by vm_compute]. Qed.

(** ** Completeness *)

Lemma sources_hex sources :
  validate_manifest_sources path sources = Ok tt -> Forall (fun source => is_sha256_hex (projection_hash source) = true) sources.
Proof.
  induction sources as [|source sources IH]; cbn [validate_manifest_sources]; [done|]. intros (digest & Hd & H)%bind_Ok_inv.
  destruct (parse_session_object_uri (object_uri source)) as [x| |] eqn:Eu; try done. injection Hd as ->.
  destruct (String.eqb_spec (projection_hash source) digest); [|done]. cbn [negb] in H. constructor; [|by apply IH].
  subst digest. by apply parse_session_object_uri_Ok in Eu as [_ ?].
Qed.

Lemma manifest_hex line manifest :
  validate_context_manifest_line path line = Ok manifest ->
  Forall (fun source => is_sha256_hex (projection_hash source) = true) (ordered_sources manifest).
Proof.
  intros (body & _ & H)%bind_Ok_inv. apply bind_Ok_inv in H as (value & _ & H). apply bind_Ok_inv in H as (m & _ & H).
  destruct (_ || _); [done|]. apply bind_Ok_inv in H as (canonical & _ & H). destruct (negb _); [done|].
  apply bind_Ok_inv in H as ([] & H & Hm). injection Hm as ->. by apply sources_hex.
Qed.

Lemma inspect_all_complete es lines w s :
  no_faults KO -> accounts sid w es -> within_limits w ->
  Forall (fun line => backed es line /\ ends_with_char lf line = true) lines ->
  dir_entries (inspected_dir s) = es -> verified_ok sid es (inspected s) -> verified_digests (inspected s) ⊆ session_digests sid es ->
  exists s', visit_all (inspect_manifest_line error_text path sessions sid) lines s = Ok s'.
Proof.
  intros Hcalm Ha Hl Hlines. revert s. induction Hlines as [|line lines [(manifest & Hm & Hav) Hlf] _ IH]; intros s Hd Hv Hsub; cbn [visit_all].
  { by eexists. }
  assert (Forall (fun source => is_sha256_hex (projection_hash source) = true /\ available sid es (projection_hash source))
    (ordered_sources manifest)) as Hs.
  { pose proof (manifest_hex _ _ Hm) as Hh. rewrite Forall_forall in Hh |- *. intros source Hin. split; [by apply Hh|].
    apply Hav, elem_of_digests. by exists source. }
  destruct (returns_sources error_text sessions sid es (ordered_sources manifest) (inspected s) w Hcalm Ha Hl Hv Hsub Hs (inspected_dir s) Hd)
    as [v Hok].
  pose proof (looks_sources error_text sessions sid es (ordered_sources manifest) (inspected s) Hv (inspected_dir s) Hd) as Hlook.
  assert (exists s1, inspect_manifest_line error_text path sessions sid line s = Ok s1 /\ dir_entries (inspected_dir s1) = es /\
    verified_ok sid es (inspected s1)) as (s1 & -> & Hd1 & Hv1).
  { unfold inspect_manifest_line. rewrite Hlf, Hm. cbn [negb map_err mbind result_bind].
    destruct (verify_context_manifest_sources _ _ _ _ _ _) as [od r]. cbn in Hok. subst r. destruct Hlook as [Hod (Hv' & _)].
    eexists. split; [done|]. by split. }
  cbn [mbind result_bind]. apply IH; [done|done|]. intros digest Hin. apply elem_of_session_digests.
  destruct (proj1 Hv1 digest Hin) as (file & Hf & Hh & _). rewrite Hf. split; [|done]. rewrite <- Hh. apply sha256_hex_valid.
Qed.

(** ** The number of lines *)

Lemma signature_lines_count lines : record_count (sign lines) = Z.min u64_max (len lines).
Proof.
  unfold sign. induction lines as [|line lines IH] using rev_ind; [done|].
  rewrite fold_left_app. cbn. rewrite IH. unfold len, sat_u64, clamp. rewrite length_app. cbn. unfold u64_max. lia.
Qed.

Context {K : Storage}.

(** The lines of a stream. *)
Definition stream_lines (d : Disk) : list string := mjoin (lines_with_lf <$> (contents <$> files d)).

(** C19: What the inspection of a session's manifests accepts is right, whatever the storage
    answered before and during it, errors of every read and listing included: the signature it
    returns is that of all lines of all files of the stream, their number is that of the
    completed turns or one more, and every line is a valid manifest all of whose objects are
    present in the session's directory with the content their digests name. *)
Theorem inspection_sound completed_turns od d d' found :
  0 <= completed_turns ->
  read_anchored_context_manifest_signature error_text path sessions sid completed_turns od d = (d', Ok found) ->
  let lines := stream_lines d in
  found = signature (sign lines) /\ completed_turns <= len lines <= completed_turns + 1 /\
  Forall (backed (dir_entries od)) lines.
Proof.
  intros Hc H. cbv zeta. apply eff_bind_Ok in H as (d1 & [] & H1 & H).
  assert (files d1 = files d) as Hd1.
  { unfold ensure_stream, guard in H1. destruct (guard_fault _) as [[]|]; try destruct kind; by injection H1 as <-. }
  apply eff_bind_Ok in H as (d2 & [s n] & H2 & H).
  apply read_sound in H2 as (_ & Hn & Hmax & _ & _ & _ & Hv); [|done..]. rewrite Hd1 in Hv, Hn. cbn [fst snd] in *.
  assert (len (stream_lines d) < u64_max - 1) as Hlen.
  { pose proof (all_lines_le (contents <$> files d)). unfold stream_lines.
    assert (max_total_bytes CONTEXT_MANIFEST_STREAM_LIMITS < u64_max - 1) by (by vm_compute). lia. }
  destruct (inspect_all_sound _ [] _ _ _ (fresh_inspection od) Hv) as [[Hr _ _] Hb]. cbn [app] in Hr.
  unfold lift in H. rewrite Hr in H. fold (stream_lines d) in *.
  destruct (_ || _) eqn:Ec; [done|]. injection H as _ <-. apply orb_false_iff in Ec as [E1 E2].
  cbn [signature sig_record_count] in E1, E2. rewrite signature_lines_count in E1, E2.
  apply Z.ltb_ge in E1. rewrite sat_u64_id in E2 by (unfold in_u64; lia). apply Z.ltb_ge in E2.
  split_and!; [done|lia..|done].
Qed.

Context (stem : string) (Hstem : segmented_jsonl_stem path = Ok stem) (Hcalm : calm stem).

(** C20: What the manifest writer has stored passes inspection: a stream in the layout the
    appender leaves, whose lines refer to durable objects of an inventoried session and
    whose number fits the completed turns, is read back with its signature when no
    request fails. *)
Theorem stored_manifests_inspected completed_turns a full cur nm groups current st s :
  let lines := concat groups ++ current in
  no_faults KO -> stream_at a full cur [] nm st -> layout a full cur [] groups current ->
  base_path a = path -> limits a = CONTEXT_MANIFEST_STREAM_LIMITS ->
  inventoried sid s -> Forall (refers path sid (dir_entries (object_dir s))) lines -> Forall line_record lines ->
  0 <= completed_turns <= len lines -> len lines <= completed_turns + 1 -> len lines < u64_max ->
  exists d', read_anchored_context_manifest_signature error_text path sessions sid completed_turns (object_dir s) (disk st) =
    (d', Ok (signature (sign lines))).
Proof.
  intros lines Hno Hst L Hbase Hlim [Ha Hl] Href Hrec Hc1 Hc2 Hmax.
  destruct (inspect_all_complete (dir_entries (object_dir s)) lines (object_writer s)
    (mkInspection (signature_new CONTEXT_PLAN_DOMAIN) 0 (mkVerified ∅ 0) (object_dir s)) Hno Ha Hl) as [i Hi]; [|done|apply fresh_inspection|done|].
  { rewrite Forall_forall in *. intros line Hin. split; [|by apply Hrec].
    destruct (Href line Hin) as (manifest & Hm & Hd). exists manifest. split; [done|]. intros digest Hdig.
    destruct (Hd digest Hdig) as (file & ? & ? & ? & _). by exists file. }
  destruct (inspect_all_sound _ [] _ _ _ (fresh_inspection (object_dir s)) Hi) as [[Hr _ _] _]. cbn [app] in Hr.
  unfold read_anchored_context_manifest_signature, ensure_stream, guard. rewrite eff_bind_eq, (calm_guard _ Hcalm).
  assert (stream_at a full cur [] nm (mkStream (appender st) (next (disk st)))) as Hst' by exact Hst.
  destruct (stored_records_read path stem Hstem Hcalm (inspect_manifest_line error_text path sessions sid) utf8_error_text a full cur nm groups current
    _ _ i Hst' L Hbase Hrec Hi) as (d' & Hread & _). rewrite Hlim in Hread. cbn [disk] in Hread.
  exists d'. rewrite eff_bind_eq, Hread. unfold lift. rewrite Hr. cbn [signature sig_record_count]. rewrite signature_lines_count.
  rewrite sat_u64_id by (unfold in_u64; lia).
  destruct (Z.ltb_spec (Z.min u64_max (len lines)) completed_turns); [lia|].
  destruct (Z.ltb_spec (completed_turns + 1) (Z.min u64_max (len lines))); [lia|]. done.
Qed.
End inspection.
