(* ===== verification/ManifestsExamples.v ===== *)
(** The theorems on objects and context manifests at concrete inputs: two objects that are stored,
    a rename that fails, and a manifest that names them. *)

From Stdlib Require Import ZArith Lia Ascii String.
From stdpp Require Import base strings sorting sets option gmap countable list.
From S2P Require Import Prelude Decimal Sorting Metadata Json FlowValue Event Lifecycle Errors EffectTheory.
From S2P Require Import ScriptExamples Validate OwnScript Context Builder Planner PlanExamples Segments Appender AppenderTheory AppenderProps.
From S2P Require Import WriterExamples Lines LinesTheory Writer WriterTheory Resume.
From S2P Require Import Objects ObjectsTheory ObjectsProps ObjectsInventory ObjectsPreflight Manifests ManifestsTheory.

Open Scope Z_scope.

#[local] Existing Instance plain_json.
#[local] Existing Instance demo_env.
#[local] Existing Instance demo_laws.
#[local] Existing Instance calm_storage.

(** * Objects *)

(** The requests in the list fail; a failed write wrote two bytes. *)
Definition object_storage (faults : list nat) : ObjectStorage := {|
  check_fault _ := None;
  call_fault n := if existsb (Nat.eqb n) faults then Some StorageFull else None;
  metadata_fault _ := None;
  irregular _ := Io Unlisted;
  partially _ := 2%nat;
  listed _ l := l;
  process_id := 7;
|}.

#[local] Instance object_storage_laws faults : ObjectStorageLaws (K := object_storage faults).
Proof. by split. Qed.

Definition calm_objects : ObjectStorage := object_storage [].

Lemma calm_objects_no_faults : no_faults calm_objects.
Proof. done. Qed.

Definition object_of (text : string) : ContextObject := mkObject text (sha256_hex text).
Definition demo_batch : list ContextObject := [object_of "prompt"; object_of "input"; object_of "prompt"].

(** The sessions directory with the log of the session and an object of an earlier turn. *)
Definition sessions_entries : gmap string DirEntry :=
  <["run1.jsonl" := FileEntry (mkStored "" true true)]>
  {[object_leaf "run1" (sha256_hex "old") := FileEntry (mkStored "old" true true)]}.
Definition demo_dir : ObjectDir := mkObjectDir sessions_entries 0.

Definition demo_opened : ObjectDir * result RuntimeError SessionObjectWriter := object_writer_open (K := calm_objects) "sessions" "run1" demo_dir.

Definition demo_object_writer : SessionObjectWriter :=
  match demo_opened.2 with Ok w => w | _ => mkObjectWriter 0 0 "" 0 0 "" ∅ end.

Lemma writer_opened : demo_opened = (demo_opened.1, Ok demo_object_writer).
Proof. vm_compute. reflexivity. Qed.

Definition demo_store : ObjectStore := mkObjectStore demo_object_writer demo_opened.1.

Definition demo_persist (K : ObjectStorage) : ObjectStore * result RuntimeError unit :=
  persist_manifest_objects (K := K) (batch_digests demo_batch) demo_batch demo_store.

(** The account of a writer. *)
Definition account_of (s : ObjectStore) : Z * Z := (object_count (object_writer s), accounted_bytes (object_writer s)).

Example batch_stored : (demo_persist calm_objects).2 = Ok tt /\ account_of (demo_persist calm_objects).1 = (3, 14).
Proof. vm_compute. split; reflexivity. Qed.

(** A write that fails leaves no object and no temporary file; the writer does not count it. *)
Example write_interrupted :
  (let '(s, r) := demo_persist (object_storage [9%nat]) in
   (is_ok r, bool_decide (dom (dir_entries (object_dir s)) = dom sessions_entries), account_of s)) = (false, true, (1, 3)).
Proof. vm_compute. reflexivity. Qed.

Lemma objects_persisted_witness :
  let s' := (demo_persist calm_objects).1 in
  grows "run1" sessions_entries (dir_entries (object_dir s')) /\
  batch_digests demo_batch = batch_digests demo_batch /\
  forall digest, digest ∈ batch_digests demo_batch -> durable_object "run1" (dir_entries (object_dir s')) digest.
Proof.
  apply (objects_persisted (K := calm_objects) (batch_digests demo_batch) demo_batch demo_store _ (Ok tt)).
  - vm_compute. reflexivity.
  - vm_compute. reflexivity.
Defined.

Definition object_ops_demo : list ObjectOp :=
  [OpPreflight demo_batch; OpPersist ∅ demo_batch; OpPersist (batch_digests demo_batch) demo_batch].

Lemma inventory_exact_witness :
  let s := fold_left (fun s op => object_op (K := object_storage [12%nat]) op s) object_ops_demo demo_store in
  let es := dir_entries (object_dir s) in
  object_count (object_writer s) = Z.of_nat (size (session_digests "run1" es)) /\
  accounted_bytes (object_writer s) = total_size (object_size "run1" es) (session_digests "run1" es) /\
  object_count (object_writer s) <= MAX_SESSION_OBJECTS /\
  accounted_bytes (object_writer s) <= MAX_SESSION_OBJECT_TOTAL_BYTES.
Proof.
  apply (inventory_exact (K := object_storage [12%nat]) "sessions" "run1" demo_dir demo_opened.1 demo_object_writer object_ops_demo).
  - vm_compute. reflexivity.
  - vm_compute. reflexivity.
Defined.

Definition demo_batches : list (list ContextObject) := [demo_batch; [object_of "old"; object_of "answer!"]].

Lemma preflight_persists_witness :
  exists s', persist_batches (K := calm_objects) demo_batches demo_store = (s', Ok tt).
Proof.
  apply (preflight_persists (K := calm_objects) calm_objects (object_storage_laws []) "sessions" "run1" demo_dir demo_opened.1 demo_opened.1
    demo_object_writer demo_object_writer demo_batches (preflight_batches (K := calm_objects) demo_batches demo_store).1).
  - apply calm_objects_no_faults.
  - vm_compute. reflexivity.
  - intros name [rest ->]. vm_compute. reflexivity.
  - intros o o' Ho Ho'. unfold demo_batches, demo_batch in *. cbn [concat app] in *.
    repeat setoid_rewrite elem_of_cons in Ho. repeat setoid_rewrite elem_of_cons in Ho'.
    rewrite elem_of_nil in Ho, Ho'. intros H. destruct_or!; subst; first [done|by vm_compute in H].
  - vm_compute. reflexivity.
  - vm_compute. reflexivity.
  - vm_compute. reflexivity.
Defined.

(** * Manifests *)

Definition source_of (name text : string) : ContextManifestSourceRecord :=
  mkSourceRecord (SESSION_OBJECT_URI_PREFIX +:+ sha256_hex text) (sha256_hex text) name.

Definition demo_record : ContextManifestRecord := {|
  cache_boundaries := [mkBoundary "prompt" 6];
  record_context_hash := sha256_hex "context";
  context_profile_id := CONTEXT_PROFILE_ID;
  context_profile_version := CONTEXT_PROFILE_VERSION;
  estimated_input_tokens := 11;
  estimator_id := CONTEXT_ESTIMATOR_ID;
  estimator_version := CONTEXT_ESTIMATOR_VERSION;
  model_context_limit := STUB_MODEL_CONTEXT_LIMIT;
  model_profile_id := STUB_MODEL_PROFILE_ID;
  omitted_source_counts := mkOmissionRecord 0 0 0 0 0 0;
  ordered_sources := [source_of "prompt" "prompt"; source_of "input" "input"];
  record_output_reserve := STUB_MODEL_OUTPUT_RESERVE;
  runtime_version := "0.1.0";
  record_safety_margin := CONTEXT_SAFETY_MARGIN;
|}.

(** Every text is an empty object, and every object the manifest above. *)
#[local] Instance demo_manifests : ManifestEnv := {|
  value_from_str _ := Ok (JObject []);
  manifest_from_value _ := Ok demo_record;
  utf8_error_text _ := ""%string;
|}.

#[local] Instance demo_manifests_laws : ManifestLaws.
Proof. by split. Qed.

Definition contexts_base : AnchoredFile := mkAnchored "logs" "run1.contexts.jsonl".

Definition contexts_appender : SessionLogAppender := mkAppender contexts_base 0 1 0 true CONTEXT_MANIFEST_STREAM_LIMITS [] 0.
Definition contexts_stream : Stream := mkStream contexts_appender demo_disk.

Lemma contexts_layout : layout contexts_appender [] (mkSegmentFile "" 0) [] [] [].
Proof.
  constructor.
  1-6, 8, 9: reflexivity.
  1-3: constructor.
  - constructor; [vm_compute; discriminate|constructor].
  - vm_compute. discriminate.
  - vm_compute. reflexivity.
  - vm_compute. discriminate.
  - vm_compute. discriminate.
Qed.

Lemma contexts_holds : stream_holds [] contexts_stream.
Proof. exists [], []. split; [|done]. exists contexts_appender, [], (mkSegmentFile "" 0), [], 1. split; [done|apply contexts_layout]. Qed.

Lemma calm_contexts : calm "run1.contexts".
Proof.
  constructor; [done..|]. intros n. exists [Some "notes.txt"%string]. split_and!; [done| | |].
  - cbn. constructor; [set_solver|constructor].
  - vm_compute. reflexivity.
  - intros name [= ->]%list_elem_of_singleton. split; [done|]. intros [_ [Hb|(text & Hb)]]; discriminate Hb.
Qed.

Definition manifest_text : string := lf_line "{}".

Definition demo_checkpoint (ordinal : Z) : ContextManifestCheckpoint :=
  mkCheckpoint (mkManifest manifest_text) demo_batch ordinal.

Definition demo_manifest_writer : ContextManifestWriter :=
  mkManifestWriter contexts_stream 0 None 0 (signature_new CONTEXT_PLAN_DOMAIN) (Some demo_store).

(** A manifest, its replay, and the next one. *)
Definition demo_checkpoints : list ContextManifestCheckpoint := [demo_checkpoint 1; demo_checkpoint 1; demo_checkpoint 2].

Definition demo_manifests_run (KO : ObjectStorage) : ContextManifestWriter * result RuntimeError unit :=
  persist_manifests (KO := KO) contexts_base demo_checkpoints demo_manifest_writer.

Example manifests_stored :
  let '(w, r) := demo_manifests_run calm_objects in
  r = Ok tt /\ stream_bytes (disk (manifest_stream w)) = concat_bytes [manifest_text; manifest_text] /\ manifest_count w = 2.
Proof. vm_compute. split_and!; reflexivity. Qed.

(** An object that cannot be stored keeps the manifest out of the stream. *)
Example object_refused :
  let '(w, r) := demo_manifests_run (object_storage [9%nat]) in
  is_ok r = false /\ stream_bytes (disk (manifest_stream w)) = ""%string.
Proof. vm_compute. split; reflexivity. Qed.

Lemma demo_referring : referring contexts_base "run1" [] demo_manifest_writer.
Proof. split; [apply contexts_holds|]. exists demo_store. split_and!; [done| |done]. vm_compute. reflexivity. Qed.

Lemma manifests_after_objects_witness :
  referring contexts_base "run1" [manifest_text; manifest_text] (demo_manifests_run calm_objects).1.
Proof.
  apply (manifests_after_objects (KO := calm_objects) contexts_base "run1" eq_refl demo_checkpoints [] demo_manifest_writer _ (Ok tt) demo_referring).
  vm_compute. reflexivity.
Defined.

(** ** Inspection *)

(** What the two manifests leave. *)
Definition after_manifests : ContextManifestWriter := (demo_manifests_run calm_objects).1.
Definition after_disk : Disk := disk (manifest_stream after_manifests).
Definition after_objects : ObjectStore := default demo_store (manifest_objects after_manifests).

Definition demo_inspection : Disk * result RuntimeError RuntimeStreamSignature :=
  read_anchored_context_manifest_signature (KO := calm_objects) no_error_text contexts_base "sessions" "run1" 2
    (object_dir after_objects) after_disk.

Lemma inspection_sound_witness :
  let lines := stream_lines after_disk in
  signature (sign [manifest_text; manifest_text]) = signature (sign lines) /\ 2 <= len lines <= 2 + 1 /\
  Forall (backed contexts_base "run1" (dir_entries (object_dir after_objects))) lines.
Proof.
  apply (inspection_sound (KO := calm_objects) no_error_text contexts_base "sessions" "run1"
    2 (object_dir after_objects) after_disk demo_inspection.1).
  - lia.
  - vm_compute. reflexivity.
Defined.

Definition after_file : SegmentFile := mkSegmentFile (concat_bytes [manifest_text; manifest_text]) 6.
Definition after_appender : SessionLogAppender := mkAppender contexts_base 6 1 0 true CONTEXT_MANIFEST_STREAM_LIMITS [] 6.

Lemma after_layout : layout after_appender [] after_file [] [] [manifest_text; manifest_text].
Proof.
  constructor.
  1-6, 8, 9: reflexivity.
  1-3: constructor.
  - constructor; [vm_compute; discriminate|constructor].
  - vm_compute. discriminate.
  - vm_compute. reflexivity.
  - vm_compute. discriminate.
  - vm_compute. discriminate.
Qed.

(** The writer of the next session on the same directory. *)
Definition reopened : ObjectDir * result RuntimeError SessionObjectWriter :=
  object_writer_open (K := calm_objects) "sessions" "run1" (object_dir after_objects).
Definition reopened_store : ObjectStore :=
  mkObjectStore (match reopened.2 with Ok w => w | _ => demo_object_writer end) reopened.1.

Lemma reopened_inventoried : inventoried "run1" reopened_store.
Proof.
  pose proof (looks_open_writer (K := calm_objects) "run1" eq_refl (dir_entries (object_dir after_objects)) "sessions"
    (object_dir after_objects) eq_refl) as H. fold reopened in H.
  assert (reopened = (reopened.1, Ok (object_writer reopened_store))) as E by (vm_compute; reflexivity).
  rewrite E in H. destruct H as (He & Ha & Hl & _). split; [|done]. change (object_dir reopened_store) with reopened.1.
  unfold at_entries in He. by rewrite He.
Qed.

Lemma manifest_refers : refers contexts_base "run1" (dir_entries (object_dir reopened_store)) manifest_text.
Proof.
  exists demo_record. split; [vm_compute; reflexivity|]. intros digest (source & -> & Hs)%elem_of_digests.
  apply elem_of_cons in Hs as [->|Hs]; [exists (mkStored "prompt" true true)|].
  { split_and!; [vm_compute; reflexivity|done|vm_compute; discriminate|done|done]. }
  apply list_elem_of_singleton in Hs as ->. exists (mkStored "input" true true).
  split_and!; [vm_compute; reflexivity|done|vm_compute; discriminate|done|done].
Qed.

Lemma stored_manifests_inspected_witness :
  exists d', read_anchored_context_manifest_signature (KO := calm_objects) no_error_text contexts_base "sessions" "run1" 1
    (object_dir reopened_store) after_disk = (d', Ok (signature (sign [manifest_text; manifest_text]))).
Proof.
  apply (stored_manifests_inspected (KO := calm_objects) no_error_text contexts_base "sessions" "run1" "run1.contexts" eq_refl calm_contexts
    1 after_appender [] after_file 1 [] [manifest_text; manifest_text] (manifest_stream after_manifests) reopened_store).
  - apply calm_objects_no_faults.
  - split; [vm_compute; reflexivity|]. split; vm_compute; reflexivity.
  - apply after_layout.
  - done.
  - done.
  - apply reopened_inventoried.
  - constructor; [apply manifest_refers|]. constructor; [apply manifest_refers|constructor].
  - repeat constructor; by vm_compute.
  - vm_compute. split; discriminate.
  - vm_compute. discriminate.
  - vm_compute. reflexivity.
Defined.
