(* ===== verification/SortKey.v ===== *)
(** Sort keys ([liquid-core/src/sort_key.rs]): a new key always fits between two neighbours.

    A key is the list of its bytes, as the source works on [&[u8]]; [<] on slices is the
    lexicographic order.  Indexing and unsigned subtraction that fail in Rust are [Panic]. *)

From Stdlib Require Import ZArith Lia.
From stdpp Require Import base option list.
From S2P Require Import Prelude.

Open Scope Z_scope.

Abbreviation key := (list Z).

(** A computation that can only panic. *)
Abbreviation may_panic A := (result Empty_set A).

(** [b"0123...YZab...yz"]. *)
Definition DIGITS : key :=
  [48; 49; 50; 51; 52; 53; 54; 55; 56; 57;
   65; 66; 67; 68; 69; 70; 71; 72; 73; 74; 75; 76; 77; 78; 79; 80; 81; 82; 83; 84; 85; 86; 87; 88; 89; 90;
   97; 98; 99; 100; 101; 102; 103; 104; 105; 106; 107; 108; 109; 110; 111; 112; 113; 114; 115; 116;
   117; 118; 119; 120; 121; 122].

Definition ZERO : Z := 48.
Definition SMALLEST : key := 65 :: replicate 26 ZERO.

Fixpoint position (p : Z -> bool) (l : key) : option Z :=
  match l with
  | [] => None
  | x :: l => if p x then Some 0 else (Z.add 1) <$> position p l
  end.

Definition value (digit : Z) : Z := default 0 (position (Z.eqb digit) DIGITS).

(** [DIGITS[i]]. *)
Definition digit_at (i : Z) : may_panic Z :=
  if i <? 0 then Panic else expect (DIGITS !! Z.to_nat i).

Definition last_digit : Z := 122.

(** [<] on byte slices. *)
Fixpoint slice_ltb (a b : key) : bool :=
  match a, b with
  | [], [] => false
  | [], _ :: _ => true
  | _ :: _, [] => false
  | x :: a, y :: b => if x <? y then true else if y <? x then false else slice_ltb a b
  end.

(** * Integers *)

Definition integer_length (head : Z) : option Z :=
  if (97 <=? head) && (head <=? 122) then Some (head - 97 + 2)
  else if (65 <=? head) && (head <=? 90) then Some (90 - head + 2)
  else None.

Definition is_digit (d : Z) : bool := bool_decide (d ∈ DIGITS).

Definition integer (k : key) : option key :=
  head ← list.head k;
  length ← integer_length head;
  (* [key.get(length..)] *)
  fraction ← (if length <=? len k then Some (drop (Z.to_nat length) k) else None);
  let valid :=
    negb (bool_decide (k = SMALLEST))
    && forallb is_digit (tail k)
    && negb (bool_decide (list.last fraction = Some ZERO)) in
  if valid then Some (take (Z.to_nat length) k) else None.

(** The loop over [digits.iter_mut().rev()]: the digits, last one first, and whether the
    loop returned. *)
Fixpoint increment_digits (rev_digits : key) : may_panic (key * bool) :=
  match rev_digits with
  | [] => Ok ([], false)
  | d :: ds =>
      if d =? last_digit then
        '(ds, returned) ← increment_digits ds;
        Ok (ZERO :: ds, returned)
      else
        d ← digit_at (value d + 1);
        Ok (d :: ds, true)
  end.

Fixpoint decrement_digits (rev_digits : key) : may_panic (key * bool) :=
  match rev_digits with
  | [] => Ok ([], false)
  | d :: ds =>
      if d =? ZERO then
        '(ds, returned) ← decrement_digits ds;
        Ok (last_digit :: ds, returned)
      else
        d ← digit_at (value d - 1);
        Ok (d :: ds, true)
  end.

(** [digits.pop()]. *)
Definition pop (l : key) : key := take (List.length l - 1) l.

Definition increment (int : key) : may_panic (option key) :=
  match int with
  | [] => Panic
  | head :: digits =>
      '(rev_digits, returned) ← increment_digits (rev digits);
      let digits := rev rev_digits in
      if returned : bool then Ok (Some (head :: digits))
      else if head =? 90 then Ok (Some [97; ZERO])
      else if head =? 122 then Ok None
      else
        let head := head + 1 in
        if 97 <? head then Ok (Some (head :: digits ++ [ZERO]))
        else Ok (Some (head :: pop digits))
  end.

Definition decrement (int : key) : may_panic (option key) :=
  match int with
  | [] => Panic
  | head :: digits =>
      '(rev_digits, returned) ← decrement_digits (rev digits);
      let digits := rev rev_digits in
      if returned : bool then Ok (Some (head :: digits))
      else if head =? 97 then Ok (Some [90; last_digit])
      else if head =? 65 then Ok None
      else
        let head := head - 1 in
        if head <? 90 then Ok (Some (head :: digits ++ [last_digit]))
        else Ok (Some (head :: pop digits))
  end.

(** * Fractions *)

(** [key.get(i).copied().unwrap_or(DIGITS[0])]. *)
Definition digit_or_zero (k : key) (i : nat) : Z := default ZERO (k !! i).

(** [(0..after.len()).take_while(|&i| digit(before, i) == after[i]).count()]. *)
Fixpoint shared_digits (before after : key) : nat :=
  match after with
  | [] => O
  | a :: after =>
      if digit_or_zero before 0 =? a then S (shared_digits (tail before) after) else O
  end.

Definition div_ceil2 (n : Z) : Z := (n + 1) / 2.

(** [usize] subtraction panics below zero. *)
Definition checked_sub (a b : Z) : may_panic Z := if a <? b then Panic else Ok (a - b).

Fixpoint midpoint (fuel : nat) (before : key) (after : option key) : may_panic key :=
  match fuel with
  | O => Panic
  | S fuel =>
      let shared := match after with Some after => shared_digits before after | None => O end in
      match after, shared with
      | Some after, S _ =>
          rest ← midpoint fuel (drop shared before) (Some (drop shared after));
          Ok (take shared after ++ rest)
      | _, _ =>
          let low := value (digit_or_zero before 0) in
          high ← match after with
                 | None => Ok (len DIGITS)
                 | Some after => first ← expect (list.head after); Ok (value first)
                 end;
          gap ← checked_sub high low;
          if 1 <? gap then
            d ← digit_at (div_ceil2 (low + high));
            Ok [d]
          else
            match after with
            | Some (first :: _ :: _) => Ok [first]
            | _ =>
                d ← digit_at low;
                rest ← midpoint fuel (drop 1 before) None;
                Ok (d :: rest)
            end
      end
  end.

(** Every call drops a digit of a neighbour or the upper neighbour itself. *)
Definition midpoint_fuel (before : key) (after : option key) : nat :=
  S (List.length before + match after with Some after => S (List.length after) | None => O end).

Definition midpoint_of (before : key) (after : option key) : may_panic key :=
  midpoint (midpoint_fuel before after) before after.

(** * Keys *)

Definition key_between (before after : option key) : may_panic key :=
  match before, after with
  | None, None => Ok [97; ZERO]
  | None, Some after =>
      int ← expect (integer after);
      let fraction := drop (List.length int) after in
      if bool_decide (int = SMALLEST) then
        middle ← midpoint_of [] (Some fraction); Ok (int ++ middle)
      else if len int <? len after then Ok int
      else
        smaller ← decrement int;
        match smaller with
        | Some smaller =>
            if bool_decide (smaller = SMALLEST) then
              middle ← midpoint_of [] None; Ok (SMALLEST ++ middle)
            else Ok smaller
        | None => middle ← midpoint_of [] (Some fraction); Ok (int ++ middle)
        end
  | Some before, None =>
      int ← expect (integer before);
      next ← increment int;
      match next with
      | Some next => Ok next
      | None => middle ← midpoint_of (drop (List.length int) before) None; Ok (int ++ middle)
      end
  | Some before, Some after =>
      low ← expect (integer before);
      high ← expect (integer after);
      let fraction := drop (List.length low) before in
      if bool_decide (low = high) then
        middle ← midpoint_of fraction (Some (drop (List.length high) after)); Ok (low ++ middle)
      else
        next ← increment low;
        match next with
        | Some next =>
            if slice_ltb next after then Ok next
            else middle ← midpoint_of fraction None; Ok (low ++ middle)
        | None => middle ← midpoint_of fraction None; Ok (low ++ middle)
        end
  end.

Definition is_key (k : key) : bool := match integer k with Some _ => true | None => false end.

(** [Option::filter]. *)
Definition keep {A} (p : A -> bool) (o : option A) : option A :=
  a ← o; if p a then Some a else None.

(** [String::from_utf8] of ASCII bytes. *)
Definition from_ascii (k : key) : option key :=
  if forallb (fun b => (0 <=? b) && (b <? 128)) k then Some k else None.

Definition between (before after : option key) : may_panic key :=
  let before := keep is_key before in
  let after :=
    keep (fun after => match before with Some before => slice_ltb before after | None => true end)
      (keep is_key after) in
  k ← key_between before after;
  expect (from_ascii k).

Example between_start : between None None = Ok [97; 48].
Proof. reflexivity. Qed.
Example between_a0_a1 : between (Some [97; 48]) (Some [97; 49]) = Ok [97; 48; 86].
Proof. vm_compute. reflexivity. Qed.
