(* ===== verification/SortKeyTheory.v ===== *)
(** Sort keys are dense: [between] gives a valid key strictly between its neighbours, and
    never panics. *)

From Stdlib Require Import ZArith Lia.
From stdpp Require Import base option sets list.
From S2P Require Import Prelude SortKey.

Open Scope Z_scope.

(** * Digits *)

(** The [i]-th digit. *)
Definition code (i : Z) : Z := if i <? 10 then 48 + i else if i <? 36 then 55 + i else 61 + i.

Definition digit (d : Z) : Prop := exists i, 0 <= i <= 61 /\ d = code i.

Lemma code_mono i j : i < j -> code i < code j.
Proof.
  unfold code. destruct (Z.ltb_spec i 10), (Z.ltb_spec i 36), (Z.ltb_spec j 10), (Z.ltb_spec j 36); lia.
Qed.

Lemma code_lt i j : code i < code j <-> i < j.
Proof.
  split; [|apply code_mono]. intros H. destruct (Z.lt_trichotomy i j) as [?|[->|Hl%code_mono]]; lia.
Qed.

Lemma code_inj i j : code i = code j -> i = j.
Proof. intros H. destruct (Z.lt_trichotomy i j) as [Hl%code_mono|[?|Hl%code_mono]]; lia. Qed.

Definition digit_check (i : Z) : bool :=
  match digit_at i with Ok d => (d =? code i) && (value (code i) =? i) | _ => false end.

Lemma digit_check_all : Zall 62 0 digit_check = true.
Proof. vm_compute. reflexivity. Qed.

Lemma digit_at_code i : 0 <= i <= 61 -> digit_at i = Ok (code i).
Proof.
  intros Hi. pose proof (Zall_spec _ _ _ digit_check_all i ltac:(lia)) as H.
  unfold digit_check in H. destruct (digit_at i) as [d| |]; try done.
  apply andb_true_iff in H as [->%Z.eqb_eq _]. done.
Qed.

Lemma value_code i : 0 <= i <= 61 -> value (code i) = i.
Proof.
  intros Hi. pose proof (Zall_spec _ _ _ digit_check_all i ltac:(lia)) as H.
  unfold digit_check in H. destruct (digit_at i) as [d| |]; try done.
  by apply andb_true_iff in H as [_ ->%Z.eqb_eq].
Qed.

Lemma digit_elem d : d ∈ DIGITS <-> digit d.
Proof.
  split.
  - intros Hd. unfold DIGITS in Hd.
    assert (Forall (fun d => code (value d) = d /\ 0 <= value d <= 61) DIGITS) as Hall
      by (repeat constructor; vm_compute; congruence).
    rewrite Forall_forall in Hall. destruct (Hall d Hd) as [Hc Hr]. by exists (value d).
  - intros (i & Hi & ->). pose proof (digit_at_code i Hi) as H. unfold digit_at in H.
    destruct (i <? 0); [done|]. destruct (DIGITS !! Z.to_nat i) eqn:Hl; [|done].
    injection H as ->. by eapply list_elem_of_lookup_2.
Qed.

Lemma is_digit_spec d : is_digit d = true <-> digit d.
Proof. unfold is_digit. by rewrite bool_decide_eq_true, digit_elem. Qed.

Lemma digit_bounds d : digit d -> 48 <= d <= 122.
Proof. intros (i & Hi & ->). unfold code. destruct (i <? 10), (i <? 36); lia. Qed.

Lemma zero_digit : digit ZERO.
Proof. by exists 0. Qed.

Lemma last_digit_digit : digit last_digit.
Proof. by exists 61. Qed.

(** * The order of slices *)

(** The slices differ at a position, and the first is smaller there. *)
Definition diff_lt (a b : key) : Prop :=
  exists p x y a' b', a = p ++ x :: a' /\ b = p ++ y :: b' /\ x < y.

Lemma slice_ltb_spec a b :
  slice_ltb a b = true <-> diff_lt a b \/ exists c, c <> [] /\ b = a ++ c.
Proof.
  split.
  - revert b. induction a as [|x a IH]; intros [|y b] H; cbn in H; try done.
    { right. by exists (y :: b). }
    destruct (Z.ltb_spec x y).
    { left. exists [], x, y, a, b. done. }
    destruct (Z.ltb_spec y x); [done|]. assert (x = y) as -> by lia.
    destruct (IH b H) as [(p & u & v & a' & b' & -> & -> & Huv)|(c & Hc & ->)].
    + left. exists (y :: p), u, v, a', b'. done.
    + right. by exists c.
  - intros [(p & x & y & a' & b' & -> & -> & Hxy)|(c & Hc & ->)].
    + induction p as [|z p IH]; cbn; [by rewrite (proj2 (Z.ltb_lt x y))|]. by rewrite Z.ltb_irrefl.
    + induction a as [|z a IH]; cbn; [by destruct c|]. by rewrite Z.ltb_irrefl.
Qed.

Lemma slice_ltb_app p a b : slice_ltb (p ++ a) (p ++ b) = slice_ltb a b.
Proof. induction p as [|x p IH]; cbn; [done|]. by rewrite Z.ltb_irrefl. Qed.

Lemma slice_ltb_prefix a c : c <> [] -> slice_ltb a (a ++ c) = true.
Proof. intros Hc. apply slice_ltb_spec. right. eauto. Qed.

Lemma diff_lt_slice a b c d : diff_lt a b -> slice_ltb (a ++ c) (b ++ d) = true.
Proof.
  intros (p & x & y & a' & b' & -> & -> & Hxy). apply slice_ltb_spec. left.
  exists p, x, y, (a' ++ c), (b' ++ d). by rewrite <- !app_assoc.
Qed.

Lemma diff_lt_cons x a b : diff_lt a b -> diff_lt (x :: a) (x :: b).
Proof. intros (p & u & v & a' & b' & -> & -> & Huv). exists (x :: p), u, v, a', b'. done. Qed.

Lemma diff_lt_head x y a b : x < y -> diff_lt (x :: a) (y :: b).
Proof. intros H. exists [], x, y, a, b. done. Qed.

Lemma diff_lt_snoc a b x y : diff_lt a b -> diff_lt (a ++ [x]) (b ++ [y]).
Proof.
  intros (p & u & v & a' & b' & -> & -> & Huv). exists p, u, v, (a' ++ [x]), (b' ++ [y]).
  by rewrite <- !app_assoc.
Qed.

(** * Midpoints *)

Definition fraction_ok (f : key) : Prop := Forall digit f /\ list.last f <> Some ZERO.

Lemma last_cons_ne (x : Z) l : l <> [] -> list.last (x :: l) = list.last l.
Proof. by destruct l. Qed.

Lemma last_app_ne (p l : key) : l <> [] -> list.last (p ++ l) = list.last l.
Proof.
  intros Hl. destruct (exists_last Hl) as (l' & x & ->). by rewrite app_assoc, !last_snoc.
Qed.

Lemma slice_ltb_nil_r a : slice_ltb a [] = false.
Proof. by destruct a. Qed.

(** Taking out the shared digits keeps the neighbours in order. *)
Lemma shared_step before after :
  slice_ltb before after = true -> list.last after <> Some ZERO ->
  let n := shared_digits before after in
  (n < List.length after)%nat /\
  slice_ltb (drop n before) (drop n after) = true /\
  shared_digits (drop n before) (drop n after) = O /\
  (forall r, r <> [] -> slice_ltb (drop n before) r = true ->
             slice_ltb before (take n after ++ r) = true).
Proof.
  revert before. induction after as [|a after IH]; intros before Hlt Hlast; cbn.
  { by rewrite slice_ltb_nil_r in Hlt. }
  destruct (Z.eqb_spec (digit_or_zero before 0) a) as [Ha|Ha].
  2: { cbn. split_and!; [lia|done| |by intros r _ Hr].
       rewrite drop_0, (proj2 (Z.eqb_neq _ _) Ha). done. }
  destruct before as [|b before]; cbn in Ha; subst a.
  - assert (after <> []) as Hne by (by intros ->).
    destruct (IH []) as (H1 & H2 & H3 & H4); [by destruct after|by rewrite <- (last_cons_ne ZERO)|].
    cbn. rewrite drop_nil in *. split_and!; [lia|done..|]. done.
  - cbn in Hlt. rewrite Z.ltb_irrefl in Hlt.
    assert (after <> []) as Hne by (intros ->; by rewrite slice_ltb_nil_r in Hlt).
    destruct (IH before) as (H1 & H2 & H3 & H4); [done|by rewrite <- (last_cons_ne b)|].
    cbn. split_and!; [lia|done..|]. intros r Hr Hlr. rewrite Z.ltb_irrefl. auto.
Qed.

Record good_midpoint (before : key) (after : option key) (r : key) : Prop := {
  gm_nonempty : r <> [];
  gm_fraction : fraction_ok r;
  gm_above : slice_ltb before r = true;
  gm_below : forall a, after = Some a -> slice_ltb r a = true;
}.

Definition midpoint_pre (before : key) (after : option key) : Prop :=
  Forall digit before /\
  forall a, after = Some a -> fraction_ok a /\ slice_ltb before a = true.

Lemma head_digit before : Forall digit before ->
  exists i, 0 <= i <= 61 /\ digit_or_zero before 0 = code i /\ value (digit_or_zero before 0) = i.
Proof.
  intros Hb. assert (digit (digit_or_zero before 0)) as (i & Hi & Hd).
  { destruct Hb; [apply zero_digit|done]. }
  exists i. rewrite Hd. split; [done|]. split; [done|]. by apply value_code.
Qed.

Lemma above_first before r i d :
  digit_or_zero before 0 = code i -> code i < d -> slice_ltb before (d :: r) = true.
Proof.
  destruct before as [|b before]; [done|]. cbn. intros -> Hd.
  by rewrite (proj2 (Z.ltb_lt _ _) Hd).
Qed.

(** [digits[low]] followed by a midpoint of the rest is above [before]. *)
Lemma above_same before r i :
  digit_or_zero before 0 = code i -> r <> [] -> slice_ltb (drop 1 before) r = true ->
  slice_ltb before (code i :: r) = true.
Proof.
  intros Hd Hr Hlt. destruct before as [|b before]; cbn in *; [done|]. subst b.
  by rewrite Z.ltb_irrefl, drop_0 in *.
Qed.

Lemma fraction_single i : 0 < i <= 61 -> fraction_ok [code i].
Proof.
  intros Hi. split; [repeat constructor; exists i; split; [lia|done]|]. cbn. intros [= H].
  change ZERO with (code 0) in H. apply code_inj in H. lia.
Qed.

Lemma fraction_cons d r : digit d -> r <> [] -> fraction_ok r -> fraction_ok (d :: r).
Proof. intros Hd Hr [Hf Hl]. split; [by constructor|]. by rewrite last_cons_ne. Qed.

Lemma div_ceil2_spec n : n <= 2 * div_ceil2 n <= n + 1.
Proof.
  unfold div_ceil2. pose proof (Z.div_mod (n + 1) 2 ltac:(lia)).
  pose proof (Z.mod_pos_bound (n + 1) 2 ltac:(lia)). lia.
Qed.

Lemma midpoint_none fuel before :
  Forall digit before -> (List.length before < fuel)%nat ->
  exists r, midpoint fuel before None = Ok r /\ good_midpoint before None r.
Proof.
  revert before. induction fuel as [|fuel IH]; intros before Hb Hf; [lia|].
  cbn -[digit_at checked_sub len value digit_or_zero]. change (len DIGITS) with 62.
  destruct (head_digit before Hb) as (i & Hi & Hd & ->). unfold checked_sub.
  rewrite (proj2 (Z.ltb_ge 62 i)) by lia. cbn -[digit_at].
  destruct (Z.ltb_spec 1 (62 - i)) as [Hgap|Hgap].
  - assert (i < div_ceil2 (i + 62) <= 61) as Hm
      by (pose proof (div_ceil2_spec (i + 62)); lia).
    rewrite digit_at_code by lia. cbn. eexists. split; [done|]. constructor; [done| | |done].
    + apply fraction_single. lia.
    + eapply above_first; [done|]. apply code_mono. lia.
  - assert (i = 61) as -> by lia.
    destruct before as [|b before]; [cbn in Hd; vm_compute in Hd; done|].
    rewrite digit_at_code by lia. cbn [drop]. rewrite drop_0.
    apply Forall_cons in Hb as [Hdb Hb].
    destruct (IH before Hb ltac:(cbn in Hf; lia)) as (r & -> & []). cbn -[code].
    eexists. split; [done|]. constructor; [done| | |done].
    + apply fraction_cons; [by exists 61|done|done].
    + apply (above_same (b :: before) r 61); [done|done|]. cbn. by rewrite drop_0.
Qed.

Lemma midpoint_some fuel before after :
  midpoint_pre before (Some after) ->
  (S (List.length before + List.length after) < fuel)%nat ->
  exists r, midpoint fuel before (Some after) = Ok r /\ good_midpoint before (Some after) r.
Proof.
  revert before after. induction fuel as [|fuel IH]; intros before after [Hb Ha] Hf; [lia|].
  destruct (Ha after eq_refl) as [[Haf Hal] Hlt]. clear Ha.
  destruct (shared_step before after Hlt Hal) as (Hn & Hlt' & Hs & Habove).
  cbn -[digit_at checked_sub len value digit_or_zero]. destruct (shared_digits before after) as [|n] eqn:Hsh.
  - clear Hlt' Hs Habove. destruct after as [|a after]; [by rewrite slice_ltb_nil_r in Hlt|].
    cbn in Hsh. destruct (Z.eqb_spec (digit_or_zero before 0) a) as [|Hne]; [done|].
    apply Forall_cons in Haf as [(j & Hj & ->) Haf].
    destruct (head_digit before Hb) as (i & Hi & Hd & ->). cbn -[digit_at checked_sub value digit_or_zero].
    rewrite (value_code j Hj).
    assert (i < j) as Hij.
    { apply code_lt. rewrite Hd in Hne. destruct before as [|b before].
      - cbn in Hd. change ZERO with (code 0) in Hd. apply code_inj in Hd as <-.
        apply code_mono. destruct (Z.eq_dec j 0) as [->|]; [done|lia].
      - cbn in Hd, Hlt. subst b. destruct (Z.ltb_spec (code i) (code j)); [done|].
        destruct (Z.ltb_spec (code j) (code i)); [done|]. lia. }
    unfold checked_sub. rewrite (proj2 (Z.ltb_ge j i)) by lia. cbn -[digit_at].
    destruct (Z.ltb_spec 1 (j - i)) as [Hgap|Hgap].
    + assert (i < div_ceil2 (i + j) < j) as Hm
        by (pose proof (div_ceil2_spec (i + j)); lia).
      rewrite digit_at_code by lia. cbn. eexists. split; [done|]. constructor; [done| | |].
      * apply fraction_single. lia.
      * eapply above_first; [done|]. apply code_mono. lia.
      * intros ? [= <-]. cbn. by rewrite (proj2 (Z.ltb_lt _ _)) by (apply code_mono; lia).
    + assert (j = i + 1) as -> by lia.
      destruct after as [|a2 after].
      * rewrite digit_at_code by lia. cbn -[code].
        destruct (midpoint_none fuel (drop 1 before)) as (r & -> & []).
        { by apply Forall_drop. }
        { rewrite length_drop. cbn in Hf. lia. }
        cbn -[code]. eexists. split; [done|]. constructor; [done| | |].
        -- apply fraction_cons; [exists i; split; [lia|done]|done|done].
        -- by apply above_same.
        -- intros ? [= <-]. cbn -[code].
           by rewrite (proj2 (Z.ltb_lt _ _)) by (apply code_mono; lia).
      * cbn -[code]. eexists. split; [done|]. constructor; [done| | |].
        -- apply fraction_single. lia.
        -- eapply above_first; [done|]. apply code_mono. lia.
        -- intros ? [= <-]. apply (slice_ltb_prefix [code (i + 1)]). done.
  - destruct (IH (drop (S n) before) (drop (S n) after)) as (r & Hr & []).
    + split; [by apply Forall_drop|]. intros ? [= <-]. split; [|done].
      split; [by apply Forall_drop|]. rewrite <- (last_app_ne (take (S n) after)), take_drop; [done|].
      intros E. apply (f_equal List.length) in E. rewrite length_drop in E. cbn in E. lia.
    + rewrite !length_drop. lia.
    + rewrite Hr. cbn [mbind result_bind]. eexists. split; [done|]. constructor.
      * by destruct (take (S n) after).
      * destruct gm_fraction0 as [Hf1 Hf2]. split; [|by rewrite last_app_ne].
        apply Forall_app. split; [by apply Forall_take|done].
      * by apply Habove.
      * intros ? [= <-]. rewrite <- (take_drop (S n) after) at 2. rewrite slice_ltb_app. auto.
Qed.

(** * Integers *)

Definition int_ok (int : key) : Prop :=
  exists head digits, int = head :: digits /\ integer_length head = Some (len int) /\
    Forall digit digits.

Definition key_ok (k int fraction : key) : Prop :=
  k = int ++ fraction /\ int_ok int /\ fraction_ok fraction /\ k <> SMALLEST.

Lemma integer_length_range head n :
  integer_length head = Some n <->
  97 <= head <= 122 /\ n = head - 95 \/ 65 <= head <= 90 /\ n = 92 - head.
Proof.
  unfold integer_length.
  destruct (Z.leb_spec 97 head), (Z.leb_spec head 122), (Z.leb_spec 65 head), (Z.leb_spec head 90);
    cbn; split; try (intros [= <-]); try lia; try (intros ?; f_equal; lia).
Qed.

Lemma forallb_digit l : forallb is_digit l = true <-> Forall digit l.
Proof.
  induction l as [|d l IH]; cbn; [by split; constructor|].
  by rewrite andb_true_iff, IH, is_digit_spec, Forall_cons.
Qed.

Lemma integer_Some k int :
  integer k = Some int <-> key_ok k int (drop (List.length int) k).
Proof.
  unfold integer, key_ok. split.
  - intros (head & Hh & (n & Hn & (frac & Hf & Hv)%bind_Some)%bind_Some)%bind_Some.
    destruct k as [|h k]; [done|]. injection Hh as <-.
    destruct (Z.leb_spec n (len (h :: k))) as [Hle|]; [|done]. injection Hf as <-.
    destruct (_ && _) eqn:Hb; [|done]. injection Hv as <-.
    apply andb_true_iff in Hb as [[Hne Hd]%andb_true_iff Hlast].
    apply negb_true_iff, bool_decide_eq_false in Hne, Hlast. apply forallb_digit in Hd. cbn in Hd.
    assert (2 <= n) as Hn2 by (apply integer_length_range in Hn; lia).
    assert (exists m, Z.to_nat n = S m) as [m Hm] by (exists (pred (Z.to_nat n)); lia).
    rewrite Hm in *. unfold len in *. cbn in Hle.
    assert (List.length (take (S m) (h :: k)) = S m) as Hlen by (rewrite length_take; cbn; lia).
    rewrite Hlen, take_drop. cbn [take drop] in *. split_and!; [done| | |done].
    + exists h, (take m k). split; [done|]. unfold len. cbn [List.length] in *.
      split; [rewrite Hn; f_equal; lia|by apply Forall_take].
    + split; [by apply Forall_drop|done].
  - set (frac := drop (List.length int) k). clearbody frac.
    intros (-> & (head & digits & -> & Hl & Hd) & [Hf Hlast] & Hne). cbn. rewrite Hl. cbn.
    rewrite (proj2 (Z.leb_le _ _)) by (unfold len; cbn; rewrite length_app; lia). cbn.
    unfold len. rewrite Nat2Z.id. cbn [List.length drop take].
    rewrite drop_app_length, take_app_length.
    rewrite (bool_decide_eq_false_2 _ Hlast), (bool_decide_eq_false_2 _ Hne).
    rewrite (proj2 (forallb_digit _)) by (by apply Forall_app). done.
Qed.

Lemma key_ok_integer k int frac : key_ok k int frac -> integer k = Some int.
Proof.
  intros H. apply integer_Some. pose proof H as (-> & _). by rewrite drop_app_length.
Qed.

Lemma diff_lt_not_zeros a n : Forall digit a -> ~ diff_lt a (replicate n ZERO).
Proof.
  intros Ha (p & x & y & a' & b' & -> & Hb & Hxy).
  apply Forall_app in Ha as [_ [Hx _]%Forall_cons]. apply digit_bounds in Hx.
  assert (y ∈ replicate n ZERO) as Hy by (rewrite Hb; set_solver).
  apply elem_of_replicate in Hy as [-> _]. unfold ZERO in *. lia.
Qed.

Lemma increment_digits_spec rd :
  Forall digit rd ->
  exists rd' returned, increment_digits rd = Ok (rd', returned) /\ Forall digit rd' /\
    List.length rd' = List.length rd /\ (returned = true -> diff_lt (rev rd) (rev rd')).
Proof.
  induction 1 as [|d ds Hd Hds (ds' & returned & IH & Hd' & Hlen & Hlt)].
  { exists [], false. split_and!; [done|constructor|done|done]. }
  cbn -[digit_at value]. destruct (Z.eqb_spec d last_digit) as [->|Hne].
  - rewrite IH. cbn. exists (ZERO :: ds'), returned. split_and!; [done| |cbn; lia|].
    + constructor; [apply zero_digit|done].
    + intros Hr. apply diff_lt_snoc, Hlt, Hr.
  - destruct Hd as (i & Hi & ->). rewrite value_code by done.
    assert (i <> 61) by (by intros ->).
    rewrite digit_at_code by lia. cbn -[code]. eexists _, true. split_and!; [done| |done|].
    + constructor; [exists (i + 1); split; [lia|done]|done].
    + intros _. exists (rev ds), (code i), (code (i + 1)), [], []. split_and!; [done..|].
      apply code_mono. lia.
Qed.

Lemma decrement_digits_spec rd :
  Forall digit rd ->
  exists rd' returned, decrement_digits rd = Ok (rd', returned) /\ Forall digit rd' /\
    List.length rd' = List.length rd /\ (returned = true -> diff_lt (rev rd') (rev rd)) /\
    (returned = false -> rd = replicate (List.length rd) ZERO).
Proof.
  induction 1 as [|d ds Hd Hds (ds' & returned & IH & Hd' & Hlen & Hlt & Hz)].
  { exists [], false. split_and!; [done|constructor|done..]. }
  cbn -[digit_at value]. destruct (Z.eqb_spec d ZERO) as [->|Hne].
  - rewrite IH. cbn. exists (last_digit :: ds'), returned. split_and!; [done| |cbn; lia| |].
    + constructor; [apply last_digit_digit|done].
    + intros Hr. apply diff_lt_snoc, Hlt, Hr.
    + intros Hr. f_equal. by apply Hz.
  - destruct Hd as (i & Hi & ->). rewrite value_code by done.
    assert (i <> 0) by (by intros ->).
    rewrite digit_at_code by lia. cbn -[code]. eexists _, true. split_and!; [done| |done| |done].
    + constructor; [exists (i - 1); split; [lia|done]|done].
    + intros _. exists (rev ds), (code (i - 1)), (code i), [], []. split_and!; [done..|].
      apply code_mono. lia.
Qed.

Lemma pop_length l : (0 < List.length l)%nat -> List.length (pop l) = (List.length l - 1)%nat.
Proof. intros H. unfold pop. rewrite length_take. lia. Qed.

Lemma rev_repeat' (n : nat) (x : Z) : rev (replicate n x) = replicate n x.
Proof.
  induction n as [|n IH]; [done|]. cbn. rewrite IH. by rewrite <- replicate_S_end.
Qed.

Lemma int_ok_cons head digits n :
  integer_length head = Some n -> Forall digit digits -> n = 1 + len digits ->
  int_ok (head :: digits).
Proof.
  intros Hn Hd ->. exists head, digits. split; [done|]. split; [|done].
  rewrite Hn. unfold len. cbn [List.length]. f_equal. lia.
Qed.

Lemma increment_spec int :
  int_ok int ->
  exists o, increment int = Ok o /\
    forall next, o = Some next -> int_ok next /\ diff_lt int next /\ next <> SMALLEST.
Proof.
  intros (head & digits & -> & Hl & Hd). cbn -[increment_digits].
  destruct (increment_digits_spec (rev digits)) as (rd & returned & -> & Hrd & Hlen & Hlt).
  { by apply Forall_rev. }
  cbn. rewrite rev_involutive in Hlt. rewrite length_rev in Hlen.
  assert (Forall digit (rev rd)) as Hrd' by (by apply Forall_rev).
  assert (len (rev rd) = len digits) as Hlen' by (unfold len; rewrite length_rev; lia).
  pose proof (proj1 (integer_length_range _ _) Hl) as Hrange.
  unfold len in Hl, Hrange. cbn [List.length] in Hl, Hrange. fold (len digits) in Hrange.
  assert (forall h ds, 66 <= h -> h :: ds <> SMALLEST) as Hns by (intros h ds Hh [= ->]; lia).
  destruct returned.
  - eexists. split; [done|]. intros next [= <-]. split_and!.
    + eapply int_ok_cons; [exact Hl|done|]. unfold len in *. lia.
    + by apply diff_lt_cons, Hlt.
    + intros [= -> E]. apply (diff_lt_not_zeros digits 26); [done|].
      assert (rev rd = replicate 26 ZERO) as <- by exact E. by apply Hlt.
  - destruct (Z.eqb_spec head 90) as [->|H90].
    { eexists. split; [done|]. intros next [= <-]. split_and!; [|by apply diff_lt_head|by apply Hns].
      apply (int_ok_cons _ _ 2); [done| |done]. repeat constructor. apply zero_digit. }
    destruct (Z.eqb_spec head 122) as [->|H122]; [by eexists|].
    destruct (Z.ltb_spec 97 (head + 1)) as [Hgt|Hle]; (eexists; split; [done|]);
      intros next [= <-]; (split_and!; [|apply diff_lt_head; lia|apply Hns; lia]).
    + eapply (int_ok_cons _ _ (head - 94)); [apply integer_length_range; lia| |].
      * apply Forall_app. split; [done|]. repeat constructor. apply zero_digit.
      * unfold len in *. rewrite length_app. cbn. lia.
    + eapply (int_ok_cons _ _ (91 - head)); [apply integer_length_range; lia|by apply Forall_take|].
      unfold len in *. rewrite pop_length; lia.
Qed.

Lemma decrement_spec int :
  int_ok int -> int <> SMALLEST ->
  exists smaller, decrement int = Ok (Some smaller) /\ int_ok smaller /\ diff_lt smaller int.
Proof.
  intros (head & digits & -> & Hl & Hd) Hns. cbn -[decrement_digits].
  destruct (decrement_digits_spec (rev digits)) as (rd & returned & -> & Hrd & Hlen & Hlt & Hz).
  { by apply Forall_rev. }
  cbn. rewrite rev_involutive in Hlt. rewrite length_rev in Hlen, Hz.
  assert (Forall digit (rev rd)) as Hrd' by (by apply Forall_rev).
  assert (len (rev rd) = len digits) as Hlen' by (unfold len; rewrite length_rev; lia).
  pose proof (proj1 (integer_length_range _ _) Hl) as Hrange.
  unfold len in Hl, Hrange. cbn [List.length] in Hl, Hrange. fold (len digits) in Hrange.
  destruct returned.
  - eexists. split; [done|]. split.
    + eapply int_ok_cons; [exact Hl|done|]. unfold len in *. lia.
    + by apply diff_lt_cons, Hlt.
  - destruct (Z.eqb_spec head 97) as [->|H97].
    { eexists. split; [done|]. split; [|by apply diff_lt_head].
      apply (int_ok_cons _ _ 2); [done| |done]. repeat constructor. apply last_digit_digit. }
    destruct (Z.eqb_spec head 65) as [->|H65].
    { exfalso. apply Hns. unfold SMALLEST. f_equal.
      rewrite <- (rev_involutive digits), (Hz eq_refl), rev_repeat'.
      f_equal. unfold len in Hrange. lia. }
    destruct (Z.ltb_spec (head - 1) 90) as [Hgt|Hle]; (eexists; split; [done|]);
      (split; [|apply diff_lt_head; lia]).
    + eapply (int_ok_cons _ _ (93 - head)); [apply integer_length_range; lia| |].
      * apply Forall_app. split; [done|]. repeat constructor. apply last_digit_digit.
      * unfold len in *. rewrite length_app. cbn. lia.
    + eapply (int_ok_cons _ _ (head - 96)); [apply integer_length_range; lia|by apply Forall_take|].
      unfold len in *. rewrite pop_length; lia.
Qed.

(** * Keys *)

Lemma same_length_diff a b x y :
  List.length a = List.length b -> a <> b -> slice_ltb (a ++ x) (b ++ y) = true -> diff_lt a b.
Proof.
  revert b. induction a as [|u a IH]; intros [|v b] Hl Hne Hlt; try done.
  cbn in Hlt. destruct (Z.ltb_spec u v); [by apply diff_lt_head|].
  destruct (Z.ltb_spec v u); [done|]. assert (u = v) as -> by lia.
  apply diff_lt_cons, IH; [by injection Hl|congruence|done].
Qed.

(** Integers are prefix-free, as the first byte gives the length. *)
Lemma int_ok_diff a b x y :
  int_ok a -> int_ok b -> a <> b -> slice_ltb (a ++ x) (b ++ y) = true -> diff_lt a b.
Proof.
  intros (h & da & -> & Hla & _) (g & db & -> & Hlb & _) Hne Hlt.
  destruct (decide (h = g)) as [->|Hhg].
  - eapply same_length_diff; [|done|done]. rewrite Hla in Hlb. unfold len in Hlb.
    injection Hlb as Hlb. cbn in *. lia.
  - cbn in Hlt. destruct (Z.ltb_spec h g); [by apply diff_lt_head|].
    destruct (Z.ltb_spec g h); [done|]. lia.
Qed.

#[local] Arguments midpoint_of : simpl never.
#[local] Arguments increment : simpl never.
#[local] Arguments decrement : simpl never.
#[local] Arguments SMALLEST : simpl never.

Lemma midpoint_of_none f :
  Forall digit f -> exists r, midpoint_of f None = Ok r /\ good_midpoint f None r.
Proof. intros Hf. apply midpoint_none; [done|]. unfold midpoint_fuel. lia. Qed.

Lemma midpoint_of_some f a :
  Forall digit f -> fraction_ok a -> slice_ltb f a = true ->
  exists r, midpoint_of f (Some a) = Ok r /\ good_midpoint f (Some a) r.
Proof.
  intros Hf Ha Hlt. apply midpoint_some; [|unfold midpoint_fuel; lia].
  split; [done|]. by intros ? [= <-].
Qed.

Lemma empty_fraction : fraction_ok [].
Proof. split; [constructor|done]. Qed.

(** An integer followed by a fraction that is not empty is a key. *)
Lemma key_with_fraction int r : int_ok int -> fraction_ok r -> r <> [] -> key_ok (int ++ r) int r.
Proof.
  intros Hi Hr Hne. split_and!; [done..|]. intros E.
  destruct Hi as (h & ds & -> & Hl & _). cbn in E. injection E as -> E.
  vm_compute (integer_length 65) in Hl. injection Hl as Hl. unfold len in Hl. cbn [List.length] in Hl.
  apply (f_equal List.length) in E. rewrite length_app in E. cbn [List.length] in E.
  destruct r; [done|]. cbn [List.length] in E. lia.
Qed.

Lemma key_integer int : int_ok int -> int <> SMALLEST -> key_ok int int [].
Proof. intros Hi Hn. split_and!; [by rewrite app_nil_r|done|apply empty_fraction|done]. Qed.

Lemma smallest_ok : int_ok SMALLEST.
Proof.
  eexists _, _. split; [done|]. split; [reflexivity|].
  apply Forall_replicate, zero_digit.
Qed.

(** [k] is a key between the neighbours. *)
Definition good_key (before after : option key) (k : key) : Prop :=
  (exists int frac, key_ok k int frac) /\
  (forall b, before = Some b -> slice_ltb b k = true) /\
  (forall a, after = Some a -> slice_ltb k a = true).

Lemma key_after b int frac :
  key_ok b int frac ->
  exists k, key_between (Some b) None = Ok k /\ good_key (Some b) None k.
Proof.
  intros Hb. cbn. rewrite (key_ok_integer _ _ _ Hb). destruct Hb as (-> & Hi & [Hf Hl] & Hne). cbn.
  destruct (increment_spec int Hi) as (o & -> & Ho). cbn. destruct o as [next|].
  - destruct (Ho next eq_refl) as (Hn & Hlt & Hs). eexists. split; [done|]. split_and!.
    + exists next, []. by apply key_integer.
    + intros ? [= <-]. rewrite <- (app_nil_r next). by apply diff_lt_slice.
    + done.
  - rewrite drop_app_length. destruct (midpoint_of_none frac Hf) as (r & -> & []). cbn.
    eexists. split; [done|]. split_and!; [|intros ? [= <-]; by rewrite slice_ltb_app|done].
    exists int, r. by apply key_with_fraction.
Qed.

Lemma key_before a int frac :
  key_ok a int frac ->
  exists k, key_between None (Some a) = Ok k /\ good_key None (Some a) k.
Proof.
  intros Ha. cbn. rewrite (key_ok_integer _ _ _ Ha). destruct Ha as (-> & Hi & Hf & Hne). cbn.
  rewrite drop_app_length. case_bool_decide as Hs.
  - assert (frac <> []) as Hfn by (intros ->; by rewrite app_nil_r in Hne).
    destruct (midpoint_of_some [] frac) as (r & -> & []); [constructor|done|by destruct frac|]. cbn.
    eexists. split; [done|]. split_and!; [|done|intros ? [= <-]; rewrite slice_ltb_app; auto].
    exists int, r. by apply key_with_fraction.
  - destruct (Z.ltb_spec (len int) (len (int ++ frac))) as [Hlen|Hlen].
    + eexists. split; [done|]. split_and!; [exists int, []; by apply key_integer|done|].
      intros ? [= <-]. apply slice_ltb_prefix. intros ->. rewrite app_nil_r in Hlen. lia.
    + destruct (decrement_spec int Hi Hs) as (smaller & -> & Hsm & Hlt). cbn.
      case_bool_decide as Hsmall.
      * destruct (midpoint_of_none []) as (r & -> & []); [constructor|]. cbn -[SMALLEST].
        eexists. split; [done|]. split_and!; [|done|intros ? [= <-]; apply diff_lt_slice; by subst].
        exists SMALLEST, r. apply key_with_fraction; [apply smallest_ok|done|done].
      * eexists. split; [done|]. split_and!; [exists smaller, []; by apply key_integer|done|].
        intros ? [= <-]. rewrite <- (app_nil_r smaller). by apply diff_lt_slice.
Qed.

Lemma key_inside b a low high fb fa :
  key_ok b low fb -> key_ok a high fa -> slice_ltb b a = true ->
  exists k, key_between (Some b) (Some a) = Ok k /\ good_key (Some b) (Some a) k.
Proof.
  intros Hb Ha Hlt. cbn. rewrite (key_ok_integer _ _ _ Hb), (key_ok_integer _ _ _ Ha).
  destruct Hb as (-> & Hil & [Hfb Hlb] & Hnb), Ha as (-> & Hih & Hfa & Hna). cbn.
  rewrite !drop_app_length. case_bool_decide as Heq.
  - subst high. rewrite slice_ltb_app in Hlt.
    destruct (midpoint_of_some fb fa) as (r & -> & []); [done..|]. cbn.
    eexists. split; [done|]. split_and!.
    + exists low, r. by apply key_with_fraction.
    + intros ? [= <-]. by rewrite slice_ltb_app.
    + intros ? [= <-]. rewrite slice_ltb_app. auto.
  - pose proof (int_ok_diff low high fb fa Hil Hih Heq Hlt) as Hd.
    assert (exists k, (middle ← midpoint_of fb None; Ok (E:=Empty_set) (low ++ middle)) = Ok k /\
      good_key (Some (low ++ fb)) (Some (high ++ fa)) k) as Hmid.
    { destruct (midpoint_of_none fb Hfb) as (r & -> & []). cbn. eexists. split; [done|]. split_and!.
      - exists low, r. by apply key_with_fraction.
      - intros ? [= <-]. by rewrite slice_ltb_app.
      - intros ? [= <-]. by apply diff_lt_slice. }
    destruct (increment_spec low Hil) as (o & -> & Ho). cbn. destruct o as [next|]; [|done].
    destruct (slice_ltb next (high ++ fa)) eqn:Hnext; [|done].
    destruct (Ho next eq_refl) as (Hn & Hl & Hs). eexists. split; [done|]. split_and!.
    + exists next, []. by apply key_integer.
    + intros ? [= <-]. rewrite <- (app_nil_r next). by apply diff_lt_slice.
    + by intros ? [= <-].
Qed.

Lemma is_key_iff k : is_key k = true <-> exists int frac, key_ok k int frac.
Proof.
  unfold is_key. split.
  - destruct (integer k) as [int|] eqn:E; [|done]. intros _. rewrite integer_Some in E. eauto.
  - intros (int & frac & Hk). by rewrite (key_ok_integer _ _ _ Hk).
Qed.

Lemma key_ok_ascii k int frac : key_ok k int frac -> from_ascii k = Some k.
Proof.
  intros (-> & (h & ds & -> & Hl & Hd) & [Hf _] & _). unfold from_ascii.
  assert (forallb (fun b => (0 <=? b) && (b <? 128)) ((h :: ds) ++ frac) = true) as ->; [|done].
  apply forallb_forall. intros x [[<-|Hx]%elem_of_cons|Hx]%list_elem_of_In%elem_of_app.
  - apply integer_length_range in Hl. lia.
  - rewrite Forall_forall in Hd. apply Hd, digit_bounds in Hx. lia.
  - rewrite Forall_forall in Hf. apply Hf, digit_bounds in Hx. lia.
Qed.

Lemma key_between_good before after :
  (forall b, before = Some b -> is_key b = true) ->
  (forall a, after = Some a -> is_key a = true) ->
  (forall b a, before = Some b -> after = Some a -> slice_ltb b a = true) ->
  exists k, key_between before after = Ok k /\ good_key before after k.
Proof.
  intros Hb Ha Hba. destruct before as [b|], after as [a|].
  - destruct (proj1 (is_key_iff b) (Hb b eq_refl)) as (low & fb & Hkb).
    destruct (proj1 (is_key_iff a) (Ha a eq_refl)) as (high & fa & Hka).
    eapply key_inside; eauto.
  - destruct (proj1 (is_key_iff b) (Hb b eq_refl)) as (low & fb & Hkb). eapply key_after; eauto.
  - destruct (proj1 (is_key_iff a) (Ha a eq_refl)) as (high & fa & Hka). eapply key_before; eauto.
  - eexists. split; [done|]. split_and!; [|done..]. by apply is_key_iff.
Qed.

Lemma keep_Some {A} (p : A -> bool) o a : keep p o = Some a <-> o = Some a /\ p a = true.
Proof.
  unfold keep. destruct o as [x|]; cbn; [|naive_solver].
  destruct (p x) eqn:E; naive_solver congruence.
Qed.

(** A neighbour counts when it is a key, and the upper one only when it lies above the lower. *)
Definition lower_neighbour (before : option key) (b : key) : Prop :=
  before = Some b /\ is_key b = true.

Definition upper_neighbour (before after : option key) (a : key) : Prop :=
  after = Some a /\ is_key a = true /\ forall b, lower_neighbour before b -> slice_ltb b a = true.

Lemma between_good before after :
  exists k, between before after = Ok k /\ is_key k = true /\
    (forall b, lower_neighbour before b -> slice_ltb b k = true) /\
    (forall a, upper_neighbour before after a -> slice_ltb k a = true).
Proof.
  unfold between, lower_neighbour, upper_neighbour.
  set (b' := keep is_key before). set (a' := keep _ (keep is_key after)).
  assert (forall b, b' = Some b <-> before = Some b /\ is_key b = true) as Hb
    by (intros b; apply keep_Some).
  assert (forall a, a' = Some a <-> (after = Some a /\ is_key a = true) /\
    match b' with Some b => slice_ltb b a | None => true end = true) as Ha.
  { intros a. unfold a'. rewrite keep_Some, keep_Some. done. }
  destruct (key_between_good b' a') as (k & -> & (int & frac & Hk) & Hlow & Hhigh).
  { intros b. rewrite Hb. naive_solver. }
  { intros a. rewrite Ha. naive_solver. }
  { intros b a Eb [_ Hlt]%Ha. by rewrite Eb in Hlt. }
  exists k. cbn. rewrite (key_ok_ascii _ _ _ Hk). split_and!; [done|by eapply is_key_iff; eauto| |].
  - intros b Hbb. by apply Hlow, Hb.
  - intros a (Eaf & Hka & Hab). apply Hhigh, Ha. split; [done|].
    destruct b' as [b|]; [|done]. apply Hab. by apply Hb.
Qed.

(** C32: [between] always answers, for any two neighbours: what it returns is a well-formed
    sort key, strictly above the lower neighbour (when that is a key) and strictly below the
    upper one (when that is a key above the lower).  Hence two distinct keys always have a
    key between them, no matter how often keys were made between them before. *)
Theorem between_spec before after :
  exists k, between before after = Ok k /\ is_key k = true /\
    (forall b, lower_neighbour before b -> slice_ltb b k = true) /\
    (forall a, upper_neighbour before after a -> slice_ltb k a = true).
Proof. apply between_good. Qed.
