(* ===== verification/Document.v ===== *)
(** The document schema of Liquid ([liquid-core/src/model.rs]): how the objects of a document
    are read, in which order siblings stand, and the Page tree of an area.

    The document itself is the CRDT library's: it is the class [AutoDoc], with the two
    reads the code makes.  [String]s are Rocq strings of bytes; a sort key is compared and
    extended as the bytes of its string ([bytes]). *)

From Stdlib Require Import ZArith Lia Ascii String.
From stdpp Require Import base strings sorting sets option gmap list.
From S2P Require Import Prelude Sorting SortKey.

Open Scope Z_scope.

(** * Errors ([mutation.rs], [Error]) *)

Inductive Error : Type :=
| NotAllowed | NotFound | OutOfRange | NoChange | SectionBoundary | WrongKind | TooMany | Random
| DocumentError (message : string)
| StorageError (message : string).

(** * The document *)

(** What a map of the document holds under a key. *)
Inductive ValueRef (obj : Type) : Type :=
| VMap (id : obj)
| VObject (id : obj)
| VStr (value : string)
| VBoolean (value : bool)
| VScalar.

Arguments VMap {obj} id.
Arguments VObject {obj} id.
Arguments VStr {obj} value.
Arguments VBoolean {obj} value.
Arguments VScalar {obj}.

Class AutoDoc := {
  ObjId : Type;
  ROOT : ObjId;
  (** [doc.get(obj, key)], [None] when it fails or holds nothing. *)
  doc_get : ObjId -> string -> option (ValueRef ObjId);
  (** [doc.map_range(obj, ..)]. *)
  map_range : ObjId -> list (string * ValueRef ObjId);
}.

(** A map is read in the order of its keys, each once. *)
Class AutoDocLaws (D : AutoDoc) := {
  map_range_keys : forall o, StronglySorted str_lt (map_range o).*1;
}.

Definition BLOCKS : string := "blocks".
Definition VIEWS : string := "views".
Definition AREAS : string := "areas".
Definition PAGES : string := "pages".
Definition NAME : string := "name".
Definition TITLE : string := "title".
Definition PARENT : string := "parent".
Definition SORT : string := "sort".
Definition DELETED : string := "deleted".
Definition KIND : string := "kind".
Definition BLOCK : string := "block".
Definition BOUNDARY : string := "boundary".

(** * Views and Blocks *)

Inductive BlockKind : Type := KText | KDatabase | KUnknown.

#[export] Instance BlockKind_eq_dec : EqDecision BlockKind.
Proof. solve_decision. Defined.

Definition BlockKind_of (name : option string) : BlockKind :=
  match name with
  | Some name =>
      if String.eqb name "text" then KText
      else if String.eqb name "database" then KDatabase
      else KUnknown
  | None => KUnknown
  end.

Record View : Type := mkView {
  v_id : string;
  v_block : string;
  v_boundary : bool;
  v_kind : BlockKind;
}.

Record Area : Type := mkArea { area_id : string; area_name : string }.

Record PageEntry : Type := mkPage {
  page_id : string;
  page_parent : option string;
  page_title : string;
}.

(** * Entries *)

Record Entry : Type := mkEntry { e_id : string; e_fields : list (string * string) }.

(** [Entry::get]. *)
Definition get (e : Entry) (key : string) : option string :=
  find_map (fun '(field, value) => if String.eqb field key then Some value else None) (e_fields e).

(** [Ord for Option<&str>]: nothing comes first. *)
Definition opt_cmp (a b : option string) : comparison :=
  match a, b with
  | None, None => Eq
  | None, Some _ => Lt
  | Some _, None => Gt
  | Some a, Some b => str_cmp a b
  end.

Definition entry_cmp (a b : Entry) : comparison :=
  match opt_cmp (get a SORT) (get b SORT) with
  | Eq => str_cmp (e_id a) (e_id b)
  | c => c
  end.

Definition entry_leb (a b : Entry) : bool := match entry_cmp a b with Gt => false | _ => true end.

(** [bool::to_string]. *)
Definition bool_to_string (b : bool) : string := if b then "true" else "false".

Section document.
Context {D : AutoDoc}.

(** The loop over an object's fields: whether it is live, and its text fields. *)
Fixpoint read_fields (live : bool) (fields : list (string * string))
    (l : list (string * ValueRef ObjId)) : bool * list (string * string) :=
  match l with
  | [] => (live, fields)
  | (key, value) :: l =>
      match value with
      | VStr value => read_fields live (fields ++ [(key, value)]) l
      | VBoolean false =>
          if String.eqb key DELETED then read_fields true fields l
          else read_fields live (fields ++ [(key, bool_to_string false)]) l
      | VBoolean value => read_fields live (fields ++ [(key, bool_to_string value)]) l
      | VMap _ | VObject _ | VScalar => read_fields live fields l
      end
  end.

Definition read_entry (item : string * ValueRef ObjId) : option Entry :=
  match item.2 with
  | VMap obj =>
      let '(live, fields) := read_fields false [] (map_range obj) in
      if live : bool then Some (mkEntry item.1 fields) else None
  | _ => None
  end.

Definition sorted_in (map : ObjId) : list Entry :=
  sort_by entry_leb (omap read_entry (map_range map)).

Definition child (parent : ObjId) (key : string) : option ObjId :=
  match doc_get parent key with
  | Some (VMap id) | Some (VObject id) => Some id
  | _ => None
  end.

Definition sorted (map : string) : list Entry :=
  match child ROOT map with
  | Some top => sorted_in top
  | None => []
  end.

Definition areas : list Area :=
  (fun e => mkArea (e_id e) (default "" (get e NAME))) <$> sorted AREAS.
End document.

(** * Places among siblings *)

(** The bytes of a string. *)
Fixpoint bytes (s : string) : key :=
  match s with
  | EmptyString => []
  | String a s => byte a :: bytes s
  end.

Inductive Place (A : Type) : Type := First | After (a : A) | Last.
Arguments First {A}.
Arguments After {A} a.
Arguments Last {A}.

Definition sort_at (siblings : list Entry) (place : Place string) : result Error key :=
  index ← match place with
          | First => Ok O
          | After after =>
              '(i, _) ← ok_or (list_find (fun e => e_id e = after) siblings) NotFound; Ok (S i)
          | Last => Ok (List.length siblings)
          end;
  let key i := e ← siblings !! i; bytes <$> get e SORT in
  (* [index.checked_sub(1).and_then(key)] *)
  let before := match index with O => None | S i => key i end in
  match between before (key index) with
  | Ok k => Ok k
  | Err e => match e return result Error SortKey.key with end
  | Panic => Panic
  end.

Definition sort_after (siblings : list Entry) (after : option string) : result Error key :=
  sort_at siblings (match after with None => First | Some after => After after end).

(** * The Page tree *)

(** [HashMap<Option<String>, Vec<PageEntry>>]. *)
Abbreviation Children := (gmap (option string) (list PageEntry)).

Definition page_of (e : Entry) : PageEntry :=
  mkPage (e_id e) (get e PARENT) (default "" (get e TITLE)).

(** [children.entry(parent).or_default().push(page)]. *)
Definition push_child (children : Children) (p : PageEntry) : Children :=
  <[page_parent p := default [] (children !! page_parent p) ++ [p]]> children.

Definition group_children (l : list Entry) : Children :=
  foldl (fun children e => push_child children (page_of e)) ∅ l.

(** The loop over [pending]; the last page of the vector is the head of the list, so that
    [pending.pop()] takes the head and [nested.reverse(); pending.extend(nested)] prepends. *)
Fixpoint walk (fuel : nat) (children : Children) (pending : list PageEntry) : option (list PageEntry) :=
  match pending with
  | [] => Some []
  | entry :: pending =>
      match fuel with
      | O => None
      | S fuel =>
          let nested := default [] (children !! Some (page_id entry)) in
          rest ← walk fuel (delete (Some (page_id entry)) children) (nested ++ pending);
          Some (entry :: rest)
      end
  end.

(** [None] is out of fuel; one unit per live page is enough ([pages_correct]). *)
Definition pages_of (entries : list Entry) : option (list PageEntry) :=
  let children := group_children entries in
  walk (List.length entries) (delete None children) (default [] (children !! None)).

Definition pages {D : AutoDoc} : option (list PageEntry) := pages_of (sorted PAGES).

(** * Text styles *)

Inductive TextStyle : Type :=
| Paragraph
| Heading (level : Z)
| Bullet
| Numbered
| Todo (done : bool)
| Quote.

Definition style_name (style : TextStyle) : result Error string :=
  match style with
  | Paragraph => Ok "paragraph"
  | Heading level =>
      if (level =? 1)%Z then Ok "heading1"
      else if (level =? 2)%Z then Ok "heading2"
      else if (level =? 3)%Z then Ok "heading3"
      else Err OutOfRange
  | Bullet => Ok "bullet"
  | Numbered => Ok "numbered"
  | Todo false => Ok "todo"
  | Todo true => Ok "done"
  | Quote => Ok "quote"
  end%string.

Definition style (name : option string) : TextStyle :=
  match name with
  | Some name =>
      if String.eqb name "heading1" then Heading 1
      else if String.eqb name "heading2" then Heading 2
      else if String.eqb name "heading3" then Heading 3
      else if String.eqb name "bullet" then Bullet
      else if String.eqb name "numbered" then Numbered
      else if String.eqb name "todo" then Todo false
      else if String.eqb name "done" then Todo true
      else if String.eqb name "quote" then Quote
      else Paragraph
  | None => Paragraph
  end.

Lemma style_round_trip s name : style_name s = Ok name -> style (Some name) = s.
Proof.
  destruct s as [|level| | |[]|]; cbn [style_name]; try (intros [= <-]; reflexivity).
  destruct (Z.eqb_spec level 1) as [->|]; [intros [= <-]; reflexivity|].
  destruct (Z.eqb_spec level 2) as [->|]; [intros [= <-]; reflexivity|].
  destruct (Z.eqb_spec level 3) as [->|]; [intros [= <-]; reflexivity|]. done.
Qed.
