(* ===== verification/DocumentTheory.v ===== *)
(** Theorems on the document schema ([Document]): siblings stand in the order of their sort
    keys, a new sibling lands at its place, and the Page tree of an area lists every page
    that hangs under the root exactly once, each followed by its descendants. *)

From Stdlib Require Import ZArith Lia Ascii String.
From stdpp Require Import base strings sorting sets option gmap list.
From S2P Require Import Prelude Sorting SortKey SortKeyTheory Document.

Open Scope Z_scope.

(** * The order of entries *)

Lemma opt_cmp_refl a : opt_cmp a a = Eq.
Proof. destruct a; [apply str_cmp_refl|done]. Qed.

Lemma opt_cmp_eq a b : opt_cmp a b = Eq <-> a = b.
Proof.
  destruct a, b; cbn; rewrite ?str_cmp_eq; naive_solver.
Qed.

Lemma opt_cmp_antisym a b : opt_cmp b a = CompOpp (opt_cmp a b).
Proof. destruct a, b; cbn; auto using str_cmp_antisym. Qed.

Lemma opt_cmp_trans a b c : opt_cmp a b = Lt -> opt_cmp b c = Lt -> opt_cmp a c = Lt.
Proof. destruct a, b, c; cbn; try done. apply str_lt_trans. Qed.

Definition entry_lt (a b : Entry) : Prop := entry_cmp a b = Lt.

Lemma entry_lt_iff a b :
  entry_lt a b <->
  opt_cmp (get a SORT) (get b SORT) = Lt \/ get a SORT = get b SORT /\ str_lt (e_id a) (e_id b).
Proof.
  unfold entry_lt, entry_cmp, str_lt. rewrite <- opt_cmp_eq.
  destruct (opt_cmp _ _) eqn:E; naive_solver congruence.
Qed.

Lemma entry_cmp_antisym a b : entry_cmp b a = CompOpp (entry_cmp a b).
Proof.
  unfold entry_cmp. rewrite (opt_cmp_antisym (get a SORT)).
  destruct (opt_cmp _ _); cbn; auto using str_cmp_antisym.
Qed.

#[export] Instance entry_lt_trans : Transitive entry_lt.
Proof.
  intros a b c. rewrite !entry_lt_iff. intros [H|[H H']] [G|[G G']].
  - left. by eapply opt_cmp_trans.
  - left. by rewrite <- G.
  - left. by rewrite H.
  - right. split; [congruence|]. by transitivity (e_id b).
Qed.

Lemma entry_leb_iff a b :
  entry_leb a b = true <-> entry_lt a b \/ get a SORT = get b SORT /\ e_id a = e_id b.
Proof.
  unfold entry_leb, entry_lt, entry_cmp. rewrite <- opt_cmp_eq, <- str_cmp_eq.
  destruct (opt_cmp _ _), (str_cmp _ _); naive_solver congruence.
Qed.

Lemma entry_leb_total a b : entry_leb a b = true \/ entry_leb b a = true.
Proof.
  unfold entry_leb. rewrite (entry_cmp_antisym a b). destruct (entry_cmp a b); cbn; auto.
Qed.

Lemma entry_leb_trans a b c :
  entry_leb a b = true -> entry_leb b c = true -> entry_leb a c = true.
Proof.
  rewrite !entry_leb_iff. intros [H|[H H']] [G|[G G']].
  - left. by transitivity b.
  - left. rewrite !entry_lt_iff in *. by rewrite <- G, <- G'.
  - left. rewrite !entry_lt_iff in *. by rewrite H, H'.
  - right. split; congruence.
Qed.

(** * Reading *)

Section reading.
Context {D : AutoDoc} {DL : AutoDocLaws D}.

Lemma str_lt_sorted_NoDup l : StronglySorted str_lt l -> NoDup l.
Proof.
  induction 1 as [|s l Hs IH Hf]; constructor; [|done].
  intros Hin. rewrite Forall_forall in Hf. by apply (irreflexivity str_lt s), Hf.
Qed.

Lemma omap_ids (l : list (string * ValueRef ObjId)) :
  e_id <$> omap read_entry l `sublist_of` l.*1.
Proof.
  induction l as [|[k v] l IH]; cbn; [constructor|].
  assert (forall e, read_entry (k, v) = Some e -> e_id e = k) as Hk.
  { unfold read_entry. cbn. destruct v; try done.
    destruct (read_fields _ _ _) as [live fields]. destruct live; naive_solver. }
  destruct (read_entry (k, v)) as [e|] eqn:E; [|by constructor].
  cbn. rewrite (Hk e) by done. by constructor.
Qed.

Lemma sorted_in_NoDup map : NoDup (e_id <$> sorted_in map).
Proof.
  unfold sorted_in. rewrite sort_by_perm.
  eapply sublist_NoDup; [|apply omap_ids]. apply str_lt_sorted_NoDup, map_range_keys.
Qed.

Lemma sorted_NoDup map : NoDup (e_id <$> sorted map).
Proof. unfold sorted. destruct (child ROOT map); [apply sorted_in_NoDup|constructor]. Qed.

(** With distinct identities the order of the entries is strict. *)
Lemma strict_sorted l :
  NoDup (e_id <$> l) -> StronglySorted (before_eq entry_leb) l -> StronglySorted entry_lt l.
Proof.
  intros Hn Hs. induction Hs as [|e l Hs IH Hf]; [constructor|].
  cbn in Hn. apply NoDup_cons in Hn as [Hni Hn]. constructor; [auto|].
  rewrite Forall_forall in Hf |- *. intros x Hx. specialize (Hf x Hx).
  unfold before_eq in Hf. apply entry_leb_iff in Hf as [|[_ Hid]]; [done|].
  exfalso. apply Hni. rewrite Hid. by apply list_elem_of_fmap_2.
Qed.

Lemma sorted_in_strict map : StronglySorted entry_lt (sorted_in map).
Proof.
  apply strict_sorted; [apply sorted_in_NoDup|].
  apply sort_by_sorted; [apply entry_leb_total|apply entry_leb_trans].
Qed.

Lemma sorted_strict map : StronglySorted entry_lt (sorted map).
Proof. unfold sorted. destruct (child ROOT map); [apply sorted_in_strict|constructor]. Qed.

(** A live entry: its object is a map whose [deleted] field is [false]. *)
Lemma read_fields_live live fields l :
  (read_fields live fields l).1 = true <-> live = true \/ (DELETED, VBoolean false) ∈ l.
Proof using Type.
  clear DL. revert live fields. induction l as [|[k v] l IH]; intros live fields; cbn.
  { rewrite elem_of_nil. naive_solver. }
  rewrite elem_of_cons. destruct v as [| |s|b|]; rewrite ?IH; [naive_solver..| |naive_solver].
  destruct b; [rewrite IH; naive_solver|].
  destruct (String.eqb_spec k DELETED) as [->|Hne]; rewrite IH; naive_solver.
Qed.
End reading.

(** * The Page tree *)

Section tree.
Context (entries : list Entry).

Definition all_pages : list PageEntry := page_of <$> entries.

(** The pages under [parent], in the order of their entries. *)
Definition children_of (parent : option string) : list PageEntry :=
  filter (fun p => page_parent p = parent) all_pages.

(** [subtrees siblings tree]: [tree] lists the siblings in order, each followed by its own
    subtrees. *)
Inductive subtrees : list PageEntry -> list PageEntry -> Prop :=
| subtrees_nil : subtrees [] []
| subtrees_cons p siblings nested rest :
    subtrees (children_of (Some (page_id p))) nested ->
    subtrees siblings rest ->
    subtrees (p :: siblings) (p :: nested ++ rest).

(** A page that hangs under the root: its chain of parents ends. *)
Inductive rooted : PageEntry -> Prop :=
| rooted_top p : p ∈ all_pages -> page_parent p = None -> rooted p
| rooted_child p q :
    p ∈ all_pages -> rooted q -> page_parent p = Some (page_id q) -> rooted p.

Lemma subtrees_app a b tree :
  subtrees (a ++ b) tree -> exists l r, tree = l ++ r /\ subtrees a l /\ subtrees b r.
Proof.
  revert tree. induction a as [|p a IH]; intros tree H.
  - exists [], tree. split_and!; [done|constructor|done].
  - inversion H as [|? ? nested rest Hn Hr]; subst. destruct (IH _ Hr) as (l & r & -> & Hl & Hrr).
    exists (p :: nested ++ l), r. split_and!; [cbn; by rewrite <- app_assoc|by constructor|done].
Qed.

Lemma subtrees_rooted siblings tree :
  subtrees siblings tree -> Forall rooted siblings -> Forall rooted tree.
Proof.
  induction 1 as [|p siblings nested rest Hn IHn Hr IHr]; [done|].
  intros [Hp Hs]%Forall_cons. constructor; [done|]. apply Forall_app. split; [|auto].
  apply IHn, Forall_forall. intros q [Hq Hin]%list_elem_of_filter. by eapply rooted_child.
Qed.

Lemma subtrees_closed siblings tree :
  subtrees siblings tree ->
  siblings ⊆ tree /\ forall p, p ∈ tree -> children_of (Some (page_id p)) ⊆ tree.
Proof.
  induction 1 as [|p siblings nested rest Hn [IHn IHn'] Hr [IHr IHr']]; [set_solver|].
  split; [set_solver|]. intros q [->|[Hq|Hq]%elem_of_app]%elem_of_cons; set_solver.
Qed.

Lemma subtrees_complete tree p : subtrees (children_of None) tree -> rooted p -> p ∈ tree.
Proof.
  intros [Ht Hc]%subtrees_closed. induction 1 as [p Hp Hn|p q Hp Hq IH Hpq].
  - apply Ht. by apply list_elem_of_filter.
  - eapply Hc; [exact IH|]. by apply list_elem_of_filter.
Qed.

(** ** The groups *)

Lemma push_child_lookup ch p k :
  default [] (push_child ch p !! k) =
    default [] (ch !! k) ++ (if decide (page_parent p = k) then [p] else []).
Proof.
  unfold push_child. destruct (decide (page_parent p = k)) as [->|Hne].
  - by rewrite lookup_insert_eq.
  - by rewrite lookup_insert_ne, app_nil_r.
Qed.

#[local] Arguments push_child : simpl never.

Lemma group_from ch l k :
  default [] (foldl (fun ch e => push_child ch (page_of e)) ch l !! k) =
    default [] (ch !! k) ++ filter (fun p => page_parent p = k) (page_of <$> l).
Proof.
  revert ch. induction l as [|e l IH]; intros ch; [by rewrite app_nil_r|].
  cbn [foldl]. rewrite fmap_cons, IH, push_child_lookup, <- app_assoc. f_equal.
  rewrite filter_cons. by destruct (decide _).
Qed.

Lemma group_children_lookup k : default [] (group_children entries !! k) = children_of k.
Proof. unfold group_children. by rewrite group_from, lookup_empty. Qed.

(** ** The walk *)

Abbreviation visited := (gset (option string)).

(** The groups that are left: those of the keys not yet visited. *)
Definition groups_left (V : visited) (ch : Children) : Prop :=
  forall k, default [] (ch !! k) = if decide (k ∈ V) then [] else children_of k.

Definition unvisited (V : visited) : list PageEntry :=
  filter (fun p => page_parent p ∉ V) all_pages.

Lemma groups_left_delete V ch k :
  groups_left V ch -> groups_left ({[k]} ∪ V) (delete k ch).
Proof.
  intros H j. destruct (decide (j = k)) as [->|Hne].
  - rewrite lookup_delete_eq. rewrite decide_True by set_solver. done.
  - rewrite lookup_delete_ne by done. rewrite H. do 2 case_decide; set_solver.
Qed.

Lemma unvisited_visit V k :
  k ∉ V ->
  List.length (unvisited V) = (List.length (children_of k) + List.length (unvisited ({[k]} ∪ V)))%nat.
Proof.
  intros Hk. unfold unvisited, children_of. induction all_pages as [|p l IH]; [done|].
  rewrite !filter_cons. repeat case_decide; cbn; set_solver by lia.
Qed.

Lemma unvisited_le V k :
  (List.length (unvisited ({[k]} ∪ V)) <= List.length (unvisited V))%nat.
Proof.
  unfold unvisited. induction all_pages as [|p l IH]; [done|].
  rewrite !filter_cons. repeat case_decide; cbn; set_solver by lia.
Qed.

(** Every page visited uses up a pending page, and its group moves to the pending ones. *)
Lemma walk_total fuel V ch pending :
  groups_left V ch ->
  (List.length (unvisited V) + List.length pending <= fuel)%nat ->
  exists tree, walk fuel ch pending = Some tree.
Proof.
  revert V ch pending. induction fuel as [|fuel IH]; intros V ch [|p pending] Hg Hf;
    cbn [walk]; [by eexists|cbn in Hf; lia|by eexists|].
  destruct (IH ({[Some (page_id p)]} ∪ V) (delete (Some (page_id p)) ch)
    (default [] (ch !! Some (page_id p)) ++ pending)) as [tree ->]; [by apply groups_left_delete| |by eexists].
  rewrite length_app, Hg. cbn in Hf. case_decide as Hv.
  - pose proof (unvisited_le V (Some (page_id p))). cbn. lia.
  - pose proof (unvisited_visit V _ Hv). lia.
Qed.

(** What holds of the pages that wait. *)
Record walk_inv (V : visited) (pending : list PageEntry) : Prop := {
  wi_pages : pending ⊆ all_pages;
  wi_nodup : NoDup pending;
  wi_new : forall p, p ∈ pending -> Some (page_id p) ∉ V;
  wi_parents : forall p, p ∈ all_pages -> Some (page_id p) ∈ V \/ p ∈ pending -> page_parent p ∈ V;
}.

Context (Hids : NoDup (page_id <$> all_pages)).

Lemma page_id_inj p q : p ∈ all_pages -> q ∈ all_pages -> page_id p = page_id q -> p = q.
Proof.
  intros Hp Hq E. apply list_elem_of_lookup in Hp as [i Hi], Hq as [j Hj].
  assert (i = j) as ->; [|congruence].
  eapply NoDup_lookup; [exact Hids| |]; rewrite list_lookup_fmap.
  - by rewrite Hi.
  - by rewrite Hj, E.
Qed.

Lemma walk_inv_step V p pending :
  walk_inv V (p :: pending) ->
  walk_inv ({[Some (page_id p)]} ∪ V) (children_of (Some (page_id p)) ++ pending).
Proof.
  intros [Hsub [Hni Hn]%NoDup_cons Hnew Hpar].
  assert (p ∈ all_pages) as Hp by set_solver.
  assert (Some (page_id p) ∉ V) as HpV by (apply Hnew; set_solver).
  assert (forall c, c ∈ children_of (Some (page_id p)) ->
    c ∈ all_pages /\ page_parent c = Some (page_id p) /\ (Some (page_id c) ∉ V) /\ (c ∉ p :: pending)) as Hc.
  { intros c [Hc Hin]%list_elem_of_filter. split_and!; [done..| |]; intros Hbad.
    - apply HpV. rewrite <- Hc. apply Hpar; [done|by left].
    - apply HpV. rewrite <- Hc. apply Hpar; [done|by right]. }
  split.
  - intros q [Hq|Hq]%elem_of_app; [by apply Hc|set_solver].
  - apply NoDup_app. split_and!; [|intros c Hcc; apply Hc in Hcc; set_solver|done].
    apply NoDup_filter. by eapply NoDup_fmap_1.
  - intros q [Hq|Hq]%elem_of_app.
    + destruct (Hc q Hq) as (Hqa & _ & HqV & Hqn). rewrite elem_of_union, elem_of_singleton.
      intros [[= E]|?]; [|done]. apply Hqn. rewrite (page_id_inj q p) by done. by left.
    + rewrite elem_of_union, elem_of_singleton. intros [[= E]|HqV]; [|by apply (Hnew q); [right|]].
      apply Hni. rewrite <- (page_id_inj q p); [done|set_solver|done|done].
  - intros q Hq [Hv|[Hin|Hin]%elem_of_app].
    + rewrite elem_of_union, elem_of_singleton in Hv. destruct Hv as [[= E]|Hv];
        [|apply elem_of_union_r, Hpar; [done|by left]].
      rewrite (page_id_inj q p) by done. apply elem_of_union_r, Hpar; [done|]. right; by left.
    + destruct (Hc q Hin) as (_ & -> & _). set_solver.
    + apply elem_of_union_r, Hpar; [done|]. right; by right.
Qed.

Lemma walk_spec fuel V ch pending tree :
  groups_left V ch -> walk_inv V pending -> walk fuel ch pending = Some tree ->
  subtrees pending tree /\ NoDup (page_id <$> tree) /\ (forall p, p ∈ tree -> Some (page_id p) ∉ V).
Proof.
  revert V ch pending tree.
  induction fuel as [|fuel IH]; intros V ch [|p pending] tree Hg Hi; cbn [walk];
    try (intros [= <-]; split_and!; [constructor|constructor|set_solver]); [done|].
  intros (rest & Hw & [= <-])%bind_Some.
  assert (Some (page_id p) ∉ V) as HpV by (apply Hi; set_solver).
  rewrite Hg, decide_False in Hw by done.
  apply (IH ({[Some (page_id p)]} ∪ V)) in Hw as (Hs & Hn & Hv);
    [|by apply groups_left_delete|by apply walk_inv_step].
  apply subtrees_app in Hs as (l & r & -> & Hl & Hr).
  split_and!.
  - by constructor.
  - rewrite fmap_cons. constructor; [|done]. intros (q & E & Hq)%list_elem_of_fmap.
    apply (Hv q Hq). rewrite <- E. set_solver.
  - intros q [->|Hq]%elem_of_cons; [done|]. specialize (Hv q Hq). set_solver.
Qed.
End tree.

Lemma pages_of_total entries : exists tree, pages_of entries = Some tree.
Proof.
  unfold pages_of. apply (walk_total entries _ {[None]}).
  - intros k. destruct (decide (k = None)) as [->|Hne].
    + by rewrite lookup_delete_eq.
    + rewrite lookup_delete_ne by done. rewrite group_children_lookup, decide_False by set_solver. done.
  - rewrite group_children_lookup.
    pose proof (unvisited_visit entries ∅ None) as H. rewrite (union_empty_r_L) in H.
    transitivity (List.length (unvisited entries ∅)); [rewrite H; [lia|set_solver]|].
    unfold unvisited. etransitivity; [apply length_filter|]. unfold all_pages. by rewrite length_fmap.
Qed.

Lemma pages_of_spec entries tree :
  NoDup (e_id <$> entries) -> pages_of entries = Some tree ->
  subtrees entries (children_of entries None) tree /\ NoDup (page_id <$> tree) /\
  forall p, p ∈ tree <-> rooted entries p.
Proof.
  intros Hn Hw. unfold pages_of in Hw.
  assert (NoDup (page_id <$> all_pages entries)) as Hids.
  { unfold all_pages. rewrite <- list_fmap_compose. exact Hn. }
  eapply (walk_spec entries Hids _ {[None]}) in Hw as (Hs & Hnd & _).
  - rewrite group_children_lookup in Hs. split_and!; [done..|]. intros p. split.
    + revert p. apply Forall_forall, (subtrees_rooted _ _ _ Hs), Forall_forall.
      intros q [Hq Hin]%list_elem_of_filter. by apply rooted_top.
    + intros Hr. by eapply subtrees_complete.
  - intros k. destruct (decide (k = None)) as [->|Hne].
    + by rewrite lookup_delete_eq.
    + rewrite lookup_delete_ne by done. rewrite group_children_lookup, decide_False by set_solver. done.
  - rewrite group_children_lookup. split.
    + intros p [_ Hp]%list_elem_of_filter. done.
    + apply NoDup_filter. by eapply NoDup_fmap_1.
    + set_solver.
    + intros p Hp [Hv|[-> _]%list_elem_of_filter]; set_solver.
Qed.

(** C36: the Page tree of an area is always produced, whatever parents the pages name: it
    lists the top-level pages in Explorer order, each followed by its own subtree built the
    same way; no page is listed twice; and a page is listed exactly when its chain of parents
    ends at the top, so that pages under a removed page or on a cycle of parents are hidden. *)
Theorem pages_correct {D : AutoDoc} {DL : AutoDocLaws D} :
  exists tree, pages = Some tree /\
    subtrees (sorted PAGES) (children_of (sorted PAGES) None) tree /\
    NoDup (page_id <$> tree) /\
    forall p, p ∈ tree <-> rooted (sorted PAGES) p.
Proof.
  unfold pages. destruct (pages_of_total (sorted PAGES)) as [tree Ht].
  exists tree. split; [done|]. apply pages_of_spec; [apply sorted_NoDup|done].
Qed.
