(* ===== verification/Order.v ===== *)
(** A Page's View order ([liquid-core/src/order.rs]): the live Views of a Page, kept in the
    order of their sort keys beside the document. *)

From Stdlib Require Import ZArith Lia Ascii String.
From stdpp Require Import base strings sorting sets option gmap list.
From S2P Require Import Prelude Sorting SortKey SortKeyTheory Document DocumentTheory.

Open Scope Z_scope.

Record Placed : Type := mkPlaced { sort : key; view : View }.

(** [Order { placed }]. *)
Abbreviation Order := (list Placed).

Definition read {D : AutoDoc} : Order :=
  let blocks : gmap string BlockKind :=
    foldl (fun m e => <[e_id e := BlockKind_of (get e KIND)]> m) ∅ (sorted BLOCKS) in
  omap (fun entry =>
    block ← get entry BLOCK;
    kind ← blocks !! block;
    Some (mkPlaced (bytes (default "" (get entry SORT)))
      (mkView (e_id entry) block (bool_decide (get entry BOUNDARY = Some "true")) kind)))
    (sorted VIEWS).

(** [self.placed.iter().position(..)]. *)
Definition position (order : Order) (id : string) : option nat :=
  fst <$> list_find (fun placed => v_id (view placed) = id) order.

Definition key_after (order : Order) (after : option string) : result Error key :=
  index ← match after with
          | None => Ok O
          | Some after => i ← ok_or (position order after) NotFound; Ok (S i)
          end;
  let key i := sort <$> order !! i in
  (* [index.checked_sub(1).and_then(key)] *)
  let before := match index with O => None | S i => key i end in
  match between before (key index) with
  | Ok k => Ok k
  | Err e => match e return result Error SortKey.key with end
  | Panic => Panic
  end.

(** [(&placed.sort, &placed.view.id) < (&sort, &view.id)]. *)
Definition pair_ltb (a : key * string) (b : key * string) : bool :=
  slice_ltb a.1 b.1 || (bool_decide (a.1 = b.1) && str_ltb a.2 b.2).

Definition sort_pair (p : Placed) : key * string := (sort p, v_id (view p)).

(** [Vec::insert] and [Vec::remove] at an index in range. *)
Definition insert_at {A} (i : nat) (a : A) (l : list A) : list A := take i l ++ a :: drop i l.

Definition insert (order : Order) (k : key) (v : View) : Order :=
  let index := partition_point (fun p => pair_ltb (sort_pair p) (k, v_id v)) order in
  insert_at index (mkPlaced k v) order.

Definition remove (order : Order) (id : string) : Order :=
  match position order id with
  | Some index => delete index order
  | None => order
  end.

Definition shows (order : Order) (block besides : string) : bool :=
  existsb (fun p => String.eqb (v_block (view p)) block && negb (String.eqb (v_id (view p)) besides)) order.

(** [&self.placed[index].view]: the index [position] returned is in range. *)
Definition view_of (order : Order) (id : string) : option View :=
  index ← position order id; view <$> order !! index.

Definition above (order : Order) (id : string) : option View :=
  index ← position order id;
  match index with
  | O => None
  | S i => view <$> order !! i
  end.

Definition with_boundary (b : bool) (p : Placed) : Placed :=
  mkPlaced (sort p) (mkView (v_id (view p)) (v_block (view p)) b (v_kind (view p))).

Definition set_boundary (order : Order) (id : string) (b : bool) : Order :=
  match position order id with
  | Some index => alter (with_boundary b) index order
  | None => order
  end.

Definition window (order : Order) (start limit : nat) : list View :=
  view <$> take limit (drop start order).

(** * The order of views *)

(** The order [a.0 < b.0 || a.0 == b.0 && a.1 < b.1] of pairs. *)
Definition placed_lt (a b : Placed) : Prop := pair_ltb (sort_pair a) (sort_pair b) = true.

Lemma slice_ltb_irrefl k : slice_ltb k k = false.
Proof. induction k as [|x k IH]; [done|]. cbn. by rewrite Z.ltb_irrefl. Qed.

Lemma slice_ltb_trans a b c : slice_ltb a b = true -> slice_ltb b c = true -> slice_ltb a c = true.
Proof.
  revert b c. induction a as [|x a IH]; intros [|y b] [|z c]; cbn; try done.
  destruct (Z.ltb_spec x y), (Z.ltb_spec y z); try (destruct (Z.ltb_spec x z); [done|lia]);
    destruct (Z.ltb_spec y x), (Z.ltb_spec z y); try done; destruct (Z.ltb_spec x z); try done;
    destruct (Z.ltb_spec z x); try lia; eauto.
Qed.

Lemma slice_ltb_total a b : slice_ltb a b = true \/ a = b \/ slice_ltb b a = true.
Proof.
  revert b. induction a as [|x a IH]; intros [|y b]; cbn; auto.
  destruct (Z.ltb_spec x y), (Z.ltb_spec y x); auto. assert (x = y) as -> by lia.
  destruct (IH b) as [|[->|]]; auto.
Qed.

Lemma pair_ltb_iff a b :
  pair_ltb a b = true <-> slice_ltb a.1 b.1 = true \/ a.1 = b.1 /\ str_lt a.2 b.2.
Proof.
  unfold pair_ltb. rewrite orb_true_iff, andb_true_iff, bool_decide_eq_true, str_ltb_lt. done.
Qed.

Lemma pair_ltb_trans a b c : pair_ltb a b = true -> pair_ltb b c = true -> pair_ltb a c = true.
Proof.
  rewrite !pair_ltb_iff. intros [H|[H H']] [G|[G G']].
  - left. by eapply slice_ltb_trans.
  - left. by rewrite <- G.
  - left. by rewrite H.
  - right. split; [congruence|]. by transitivity b.2.
Qed.

Lemma pair_ltb_irrefl a : pair_ltb a a = false.
Proof.
  destruct (pair_ltb a a) eqn:E; [|done]. apply pair_ltb_iff in E as [E|[_ E]].
  - by rewrite slice_ltb_irrefl in E.
  - by apply (irreflexivity str_lt) in E.
Qed.

Lemma pair_ltb_total a b : pair_ltb a b = true \/ a = b \/ pair_ltb b a = true.
Proof.
  rewrite !pair_ltb_iff. destruct a as [a1 a2], b as [b1 b2]. cbn.
  destruct (slice_ltb_total a1 b1) as [|[->|]]; auto.
  destruct (str_lt_total a2 b2) as [|[->|]]; auto.
Qed.

#[export] Instance placed_lt_trans : Transitive placed_lt.
Proof. intros a b c. apply pair_ltb_trans. Qed.

(** The invariant: strictly ascending by (sort key, identity), each View once. *)
Record order_ok (order : Order) : Prop := {
  ok_sorted : StronglySorted placed_lt order;
  ok_ids : NoDup ((fun p => v_id (view p)) <$> order);
}.

Abbreviation ids order := ((fun p => v_id (view p)) <$> order).

Lemma position_Some order id i :
  position order id = Some i <->
  (exists p, order !! i = Some p /\ v_id (view p) = id) /\
  forall j p, order !! j = Some p -> v_id (view p) = id -> (i <= j)%nat.
Proof.
  unfold position. split.
  - intros ([j p] & (Hp & Hid & Hmin)%list_find_Some & ->)%fmap_Some. split; [by eauto|].
    intros k q Hq Hidq. destruct (decide (j <= k)%nat); [done|]. exfalso.
    eapply Hmin; [exact Hq|cbn; lia|done].
  - intros ((p & Hp & Hid) & Hmin).
    apply fmap_Some. exists (i, p). split; [|done]. apply list_find_Some. split_and!; [done..|]. intros j q Hq Hlt Hidq.
    specialize (Hmin j q Hq Hidq). lia.
Qed.

Lemma position_None order id : position order id = None <-> id ∉ ids order.
Proof.
  unfold position. rewrite fmap_None, list_find_None, Forall_forall, list_elem_of_fmap.
  split; [intros H (p & -> & Hp); by eapply H|intros H p Hp Hid; apply H; eauto].
Qed.

(** Where identities are distinct, the first position is the only one. *)
Lemma position_unique order i p :
  NoDup (ids order) -> order !! i = Some p -> position order (v_id (view p)) = Some i.
Proof.
  intros Hn Hp. apply position_Some. split; [eauto|]. intros j q Hq Hid.
  assert (i = j) as ->; [|done].
  eapply NoDup_lookup; [exact Hn| |]; rewrite list_lookup_fmap.
  - by rewrite Hp.
  - by rewrite Hq, <- Hid.
Qed.

(** * Insertion *)

Section insertion.
Context {A : Type} (R : relation A) (p : A -> bool).

(** On a sorted vector whose elements below the new one satisfy [p], the partition point
    splits it into the elements below and above. *)
Lemma partition_point_split l :
  StronglySorted R l -> (forall a b, R a b -> p b = true -> p a = true) ->
  Forall (fun a => p a = true) (take (partition_point p l) l) /\
  Forall (fun a => p a = false) (drop (partition_point p l) l).
Proof using Type.
  intros Hs Hmono. induction Hs as [|a l Hs IH Hf]; cbn; [by split|].
  destruct (p a) eqn:E; cbn; [destruct IH; by split; [constructor|]|].
  split; [done|]. constructor; [done|]. rewrite Forall_forall in Hf |- *. intros x Hx.
  destruct (p x) eqn:Ex; [|done]. specialize (Hmono a x (Hf x Hx) Ex). congruence.
Qed.

Lemma insert_at_sorted i x l :
  StronglySorted R l ->
  Forall (fun a => R a x) (take i l) -> Forall (R x) (drop i l) ->
  StronglySorted R (insert_at i x l).
Proof using Type.
  unfold insert_at. revert i. induction l as [|a l IH]; intros [|i] Hs Hb Ha; cbn in *.
  1,2: repeat constructor.
  - by constructor.
  - inversion Hs as [|? ? Hs' Hf]; subst. inversion Hb as [|? ? Hax Hb']; subst.
    constructor; [by apply IH|]. apply Forall_app. split; [by apply Forall_take|].
    constructor; [done|]. by apply Forall_drop.
Qed.
End insertion.

Lemma insert_at_perm {A} i (x : A) l : insert_at i x l ≡ₚ x :: l.
Proof.
  unfold insert_at. rewrite <- Permutation_middle. by rewrite take_drop.
Qed.

Lemma insert_index order k v :
  order_ok order -> v_id v ∉ ids order ->
  let index := partition_point (fun p => pair_ltb (sort_pair p) (k, v_id v)) order in
  Forall (fun p => placed_lt p (mkPlaced k v)) (take index order) /\
  Forall (fun p => placed_lt (mkPlaced k v) p) (drop index order).
Proof.
  intros [Hs Hn] Hid index.
  destruct (partition_point_split placed_lt (fun p => pair_ltb (sort_pair p) (k, v_id v)) order Hs)
    as [Hb Ha].
  { intros a b. apply pair_ltb_trans. }
  split; [done|]. fold index in Ha. rewrite Forall_forall in Ha |- *. intros x Hx.
  specialize (Ha x Hx). cbn in Ha. unfold placed_lt.
  destruct (pair_ltb_total (sort_pair x) (k, v_id v)) as [H|[H|H]]; [congruence| |done].
  exfalso. apply Hid. injection H as _ <-.
  apply (list_elem_of_fmap_2 (fun p => v_id (view p))). by eapply subseteq_drop.
Qed.
