(* ===== verification/OrderTheory.v ===== *)
(** Theorems on a Page's View order ([Order]): reading establishes the order and every
    operation keeps it; on a replica whose sort keys are distinct the operations are those of
    a plain list of Views. *)

From Stdlib Require Import ZArith Lia Ascii String.
From stdpp Require Import base strings sorting sets option gmap list.
From S2P Require Import Prelude Sorting SortKey SortKeyTheory Document DocumentTheory Order.

Open Scope Z_scope.

(** * The operations keep the order *)

Lemma insert_perm order k v : insert order k v ≡ₚ mkPlaced k v :: order.
Proof. apply insert_at_perm. Qed.

Lemma insert_ok order k v :
  order_ok order -> v_id v ∉ ids order -> order_ok (insert order k v).
Proof.
  intros Ho Hid. destruct (insert_index order k v Ho Hid) as [Hb Ha]. split.
  - apply insert_at_sorted; [apply Ho|done|done].
  - rewrite insert_perm. cbn. constructor; [done|apply Ho].
Qed.

Lemma sublist_StronglySorted {A} (R : relation A) l k :
  l `sublist_of` k -> StronglySorted R k -> StronglySorted R l.
Proof.
  induction 1 as [|x l k Hs IH|x l k Hs IH]; intros H; [constructor|..];
    inversion H as [|? ? Hk Hf]; subst; [|by apply IH].
  constructor; [by apply IH|]. rewrite Forall_forall in Hf |- *. intros y Hy.
  apply Hf. by eapply elem_of_sublist.
Qed.

Lemma remove_sublist order id : remove order id `sublist_of` order.
Proof. unfold remove. destruct (position order id); [apply sublist_delete|done]. Qed.

Lemma remove_ok order id : order_ok order -> order_ok (remove order id).
Proof.
  intros [Hs Hn]. pose proof (remove_sublist order id) as Hsub. split.
  - by eapply sublist_StronglySorted.
  - eapply sublist_NoDup; [exact Hn|]. by apply fmap_sublist.
Qed.

(** [set_boundary] changes neither keys nor identities. *)
Lemma set_boundary_pairs order id b : sort_pair <$> set_boundary order id b = sort_pair <$> order.
Proof.
  unfold set_boundary. destruct (position order id) as [i|]; [|done].
  apply list_eq. intros j. rewrite !list_lookup_fmap.
  destruct (decide (i = j)) as [->|Hne].
  - rewrite list_lookup_alter_eq. by destruct (order !! j).
  - by rewrite list_lookup_alter_ne.
Qed.

Lemma order_ok_pairs order :
  order_ok order <->
  StronglySorted (fun a b => pair_ltb a b = true) (sort_pair <$> order) /\ NoDup (sort_pair <$> order).*2.
Proof.
  assert ((sort_pair <$> order).*2 = ids order) as E by (by rewrite <- list_fmap_compose).
  rewrite E. split.
  - intros [Hs Hn]. split; [|done]. clear -Hs.
    induction Hs as [|p l Hs IH Hf]; cbn; constructor; [done|]. by apply Forall_fmap.
  - intros [Hs Hn]. split; [|done]. clear -Hs. induction order as [|p l IH]; [constructor|].
    inversion Hs as [|? ? Hs' Hf]; subst. constructor; [auto|]. by apply Forall_fmap in Hf.
Qed.

Lemma set_boundary_ok order id b : order_ok order -> order_ok (set_boundary order id b).
Proof. by rewrite !order_ok_pairs, set_boundary_pairs. Qed.

(** * Reading *)

Lemma bytes_cmp s t : slice_ltb (bytes s) (bytes t) = str_ltb s t.
Proof.
  revert t. induction s as [|a s IH]; intros [|b t]; cbn; try done.
  unfold str_ltb. rewrite str_cmp_cons.
  destruct (Z.compare_spec (byte a) (byte b)) as [E|E|E].
  - rewrite E, !Z.ltb_irrefl. apply IH.
  - by destruct (Z.ltb_spec (byte a) (byte b)); [|lia].
  - destruct (Z.ltb_spec (byte a) (byte b)); [lia|]. by destruct (Z.ltb_spec (byte b) (byte a)); [|lia].
Qed.

Lemma bytes_inj s t : bytes s = bytes t -> s = t.
Proof.
  revert t. induction s as [|a s IH]; intros [|b t]; cbn; try done.
  intros [= ->%byte_inj ->%IH]. done.
Qed.

Section reading.
Context {D : AutoDoc} {DL : AutoDocLaws D}.

Definition read_placed (blocks : gmap string BlockKind) (entry : Entry) : option Placed :=
  block ← get entry BLOCK;
  kind ← blocks !! block;
  Some (mkPlaced (bytes (default "" (get entry SORT)))
    (mkView (e_id entry) block (bool_decide (get entry BOUNDARY = Some "true")) kind)).

Definition read_blocks : gmap string BlockKind :=
  foldl (fun m e => <[e_id e := BlockKind_of (get e KIND)]> m) ∅ (sorted BLOCKS).

Lemma read_eq : read = omap (read_placed read_blocks) (sorted VIEWS).
Proof using Type. reflexivity. Qed.

Lemma read_placed_pair blocks e p :
  read_placed blocks e = Some p -> sort_pair p = (bytes (default "" (get e SORT)), e_id e).
Proof using Type. clear DL. unfold read_placed. intros (block & _ & (kind & _ & [= <-])%bind_Some)%bind_Some. done. Qed.

(** Every view of the document has a sort key. *)
Definition views_have_keys : Prop := forall e, e ∈ sorted VIEWS -> get e SORT <> None.

Lemma entry_lt_pair blocks a b p q :
  get a SORT <> None -> get b SORT <> None ->
  read_placed blocks a = Some p -> read_placed blocks b = Some q ->
  entry_lt a b -> placed_lt p q.
Proof using Type.
  clear DL. intros Ha Hb Hp%read_placed_pair Hq%read_placed_pair Hlt%entry_lt_iff.
  unfold placed_lt. rewrite Hp, Hq. apply pair_ltb_iff. cbn.
  destruct (get a SORT) as [sa|], (get b SORT) as [sb|]; try done. cbn in *.
  rewrite bytes_cmp, str_ltb_lt. destruct Hlt as [|[[= ->] ?]]; auto.
Qed.

Lemma read_ok : views_have_keys -> order_ok read.
Proof.
  intros Hk. rewrite read_eq. unfold views_have_keys in Hk.
  pose proof (sorted_strict VIEWS) as Hs. pose proof (sorted_NoDup VIEWS) as Hn.
  generalize read_blocks as blocks. intros blocks.
  induction Hs as [|e l Hs IH Hf]; [split; constructor|].
  cbn in Hn. apply NoDup_cons in Hn as [Hni Hn].
  destruct IH as [IHs IHn]; [intros; apply Hk; by right|done|].
  assert (forall q, q ∈ omap (read_placed blocks) l ->
    exists x, x ∈ l /\ read_placed blocks x = Some q) as Hin
    by (intros q (x & ? & ?)%list_elem_of_omap; eauto).
  change (omap (read_placed blocks) (e :: l)) with
    (match read_placed blocks e with Some p => p :: omap (read_placed blocks) l
     | None => omap (read_placed blocks) l end).
  destruct (read_placed blocks e) as [p|] eqn:E; [|done].
  rewrite Forall_forall in Hf. split.
  - constructor; [done|]. apply Forall_forall. intros q (x & Hx & Hq)%Hin.
    eapply entry_lt_pair; [apply Hk; by left|apply Hk; by right|done|done|by apply Hf].
  - cbn. constructor; [|done]. intros (q & Eid & (x & Hx & Hq)%Hin)%list_elem_of_fmap.
    apply read_placed_pair in E, Hq. injection E as _ E. injection Hq as _ Hq.
    apply Hni. rewrite <- E, Eid, Hq. by apply list_elem_of_fmap_2.
Qed.
End reading.

(** * Placing *)

(** [add_view]: the key after [after], then the insertion. *)
Definition place (order : Order) (after : option string) (v : View) : result Error Order :=
  k ← key_after order after; Ok (insert order k v).

(** The index at which a view placed after [after] belongs. *)
Definition index_after (order : Order) (after : option string) : option nat :=
  match after with
  | None => Some O
  | Some after => S <$> position order after
  end.

Definition before_index (order : Order) (index : nat) : option key :=
  match index with O => None | S i => sort <$> order !! i end.

Lemma key_after_spec order after :
  match index_after order after with
  | None => key_after order after = Err NotFound
  | Some index =>
      exists k, key_after order after = Ok k /\ is_key k = true /\
        (forall b, lower_neighbour (before_index order index) b -> slice_ltb b k = true) /\
        (forall a, upper_neighbour (before_index order index) (sort <$> order !! index) a ->
          slice_ltb k a = true)
  end.
Proof.
  unfold key_after, index_after.
  destruct after as [after|]; [destruct (position order after) as [i|]|]; cbn [ok_or mbind result_bind fmap option_fmap option_map]; [|done|].
  - destruct (between_good (before_index order (S i)) (sort <$> order !! S i)) as (k & E & H).
    cbn [before_index] in E, H. exists k. cbn. by rewrite E.
  - destruct (between_good None (sort <$> order !! O)) as (k & E & H). exists k. by rewrite E.
Qed.

Lemma position_in order id i : position order id = Some i -> exists p, order !! i = Some p /\ v_id (view p) = id.
Proof. intros [H _]%position_Some. done. Qed.

(** * Distinct keys *)

Definition key_lt (a b : Placed) : Prop := slice_ltb (sort a) (sort b) = true.

(** A replica whose keys are valid and all distinct. *)
Record strict_order (order : Order) : Prop := {
  so_keys : Forall (fun p => is_key (sort p) = true) order;
  so_sorted : StronglySorted key_lt order;
  so_ids : NoDup (ids order);
}.

Lemma partition_point_at {A} (p : A -> bool) l n :
  (n <= List.length l)%nat ->
  Forall (fun a => p a = true) (take n l) -> Forall (fun a => p a = false) (drop n l) ->
  partition_point p l = n.
Proof.
  revert n. induction l as [|a l IH]; intros [|n] Hn Ht Hd; cbn in *; try lia.
  - apply Forall_cons in Hd as [Ha _]. by rewrite Ha.
  - apply Forall_cons in Ht as [Ha Ht]. rewrite Ha. f_equal. apply IH; [lia|done|done].
Qed.

Lemma sorted_take_drop {A} (R : relation A) l n a b :
  StronglySorted R l -> a ∈ take n l -> b ∈ drop n l -> R a b.
Proof.
  intros Hs. revert n. induction Hs as [|x l Hs IH Hf]; intros [|n]; cbn; try (by intros ?%elem_of_nil).
  intros [->|Ha]%elem_of_cons Hb; [|by eapply IH].
  rewrite Forall_forall in Hf. apply Hf. by eapply subseteq_drop.
Qed.

Lemma before_index_last (order : Order) i b :
  order !! i = Some b -> take (S i) order = take i order ++ [b].
Proof. intros H. by apply take_S_r. Qed.

(** All keys up to the index lie below a key above the lower neighbour. *)
Lemma keys_below order index k :
  strict_order order -> (index <= List.length order)%nat ->
  (forall b, lower_neighbour (before_index order index) b -> slice_ltb b k = true) ->
  Forall (fun p => slice_ltb (sort p) k = true) (take index order).
Proof.
  intros [Hk Hs _] Hi Hlow. destruct index as [|i]; [constructor|].
  destruct (order !! i) as [b|] eqn:Eb; [|apply lookup_ge_None in Eb; lia].
  assert (slice_ltb (sort b) k = true) as Hbk.
  { apply Hlow. cbn. rewrite Eb. split; [done|]. rewrite Forall_forall in Hk.
    apply Hk. by eapply list_elem_of_lookup_2. }
  rewrite (before_index_last _ _ _ Eb). apply Forall_app. split; [|by repeat constructor].
  apply Forall_forall. intros a Ha. eapply slice_ltb_trans; [|exact Hbk].
  eapply (sorted_take_drop key_lt order i); [done|done|].
  rewrite (drop_S _ _ _ Eb). by left.
Qed.

Lemma keys_above order index k :
  strict_order order ->
  (forall a, upper_neighbour (before_index order index) (sort <$> order !! index) a ->
    slice_ltb k a = true) ->
  Forall (fun p => slice_ltb k (sort p) = true) (drop index order).
Proof.
  intros [Hk Hs _] Hhigh. destruct (order !! index) as [a|] eqn:Ea;
    [|apply lookup_ge_None in Ea; by rewrite drop_ge].
  assert (slice_ltb k (sort a) = true) as Hka.
  { apply Hhigh. split_and!; [done| |].
    - rewrite Forall_forall in Hk. apply Hk. by eapply list_elem_of_lookup_2.
    - intros b [Hb _]. destruct index as [|i]; [done|]. cbn in Hb.
      apply fmap_Some in Hb as (p & Hp & ->).
      eapply (sorted_take_drop key_lt order (S i)); [done| |].
      + rewrite (before_index_last _ _ _ Hp). set_solver.
      + rewrite (drop_S _ _ _ Ea). by left. }
  rewrite (drop_S _ _ _ Ea). constructor; [done|]. apply Forall_forall. intros b Hb.
  eapply slice_ltb_trans; [exact Hka|].
  eapply (sorted_take_drop key_lt order (S index)); [done| |done].
  rewrite (before_index_last _ _ _ Ea). set_solver.
Qed.

Lemma insert_between order index k v :
  (index <= List.length order)%nat ->
  Forall (fun p => slice_ltb (sort p) k = true) (take index order) ->
  Forall (fun p => slice_ltb k (sort p) = true) (drop index order) ->
  insert order k v = insert_at index (mkPlaced k v) order.
Proof.
  intros Hi Hb Ha. unfold insert. f_equal. apply partition_point_at; [done|..].
  - eapply Forall_impl; [exact Hb|]. intros p Hp. apply pair_ltb_iff. by left.
  - eapply Forall_impl; [exact Ha|]. intros p Hp. cbn in Hp.
    destruct (pair_ltb _ _) eqn:E; [|done]. apply pair_ltb_iff in E as [E|[E _]]; cbn in E.
    + pose proof (slice_ltb_trans _ _ _ E Hp) as H. by rewrite slice_ltb_irrefl in H.
    + rewrite E, slice_ltb_irrefl in Hp. done.
Qed.

Lemma index_after_le order after index :
  index_after order after = Some index -> (index <= List.length order)%nat.
Proof.
  destruct after as [after|]; cbn; [|intros [= <-]; lia].
  intros (i & (p & Hp & _)%position_in & ->)%fmap_Some. apply lookup_lt_Some in Hp. lia.
Qed.

(** The key and the insertion put a view right after [after]. *)
Lemma place_spec order after v :
  strict_order order ->
  match index_after order after with
  | None => place order after v = Err NotFound
  | Some index =>
      exists k, place order after v = Ok (insert_at index (mkPlaced k v) order) /\
        is_key k = true /\
        Forall (fun p => slice_ltb (sort p) k = true) (take index order) /\
        Forall (fun p => slice_ltb k (sort p) = true) (drop index order)
  end.
Proof.
  intros Ho. unfold place. pose proof (key_after_spec order after) as H.
  destruct (index_after order after) as [index|] eqn:E; [|by rewrite H].
  destruct H as (k & -> & Hkey & Hlow & Hhigh). exists k. cbn.
  pose proof (index_after_le _ _ _ E) as Hle.
  pose proof (keys_below _ _ _ Ho Hle Hlow) as Hb. pose proof (keys_above _ _ _ Ho Hhigh) as Ha.
  split_and!; [f_equal; by apply insert_between|done..].
Qed.

Lemma place_strict order index k v :
  strict_order order -> v_id v ∉ ids order -> is_key k = true ->
  Forall (fun p => slice_ltb (sort p) k = true) (take index order) ->
  Forall (fun p => slice_ltb k (sort p) = true) (drop index order) ->
  strict_order (insert_at index (mkPlaced k v) order).
Proof.
  intros [Hk Hs Hn] Hid Hkey Hb Ha. split.
  - rewrite insert_at_perm. by constructor.
  - by apply insert_at_sorted.
  - rewrite insert_at_perm. cbn. by constructor.
Qed.

(** * The operations on one replica, against a list of Views *)

Inductive op : Type :=
| OpPlace (after : option string) (v : View)
| OpRemove (id : string)
| OpSetBoundary (id : string) (b : bool).

Definition apply_op (order : Order) (o : op) : result Error Order :=
  match o with
  | OpPlace after v => place order after v
  | OpRemove id => Ok (remove order id)
  | OpSetBoundary id b => Ok (set_boundary order id b)
  end.

(** The abstract order: a list of Views without keys. *)
Definition spec_index (views : list View) (id : string) : option nat :=
  fst <$> list_find (fun v => v_id v = id) views.

Definition view_boundary (b : bool) (v : View) : View := mkView (v_id v) (v_block v) b (v_kind v).

Definition spec_op (views : list View) (o : op) : result Error (list View) :=
  match o with
  | OpPlace None v => Ok (v :: views)
  | OpPlace (Some after) v =>
      i ← ok_or (spec_index views after) NotFound; Ok (insert_at (S i) v views)
  | OpRemove id =>
      match spec_index views id with Some i => Ok (delete i views) | None => Ok views end
  | OpSetBoundary id b =>
      match spec_index views id with Some i => Ok (alter (view_boundary b) i views) | None => Ok views end
  end.

(** New identities are fresh. *)
Definition fresh_op (order : Order) (o : op) : Prop :=
  match o with OpPlace _ v => v_id v ∉ ids order | _ => True end.

Lemma spec_index_position order id : spec_index (view <$> order) id = position order id.
Proof.
  unfold spec_index, position. induction order as [|p order IH]; [done|]. cbn.
  destruct (decide (v_id (view p) = id)); [done|].
  destruct (list_find _ (view <$> order)) as [[i w]|], (list_find _ order) as [[j q]|];
    cbn in *; congruence.
Qed.

Lemma fmap_insert_at {A B} (f : A -> B) i a l : f <$> insert_at i a l = insert_at i (f a) (f <$> l).
Proof. unfold insert_at. by rewrite fmap_app, fmap_cons, fmap_take, fmap_drop. Qed.

Lemma fmap_set_boundary (order : Order) (i : nat) b :
  view <$> alter (with_boundary b) i order = alter (view_boundary b) i (view <$> order).
Proof. by apply list_fmap_alter, Forall_true. Qed.

Lemma remove_strict order id : strict_order order -> strict_order (remove order id).
Proof.
  intros [Hk Hs Hn]. pose proof (remove_sublist order id) as Hsub. split.
  - rewrite Forall_forall in Hk |- *. intros p Hp. apply Hk. by eapply elem_of_sublist.
  - by eapply sublist_StronglySorted.
  - eapply sublist_NoDup; [exact Hn|]. by apply fmap_sublist.
Qed.

Lemma strict_order_pairs order :
  strict_order order <->
  Forall (fun k => is_key k = true) (sort_pair <$> order).*1 /\
  StronglySorted (fun a b => slice_ltb a b = true) (sort_pair <$> order).*1 /\
  NoDup (sort_pair <$> order).*2.
Proof.
  assert ((sort_pair <$> order).*2 = ids order) as E2 by (by rewrite <- list_fmap_compose).
  assert ((sort_pair <$> order).*1 = sort <$> order) as E1 by (by rewrite <- list_fmap_compose).
  rewrite E1, E2. split.
  - intros [Hk Hs Hn]. split_and!; [by apply Forall_fmap| |done].
    eapply StronglySorted_fmap; [|exact Hs]. done.
  - intros (Hk & Hs & Hn). split; [by apply Forall_fmap in Hk| |done]. clear -Hs.
    induction order as [|p l IH]; [constructor|]. inversion Hs as [|? ? Hs' Hf]; subst.
    constructor; [auto|]. by apply Forall_fmap in Hf.
Qed.

Lemma set_boundary_strict order id b : strict_order order -> strict_order (set_boundary order id b).
Proof. by rewrite !strict_order_pairs, set_boundary_pairs. Qed.

(** One operation refines the list. *)
Lemma op_refines order o :
  strict_order order -> fresh_op order o ->
  match apply_op order o with
  | Ok order' => spec_op (view <$> order) o = Ok (view <$> order') /\ strict_order order'
  | Err e => spec_op (view <$> order) o = Err e
  | Panic => False
  end.
Proof.
  intros Ho Hfresh. destruct o as [after v|id|id b]; cbn [apply_op].
  - pose proof (place_spec order after v Ho) as H.
    destruct (index_after order after) as [index|] eqn:E.
    + destruct H as (k & -> & Hk & Hb & Ha). split; [|by apply place_strict].
      rewrite fmap_insert_at. destruct after as [after|]; cbn in E |- *.
      * rewrite spec_index_position. apply fmap_Some in E as (i & -> & ->). done.
      * injection E as <-. done.
    + rewrite H. destruct after as [after|]; [|done]. cbn in E |- *.
      apply fmap_None in E. by rewrite spec_index_position, E.
  - split; [|by apply remove_strict]. unfold remove. cbn. rewrite spec_index_position.
    destruct (position order id); [|done]. by rewrite list_fmap_delete.
  - split; [|by apply set_boundary_strict]. unfold set_boundary. cbn. rewrite spec_index_position.
    destruct (position order id); [|done]. by rewrite fmap_set_boundary.
Qed.

(** A run of operations; one that fails changes nothing. *)
Definition run_ops (order : Order) (ops : list op) : Order :=
  foldl (fun order o => match apply_op order o with Ok order' => order' | _ => order end) order ops.

Definition spec_ops (views : list View) (ops : list op) : list View :=
  foldl (fun views o => match spec_op views o with Ok views' => views' | _ => views end) views ops.

Definition placed_ids (ops : list op) : list string :=
  omap (fun o => match o with OpPlace _ v => Some (v_id v) | _ => None end) ops.

Lemma op_ids order o order' :
  apply_op order o = Ok order' -> ids order' ⊆ placed_ids [o] ++ ids order.
Proof.
  destruct o as [after v|id|id b]; cbn.
  - unfold place. intros (k & _ & [= <-])%bind_Ok_inv. rewrite insert_perm. done.
  - intros [= <-]. intros x (p & -> & Hp)%list_elem_of_fmap.
    apply (list_elem_of_fmap_2 (fun p => v_id (view p))). by eapply elem_of_sublist; [|apply remove_sublist].
  - intros [= <-]. assert (ids (set_boundary order id b) = ids order) as ->; [|done].
    change (fun p => v_id (view p)) with (snd ∘ sort_pair). rewrite !list_fmap_compose.
    by rewrite set_boundary_pairs.
Qed.

Lemma run_refines ops order :
  strict_order order -> NoDup (placed_ids ops ++ ids order) ->
  view <$> run_ops order ops = spec_ops (view <$> order) ops /\ strict_order (run_ops order ops).
Proof.
  revert order. induction ops as [|o ops IH]; intros order Ho Hn; [done|].
  assert (fresh_op order o /\ NoDup (placed_ids ops ++ ids order) /\
    NoDup (placed_ids ops ++ placed_ids [o] ++ ids order)) as (Hfresh & Hn1 & Hn2).
  { destruct o as [after v|id|id b]; cbn in Hn |- *; [|done..].
    split_and!; [apply NoDup_cons in Hn as [Hn _]; set_solver|by apply NoDup_cons in Hn as [_ Hn]|].
    by rewrite <- Permutation_middle. }
  unfold run_ops, spec_ops. cbn [foldl]. pose proof (op_refines order o Ho Hfresh) as Hr.
  destruct (apply_op order o) as [order'|e|] eqn:E; [|rewrite Hr; by apply IH|done].
  destruct Hr as [-> Ho']. apply IH; [done|].
  apply NoDup_app in Hn2 as (Ha & Hd & _). apply NoDup_app. split_and!; [done| |apply Ho'].
  intros x Hx Hx'. apply (op_ids order o order' E) in Hx'. by eapply Hd.
Qed.

(** C33: on a replica whose sort keys are valid and distinct, placing, removing and marking
    Views behave like the same operations on a plain list of Views: a View placed after
    another stands right after it, the other Views keep their order, and the keys stay valid
    and distinct, so that this holds for any sequence of operations. *)
Theorem order_refines_list order ops :
  strict_order order -> NoDup (placed_ids ops ++ ids order) ->
  view <$> run_ops order ops = spec_ops (view <$> order) ops /\ strict_order (run_ops order ops).
Proof. apply run_refines. Qed.

(** after merging with other devices, where sort keys may be equal, the order stays
    strict by (sort key, identity) with each View once: reading a document establishes it,
    inserting a new View, removing one and marking a boundary keep it. *)
Theorem order_ok_preserved {D : AutoDoc} {DL : AutoDocLaws D} order k v id b :
  (views_have_keys -> order_ok read) /\
  (order_ok order ->
    (v_id v ∉ ids order -> order_ok (insert order k v)) /\
    order_ok (remove order id) /\ order_ok (set_boundary order id b)).
Proof.
  split; [apply read_ok|]. intros Ho.
  split_and!; [by apply insert_ok|by apply remove_ok|by apply set_boundary_ok].
Qed.

Lemma position_lt order a b i j p q :
  order_ok order -> order !! i = Some p -> order !! j = Some q -> placed_lt p q ->
  position order (v_id (view p)) = Some a -> position order (v_id (view q)) = Some b -> (a < b)%nat.
Proof.
  intros [Hs Hn] Hp Hq Hlt Ha Hb.
  rewrite (position_unique _ _ _ Hn Hp) in Ha. rewrite (position_unique _ _ _ Hn Hq) in Hb.
  injection Ha as <-. injection Hb as <-. destruct (decide (i < j)%nat) as [|Hge]; [done|]. exfalso.
  assert (placed_lt q p \/ q = p) as [Hqp| ->].
  { destruct (decide (i = j)) as [->|Hne]; [right; congruence|left].
    eapply (sorted_take_drop placed_lt order i); [done| |rewrite (drop_S _ _ _ Hp); by left].
    apply list_elem_of_lookup. exists j. by rewrite lookup_take_lt by lia. }
  - pose proof (transitivity (R:=placed_lt) Hlt Hqp) as H. unfold placed_lt in H. by rewrite pair_ltb_irrefl in H.
  - unfold placed_lt in Hlt. by rewrite pair_ltb_irrefl in Hlt.
Qed.

(** a View placed after another stands after it also when neighbours have equal or
    misordered keys: the placement succeeds and the new View's position is greater. *)
Theorem place_lands_after order after p v :
  order_ok order -> p ∈ order -> v_id (view p) = after -> is_key (sort p) = true ->
  v_id v ∉ ids order ->
  exists order' i j, place order (Some after) v = Ok order' /\ order_ok order' /\
    position order' after = Some i /\ position order' (v_id v) = Some j /\ (i < j)%nat.
Proof.
  intros Ho Hp <- Hkey Hid. apply list_elem_of_lookup in Hp as [i0 Hp].
  pose proof (key_after_spec order (Some (v_id (view p)))) as H. cbn [index_after] in H.
  rewrite (position_unique _ _ _ (ok_ids _ Ho) Hp) in H.
  cbn [fmap option_fmap option_map] in H.
  destruct H as (k & Hk & _ & Hlow & _). unfold place. rewrite Hk. cbn [mbind result_bind].
  assert (slice_ltb (sort p) k = true) as Hpk.
  { apply Hlow. cbn. by rewrite Hp. }
  pose proof (insert_ok order k v Ho Hid) as Ho'.
  assert (p ∈ insert order k v /\ mkPlaced k v ∈ insert order k v) as [Hpin Hvin].
  { rewrite !insert_perm. split; [right; by eapply list_elem_of_lookup_2|left]. }
  apply list_elem_of_lookup in Hpin as [i Hi], Hvin as [j Hj].
  exists (insert order k v), i, j.
  pose proof (position_unique _ _ _ (ok_ids _ Ho') Hi) as Ei.
  pose proof (position_unique _ _ _ (ok_ids _ Ho') Hj) as Ej.
  split_and!; [done|apply Ho'..|done|done|].
  eapply position_lt; [exact Ho'|exact Hi|exact Hj| |exact Ei|exact Ej].
  unfold placed_lt. apply pair_ltb_iff. by left.
Qed.
