(* ===== verification/DocumentExamples.v ===== *)
(** A concrete document, and the theorems on documents and View orders applied to it. *)

From Stdlib Require Import ZArith Lia Ascii String.
From stdpp Require Import base strings sorting sets option gmap list.
From S2P Require Import Prelude Sorting SortKey SortKeyTheory Document DocumentTheory Order OrderTheory.

Open Scope Z_scope.

(** Objects are numbered; 0 is the root. *)
Definition demo_map (o : nat) : list (string * ValueRef nat) :=
  match o with
  | 0%nat => [("blocks"%string, VMap 1%nat); ("pages"%string, VMap 2%nat); ("views"%string, VMap 3%nat)]
  | 1%nat => [("b1"%string, VMap 11%nat); ("b2"%string, VMap 12%nat)]
  | 11%nat => [("deleted"%string, VBoolean false); ("kind"%string, VStr "text")]
  | 12%nat => [("deleted"%string, VBoolean false); ("kind"%string, VStr "chart")]
  | 2%nat => [("p1"%string, VMap 21%nat); ("p2"%string, VMap 22%nat); ("p3"%string, VMap 23%nat);
              ("p4"%string, VMap 24%nat)]
  | 21%nat => [("deleted"%string, VBoolean false); ("parent"%string, VStr "p2"); ("sort"%string, VStr "a0");
               ("title"%string, VStr "Notes")]
  | 22%nat => [("deleted"%string, VBoolean false); ("sort"%string, VStr "a1"); ("title"%string, VStr "Home")]
  | 23%nat => [("deleted"%string, VBoolean false); ("parent"%string, VStr "p4"); ("sort"%string, VStr "a0")]
  | 24%nat => [("deleted"%string, VBoolean false); ("parent"%string, VStr "p3"); ("sort"%string, VStr "a0")]
  | 3%nat => [("v1"%string, VMap 31%nat); ("v2"%string, VMap 32%nat); ("v3"%string, VMap 33%nat)]
  | 31%nat => [("block"%string, VStr "b1"); ("boundary"%string, VBoolean true);
               ("deleted"%string, VBoolean false); ("sort"%string, VStr "a1")]
  | 32%nat => [("block"%string, VStr "b2"); ("deleted"%string, VBoolean false); ("sort"%string, VStr "a0")]
  | 33%nat => [("block"%string, VStr "b1"); ("deleted"%string, VBoolean true); ("sort"%string, VStr "a2")]
  | _ => []
  end.

#[export] Instance demo_doc : AutoDoc := {|
  ObjId := nat;
  ROOT := 0%nat;
  doc_get o key := find_map (fun '(k, v) => if String.eqb k key then Some v else None) (demo_map o);
  map_range := demo_map;
|}.

#[export] Instance demo_doc_laws : AutoDocLaws demo_doc.
Proof.
  split. intros o. cbn. do 34 (destruct o as [|o]; [cbn; repeat constructor|]). constructor.
Qed.

(** A removed view is left out; the rest stands in the order of the keys. *)
Example demo_read :
  read = [mkPlaced [97; 48] (mkView "v2" "b2" false KUnknown);
          mkPlaced [97; 49] (mkView "v1" "b1" true KText)].
Proof. vm_compute. reflexivity. Qed.

(** The two pages that name each other as parents are hidden. *)
Example demo_pages :
  pages = Some [mkPage "p2" None "Home"; mkPage "p1" (Some "p2"%string) "Notes"].
Proof. vm_compute. reflexivity. Qed.

Definition demo_view (id : string) : View := mkView id "b1" false KText.

Lemma pages_correct_witness :
  pages = Some [mkPage "p2" None "Home"; mkPage "p1" (Some "p2"%string) "Notes"] /\
  rooted (sorted PAGES) (mkPage "p1" (Some "p2"%string) "Notes").
Proof.
  destruct (@pages_correct demo_doc demo_doc_laws) as (tree & Ht & _ & _ & Hr).
  assert (pages = Some [mkPage "p2" None "Home"; mkPage "p1" (Some "p2"%string) "Notes"]) as E
    by (vm_compute; reflexivity).
  split; [exact E|]. apply Hr. rewrite E in Ht. injection Ht as <-. right. left.
Defined.

Definition demo_order : Order := [mkPlaced [97; 48] (demo_view "v1"); mkPlaced [97; 49] (demo_view "v2")].

Lemma order_refines_list_witness :
  view <$> run_ops demo_order [OpPlace (Some "v1"%string) (demo_view "v3"); OpRemove "v1"] =
    [demo_view "v3"; demo_view "v2"].
Proof.
  destruct (order_refines_list demo_order
    [OpPlace (Some "v1"%string) (demo_view "v3"); OpRemove "v1"]) as [E _].
  - split.
    + repeat constructor; vm_compute; reflexivity.
    + repeat constructor; vm_compute; reflexivity.
    + cbn. apply NoDup_ListNoDup. repeat constructor; cbn; intuition discriminate.
  - cbn. apply NoDup_ListNoDup. repeat constructor; cbn; intuition discriminate.
  - rewrite E. vm_compute. reflexivity.
Defined.

Lemma order_ok_preserved_witness :
  order_ok read /\ order_ok (insert (set_boundary (remove read "v1") "v2" true) [97; 48] (demo_view "v9")).
Proof.
  assert (order_ok read) as Hr.
  { apply (order_ok_preserved [] [97; 48] (demo_view "v9") "v1" true).
    intros e He Hn. revert He. vm_compute in Hn |- *.
    intros He. apply list_elem_of_In in He. cbn in He. intuition (subst; discriminate). }
  split; [exact Hr|].
  assert (order_ok (remove read "v1")) as Hm
    by (apply (order_ok_preserved read [97; 48] (demo_view "v9") "v1" true); exact Hr).
  assert (order_ok (set_boundary (remove read "v1") "v2" true)) as Hb
    by (apply (order_ok_preserved (remove read "v1") [97; 48] (demo_view "v9") "v2" true); exact Hm).
  apply (order_ok_preserved (set_boundary (remove read "v1") "v2" true) [97; 48] (demo_view "v9") "v1" true);
    [exact Hb|].
  intros Hin. apply list_elem_of_In in Hin. vm_compute in Hin. intuition discriminate.
Defined.

(** Two views with the same key, from two devices. *)
Definition demo_ties : Order := [mkPlaced [97; 48] (demo_view "v1"); mkPlaced [97; 48] (demo_view "v2")].

Lemma place_lands_after_witness :
  exists order' i j, place demo_ties (Some "v1"%string) (demo_view "v3") = Ok order' /\ order_ok order' /\
    position order' "v1" = Some i /\ position order' "v3" = Some j /\ (i < j)%nat.
Proof.
  apply (place_lands_after demo_ties "v1" (mkPlaced [97; 48] (demo_view "v1")) (demo_view "v3")).
  - split.
    + repeat constructor; vm_compute; reflexivity.
    + cbn. apply NoDup_ListNoDup. repeat constructor; cbn; intuition discriminate.
  - left.
  - reflexivity.
  - vm_compute. reflexivity.
  - intros Hin. apply list_elem_of_In in Hin. cbn in Hin. intuition discriminate.
Defined.
